(* ===== verification/_CoqProject ===== *)
-Q . S2P
Prelude.v
Text.v
SubLib.v
Cryptde.v
Wallet.v
Route.v
Utils.v
Printing.v
Containers.v
SequenceBuffer.v
Messages.v
Hopper.v
Database.v
Gossip.v
GossipAcceptor.v
Neighborhood.v
Framers.v
StreamReader.v
HttpFramer.v
Dns.v
Accounts.v
Blockchain.v
Accountant.v
DbInit.v
ProtocolPacks.v
ProxyServer.v
StreamWriters.v
StreamHandlerPool.v
ProxyClient.v
DnsModifier.v
ResolvConf.v
DynamicStore.v
WinDns.v
DnsUtility.v
MultiConfig.v
Configurator.v
StandardConfigurator.v
Bip39.v
WalletRecovery.v
Serialization.v
CryptdeReal.v
Joining.v
DotGraph.v
UiGateway.v
ActorSystem.v
Startup.v
Bootstrapper.v
RunModes.v
PortExposer.v
EndToEnd.v
