(* ===== verification/Prelude.v ===== *)
(** * A verification of the Prometheus (SubstratumNode) Node

    ** The program

    A Node lets local clients (browsers) reach servers through other Nodes. A client's bytes come in
    over a local connection, are cut into HTTP or TLS packets, become the payload of a CORES package that is
    encrypted for an exit Node and travels over a route of encrypted hops, and leave the network at the exit
    Node, which opens a connection to the server. The answer travels back over the second half of the same
    route. Nodes learn of each other by Gossip, charge each other for what they route, and settle debts on a
    block chain. The program is a set of actors that share nothing and send each other messages:

      - the Dispatcher and the StreamHandlerPool own the connections to clients and other Nodes;
      - the ProxyServer stands between clients and the Hopper;
      - the Hopper puts packages on their way, forwards them, and delivers them to the local actors;
      - the ProxyClient is the exit: it stands between the Hopper and servers;
      - the Neighborhood keeps a graph of Nodes, answers route queries from it, and gossips;
      - the Accountant records services and payments; the BlockchainBridge pays and looks for payments;
      - the UiGateway takes requests of a user interface and brings it the answers;
      - a DNS server, outside the actors, answers every name with the local host, so that clients come.

    ** Files and sources (under src/node/src)

    - [Prelude]: results, panics, bind notations, machine-width integers, and the lemmas and tactics on
      them that all files share. [Text]: Rust's [str] operations. [Utils] and [Printing]: sub_lib/utils.rs.
    - [SubLib]: sub_lib/data_version.rs, node_addr.rs and the small shared types. [Messages]: the payloads
      and messages the actors exchange. [Containers]: sub_lib/bidi_hashmap.rs and ttl_hashmap.rs, as two
      Modules with one operation per method.
    - [Cryptde]: sub_lib/cryptde.rs; [CryptDENull] (cryptde_null.rs) and [CryptdeReal] (cryptde_real.rs, over libsodium; C22) are instances of the interface
      [CryptPair] against which everything that encrypts is proved. [Wallet]: sub_lib/wallet.rs,
      blockchain/payer.rs, bip32.rs, signature.rs and the ban cache. [Route]: sub_lib/route.rs and hop.rs.
    - [Hopper]: hopper/*.rs; Modules [ConsumingService], [RoutingService] and [HopperActor].
    - [Database]: neighborhood/node_record.rs and neighborhood_database.rs; [Gossip]: gossip.rs and
      gossip_producer.rs; [GossipAcceptor]: gossip_acceptor.rs, a Module per handler;
      [Neighborhood]: neighborhood/mod.rs and sub_lib/neighborhood.rs.
    - [Framers]: sub_lib/framer.rs, tls_framer.rs and json_framer.rs; [HttpFramer]: sub_lib/framer_utils.rs,
      http_packet_framer.rs and the two start finders; [StreamReader]: the masqueraders, discriminator.rs and
      stream_reader.rs; [SequenceBuffer]: sub_lib/sequence_buffer.rs and sequencer.rs;
      [StreamWriters]: stream_writer_sorted.rs and stream_writer_unsorted.rs;
      [StreamHandlerPool]: dispatcher.rs, stream_handler_pool.rs and stream_messages.rs.
    - [ProtocolPacks]: proxy_server/*_protocol_pack.rs, server_impersonator_*.rs,
      client_request_payload_factory.rs and sub_lib/binary_traverser.rs; [ProxyServer]: proxy_server/mod.rs.
    - [ProxyClient]: proxy_client/*.rs; Modules [ExitReader], [ExitWriter], [ExitPool] and the actor.
    - [Serialization]: how the keys, wallets, stream keys, numbered packets and records of the files above are written and read in
      any data format (their [Serialize] and [Deserialize]), in the database ([ToSql], [FromSql]), and how they are hashed.
    - [Dns]: entry_dns/packet_facade.rs and processing.rs.
    - [DbInit]: database/db_initializer.rs; [Accounts]: the tables it creates, config_dao.rs, persistent_configuration.rs, banned_dao.rs and the
      two DAOs of accountant/; [Blockchain]: blockchain/raw_transaction.rs, blockchain_interface.rs and
      blockchain_bridge.rs; [Accountant]: accountant/mod.rs.
    - Under src/dns_utility/src: [DnsModifier]: dns_utility.rs and dns_modifier.rs, the interface of a system's DNS
      and its client; its instances [ResolvConf] (resolv_conf_dns_modifier.rs), [DynamicStore]
      (dynamic_store_dns_modifier.rs) and [WinDns] (win_dns_modifier.rs, netsh.rs); [DnsUtility]: dns_modifier_factory.rs
      and the whole.
    - The start: [MultiConfig]: multi_config.rs; [Configurator]: node_configurator/mod.rs, the generation and recovery of wallets,
      and the real user of bootstrapper.rs; [StandardConfigurator]: node_configurator_standard.rs and the configuration of
      bootstrapper.rs; [ActorSystem] and [Startup]: actor_system_factory.rs; [Bootstrapper]: bootstrapper.rs, server_initializer.rs,
      privilege_drop.rs, crash_test_dummy.rs, listener_handler.rs, the discriminator factories and entry_dns/dns_socket_server.rs;
      [RunModes]: run_modes.rs and database/config_dumper.rs; [Bip39]: blockchain/bip39.rs and bip32.rs.
    - [UiGateway]: ui_gateway/*.rs and sub_lib/ui_gateway.rs; [DotGraph]: neighborhood/dot_graph.rs and the graphs of
      neighborhood_database.rs and gossip.rs. [PortExposer]: src/port_exposer/src/port_exposer.rs, a program of its own.

    - [Joining]: no code of its own; how a Node that is started with another's descriptor comes to be its neighbor.
    - [EndToEnd]: no code of its own; the components above together, from a client to a server and back.

    ** How code becomes definitions

    An actor's state is a Record with the source's fields; a handler is a function from state and message
    to an [outcome] of the new state and the list of messages it sends, in order. [outcome] is a value, a
    panic ([panic!], [expect], an index out of range), or exhausted fuel; Rust's [Result] is [result].
    [Recipient]s are left out of the states except for whether the actor is bound, without which it panics.
    Code that runs when an answer comes (a future's continuation) is a definition of its own that is given
    what the closure has captured: [route_answered] (ProxyServer), [connection_made] and
    [connection_failed] (StreamHandlerPool), [run_task] (ProxyClient), the rounds of the Accountant. Where
    such code shares state with other code, a step relation interleaves them: [ExitNode] and [reachable] in
    [ProxyClient], [handle] and [reachable] in [ProxyServer], [ui_step] in [UiGateway]. Readings of the clock, what the channel, the
    socket, the resolver and the network say, random draws (the salt of an encrypted seed among them), and the numbers of new channels are arguments.
    A future that waits for nothing from one point on runs in one step from there: the executor is a single thread, so that nothing comes in between.

    Integers are [Z] with the wrap-around of a release build written out ([wrap]); a [usize] that counts
    bytes in memory is a [nat]. [HashMap]s are [gmap]s and sets [gset]s; where the code iterates over one,
    the order is the class [HashOrder], of which only that it is a permutation is known. SQLite tables are
    maps, and what SQLite does beyond 64 bits is the class [Sqlite]. [f64] is the Standard Library's
    SpecFloat. Strings are lists of ASCII characters or of the bytes of their UTF-8.

    Code that is not in the repository is a class or an argument, with laws where they are needed, and each
    law has an instance: [Serde]/[SerdeOk] (serde_cbor; [countable_serde]), [Sodium]/[SodiumOk] (libsodium), [EthSign]/[EthSignOk] (secp256k1), [JsonLib]/[JsonLibOk] (serde_json, Base64),
    [TrustDns], [RegexDigits], [RegexSpaces], [ConfigLib]/[SeedLaws], [Rlp], [Web3], [StartupLib], [StandardLib]/[StandardLaws] (clap's and the other parsers), [IdWrapper], [Keyfile]/[KeyfileOk] (ethsign), [UiTrafficConverter] (serde_json), SHA-1, Keccak-256, the http crate's
    method parser and the rendering of keys; of the DNS utility, [CoreFoundation] and [SCDynamicStore] (macOS), [WinSystem] (Windows; [TwoInterfaces]) and
    the decimal digits of Unicode.

    ** What is proved

    - The whole way of a client's request and of the server's answer, through all of the components (C1).
      A request and its answer get through the network, hop by hop, each Node being paid (C2, round_trip_journey in [Route]); nothing is
      routed or handed to the exit without proof of payment (C5, C24).
    - From socket to socket: a client's data becomes a request with a route, is remembered and answered
      (C8); streams of different clients never mix (C9); at the exit, requests go to their server in order, whatever
      other requests, tasks and ends of streams come in between (C12), answers come back complete and in order whatever the interleaving (C10), and all of it is
      charged (C11). Data for other Nodes is masked, sent and unmasked (C13, C15). Writers and the
      sequence buffer refine a map of numbered packets (C16, C20, sequence_buffer_delivers_all in [SequenceBuffer]); framers cut a stream into the packets it
      consists of wherever the reads cut it (C19, and tls_stream_is_framed in [Framers]); hosts are found in TLS and HTTP requests (C17, C18).
    - A Node that is started with the descriptor of another one sends it its debut, and is taken in or passed on (C7).
    - The Neighborhood finds exactly the routes the rules allow, and the best (C3), answers route queries
      (C6), gossips to every neighbor and masks strangers (C23, gossip_reaches_every_neighbor in [Neighborhood]), keeps its database well-formed under
      any Gossip (C4), reads from the wire what another Node has written, in a format with strings of bytes (C21), and forgets a neighbor whose stream is shut down (stream_shutdown_forgets_neighbor in [Neighborhood]).
    - The Accountant's tables are a ledger (C14): just the debts that are due are paid, and just those whose transaction the chain took are settled (C25), delinquents are banned
      and forgiven exactly as the curves say (delinquency_scan_is_exact in [Accountant]); the configuration stays consistent (configuration_stays_consistent in [Accounts]);
      a database is whole once it is created, and what becomes of one whose creation was interrupted is stated exactly (C29).
    - The DNS server answers every packet without panics (C39), and with the local host (C38).
    - A Node that has started has no privileges left, listens where it says it does (C27) and its actors agree on rates, wallets
      and bindings (actors_agree in [ActorSystem]); they deal with their start messages without a panic, and bans outlive the restart (C26). Of virtual command lines the last that has an option wins (C30); those with which a start succeeds are stated exactly
      (C31); a second start with the same arguments has the same configuration and leaves the database as it is (C28);
      a new password is what was typed twice (new_password_is_confirmed in [Configurator]), and a created wallet is found again by it, and only by it
      (C34); wallets that were generated are recovered from what was then written down, their seed encrypted anew (C33, in [WalletRecovery]). What the user interface asks is answered once, where it was asked (C32).
    - The DNS utility does on Linux what its README shows (C35), and on any system that keeps its promises (modifier_session in [DnsUtility]); [ResolvConfLaws],
      [DynamicStoreLaws] and [WinLaws] are the promises of the three modifiers, proved. On Linux subverting and reverting are inverse up to a newline (C36);
      on Windows all interfaces are subverted or none, unless rolling back fails too (C37).
    - What does not hold is proved too: payments are credited at every scan (payment_is_credited_at_every_scan in [Accountant]), exorbitant rates are not checked (C40),
      answers are misnumbered after a CONNECT (answers_are_misnumbered in [StreamHandlerPool]), two requests in a row open two connections (flurry_opens_two_connections in
      [ProxyClient]), the configuration file outranks the command line (service_mode_order in [MultiConfig]), a rollback can lose the backup (rolling_back_loses_the_backup in
      [WinDns]), a malformed key brings the Neighborhood down (malformed_key_brings_neighborhood_down in [CryptdeReal]).
      The bidirectional map keeps its directions in step only if nothing is paired twice (bidi_map_directions_agree in [Containers]).

    ** Bounds and fuel

    Recursions that are not structural take fuel, and each has a lemma or a property that the fuel its callers give
    is enough: the route search one more than there are keys in the database (no Node is visited twice);
    loops over packets, names, frames and chunks one more than the bytes left, since each turn takes at least one;
    the unsorted writer one more than queued packets and answers of the socket together; decimal rendering one
    more than the binary logarithm. The loops of readers and sorted writers are structural in the
    answers of the socket.

    ** What is not modelled

    Logging and the texts of most errors; sends to actors that have died; the data formats themselves (serde_cbor, serde_json); sockets, UDP and tokio
    wrappers; clap, toml and the operating system's calls, which are arguments of the start; the setup of the logger and the
    panic hook; the user interface itself (node-ui); test code. *)
From stdpp Require Export base tactics list gmap sets strings sorting.
From Stdlib Require Export ZArith Lia.

Declare Scope node_scope.
Delimit Scope node_scope with node.
Global Open Scope Z_scope.

(** ** Results and panics

    [result] is Rust's [Result]; [outcome] is what running a piece of Rust code yields:
    a value, a panic ([panic!], [expect] on [None]/[Err], an index out of range), or, only
    in models whose recursion is bounded by fuel, exhaustion of that fuel. *)
Inductive result (A E : Type) : Type :=
| Ok (a : A)
| Err (e : E).
Arguments Ok {A E} _.
Arguments Err {A E} _.

Inductive outcome (A : Type) : Type :=
| Ret (a : A)
| Panic
| OutOfFuel.
Arguments Ret {A} _.
Arguments Panic {A}.
Arguments OutOfFuel {A}.

#[global] Instance result_eq_dec {A E} `{EqDecision A, EqDecision E} : EqDecision (result A E).
Proof. solve_decision. Defined.
#[global] Instance outcome_eq_dec {A} `{EqDecision A} : EqDecision (outcome A).
Proof. solve_decision. Defined.

Definition obind {A B} (c : outcome A) (k : A -> outcome B) : outcome B :=
  match c with
  | Ret a => k a
  | Panic => Panic
  | OutOfFuel => OutOfFuel
  end.

Definition rbind {A B E} (c : result A E) (k : A -> result B E) : result B E :=
  match c with
  | Ok a => k a
  | Err e => Err e
  end.

Notation "'let*' p ':=' c 'in' k" := (obind c (fun p => k))
  (at level 10, p pattern, c at level 100, k at level 200) : node_scope.
Notation "'let?' p ':=' c 'in' k" := (rbind c (fun p => k))
  (at level 10, p pattern, c at level 100, k at level 200) : node_scope.
Global Open Scope node_scope.

(** [Option::expect] and [Result::expect] *)
Definition expect {A} (o : option A) : outcome A :=
  match o with
  | Some a => Ret a
  | None => Panic
  end.

Definition expect_ok {A E} (r : result A E) : outcome A :=
  match r with
  | Ok a => Ret a
  | Err _ => Panic
  end.

Definition rmap_err {A E F} (f : E -> F) (r : result A E) : result A F :=
  match r with
  | Ok a => Ok a
  | Err e => Err (f e)
  end.

(** A loop over a slice whose body can panic, threading a state. *)
Fixpoint ofold {A S} (f : S -> A -> outcome S) (s : S) (l : list A) : outcome S :=
  match l with
  | [] => Ret s
  | x :: l' => let* s' := f s x in ofold f s' l'
  end.

(** [any]: it stops at the first for which [f] holds. *)
Fixpoint oany {A} (f : A -> outcome bool) (l : list A) : outcome bool :=
  match l with
  | [] => Ret false
  | x :: l' => let* b := f x in if b then Ret true else oany f l'
  end.

Fixpoint omapM {A B} (f : A -> outcome B) (l : list A) : outcome (list B) :=
  match l with
  | [] => Ret []
  | x :: l' => let* y := f x in let* ys := omapM f l' in Ret (y :: ys)
  end.

Lemma obind_ret_inv {A B} (c : outcome A) (k : A -> outcome B) b :
  obind c k = Ret b -> exists a, c = Ret a /\ k a = Ret b.
Proof. destruct c; simpl; intros; naive_solver. Qed.

Lemma oany_skip {A} (f : A -> outcome bool) (l l' : list A) : Forall (fun x => f x = Ret false) l -> oany f (l ++ l') = oany f l'.
Proof. induction 1 as [|x l Hx _ IH]; [done|]. cbn. by rewrite Hx. Qed.

Lemma rbind_ok_inv {A B E} (c : result A E) (k : A -> result B E) b :
  rbind c k = Ok b -> exists a, c = Ok a /\ k a = Ok b.
Proof. destruct c; simpl; intros; naive_solver. Qed.

Lemma expect_ret {A} (o : option A) a : expect o = Ret a <-> o = Some a.
Proof. destruct o; simpl; naive_solver. Qed.

Lemma expect_ok_ret {A E} (r : result A E) a : expect_ok r = Ret a <-> r = Ok a.
Proof. destruct r; simpl; naive_solver. Qed.

Lemma omapM_ret_Forall2 {A B} (f : A -> outcome B) l l' :
  omapM f l = Ret l' <-> Forall2 (fun x y => f x = Ret y) l l'.
Proof.
  revert l'. induction l as [|x l IH]; intros l'; simpl.
  - split; [intros [= <-]; constructor | inversion 1; done].
  - split.
    + intros (y & Hy & (ys & Hys & [= <-])%obind_ret_inv)%obind_ret_inv.
      constructor; [done | by apply IH].
    + inversion 1 as [|? y ? ys Hy Hys]; subst. rewrite Hy. simpl.
      apply IH in Hys. by rewrite Hys.
Qed.

Lemma ofold_inv {A S} (P : S -> Prop) (f : S -> A -> outcome S) l s s' :
  (forall s x s', x ∈ l -> P s -> f s x = Ret s' -> P s') ->
  P s -> ofold f s l = Ret s' -> P s'.
Proof.
  revert s. induction l as [|x l IH]; intros s Hf Hs; simpl.
  - by intros [= <-].
  - intros (s1 & H1 & H2)%obind_ret_inv. eapply (IH s1); [|by eapply (Hf s x); [left| |]|done].
    intros ? y ??. eapply Hf. by right.
Qed.

(** ** Machine integers

    A [w]-bit unsigned integer is a [Z] between 0 and [2^w - 1]; arithmetic of the release
    build wraps around. *)
Definition wrap (w z : Z) : Z := z mod 2 ^ w.
Definition uint (w z : Z) : Prop := 0 <= z < 2 ^ w.
Definition uintb (w z : Z) : bool := (0 <=? z) && (z <? 2 ^ w).

(** A byte string, [Vec<u8>] or [&[u8]]. *)
Abbreviation bytes := (list Z).
Definition bytes_ok (b : bytes) : Prop := Forall (uint 8) b.

Lemma uintb_uint w z : uintb w z = true <-> uint w z.
Proof. unfold uintb, uint. rewrite andb_true_iff, Z.leb_le, Z.ltb_lt. done. Qed.

Lemma wrap_uint w z : 0 <= w -> uint w (wrap w z).
Proof. intros. apply Z.mod_pos_bound. by apply Z.pow_pos_nonneg. Qed.

Lemma wrap_small w z : uint w z -> wrap w z = z.
Proof. apply Z.mod_small. Qed.

(** *** Shifts and masks as arithmetic *)
Lemma land_mask n x : 0 <= n -> Z.land x (2 ^ n - 1) = x mod 2 ^ n.
Proof. intros. rewrite <- Z.land_ones by done. by rewrite Z.ones_equiv, <- Z.sub_1_r. Qed.

Lemma land_mask_shifted n k x :
  0 <= n -> 0 <= k -> Z.land x ((2 ^ n - 1) * 2 ^ k) = ((x / 2 ^ k) mod 2 ^ n) * 2 ^ k.
Proof.
  intros Hn Hk. rewrite <- !Z.shiftl_mul_pow2, <- Z.shiftr_div_pow2 by done.
  rewrite <- (land_mask n) by done.
  apply Z.bits_inj'. intros i Hi.
  rewrite Z.land_spec, !Z.shiftl_spec, Z.land_spec by done.
  destruct (Z.le_gt_cases k i).
  - rewrite Z.shiftr_spec by lia. f_equal. f_equal. lia.
  - rewrite (Z.testbit_neg_r (2 ^ n - 1)) by lia. by rewrite !andb_false_r.
Qed.

Lemma lor_add k a b : 0 <= k -> 0 <= b < 2 ^ k -> Z.lor (a * 2 ^ k) b = a * 2 ^ k + b.
Proof.
  intros Hk Hb. symmetry. rewrite Z.add_nocarry_lxor; [apply Z.lxor_lor|].
  all: apply Z.bits_inj'; intros i Hi; rewrite Z.land_spec, Z.bits_0;
    rewrite <- Z.shiftl_mul_pow2, Z.shiftl_spec by done;
    destruct (Z.le_gt_cases k i);
    [ rewrite <- (Z.mod_small b (2 ^ k)), Z.mod_pow2_bits_high by lia; apply andb_false_r
    | rewrite Z.testbit_neg_r by lia; done ].
Qed.

(** Bounded quotients and remainders for [lia]. *)
Ltac norm_pow :=
  repeat match goal with
  | |- context [2 ^ Zpos ?p] => let v := eval compute in (2 ^ Zpos p) in change (2 ^ Zpos p) with v
  | H : context [2 ^ Zpos ?p] |- _ =>
      let v := eval compute in (2 ^ Zpos p) in change (2 ^ Zpos p) with v in H
  end.
Ltac divmod_lia := norm_pow; Z.to_euclidean_division_equations; lia.

(** ** Automation *)
Create HintDb node.

(** Invert every [Ret]/[Ok] equation of a bind in the context. *)
Ltac unbind :=
  repeat match goal with
  | H : obind _ _ = Ret _ |- _ =>
      apply obind_ret_inv in H; destruct H as (? & ? & ?)
  | H : rbind _ _ = Ok _ |- _ =>
      apply rbind_ok_inv in H; destruct H as (? & ? & ?)
  | H : expect _ = Ret _ |- _ => apply expect_ret in H
  | H : expect_ok _ = Ret _ |- _ => apply expect_ok_ret in H
  | H : Ret _ = Ret _ |- _ => injection H as H
  | H : Ok _ = Ok _ |- _ => injection H as H
  end; simplify_eq/=.

(** Split the goal on the scrutinee of a [match] or [if]. *)
Ltac case_all := repeat (case_match; simplify_eq/=).

(** Which element of a literal list? *)
Ltac elem_cases H :=
  repeat match type of H with
  | _ ∈ _ :: _ => apply elem_of_cons in H; destruct H as [H|H]
  | _ ∈ [] => by apply not_elem_of_nil in H
  end; simplify_eq/=.

(** ** Iterator adaptors whose closures can panic *)
Fixpoint ofilter {A} (f : A -> outcome bool) (l : list A) : outcome (list A) :=
  match l with
  | [] => Ret []
  | x :: l' =>
      let* b := f x in
      let* r := ofilter f l' in
      Ret (if b : bool then x :: r else r)
  end.

Fixpoint oskip_while {A} (f : A -> outcome bool) (l : list A) : outcome (list A) :=
  match l with
  | [] => Ret []
  | x :: l' => let* b := f x in if b : bool then oskip_while f l' else Ret l
  end.

Lemma ofilter_total {A} (f : A -> outcome bool) l :
  (forall x, x ∈ l -> exists b, f x = Ret b) ->
  exists r, ofilter f l = Ret r /\ (forall x, x ∈ r <-> x ∈ l /\ f x = Ret true).
Proof.
  induction l as [|x l IH]; intros Hf; simpl.
  - exists []. split; [done|]. set_solver.
  - destruct (Hf x) as [b Hb]; [left|]. rewrite Hb. simpl.
    destruct IH as (r & -> & Hr); [intros; apply Hf; by right|]. simpl. eexists. split; [done|].
    intros y. destruct b; rewrite ?elem_of_cons, Hr; naive_solver congruence.
Qed.

Lemma ofilter_panics {A} (f : A -> outcome bool) l x :
  x ∈ l -> f x = Panic -> (forall y, y ∈ l -> (exists b, f y = Ret b) \/ f y = Panic) -> ofilter f l = Panic.
Proof.
  induction l as [|y l IH]; intros Hx Hp Hf; [by apply elem_of_nil in Hx|]. cbn [ofilter].
  destruct (Hf y ltac:(left)) as [[b Hb]| ->]; [|done]. rewrite Hb. cbn [obind].
  apply elem_of_cons in Hx as [->|Hx]; [congruence|]. rewrite IH; [done..|]. intros z Hz. apply Hf. by right.
Qed.

Lemma ofilter_sublist {A} (f : A -> outcome bool) l r : ofilter f l = Ret r -> r `sublist_of` l.
Proof.
  revert r. induction l as [|x l IH]; intros r; simpl; [intros [= <-]; constructor|].
  intros (b & _ & (r' & Hr & [= <-])%obind_ret_inv)%obind_ret_inv.
  destruct b; [apply sublist_skip|apply sublist_cons]; by apply IH.
Qed.

Lemma oskip_while_total {A} (f : A -> outcome bool) l :
  (forall x, x ∈ l -> exists b, f x = Ret b) ->
  exists r, oskip_while f l = Ret r /\ (forall x, x ∈ r -> x ∈ l).
Proof.
  induction l as [|x l IH]; intros Hf; simpl.
  - by exists [].
  - destruct (Hf x) as [b Hb]; [left|]. rewrite Hb. simpl. destruct b.
    + destruct IH as (r & -> & Hr); [intros; apply Hf; by right|]. exists r. set_solver.
    + by exists (x :: l).
Qed.

Lemma omapM_total {A B} (f : A -> outcome B) l :
  (forall x, x ∈ l -> exists b, f x = Ret b) -> exists r, omapM f l = Ret r.
Proof.
  induction l as [|x l IH]; intros Hf; simpl; [by exists []|].
  destruct (Hf x) as [b ->]; [left|]. simpl.
  destruct IH as (r & ->); [intros; apply Hf; by right|]. by eexists.
Qed.

(** [flat_map] over a closure that can panic *)
Lemma elem_of_concat_omapM {A B} (f : A -> outcome (list B)) l yss y :
  omapM f l = Ret yss -> y ∈ concat yss <-> exists x ys, x ∈ l /\ f x = Ret ys /\ y ∈ ys.
Proof.
  intros Hall%omapM_ret_Forall2. induction Hall as [|x ys l yss Hx Hall IH]; simpl.
  - split; [by intros ?%not_elem_of_nil | by intros (x & ys & ?%not_elem_of_nil & _)].
  - rewrite elem_of_app, IH. split.
    + intros [Hy|(x' & ys' & Hx' & Hf & Hy)]; [exists x, ys | exists x', ys']; set_solver.
    + intros (x' & ys' & [->|Hx']%elem_of_cons & Hf & Hy); [left; congruence | right; eauto].
Qed.

(** *** [flat_map] over [Option]s *)
Lemma omap_cons {A B} (f : A -> option B) x l :
  omap f (x :: l) = match f x with Some y => y :: omap f l | None => omap f l end.
Proof. done. Qed.

Lemma length_omap_le {A B} (f : A -> option B) l : (length (omap f l) <= length l)%nat.
Proof.
  induction l as [|x l IH]; [done|]. rewrite omap_cons. destruct (f x); cbn [length]; lia.
Qed.

Lemma omap_mapM {A B} (f : A -> option B) l ys :
  mapM f l = Some ys -> omap f l = ys /\ length ys = length l.
Proof.
  revert ys. induction l as [|x l IH]; intros ys; [by intros [= <-]|].
  intros (y & Hx & (zs & Hl & [= <-])%bind_Some)%bind_Some. destruct (IH zs Hl) as [<- Hlen].
  rewrite omap_cons, Hx. split; [done|]. simpl. by rewrite Hlen.
Qed.
