(* ===== verification/Text.v ===== *)
(** * Text: what the sources use of Rust's [str]

    [split], [splitn(2, _)], [join], the decimal rendering of unsigned integers and
    [parse::<u16>]/[parse::<u8>], over lists of characters. *)
From S2P Require Import Prelude.
From Stdlib Require Import Ascii.

(** A Rust [String]/[&str] restricted to ASCII. *)
Abbreviation str := (list ascii).

(** Literal text. *)
Definition lit (s : string) : str := String.list_ascii_of_string s.

(** Between quotation marks *)
Definition quote : str := [ascii_of_nat 34].
Definition quoted (s : str) : str := quote ++ s ++ quote.

Definition ascii_code (c : ascii) : Z := Z.of_N (Ascii.N_of_ascii c).
Definition ascii_of_code (z : Z) : ascii := Ascii.ascii_of_N (Z.to_N z).

(** [s.split(c)]: always at least one piece. *)
Fixpoint split_on (c : ascii) (s : str) : list str :=
  match s with
  | [] => [[]]
  | x :: s' =>
      if decide (x = c) then [] :: split_on c s'
      else match split_on c s' with
           | [] => [[x]]
           | p :: ps => (x :: p) :: ps
           end
  end.

(** [s.splitn(2, c)] with a one-character delimiter *)
Fixpoint splitn2 (c : ascii) (s : str) : list str :=
  match s with
  | [] => [[]]
  | x :: s' =>
      if decide (x = c) then [[]; s']
      else match splitn2 c s' with
           | [] => [[x]]
           | p :: ps => (x :: p) :: ps
           end
  end.

(** [v.join(sep)] for a one-character separator *)
Fixpoint join_with (c : ascii) (ps : list str) : str :=
  match ps with
  | [] => []
  | [p] => p
  | p :: ps' => p ++ c :: join_with c ps'
  end.

(** Decimal digits of a non-negative number, most significant first: [format!("{}", n)]. *)
Definition digit (d : Z) : ascii := ascii_of_code (48 + d).

Fixpoint dec_fuel (fuel : nat) (n : Z) : str :=
  match fuel with
  | O => [digit (n mod 10)]
  | S f => if n <? 10 then [digit n] else dec_fuel f (n / 10) ++ [digit (n mod 10)]
  end.

Definition dec (n : Z) : str := dec_fuel (Z.to_nat (Z.log2 n)) n.

Definition digit_value (c : ascii) : option Z :=
  let z := ascii_code c in
  if (48 <=? z) && (z <=? 57) then Some (z - 48) else None.

(** The accumulation loop of [from_str_radix], checking for overflow at each step. *)
Fixpoint parse_digits (limit acc : Z) (s : str) : option Z :=
  match s with
  | [] => Some acc
  | c :: s' =>
      match digit_value c with
      | None => None
      | Some d =>
          let acc' := acc * 10 + d in
          if acc' <? limit then parse_digits limit acc' s' else None
      end
  end.

(** [s.parse::<uW>()]: an optional plus sign, then at least one digit. *)
Definition parse_uint (w : Z) (s : str) : option Z :=
  match s with
  | [] => None
  | "+"%char :: [] => None
  | "+"%char :: s' => parse_digits (2 ^ w) 0 s'
  | _ => parse_digits (2 ^ w) 0 s
  end.

(** ** Splitting what was joined *)
Lemma split_on_nonempty c s : split_on c s <> [].
Proof. destruct s; simpl; [done|]. case_decide; [done|]. by case_match. Qed.

Lemma split_on_clean c s : c ∉ s -> split_on c s = [s].
Proof.
  induction s as [|x s IH]; intros Hc; simpl; [done|].
  rewrite decide_False by set_solver. by rewrite IH by set_solver.
Qed.

Lemma split_on_app c p s : c ∉ p -> split_on c (p ++ c :: s) = p :: split_on c s.
Proof.
  induction p as [|x p IH]; intros Hc; simpl.
  - by rewrite decide_True.
  - rewrite decide_False by set_solver. by rewrite IH by set_solver.
Qed.

Lemma split_on_join c ps :
  ps <> [] -> Forall (fun p => c ∉ p) ps -> split_on c (join_with c ps) = ps.
Proof.
  induction ps as [|p ps IH]; intros Hne Hall; [done|].
  inversion_clear Hall as [|?? Hp Hps]. destruct ps as [|q ps].
  - by apply split_on_clean.
  - change (join_with c (p :: q :: ps)) with (p ++ c :: join_with c (q :: ps)).
    rewrite split_on_app by done. f_equal. by apply IH.
Qed.

Lemma splitn2_app c p s : c ∉ p -> splitn2 c (p ++ c :: s) = [p; s].
Proof.
  induction p as [|x p IH]; intros Hc; simpl.
  - by rewrite decide_True.
  - rewrite decide_False by set_solver. by rewrite IH by set_solver.
Qed.

Lemma splitn2_clean c s : c ∉ s -> splitn2 c s = [s].
Proof.
  induction s as [|x s IH]; intros Hc; simpl; [done|].
  rewrite decide_False by set_solver. by rewrite IH by set_solver.
Qed.

(** ** Decimal round trip *)
Lemma ascii_code_of_code z : 0 <= z < 256 -> ascii_code (ascii_of_code z) = z.
Proof. intros. unfold ascii_code, ascii_of_code. rewrite Ascii.N_ascii_embedding; lia. Qed.

Lemma ascii_code_back s : map ascii_of_code (map ascii_code s) = s.
Proof.
  induction s as [|c s IH]; simpl; [done|]. rewrite IH. f_equal. unfold ascii_of_code, ascii_code.
  by rewrite N2Z.id, Ascii.ascii_N_embedding.
Qed.

Lemma digit_value_digit d : 0 <= d < 10 -> digit_value (digit d) = Some d.
Proof.
  intros. unfold digit_value, digit. rewrite ascii_code_of_code by lia.
  rewrite andb_true_intro; [f_equal; lia | split; apply Z.leb_le; lia].
Qed.

Definition all_digits (s : str) : Prop := Forall (fun c => is_Some (digit_value c)) s.

Lemma dec_fuel_all_digits fuel n : 0 <= n -> all_digits (dec_fuel fuel n).
Proof.
  unfold all_digits. revert n. induction fuel as [|f IH]; intros n Hn; simpl.
  - constructor; [|done]. rewrite digit_value_digit by (apply Z.mod_pos_bound; lia). by eexists.
  - destruct (Z.ltb_spec n 10).
    + constructor; [|done]. rewrite digit_value_digit by lia. by eexists.
    + apply Forall_app. split; [apply IH; apply Z.div_pos; lia|]. constructor; [|done].
      rewrite digit_value_digit by (apply Z.mod_pos_bound; lia). by eexists.
Qed.

Lemma dec_all_digits n : 0 <= n -> all_digits (dec n).
Proof. apply dec_fuel_all_digits. Qed.

Lemma dec_nonempty n : dec n <> [].
Proof.
  unfold dec. destruct (Z.to_nat (Z.log2 n)); simpl; [done|].
  case_match; [done|]. by destruct (dec_fuel _ _).
Qed.

Lemma all_digits_no_sep c s : all_digits s -> digit_value c = None -> c ∉ s.
Proof.
  intros Hs Hc Hin. unfold all_digits in Hs. rewrite Forall_forall in Hs.
  apply Hs in Hin. rewrite Hc in Hin. by destruct Hin.
Qed.

Lemma parse_digits_app limit acc s1 s2 a :
  parse_digits limit acc s1 = Some a ->
  parse_digits limit acc (s1 ++ s2) = parse_digits limit a s2.
Proof.
  revert acc. induction s1 as [|c s1 IH]; intros acc; simpl; [by intros [= ->]|].
  destruct (digit_value c); [|done]. case_match; [apply IH | done].
Qed.

Lemma log2_div10 n : 10 <= n -> Z.log2 (n / 10) < Z.log2 n.
Proof.
  intros. assert (n / 10 <= n / 2) by divmod_lia.
  assert (Z.log2 (n / 10) <= Z.log2 (n / 2)) by by apply Z.log2_le_mono.
  assert (Z.log2 (n / 2) = Z.log2 n - 1); [|lia].
  change (n / 2) with (n / 2 ^ 1). rewrite <- Z.shiftr_div_pow2 by lia.
  rewrite Z.log2_shiftr by lia. pose proof (Z.log2_le_mono 2 n). simpl in *. lia.
Qed.

Lemma parse_dec_fuel limit fuel n :
  0 <= n < limit -> Z.log2 n <= Z.of_nat fuel -> parse_digits limit 0 (dec_fuel fuel n) = Some n.
Proof.
  revert n. induction fuel as [|f IH]; intros n Hn Hf; simpl.
  - assert (n < 2). { apply Z.log2_lt_cancel. simpl. pose proof (Z.log2_nonneg n).
      change (Z.log2 2) with 1. lia. }
    rewrite digit_value_digit by divmod_lia. rewrite Z.mod_small by lia.
    simpl. rewrite (proj2 (Z.ltb_lt _ _)) by lia. done.
  - destruct (Z.ltb_spec n 10).
    + simpl. rewrite digit_value_digit by lia. simpl.
      rewrite (proj2 (Z.ltb_lt _ _)) by lia. done.
    + pose proof (log2_div10 n). rewrite (parse_digits_app _ _ _ _ (n / 10)).
      2:{ apply IH; [divmod_lia | lia]. }
      simpl. rewrite digit_value_digit by divmod_lia.
      assert (n / 10 * 10 + n mod 10 = n) as -> by divmod_lia.
      rewrite (proj2 (Z.ltb_lt _ _)) by lia. done.
Qed.

Lemma parse_uint_dec w n : uint w n -> parse_uint w (dec n) = Some n.
Proof.
  intros Hn. unfold parse_uint.
  assert (Hd : parse_digits (2 ^ w) 0 (dec n) = Some n).
  { apply parse_dec_fuel; [done|]. pose proof (Z.log2_nonneg n). lia. }
  assert (Hplus : "+"%char ∉ dec n).
  { apply all_digits_no_sep; [apply dec_all_digits; unfold uint in Hn; lia | done]. }
  pose proof (dec_nonempty n). destruct (dec n) as [|c s] eqn:E; [done|].
  assert (c <> "+"%char) by set_solver.
  destruct c as [[] [] [] [] [] [] [] []]; try done.
Qed.

Lemma parse_digits_bound limit acc s n :
  0 <= acc < limit -> parse_digits limit acc s = Some n -> 0 <= n < limit.
Proof.
  revert acc. induction s as [|c s IH]; intros acc Hacc; simpl; [by intros [= <-]|].
  destruct (digit_value c) as [d|] eqn:E; [|done].
  destruct (Z.ltb_spec (acc * 10 + d) limit); [|done].
  apply IH. unfold digit_value in E. case_match eqn:E2; [|done].
  apply andb_true_iff in E2 as [?%Z.leb_le ?%Z.leb_le]. simplify_eq. lia.
Qed.

Lemma parse_uint_bound w s n : 0 <= w -> parse_uint w s = Some n -> uint w n.
Proof.
  intros Hw. assert (0 <= 0 < 2 ^ w). { split; [done|]. by apply Z.pow_pos_nonneg. }
  unfold parse_uint, uint.
  intros H'. destruct s as [|c s]; [done|].
  destruct c as [[] [] [] [] [] [] [] []];
    try (by eapply parse_digits_bound).
  destruct s; [done|]. by eapply parse_digits_bound.
Qed.
