(* ===== verification/SubLib.v ===== *)
(** * SubLib: the shared data types of [node/src/sub_lib]

    [DataVersion] (data_version.rs), the socket addresses of [std::net] as the Node uses
    them, [NodeAddr] (node_addr.rs), [Component], [Endpoint], [InboundClientData]
    (dispatcher.rs), [TransmitDataMsg] (stream_handler_pool.rs), [RatePack] and
    [NeighborhoodMode] (neighborhood.rs). *)
From S2P Require Import Prelude Text.
From Stdlib Require Import Ascii.

(** ** DataVersion: two 12-bit numbers packed in three bytes *)
Module DataVersion.

Record DataVersion := mk { byte0 : Z; byte1 : Z; byte2 : Z }.

#[global] Instance DataVersion_eq_dec : EqDecision DataVersion.
Proof. solve_decision. Defined.

Inductive version_error := MajorOutOfBounds | MinorOutOfBounds | UnableToParse.

Definition new (major minor : Z) : result DataVersion version_error :=
  if 4096 <=? major then Err MajorOutOfBounds
  else if 4096 <=? minor then Err MinorOutOfBounds
  else
    let a := Z.shiftr (Z.land major 0xFF0) 4 in
    let b := Z.lor (wrap 16 (Z.shiftl (Z.land major 0x0F) 4)) (Z.shiftr (Z.land minor 0xF00) 8) in
    let c := Z.land minor 0xFF in
    Ok (mk (wrap 8 a) (wrap 8 b) (wrap 8 c)).

Definition major (v : DataVersion) : Z :=
  Z.lor (wrap 16 (Z.shiftl (byte0 v) 4)) (Z.shiftr (Z.land (byte1 v) 0xF0) 4).

Definition minor (v : DataVersion) : Z :=
  Z.lor (wrap 16 (Z.shiftl (Z.land (byte1 v) 0x0F) 8)) (byte2 v).

Definition to_string (v : DataVersion) : str := dec (major v) ++ "."%char :: dec (minor v).

Definition from_str (value : str) : result DataVersion version_error :=
  match split_on "."%char value with
  | [p0; p1] =>
      match parse_uint 16 p0 with
      | None => Err UnableToParse
      | Some mj =>
          match parse_uint 16 p1 with
          | None => Err UnableToParse
          | Some mn => new mj mn
          end
      end
  | _ => Err UnableToParse
  end.

Definition wf (v : DataVersion) : Prop := uint 8 (byte0 v) /\ uint 8 (byte1 v) /\ uint 8 (byte2 v).

(** *** The packing as arithmetic *)
Lemma new_spec mj mn :
  uint 12 mj -> uint 12 mn ->
  new mj mn = Ok (mk (mj / 16) (mj mod 16 * 16 + mn / 256) (mn mod 256)).
Proof.
  unfold uint. intros Hj Hn. unfold new.
  rewrite !(proj2 (Z.leb_gt _ _)) by lia.
  change 0xFF0 with ((2 ^ 8 - 1) * 2 ^ 4). change 0xF00 with ((2 ^ 4 - 1) * 2 ^ 8).
  change 0x0F with (2 ^ 4 - 1). change 0xFF with (2 ^ 8 - 1).
  rewrite !land_mask_shifted, !land_mask by lia.
  rewrite !Z.shiftr_div_pow2, Z.shiftl_mul_pow2, !Z.div_mul by lia.
  unfold wrap. rewrite (Z.mod_small (mj mod 2 ^ 4 * 2 ^ 4)) by divmod_lia.
  rewrite lor_add by divmod_lia. f_equal. f_equal; divmod_lia.
Qed.

Lemma major_spec v : wf v -> major v = byte0 v * 16 + byte1 v / 16.
Proof.
  unfold wf, uint. intros (H0 & H1 & H2). unfold major.
  change 0xF0 with ((2 ^ 4 - 1) * 2 ^ 4). rewrite land_mask_shifted by lia.
  rewrite Z.shiftr_div_pow2, Z.shiftl_mul_pow2, Z.div_mul by lia.
  rewrite wrap_small by (unfold uint; lia). rewrite lor_add by divmod_lia. divmod_lia.
Qed.

Lemma minor_spec v : wf v -> minor v = byte1 v mod 16 * 256 + byte2 v.
Proof.
  unfold wf, uint. intros (H0 & H1 & H2). unfold minor.
  change 0x0F with (2 ^ 4 - 1). rewrite land_mask, Z.shiftl_mul_pow2 by lia.
  rewrite wrap_small by (unfold uint; divmod_lia). rewrite lor_add by lia. divmod_lia.
Qed.

Lemma new_wf mj mn v : uint 16 mj -> uint 16 mn -> new mj mn = Ok v -> wf v.
Proof.
  unfold uint. intros Hj Hn Hv.
  destruct (Z.leb_spec 4096 mj) as [H|H]; [unfold new in Hv; rewrite (proj2 (Z.leb_le _ _) H) in Hv; done|].
  destruct (Z.leb_spec 4096 mn) as [H'|H'].
  { unfold new in Hv. rewrite (proj2 (Z.leb_gt _ _) H), (proj2 (Z.leb_le _ _) H') in Hv. done. }
  rewrite new_spec in Hv by (unfold uint; lia). simplify_eq. unfold wf, uint. simpl.
  split_and!; divmod_lia.
Qed.

Lemma new_rejects mj mn e : new mj mn = Err e -> 4096 <= mj \/ 4096 <= mn.
Proof. unfold new. destruct (Z.leb_spec 4096 mj), (Z.leb_spec 4096 mn); auto; done. Qed.

Lemma major_bound v : wf v -> uint 12 (major v).
Proof. intros H. rewrite major_spec by done. unfold wf, uint in *. divmod_lia. Qed.

Lemma minor_bound v : wf v -> uint 12 (minor v).
Proof. intros H. rewrite minor_spec by done. unfold wf, uint in *. divmod_lia. Qed.

Lemma new_of_parts v : wf v -> new (major v) (minor v) = Ok v.
Proof.
  intros H. rewrite new_spec by auto using major_bound, minor_bound.
  rewrite major_spec, minor_spec by done. destruct v as [a b c]. unfold wf, uint in H. simpl in *.
  f_equal. f_equal; divmod_lia.
Qed.

Lemma dot_not_digit n : 0 <= n -> "."%char ∉ dec n.
Proof. intros. apply all_digits_no_sep; [by apply dec_all_digits | done]. Qed.

End DataVersion.

(** ** [std::net] addresses *)
Inductive IpAddr := V4 (a b c d : Z) | V6 (segments : list Z).

#[global] Instance IpAddr_eq_dec : EqDecision IpAddr.
Proof. solve_decision. Defined.
#[global] Instance IpAddr_countable : Countable IpAddr.
Proof.
  refine (inj_countable'
    (fun ip => match ip with V4 a b c d => inl (a, b, c, d) | V6 s => inr s end)
    (fun x => match x with inl (a, b, c, d) => V4 a b c d | inr s => V6 s end) _).
  by intros [].
Defined.

Record SocketAddr := mkSocketAddr { ip : IpAddr; port : Z }.

#[global] Instance SocketAddr_eq_dec : EqDecision SocketAddr.
Proof. solve_decision. Defined.
#[global] Instance SocketAddr_countable : Countable SocketAddr.
Proof.
  refine (inj_countable' (fun s => (ip s, port s)) (fun x => mkSocketAddr x.1 x.2) _).
  by intros [].
Defined.

(** The ports of the traffic that clients send *)
Definition HTTP_PORT : Z := 80.
Definition TLS_PORT : Z := 443.

(** ** NodeAddr *)
Module NodeAddr.

Record NodeAddr := mk { ip_addr : IpAddr; ports : list Z }.

#[global] Instance NodeAddr_eq_dec : EqDecision NodeAddr.
Proof. solve_decision. Defined.
#[global] Instance NodeAddr_countable : Countable NodeAddr.
Proof.
  refine (inj_countable' (fun s => (ip_addr s, ports s)) (fun x => mk x.1 x.2) _).
  by intros [].
Defined.

(** [Vec::dedup]: drops consecutive repetitions. *)
Fixpoint dedup (l : list Z) : list Z :=
  match l with
  | [] => []
  | x :: l' =>
      match dedup l' with
      | [] => [x]
      | y :: l'' => if x =? y then y :: l'' else x :: y :: l''
      end
  end.

Definition new (ip : IpAddr) (ps : list Z) : NodeAddr := mk ip (dedup (merge_sort Z.le ps)).

(** The [Clone] instance is not the derived one: it goes through [new]. *)
Definition clone (na : NodeAddr) : NodeAddr := new (ip_addr na) (ports na).

Definition from_socket_addr (s : SocketAddr) : NodeAddr := new (ip s) [port s].

Definition into_socket_addrs (na : NodeAddr) : list SocketAddr :=
  map (mkSocketAddr (ip_addr na)) (ports na).

Definition into_socket_addr (na : NodeAddr) : outcome SocketAddr :=
  expect (into_socket_addrs na !! 0%nat).

Definition LOWEST_USABLE_INSECURE_PORT : Z := 1025.
Definition HIGHEST_USABLE_PORT : Z := 65535.

Inductive addr_error :=
| BadShape (input : str)
| BadIp (piece : str)
| BadPort (piece : str).

(** [IpAddr::from_str] on text without a colon, which can only be a dotted quad: up to
    three digits per octet. *)
Definition parse_octet (s : str) : option Z :=
  if bool_decide (s = []) || (3 <? length s)%nat then None else parse_digits 256 0 s.

Definition parse_ipv4 (s : str) : option IpAddr :=
  match split_on "."%char s with
  | [a; b; c; d] =>
      match parse_octet a, parse_octet b, parse_octet c, parse_octet d with
      | Some a', Some b', Some c', Some d' => Some (V4 a' b' c' d')
      | _, _, _, _ => None
      end
  | _ => None
  end.

Definition parse_port (s : str) : result Z addr_error :=
  match parse_uint 16 s with
  | None => Err (BadPort s)
  | Some p => if p <? LOWEST_USABLE_INSECURE_PORT then Err (BadPort s) else Ok p
  end.

(** The [fold] that keeps the first error. *)
Definition collect_ports (so_far : result (list Z) addr_error) (r : result Z addr_error)
  : result (list Z) addr_error :=
  match so_far, r with
  | Err e, _ => Err e
  | Ok _, Err e => Err e
  | Ok ps, Ok p => Ok (ps ++ [p])
  end.

Definition from_str (input : str) : result NodeAddr addr_error :=
  match split_on ":"%char input with
  | [p0; p1] =>
      match parse_ipv4 p0 with
      | None => Err (BadIp p0)
      | Some ip_addr =>
          match foldl collect_ports (Ok []) (map parse_port (split_on ";"%char p1)) with
          | Ok ps => Ok (new ip_addr ps)
          | Err msg => Err msg
          end
      end
  | _ => Err (BadShape input)
  end.

Definition show_v4 (a b c d : Z) : str := join_with "."%char [dec a; dec b; dec c; dec d].

(** The [Display] instance; [show_v6] is [std]'s rendering of an IPv6 address. *)
Definition to_string (show_v6 : list Z -> str) (na : NodeAddr) : str :=
  match ip_addr na with
  | V4 a b c d => show_v4 a b c d
  | V6 s => show_v6 s
  end ++ ":"%char :: join_with ";"%char (map dec (ports na)).

(** A normalised address: ports strictly increasing. *)
Definition normal (na : NodeAddr) : Prop := StronglySorted Z.lt (ports na).

Lemma dedup_sorted l : StronglySorted Z.le l -> StronglySorted Z.lt (dedup l).
Proof.
  induction 1 as [|x l Hs IH Hall]; simpl; [constructor|].
  assert (Hsub : forall y, y ∈ dedup l -> y ∈ l).
  { clear. induction l as [|z l IH]; simpl; [done|]. intros y.
    destruct (dedup l) as [|w l'] eqn:E; [set_solver|].
    destruct (Z.eqb_spec z w); subst; set_solver. }
  destruct (dedup l) as [|y l'] eqn:E; [repeat constructor|].
  destruct (Z.eqb_spec x y); [done|]. constructor; [done|].
  inversion_clear IH as [|?? Hs' Hall']. rewrite Forall_forall in Hall.
  assert (x <= y) by (apply Hall, Hsub; set_solver).
  constructor; [lia|]. eapply Forall_impl; [done|]. simpl. lia.
Qed.

Lemma dedup_elem y l : y ∈ dedup l <-> y ∈ l.
Proof.
  induction l as [|x l IH]; simpl; [done|].
  destruct (dedup l) as [|z l'] eqn:E.
  - rewrite !elem_of_cons. naive_solver.
  - destruct (Z.eqb_spec x z); subst; rewrite !elem_of_cons in *; naive_solver.
Qed.

Lemma dedup_id l : StronglySorted Z.lt l -> dedup l = l.
Proof.
  induction 1 as [|x l Hs IH Hall]; simpl; [done|]. rewrite IH.
  destruct l as [|y l]; [done|]. inversion_clear Hall. rewrite (proj2 (Z.eqb_neq _ _)); [done|lia].
Qed.

Lemma sorted_lt_le l : StronglySorted Z.lt l -> StronglySorted Z.le l.
Proof.
  induction 1 as [|x l ? IH Hall]; constructor; [done|].
  eapply Forall_impl; [done|]. simpl. lia.
Qed.

Lemma new_normal i ps : normal (new i ps).
Proof.
  unfold normal, new. simpl. apply dedup_sorted, (StronglySorted_merge_sort Z.le).
Qed.

Lemma elem_of_new p i ps : p ∈ ports (new i ps) <-> p ∈ ps.
Proof. simpl. rewrite dedup_elem. by rewrite (merge_sort_Permutation Z.le ps). Qed.

Lemma new_id na : normal na -> new (ip_addr na) (ports na) = na.
Proof.
  destruct na as [i ps]. unfold normal, new. simpl. intros Hs. f_equal.
  assert (merge_sort Z.le ps = ps) as ->; [|by apply dedup_id].
  apply (StronglySorted_unique Z.le);
    [apply (StronglySorted_merge_sort Z.le) | by apply sorted_lt_le | apply merge_sort_Permutation].
Qed.

Lemma clone_id na : normal na -> clone na = na.
Proof. apply new_id. Qed.

Lemma clone_normal na : normal (clone na).
Proof. apply new_normal. Qed.

Lemma clone_idemp na : clone (clone na) = clone na.
Proof. apply clone_id, clone_normal. Qed.

Lemma ip_addr_clone na : ip_addr (clone na) = ip_addr na.
Proof. done. Qed.

Lemma dedup_nil_inv l : dedup l = [] -> l = [].
Proof.
  destruct l as [|x l]; [done|]. simpl. destruct (dedup l); [done|]. by case_match.
Qed.

Lemma ports_clone_nil na : ports (clone na) = [] <-> ports na = [].
Proof.
  simpl. split.
  - intros H%dedup_nil_inv. apply Permutation_nil_r. rewrite <- H.
    apply symmetry, merge_sort_Permutation.
  - by intros ->.
Qed.

(** *** Parsing what was printed *)
Lemma dec_short n : uint 8 n -> (length (dec n) <= 3)%nat.
Proof.
  unfold uint. intros H. unfold dec.
  assert (Hf : forall f m, 0 <= m < 1000 -> (length (dec_fuel f m) <= 3)%nat); [|apply Hf; lia].
  assert (H1 : forall f m, 0 <= m < 10 -> (length (dec_fuel f m) = 1)%nat).
  { intros [|f] m Hm; simpl; [done|]. by rewrite (proj2 (Z.ltb_lt _ _)) by lia. }
  assert (H2 : forall f m, 0 <= m < 100 -> (length (dec_fuel f m) <= 2)%nat).
  { intros [|f] m Hm; simpl; [lia|]. case_match; simpl; [lia|].
    rewrite length_app, H1 by divmod_lia. simpl. lia. }
  intros [|f] m Hm; simpl; [lia|]. case_match; simpl; [lia|].
  rewrite length_app. pose proof (H2 f (m / 10) ltac:(divmod_lia)). simpl. lia.
Qed.

Lemma parse_octet_dec n : uint 8 n -> parse_octet (dec n) = Some n.
Proof.
  intros H. unfold parse_octet.
  rewrite bool_decide_false by apply dec_nonempty.
  rewrite (proj2 (Nat.ltb_ge _ _)) by by apply dec_short.
  apply (parse_dec_fuel 256); [done|]. pose proof (Z.log2_nonneg n). lia.
Qed.

Lemma dec_clean c n : 0 <= n -> digit_value c = None -> c ∉ dec n.
Proof. intros. apply all_digits_no_sep; [by apply dec_all_digits | done]. Qed.

Lemma parse_ipv4_show a b c d :
  uint 8 a -> uint 8 b -> uint 8 c -> uint 8 d ->
  parse_ipv4 (show_v4 a b c d) = Some (V4 a b c d).
Proof.
  intros Ha Hb Hc Hd. unfold parse_ipv4, show_v4. rewrite split_on_join; [|done|].
  - by rewrite !parse_octet_dec.
  - repeat constructor; apply dec_clean; unfold uint in *; (lia || done).
Qed.

Lemma not_elem_join c sep ps :
  c <> sep -> Forall (fun p => c ∉ p) ps -> c ∉ join_with sep ps.
Proof.
  intros Hc. induction 1 as [|p ps Hp Hps IH]; simpl; [set_solver|].
  destruct ps; [done|]. rewrite not_elem_of_app, not_elem_of_cons. done.
Qed.

Lemma collect_ports_ok ps acc :
  Forall (fun p => uint 16 p /\ LOWEST_USABLE_INSECURE_PORT <= p) ps ->
  foldl collect_ports (Ok acc) (map parse_port (map dec ps)) = Ok (acc ++ ps).
Proof.
  intros Hps. revert acc. induction Hps as [|p ps [Hp Hlow] Hps IH]; intros acc; simpl.
  - by rewrite app_nil_r.
  - assert (parse_port (dec p) = Ok p) as ->.
    { unfold parse_port. rewrite parse_uint_dec by done. by rewrite (proj2 (Z.ltb_ge _ _)). }
    simpl. rewrite IH. by rewrite <- app_assoc.
Qed.

End NodeAddr.

(** ** Dispatcher data: [Component], [Endpoint], messages *)
Inductive Component := Neighborhood | Hopper | ProxyServer | ProxyClient.

#[global] Instance Component_eq_dec : EqDecision Component.
Proof. solve_decision. Defined.

(** The byte the [Serialize] instance writes and [ComponentVisitor::visit_u8] reads. *)
Definition component_to_u8 (c : Component) : Z :=
  match c with
  | Neighborhood => 0
  | Hopper => 1
  | ProxyServer => 2
  | ProxyClient => 3
  end.

Definition component_visit_u8 (v : Z) : option Component :=
  match v with
  | 0 => Some Neighborhood
  | 1 => Some Hopper
  | 2 => Some ProxyServer
  | 3 => Some ProxyClient
  | _ => None
  end.

#[global] Instance Component_countable : Countable Component.
Proof.
  refine (inj_countable component_to_u8 component_visit_u8 _). by intros [].
Defined.

(** ** RatePack and NeighborhoodMode *)
Record RatePack := mkRatePack {
  routing_byte_rate : Z;
  routing_service_rate : Z;
  exit_byte_rate : Z;
  exit_service_rate : Z
}.

#[global] Instance RatePack_eq_dec : EqDecision RatePack.
Proof. solve_decision. Defined.
#[global] Instance RatePack_countable : Countable RatePack.
Proof.
  refine (inj_countable'
    (fun r => (routing_byte_rate r, routing_service_rate r, exit_byte_rate r, exit_service_rate r))
    (fun x => match x with (a, b, c, d) => mkRatePack a b c d end) _).
  by intros [].
Defined.

Definition DEFAULT_RATE_PACK : RatePack := mkRatePack 100 10000 101 10001.
Definition ZERO_RATE_PACK : RatePack := mkRatePack 0 0 0 0.

Module NeighborhoodMode.

Inductive NeighborhoodMode :=
| Standard (node_addr : NodeAddr.NodeAddr) (neighbor_configs : list str) (rate_pack : RatePack)
| ZeroHop
| OriginateOnly (neighbor_configs : list str) (rate_pack : RatePack)
| ConsumeOnly (neighbor_configs : list str).

#[global] Instance NeighborhoodMode_eq_dec : EqDecision NeighborhoodMode.
Proof. solve_decision. Defined.

Definition is_decentralized (m : NeighborhoodMode) : bool := bool_decide (m <> ZeroHop).

Definition neighbor_configs (m : NeighborhoodMode) : list str :=
  match m with
  | Standard _ cs _ => cs
  | ZeroHop => []
  | OriginateOnly cs _ => cs
  | ConsumeOnly cs => cs
  end.

Definition node_addr_opt (m : NeighborhoodMode) : option NodeAddr.NodeAddr :=
  match m with
  | Standard na _ _ => Some (NodeAddr.clone na)
  | _ => None
  end.

Definition rate_pack (m : NeighborhoodMode) : RatePack :=
  match m with
  | Standard _ _ rp => rp
  | OriginateOnly _ rp => rp
  | _ => ZERO_RATE_PACK
  end.

Definition accepts_connections (m : NeighborhoodMode) : bool :=
  match m with
  | Standard _ _ _ => true
  | _ => false
  end.

Definition routes_data (m : NeighborhoodMode) : bool :=
  match m with
  | Standard _ _ _ => true
  | OriginateOnly _ _ => true
  | _ => false
  end.

Definition is_standard (m : NeighborhoodMode) : bool :=
  match m with
  | Standard _ _ _ => true
  | _ => false
  end.

Definition is_originate_only (m : NeighborhoodMode) : bool :=
  match m with
  | OriginateOnly _ _ => true
  | _ => false
  end.

Definition is_consume_only (m : NeighborhoodMode) : bool :=
  match m with
  | ConsumeOnly _ => true
  | _ => false
  end.

Definition is_zero_hop (m : NeighborhoodMode) : bool :=
  match m with
  | ZeroHop => true
  | _ => false
  end.

End NeighborhoodMode.

(** ** Properties *)

(** A data version survives being printed and parsed again, and is the version made of its own
    major and minor parts: no bit of either is lost in the three bytes they share. *)
Theorem data_version_roundtrip (v : DataVersion.DataVersion) :
  DataVersion.wf v ->
  DataVersion.from_str (DataVersion.to_string v) = Ok v /\
  DataVersion.new (DataVersion.major v) (DataVersion.minor v) = Ok v.
Proof.
  intros H. split; [|by apply DataVersion.new_of_parts].
  pose proof (DataVersion.major_bound v H) as Hj. pose proof (DataVersion.minor_bound v H) as Hn.
  unfold uint in *. unfold DataVersion.from_str, DataVersion.to_string.
  rewrite split_on_app by (apply DataVersion.dot_not_digit; lia).
  rewrite split_on_clean by (apply DataVersion.dot_not_digit; lia).
  rewrite !parse_uint_dec by (unfold uint; lia). by apply DataVersion.new_of_parts.
Qed.

Lemma data_version_roundtrip_witness :
  DataVersion.from_str (DataVersion.to_string (DataVersion.mk 18 52 86))
    = Ok (DataVersion.mk 18 52 86) /\
  DataVersion.new 291 1110 = Ok (DataVersion.mk 18 52 86).
Proof.
  apply (data_version_roundtrip (DataVersion.mk 18 52 86)).
  unfold DataVersion.wf, uint; simpl; lia.
Defined.

(** The printed form of an IPv4 Node address with at least one usable port, its ports in order
    and without repetition, is parsed to the same address. *)
Theorem node_addr_display_roundtrip (show_v6 : list Z -> str) (na : NodeAddr.NodeAddr) a b c d :
  NodeAddr.ip_addr na = V4 a b c d ->
  uint 8 a -> uint 8 b -> uint 8 c -> uint 8 d ->
  NodeAddr.normal na -> NodeAddr.ports na <> [] ->
  Forall (fun p => uint 16 p /\ NodeAddr.LOWEST_USABLE_INSECURE_PORT <= p) (NodeAddr.ports na) ->
  NodeAddr.from_str (NodeAddr.to_string show_v6 na) = Ok na.
Proof.
  intros Hip Ha Hb Hc Hd Hnorm Hne Hps. unfold NodeAddr.from_str, NodeAddr.to_string. rewrite Hip.
  assert (Hdec : Forall (fun p => 0 <= p) (NodeAddr.ports na)).
  { eapply Forall_impl; [done|]. unfold uint. simpl. lia. }
  assert (Hcl : forall ch, digit_value ch = None ->
    Forall (fun p => ch ∉ p) (map dec (NodeAddr.ports na))).
  { intros ch Hch. apply Forall_map. eapply Forall_impl; [done|]. intros p Hp.
    by apply NodeAddr.dec_clean. }
  rewrite split_on_app.
  2:{ apply NodeAddr.not_elem_join; [done|]. unfold uint in *.
      repeat constructor; apply NodeAddr.dec_clean; (lia || done). }
  rewrite split_on_clean by (apply NodeAddr.not_elem_join; [done|by apply Hcl]).
  rewrite NodeAddr.parse_ipv4_show by done. rewrite split_on_join; [|by destruct (NodeAddr.ports na)|by apply Hcl].
  rewrite NodeAddr.collect_ports_ok by done. simpl. rewrite <- Hip. by rewrite NodeAddr.new_id.
Qed.

Definition sample_node_addr : NodeAddr.NodeAddr := NodeAddr.mk (V4 1 2 3 4) [1234; 2345].

Lemma node_addr_display_roundtrip_witness :
  NodeAddr.from_str (lit "1.2.3.4:1234;2345") = Ok sample_node_addr.
Proof.
  apply (node_addr_display_roundtrip (fun _ => []) sample_node_addr 1 2 3 4);
    unfold uint, NodeAddr.normal, NodeAddr.LOWEST_USABLE_INSECURE_PORT; simpl;
    try done; try lia; repeat constructor; lia.
Defined.
