(* ===== verification/Cryptde.v ===== *)
(** * Cryptde: keys, byte containers, the [CryptDE] trait and its null implementation

    cryptde.rs and cryptde_null.rs of [node/src/sub_lib]. The trait is a [Record] of
    operations; what one Node's [CryptDE] promises to another's is the class [CryptPair];
    [CryptDENull] is proved to be an instance. CBOR ([serde_cbor]) is the class [Serde] with
    its round-trip law [SerdeOk]. SHA-1, Keccak-256 and Base64 are parameters. *)
From S2P Require Import Prelude Text.

(** ** Newtypes over byte vectors *)
Record PrivateKey := mkPrivateKey { private_data : bytes }.
Record PublicKey := mkPublicKey { key_data : bytes }.
Record CryptData := mkCryptData { crypt_data : bytes }.
Record PlainData := mkPlainData { plain_data : bytes }.

#[global] Instance PublicKey_eq_dec : EqDecision PublicKey.
Proof. solve_decision. Defined.
#[global] Instance PublicKey_countable : Countable PublicKey.
Proof. refine (inj_countable' key_data mkPublicKey _). by intros []. Defined.
#[global] Instance CryptData_eq_dec : EqDecision CryptData.
Proof. solve_decision. Defined.
#[global] Instance CryptData_countable : Countable CryptData.
Proof. refine (inj_countable' crypt_data mkCryptData _). by intros []. Defined.
#[global] Instance PlainData_eq_dec : EqDecision PlainData.
Proof. solve_decision. Defined.
#[global] Instance PlainData_countable : Countable PlainData.
Proof. refine (inj_countable' plain_data mkPlainData _). by intros []. Defined.

Definition crypt_len (d : CryptData) : nat := length (crypt_data d).

(** *** Big-endian reads from a [PlainData] *)
Definition get_u8 (d : PlainData) (idx : nat) : outcome (option Z) :=
  if (length (plain_data d) <=? idx)%nat then Ret None
  else let* b := expect (plain_data d !! idx) in Ret (Some b).

Definition get_u16 (d : PlainData) (idx : nat) : outcome (option Z) :=
  if (length (plain_data d) <=? idx + 1)%nat then Ret None
  else
    let* b0 := expect (plain_data d !! idx) in
    let* b1 := expect (plain_data d !! (idx + 1)%nat) in
    Ret (Some (Z.lor (wrap 16 (Z.shiftl b0 8)) b1)).

Definition get_u24 (d : PlainData) (idx : nat) : outcome (option Z) :=
  if (length (plain_data d) <=? idx + 2)%nat then Ret None
  else
    let* b0 := expect (plain_data d !! idx) in
    let* b1 := expect (plain_data d !! (idx + 1)%nat) in
    let* b2 := expect (plain_data d !! (idx + 2)%nat) in
    Ret (Some (Z.lor (Z.lor (wrap 32 (Z.shiftl b0 16)) (wrap 32 (Z.shiftl b1 8))) b2)).

Definition get_u32 (d : PlainData) (idx : nat) : outcome (option Z) :=
  if (length (plain_data d) <=? idx + 3)%nat then Ret None
  else
    let* b0 := expect (plain_data d !! idx) in
    let* b1 := expect (plain_data d !! (idx + 1)%nat) in
    let* b2 := expect (plain_data d !! (idx + 2)%nat) in
    let* b3 := expect (plain_data d !! (idx + 3)%nat) in
    Ret (Some (Z.lor (Z.lor (Z.lor (wrap 32 (Z.shiftl b0 24)) (wrap 32 (Z.shiftl b1 16)))
                            (wrap 32 (Z.shiftl b2 8))) b3)).

(** ** The [CryptDE] trait *)
Inductive CryptdecError :=
| EmptyKey
| EmptyData
| InvalidKey (key prefix : bytes)
| InvalidSignature (msg : str)
| OpeningFailed
| OtherError (msg : str).

Record CryptDE := mkCryptDE {
  encode : PublicKey -> PlainData -> result CryptData CryptdecError;
  decode : CryptData -> result PlainData CryptdecError;
  random : nat -> bytes;
  private_key : outcome PrivateKey;
  public_key : PublicKey;
  sign : PlainData -> result CryptData CryptdecError;
  verify_signature : PlainData -> CryptData -> PublicKey -> outcome bool;
  hash : PlainData -> CryptData;
  public_key_to_descriptor_fragment : PublicKey -> outcome str;
  descriptor_fragment_to_first_contact_public_key : str -> result PublicKey str;
  digest : bytes
}.

(** What the Node at [c] may rely on about the Node at [d]: data [c] encrypts to [d]'s public
    key comes out at [d] unchanged, and signatures made by [d] verify at [c]. *)
Class CryptPair (c d : CryptDE) : Prop := {
  cp_key : key_data (public_key d) <> [];
  cp_encode : forall p, plain_data p <> [] ->
    exists e, encode c (public_key d) p = Ok e /\ decode d e = Ok p;
  cp_random : forall n, length (random c n) = n;
  cp_sign : forall p s, sign d p = Ok s -> verify_signature c p s (public_key d) = Ret true
}.

(** ** Serialisation *)
Class Serde (A : Type) := {
  to_vec : A -> option bytes;
  from_slice : bytes -> option A
}.

(** CBOR decodes what it encoded, and never encodes to nothing. The law is only claimed of the
    values for which the type's own [Serialize]/[Deserialize] pair is faithful. *)
Class SerdeOk (A : Type) `{!Serde A} (good : A -> Prop) : Prop := {
  serde_roundtrip : forall a, good a ->
    exists v, to_vec a = Some v /\ v <> [] /\ from_slice v = Some a
}.

Inductive codex_error :=
| SerializationError
| EncryptionError (e : CryptdecError)
| DecryptionError (e : CryptdecError)
| DeserializationError.

Definition encodex {T} `{!Serde T} (cryptde : CryptDE) (pk : PublicKey) (item : T)
  : result CryptData codex_error :=
  match to_vec item with
  | None => Err SerializationError
  | Some serialized =>
      match encode cryptde pk (mkPlainData serialized) with
      | Ok c => Ok c
      | Err e => Err (EncryptionError e)
      end
  end.

Definition decodex {T} `{!Serde T} (cryptde : CryptDE) (data : CryptData) : result T codex_error :=
  match decode cryptde data with
  | Err e => Err (DecryptionError e)
  | Ok decrypted =>
      match from_slice (plain_data decrypted) with
      | Some t => Ok t
      | None => Err DeserializationError
      end
  end.

(** [create_digest]: Keccak-256 of the concatenation *)
Definition create_digest (keccak256 : bytes -> bytes) (msg address : bytes) : bytes :=
  keccak256 (msg ++ address).

Lemma encodex_decodex {T} `{!Serde T} {good} `{!SerdeOk T good} c d `{!CryptPair c d} (t : T) :
  good t -> exists e, encodex c (public_key d) t = Ok e /\ decodex d e = Ok t.
Proof.
  intros Hg. destruct (serde_roundtrip t Hg) as (v & Hv & Hne & Hback).
  destruct (cp_encode (c := c) (d := d) (mkPlainData v)) as (e & He & Hd); [done|].
  exists e. unfold encodex, decodex. rewrite Hv, He, Hd. simpl. by rewrite Hback.
Qed.

Lemma encodex_inv {T} `{!Serde T} {good} `{!SerdeOk T good} c d `{!CryptPair c d} (t : T) e :
  good t -> encodex c (public_key d) t = Ok e -> decodex d e = Ok t.
Proof.
  intros Hg He. destruct (encodex_decodex c d t Hg) as (e' & He' & Hd). congruence.
Qed.

(** ** CryptDENull *)
Module CryptDENull.

Record CryptDENull := mk {
  n_private_key : PrivateKey;
  n_public_key : PublicKey;
  n_digest : bytes
}.

Definition other_key_data (in_key_data : bytes) : bytes :=
  map (fun b => wrap 8 (b + 128)) in_key_data.

Definition private_from_public (k : PublicKey) : PrivateKey :=
  mkPrivateKey (other_key_data (key_data k)).

Definition public_from_private (k : PrivateKey) : PublicKey :=
  mkPublicKey (other_key_data (private_data k)).

(** [new], given the 32 random bytes and the contract address of the chain *)
Definition new (keccak256 : bytes -> bytes) (random_key contract_address : bytes) : CryptDENull :=
  let priv := mkPrivateKey random_key in
  let pub := public_from_private priv in
  mk priv pub (create_digest keccak256 (key_data pub) contract_address).

Definition set_key_pair (keccak256 : bytes -> bytes) (self : CryptDENull) (pk : PublicKey) (contract_address : bytes)
  : CryptDENull :=
  mk (private_from_public pk) pk (create_digest keccak256 (key_data pk) contract_address).

Definition from (keccak256 : bytes -> bytes) (random_key : bytes) (pk : PublicKey) (contract_address : bytes) : CryptDENull :=
  set_key_pair keccak256 (new keccak256 random_key contract_address) pk contract_address.

Definition invalid_key_message (kd : bytes) (data : CryptData) : CryptdecError :=
  InvalidKey kd (take (Nat.min (length kd) (crypt_len data)) (crypt_data data)).

Definition encode_with_key_data (kd : bytes) (data : PlainData)
  : result CryptData CryptdecError :=
  if bool_decide (kd = []) then Err EmptyKey
  else if bool_decide (plain_data data = []) then Err EmptyData
  else Ok (mkCryptData (other_key_data kd ++ plain_data data)).

Definition decode_with_key_data (kd : bytes) (data : CryptData)
  : result PlainData CryptdecError :=
  if bool_decide (kd = []) then Err EmptyKey
  else if bool_decide (crypt_data data = []) then Err EmptyData
  else if (crypt_len data <? length kd)%nat then Err (invalid_key_message kd data)
  else
    let k := take (length kd) (crypt_data data) in
    let d := drop (length kd) (crypt_data data) in
    if bool_decide (k <> kd) then Err (invalid_key_message kd data)
    else Ok (mkPlainData d).

(** The two keys of a null CryptDE belong together. *)
Definition keyed (self : CryptDENull) : Prop :=
  key_data (n_public_key self) <> [] /\
  bytes_ok (key_data (n_public_key self)) /\
  n_private_key self = private_from_public (n_public_key self).

Lemma other_other kd : bytes_ok kd -> other_key_data (other_key_data kd) = kd.
Proof.
  unfold bytes_ok, other_key_data. induction 1 as [|b kd Hb Hkd IH]; simpl; [done|].
  rewrite IH. f_equal. unfold uint, wrap in *. divmod_lia.
Qed.

Lemma length_other kd : length (other_key_data kd) = length kd.
Proof. apply length_map. Qed.

Lemma other_ok kd : bytes_ok (other_key_data kd).
Proof.
  unfold bytes_ok, other_key_data. apply Forall_map, Forall_true. intros b.
  by apply wrap_uint.
Qed.

Lemma other_nil kd : other_key_data kd = [] <-> kd = [].
Proof. destruct kd; simpl; split; done. Qed.

Lemma new_keyed keccak256 random_key addr : random_key <> [] -> bytes_ok random_key ->
  keyed (new keccak256 random_key addr).
Proof.
  intros Hne Hok. split_and!; simpl; [by rewrite other_nil|apply other_ok|].
  unfold private_from_public. simpl. by rewrite other_other.
Qed.

Lemma from_keyed keccak256 random_key pk addr : key_data pk <> [] -> bytes_ok (key_data pk) ->
  keyed (from keccak256 random_key pk addr).
Proof. done. Qed.

(** Data encrypted for a key decodes with the other half of the pair only. *)
Lemma decode_encode kd p : kd <> [] -> plain_data p <> [] ->
  exists e, encode_with_key_data kd p = Ok e /\
    decode_with_key_data (other_key_data kd) e = Ok p.
Proof.
  intros Hkd Hp. exists (mkCryptData (other_key_data kd ++ plain_data p)).
  unfold encode_with_key_data, decode_with_key_data, crypt_len. simpl. split.
  - by rewrite !bool_decide_false.
  - rewrite (bool_decide_false (other_key_data kd = [])) by by rewrite other_nil.
    rewrite (bool_decide_false (_ ++ _ = [])) by by destruct kd.
    rewrite length_app, (proj2 (Nat.ltb_ge _ _)) by lia.
    rewrite take_app_length, drop_app_length, bool_decide_false by auto.
    by destruct p.
Qed.

(** *** Hashing, signing, and the trait instance *)
Section null.
(** [sha1] and Base64 come from other crates. *)
Context (sha1 : bytes -> bytes).
Context (base64_encode : bytes -> str) (base64_decode : str -> option bytes).

Definition null_hash (data : PlainData) : CryptData := mkCryptData (sha1 (plain_data data)).

Definition null_sign (self : CryptDENull) (data : PlainData) : result CryptData CryptdecError :=
  encode_with_key_data (private_data (n_private_key self))
    (mkPlainData (crypt_data (null_hash data))).

Definition null_verify_signature (data : PlainData) (signature : CryptData) (pk : PublicKey)
  : bool :=
  match decode_with_key_data (key_data pk) signature with
  | Err _ => false
  | Ok h => bool_decide (null_hash data = mkCryptData (plain_data h))
  end.

Definition null_descriptor_fragment_to_first_contact_public_key (fragment : str)
  : result PublicKey str :=
  if bool_decide (fragment = []) then Err (lit "Public key cannot be empty")
  else match base64_decode fragment with
       | Some half_key => Ok (mkPublicKey half_key)
       | None => Err (lit "Invalid Base64 value for public key: " ++ fragment)
       end.

(** [impl CryptDE for CryptDENull] *)
Definition as_cryptde (self : CryptDENull) : CryptDE := {|
  encode := fun pk data => encode_with_key_data (key_data pk) data;
  decode := fun data => decode_with_key_data (private_data (n_private_key self)) data;
  random := fun n => replicate n 52;
  private_key := Ret (n_private_key self);
  public_key := n_public_key self;
  sign := null_sign self;
  verify_signature := fun data signature pk => Ret (null_verify_signature data signature pk);
  hash := null_hash;
  public_key_to_descriptor_fragment := fun pk => Ret (base64_encode (key_data pk));
  descriptor_fragment_to_first_contact_public_key :=
    null_descriptor_fragment_to_first_contact_public_key;
  digest := n_digest self
|}.

#[export] Instance null_pair (c d : CryptDENull) :
  (forall b, sha1 b <> []) -> keyed d -> CryptPair (as_cryptde c) (as_cryptde d).
Proof.
  intros Hsha (Hne & Hok & Hpriv). constructor; simpl.
  - done.
  - intros p Hp. rewrite Hpriv. by apply decode_encode.
  - intros n. apply length_replicate.
  - intros p s Hs. unfold null_sign in Hs. rewrite Hpriv in Hs.
    destruct (decode_encode (other_key_data (key_data (n_public_key d)))
                (mkPlainData (crypt_data (null_hash p)))) as (e & He & Hd).
    { by rewrite other_nil. }
    { apply Hsha. }
    unfold private_from_public, private_data in Hs. rewrite He in Hs. injection Hs as ->.
    unfold null_verify_signature. rewrite other_other in Hd by done. rewrite Hd.
    f_equal. by apply bool_decide_eq_true.
Qed.
End null.
End CryptDENull.

(** ** A concrete serialiser

    Any countable type has one: its code written as a list of bits. It instantiates [Serde]
    where a concrete input is evaluated. *)
Fixpoint pos_to_bits (p : positive) : bytes :=
  match p with
  | xH => [1]
  | xO p' => 0 :: pos_to_bits p'
  | xI p' => 1 :: pos_to_bits p'
  end.

Fixpoint bits_to_pos (l : bytes) : option positive :=
  match l with
  | [] => None
  | [1] => Some xH
  | b :: l' => (fun p => if b =? 0 then xO p else xI p) <$> bits_to_pos l'
  end.

Lemma bits_to_pos_to_bits p : bits_to_pos (pos_to_bits p) = Some p.
Proof.
  induction p as [p IH|p IH|]; simpl; [| |done].
  - rewrite IH. by destruct p.
  - by rewrite IH.
Qed.

Lemma pos_to_bits_nonempty p : pos_to_bits p <> [].
Proof. by destruct p. Qed.

Definition countable_serde (A : Type) `{Countable A} : Serde A := {|
  to_vec := fun a => Some (pos_to_bits (countable.encode a));
  from_slice := fun v => p ← bits_to_pos v; countable.decode p
|}.

Lemma countable_serde_ok A `{Countable A} good : @SerdeOk A (countable_serde A) good.
Proof.
  constructor. intros a _. exists (pos_to_bits (countable.encode a)). simpl.
  split_and!; [done | apply pos_to_bits_nonempty |].
  rewrite bits_to_pos_to_bits. simpl. apply decode_encode.
Qed.

(** ** Properties *)

(** A [PlainData] of bytes is read big-endian, [None] exactly when the read would pass the
    end, and no read panics: [get_u32] is the four bytes in base 256 and agrees with two
    [get_u16] reads. *)
Theorem plain_data_reads_big_endian (d : PlainData) (idx : nat) :
  bytes_ok (plain_data d) ->
  get_u16 d idx = Ret (match plain_data d !! idx, plain_data d !! (idx + 1)%nat with
                       | Some a, Some b => Some (a * 256 + b)
                       | _, _ => None
                       end) /\
  get_u32 d idx = Ret (match plain_data d !! idx, plain_data d !! (idx + 1)%nat,
                             plain_data d !! (idx + 2)%nat, plain_data d !! (idx + 3)%nat with
                       | Some a, Some b, Some c, Some e =>
                           Some (((a * 256 + b) * 256 + c) * 256 + e)
                       | _, _, _, _ => None
                       end).
Proof.
  intros Hok. unfold bytes_ok in Hok. rewrite Forall_lookup in Hok.
  assert (Hlt : forall i, (i < length (plain_data d))%nat ->
    exists b, plain_data d !! i = Some b /\ 0 <= b < 256).
  { intros i Hi. destruct (lookup_lt_is_Some_2 (plain_data d) i Hi) as [b Hb].
    exists b. split; [done|]. by apply (Hok i). }
  unfold get_u16, get_u32. split.
  - destruct (Nat.leb_spec (length (plain_data d)) (idx + 1)).
    + rewrite (lookup_ge_None_2 (plain_data d) (idx + 1)) by lia. by case_match.
    + destruct (Hlt idx) as (a & -> & Ha); [lia|]. destruct (Hlt (idx + 1)%nat) as (b & -> & Hb); [lia|].
      simpl. rewrite Z.shiftl_mul_pow2, wrap_small by (unfold uint; lia).
      by rewrite lor_add by lia.
  - destruct (Nat.leb_spec (length (plain_data d)) (idx + 3)).
    + rewrite (lookup_ge_None_2 (plain_data d) (idx + 3)) by lia. by case_all.
    + destruct (Hlt idx) as (a & -> & Ha); [lia|]. destruct (Hlt (idx + 1)%nat) as (b & -> & Hb); [lia|].
      destruct (Hlt (idx + 2)%nat) as (c & -> & Hc); [lia|].
      destruct (Hlt (idx + 3)%nat) as (e & -> & He); [lia|].
      simpl. rewrite !Z.shiftl_mul_pow2, !wrap_small by (unfold uint; lia).
      rewrite (lor_add 24) by lia.
      replace (a * 2 ^ 24 + b * 2 ^ 16) with ((a * 2 ^ 8 + b) * 2 ^ 16) by lia.
      rewrite (lor_add 16) by lia.
      replace ((a * 2 ^ 8 + b) * 2 ^ 16 + c * 2 ^ 8) with (((a * 2 ^ 8 + b) * 2 ^ 8 + c) * 2 ^ 8) by lia.
      rewrite (lor_add 8) by lia. done.
Qed.

Lemma plain_data_reads_big_endian_witness :
  get_u32 (mkPlainData [1; 2; 3; 4]) 0 = Ret (Some 16909060).
Proof.
  refine (proj2 (plain_data_reads_big_endian (mkPlainData [1; 2; 3; 4]) 0 _)).
  repeat constructor; unfold uint; lia.
Defined.

(** The null CryptDE is a working crypto pair: what any null CryptDE encrypts to a keyed
    null CryptDE's public key decodes there to the same data, its signatures verify under its
    public key, and another private key of the same length cannot decode the data. *)
Theorem cryptde_null_pairing (sha1 : bytes -> bytes) (b64e : bytes -> str)
    (b64d : str -> option bytes) (c d : CryptDENull.CryptDENull) (p : PlainData) :
  (forall b, sha1 b <> []) -> CryptDENull.keyed d -> plain_data p <> [] ->
  (exists e, encode (CryptDENull.as_cryptde sha1 b64e b64d c) (CryptDENull.n_public_key d) p = Ok e /\
     decode (CryptDENull.as_cryptde sha1 b64e b64d d) e = Ok p /\
     forall d', length (private_data (CryptDENull.n_private_key d')) =
                length (private_data (CryptDENull.n_private_key d)) ->
       forall q, decode (CryptDENull.as_cryptde sha1 b64e b64d d') e = Ok q ->
         CryptDENull.n_private_key d' = CryptDENull.n_private_key d) /\
  (exists s, sign (CryptDENull.as_cryptde sha1 b64e b64d d) p = Ok s /\
     verify_signature (CryptDENull.as_cryptde sha1 b64e b64d c) p s (CryptDENull.n_public_key d) = Ret true).
Proof.
  intros Hsha Hk Hp. pose proof Hk as (Hne & Hok & Hpriv).
  pose proof (CryptDENull.null_pair sha1 b64e b64d c d Hsha Hk) as Hpair. split.
  - destruct (cp_encode (CryptPair := Hpair) p Hp) as (e & He & Hd). exists e. split_and!; [done..|].
    intros d' Hlen q. simpl in *. unfold CryptDENull.encode_with_key_data in He.
    case_bool_decide; [done|]. case_bool_decide; [done|]. simplify_eq.
    unfold CryptDENull.decode_with_key_data. simpl. case_bool_decide; [done|].
    case_bool_decide; [done|]. case_match; [done|]. case_bool_decide as Hbd; [done|].
    intros _. rewrite Hlen, Hpriv in Hbd. simpl in Hbd.
    rewrite take_app_length in Hbd. rewrite Hpriv.
    destruct (CryptDENull.n_private_key d') as [kd]. simpl in Hbd. unfold CryptDENull.private_from_public.
    by rewrite Hbd.
  - unfold sign, CryptDENull.as_cryptde, CryptDENull.null_sign.
    destruct (CryptDENull.decode_encode (private_data (CryptDENull.n_private_key d))
       (mkPlainData (crypt_data (CryptDENull.null_hash sha1 p)))) as (s & Hs & _).
    { rewrite Hpriv. simpl. by rewrite CryptDENull.other_nil. }
    { apply Hsha. }
    exists s. split; [done|]. by apply (cp_sign (CryptPair := Hpair)).
Qed.

Definition null_alice : CryptDENull.CryptDENull :=
  CryptDENull.from (fun b => b) (replicate 32 7) (mkPublicKey [65; 108; 105]) [1; 2].
Definition null_bob : CryptDENull.CryptDENull :=
  CryptDENull.from (fun b => b) (replicate 32 9) (mkPublicKey [66; 111; 98]) [1; 2].

Lemma cryptde_null_pairing_witness :
  exists e, CryptDENull.encode_with_key_data [66; 111; 98] (mkPlainData [9; 9]) = Ok e /\
    CryptDENull.decode_with_key_data [194; 239; 226] e = Ok (mkPlainData [9; 9]).
Proof.
  destruct (cryptde_null_pairing (fun _ => [0]) (fun _ => []) (fun _ => None)
              null_alice null_bob (mkPlainData [9; 9])) as ((e & He & Hd & _) & _).
  - done.
  - split_and!; [done | repeat constructor; unfold uint; lia | done].
  - done.
  - exists e. split; [exact He | exact Hd].
Defined.
