(* ===== verification/Wallet.v ===== *)
(** * Wallet: wallets, payers, the ban cache and the chain tables

    wallet.rs ([node/src/sub_lib]), payer.rs, bip32.rs and the chain tables of
    blockchain_interface.rs ([node/src/blockchain]), and [BannedCache] of banned_dao.rs. The
    ECDSA of the [ethsign] crate is the class [EthSign] with its law [EthSignOk]. *)
From S2P Require Import Prelude Text Cryptde.
From Stdlib Require Import Ascii.

(** ** Ethereum signatures *)
Record Signature := mkSignature { sig_v : Z; sig_r : bytes; sig_s : bytes }.

#[global] Instance Signature_eq_dec : EqDecision Signature.
Proof. solve_decision. Defined.
#[global] Instance Signature_countable : Countable Signature.
Proof.
  refine (inj_countable' (fun s => (sig_v s, sig_r s, sig_s s))
    (fun x => mkSignature x.1.1 x.1.2 x.2) _). by intros [].
Defined.

(** Keys of [ethsign] are opaque byte strings here. *)
Class EthSign := {
  eth_public : bytes -> bytes;
  eth_address : bytes -> bytes;
  eth_sign : bytes -> bytes -> result Signature str;
  eth_recover : Signature -> bytes -> option bytes;
  eth_verify : bytes -> Signature -> bytes -> result bool str
}.

(** A signature recovers to, and verifies under, the signer's public key. *)
Class EthSignOk `{!EthSign} : Prop := {
  eth_sign_recover : forall secret msg sig, eth_sign secret msg = Ok sig ->
    eth_recover sig msg = Some (eth_public secret) /\
    eth_verify (eth_public secret) sig msg = Ok true
}.

Record Bip32ECKeyPair := mkKeyPair { kp_public : bytes; kp_secret : bytes }.

#[global] Instance Bip32ECKeyPair_eq_dec : EqDecision Bip32ECKeyPair.
Proof. solve_decision. Defined.
#[global] Instance Bip32ECKeyPair_countable : Countable Bip32ECKeyPair.
Proof.
  refine (inj_countable' (fun k => (kp_public k, kp_secret k)) (fun x => mkKeyPair x.1 x.2) _).
  by intros [].
Defined.

Inductive WalletKind :=
| Address (address : bytes)
| KeyPair (keypair : Bip32ECKeyPair)
| WPublicKey (public : bytes)
| Uninitialized.

#[global] Instance WalletKind_eq_dec : EqDecision WalletKind.
Proof. solve_decision. Defined.
#[global] Instance WalletKind_countable : Countable WalletKind.
Proof.
  refine (inj_countable'
    (fun k => match k with
      | Address a => inl a | KeyPair k => inr (inl k)
      | WPublicKey p => inr (inr (Some p)) | Uninitialized => inr (inr None) end)
    (fun x => match x with
      | inl a => Address a | inr (inl k) => KeyPair k
      | inr (inr (Some p)) => WPublicKey p | inr (inr None) => Uninitialized end) _).
  by intros [].
Defined.

Record Wallet := mkWallet { kind : WalletKind }.

#[global] Instance Wallet_eq_dec : EqDecision Wallet.
Proof. solve_decision. Defined.
#[global] Instance Wallet_countable : Countable Wallet.
Proof. refine (inj_countable' kind mkWallet _). by intros []. Defined.

Inductive WalletError := InvalidAddress | SignatureError (kind : WalletKind).

(** [PartialEq] of key pairs compares the public halves only. *)
Definition keypair_eqb (a b : Bip32ECKeyPair) : bool := bool_decide (kp_public a = kp_public b).

Definition wallet_kind_eqb (self other : WalletKind) : bool :=
  match other, self with
  | Address o, Address s => bool_decide (s = o)
  | KeyPair o, KeyPair s => keypair_eqb s o
  | WPublicKey o, WPublicKey s => bool_decide (s = o)
  | Uninitialized, Uninitialized => true
  | _, _ => false
  end.

Definition wallet_eqb (self other : Wallet) : bool := wallet_kind_eqb (kind self) (kind other).

(** [From<SecretKey> for Bip32ECKeyPair] *)
Definition keypair_from_secret `{!EthSign} (secret : bytes) : Bip32ECKeyPair :=
  mkKeyPair (eth_public secret) secret.

Definition keypair_address `{!EthSign} (k : Bip32ECKeyPair) : bytes := eth_address (kp_public k).

Definition keypair_sign `{!EthSign} (k : Bip32ECKeyPair) (msg : bytes) : result Signature str :=
  eth_sign (kp_secret k) msg.

Section wallet.
Context `{!EthSign}.

Definition address (w : Wallet) : outcome bytes :=
  match kind w with
  | Address a => Ret a
  | WPublicKey public => Ret (eth_address public)
  | KeyPair k => Ret (keypair_address k)
  | Uninitialized => Panic
  end.

Definition as_address_wallet (w : Wallet) : outcome Wallet :=
  let* a := address w in Ret (mkWallet (Address a)).

Definition wallet_sign (w : Wallet) (msg : bytes) : result Signature WalletError :=
  match kind w with
  | KeyPair k =>
      match keypair_sign k msg with
      | Ok s => Ok s
      | Err _ => Err (SignatureError (kind w))
      end
  | _ => Err (SignatureError (kind w))
  end.

(** [verify]: only a key-pair wallet can verify; any other kind panics. *)
Definition wallet_verify (w : Wallet) (sig : Signature) (msg : bytes) : outcome bool :=
  match kind w with
  | KeyPair k =>
      match eth_verify (kp_public k) sig msg with
      | Ok r => Ret r
      | Err _ => Ret false
      end
  | _ => Panic
  end.

Definition congruent (self other : Wallet) : outcome bool :=
  if wallet_kind_eqb (kind self) (kind other) then Ret true
  else if negb (wallet_kind_eqb (kind self) Uninitialized)
          && negb (wallet_kind_eqb (kind other) Uninitialized)
  then let* a := address self in let* b := address other in Ret (bool_decide (a = b))
  else Ret false.
End wallet.

(** ** Payer *)
Record Payer := mkPayer { payer_wallet : Wallet; proof : Signature }.

#[global] Instance Payer_eq_dec : EqDecision Payer.
Proof. solve_decision. Defined.
#[global] Instance Payer_countable : Countable Payer.
Proof.
  refine (inj_countable' (fun p => (payer_wallet p, proof p)) (fun x => mkPayer x.1 x.2) _).
  by intros [].
Defined.

Section payer.
Context `{!EthSign}.

Definition payer_new (w : Wallet) (p : Signature) : outcome Payer :=
  let* aw := as_address_wallet w in
  Ret (mkPayer aw (mkSignature (sig_v p) (sig_r p) (sig_s p))).

Definition as_payer (keccak256 : bytes -> bytes) (w : Wallet) (pk contract_address : bytes)
  : outcome Payer :=
  match wallet_sign w (create_digest keccak256 pk contract_address) with
  | Ok p => payer_new w p
  | Err _ => Panic
  end.

Definition owns_secret_key (p : Payer) (digest : bytes) : outcome bool :=
  match eth_recover (proof p) digest with
  | Some public =>
      match eth_verify public (proof p) digest with
      | Ok true =>
          let* a := address (payer_wallet p) in Ret (bool_decide (eth_address public = a))
      | Ok false => Ret false
      | Err _ => Ret false
      end
  | None => Ret false
  end.
End payer.

(** ** BannedCache: the process-wide set of delinquent wallets *)
Abbreviation BannedCache := (gset Wallet).

Section banned.
Context `{!EthSign}.

Definition ban_insert (cache : BannedCache) (w : Wallet) : outcome BannedCache :=
  let* aw := as_address_wallet w in Ret ({[aw]} ∪ cache).

Definition ban_remove (cache : BannedCache) (w : Wallet) : outcome BannedCache :=
  let* aw := as_address_wallet w in Ret (cache ∖ {[aw]}).

Definition is_banned (cache : BannedCache) (w : Wallet) : outcome bool :=
  let* aw := as_address_wallet w in Ret (bool_decide (aw ∈ cache)).

Definition is_delinquent (cache : BannedCache) (p : Payer) : outcome bool :=
  is_banned cache (payer_wallet p).
End banned.

(** ** Chains *)
Definition TESTNET_CONTRACT_ADDRESS : bytes :=
  [0x28; 0xf3; 0xb3; 0xc8; 0x50; 0xff; 0x22; 0xa7; 0x43; 0x4c; 0x23; 0x58; 0x2a; 0x17; 0xa5;
   0xa4; 0x43; 0xa8; 0xdc; 0x24].
Definition MULTINODE_TESTNET_CONTRACT_ADDRESS : bytes :=
  [0x28; 0xf3; 0xb3; 0xc8; 0x50; 0xff; 0x22; 0x58; 0x2a; 0x4c; 0x23; 0x58; 0x2a; 0x17; 0xa5;
   0x1f; 0x08; 0x4d; 0xe6; 0x3a].
Definition MAINNET_CONTRACT_ADDRESS : bytes :=
  [0x28; 0xf3; 0xb3; 0xc8; 0x50; 0xff; 0x22; 0xa7; 0x43; 0x4c; 0x23; 0x58; 0x2a; 0x17; 0xa5;
   0xa4; 0x43; 0xa8; 0xdc; 0x3a].
Definition ZERO_ADDRESS : bytes := replicate 20 0.

Definition contract_address (chain_id : Z) : bytes :=
  match chain_id with
  | 1 => MAINNET_CONTRACT_ADDRESS
  | 2 => MULTINODE_TESTNET_CONTRACT_ADDRESS
  | 3 => TESTNET_CONTRACT_ADDRESS
  | _ => ZERO_ADDRESS
  end.

Definition chain_name_from_id (chain_id : Z) : str :=
  match chain_id with
  | 1 => lit "mainnet"
  | 2 => lit "dev"
  | 3 => lit "ropsten"
  | _ => lit "ropsten"
  end.

(** ASCII part of [str::to_lowercase] *)
Definition lower (c : ascii) : ascii :=
  let z := ascii_code c in
  if (65 <=? z) && (z <=? 90) then ascii_of_code (z + 32) else c.

Definition chain_id_from_name (name : str) : Z :=
  let n := map lower name in
  if bool_decide (n = lit "mainnet") then 1
  else if bool_decide (n = lit "dev") then 2
  else 3.

Definition contract_creation_block_from_chain_id (chain_id : Z) : Z :=
  match chain_id with
  | 1 => 6543790
  | 2 => 0
  | 3 => 6105370
  | _ => 6105370
  end.

(** ** Lemmas *)
Section lemmas.
Context `{!EthSign}.

Definition initialized (w : Wallet) : Prop := kind w <> Uninitialized.

Lemma address_total w : initialized w -> exists a, address w = Ret a.
Proof. unfold initialized, address. destruct (kind w); eauto; done. Qed.

Lemma kind_eqb_address w1 w2 :
  wallet_kind_eqb (kind w1) (kind w2) = true -> address w1 = address w2.
Proof.
  unfold address, wallet_kind_eqb, keypair_eqb, keypair_address.
  destruct (kind w1), (kind w2); try done; case_bool_decide; congruence.
Qed.

Lemma congruent_address w1 w2 a b :
  address w1 = Ret a -> address w2 = Ret b -> congruent w1 w2 = Ret (bool_decide (a = b)).
Proof.
  intros H1 H2. unfold congruent. destruct (wallet_kind_eqb (kind w1) (kind w2)) eqn:E.
  - apply kind_eqb_address in E. rewrite bool_decide_true; [done|congruence].
  - assert (wallet_kind_eqb (kind w1) Uninitialized = false) as ->.
    { unfold address in H1. by destruct (kind w1). }
    assert (wallet_kind_eqb (kind w2) Uninitialized = false) as ->.
    { unfold address in H2. by destruct (kind w2). }
    simpl. by rewrite H1, H2.
Qed.

(** The payer a key-pair wallet makes for a Node proves its ownership to that Node. *)
Lemma as_payer_owns `{!EthSignOk} keccak w secret pk addr p :
  kind w = KeyPair (keypair_from_secret secret) ->
  as_payer keccak w pk addr = Ret p ->
  owns_secret_key p (create_digest keccak pk addr) = Ret true /\
  payer_wallet p = mkWallet (Address (eth_address (eth_public secret))).
Proof.
  intros Hk. unfold as_payer, wallet_sign, keypair_sign. rewrite Hk. simpl.
  destruct (eth_sign secret _) as [sg|] eqn:Hs; [|done].
  apply eth_sign_recover in Hs as [Hr Hv].
  unfold payer_new, as_address_wallet, address. rewrite Hk. simpl. intros [= <-].
  split; [|done]. unfold owns_secret_key. destruct sg. simpl in *. rewrite Hr, Hv.
  unfold keypair_address, keypair_from_secret. simpl. by rewrite bool_decide_true.
Qed.
End lemmas.

(** ** Properties *)

(** Two initialised wallets of any kind are congruent exactly when they have the same
    address, so congruence is an equivalence on them and agrees with a ban: banning one wallet
    bans exactly the wallets congruent to it, besides those already banned. *)
Theorem ban_by_congruence `{!EthSign} (cache : BannedCache) (w1 w2 : Wallet) :
  initialized w1 -> initialized w2 ->
  exists cache' was_banned, ban_insert cache w1 = Ret cache' /\
    is_banned cache w2 = Ret was_banned /\
    exists c, congruent w1 w2 = Ret c /\
      is_banned cache' w2 = Ret (c || was_banned) /\
      exists cache'', ban_remove cache' w1 = Ret cache'' /\
        is_banned cache'' w2 = Ret (negb c && was_banned).
Proof.
  intros (a & Ha)%address_total (b & Hb)%address_total.
  pose proof (congruent_address _ _ _ _ Ha Hb) as Hc.
  unfold ban_insert, ban_remove, is_banned, as_address_wallet. rewrite Ha, Hb. simpl.
  do 2 eexists. split_and!; [done..|]. exists (bool_decide (a = b)). split_and!; [done| |].
  - f_equal. destruct (decide (a = b)) as [->|Hne].
    + rewrite !bool_decide_true by set_solver. done.
    + rewrite (bool_decide_false (a = b)) by done. simpl. apply bool_decide_ext. set_solver.
  - eexists. split; [done|]. f_equal. destruct (decide (a = b)) as [->|Hne].
    + rewrite (bool_decide_true (b = b)) by done. simpl. apply bool_decide_eq_false. set_solver.
    + rewrite (bool_decide_false (a = b)) by done. simpl. apply bool_decide_ext. set_solver.
Qed.

(** A concrete signature scheme for evaluation: the public key is the secret, a signature
    carries the key and the message. *)
Definition toy_eth : EthSign := {|
  eth_public := fun s => s;
  eth_address := fun p => p;
  eth_sign := fun s m => Ok (mkSignature 0 s m);
  eth_recover := fun sg m => if bool_decide (sig_s sg = m) then Some (sig_r sg) else None;
  eth_verify := fun p sg m => Ok (bool_decide (sig_r sg = p) && bool_decide (sig_s sg = m))
|}.

Lemma toy_eth_ok : @EthSignOk toy_eth.
Proof.
  constructor. intros secret msg sg [= <-]. simpl. by rewrite !bool_decide_true.
Qed.

Lemma ban_by_congruence_witness :
  exists cache', @ban_insert toy_eth ∅ (mkWallet (KeyPair (mkKeyPair [7] [7]))) = Ret cache' /\
    @is_banned toy_eth cache' (mkWallet (Address [7])) = Ret true.
Proof.
  destruct (@ban_by_congruence toy_eth ∅ (mkWallet (KeyPair (mkKeyPair [7] [7])))
              (mkWallet (Address [7]))) as (c1 & wb & H1 & H2 & c & Hc & H3 & _); [done..|].
  exists c1. split; [exact H1|]. rewrite H3. vm_compute in Hc. injection Hc as <-. reflexivity.
Defined.
