(* ===== verification/Route.v ===== *)
(** * Route: onion routes

    hop.rs and route.rs of [node/src/sub_lib]: a [Route] is a list of encrypted [LiveHop]s,
    each readable only by the Node it is addressed to. *)
From S2P Require Import Prelude Text SubLib Cryptde Wallet.

Record LiveHop := mkLiveHop {
  hop_key : PublicKey;
  hop_payer : option Payer;
  hop_component : Component
}.

#[global] Instance LiveHop_eq_dec : EqDecision LiveHop.
Proof. solve_decision. Defined.
#[global] Instance LiveHop_countable : Countable LiveHop.
Proof.
  refine (inj_countable' (fun h => (hop_key h, hop_payer h, hop_component h))
    (fun x => mkLiveHop x.1.1 x.1.2 x.2) _). by intros [].
Defined.

(** CBOR carries a payer's wallet as an address, so a hop survives serialisation unchanged when
    its payer, if any, has an address wallet (as [Payer::new] always makes it). *)
Definition payer_on_wire (p : option Payer) : Prop :=
  match p with
  | Some p' => exists a, kind (payer_wallet p') = Address a
  | None => True
  end.
Definition hop_on_wire (h : LiveHop) : Prop := payer_on_wire (hop_payer h).

Record Route := mkRoute { hops : list CryptData }.

#[global] Instance Route_eq_dec : EqDecision Route.
Proof. solve_decision. Defined.
#[global] Instance Route_countable : Countable Route.
Proof. refine (inj_countable' hops mkRoute _). by intros []. Defined.

Record RouteSegment := mkRouteSegment { seg_keys : list PublicKey; recipient : Component }.

Inductive RouteError :=
| HopDecodeProblem (e : codex_error)
| EmptyRoute
| TooFewKeysInRouteSegment
| DisjointRouteSegments.

Inductive construct_error :=
| BadSegments (e : RouteError)
| CouldntEncodeHop (e : codex_error).

Definition empty_key : PublicKey := mkPublicKey [].

Section route.
Context `{!EthSign} (keccak256 : bytes -> bytes).
Context `{!Serde LiveHop} `{!Serde Z}.

Definition live_hop_decode (cryptde : CryptDE) (d : CryptData) : result LiveHop codex_error :=
  decodex cryptde d.

Definition live_hop_encode (h : LiveHop) (pk : PublicKey) (cryptde : CryptDE)
  : result CryptData codex_error :=
  encodex cryptde pk h.

Definition payer_owns_secret_key (h : LiveHop) (digest : bytes) : outcome bool :=
  match hop_payer h with
  | Some p => owns_secret_key p digest
  | None => Ret false
  end.

Definition decode_hop (cryptde : CryptDE) (d : CryptData) : result LiveHop RouteError :=
  match live_hop_decode cryptde d with
  | Err e => Err (HopDecodeProblem e)
  | Ok h => Ok h
  end.

(** [id]: the return route id, encrypted to the originator, tops a spent route. *)
Definition route_id (r : Route) (cryptde : CryptDE) : result Z (option codex_error) :=
  match hops r with
  | first :: _ => rmap_err Some (decodex cryptde first)
  | [] => Err None
  end.

Definition next_hop (r : Route) (cryptde : CryptDE) : result LiveHop RouteError :=
  match hops r with
  | [] => Err EmptyRoute
  | first :: _ => decode_hop cryptde first
  end.

(** [shift] takes the top hop off and appends as many bytes of garbage, so that a route does
    not shrink as it is travelled. The route is changed in place, also when decoding fails. *)
Definition shift (r : Route) (cryptde : CryptDE) : Route * result LiveHop RouteError :=
  match hops r with
  | [] => (r, Err EmptyRoute)
  | top_hop :: rest =>
      match decode_hop cryptde top_hop with
      | Err e => (mkRoute rest, Err e)
      | Ok nh => (mkRoute (rest ++ [mkCryptData (random cryptde (crypt_len top_hop))]), Ok nh)
      end
  end.

Definition tuple_windows (l : list PublicKey) : list (PublicKey * PublicKey) := zip l (tail l).

(** [consuming_wallet.map(|w| w.as_payer(key, contract_address.unwrap_or_else(zero)))] *)
Definition payer_for (consuming_wallet : option Wallet) (key : PublicKey)
    (contract_addr : option bytes) : outcome (option Payer) :=
  match consuming_wallet with
  | None => Ret None
  | Some w =>
      let* p := as_payer keccak256 w (key_data key) (default ZERO_ADDRESS contract_addr) in
      Ret (Some p)
  end.

Definition over_segment (one_way : bool) (consuming_wallet : option Wallet)
    (over_keys : list PublicKey) (over_component : Component) (contract_addr : option bytes)
    : outcome (list LiveHop) :=
  let windows := tuple_windows over_keys in
  let* hs := omapM (fun '(current_key, next_key) =>
               let* p := payer_for consuming_wallet current_key contract_addr in
               Ret (mkLiveHop next_key p Hopper)) windows in
  if one_way then
    match last windows with
    | Some (_, last_hop_key) =>
        let* p := payer_for consuming_wallet last_hop_key contract_addr in
        Ret (hs ++ [mkLiveHop empty_key p over_component])
    | None => Ret (hs ++ [mkLiveHop empty_key None over_component])
    end
  else Ret hs.

Fixpoint back_windows (key_index : nat) (over_component : Component)
    (consuming_wallet : option Wallet) (contract_addr : option bytes)
    (ws : list (PublicKey * PublicKey)) : outcome (list LiveHop) :=
  match ws with
  | [] => Ret []
  | (current_key, next_key) :: ws' =>
      let component := if (key_index =? 0)%nat then over_component else Hopper in
      let* p := payer_for consuming_wallet current_key contract_addr in
      let* hs := back_windows (S key_index) over_component consuming_wallet contract_addr ws' in
      Ret (mkLiveHop next_key p component :: hs)
  end.

Definition back_segment (back_option : option RouteSegment) (consuming_wallet : option Wallet)
    (over_component : Component) (hs : list LiveHop) (contract_addr : option bytes)
    : outcome (list LiveHop) :=
  match back_option with
  | None => Ret hs
  | Some back =>
      let* bs := back_windows 0 over_component consuming_wallet contract_addr
                   (tuple_windows (seg_keys back)) in
      match last (seg_keys back) with
      | Some current_key =>
          let* p := payer_for consuming_wallet current_key contract_addr in
          Ret (hs ++ bs ++ [mkLiveHop empty_key p (recipient back)])
      | None => Ret (hs ++ bs ++ [mkLiveHop empty_key None (recipient back)])
      end
  end.

Definition validate_route_segments (over : RouteSegment) (back : option RouteSegment)
  : option RouteError :=
  match seg_keys over with
  | [] => Some TooFewKeysInRouteSegment
  | _ :: _ =>
      match back with
      | None => None
      | Some b =>
          match seg_keys b with
          | [] => Some TooFewKeysInRouteSegment
          | back_first :: _ =>
              if bool_decide (Some back_first <> last (seg_keys over))
              then Some DisjointRouteSegments
              else None
          end
      end
  end.

Definition encrypt_return_route_id (return_route_id : Z) (cryptde : CryptDE) : outcome CryptData :=
  expect_ok (encodex cryptde (public_key cryptde) return_route_id).

Fixpoint encode_hops (hs : list LiveHop) (hop_key_ : PublicKey) (cryptde : CryptDE)
  : result (list CryptData) construct_error :=
  match hs with
  | [] => Ok []
  | data_hop :: hs' =>
      match live_hop_encode data_hop hop_key_ cryptde with
      | Err e => Err (CouldntEncodeHop e)
      | Ok enc => let? encs := encode_hops hs' (hop_key data_hop) cryptde in Ok (enc :: encs)
      end
  end.

Definition hops_to_route (hs : list LiveHop) (top_hop_key : PublicKey)
    (return_route_id_opt : option Z) (cryptde : CryptDE) : outcome (result Route construct_error) :=
  match encode_hops hs top_hop_key cryptde with
  | Err e => Ret (Err e)
  | Ok hops_enc =>
      match return_route_id_opt with
      | None => Ret (Ok (mkRoute hops_enc))
      | Some rrid =>
          let* rrid_enc := encrypt_return_route_id rrid cryptde in
          Ret (Ok (mkRoute (hops_enc ++ [rrid_enc])))
      end
  end.

Definition construct (over : RouteSegment) (back : option RouteSegment) (cryptde : CryptDE)
    (consuming_wallet : option Wallet) (return_route_id_opt : option Z)
    (contract_addr : option bytes) : outcome (result Route construct_error) :=
  match validate_route_segments over back with
  | Some error => Ret (Err (BadSegments error))
  | None =>
      let* hs := over_segment (bool_decide (back = None)) consuming_wallet (seg_keys over)
                   (recipient over) contract_addr in
      let* hs := back_segment back consuming_wallet (recipient over) hs contract_addr in
      let* top := expect (head (seg_keys over)) in
      hops_to_route hs top return_route_id_opt cryptde
  end.

Definition single_hop (destination : PublicKey) (cryptde : CryptDE)
  : outcome (result Route construct_error) :=
  construct (mkRouteSegment [public_key cryptde; destination] Neighborhood)
    None cryptde None None None.

Definition one_way (seg : RouteSegment) (cryptde : CryptDE) (consuming_wallet : option Wallet)
    (contract_addr : option bytes) : outcome (result Route construct_error) :=
  construct seg None cryptde consuming_wallet None contract_addr.

Definition round_trip (over back : RouteSegment) (cryptde : CryptDE)
    (consuming_wallet : option Wallet) (return_route_id : Z) (contract_addr : option bytes)
    : outcome (result Route construct_error) :=
  construct over (Some back) cryptde consuming_wallet (Some return_route_id) contract_addr.
End route.

(** ** What a route says to whom: the abstract itinerary

    A leg [(reader, next, component)] says that the Node [reader] finds, in the hop it can
    decrypt, the key [next] of the Node after it and the local [component] to hand the payload
    to ([Hopper]: pass it on). *)
Definition leg : Type := PublicKey * PublicKey * Component.

Fixpoint legs (first rest : Component) (k : PublicKey) (ks : list PublicKey) : list leg :=
  match ks with
  | [] => []
  | k' :: ks' => (k, k', first) :: legs rest rest k' ks'
  end.

Definition last_key (k : PublicKey) (ks : list PublicKey) : PublicKey := default k (last ks).

(** Over and back: every Node before the exit Node passes on, the exit Node uses the over
    segment's recipient, every Node after it passes on, and the last uses the back segment's. *)
Definition round_trip_itinerary (over_comp back_comp : Component)
    (k : PublicKey) (over_rest back_rest : list PublicKey) : list leg :=
  legs Hopper Hopper k over_rest ++
  legs over_comp Hopper (last_key k over_rest) back_rest ++
  [(last_key (last_key k over_rest) back_rest, empty_key, back_comp)].

Definition one_way_itinerary (comp : Component) (k : PublicKey) (rest : list PublicKey) : list leg :=
  legs Hopper Hopper k rest ++ [(last_key k rest, empty_key, comp)].

Fixpoint chained (top : PublicKey) (it : list leg) : Prop :=
  match it with
  | [] => True
  | (r, n, _) :: it' => r = top /\ chained n it'
  end.

Definition readers (it : list leg) : list PublicKey := map (fun l => l.1.1) it.

Lemma last_key_cons k k' ks : last_key k (k' :: ks) = last_key k' ks.
Proof. unfold last_key. rewrite last_cons. by destruct (last ks). Qed.

Lemma chained_legs_app f r k ks it :
  chained k (legs f r k ks ++ it) <-> chained (last_key k ks) it.
Proof.
  revert f k. induction ks as [|k' ks IH]; intros f k; simpl; [done|].
  rewrite IH, last_key_cons. naive_solver.
Qed.

Lemma round_trip_chained oc bc k os bs : chained k (round_trip_itinerary oc bc k os bs).
Proof. unfold round_trip_itinerary. rewrite !chained_legs_app. done. Qed.

Lemma one_way_chained c k ks : chained k (one_way_itinerary c k ks).
Proof. unfold one_way_itinerary. rewrite !chained_legs_app. done. Qed.

Lemma readers_legs f r k ks : (readers (legs f r k ks)) ++ [last_key k ks] = k :: ks.
Proof.
  revert f k. induction ks as [|k' ks IH]; intros f k; simpl; [done|].
  rewrite last_key_cons. change (readers _ ++ _) with (readers (legs r r k' ks) ++ [last_key k' ks]).
  by rewrite IH.
Qed.

(** The Nodes that read a round trip's hops are the over Nodes, then the back Nodes after the
    exit Node. *)
Lemma readers_round_trip oc bc k os bs : readers (round_trip_itinerary oc bc k os bs) = k :: os ++ bs.
Proof.
  unfold round_trip_itinerary, readers. rewrite !map_app. simpl. fold (readers).
  change (map (fun l : leg => l.1.1)) with readers.
  rewrite readers_legs.
  assert (forall A (x : list A) (y : A) z w, x ++ [y] = z -> x ++ (y :: w) = z ++ w) as Happ.
  { intros A x y z w <-. by rewrite <- app_assoc. }
  by rewrite (Happ _ _ _ _ _ (readers_legs Hopper Hopper k os)).
Qed.

Section delivery.
Context `{!EthSign} (keccak256 : bytes -> bytes).
Context `{!Serde LiveHop} `{!Serde Z} `{!SerdeOk LiveHop hop_on_wire}.
Context (originator : CryptDE) (net : PublicKey -> CryptDE).
Context (consuming_wallet : option Wallet) (contract_addr : option bytes).

(** [k] is the key of a Node to which the originator can encrypt. *)
Definition on_net (k : PublicKey) : Prop :=
  public_key (net k) = k /\ CryptPair originator (net k).

Definition can_pay : Prop :=
  forall k, exists p, payer_for keccak256 consuming_wallet k contract_addr = Ret p.

Definition hop_for (l : leg) (h : LiveHop) : Prop :=
  exists p, payer_for keccak256 consuming_wallet l.1.1 contract_addr = Ret p /\
    h = mkLiveHop l.1.2 p l.2.

(** The encrypted hop [e] tells its reader what the leg says, with a payer signed for it. *)
Definition delivers (l : leg) (e : CryptData) : Prop :=
  exists p, payer_for keccak256 consuming_wallet l.1.1 contract_addr = Ret p /\
    decode_hop (net l.1.1) e = Ok (mkLiveHop l.1.2 p l.2).

Lemma payer_for_on_wire k p :
  payer_for keccak256 consuming_wallet k contract_addr = Ret p -> payer_on_wire p.
Proof.
  unfold payer_for. destruct consuming_wallet as [w|]; [|by intros [= <-]].
  intros (q & Hq & [= <-])%obind_ret_inv. unfold as_payer in Hq.
  case_match; [|done]. unfold payer_new in Hq. unbind. unfold as_address_wallet in *. unbind.
  simpl. eauto.
Qed.

Lemma windows_cons k k' ks : tuple_windows (k :: k' :: ks) = (k, k') :: tuple_windows (k' :: ks).
Proof. done. Qed.

Lemma over_windows_ok k ks : can_pay ->
  exists hs, omapM (fun '(a, b) => let* p := payer_for keccak256 consuming_wallet a contract_addr in
                      Ret (mkLiveHop b p Hopper)) (tuple_windows (k :: ks)) = Ret hs /\
    Forall2 hop_for (legs Hopper Hopper k ks) hs.
Proof.
  intros Hpay. revert k. induction ks as [|k' ks IH]; intros k.
  - exists []. done.
  - destruct (IH k') as (hs & Hhs & Hall). destruct (Hpay k) as (p & Hp).
    exists (mkLiveHop k' p Hopper :: hs). rewrite windows_cons. cbn [omapM].
    rewrite Hp. cbn [obind]. rewrite Hhs. split; [done|]. constructor; [|done]. by exists p.
Qed.

Lemma back_windows_ok n oc k ks : can_pay ->
  exists hs, back_windows keccak256 n oc consuming_wallet contract_addr
               (tuple_windows (k :: ks)) = Ret hs /\
    Forall2 hop_for (legs (if (n =? 0)%nat then oc else Hopper) Hopper k ks) hs.
Proof.
  intros Hpay. revert n k. induction ks as [|k' ks IH]; intros n k.
  - exists []. done.
  - destruct (IH (S n) k') as (hs & Hhs & Hall). destruct (Hpay k) as (p & Hp).
    exists (mkLiveHop k' p (if (n =? 0)%nat then oc else Hopper) :: hs).
    rewrite windows_cons. cbn [back_windows].
    rewrite Hp. cbn [obind]. rewrite Hhs. split; [done|]. constructor; [by exists p|done].
Qed.

Lemma last_cons_key k ks : last (k :: ks) = Some (last_key k ks).
Proof. unfold last_key. rewrite last_cons. by destruct (last ks). Qed.

(** Hops that follow a chained itinerary encrypt so that each is delivered. *)
Lemma encode_hops_delivers it hs top :
  Forall2 hop_for it hs -> chained top it -> Forall on_net (readers it) ->
  exists encs, encode_hops hs top originator = Ok encs /\ Forall2 delivers it encs.
Proof.
  intros Hall. revert top. induction Hall as [|[[r n] c] h it hs (p & Hp & ->) Hall IH];
    intros top Hch Hnet; simpl in *.
  - exists []. done.
  - destruct Hch as [-> Hch]. inversion_clear Hnet as [|?? [Hk Hpair] Hnet'].
    destruct (IH n Hch Hnet') as (encs & Hencs & Hdel).
    destruct (encodex_decodex originator (net top) (mkLiveHop n p c)) as (e & He & Hd).
    { by eapply payer_for_on_wire. }
    rewrite Hk in He. exists (e :: encs). unfold live_hop_encode. rewrite He.
    rewrite Hencs. simpl. split; [done|]. constructor; [|done].
    exists p. split; [done|]. unfold decode_hop, live_hop_decode. simpl. by rewrite Hd.
Qed.

Lemma over_segment_round_trip k ks oc hs :
  omapM (fun '(a, b) => let* p := payer_for keccak256 consuming_wallet a contract_addr in
           Ret (mkLiveHop b p Hopper)) (tuple_windows (k :: ks)) = Ret hs ->
  over_segment keccak256 false consuming_wallet (k :: ks) oc contract_addr = Ret hs.
Proof. intros Hw. unfold over_segment. by rewrite Hw. Qed.
End delivery.

(** *** Building a round trip *)
Lemma round_trip_delivers `{!EthSign} (keccak256 : bytes -> bytes) `{!Serde LiveHop} `{!Serde Z}
    `{!SerdeOk LiveHop hop_on_wire} `{!SerdeOk Z (uint 32)}
    (originator : CryptDE) (net : PublicKey -> CryptDE) (cw : option Wallet) (ca : option bytes)
    (k : PublicKey) (over_rest back_rest : list PublicKey) (oc bc : Component) (rrid : Z) :
  CryptPair originator originator ->
  Forall (on_net originator net) (k :: over_rest ++ back_rest) ->
  can_pay keccak256 cw ca -> uint 32 rrid ->
  exists encs id_enc,
    round_trip keccak256 (mkRouteSegment (k :: over_rest) oc)
      (mkRouteSegment (last_key k over_rest :: back_rest) bc) originator cw rrid ca
      = Ret (Ok (mkRoute (encs ++ [id_enc]))) /\
    Forall2 (delivers keccak256 net cw ca) (round_trip_itinerary oc bc k over_rest back_rest) encs /\
    decodex originator id_enc = Ok rrid.
Proof.
  intros Hself Hnet Hpay Hid.
  destruct (over_windows_ok keccak256 cw ca k over_rest Hpay) as (h1 & H1 & A1).
  destruct (back_windows_ok keccak256 cw ca 0 oc (last_key k over_rest) back_rest Hpay) as (h2 & H2 & A2).
  destruct (Hpay (last_key (last_key k over_rest) back_rest)) as (p & Hp).
  destruct (encode_hops_delivers keccak256 originator net cw ca
    (round_trip_itinerary oc bc k over_rest back_rest)
    (h1 ++ h2 ++ [mkLiveHop empty_key p bc]) k) as (encs & Hencs & Hdel).
  - unfold round_trip_itinerary. apply Forall2_app; [done|]. apply Forall2_app; [done|].
    constructor; [|done]. by exists p.
  - apply round_trip_chained.
  - by rewrite readers_round_trip.
  - destruct (encodex_decodex originator originator rrid Hid) as (e & He & Hd).
    exists encs, e. split_and!; [|done..]. unfold round_trip, construct, validate_route_segments.
    cbn [seg_keys recipient]. rewrite bool_decide_false by (rewrite last_cons_key; tauto).
    rewrite bool_decide_false by done. erewrite over_segment_round_trip by done.
    cbn [obind]. unfold back_segment. cbn [seg_keys recipient]. rewrite H2. cbn [obind].
    rewrite last_cons_key, Hp. cbn [obind expect head]. unfold hops_to_route. rewrite Hencs.
    unfold encrypt_return_route_id. by rewrite He.
Qed.

(** *** Travelling a route: each Node on the way shifts it *)
Fixpoint travel `{!Serde LiveHop} (net : PublicKey -> CryptDE) (r : Route) (nodes : list PublicKey)
  : option (list LiveHop * Route) :=
  match nodes with
  | [] => Some ([], r)
  | k :: ks =>
      match shift r (net k) with
      | (r', Ok h) => match travel net r' ks with
                      | Some (hs, r'') => Some (h :: hs, r'')
                      | None => None
                      end
      | (_, Err _) => None
      end
  end.

Definition hop_sizes (r : Route) : list nat := map crypt_len (hops r).

Lemma shift_ok `{!Serde LiveHop} r c r' h :
  (forall n, length (random c n) = n) -> shift r c = (r', Ok h) ->
  exists e rest, hops r = e :: rest /\ decode_hop c e = Ok h /\
    hops r' = rest ++ [mkCryptData (random c (crypt_len e))] /\
    hop_sizes r' = map crypt_len rest ++ [crypt_len e].
Proof.
  intros Hrand. unfold shift. destruct (hops r) as [|e rest] eqn:E; [done|].
  destruct (decode_hop c e) eqn:Ed; [|done]. intros [= <- <-].
  exists e, rest. split_and!; [done..|]. unfold hop_sizes. simpl. rewrite map_app. simpl.
  do 2 f_equal. apply Hrand.
Qed.

Section journey.
Context `{!EthSign} (keccak256 : bytes -> bytes).
Context `{!Serde LiveHop}.
Context (net : PublicKey -> CryptDE) (cw : option Wallet) (ca : option bytes).

(** Travelling a delivered itinerary reads off its hops, in order; each shift moves the spent
    hop's bytes, now garbage, to the end. *)
Lemma travel_delivered it encs tail_ :
  Forall2 (delivers keccak256 net cw ca) it encs ->
  exists hs garbage,
    travel net (mkRoute (encs ++ tail_)) (readers it) = Some (hs, mkRoute (tail_ ++ garbage)) /\
    Forall2 (hop_for keccak256 cw ca) it hs /\ length garbage = length encs.
Proof.
  intros Hall. revert tail_.
  induction Hall as [|[[r n] c] e it encs (p & Hp & Hd) Hall IH]; intros tl; simpl.
  - exists [], []. rewrite app_nil_r. done.
  - unfold shift. cbn [hops]. simpl in Hd. rewrite Hd.
    destruct (IH (tl ++ [mkCryptData (random (net r) (crypt_len e))])) as (hs & g & Ht & Hh & Hl).
    rewrite app_assoc in Ht. rewrite Ht.
    exists (mkLiveHop n p c :: hs), (mkCryptData (random (net r) (crypt_len e)) :: g).
    rewrite <- app_assoc. split_and!; [done| |simpl; lia].
    constructor; [|done]. by exists p.
Qed.
End journey.

(** ** Properties *)

(** Building a round-trip route for two segments that meet at the exit Node never fails,
    and the route does what its itinerary says: when the Nodes over to the exit Node and back
    shift it in turn, each decrypts its own hop and finds the next Node, the component to serve
    and a payer made for that very Node; the originator, last, reads the return route id off the
    top; and the route has as many hops after the journey as before. *)
Theorem round_trip_journey `{!EthSign} (keccak256 : bytes -> bytes) `{!Serde LiveHop} `{!Serde Z}
    `{!SerdeOk LiveHop hop_on_wire} `{!SerdeOk Z (uint 32)}
    (originator : CryptDE) (net : PublicKey -> CryptDE) (cw : option Wallet) (ca : option bytes)
    (k : PublicKey) (over_rest back_rest : list PublicKey) (oc bc : Component) (rrid : Z) :
  CryptPair originator originator ->
  Forall (on_net originator net) (k :: over_rest ++ back_rest) ->
  can_pay keccak256 cw ca -> uint 32 rrid ->
  exists r, round_trip keccak256 (mkRouteSegment (k :: over_rest) oc)
      (mkRouteSegment (last_key k over_rest :: back_rest) bc) originator cw rrid ca = Ret (Ok r) /\
    exists hs r', travel net r (k :: over_rest ++ back_rest) = Some (hs, r') /\
      Forall2 (hop_for keccak256 cw ca) (round_trip_itinerary oc bc k over_rest back_rest) hs /\
      route_id r' originator = Ok rrid /\
      length (hops r') = length (hops r).
Proof.
  intros Hself Hnet Hpay Hid.
  destruct (round_trip_delivers keccak256 originator net cw ca k over_rest back_rest oc bc rrid)
    as (encs & e & Hr & Hdel & Hd); [done..|].
  eexists. split; [exact Hr|].
  destruct (travel_delivered keccak256 net cw ca _ _ [e] Hdel) as (hs & g & Ht & Hh & Hl).
  rewrite readers_round_trip in Ht. exists hs, (mkRoute ([e] ++ g)). split_and!; [done..| |].
  - unfold route_id. simpl. by rewrite Hd.
  - simpl. rewrite length_app. simpl. lia.
Qed.

(** The payer found in each hop of a paid route proves, to the Node that reads the hop, that
    the consuming wallet's owner signed for that Node under the given contract. *)
Theorem hop_payer_proves_ownership `{!EthSign} `{!EthSignOk} (keccak256 : bytes -> bytes)
    (w : Wallet) (secret addr : bytes) (l : leg) (h : LiveHop) :
  kind w = KeyPair (keypair_from_secret secret) ->
  hop_for keccak256 (Some w) (Some addr) l h ->
  payer_owns_secret_key h (create_digest keccak256 (key_data l.1.1) addr) = Ret true /\
  exists p, hop_payer h = Some p /\ congruent (payer_wallet p) w = Ret true.
Proof.
  intros Hw (p & Hp & ->). unfold payer_for in Hp. unbind.
  match goal with H : as_payer _ _ _ _ = Ret ?q |- _ =>
    destruct (as_payer_owns _ _ _ _ _ _ Hw H) as [Ho Hpw]; split; [exact Ho|]; exists q end.
  split; [done|].
  rewrite (congruent_address _ _ (eth_address (eth_public secret)) (eth_address (eth_public secret))).
  - by rewrite bool_decide_true.
  - by rewrite Hpw.
  - unfold address. by rewrite Hw.
Qed.

(** *** Concrete Nodes for evaluation *)
Definition toy_net (k : PublicKey) : CryptDE :=
  CryptDENull.as_cryptde (fun _ => [0]) (fun _ => []) (fun _ => None)
    (CryptDENull.from (fun b => b) [1] k []).

Lemma toy_net_pair c k : key_data k <> [] -> bytes_ok (key_data k) -> CryptPair (toy_net c) (toy_net k).
Proof.
  intros. apply CryptDENull.null_pair; [done|]. by apply CryptDENull.from_keyed.
Qed.

Definition toy_wallet : Wallet := mkWallet (KeyPair (mkKeyPair [7] [7])).

Lemma toy_can_pay : @can_pay toy_eth (fun b => b) (Some toy_wallet) (Some [1]).
Proof. intros k. eexists. reflexivity. Qed.

Definition key_a := mkPublicKey [65].
Definition key_b := mkPublicKey [66].
Definition key_c := mkPublicKey [67].

Ltac solve_toy_pair := apply toy_net_pair; [done | repeat constructor; unfold uint; lia].

Ltac solve_toy_net :=
  repeat first [ apply List.Forall_nil | apply List.Forall_cons; [split; [done | solve_toy_pair] |] ].

Lemma round_trip_journey_witness :
  exists r, @round_trip toy_eth (fun b => b) (countable_serde LiveHop) (countable_serde Z)
      (mkRouteSegment [key_a; key_b; key_c] ProxyClient)
      (mkRouteSegment [key_c; key_b; key_a] ProxyServer) (toy_net key_a) (Some toy_wallet) 5 (Some [1])
      = Ret (Ok r) /\
    exists hs r', @travel (countable_serde LiveHop) toy_net r [key_a; key_b; key_c; key_b; key_a]
      = Some (hs, r') /\ @route_id (countable_serde Z) r' (toy_net key_a) = Ok 5.
Proof.
  destruct (@round_trip_journey toy_eth (fun b => b) (countable_serde LiveHop) (countable_serde Z)
     (countable_serde_ok _ _) (countable_serde_ok _ _) (toy_net key_a) toy_net (Some toy_wallet)
     (Some [1]) key_a [key_b; key_c] [key_b; key_a] ProxyClient ProxyServer 5)
    as (r & Hr & hs & r' & Ht & _ & Hid & _).
  - solve_toy_pair.
  - solve_toy_net.
  - exact toy_can_pay.
  - unfold uint; lia.
  - exists r. split; [exact Hr|]. exists hs, r'. split; [exact Ht | exact Hid].
Defined.

Lemma hop_payer_proves_ownership_witness :
  @payer_owns_secret_key toy_eth
    (mkLiveHop key_b (Some (mkPayer (mkWallet (Address [7])) (mkSignature 0 [7] [65; 1]))) Hopper)
    [65; 1] = Ret true.
Proof.
  refine (proj1 (@hop_payer_proves_ownership toy_eth toy_eth_ok (fun b => b) toy_wallet [7] [1]
    (key_a, key_b, Hopper) _ eq_refl _)).
  eexists. split; reflexivity.
Defined.
