(* ===== verification/Utils.v ===== *)
(** * Utils: the pure helpers of [node/src/sub_lib/utils.rs] *)
From S2P Require Import Prelude Text SubLib.
From Stdlib Require Import Ascii.

Section search.
Context {T : Type} `{EqDecision T}.

(** The inner loop of [index_of]: do the [needles] match at the head of [haystack]? *)
Fixpoint matches_at (haystack needles : list T) : bool :=
  match needles, haystack with
  | [], _ => true
  | _ :: _, [] => false
  | n :: ns, h :: hs => if decide (h = n) then matches_at hs ns else false
  end.

(** The outer loop, over the suffixes of the haystack. *)
Fixpoint index_of_loop (h : nat) (haystack needles : list T) : option nat :=
  match haystack with
  | [] => None
  | _ :: rest =>
      if matches_at haystack needles then Some h else index_of_loop (S h) rest needles
  end.

Definition index_of (haystack needles : list T) : option nat :=
  match needles with
  | [] => None
  | _ => index_of_loop 0 haystack needles
  end.

Fixpoint index_of_from_loop (index : nat) (rest : list T) (needle : T) : option nat :=
  match rest with
  | [] => None
  | x :: rest' => if decide (x = needle) then Some index else index_of_from_loop (S index) rest' needle
  end.

Definition index_of_from (haystack : list T) (needle : T) (start_at : nat) : option nat :=
  index_of_from_loop start_at (drop start_at haystack) needle.

(** [Vec::remove]: panics out of range *)
Definition vec_remove (l : list T) (i : nat) : outcome (list T) :=
  if (i <? length l)%nat then Ret (take i l ++ drop (S i) l) else Panic.

Lemma matches_at_prefix haystack needles :
  matches_at haystack needles = true <-> needles `prefix_of` haystack.
Proof.
  revert haystack. induction needles as [|n ns IH]; intros [|h hs]; simpl.
  - split; [intros _; apply prefix_nil | done].
  - split; [intros _; apply prefix_nil | done].
  - split; [done|]. intros [k Hk]. done.
  - destruct (decide (h = n)) as [->|Hne].
    + rewrite IH. split; [apply prefix_cons | apply prefix_cons_inv_2].
    + split; [done|]. intros Hp. by apply prefix_cons_inv_1 in Hp.
Qed.

Lemma index_of_loop_Some h haystack needles i :
  index_of_loop h haystack needles = Some i ->
  (h <= i < h + length haystack)%nat /\ needles `prefix_of` drop (i - h) haystack /\
  forall j, (h <= j < i)%nat -> ~ needles `prefix_of` drop (j - h) haystack.
Proof.
  revert h. induction haystack as [|x hs IH]; intros h; [done|]. cbn [index_of_loop].
  destruct (matches_at (x :: hs) needles) eqn:E.
  - intros [= <-]. rewrite matches_at_prefix in E. rewrite Nat.sub_diag. simpl.
    split; [lia|]. split; [done|]. intros; lia.
  - intros Hi. apply IH in Hi as (Hr & Hp & Hmin). simpl.
    replace (i - h)%nat with (S (i - S h)) by lia. simpl. split; [lia|]. split; [done|].
    intros j Hj. destruct (decide (j = h)) as [->|].
    + rewrite Nat.sub_diag, drop_0, <- matches_at_prefix. congruence.
    + replace (j - h)%nat with (S (j - S h)) by lia. simpl. apply Hmin. lia.
Qed.

Lemma index_of_loop_None h haystack needles :
  index_of_loop h haystack needles = None ->
  forall j, (j < length haystack)%nat -> ~ needles `prefix_of` drop j haystack.
Proof.
  revert h. induction haystack as [|x hs IH]; intros h; cbn [index_of_loop length]; [intros; lia|].
  destruct (matches_at (x :: hs) needles) eqn:E; [done|]. intros Hn [|j] Hj.
  - rewrite drop_0, <- matches_at_prefix. congruence.
  - simpl. eapply IH; [done|lia].
Qed.

(** [index_of] finds the first occurrence of a non-empty needle, and finds one whenever there is one. *)
Lemma index_of_first haystack needles :
  needles <> [] ->
  match index_of haystack needles with
  | Some i => needles `prefix_of` drop i haystack /\
              forall j, (j < i)%nat -> ~ needles `prefix_of` drop j haystack
  | None => forall j, ~ needles `prefix_of` drop j haystack
  end.
Proof.
  intros Hne. unfold index_of. destruct needles as [|n ns]; [done|].
  destruct (index_of_loop 0 haystack (n :: ns)) as [i|] eqn:E.
  - apply index_of_loop_Some in E as (_ & Hp & Hmin). rewrite Nat.sub_0_r in Hp. split; [done|].
    intros j Hj. specialize (Hmin j). rewrite Nat.sub_0_r in Hmin. apply Hmin. lia.
  - intros j. destruct (decide (j < length haystack)%nat) as [Hj|Hj].
    + by eapply index_of_loop_None.
    + rewrite drop_ge by lia. by intros ?%prefix_nil_inv.
Qed.

Lemma index_of_Some haystack needles i :
  needles <> [] ->
  index_of haystack needles = Some i <->
  needles `prefix_of` drop i haystack /\ forall j, (j < i)%nat -> ~ needles `prefix_of` drop j haystack.
Proof.
  intros Hne. pose proof (index_of_first haystack needles Hne) as Hf. split.
  - intros E. by rewrite E in Hf.
  - intros [Hp Hmin]. destruct (index_of haystack needles) as [k|]; [|by apply Hf in Hp].
    destruct Hf as [Hk Hkmin]. f_equal. destruct (decide (k < i)%nat); [by apply (Hmin k) in Hk|].
    destruct (decide (i < k)%nat); [by apply (Hkmin i) in Hp|]. lia.
Qed.

Lemma prefix_drop_app i (l k ns : list T) :
  ns <> [] -> ns `prefix_of` drop i l -> ns `prefix_of` drop i (l ++ k).
Proof.
  intros Hne Hp. assert (i <= length l)%nat.
  { destruct (decide (i <= length l)%nat); [done|]. rewrite drop_ge in Hp by lia.
    by apply prefix_nil_inv in Hp. }
  rewrite drop_app_le by done. by apply prefix_app_r.
Qed.

Lemma prefix_drop_app_inv i (l k ns : list T) :
  (i + length ns <= length l)%nat -> ns `prefix_of` drop i (l ++ k) -> ns `prefix_of` drop i l.
Proof.
  intros Hl [t Ht]. rewrite drop_app_le in Ht by lia. exists (drop (length ns) (drop i l)).
  rewrite <- (take_drop (length ns) (drop i l)) at 1. f_equal.
  apply (f_equal (take (length ns))) in Ht. rewrite take_app_length in Ht.
  rewrite take_app_le in Ht by (rewrite length_drop; lia). done.
Qed.

Lemma prefix_drop_length i (l ns : list T) :
  ns <> [] -> ns `prefix_of` drop i l -> (i + length ns <= length l)%nat.
Proof.
  intros Hne Hp%prefix_length. rewrite length_drop in Hp. destruct ns; [done|]. simpl in *. lia.
Qed.

(** What is found stays found, at the same place, when more comes. *)
Lemma index_of_app haystack more needles i :
  needles <> [] -> index_of haystack needles = Some i -> index_of (haystack ++ more) needles = Some i.
Proof.
  intros Hne. rewrite !index_of_Some by done. intros [Hp Hmin]. split; [by apply prefix_drop_app|].
  intros j Hj Hpj. apply (Hmin j Hj). apply (prefix_drop_app_inv _ _ more); [|done].
  apply prefix_drop_length in Hp; [lia|done].
Qed.

(** Nothing is found in a beginning that ends before the first occurrence does. *)
Lemma index_of_before p q needles i :
  needles <> [] -> index_of (p ++ q) needles = Some i -> (length p < i + length needles)%nat ->
  index_of p needles = None.
Proof.
  intros Hne [Hp Hmin]%index_of_Some Hlen; [|done]. destruct (index_of p needles) as [j|] eqn:E; [|done].
  apply index_of_Some in E as [Hpj _]; [|done]. pose proof (prefix_drop_length _ _ _ Hne Hpj).
  exfalso. apply (Hmin j); [lia|]. by apply prefix_drop_app.
Qed.

Lemma index_of_loop_shift h haystack needles :
  index_of_loop h haystack needles = Nat.add h <$> index_of_loop 0 haystack needles.
Proof.
  revert h. induction haystack as [|x hs IH]; intros h; cbn [index_of_loop]; [done|].
  case_match; [by rewrite <- (Nat.add_0_r h) at 1|]. rewrite (IH (S h)), (IH 1%nat), <- option_fmap_compose.
  apply option_fmap_ext. intros i. simpl. lia.
Qed.

Lemma index_of_cons x hs n ns :
  index_of (x :: hs) (n :: ns) = if matches_at (x :: hs) (n :: ns) then Some 0%nat else S <$> index_of hs (n :: ns).
Proof. unfold index_of. cbn [index_of_loop]. case_match; [done|]. by rewrite (index_of_loop_shift 1). Qed.

(** A needle is not found where its first element does not occur. *)
Lemma index_of_skip l hs n ns :
  n ∉ l -> index_of (l ++ hs) (n :: ns) = Nat.add (length l) <$> index_of hs (n :: ns).
Proof.
  induction l as [|x l IH]; intros Hl; [by destruct (index_of _ _)|]. cbn [app]. rewrite index_of_cons.
  cbn [matches_at]. rewrite decide_False by set_solver. rewrite IH by set_solver.
  by rewrite <- option_fmap_compose.
Qed.

Lemma index_of_here ns hs : ns <> [] -> index_of (ns ++ hs) ns = Some 0%nat.
Proof.
  intros Hne. apply index_of_Some; [done|]. rewrite drop_0. split; [by apply prefix_app_r|]. intros; lia.
Qed.

Lemma vec_remove_ret l i l' :
  vec_remove l i = Ret l' -> exists x, l !! i = Some x /\ x :: l' ≡ₚ l.
Proof.
  unfold vec_remove. destruct (Nat.ltb_spec i (length l)) as [Hi|]; [|done]. intros [= <-].
  destruct (lookup_lt_is_Some_2 l i Hi) as [x Hx]. exists x. split; [done|].
  rewrite <- (take_drop_middle l i x) at 3 by done. apply Permutation_middle.
Qed.
End search.

(** ** Slices *)
(** [buf[i]] *)
Definition index (buf : bytes) (i : nat) : outcome Z := expect (buf !! i).

(** [&buf[from..to]] *)
Definition slice (buf : bytes) (from to : nat) : outcome bytes :=
  if (from <=? to)%nat && (to <=? length buf)%nat then Ret (take (to - from) (drop from buf)) else Panic.

(** [std::str::from_utf8]: is the slice well-formed UTF-8? *)
Definition between (lo hi b : Z) : bool := (lo <=? b) && (b <=? hi).

Fixpoint utf8_ok (s : bytes) : bool :=
  match s with
  | [] => true
  | b0 :: s1 =>
      if between 0 127 b0 then utf8_ok s1 else
      match s1 with
      | [] => false
      | b1 :: s2 =>
          if between 194 223 b0 then between 128 191 b1 && utf8_ok s2 else
          match s2 with
          | [] => false
          | b2 :: s3 =>
              if between 224 239 b0 then
                between (if b0 =? 224 then 160 else 128) (if b0 =? 237 then 159 else 191) b1 &&
                between 128 191 b2 && utf8_ok s3
              else
              match s3 with
              | [] => false
              | b3 :: s4 =>
                  between 240 244 b0 &&
                  between (if b0 =? 240 then 144 else 128) (if b0 =? 244 then 143 else 191) b1 &&
                  between 128 191 b2 && between 128 191 b3 && utf8_ok s4
              end
          end
      end
  end.

Lemma index_ret b i : (i < length b)%nat -> exists x, index b i = Ret x /\ b !! i = Some x.
Proof. intros [x Hx]%lookup_lt_is_Some. unfold index. rewrite Hx. by exists x. Qed.

Lemma slice_ok b from to :
  (from <= to)%nat -> (to <= length b)%nat -> slice b from to = Ret (take (to - from) (drop from b)).
Proof. intros. unfold slice. by rewrite !(proj2 (Nat.leb_le _ _)) by done. Qed.

Definition localhost : IpAddr := V4 127 0 0 1.

Definition NODE_DESCRIPTOR_DELIMITERS : list ascii := ["_"; "@"; ":"; ":"]%char.

(** Indexing an array of four: any other chain id panics. *)
Definition node_descriptor_delimiter (chain_id : Z) : outcome ascii :=
  expect (NODE_DESCRIPTOR_DELIMITERS !! Z.to_nat chain_id).
