(* ===== verification/Printing.v ===== *)
(** * Printing: data as text for the log, and errors of streams

    The helpers of [node/src/sub_lib/utils.rs] that [Utils] leaves out. A [String] is its UTF-8 here, since bytes
    from the network are printed. *)
From S2P Require Import Prelude Text Utils.

(** ** Errors of streams *)
(** [std::io::ErrorKind], as far as this standard library had it *)
Inductive ErrorKind :=
| NotFound | PermissionDenied | ConnectionRefused | ConnectionReset | ConnectionAborted | NotConnected
| AddrInUse | AddrNotAvailable | BrokenPipe | AlreadyExists | WouldBlock | InvalidInput | InvalidData
| TimedOut | WriteZero | Interrupted | OtherKind | UnexpectedEof.

#[global] Instance ErrorKind_eq_dec : EqDecision ErrorKind.
Proof. solve_decision. Defined.

Definition DEAD_STREAM_ERRORS : list ErrorKind := [BrokenPipe; ConnectionAborted; ConnectionReset; ConnectionRefused; TimedOut].

Definition indicates_dead_stream (kind : ErrorKind) : bool := bool_decide (kind ∈ DEAD_STREAM_ERRORS).

(** ** Text of data *)
Definition codes (s : str) : bytes := map ascii_code s.

(** [u8 as char], in UTF-8 *)
Definition char_of_byte (b : Z) : bytes := if b <? 128 then [b] else [192 + b / 64; 128 + b mod 64].

(** A digit of [{:02X}] *)
Definition upper_hex_digit (d : Z) : Z := if d <? 10 then 48 + d else 55 + d.

Definition printable_byte (b : Z) : bytes :=
  if (b =? 10) || (b =? 13) || (b =? 9) then char_of_byte b
  else if b <? 32 then [upper_hex_digit (b / 16); upper_hex_digit (b mod 16)]
  else char_of_byte b.

Definition make_printable_string (b : bytes) : bytes := concat (map printable_byte b).

(** [{:?}] of a vector of bytes *)
Definition debug_bytes (data : bytes) : bytes :=
  [91] ++ match data with
          | [] => []
          | b :: rest => codes (dec b) ++ concat (map (fun b => [44; 32] ++ codes (dec b)) rest)
          end ++ [93].

Definition to_string (data : bytes) : bytes := if utf8_ok data then make_printable_string data else debug_bytes data.

Definition plus {T} (source : list T) (item : T) : list T := source ++ [item].

(** ** What gets into the log *)
Definition is_byte (b : Z) : Prop := 0 <= b < 256.

(** Not one of the first 32 control characters, but for ends of lines and tabs *)
Definition harmless (b : Z) : Prop := 32 <= b \/ b = 10 \/ b = 13 \/ b = 9.

Lemma upper_hex_harmless d : 0 <= d -> harmless (upper_hex_digit d).
Proof. intros Hd. unfold harmless, upper_hex_digit. destruct (d <? 10); lia. Qed.

Lemma char_of_byte_harmless b : is_byte b -> harmless b -> Forall harmless (char_of_byte b).
Proof.
  intros Hb Hh. unfold char_of_byte. destruct (Z.ltb_spec b 128); [by constructor|].
  pose proof (Z.mod_pos_bound b 64). pose proof (Z.div_pos b 64). unfold is_byte in Hb.
  repeat constructor; unfold harmless; lia.
Qed.

Lemma printable_byte_harmless b : is_byte b -> Forall harmless (printable_byte b).
Proof.
  intros Hb. unfold printable_byte. destruct ((b =? 10) || (b =? 13) || (b =? 9)) eqn:E.
  - apply char_of_byte_harmless; [done|]. rewrite !orb_true_iff, !Z.eqb_eq in E. unfold harmless. lia.
  - destruct (Z.ltb_spec b 32).
    + unfold is_byte in Hb. repeat apply Forall_cons_2; [| |constructor];
        apply upper_hex_harmless; [apply Z.div_pos|apply Z.mod_pos_bound]; lia.
    + apply char_of_byte_harmless; [done|by left].
Qed.

(** No control character of ASCII gets into the log but ends of lines and tabs - except for 127, which is not escaped and counts as
    harmless here, like the control characters beyond ASCII. *)
Theorem printed_is_harmless (data : bytes) :
  Forall is_byte data -> Forall harmless (make_printable_string data).
Proof.
  intros Hd. unfold make_printable_string. apply Forall_concat, Forall_map. eapply Forall_impl; [exact Hd|].
  exact printable_byte_harmless.
Qed.

(** Of ASCII text, only control characters are changed. *)
Theorem plain_text_is_printed_as_it_is (data : bytes) :
  Forall (fun b => b < 128 /\ harmless b) data -> make_printable_string data = data.
Proof.
  intros Hd. unfold make_printable_string. induction Hd as [|b data [Hb Hh] _ IH]; [done|]. cbn [map concat]. rewrite IH.
  unfold printable_byte, char_of_byte. rewrite (proj2 (Z.ltb_lt b 128)) by done.
  destruct ((b =? 10) || (b =? 13) || (b =? 9)) eqn:E; [done|]. rewrite !orb_false_iff, !Z.eqb_neq in E.
  destruct (Z.ltb_spec b 32); [|done]. unfold harmless in Hh. lia.
Qed.

(** Text that is not ASCII is not printed as it is: its bytes are taken for characters of their own. *)
Example umlaut_is_garbled : to_string [195; 164] = [195; 131; 194; 164].
Proof. reflexivity. Qed.

Example dead_streams : filter (fun k => indicates_dead_stream k = true) [BrokenPipe; WouldBlock; TimedOut; Interrupted] = [BrokenPipe; TimedOut].
Proof. reflexivity. Qed.
