(* ===== verification/Containers.v ===== *)
(** * Containers: the two maps the proxies keep their sessions in

    [node/src/sub_lib/bidi_hashmap.rs] and [node/src/sub_lib/ttl_hashmap.rs]. *)
From S2P Require Import Prelude.

(** ** BidiHashMap: a map that can be read in both directions *)
Module BidiHashMap.
Section bidi.
Context {A B : Type} `{Countable A, Countable B}.

Record BidiHashMap := mk { a_to_b_map : gmap A B; b_to_a_map : gmap B A }.

Definition new : BidiHashMap := mk ∅ ∅.

Definition insert (a : A) (b : B) (m : BidiHashMap) : BidiHashMap :=
  mk (<[a := b]> (a_to_b_map m)) (<[b := a]> (b_to_a_map m)).

Definition len (m : BidiHashMap) : nat := size (a_to_b_map m).
Definition a_to_b (m : BidiHashMap) (a : A) : option B := a_to_b_map m !! a.
Definition b_to_a (m : BidiHashMap) (b : B) : option A := b_to_a_map m !! b.

Definition remove_a (a : A) (m : BidiHashMap) : BidiHashMap * option B :=
  match a_to_b_map m !! a with
  | Some b => (mk (delete a (a_to_b_map m)) (delete b (b_to_a_map m)), Some b)
  | None => (m, None)
  end.

Definition remove_b (b : B) (m : BidiHashMap) : BidiHashMap * option A :=
  match b_to_a_map m !! b with
  | Some a => (mk (delete a (a_to_b_map m)) (delete b (b_to_a_map m)), Some a)
  | None => (m, None)
  end.

Definition is_empty (m : BidiHashMap) : bool :=
  bool_decide (a_to_b_map m = ∅) && bool_decide (b_to_a_map m = ∅).

(** The two directions agree. *)
Definition inverse (m : BidiHashMap) : Prop :=
  forall a b, a_to_b m a = Some b <-> b_to_a m b = Some a.

(** An insertion that overwrites nothing but the same pair. *)
Definition fits (m : BidiHashMap) (a : A) (b : B) : Prop :=
  (a_to_b m a = None /\ b_to_a m b = None) \/ a_to_b m a = Some b.

Lemma new_inverse : inverse new.
Proof. intros a b. unfold a_to_b, b_to_a. simpl. by rewrite !lookup_empty. Qed.

Lemma insert_inverse m a b : inverse m -> fits m a b -> inverse (insert a b m).
Proof.
  intros Hm Hfit a' b'. unfold inverse, fits, a_to_b, b_to_a in *. simpl.
  destruct (decide (a = a')) as [->|Ha], (decide (b = b')) as [->|Hb];
    rewrite ?lookup_insert_eq, ?lookup_insert_ne by done.
  - done.
  - split; [congruence|]. intros Hb'%Hm. destruct Hfit as [[Hn _]|Hs]; congruence.
  - split; [|congruence]. intros Ha'. destruct Hfit as [[_ Hn]|Hs%Hm].
    + apply Hm in Ha'. congruence.
    + apply Hm in Ha'. congruence.
  - apply Hm.
Qed.

Lemma delete_inverse m a b :
  inverse m -> a_to_b m a = Some b ->
  inverse (mk (delete a (a_to_b_map m)) (delete b (b_to_a_map m))).
Proof.
  intros Hm Hab a' b'. unfold a_to_b, b_to_a in *. simpl. rewrite !lookup_delete_Some. split.
  - intros [Hne Ha']. split; [|by apply Hm]. intros ->. apply Hm in Ha', Hab. unfold b_to_a in *.
    congruence.
  - intros [Hne Hb']. apply Hm in Hb'. unfold a_to_b in *. split; [congruence|done].
Qed.

Lemma remove_a_inverse m a : inverse m -> inverse (remove_a a m).1.
Proof.
  intros Hm. unfold remove_a. destruct (a_to_b_map m !! a) eqn:E; [|done]. by apply delete_inverse.
Qed.

Lemma remove_b_inverse m b : inverse m -> inverse (remove_b b m).1.
Proof.
  intros Hm. unfold remove_b. destruct (b_to_a_map m !! b) eqn:E; [|done].
  apply delete_inverse; [done|]. by apply Hm.
Qed.

Inductive op := Insert (a : A) (b : B) | RemoveA (a : A) | RemoveB (b : B).

Definition apply_op (m : BidiHashMap) (o : op) : BidiHashMap :=
  match o with
  | Insert a b => insert a b m
  | RemoveA a => (remove_a a m).1
  | RemoveB b => (remove_b b m).1
  end.

(** Every insertion along the way fits. *)
Fixpoint disciplined (m : BidiHashMap) (ops : list op) : Prop :=
  match ops with
  | [] => True
  | o :: ops' =>
      match o with Insert a b => fits m a b | _ => True end /\ disciplined (apply_op m o) ops'
  end.

Lemma run_inverse m ops : inverse m -> disciplined m ops -> inverse (foldl apply_op m ops).
Proof.
  revert m. induction ops as [|o ops IH]; intros m Hm; simpl; [done|]. intros [Ho Hops].
  apply IH; [|done]. destruct o; simpl; eauto using insert_inverse, remove_a_inverse, remove_b_inverse.
Qed.

Lemma remove_a_gone m a b :
  a_to_b m a = Some b ->
  a_to_b (remove_a a m).1 a = None /\ b_to_a (remove_a a m).1 b = None /\ (remove_a a m).2 = Some b.
Proof.
  unfold a_to_b, remove_a. intros ->. unfold b_to_a. simpl. by rewrite !lookup_delete_eq.
Qed.
End bidi.
Arguments BidiHashMap A B {_ _ _ _}.
End BidiHashMap.

(** ** TtlHashMap: a map that forgets what has not been used for a while

    An [Instant] is an integer; every reading of the clock is an argument. *)
Module TtlHashMap.
Section ttl.
Context {K V : Type} `{Countable K}.

Record TtlHashMap := mk { last_check : Z; data : gmap K (V * Z); ttl : Z }.

Definition new (now ttl : Z) : TtlHashMap := mk now ∅ ttl.

(** [Instant::duration_since], which panics if the other instant is later. *)
Definition duration_since (now earlier : Z) : outcome Z :=
  if earlier <=? now then Ret (now - earlier) else Panic.

Definition expired (ttl now : Z) (entry : K * (V * Z)) : outcome bool :=
  let* age := duration_since now entry.2.2 in Ret (ttl <? age).

Definition remove_expired_entries (now : Z) (m : TtlHashMap) : outcome TtlHashMap :=
  let* since := duration_since now (last_check m) in
  if since <? ttl m then Ret m else
  let* gone := ofilter (expired (ttl m) now) (map_to_list (data m)) in
  Ret (mk now (foldr (fun e d => delete e.1 d) (data m) gone) (ttl m)).

Definition insert (now now' : Z) (k : K) (v : V) (m : TtlHashMap) : outcome TtlHashMap :=
  let* m' := remove_expired_entries now m in
  Ret (mk (last_check m') (<[k := (v, now')]> (data m')) (ttl m')).

Definition get (now now' : Z) (k : K) (m : TtlHashMap) : outcome (TtlHashMap * option V) :=
  let* m' := remove_expired_entries now m in
  match data m' !! k with
  | Some (v, _) => Ret (mk (last_check m') (<[k := (v, now')]> (data m')) (ttl m'), Some v)
  | None => Ret (m', None)
  end.

(** *** Uses of the map over time: each reads the clock twice *)
Inductive op := Insert (k : K) (v : V) | Get (k : K).
Record event := mkEvent { now1 : Z; now2 : Z; what : op }.

Definition step (m : TtlHashMap) (e : event) : outcome TtlHashMap :=
  match what e with
  | Insert k v => insert (now1 e) (now2 e) k v m
  | Get k => let* (m', _) := get (now1 e) (now2 e) k m in Ret m'
  end.

Definition run (m : TtlHashMap) (es : list event) : outcome TtlHashMap := ofold step m es.

(** The clock never goes back. *)
Fixpoint clocked (t : Z) (es : list event) : Prop :=
  match es with
  | [] => True
  | e :: es' => t <= now1 e <= now2 e /\ clocked (now2 e) es'
  end.

Definition end_time (t : Z) (es : list event) : Z := foldl (fun _ e => now2 e) t es.

Definition touches (k : K) (e : event) : Prop :=
  match what e with Insert k' _ | Get k' => k' = k end.

(** The invariant at time [t]: nothing is from the future, and what was too old at the last sweep
    is gone. *)
Record wf (t : Z) (m : TtlHashMap) : Prop := {
  wf_check : last_check m <= t;
  wf_entries : forall k v ts, data m !! k = Some (v, ts) -> last_check m - ttl m <= ts <= t;
}.

Lemma new_wf_at t d : wf t (new t d).
Proof. split; simpl; [lia|]. intros k v ts. by rewrite lookup_empty. Qed.

Lemma lookup_foldr_delete (d : gmap K (V * Z)) (gone : list (K * (V * Z))) k :
  foldr (fun e d => delete e.1 d) d gone !! k =
  if decide (k ∈ gone.*1) then None else d !! k.
Proof.
  induction gone as [|e gone IH]; simpl; [done|].
  destruct (decide (k = e.1)) as [->|Hne].
  - rewrite lookup_delete_eq. rewrite decide_True; [done|]. by left.
  - rewrite lookup_delete_ne by done. rewrite IH. apply decide_ext. rewrite elem_of_cons. naive_solver.
Qed.

(** A sweep never panics, keeps the invariant, keeps everything used within the time to live, drops
    everything twice as old, and invents nothing. *)
Lemma sweep_ok t m now :
  wf t m -> t <= now -> 0 < ttl m ->
  exists m', remove_expired_entries now m = Ret m' /\ wf now m' /\ ttl m' = ttl m /\
    (forall k v ts, data m !! k = Some (v, ts) -> now - ts <= ttl m -> data m' !! k = Some (v, ts)) /\
    (forall k v ts, data m !! k = Some (v, ts) -> 2 * ttl m <= now - ts -> data m' !! k = None) /\
    (forall k, data m !! k = None -> data m' !! k = None) /\
    (forall k e, data m' !! k = Some e -> data m !! k = Some e).
Proof.
  intros [Hc He] Ht Hpos. unfold remove_expired_entries, duration_since.
  rewrite (proj2 (Z.leb_le _ _)) by lia. simpl. destruct (Z.ltb_spec (now - last_check m) (ttl m)).
  { exists m. split_and!; eauto.
    - split; [lia|]. intros k v ts Hk. specialize (He k v ts Hk). lia.
    - intros k v ts Hk Hold. specialize (He k v ts Hk). lia. }
  assert (Hx : forall e, e ∈ map_to_list (data m) ->
    expired (ttl m) now e = Ret (ttl m <? now - e.2.2)).
  { intros [k [v ts]] Hk%elem_of_map_to_list. specialize (He k v ts Hk).
    unfold expired, duration_since. simpl. by rewrite (proj2 (Z.leb_le _ _)) by lia. }
  destruct (ofilter_total (expired (ttl m) now) (map_to_list (data m))) as (gone & -> & Hgone);
    [by intros; eexists; apply Hx|]. simpl.
  assert (Hin : forall k v ts, data m !! k = Some (v, ts) ->
    (k ∈ gone.*1 <-> ttl m < now - ts)).
  { intros k v ts Hk. rewrite list_elem_of_fmap. split.
    - intros ([k' [v' ts']] & -> & [Hm Hf]%Hgone). rewrite Hx in Hf by done.
      apply elem_of_map_to_list in Hm. simpl in *. rewrite Hk in Hm. simplify_eq. lia.
    - intros Hold. exists (k, (v, ts)). split; [done|]. apply Hgone.
      rewrite elem_of_map_to_list, Hx by by apply elem_of_map_to_list. split; [done|]. simpl.
      by rewrite (proj2 (Z.ltb_lt _ _)) by lia. }
  eexists. split_and!; [done|split|..]; simpl; [lia|..].
  - intros k v ts. rewrite lookup_foldr_delete. case_decide as Hd; [done|]. intros Hk.
    rewrite (Hin k v ts Hk) in Hd. specialize (He k v ts Hk). lia.
  - done.
  - intros k v ts Hk Hyoung. rewrite lookup_foldr_delete, decide_False; [done|].
    rewrite (Hin k v ts Hk). lia.
  - intros k v ts Hk Hold. rewrite lookup_foldr_delete, decide_True; [done|].
    rewrite (Hin k v ts Hk). lia.
  - intros k Hk. rewrite lookup_foldr_delete. by case_decide.
  - intros k e. rewrite lookup_foldr_delete. by case_decide.
Qed.

Lemma wf_touch t t' m k v : wf t m -> t <= t' -> 0 < ttl m ->
  wf t' (mk (last_check m) (<[k := (v, t')]> (data m)) (ttl m)).
Proof.
  intros [Hc He] Ht Hpos. split; simpl; [lia|]. intros k' v' ts.
  rewrite lookup_insert_Some. intros [[-> [= <- <-]]|[_ Hk]]; [lia|]. specialize (He k' v' ts Hk). lia.
Qed.

(** One use of the map: the entry of a key that is not the one used is kept while young, and no
    entry of it appears. *)
Lemma step_ok t m e :
  wf t m -> t <= now1 e <= now2 e -> 0 < ttl m ->
  exists m', step m e = Ret m' /\ wf (now2 e) m' /\ ttl m' = ttl m /\
    forall k, ~ touches k e ->
      (forall v ts, data m !! k = Some (v, ts) -> now1 e - ts <= ttl m -> data m' !! k = Some (v, ts)) /\
      (forall x, data m' !! k = Some x -> data m !! k = Some x).
Proof.
  intros Hwf Ht Hpos. destruct (sweep_ok t m (now1 e) Hwf) as (m' & Hs & Hwf' & Httl & Hy & _ & _ & Hi);
    [lia|done|]. unfold step, touches, insert, get. destruct (what e) as [k v|k].
  - rewrite Hs. simpl. eexists. split_and!; [done|by apply (wf_touch (now1 e)); try lia|done|].
    intros k' Hk'. simpl. rewrite lookup_insert_ne by done. eauto.
  - rewrite Hs. simpl. destruct (data m' !! k) as [[v ts]|] eqn:Ek; simpl; eexists.
    + split_and!; [done|by apply (wf_touch (now1 e)); try lia|done|].
      intros k' Hk'. simpl. rewrite lookup_insert_ne by done. eauto.
    + split_and!; [done| |done|by eauto]. destruct Hwf' as [Hc He]. split; [lia|].
      intros k' v ts Hk. specialize (He k' v ts Hk). lia.
Qed.

Lemma run_wf t m es :
  wf t m -> clocked t es -> 0 < ttl m ->
  exists m', run m es = Ret m' /\ wf (end_time t es) m' /\ ttl m' = ttl m.
Proof.
  revert t m. induction es as [|e es IH]; intros t m Hwf; simpl; [by exists m|].
  intros [He Hes] Hpos. unfold run. simpl.
  destruct (step_ok t m e Hwf He Hpos) as (m1 & -> & Hwf1 & Httl1 & _). simpl.
  destruct (IH _ _ Hwf1 Hes) as (m' & Hr & ? & ?); [lia|]. exists m'. split_and!; [done..|congruence].
Qed.

(** An entry nobody uses stays as it is until it is dropped. *)
Lemma run_untouched t m es k v ts :
  wf t m -> clocked t es -> 0 < ttl m -> Forall (fun e => ~ touches k e) es ->
  data m !! k = Some (v, ts) \/ data m !! k = None ->
  exists m', run m es = Ret m' /\ wf (end_time t es) m' /\ ttl m' = ttl m /\
    (data m' !! k = Some (v, ts) \/ data m' !! k = None) /\
    (data m !! k = Some (v, ts) -> end_time t es - ts <= ttl m -> data m' !! k = Some (v, ts)).
Proof.
  revert t m. induction es as [|e es IH]; intros t m Hwf; simpl; [intros; exists m; eauto|].
  intros [He Hes] Hpos [Hk Hks]%Forall_cons Hm. unfold run. simpl.
  destruct (step_ok t m e Hwf He Hpos) as (m1 & -> & Hwf1 & Httl1 & Hother). simpl.
  destruct (Hother k Hk) as [Hyoung Hinv].
  assert (Hm1 : data m1 !! k = Some (v, ts) \/ data m1 !! k = None).
  { destruct (data m1 !! k) as [x|] eqn:E; [|by right]. left. pose proof (Hinv x eq_refl). destruct Hm; congruence. }
  destruct (IH _ _ Hwf1 Hes) as (m' & Hr & Hwf' & Httl' & Hor & Hkeep); [lia|done..|].
  exists m'. split_and!; [done..|congruence|done|]. intros Hks' Hage. apply Hkeep; [|lia].
  apply Hyoung; [done|]. assert (now2 e <= end_time (now2 e) es); [|unfold end_time in *; simpl in *; lia].
  clear -Hes. revert Hes. generalize (now2 e). unfold end_time.
  induction es as [|e' es IH]; intros t; simpl; [lia|]. intros [? Hes]. specialize (IH _ Hes). lia.
Qed.

Lemma get_ok t m now now' k v ts :
  wf t m -> t <= now <= now' -> 0 < ttl m ->
  data m !! k = Some (v, ts) \/ data m !! k = None ->
  exists m' answer, get now now' k m = Ret (m', answer) /\
    (answer = Some v \/ answer = None) /\
    (data m !! k = Some (v, ts) -> now - ts <= ttl m -> answer = Some v) /\
    (2 * ttl m <= now - ts -> answer = None).
Proof.
  intros Hwf Ht Hpos Hm.
  destruct (sweep_ok t m now Hwf) as (m' & Hs & _ & _ & Hy & Ho & Hn & Hi); [lia|done|].
  unfold get. rewrite Hs. simpl. destruct (data m' !! k) as [[v' ts']|] eqn:E.
  - pose proof (Hi _ _ E) as Ek. assert (Some (v', ts') = Some (v, ts)) as [= -> ->].
    { destruct Hm; congruence. }
    eexists _, _. split_and!; [done|by left|done|]. intros Hold. rewrite (Ho _ _ _ Ek Hold) in E. done.
  - eexists _, _. split_and!; [done|by right| |done]. intros Hk Hage.
    rewrite (Hy _ _ _ Hk Hage) in E. done.
Qed.

(** Using an entry that is young enough finds it and makes it young again. *)
Lemma get_hit t m now now' k v ts :
  wf t m -> t <= now <= now' -> 0 < ttl m -> data m !! k = Some (v, ts) -> now - ts <= ttl m ->
  exists m', get now now' k m = Ret (m', Some v) /\ wf now' m' /\ ttl m' = ttl m /\ data m' !! k = Some (v, now').
Proof.
  intros Hwf Ht Hpos Hk Hage.
  destruct (sweep_ok t m now Hwf) as (m' & Hs & Hwf' & Httl & Hy & _); [lia|done|].
  unfold get. rewrite Hs. cbn [obind]. rewrite (Hy _ _ _ Hk Hage). eexists. split; [done|].
  split; [apply (wf_touch now); [done|lia|lia]|]. split; [done|]. cbn. apply lookup_insert_eq.
Qed.

Lemma end_time_snoc t es e : end_time t (es ++ [e]) = now2 e.
Proof. unfold end_time. by rewrite foldl_app. Qed.

Lemma run_app m es es' m' : run m es = Ret m' -> run m (es ++ es') = run m' es'.
Proof.
  unfold run. revert m. induction es as [|e es IH]; intros m; simpl; [by intros [= ->]|].
  destruct (step m e) as [m1| |]; simpl; [apply IH|done..].
Qed.

Lemma run_inserted m es t1 t2 k v m' :
  run m (es ++ [mkEvent t1 t2 (Insert k v)]) = Ret m' -> data m' !! k = Some (v, t2).
Proof.
  unfold run. revert m. induction es as [|e es IH]; intros m; simpl.
  - unfold step. simpl. unfold insert. intros Hr. unbind. apply lookup_insert_eq.
  - intros (m1 & _ & Hr)%obind_ret_inv. by apply (IH m1).
Qed.
End ttl.
Arguments TtlHashMap K V {_ _}.
Arguments event K V : clear implicits.
Arguments op K V : clear implicits.
End TtlHashMap.

(** ** Properties *)

(** The two directions of a [BidiHashMap] agree after any sequence of insertions and removals
    that starts empty and never pairs a key or a value that is already paired otherwise; removing a
    key then makes it and its partner unknown in both directions. An insertion for a key that is
    already paired does not keep the promise: the old partner still leads back to the key, and is
    not forgotten when the key is removed. *)
Theorem bidi_map_directions_agree {A B : Type} `{Countable A, Countable B}
    (ops : list (@BidiHashMap.op A B)) :
  (BidiHashMap.disciplined BidiHashMap.new ops ->
   let m := foldl BidiHashMap.apply_op BidiHashMap.new ops in
   BidiHashMap.inverse m /\
   forall a b, BidiHashMap.a_to_b m a = Some b ->
     BidiHashMap.b_to_a m b = Some a /\
     let m' := (BidiHashMap.remove_a a m).1 in
     BidiHashMap.inverse m' /\ BidiHashMap.a_to_b m' a = None /\ BidiHashMap.b_to_a m' b = None) /\
  (forall (m : BidiHashMap.BidiHashMap A B) a b b',
     BidiHashMap.inverse m -> BidiHashMap.a_to_b m a = Some b -> b <> b' ->
     let m' := BidiHashMap.insert a b' m in
     ~ BidiHashMap.inverse m' /\
     BidiHashMap.b_to_a (BidiHashMap.remove_a a m').1 b = Some a).
Proof.
  split.
  - intros Hops m. assert (Hm : BidiHashMap.inverse m).
    { apply BidiHashMap.run_inverse; [apply BidiHashMap.new_inverse|done]. }
    split; [done|]. intros a b Hab. split; [by apply Hm|].
    split; [by apply BidiHashMap.remove_a_inverse|]. destruct (BidiHashMap.remove_a_gone m a b Hab) as (? & ? & _). done.
  - intros m a b b' Hm Hab Hne m'. assert (Hb : BidiHashMap.b_to_a m' b = Some a).
    { unfold m', BidiHashMap.b_to_a. simpl. rewrite lookup_insert_ne by done. by apply Hm. }
    split.
    + intros Hinv. apply Hinv in Hb. unfold m', BidiHashMap.a_to_b in Hb. simpl in Hb.
      rewrite lookup_insert_eq in Hb. congruence.
    + unfold BidiHashMap.remove_a. unfold m' at 1. simpl. rewrite lookup_insert_eq.
      unfold BidiHashMap.b_to_a. simpl. rewrite lookup_delete_ne, lookup_insert_ne by done. by apply Hm.
Qed.

Lemma bidi_map_directions_agree_witness :
  let m := foldl BidiHashMap.apply_op BidiHashMap.new
             [BidiHashMap.Insert 1 2; BidiHashMap.Insert 3 4; BidiHashMap.RemoveB 4] in
  BidiHashMap.b_to_a (BidiHashMap.remove_a 1 (BidiHashMap.insert 1 5 m)).1 2 = Some 1.
Proof.
  destruct (bidi_map_directions_agree
    [BidiHashMap.Insert 1 2; BidiHashMap.Insert 3 4; BidiHashMap.RemoveB 4]) as [Hgood Hbad].
  simpl in Hgood. destruct Hgood as [Hinv _]; [by repeat split; left|].
  apply (Hbad _ 1 2 5); [done|by vm_compute|done].
Defined.

(** What is put into a [TtlHashMap] is found there for its time to live and not for longer than
    twice that. No use of the map panics as long as the clock does not go back. If a value is
    inserted, at any point in the map's life, and others of its keys are used for a while, then a
    [get] finds the value if it comes within the time to live, and finds nothing if it comes twice
    the time to live later or more. *)
Theorem ttl_map_keeps_then_forgets {K V : Type} `{Countable K} (t0 ttl : Z)
    (before between : list (TtlHashMap.event K V)) (k : K) (v : V) (t1 t2 t3 t4 : Z) :
  0 < ttl ->
  TtlHashMap.clocked t0 (before ++ [TtlHashMap.mkEvent t1 t2 (TtlHashMap.Insert k v)]) ->
  TtlHashMap.clocked t2 between ->
  Forall (fun e => ~ TtlHashMap.touches k e) between ->
  TtlHashMap.end_time t2 between <= t3 <= t4 ->
  exists m m' answer,
    TtlHashMap.run (TtlHashMap.new t0 ttl)
      (before ++ TtlHashMap.mkEvent t1 t2 (TtlHashMap.Insert k v) :: between) = Ret m /\
    TtlHashMap.get t3 t4 k m = Ret (m', answer) /\
    (t3 <= t2 + ttl -> answer = Some v) /\
    (t2 + 2 * ttl <= t3 -> answer = None).
Proof.
  intros Hpos Hc1 Hc2 Hun Ht. replace (before ++ _ :: between)
    with ((before ++ [TtlHashMap.mkEvent t1 t2 (TtlHashMap.Insert k v)]) ++ between)
    by by rewrite <- app_assoc.
  destruct (TtlHashMap.run_wf t0 (TtlHashMap.new t0 ttl) _ (TtlHashMap.new_wf_at t0 ttl) Hc1 Hpos)
    as (m1 & Hr1 & Hwf1 & Httl1). simpl in Httl1.
  rewrite TtlHashMap.end_time_snoc in Hwf1. simpl in Hwf1.
  pose proof (TtlHashMap.run_inserted _ _ _ _ _ _ _ Hr1) as Hk.
  destruct (TtlHashMap.run_untouched t2 m1 between k v t2 Hwf1 Hc2)
    as (m & Hr & Hwf & Httl & Hor & Hkeep); [lia|done|by left|].
  destruct (TtlHashMap.get_ok _ m t3 t4 k v t2 Hwf Ht) as (m' & answer & Hg & _ & Hy & Ho); [lia|done|].
  exists m, m', answer. split_and!; [|done|intros; apply Hy; [apply Hkeep|]; (done || lia)|intros; apply Ho; lia].
  by rewrite (TtlHashMap.run_app _ _ _ _ Hr1).
Qed.

Lemma ttl_map_keeps_then_forgets_witness :
  exists m m' answer,
    TtlHashMap.run (TtlHashMap.new 0 10)
      [TtlHashMap.mkEvent 1 2 (TtlHashMap.Insert 7 70); TtlHashMap.mkEvent 12 13 (TtlHashMap.Get 8)] = Ret m /\
    TtlHashMap.get 22 23 7 m = Ret (m', answer) /\ answer = None.
Proof.
  destruct (ttl_map_keeps_then_forgets 0 10 [] [TtlHashMap.mkEvent 12 13 (TtlHashMap.Get 8)] 7 70 1 2 22 23)
    as (m & m' & answer & Hr & Hg & _ & Ho); [done|simpl; lia|simpl; lia|by repeat constructor|simpl; lia|].
  exists m, m', answer. split_and!; [done|done|apply Ho; lia].
Defined.
