(* ===== verification/SequenceBuffer.v ===== *)
(** * SequenceBuffer: reordering of sequenced packets

    sequence_buffer.rs and sequencer.rs of [node/src/sub_lib]. The [BinaryHeap] is a bag of
    packets, kept in insertion order, whose [peek] is a packet of least sequence number (the
    [Ord] instance reverses the comparison); a heap may choose among equal keys, which is not
    observable because keys are distinct ([wf_nodup]). *)
From S2P Require Import Prelude SubLib Utils.

Record SequencedPacket := mkSequencedPacket {
  data : bytes;
  sequence_number : Z;
  last_data : bool
}.

#[global] Instance SequencedPacket_eq_dec : EqDecision SequencedPacket.
Proof. solve_decision. Defined.
#[global] Instance SequencedPacket_countable : Countable SequencedPacket.
Proof.
  refine (inj_countable' (fun p => (data p, sequence_number p, last_data p))
    (fun x => mkSequencedPacket x.1.1 x.1.2 x.2) _). by intros [].
Defined.

(** ** Wire format: one flag byte, eight bytes of sequence number, the data *)
Module Wire.

(** [u64_to]: fills eight bytes from the last one down. *)
Fixpoint u64_to_loop (n : nat) (remaining : Z) : bytes :=
  match n with
  | O => []
  | S n' => u64_to_loop n' (Z.shiftr remaining 8) ++ [wrap 8 (Z.land remaining 0xFF)]
  end.

Definition u64_to (value : Z) : bytes := u64_to_loop 8 value.

Definition u64_from (b : bytes) : option Z :=
  if bool_decide (length b = 8%nat)
  then Some (foldl (fun acc byte => wrap 64 (wrap 64 (Z.shiftl acc 8) + byte)) 0 b)
  else None.

Definition serialize (p : SequencedPacket) : bytes :=
  (if last_data p then 1 else 0) :: u64_to (sequence_number p) ++ data p.

(** [visit_bytes]: [v[0]] and [v[1..9]] are indexed without a length check. *)
Definition visit_bytes (v : bytes) : outcome (option SequencedPacket) :=
  let* v0 := expect (v !! 0%nat) in
  match v0 with
  | 0 | 1 =>
      if (length v <? 9)%nat then Panic
      else match u64_from (take 8 (drop 1 v)) with
           | None => Ret None
           | Some n => Ret (Some (mkSequencedPacket (drop 9 v) n (v0 =? 1)))
           end
  | _ => Ret None
  end.

Lemma length_u64_to_loop n v : length (u64_to_loop n v) = n.
Proof. revert v. induction n; intros; simpl; [done|]. rewrite length_app, IHn. simpl. lia. Qed.

Lemma length_u64_to v : length (u64_to v) = 8%nat.
Proof. apply length_u64_to_loop. Qed.

Lemma u64_from_loop n v acc :
  0 <= v < 2 ^ (8 * Z.of_nat n) -> (n <= 8)%nat -> 0 <= acc ->
  acc * 2 ^ (8 * Z.of_nat n) + v < 2 ^ 64 ->
  foldl (fun acc byte => wrap 64 (wrap 64 (Z.shiftl acc 8) + byte)) acc (u64_to_loop n v)
    = acc * 2 ^ (8 * Z.of_nat n) + v.
Proof.
  revert v. induction n as [|n IH]; intros v Hv Hn Hacc Hb.
  - simpl in *. lia.
  - cbn [u64_to_loop]. rewrite foldl_app. cbn [foldl].
    rewrite Nat2Z.inj_succ, Z.mul_succ_r, Z.pow_add_r in * by lia.
    change 0xFF with (2 ^ 8 - 1). rewrite land_mask, Z.shiftr_div_pow2 by lia.
    set (P := 2 ^ (8 * Z.of_nat n)) in *. assert (0 < P) by (apply Z.pow_pos_nonneg; lia).
    change (2 ^ 8) with 256 in *.
    assert (Hdm : v = 256 * (v / 256) + v mod 256) by divmod_lia.
    assert (0 <= v mod 256 < 256) by divmod_lia.
    assert (0 <= v / 256) by divmod_lia.
    rewrite IH; [| nia | lia | done | nia]. fold P.
    rewrite Z.shiftl_mul_pow2 by lia. change (2 ^ 8) with 256.
    rewrite (wrap_small 8) by (unfold uint; lia).
    rewrite (wrap_small 64 (_ * 256)) by (unfold uint; nia).
    rewrite wrap_small by (unfold uint; nia). nia.
Qed.

Lemma u64_from_to v : uint 64 v -> u64_from (u64_to v) = Some v.
Proof.
  intros Hv. unfold u64_from. rewrite bool_decide_true by apply length_u64_to.
  f_equal. unfold u64_to. rewrite u64_from_loop; unfold uint in *; simpl; lia.
Qed.

End Wire.

#[global] Arguments Wire.u64_to : simpl never.

(** ** The buffer *)
Record SequenceBuffer := mkSequenceBuffer {
  buffer : list SequencedPacket;
  next_expected_sequence_number : Z;
  seen_sequence_numbers : list Z
}.

Definition buffer_new : SequenceBuffer := mkSequenceBuffer [] 0 [].

Definition push (b : SequenceBuffer) (packet : SequencedPacket) : SequenceBuffer :=
  if (next_expected_sequence_number b <=? sequence_number packet)
     && negb (bool_decide (sequence_number packet ∈ seen_sequence_numbers b))
  then mkSequenceBuffer (buffer b ++ [packet]) (next_expected_sequence_number b)
         (seen_sequence_numbers b ++ [sequence_number packet])
  else b.

(** [BinaryHeap::pop]: the packet of least sequence number and the others. *)
Fixpoint heap_pop (l : list SequencedPacket) : option (SequencedPacket * list SequencedPacket) :=
  match l with
  | [] => None
  | p :: l' =>
      match heap_pop l' with
      | None => Some (p, [])
      | Some (q, rest) =>
          if sequence_number p <=? sequence_number q then Some (p, l') else Some (q, p :: rest)
      end
  end.

Definition heap_peek (l : list SequencedPacket) : option SequencedPacket := fst <$> heap_pop l.

Definition poll (b : SequenceBuffer) : outcome (SequenceBuffer * option SequencedPacket) :=
  match buffer b with
  | [] => Ret (b, None)
  | _ =>
      let* top := expect (heap_peek (buffer b)) in
      let sequence_number_to_pop := sequence_number top in
      if sequence_number_to_pop =? next_expected_sequence_number b then
        let next' := wrap 64 (next_expected_sequence_number b + 1) in
        let packet := fst <$> heap_pop (buffer b) in
        let buffer' := default (buffer b) (snd <$> heap_pop (buffer b)) in
        match index_of (seen_sequence_numbers b) [sequence_number_to_pop] with
        | Some index =>
            let* seen' := vec_remove (seen_sequence_numbers b) index in
            Ret (mkSequenceBuffer buffer' next' seen', packet)
        | None => Ret (mkSequenceBuffer buffer' next' (seen_sequence_numbers b), packet)
        end
      else Ret (b, None)
  end.

Definition repush (b : SequenceBuffer) (packet : SequencedPacket) : outcome SequenceBuffer :=
  if negb (sequence_number packet =? wrap 64 (next_expected_sequence_number b - 1)) then Panic
  else Ret (mkSequenceBuffer (buffer b ++ [packet]) (sequence_number packet)
              (seen_sequence_numbers b ++ [sequence_number packet])).

Definition buffer_len (b : SequenceBuffer) : nat := length (buffer b).
Definition buffer_is_empty (b : SequenceBuffer) : bool := (buffer_len b =? 0)%nat.

(** [Sequencer] *)
Definition next_sequence_number (current : Z) : Z * Z := (wrap 64 (current + 1), current).

(** ** Invariant *)
Record wf (b : SequenceBuffer) : Prop := {
  wf_nodup : NoDup (map sequence_number (buffer b));
  wf_seen : seen_sequence_numbers b ≡ₚ map sequence_number (buffer b);
  wf_low : Forall (fun p => next_expected_sequence_number b <= sequence_number p < 2 ^ 64) (buffer b);
  wf_next : uint 64 (next_expected_sequence_number b)
}.

(** ** The abstract buffer: a map of waiting packets and the number to hand out next *)
Record spec := mkSpec { waiting : gmap Z SequencedPacket; next : Z }.

Definition abs (b : SequenceBuffer) : spec :=
  mkSpec (list_to_map (map (fun p => (sequence_number p, p)) (buffer b)))
         (next_expected_sequence_number b).

Definition spec_push (s : spec) (p : SequencedPacket) : spec :=
  if (next s <=? sequence_number p) && bool_decide (waiting s !! sequence_number p = None)
  then mkSpec (<[sequence_number p := p]> (waiting s)) (next s)
  else s.

Definition spec_poll (s : spec) : spec * option SequencedPacket :=
  match waiting s !! next s with
  | Some p => (mkSpec (delete (next s) (waiting s)) (wrap 64 (next s + 1)), Some p)
  | None => (s, None)
  end.

(** ** Heap and index lemmas *)
Lemma heap_pop_spec l p rest :
  heap_pop l = Some (p, rest) ->
  p :: rest ≡ₚ l /\ Forall (fun q => sequence_number p <= sequence_number q) l.
Proof.
  revert p rest. induction l as [|x l IH]; intros p rest; simpl; [done|].
  destruct (heap_pop l) as [[q r]|] eqn:E.
  - destruct (IH q r eq_refl) as [Hp Hmin].
    destruct (Z.leb_spec (sequence_number x) (sequence_number q)); intros [= <- <-].
    + split; [done|]. constructor; [lia|]. eapply Forall_impl; [done|]. simpl. lia.
    + split; [rewrite Permutation_swap; by constructor|]. constructor; [lia|done].
  - destruct l as [|y l].
    + intros [= <- <-]. split; [done|]. by repeat constructor.
    + simpl in E. destruct (heap_pop l) as [[]|]; [by case_match|done].
Qed.

Lemma heap_pop_is_Some x l : exists p rest, heap_pop (x :: l) = Some (p, rest).
Proof. simpl. destruct (heap_pop l) as [[]|]; [case_match|]; eauto. Qed.

Lemma keys_of_buffer (l : list SequencedPacket) :
  (map (fun p => (sequence_number p, p)) l).*1 = map sequence_number l.
Proof. rewrite <- list_fmap_compose. done. Qed.

Lemma abs_lookup l k p :
  NoDup (map sequence_number l) ->
  (list_to_map (map (fun p => (sequence_number p, p)) l) : gmap Z SequencedPacket) !! k = Some p <->
  p ∈ l /\ sequence_number p = k.
Proof.
  intros Hnd. rewrite <- elem_of_list_to_map by by rewrite keys_of_buffer.
  rewrite list_elem_of_fmap. naive_solver.
Qed.

Lemma abs_lookup_None l k :
  (list_to_map (map (fun p => (sequence_number p, p)) l) : gmap Z SequencedPacket) !! k = None <->
  k ∉ map sequence_number l.
Proof. rewrite <- (keys_of_buffer l). symmetry. apply not_elem_of_list_to_map. Qed.

Lemma abs_perm (l l' : list SequencedPacket) :
  NoDup (map sequence_number l) -> l ≡ₚ l' ->
  (list_to_map (map (fun p => (sequence_number p, p)) l) : gmap Z SequencedPacket) =
  list_to_map (map (fun p => (sequence_number p, p)) l').
Proof.
  intros Hnd Hp. apply list_to_map_proper; [by rewrite keys_of_buffer|].
  by apply fmap_Permutation.
Qed.

(** Taking a number that is there out of the list of seen numbers. *)
Lemma seen_removed (l : list Z) k :
  k ∈ l -> exists i l', index_of l [k] = Some i /\ vec_remove l i = Ret l' /\ k :: l' ≡ₚ l.
Proof.
  intros Hin. unfold index_of. destruct (index_of_loop 0 l [k]) as [i|] eqn:E.
  - apply index_of_loop_Some in E as (Hr & [t Ht] & _). rewrite Nat.sub_0_r in Ht. simpl in Hr.
    destruct (vec_remove l i) as [l'| |] eqn:Ev.
    + exists i, l'. split_and!; [done..|].
      apply vec_remove_ret in Ev as (x & Hx & Hp).
      assert (x = k) as <-; [|done]. rewrite <- (Nat.add_0_r i) in Hx.
      rewrite <- lookup_drop, Ht in Hx. simpl in Hx. congruence.
    + unfold vec_remove in Ev. rewrite (proj2 (Nat.ltb_lt _ _)) in Ev by lia. done.
    + unfold vec_remove in Ev. case_match; done.
  - exfalso. apply list_elem_of_lookup in Hin as [j Hj].
    eapply (index_of_loop_None _ _ _ E j); [by eapply lookup_lt_Some|].
    exists (drop (S j) l). by rewrite (drop_S _ _ _ Hj).
Qed.

(** ** Preservation *)
Lemma buffer_new_wf : wf buffer_new.
Proof. split; simpl; [constructor|done|constructor|unfold uint; lia]. Qed.

Lemma push_wf b p : uint 64 (sequence_number p) -> wf b -> wf (push b p).
Proof.
  intros Hp [Hnd Hseen Hlow Hnext]. unfold push.
  destruct (Z.leb_spec (next_expected_sequence_number b) (sequence_number p)); simpl; [|done].
  case_bool_decide as Hin; simpl; [done|].
  split; simpl; rewrite ?map_app; simpl.
  - rewrite Hseen in Hin. apply NoDup_app. split_and!; [done| |apply NoDup_singleton].
    intros x Hx Hx'. by apply list_elem_of_singleton in Hx' as ->.
  - by rewrite Hseen.
  - apply Forall_app. split; [done|]. constructor; [|done]. unfold uint in Hp. lia.
  - done.
Qed.

Lemma poll_waiting b p rest :
  wf b -> heap_pop (buffer b) = Some (p, rest) -> sequence_number p = next_expected_sequence_number b ->
  exists seen', poll b = Ret (mkSequenceBuffer rest (wrap 64 (next_expected_sequence_number b + 1)) seen', Some p)
    /\ seen' ≡ₚ map sequence_number rest.
Proof.
  intros [Hnd Hseen Hlow Hnext] Hpop Heq. pose proof (heap_pop_spec _ _ _ Hpop) as [Hperm Hmin].
  assert (Hk : sequence_number p ∈ seen_sequence_numbers b).
  { rewrite Hseen, <- Hperm. simpl. left. }
  destruct (seen_removed _ _ Hk) as (i & l' & Hi & Hrm & Hl').
  unfold poll. destruct (buffer b) as [|x l] eqn:Eb; [done|]. rewrite <- Eb in *.
  unfold heap_peek. rewrite Hpop. cbn [fmap option_fmap option_map expect obind fst snd default].
  rewrite Heq, Z.eqb_refl, <- Heq, Hi, Hrm. cbn [obind].
  eexists. split; [done|]. apply (Permutation_cons_inv (a := sequence_number p)).
  rewrite Hl', Hseen, <- Hperm. done.
Qed.

Lemma poll_idle b :
  wf b -> (forall p rest, heap_pop (buffer b) = Some (p, rest) ->
             sequence_number p <> next_expected_sequence_number b) ->
  poll b = Ret (b, None).
Proof.
  intros Hwf Hne. unfold poll. destruct (buffer b) as [|x l] eqn:Eb; [done|].
  destruct (heap_pop_is_Some x l) as (p & rest & Hpop). unfold heap_peek. rewrite Hpop.
  cbn [fmap option_fmap option_map expect obind fst]. specialize (Hne p rest Hpop).
  by rewrite (proj2 (Z.eqb_neq _ _) Hne).
Qed.

Lemma rest_above b p rest :
  wf b -> heap_pop (buffer b) = Some (p, rest) ->
  NoDup (map sequence_number rest) /\
  Forall (fun q => sequence_number p + 1 <= sequence_number q < 2 ^ 64) rest.
Proof.
  intros [Hnd Hseen Hlow Hnext] (Hperm & Hmin)%heap_pop_spec.
  rewrite <- Hperm in Hnd, Hlow, Hmin. simpl in Hnd. apply NoDup_cons in Hnd as [Hni Hnd].
  split; [done|]. inversion_clear Hlow as [|?? _ Hlow']. inversion_clear Hmin as [|?? _ Hmin'].
  rewrite Forall_forall in *. intros q Hq. specialize (Hlow' q Hq). specialize (Hmin' q Hq).
  simpl in *. assert (sequence_number p <> sequence_number q); [|lia].
  intros Heq. apply Hni. rewrite Heq. apply list_elem_of_fmap. eauto.
Qed.

Lemma poll_wf b : wf b -> exists b' r, poll b = Ret (b', r) /\ wf b'.
Proof.
  intros Hwf. destruct (heap_pop (buffer b)) as [[p rest]|] eqn:Hpop.
  - destruct (decide (sequence_number p = next_expected_sequence_number b)) as [Heq|Hne].
    + destruct (poll_waiting b p rest Hwf Hpop Heq) as (seen' & Hpoll & Hseen').
      destruct (rest_above b p rest Hwf Hpop) as [Hnd Habove].
      do 2 eexists. split; [done|]. split; simpl; [done|done| |by apply wrap_uint].
      eapply Forall_impl; [done|]. simpl. intros q Hq.
      pose proof (wf_next b Hwf) as Hn. unfold uint, wrap in *.
      rewrite Z.mod_small by lia. lia.
    + rewrite poll_idle; [eauto|done|]. intros. congruence.
  - rewrite poll_idle; [eauto|done|]. intros. congruence.
Qed.

Lemma repush_wf b p b' :
  wf b -> 0 < next_expected_sequence_number b -> repush b p = Ret b' -> wf b'.
Proof.
  intros [Hnd Hseen Hlow Hnext] H0. unfold repush, uint in *. rewrite (Z.eqb_sym).
  destruct (Z.eqb_spec (wrap 64 (next_expected_sequence_number b - 1)) (sequence_number p)) as [E|]; [|done].
  simpl. intros [= <-]. rewrite wrap_small in E by (unfold uint; lia).
  split; simpl; rewrite ?map_app; simpl.
  - apply NoDup_app. split_and!; [done| |apply NoDup_singleton].
    intros x Hx Hx'. apply list_elem_of_singleton in Hx' as ->.
    apply list_elem_of_fmap in Hx as (q & Heq & Hq). rewrite Forall_forall in Hlow.
    specialize (Hlow q Hq). simpl in Hlow. lia.
  - by rewrite Hseen.
  - apply Forall_app. split; [|constructor; [lia|done]].
    eapply Forall_impl; [done|]. simpl. lia.
  - unfold uint. lia.
Qed.

(** ** Refinement of the abstract buffer *)
Lemma push_refines b p : wf b -> abs (push b p) = spec_push (abs b) p.
Proof.
  intros [Hnd Hseen Hlow Hnext]. unfold push, spec_push, abs. simpl.
  destruct (Z.leb_spec (next_expected_sequence_number b) (sequence_number p)); simpl; [|done].
  destruct (decide (sequence_number p ∈ seen_sequence_numbers b)) as [Hin|Hin].
  - rewrite bool_decide_true by done. simpl. rewrite bool_decide_false; [done|].
    rewrite abs_lookup_None, <- Hseen. tauto.
  - rewrite bool_decide_false by done. simpl.
    rewrite bool_decide_true by by rewrite abs_lookup_None, <- Hseen.
    f_equal. simpl. rewrite <- (abs_perm (p :: buffer b)); [done| |by rewrite Permutation_app_comm].
    simpl. apply NoDup_cons. split; [by rewrite <- Hseen|done].
Qed.

Lemma poll_refines b b' r : wf b -> poll b = Ret (b', r) -> spec_poll (abs b) = (abs b', r).
Proof.
  intros Hwf Hpoll. pose proof Hwf as [Hnd Hseen Hlow Hnext]. unfold spec_poll.
  destruct (heap_pop (buffer b)) as [[p rest]|] eqn:Hpop.
  - pose proof (heap_pop_spec _ _ _ Hpop) as [Hperm Hmin].
    destruct (decide (sequence_number p = next_expected_sequence_number b)) as [Heq|Hne].
    + destruct (poll_waiting b p rest Hwf Hpop Heq) as (seen' & Hpoll' & _).
      rewrite Hpoll' in Hpoll. injection Hpoll as <- <-.
      assert (Hl : waiting (abs b) !! next (abs b) = Some p).
      { simpl. apply abs_lookup; [done|]. split; [|done]. rewrite <- Hperm. left. }
      rewrite Hl. f_equal. unfold abs. simpl. f_equal.
      rewrite <- (abs_perm (p :: rest)); [|by rewrite Hperm|done]. simpl. rewrite Heq.
      apply delete_insert_id. apply abs_lookup_None. rewrite <- Heq.
      assert (Hnd' : NoDup (map sequence_number (p :: rest))) by by rewrite Hperm.
      simpl in Hnd'. by apply NoDup_cons in Hnd' as [? _].
    + rewrite poll_idle in Hpoll; [|done|intros; congruence]. simplify_eq.
      destruct (waiting (abs b') !! next (abs b')) as [q|] eqn:E; [|done]. exfalso.
      simpl in E. apply abs_lookup in E as [Hq Hqn]; [|done].
      rewrite Forall_forall in Hmin, Hlow. specialize (Hmin q Hq).
      assert (Hp : p ∈ buffer b') by (rewrite <- Hperm; left). specialize (Hlow p Hp). simpl in *. lia.
  - rewrite poll_idle in Hpoll; [|done|intros; congruence]. simplify_eq.
    destruct (buffer b') as [|x l] eqn:Eb.
    + unfold abs. simpl. by rewrite Eb.
    + destruct (heap_pop_is_Some x l) as (? & ? & ?). congruence.
Qed.

(** ** Runs of pushes and polls *)
Inductive op := Push (p : SequencedPacket) | Poll.

Definition op_ok (o : op) : Prop :=
  match o with
  | Push p => uint 64 (sequence_number p)
  | Poll => True
  end.

Fixpoint run (b : SequenceBuffer) (ops : list op) : outcome (SequenceBuffer * list SequencedPacket) :=
  match ops with
  | [] => Ret (b, [])
  | Push p :: ops' => run (push b p) ops'
  | Poll :: ops' =>
      let* (b', r) := poll b in
      let* (b'', out) := run b' ops' in
      Ret (b'', option_list r ++ out)
  end.

Fixpoint spec_run (s : spec) (ops : list op) : spec * list SequencedPacket :=
  match ops with
  | [] => (s, [])
  | Push p :: ops' => spec_run (spec_push s p) ops'
  | Poll :: ops' =>
      let '(s', r) := spec_poll s in
      let '(s'', out) := spec_run s' ops' in (s'', option_list r ++ out)
  end.

Lemma run_total b ops : wf b -> Forall op_ok ops -> exists b' out, run b ops = Ret (b', out) /\ wf b'.
Proof.
  intros Hwf Hops. revert b Hwf. induction Hops as [|[p|] ops Ho Hops IH]; intros b Hwf; simpl.
  - eauto.
  - apply IH. by apply push_wf.
  - destruct (poll_wf b Hwf) as (b1 & r & -> & Hwf1). simpl.
    destruct (IH b1 Hwf1) as (b2 & out & -> & Hwf2). simpl. eauto.
Qed.

Lemma run_refines_spec b ops b' out :
  wf b -> Forall op_ok ops -> run b ops = Ret (b', out) -> spec_run (abs b) ops = (abs b', out).
Proof.
  intros Hwf Hops. revert b Hwf out. induction Hops as [|[p|] ops Ho Hops IH]; intros b Hwf out; simpl.
  - by intros [= <- <-].
  - rewrite <- push_refines by done. apply IH. by apply push_wf.
  - destruct (poll_wf b Hwf) as (b1 & r & Hp & Hwf1). rewrite Hp. simpl.
    rewrite (poll_refines _ _ _ Hwf Hp).
    intros ([b2 out'] & Hr & [= <- <-])%obind_ret_inv. by rewrite (IH b1 Hwf1 out' Hr).
Qed.

(** Sequence numbers [n, n + 1, ...] *)
Definition consecutive (n : Z) (out : list SequencedPacket) : Prop :=
  map sequence_number out = seqZ n (Z.of_nat (length out)).

Definition keyed (s : spec) : Prop := forall k p, waiting s !! k = Some p -> sequence_number p = k.

Lemma spec_push_keyed s p : keyed s -> keyed (spec_push s p).
Proof.
  intros Hk. unfold spec_push. case_match; [|done]. intros k q. simpl.
  intros Hq. apply lookup_insert_Some in Hq as [[<- <-]|[_ Hq]]; [done|]. by apply Hk.
Qed.

Lemma spec_poll_keyed s s' r : keyed s -> spec_poll s = (s', r) -> keyed s'.
Proof.
  intros Hk. unfold spec_poll. case_match; intros [= <- <-]; [|done].
  intros k q. simpl. intros [_ Hq]%lookup_delete_Some. by apply Hk.
Qed.

Lemma spec_run_consecutive s ops s' out :
  keyed s -> spec_run s ops = (s', out) -> 0 <= next s -> next s + Z.of_nat (length ops) < 2 ^ 64 ->
  consecutive (next s) out.
Proof.
  revert s out. induction ops as [|[p|] ops IH]; intros s out Hk Hrun H0 Hb; simpl in *.
  - by simplify_eq.
  - assert (Hn : next (spec_push s p) = next s) by (unfold spec_push; case_match; done).
    rewrite <- Hn. eapply IH; [by apply spec_push_keyed|done|lia|lia].
  - destruct (spec_poll s) as [s1 r] eqn:Hp. destruct (spec_run s1 ops) as [s2 out'] eqn:Hr.
    simplify_eq. pose proof (spec_poll_keyed _ _ _ Hk Hp) as Hk1. unfold spec_poll in Hp.
    destruct (waiting s !! next s) as [q|] eqn:Eq; simplify_eq; simpl.
    + assert (Hw : wrap 64 (next s + 1) = next s + 1) by (apply wrap_small; unfold uint; lia).
      specialize (IH _ _ Hk1 Hr). simpl in IH. rewrite Hw in IH.
      unfold consecutive in *. simpl. rewrite (Hk _ _ Eq), IH by lia.
      rewrite (seqZ_cons (next s)) by lia. f_equal. f_equal; lia.
    + eapply IH; [done|done|lia|lia].
Qed.

(** Pushing packets with distinct numbers keeps them all. *)
Lemma spec_push_all s ps :
  NoDup (map sequence_number ps) ->
  Forall (fun p => next s <= sequence_number p /\ waiting s !! sequence_number p = None) ps ->
  spec_run s (map Push ps) =
    (mkSpec (list_to_map (map (fun p => (sequence_number p, p)) ps) ∪ waiting s) (next s), []).
Proof.
  revert s. induction ps as [|p ps IH]; intros s Hnd Hall; simpl.
  - rewrite (left_id_L ∅ (∪)). by destruct s.
  - simpl in Hnd. apply NoDup_cons in Hnd as [Hni Hnd]. inversion_clear Hall as [|?? [Hle Hnone] Hall'].
    assert (Hpush : spec_push s p = mkSpec (<[sequence_number p := p]> (waiting s)) (next s)).
    { unfold spec_push. rewrite (proj2 (Z.leb_le _ _) Hle), bool_decide_true by done. done. }
    rewrite Hpush, IH; [|done|].
    + simpl. f_equal. f_equal. rewrite <- insert_union_r; [|by apply abs_lookup_None].
      by rewrite insert_union_l.
    + rewrite Forall_forall in *. intros q Hq. simpl. destruct (Hall' q Hq) as [? ?]. split; [done|].
      rewrite lookup_insert_ne; [done|]. intros Heq. apply Hni. rewrite Heq. apply list_elem_of_fmap. eauto.
Qed.

Lemma spec_poll_all n (f : Z -> SequencedPacket) s :
  0 <= next s -> next s + Z.of_nat n < 2 ^ 64 ->
  (forall k, next s <= k < next s + Z.of_nat n -> waiting s !! k = Some (f k)) ->
  (spec_run s (replicate n Poll)).2 = map f (seqZ (next s) (Z.of_nat n)).
Proof.
  revert s. induction n as [|n IH]; intros s H0 Hb Hall; simpl; [done|].
  unfold spec_poll. rewrite Hall by lia.
  assert (Hw : wrap 64 (next s + 1) = next s + 1) by (apply wrap_small; unfold uint; lia).
  rewrite Hw. set (s1 := mkSpec (delete (next s) (waiting s)) (next s + 1)).
  specialize (IH s1). destruct (spec_run s1 (replicate n Poll)) as [s2 out] eqn:Er. simpl in *.
  rewrite IH; [|lia|lia|].
  - rewrite (seqZ_cons (next s)) by lia. simpl. do 2 f_equal. f_equal; lia.
  - intros k Hk. rewrite lookup_delete_ne by lia. apply Hall. lia.
Qed.

Lemma spec_run_app s ops1 ops2 :
  spec_run s (ops1 ++ ops2) =
    let '(s1, out1) := spec_run s ops1 in
    let '(s2, out2) := spec_run s1 ops2 in (s2, out1 ++ out2).
Proof.
  revert s. induction ops1 as [|[p|] ops1 IH]; intros s; simpl.
  - by destruct (spec_run s ops2).
  - apply IH.
  - destruct (spec_poll s) as [s1 r]. rewrite IH. destruct (spec_run s1 ops1) as [s2 o1].
    destruct (spec_run s2 ops2) as [s3 o2]. by rewrite app_assoc.
Qed.

(** ** Properties *)

(** C20: for every sequence of pushes and polls, a fresh [SequenceBuffer] never panics and
    behaves as the abstract buffer does: it emits the same packets in the same order and ends
    in a well-formed state that represents the abstract one. *)
Theorem sequence_buffer_refines (ops : list op) :
  Forall op_ok ops ->
  exists b' out, run buffer_new ops = Ret (b', out) /\ wf b' /\
    spec_run (mkSpec ∅ 0) ops = (abs b', out).
Proof.
  intros Hops. destruct (run_total buffer_new ops buffer_new_wf Hops) as (b' & out & Hrun & Hwf).
  exists b', out. split_and!; [done..|]. by apply (run_refines_spec buffer_new ops b' out buffer_new_wf).
Qed.

Definition pk (n : Z) : SequencedPacket := mkSequencedPacket [n] n false.

Lemma sequence_buffer_refines_witness :
  exists b' out, run buffer_new [Push (pk 1); Poll; Push (pk 0); Push (pk 0); Poll; Poll] = Ret (b', out)
    /\ out = [pk 0; pk 1].
Proof.
  destruct (sequence_buffer_refines [Push (pk 1); Poll; Push (pk 0); Push (pk 0); Poll; Poll])
    as (b' & out & Hrun & _ & Hspec).
  - repeat constructor; unfold uint; simpl; lia.
  - exists b', out. split; [exact Hrun|].
    apply (f_equal snd) in Hspec. vm_compute in Hspec. symmetry. exact Hspec.
Defined.

(** Whatever is pushed and whenever it is polled, duplicates and gaps included, the packets
    that come out carry the sequence numbers 0, 1, 2, ... without repetition or omission. *)
Theorem sequence_buffer_in_order (ops : list op) b' out :
  Forall op_ok ops -> Z.of_nat (length ops) < 2 ^ 64 ->
  run buffer_new ops = Ret (b', out) -> consecutive 0 out.
Proof.
  intros Hops Hlen Hrun. apply (run_refines_spec _ _ _ _ buffer_new_wf Hops) in Hrun.
  eapply (spec_run_consecutive (abs buffer_new)); [|done|simpl; lia|done].
  intros k p Hk. done.
Qed.

Lemma sequence_buffer_in_order_witness :
  consecutive 0 [pk 0; pk 1].
Proof.
  eapply (sequence_buffer_in_order [Push (pk 1); Poll; Push (pk 0); Poll; Poll]).
  - repeat constructor; unfold uint; simpl; lia.
  - simpl. lia.
  - reflexivity.
Defined.

(** packets numbered 0 to n-1 that arrive in any order are all delivered, in order, by n
    polls. *)
Theorem sequence_buffer_delivers_all (ps : list SequencedPacket) :
  map sequence_number ps ≡ₚ seqZ 0 (Z.of_nat (length ps)) -> Z.of_nat (length ps) < 2 ^ 64 ->
  exists b' out, run buffer_new (map Push ps ++ replicate (length ps) Poll) = Ret (b', out) /\
    out ≡ₚ ps /\ consecutive 0 out.
Proof.
  intros Hperm Hlen.
  assert (Hrange : forall p, p ∈ ps -> 0 <= sequence_number p < Z.of_nat (length ps)).
  { intros p Hp. assert (Hin : sequence_number p ∈ map sequence_number ps)
      by (apply list_elem_of_fmap; eauto). rewrite Hperm, elem_of_seqZ in Hin. lia. }
  assert (Hnd : NoDup (map sequence_number ps)) by (rewrite Hperm; apply NoDup_seqZ).
  assert (Hops : Forall op_ok (map Push ps ++ replicate (length ps) Poll)).
  { apply Forall_app. split; [|by apply Forall_replicate]. apply Forall_map, Forall_forall.
    intros p Hp. specialize (Hrange p Hp). simpl. unfold uint. lia. }
  destruct (run_total buffer_new _ buffer_new_wf Hops) as (b' & out & Hrun & _). exists b', out.
  pose proof (run_refines_spec _ _ _ _ buffer_new_wf Hops Hrun) as Hs. rewrite spec_run_app in Hs.
  rewrite spec_push_all in Hs; [|done|].
  2:{ apply Forall_forall. intros p Hp. specialize (Hrange p Hp). split; [simpl; lia|].
      apply lookup_empty. }
  change (waiting (abs buffer_new)) with (∅ : gmap Z SequencedPacket) in Hs.
  rewrite (right_id_L ∅ (∪)) in Hs. change (next (abs buffer_new)) with 0 in Hs.
  set (m := list_to_map (map (fun p => (sequence_number p, p)) ps) : gmap Z SequencedPacket) in *.
  pose proof (spec_poll_all (length ps) (fun k => default (pk k) (m !! k)) (mkSpec m 0)) as Hpoll.
  destruct (spec_run (mkSpec m 0) (replicate (length ps) Poll)) as [s2 o2]. simpl in Hs, Hpoll.
  injection Hs as _ <-.
  assert (Hat : forall k, 0 <= k < 0 + Z.of_nat (length ps) -> exists p, m !! k = Some p /\ sequence_number p = k).
  { intros k Hk. assert (Hin : k ∈ map sequence_number ps) by (rewrite Hperm, elem_of_seqZ; lia).
    apply list_elem_of_fmap in Hin as (p & -> & Hp). exists p. split; [|done].
    by apply abs_lookup. }
  rewrite Hpoll; [|lia|lia|]. 2:{ intros k Hk. by destruct (Hat k Hk) as (p & -> & _). }
  assert (Hseq : map sequence_number (map (fun k => default (pk k) (m !! k)) (seqZ 0 (Z.of_nat (length ps))))
            = seqZ 0 (Z.of_nat (length ps))).
  { rewrite <- (list_fmap_id (seqZ 0 (Z.of_nat (length ps)))) at 2. rewrite <- list_fmap_compose.
    apply list_fmap_ext. intros i k Hk. apply lookup_seqZ in Hk as [-> Hi].
    unfold compose. destruct (Hat (0 + Z.of_nat i) ltac:(lia)) as (p & -> & Hp). done. }
  rewrite Hpoll in Hrun; [|lia|lia|]. 2:{ intros k Hk. by destruct (Hat k Hk) as (p & -> & _). }
  split_and!; [done| |].
  - apply NoDup_Permutation.
    + eapply (NoDup_fmap_1 sequence_number). change (fmap sequence_number) with (map sequence_number).
      rewrite Hseq. apply NoDup_seqZ.
    + by eapply (NoDup_fmap_1 sequence_number).
    + intros p. rewrite list_elem_of_fmap. setoid_rewrite elem_of_seqZ. split.
      * intros (k & -> & Hk). destruct (Hat k Hk) as (q & Hq & _). rewrite Hq. simpl.
        by apply abs_lookup in Hq as [? _].
      * intros Hp. exists (sequence_number p). split; [|by apply Hrange].
        assert (m !! sequence_number p = Some p) as -> by by apply abs_lookup. done.
  - unfold consecutive. rewrite Hseq. f_equal. rewrite length_fmap, length_seqZ. lia.
Qed.

Lemma sequence_buffer_delivers_all_witness :
  exists b' out, run buffer_new [Push (pk 2); Push (pk 0); Push (pk 1); Poll; Poll; Poll] = Ret (b', out) /\
    out ≡ₚ [pk 2; pk 0; pk 1] /\ consecutive 0 out.
Proof.
  apply (sequence_buffer_delivers_all [pk 2; pk 0; pk 1]).
  - vm_compute. apply (Permutation_middle [0; 1] [] 2).
  - simpl. lia.
Defined.

(** A sequenced packet survives its own wire format, and the reader panics, rather than
    returning an error, on every input shorter than nine bytes that starts with a valid flag
    (and on the empty input). *)
Theorem sequenced_packet_wire (p : SequencedPacket) (v : bytes) :
  uint 64 (sequence_number p) ->
  Wire.visit_bytes (Wire.serialize p) = Ret (Some p) /\
  ((length v < 9)%nat -> (v = [] \/ v !! 0%nat = Some 0 \/ v !! 0%nat = Some 1) ->
     Wire.visit_bytes v = Panic).
Proof.
  intros Hp. split.
  - assert (Hlen : (length (Wire.serialize p) <? 9)%nat = false).
    { apply Nat.ltb_ge. unfold Wire.serialize. rewrite length_cons, length_app, Wire.length_u64_to. lia. }
    assert (Htake : take 8 (drop 1 (Wire.serialize p)) = Wire.u64_to (sequence_number p)).
    { unfold Wire.serialize. rewrite skipn_cons, drop_0. apply take_app_length'. symmetry. apply Wire.length_u64_to. }
    assert (Hdrop : drop 9 (Wire.serialize p) = data p).
    { unfold Wire.serialize. rewrite skipn_cons. apply drop_app_length'. symmetry. apply Wire.length_u64_to. }
    assert (H0 : Wire.serialize p !! 0%nat = Some (if last_data p then 1 else 0)) by done.
    unfold Wire.visit_bytes. rewrite H0, Hlen, Htake, Hdrop, Wire.u64_from_to by done.
    by destruct p as [d n []].
  - intros Hl Hv. unfold Wire.visit_bytes.
    destruct Hv as [->|[Hv|Hv]]; [done|rewrite Hv..]; simpl;
      by rewrite (proj2 (Nat.ltb_lt _ _) Hl).
Qed.

Lemma sequenced_packet_wire_witness :
  Wire.visit_bytes (Wire.serialize (mkSequencedPacket [1; 2] 258 true)) = Ret (Some (mkSequencedPacket [1; 2] 258 true)) /\
  Wire.visit_bytes [0; 0; 0] = Panic.
Proof.
  destruct (sequenced_packet_wire (mkSequencedPacket [1; 2] 258 true) [0; 0; 0]) as [H1 H2].
  - unfold uint; simpl; lia.
  - split; [exact H1|]. apply H2; [simpl; lia | right; left; reflexivity].
Defined.
