(* ===== verification/Messages.v ===== *)
(** * Messages: what the actors of a Node send each other and what Nodes send each other

    The payloads of sub_lib/proxy_server.rs, sub_lib/proxy_client.rs and neighborhood/gossip.rs,
    [StreamKey] (stream_key.rs), the CORES packages of sub_lib/hopper.rs and
    hopper/live_cores_package.rs, and the reports of sub_lib/accountant.rs. *)
From S2P Require Import Prelude Text SubLib Cryptde Wallet Route SequenceBuffer.

(** ** Dispatcher messages *)
Inductive Endpoint := Key (k : PublicKey) | Socket (s : SocketAddr).

Record InboundClientData := mkInboundClientData {
  peer_addr : SocketAddr;
  reception_port : option Z;
  ibcd_last_data : bool;
  is_clandestine : bool;
  ibcd_sequence_number : option Z;
  ibcd_data : bytes
}.

Definition clone_but_data (i : InboundClientData) : InboundClientData :=
  mkInboundClientData (peer_addr i) (reception_port i) (ibcd_last_data i) (is_clandestine i)
    (ibcd_sequence_number i) [].

Record TransmitDataMsg := mkTransmitDataMsg {
  endpoint : Endpoint;
  tdm_last_data : bool;
  tdm_sequence_number : option Z;
  tdm_data : bytes
}.

Inductive RemovedStreamType := NonClandestine (reception_port : Z) (sequence_number : Z) | Clandestine.

Record StreamShutdownMsg := mkStreamShutdownMsg {
  shutdown_peer_addr : SocketAddr;
  stream_type : RemovedStreamType;
  report_to_counterpart : bool
}.

(** ** Stream keys: SHA-1 of address, port and public key *)
Record StreamKey := mkStreamKey { stream_hash : bytes }.

#[global] Instance StreamKey_eq_dec : EqDecision StreamKey.
Proof. solve_decision. Defined.
#[global] Instance StreamKey_countable : Countable StreamKey.
Proof. refine (inj_countable' stream_hash mkStreamKey _). by intros []. Defined.

(** IPv6 peers are [unimplemented!()]. *)
Definition stream_key_new (sha1 : bytes -> bytes) (pk : PublicKey) (peer : SocketAddr)
  : outcome StreamKey :=
  match ip peer with
  | V4 a b c d =>
      Ret (mkStreamKey (sha1 ([a; b; c; d] ++
        [wrap 8 (Z.shiftr (port peer) 8); wrap 8 (Z.land (port peer) 0xFF)] ++ key_data pk)))
  | V6 _ => Panic
  end.

(** ** Payloads *)
Inductive ProxyProtocol := HTTP | TLS.

#[global] Instance ProxyProtocol_eq_dec : EqDecision ProxyProtocol.
Proof. solve_decision. Defined.
#[global] Instance ProxyProtocol_countable : Countable ProxyProtocol.
Proof.
  refine (inj_countable' (fun p => match p with HTTP => true | TLS => false end)
    (fun b => if b : bool then HTTP else TLS) _). by intros [].
Defined.

#[global] Instance DataVersion_countable : Countable DataVersion.DataVersion.
Proof.
  refine (inj_countable' (fun v => (DataVersion.byte0 v, DataVersion.byte1 v, DataVersion.byte2 v))
    (fun x => DataVersion.mk x.1.1 x.1.2 x.2) _). by intros [].
Defined.

(** [DataVersion::new(0, 0).expect("Internal Error")] *)
Definition VERSION_0_0 : DataVersion.DataVersion := DataVersion.mk 0 0 0.

Record ClientRequestPayload := mkClientRequestPayload {
  request_version : DataVersion.DataVersion;
  request_stream_key : StreamKey;
  request_packet : SequencedPacket;
  target_hostname : option str;
  target_port : Z;
  protocol : ProxyProtocol;
  originator_public_key : PublicKey
}.

Record ClientResponsePayload := mkClientResponsePayload {
  response_version : DataVersion.DataVersion;
  response_stream_key : StreamKey;
  response_packet : SequencedPacket
}.

Definition make_terminating_payload (sk : StreamKey) : ClientResponsePayload :=
  mkClientResponsePayload VERSION_0_0 sk (mkSequencedPacket [] 0 true).

Record DnsResolveFailure := mkDnsResolveFailure {
  failure_version : DataVersion.DataVersion;
  failure_stream_key : StreamKey
}.

Definition dns_resolve_failure_new (sk : StreamKey) : DnsResolveFailure :=
  mkDnsResolveFailure VERSION_0_0 sk.

Record GossipNodeRecord := mkGossipNodeRecord {
  signed_data : PlainData;
  gnr_signature : CryptData;
  gnr_node_addr_opt : option NodeAddr.NodeAddr
}.

Record Gossip := mkGossip {
  gossip_version : DataVersion.DataVersion;
  node_records : list GossipNodeRecord
}.

Inductive MessageType :=
| ClientRequest (p : ClientRequestPayload)
| ClientResponse (p : ClientResponsePayload)
| GossipMsg (g : Gossip)
| DnsResolveFailed (f : DnsResolveFailure).

#[global] Instance ClientRequestPayload_eq_dec : EqDecision ClientRequestPayload.
Proof. solve_decision. Defined.
#[global] Instance ClientRequestPayload_countable : Countable ClientRequestPayload.
Proof.
  refine (inj_countable'
    (fun p => (request_version p, request_stream_key p, request_packet p, target_hostname p,
               target_port p, protocol p, originator_public_key p))
    (fun x => let '(a, b, c, d, e, f, g) := x in mkClientRequestPayload a b c d e f g) _).
  by intros [].
Defined.
#[global] Instance ClientResponsePayload_eq_dec : EqDecision ClientResponsePayload.
Proof. solve_decision. Defined.
#[global] Instance ClientResponsePayload_countable : Countable ClientResponsePayload.
Proof.
  refine (inj_countable' (fun p => (response_version p, response_stream_key p, response_packet p))
    (fun x => mkClientResponsePayload x.1.1 x.1.2 x.2) _). by intros [].
Defined.
#[global] Instance DnsResolveFailure_eq_dec : EqDecision DnsResolveFailure.
Proof. solve_decision. Defined.
#[global] Instance DnsResolveFailure_countable : Countable DnsResolveFailure.
Proof.
  refine (inj_countable' (fun p => (failure_version p, failure_stream_key p))
    (fun x => mkDnsResolveFailure x.1 x.2) _). by intros [].
Defined.
#[global] Instance GossipNodeRecord_eq_dec : EqDecision GossipNodeRecord.
Proof. solve_decision. Defined.
#[global] Instance GossipNodeRecord_countable : Countable GossipNodeRecord.
Proof.
  refine (inj_countable' (fun p => (signed_data p, gnr_signature p, gnr_node_addr_opt p))
    (fun x => mkGossipNodeRecord x.1.1 x.1.2 x.2) _). by intros [].
Defined.
#[global] Instance Gossip_eq_dec : EqDecision Gossip.
Proof. solve_decision. Defined.
#[global] Instance Gossip_countable : Countable Gossip.
Proof.
  refine (inj_countable' (fun p => (gossip_version p, node_records p))
    (fun x => mkGossip x.1 x.2) _). by intros [].
Defined.
#[global] Instance MessageType_eq_dec : EqDecision MessageType.
Proof. solve_decision. Defined.
#[global] Instance MessageType_countable : Countable MessageType.
Proof.
  refine (inj_countable'
    (fun m => match m with
      | ClientRequest p => inl (inl p) | ClientResponse p => inl (inr p)
      | GossipMsg g => inr (inl g) | DnsResolveFailed f => inr (inr f) end)
    (fun x => match x with
      | inl (inl p) => ClientRequest p | inl (inr p) => ClientResponse p
      | inr (inl g) => GossipMsg g | inr (inr f) => DnsResolveFailed f end) _).
  by intros [].
Defined.

(** ** CORES packages *)
Record NoLookupIncipientCoresPackage := mkNoLookup {
  nl_public_key : PublicKey;
  nl_node_addr : NodeAddr.NodeAddr;
  nl_payload : CryptData
}.

Record IncipientCoresPackage := mkIncipient { ic_route : Route; ic_payload : CryptData }.

Record LiveCoresPackage := mkLiveCoresPackage {
  lcp_version : DataVersion.DataVersion;
  lcp_route : Route;
  lcp_payload : CryptData
}.

#[global] Instance LiveCoresPackage_eq_dec : EqDecision LiveCoresPackage.
Proof. solve_decision. Defined.
#[global] Instance LiveCoresPackage_countable : Countable LiveCoresPackage.
Proof.
  refine (inj_countable' (fun p => (lcp_version p, lcp_route p, lcp_payload p))
    (fun x => mkLiveCoresPackage x.1.1 x.1.2 x.2) _). by intros [].
Defined.

Record ExpiredCoresPackage (T : Type) := mkExpired {
  immediate_neighbor : SocketAddr;
  paying_wallet : option Wallet;
  remaining_route : Route;
  payload : T;
  payload_len : nat
}.
Arguments mkExpired {T}.
Arguments immediate_neighbor {T}.
Arguments paying_wallet {T}.
Arguments remaining_route {T}.
Arguments payload {T}.
Arguments payload_len {T}.

(** ** Reports to the Accountant *)
Record ServiceReport := mkServiceReport {
  report_wallet : Wallet;
  report_payload_size : nat;
  report_service_rate : Z;
  report_byte_rate : Z
}.
