(* ===== verification/Hopper.v ===== *)
(** * Hopper: CORES packages on their way through a Node

    sub_lib/hopper.rs, hopper/live_cores_package.rs, hopper/consuming_service.rs,
    hopper/routing_service.rs and hopper/mod.rs. What a handler sends to other actors is the
    list of [hopper_effect]s it returns, in order; sends do not fail (the recipients are alive).
    [BannedCache] is the process-wide cache that [Payer::is_delinquent] consults. *)
From S2P Require Import Prelude Text SubLib Cryptde Wallet Route SequenceBuffer Messages.

Inductive hopper_effect :=
| ToDispatcher (m : TransmitDataMsg)
| ToHopper (i : InboundClientData)
| ToAccountantRouting (r : ServiceReport)
| ToProxyClient (p : ExpiredCoresPackage ClientRequestPayload)
| ToProxyServer (p : ExpiredCoresPackage ClientResponsePayload)
| ToProxyServerDns (p : ExpiredCoresPackage DnsResolveFailure)
| ToNeighborhood (p : ExpiredCoresPackage Gossip).

Inductive package_error :=
| CouldNotEncryptPayload (e : codex_error)
| BadSingleHop (e : construct_error)
| CouldNotDecryptNextHop (e : RouteError)
| CouldNotReadTopHop (e : RouteError)
| CouldNotDecodePayload (e : codex_error)
| CouldntGetNextHop (e : RouteError)
| CouldntEncodeOutgoing (e : codex_error).

Section packages.
Context `{!EthSign} (keccak256 : bytes -> bytes).
Context `{!Serde LiveHop} `{!Serde Z} `{!Serde MessageType}.

(** [NoLookupIncipientCoresPackage::new] *)
Definition no_lookup_new (cryptde : CryptDE) (pk : PublicKey) (na : NodeAddr.NodeAddr)
    (m : MessageType) : result NoLookupIncipientCoresPackage package_error :=
  match encodex cryptde pk m with
  | Ok p => Ok (mkNoLookup pk (NodeAddr.clone na) p)
  | Err e => Err (CouldNotEncryptPayload e)
  end.

(** [IncipientCoresPackage::new] *)
Definition incipient_new (cryptde : CryptDE) (r : Route) (m : MessageType)
    (payload_destination_key : PublicKey) : result IncipientCoresPackage package_error :=
  match encodex cryptde payload_destination_key m with
  | Ok p => Ok (mkIncipient r p)
  | Err e => Err (CouldNotEncryptPayload e)
  end.

Definition live_new (r : Route) (p : CryptData) : LiveCoresPackage :=
  mkLiveCoresPackage VERSION_0_0 r p.

Definition to_next_live (self : LiveCoresPackage) (cryptde : CryptDE)
  : result (LiveHop * LiveCoresPackage) RouteError :=
  match shift (lcp_route self) cryptde with
  | (_, Err e) => Err e
  | (r, Ok next) => Ok (next, live_new r (lcp_payload self))
  end.

Definition from_no_lookup_incipient (n : NoLookupIncipientCoresPackage) (cryptde : CryptDE)
  : outcome (result (LiveCoresPackage * PublicKey) package_error) :=
  let* sh := single_hop keccak256 (nl_public_key n) cryptde in
  match sh with
  | Err e => Ret (Err (BadSingleHop e))
  | Ok r =>
      let (r', top) := shift r cryptde in
      let* _ := expect_ok top in
      Ret (Ok (live_new r' (nl_payload n), nl_public_key n))
  end.

Definition from_incipient (i : IncipientCoresPackage) (cryptde : CryptDE)
  : result (LiveCoresPackage * LiveHop) package_error :=
  match shift (ic_route i) cryptde with
  | (_, Err e) => Err (CouldNotDecryptNextHop e)
  | (r, Ok next) => Ok (live_new r (ic_payload i), next)
  end.

Definition to_expired (self : LiveCoresPackage) (immediate_neighbor_addr : SocketAddr)
    (cryptde : CryptDE) : result (ExpiredCoresPackage MessageType) package_error :=
  match next_hop (lcp_route self) cryptde with
  | Err e => Err (CouldNotReadTopHop e)
  | Ok top_hop =>
      match decodex cryptde (lcp_payload self) with
      | Err e => Err (CouldNotDecodePayload e)
      | Ok decoded => Ok (mkExpired immediate_neighbor_addr (payer_wallet <$> hop_payer top_hop)
                            (lcp_route self) decoded (crypt_len (lcp_payload self)))
      end
  end.
End packages.

(** ** ConsumingService: packages that start at this Node *)
Module ConsumingService.
Section consuming.
Context `{!EthSign} (keccak256 : bytes -> bytes).
Context `{!Serde LiveHop} `{!Serde Z} `{!Serde LiveCoresPackage}.

Definition launch_lcp (encrypted_package : CryptData) (next_stop : Endpoint) : list hopper_effect :=
  [ToDispatcher (mkTransmitDataMsg next_stop false None (crypt_data encrypted_package))].

Definition zero_hop (encrypted_package : CryptData) : list hopper_effect :=
  [ToHopper (mkInboundClientData (mkSocketAddr (V4 127 0 0 1) 0) None false true None
               (crypt_data encrypted_package))].

(** [socket_addrs[0]] panics for a Node that listens on no port. *)
Definition consume_no_lookup (cryptde : CryptDE) (pkg : NoLookupIncipientCoresPackage)
  : outcome (list hopper_effect) :=
  let target_key := nl_public_key pkg in
  let target_node_addr := NodeAddr.clone (nl_node_addr pkg) in
  let* live := from_no_lookup_incipient keccak256 pkg cryptde in
  match live with
  | Err _ => Ret []
  | Ok (live_package, _) =>
      match encodex cryptde target_key live_package with
      | Err _ => Ret []
      | Ok encrypted =>
          let* first := expect (head (NodeAddr.into_socket_addrs target_node_addr)) in
          Ret (launch_lcp encrypted (Socket first))
      end
  end.

Definition consume (cryptde : CryptDE) (pkg : IncipientCoresPackage) : list hopper_effect :=
  match from_incipient pkg cryptde with
  | Err _ => []
  | Ok (live_package, next) =>
      match encodex cryptde (hop_key next) live_package with
      | Err _ => []
      | Ok encrypted =>
          if bool_decide (hop_key next = public_key cryptde) then zero_hop encrypted
          else launch_lcp encrypted (Key (hop_key next))
      end
  end.
End consuming.
End ConsumingService.

(** ** RoutingService: packages that arrive at this Node *)
Module RoutingService.
Record RoutingService := mk {
  cryptde : CryptDE;
  per_routing_service : Z;
  per_routing_byte : Z;
  is_decentralized : bool
}.

Section routing.
Context `{!EthSign} `{!Serde LiveHop} `{!Serde LiveCoresPackage} `{!Serde MessageType}.
Context (cache : BannedCache).

Definition is_destined_for_here (self : RoutingService) (next : LiveHop) : bool :=
  bool_decide (hop_key next = public_key (cryptde self)).

Definition to_transmit_data_msg (self : RoutingService) (live_package : LiveCoresPackage)
    (last_data : bool) : result TransmitDataMsg package_error :=
  match to_next_live live_package (cryptde self) with
  | Err e => Err (CouldntGetNextHop e)
  | Ok (next, next_live_package) =>
      match encodex (cryptde self) (hop_key next) next_live_package with
      | Err e => Err (CouldntEncodeOutgoing e)
      | Ok enc => Ok (mkTransmitDataMsg (Key (hop_key next)) last_data None (crypt_data enc))
      end
  end.

Definition route_data_externally (self : RoutingService) (live_package : LiveCoresPackage)
    (payer : option Payer) (last_data : bool) : outcome (list hopper_effect) :=
  let payload_size := crypt_len (lcp_payload live_package) in
  match payer with
  | None => Ret []
  | Some p =>
      let* owns := owns_secret_key p (digest (cryptde self)) in
      if negb owns then Ret []
      else
        let* delinquent := is_delinquent cache p in
        if delinquent : bool then Ret []
        else
          let report := ToAccountantRouting
            (mkServiceReport (payer_wallet p) payload_size
               (per_routing_service self) (per_routing_byte self)) in
          match to_transmit_data_msg self live_package last_data with
          | Err _ => Ret [report]
          | Ok m => Ret [report; ToDispatcher m]
          end
  end.

Definition route_data_around_again (self : RoutingService) (live_package : LiveCoresPackage)
    (ibcd_but_data : InboundClientData) : outcome (list hopper_effect) :=
  match to_next_live live_package (cryptde self) with
  | Err _ => Ret []
  | Ok (_, next_lcp) =>
      let* enc := expect_ok (encodex (cryptde self) (public_key (cryptde self)) next_lcp) in
      Ret [ToHopper (mkInboundClientData (peer_addr ibcd_but_data) (reception_port ibcd_but_data)
             (ibcd_last_data ibcd_but_data) (is_clandestine ibcd_but_data)
             (ibcd_sequence_number ibcd_but_data) (crypt_data enc))]
  end.

(** The same package with the payload taken out of its [MessageType] *)
Definition repackage {A B} (e : ExpiredCoresPackage A) (b : B) : ExpiredCoresPackage B :=
  mkExpired (immediate_neighbor e) (paying_wallet e) (remaining_route e) b (payload_len e).

Definition route_data_to_peripheral_component (self : RoutingService) (component : Component)
    (immediate_neighbor_addr : SocketAddr) (live_package : LiveCoresPackage)
    (payer_owns_secret_key : bool) : list hopper_effect :=
  match to_expired live_package immediate_neighbor_addr (cryptde self) with
  | Err _ => []
  | Ok expired =>
      match component, payload expired with
      | ProxyClient, ClientRequest r =>
          if negb (is_decentralized self) || payer_owns_secret_key
          then [ToProxyClient (repackage expired r)]
          else []
      | ProxyServer, ClientResponse r => [ToProxyServer (repackage expired r)]
      | ProxyServer, DnsResolveFailed f => [ToProxyServerDns (repackage expired f)]
      | Neighborhood, GossipMsg g => [ToNeighborhood (repackage expired g)]
      | _, _ => []
      end
  end.

Definition route_data_internally (self : RoutingService) (next : LiveHop)
    (immediate_neighbor_addr : SocketAddr) (live_package : LiveCoresPackage)
    (ibcd_but_data : InboundClientData) : outcome (list hopper_effect) :=
  if bool_decide (hop_component next = Hopper)
  then route_data_around_again self live_package ibcd_but_data
  else
    let* delinquent := match hop_payer next with
                       | None => Ret false
                       | Some payer => is_delinquent cache payer
                       end in
    if delinquent : bool then Ret []
    else
      let* owns := payer_owns_secret_key next (digest (cryptde self)) in
      Ret (route_data_to_peripheral_component self (hop_component next)
             immediate_neighbor_addr live_package owns).

Definition route_data (self : RoutingService) (sender_addr : SocketAddr) (next : LiveHop)
    (live_package : LiveCoresPackage) (last_data : bool) (ibcd_but_data : InboundClientData)
    : outcome (list hopper_effect) :=
  if bool_decide (hop_component next = Hopper) && negb (is_destined_for_here self next)
  then route_data_externally self live_package (hop_payer next) last_data
  else route_data_internally self next sender_addr live_package ibcd_but_data.

Definition route (self : RoutingService) (ibcd : InboundClientData)
  : outcome (list hopper_effect) :=
  let sender_addr := peer_addr ibcd in
  let last_data := ibcd_last_data ibcd in
  let ibcd_but_data := clone_but_data ibcd in
  match decodex (cryptde self) (mkCryptData (ibcd_data ibcd)) with
  | Err _ => Ret []
  | Ok live_package =>
      match next_hop (lcp_route live_package) (cryptde self) with
      | Err _ => Ret []
      | Ok next => route_data self sender_addr next live_package last_data ibcd_but_data
      end
  end.
End routing.
End RoutingService.

(** ** The Hopper actor *)
Module HopperActor.
Record HopperConfig := mkConfig {
  config_cryptde : CryptDE;
  config_per_routing_service : Z;
  config_per_routing_byte : Z;
  config_is_decentralized : bool
}.

(** The [ConsumingService] keeps only the CryptDE (and recipients). *)
Record Hopper := mk {
  hopper_config : HopperConfig;
  consuming_service : option CryptDE;
  routing_service : option RoutingService.RoutingService
}.

Definition new (config : HopperConfig) : Hopper := mk config None None.

Definition handle_bind (self : Hopper) : Hopper :=
  let c := hopper_config self in
  mk c (Some (config_cryptde c))
    (Some (RoutingService.mk (config_cryptde c) (config_per_routing_service c)
             (config_per_routing_byte c) (config_is_decentralized c))).

Section actor.
Context `{!EthSign} (keccak256 : bytes -> bytes) (cache : BannedCache).
Context `{!Serde LiveHop} `{!Serde Z} `{!Serde LiveCoresPackage} `{!Serde MessageType}.

Definition handle_no_lookup (self : Hopper) (msg : NoLookupIncipientCoresPackage)
  : outcome (list hopper_effect) :=
  let* cs := expect (consuming_service self) in
  ConsumingService.consume_no_lookup keccak256 cs msg.

Definition handle_incipient (self : Hopper) (msg : IncipientCoresPackage)
  : outcome (list hopper_effect) :=
  let* cs := expect (consuming_service self) in Ret (ConsumingService.consume cs msg).

Definition handle_inbound (self : Hopper) (msg : InboundClientData)
  : outcome (list hopper_effect) :=
  let* rs := expect (routing_service self) in RoutingService.route cache rs msg.
End actor.
End HopperActor.

(** ** Lemmas *)
Definition is_transmission (e : hopper_effect) : Prop :=
  match e with ToDispatcher _ => True | _ => False end.

Section steps.
Context `{!EthSign} `{!Serde LiveHop} `{!Serde LiveCoresPackage} `{!Serde MessageType}.
Context (cache : BannedCache).
Import RoutingService.

(** The package a piece of inbound data holds, with the hop that is addressed to this Node *)
Definition arrives (self : RoutingService) (ibcd : InboundClientData)
    (live : LiveCoresPackage) (next : LiveHop) : Prop :=
  decodex (cryptde self) (mkCryptData (ibcd_data ibcd)) = Ok live /\
  next_hop (lcp_route live) (cryptde self) = Ok next.

Lemma route_inv self ibcd effects :
  route cache self ibcd = Ret effects -> effects <> [] ->
  exists live next, arrives self ibcd live next /\
    route_data cache self (peer_addr ibcd) next live (ibcd_last_data ibcd) (clone_but_data ibcd)
      = Ret effects.
Proof.
  unfold route, arrives. destruct (decodex _ _) as [live|] eqn:E1; [|by intros [= <-]].
  destruct (next_hop _ _) as [next|] eqn:E2; [|by intros [= <-]]. eauto.
Qed.

Lemma route_arrives self ibcd live next :
  arrives self ibcd live next ->
  route cache self ibcd
    = route_data cache self (peer_addr ibcd) next live (ibcd_last_data ibcd) (clone_but_data ibcd).
Proof. intros [H1 H2]. unfold route. by rewrite H1, H2. Qed.

Lemma externally_inv self live payer last effects :
  route_data_externally cache self live payer last = Ret effects -> effects <> [] ->
  exists p, payer = Some p /\ owns_secret_key p (digest (cryptde self)) = Ret true /\
    is_delinquent cache p = Ret false /\
    exists rest, effects = ToAccountantRouting
        (mkServiceReport (payer_wallet p) (crypt_len (lcp_payload live))
           (per_routing_service self) (per_routing_byte self)) :: rest /\
      (rest = [] \/ exists m, rest = [ToDispatcher m]).
Proof.
  unfold route_data_externally. destruct payer as [p|]; [|by intros [= <-]].
  intros (owns & Ho & Hr)%obind_ret_inv Hne. destruct owns; simpl in Hr; [|by injection Hr as <-].
  apply obind_ret_inv in Hr as (d & Hd & Hr). destruct d; [by injection Hr as <-|].
  exists p. split_and!; [done..|]. case_match; injection Hr as <-; eauto 6.
Qed.

Lemma around_again_no_transmission self live i effects :
  route_data_around_again self live i = Ret effects -> Forall (fun e => ~ is_transmission e) effects.
Proof.
  unfold route_data_around_again. case_match; [|intros [= <-]; constructor].
  case_match. intros. unbind. repeat constructor. simpl; tauto.
Qed.

Lemma peripheral_no_transmission self c a live b :
  Forall (fun e => ~ is_transmission e) (route_data_to_peripheral_component self c a live b).
Proof.
  unfold route_data_to_peripheral_component. case_all; repeat constructor; simpl; tauto.
Qed.

Lemma peripheral_exit_inv self c a live b x next :
  ToProxyClient x ∈ route_data_to_peripheral_component self c a live b ->
  is_decentralized self = true -> next_hop (lcp_route live) (cryptde self) = Ok next ->
  c = ProxyClient /\ b = true /\ paying_wallet x = payer_wallet <$> hop_payer next.
Proof.
  unfold route_data_to_peripheral_component, to_expired. intros Hin Hdec Hn.
  rewrite Hn, Hdec in Hin. destruct (decodex _ _) as [m|]; [|elem_cases Hin].
  destruct c, m; simpl in Hin; elem_cases Hin. destruct b; elem_cases Hin. done.
Qed.

Lemma internally_no_transmission self next a live i effects :
  route_data_internally cache self next a live i = Ret effects ->
  Forall (fun e => ~ is_transmission e) effects.
Proof.
  unfold route_data_internally. case_bool_decide; [apply around_again_no_transmission|].
  intros (d & Hd & Hr)%obind_ret_inv. destruct d; [injection Hr as <-; constructor|].
  unbind. apply peripheral_no_transmission.
Qed.

(** A leg that says "pass it on" is forwarded and billed. *)
Lemma route_forwards self ibcd live next p e rest c' :
  arrives self ibcd live next -> hops (lcp_route live) = e :: rest ->
  hop_component next = Hopper -> hop_key next <> public_key (cryptde self) ->
  hop_payer next = Some p -> owns_secret_key p (digest (cryptde self)) = Ret true ->
  is_delinquent cache p = Ret false ->
  let next_live := live_new (mkRoute (rest ++ [mkCryptData (random (cryptde self) (crypt_len e))]))
                     (lcp_payload live) in
  encodex (cryptde self) (hop_key next) next_live = Ok c' ->
  route cache self ibcd = Ret
    [ToAccountantRouting (mkServiceReport (payer_wallet p) (crypt_len (lcp_payload live))
       (per_routing_service self) (per_routing_byte self));
     ToDispatcher (mkTransmitDataMsg (Key (hop_key next)) (ibcd_last_data ibcd) None (crypt_data c'))].
Proof.
  intros Harr Hhops Hc Hk Hp Ho Hd nl Henc. rewrite (route_arrives _ _ _ _ Harr).
  destruct Harr as [_ Hn]. unfold next_hop in Hn. rewrite Hhops in Hn.
  unfold route_data, is_destined_for_here. rewrite bool_decide_true, bool_decide_false by done.
  simpl. unfold route_data_externally. rewrite Hp, Ho. cbn [obind negb]. rewrite Hd. cbn [obind].
  unfold to_transmit_data_msg, to_next_live, shift. rewrite Hhops, Hn. fold nl. by rewrite Henc.
Qed.

(** A leg that names a local component delivers there what the payload decodes to. *)
Lemma route_delivers self ibcd live next m :
  arrives self ibcd live next -> hop_component next <> Hopper ->
  decodex (cryptde self) (lcp_payload live) = Ok m ->
  (forall p, hop_payer next = Some p -> is_delinquent cache p = Ret false) ->
  forall owns, payer_owns_secret_key next (digest (cryptde self)) = Ret owns ->
  exists expired,
    to_expired live (peer_addr ibcd) (cryptde self) = Ok expired /\ payload expired = m /\
    remaining_route expired = lcp_route live /\
    paying_wallet expired = payer_wallet <$> hop_payer next /\
    route cache self ibcd = Ret (route_data_to_peripheral_component self (hop_component next)
      (peer_addr ibcd) live owns).
Proof.
  intros Harr Hc Hm Hd owns Ho. rewrite (route_arrives _ _ _ _ Harr). destruct Harr as [_ Hn].
  unfold to_expired. rewrite Hn, Hm. eexists. split_and!; [done..|].
  unfold route_data. rewrite (bool_decide_false (_ = Hopper)) by done. simpl.
  unfold route_data_internally. rewrite (bool_decide_false (_ = Hopper)) by done.
  destruct (hop_payer next) as [p|] eqn:E; simpl.
  - rewrite Hd by done. simpl. by rewrite Ho.
  - by rewrite Ho.
Qed.
End steps.

(** ** A network of Hoppers

    [relay] follows a package from Node to Node: what a Node's RoutingService hands to its
    Dispatcher for key [k] arrives at [k]'s RoutingService. [transport] stands for the streams in
    between; all that is used of it is that they carry the bytes. *)
Definition Network : Type := PublicKey -> RoutingService.RoutingService.

Definition crypt_of (nodes : Network) (k : PublicKey) : CryptDE := RoutingService.cryptde (nodes k).

Fixpoint follow (transport : PublicKey -> TransmitDataMsg -> InboundClientData) (here : PublicKey)
    (effects : list hopper_effect) : option (PublicKey * InboundClientData) :=
  match effects with
  | [] => None
  | ToDispatcher m :: _ =>
      match endpoint m with
      | Key k => Some (k, transport here m)
      | Socket _ => None
      end
  | ToHopper i :: _ => Some (here, i)
  | _ :: effects' => follow transport here effects'
  end.

Fixpoint relay `{!EthSign} `{!Serde LiveHop} `{!Serde LiveCoresPackage} `{!Serde MessageType}
    (nodes : Network) (cache : PublicKey -> BannedCache)
    (transport : PublicKey -> TransmitDataMsg -> InboundClientData)
    (fuel : nat) (here : PublicKey) (ibcd : InboundClientData)
    : outcome (list (PublicKey * list hopper_effect)) :=
  match fuel with
  | O => OutOfFuel
  | S fuel' =>
      let* effects := RoutingService.route (cache here) (nodes here) ibcd in
      match follow transport here effects with
      | None => Ret [(here, effects)]
      | Some (there, ibcd') =>
          let* trace := relay nodes cache transport fuel' there ibcd' in
          Ret ((here, effects) :: trace)
      end
  end.

(** A package handed to the ConsumingService of Node [from], followed to where it is delivered *)
Definition send `{!EthSign} `{!Serde LiveHop} `{!Serde LiveCoresPackage} `{!Serde MessageType}
    (nodes : Network) (cache : PublicKey -> BannedCache)
    (transport : PublicKey -> TransmitDataMsg -> InboundClientData)
    (fuel : nat) (from : PublicKey) (pkg : IncipientCoresPackage)
    : outcome (list (PublicKey * list hopper_effect)) :=
  match follow transport from (ConsumingService.consume (crypt_of nodes from) pkg) with
  | None => Ret []
  | Some (there, ibcd) => relay nodes cache transport fuel there ibcd
  end.

Fixpoint no_stutter (k : PublicKey) (ks : list PublicKey) : Prop :=
  match ks with
  | [] => True
  | k' :: ks' => k' <> k /\ no_stutter k' ks'
  end.

Section network.
Context `{!EthSign} `{!EthSignOk} (keccak256 : bytes -> bytes).
Context `{!Serde LiveHop} `{!Serde Z} `{!Serde LiveCoresPackage} `{!Serde MessageType}.
Context `{!SerdeOk LiveCoresPackage (fun p => lcp_version p = VERSION_0_0)}.
Context (nodes : Network) (cache : PublicKey -> BannedCache).
Context (transport : PublicKey -> TransmitDataMsg -> InboundClientData).
Hypothesis transport_carries : forall k m, ibcd_data (transport k m) = tdm_data m.
Context (w : Wallet) (secret addr : bytes).
Hypothesis w_keypair : kind w = KeyPair (keypair_from_secret secret).

(** The wallet as Nodes on the way see it *)
Definition seen_wallet : Wallet := mkWallet (Address (eth_address (eth_public secret))).

(** A Node of the network that serves the wallet: it has the key it is known by, its digest is
    for the wallet's contract, and it has not banned the wallet. *)
Definition serves (k : PublicKey) : Prop :=
  public_key (crypt_of nodes k) = k /\
  digest (crypt_of nodes k) = create_digest keccak256 (key_data k) addr /\
  is_banned (cache k) seen_wallet = Ret false.

Definition linked (ks : list PublicKey) : Prop :=
  Forall serves ks /\
  forall a b, a ∈ ks -> b ∈ ks -> CryptPair (crypt_of nodes a) (crypt_of nodes b).

Lemma linked_sub ks ks' : linked ks -> (forall k, k ∈ ks' -> k ∈ ks) -> linked ks'.
Proof.
  intros [H1 H2] Hsub. split; [|eauto].
  rewrite Forall_forall in *. eauto.
Qed.

Lemma paid_hop k p :
  payer_for keccak256 (Some w) k (Some addr) = Ret p -> serves k ->
  exists q, p = Some q /\ payer_wallet q = seen_wallet /\
    owns_secret_key q (digest (crypt_of nodes k)) = Ret true /\
    is_delinquent (cache k) q = Ret false.
Proof.
  intros Hp (Hk & Hdg & Hban). unfold payer_for in Hp. unbind.
  match goal with H : as_payer _ _ _ _ = Ret ?q |- _ =>
    destruct (as_payer_owns _ _ _ _ _ _ w_keypair H) as [Ho Hpw]; exists q end.
  unfold is_delinquent. rewrite Hdg, Hpw. split_and!; done.
Qed.

Definition billed (size : nat) (k : PublicKey) (t : PublicKey * list hopper_effect) : Prop :=
  t.1 = k /\ exists m,
    t.2 = [ToAccountantRouting (mkServiceReport seen_wallet size
             (RoutingService.per_routing_service (nodes k))
             (RoutingService.per_routing_byte (nodes k)));
           ToDispatcher m].

Abbreviation deliver := (delivers keccak256 (crypt_of nodes) (Some w) (Some addr)).

(** The bytes [d] hold, for Node [k], a package with this route and payload. *)
Definition holds (k : PublicKey) (d : bytes) (r : Route) (p : CryptData) : Prop :=
  decodex (crypt_of nodes k) (mkCryptData d) = Ok (live_new r p).

Lemma holds_encoded a b r p :
  CryptPair (crypt_of nodes a) (crypt_of nodes b) -> public_key (crypt_of nodes b) = b ->
  exists e, encodex (crypt_of nodes a) b (live_new r p) = Ok e /\ holds b (crypt_data e) r p.
Proof.
  intros Hpair Hk.
  destruct (encodex_decodex (crypt_of nodes a) (crypt_of nodes b) (live_new r p)) as (e & He & Hd);
    [done|].
  rewrite Hk in He. exists e. split; [done|]. unfold holds. by destruct e.
Qed.

Lemma forward_leg k k' ibcd e rest p q enc :
  holds k (ibcd_data ibcd) (mkRoute (e :: rest)) p ->
  decode_hop (crypt_of nodes k) e = Ok (mkLiveHop k' (Some q) Hopper) ->
  public_key (crypt_of nodes k) = k -> k' <> k -> payer_wallet q = seen_wallet ->
  owns_secret_key q (digest (crypt_of nodes k)) = Ret true ->
  is_delinquent (cache k) q = Ret false ->
  encodex (crypt_of nodes k) k'
    (live_new (mkRoute (rest ++ [mkCryptData (random (crypt_of nodes k) (crypt_len e))])) p) = Ok enc ->
  RoutingService.route (cache k) (nodes k) ibcd = Ret
    [ToAccountantRouting (mkServiceReport seen_wallet (crypt_len p)
       (RoutingService.per_routing_service (nodes k)) (RoutingService.per_routing_byte (nodes k)));
     ToDispatcher (mkTransmitDataMsg (Key k') (ibcd_last_data ibcd) None (crypt_data enc))].
Proof.
  intros Hh Hd Hk Hne Hw Ho Hdel Henc. rewrite <- Hw.
  apply (route_forwards (cache k) (nodes k) ibcd (live_new (mkRoute (e :: rest)) p)
           (mkLiveHop k' (Some q) Hopper) q e rest enc); try done.
  simpl. unfold crypt_of in Hk. by rewrite Hk.
Qed.

Lemma relay_legs ks k n comp encs tail_ ibcd p :
  comp <> Hopper ->
  Forall2 deliver (legs Hopper Hopper k ks ++ [(last_key k ks, n, comp)]) encs ->
  no_stutter k ks -> linked (k :: ks) ->
  holds k (ibcd_data ibcd) (mkRoute (encs ++ tail_)) p ->
  exists trace ibcd' live next garbage,
    relay nodes cache transport (S (length ks)) k ibcd =
      (let* effs := RoutingService.route (cache (last_key k ks)) (nodes (last_key k ks)) ibcd' in
       match follow transport (last_key k ks) effs with
       | None => Ret (trace ++ [(last_key k ks, effs)])
       | Some _ => OutOfFuel
       end) /\
    Forall2 (billed (crypt_len p)) (readers (legs Hopper Hopper k ks)) trace /\
    arrives (nodes (last_key k ks)) ibcd' live next /\
    deliver (last_key k ks, n, comp) (default (mkCryptData []) (last encs)) /\
    lcp_route live = mkRoute (default (mkCryptData []) (last encs) :: tail_ ++ garbage) /\
    length garbage = length ks /\
    lcp_payload live = p /\
    exists q, next = mkLiveHop n (Some q) comp /\ payer_wallet q = seen_wallet /\
      owns_secret_key q (digest (crypt_of nodes (last_key k ks))) = Ret true /\
      is_delinquent (cache (last_key k ks)) q = Ret false.
Proof.
  intros Hcomp. revert k encs tail_ ibcd.
  induction ks as [|k' ks IH]; intros k encs tl ibcd Hdel Hns Hlink Hh.
  - simpl in Hdel. inversion Hdel as [|? e ? es He Hnil]; subst. inversion Hnil; subst.
    change (last_key k []) with k in *. pose proof He as (pp & Hp & Hd). simpl in Hp, Hd.
    destruct Hlink as [Hs _]. apply Forall_cons in Hs as [Hs _].
    destruct (paid_hop _ _ Hp Hs) as (q & -> & Hq).
    exists [], ibcd, (live_new (mkRoute ([e] ++ tl)) p), (mkLiveHop n (Some q) comp), [].
    split_and!; [|constructor| |exact He| |done..|by exists q].
    + cbn [relay length]. destruct (RoutingService.route _ _ _); [|done..]. simpl.
      by destruct (follow _ _ _) as [[]|].
    + by split.
    + simpl. by rewrite app_nil_r.
  - rewrite last_key_cons in *. destruct Hns as [Hne Hns].
    simpl in Hdel. inversion Hdel as [|? e ? es He Hes]; subst.
    destruct He as (pp & Hp & Hd). simpl in Hp, Hd.
    destruct Hlink as [Hs Hpairs]. apply Forall_cons in Hs as [Hsk Hs'].
    destruct (paid_hop _ _ Hp Hsk) as (q & -> & Hqw & Hqo & Hqd).
    pose proof (proj1 (Forall_cons _ _ _) Hs') as [Hsk' _].
    set (g := mkCryptData (random (crypt_of nodes k) (crypt_len e))).
    destruct (holds_encoded k k' (mkRoute (es ++ tl ++ [g])) p) as (enc & Henc & Hh').
    { apply Hpairs; set_solver. }
    { apply Hsk'. }
    edestruct (IH k' es (tl ++ [g])
      (transport k (mkTransmitDataMsg (Key k') (ibcd_last_data ibcd) None (crypt_data enc))))
      as (trace & ibcd' & live & next & garbage & Hrel & Hbill & Harr & Hdl & Hlr & Hlg & Hrest).
    { exact Hes. } { exact Hns. } { split; [done|]. intros; apply Hpairs; set_solver. }
    { by rewrite transport_carries. }
    eexists (_ :: trace), ibcd', live, next, (g :: garbage).
    assert (last (e :: es) = last es) as ->.
    { destruct es; [|done]. apply Forall2_nil_inv_r in Hes. by destruct (legs _ _ _ _). }
    rewrite <- app_assoc in Hlr. rewrite app_assoc in Henc.
    split_and!; [| | exact Harr | exact Hdl | exact Hlr | simpl; by f_equal | exact (proj1 Hrest)
                | exact (proj2 Hrest)].
    + cbn [relay].
      rewrite (forward_leg k k' ibcd e (es ++ tl) p q enc) by first [done | by apply Hsk].
      cbn [obind follow endpoint]. cbn [length] in *. rewrite Hrel.
      destruct (RoutingService.route _ _ ibcd'); [|done..]. cbn [obind].
      by destruct (follow _ _ _).
    + cbn [readers map legs]. constructor; [|done]. split; [done|]. by eexists.
Qed.

(** [effs] is what the destination does with a payload [m] delivered by leg [comp]. *)
Definition delivered_as (comp : Component) (m : MessageType) (r : Route)
    (effs : list hopper_effect) : Prop :=
  match comp, m with
  | ProxyClient, ClientRequest req => exists x, effs = [ToProxyClient x] /\ payload x = req /\
      paying_wallet x = Some seen_wallet /\ remaining_route x = r
  | ProxyServer, ClientResponse resp => exists x, effs = [ToProxyServer x] /\ payload x = resp /\
      paying_wallet x = Some seen_wallet /\ remaining_route x = r
  | ProxyServer, DnsResolveFailed f => exists x, effs = [ToProxyServerDns x] /\ payload x = f /\
      paying_wallet x = Some seen_wallet /\ remaining_route x = r
  | _, _ => False
  end.

Definition deliverable (comp : Component) (m : MessageType) : Prop :=
  match comp, m with
  | ProxyClient, ClientRequest _ | ProxyServer, ClientResponse _
  | ProxyServer, DnsResolveFailed _ => True
  | _, _ => False
  end.

Lemma peripheral_delivers self a live next q n comp m :
  deliverable comp m -> next_hop (lcp_route live) (RoutingService.cryptde self) = Ok next ->
  next = mkLiveHop n (Some q) comp -> payer_wallet q = seen_wallet ->
  decodex (RoutingService.cryptde self) (lcp_payload live) = Ok m ->
  let effs := RoutingService.route_data_to_peripheral_component self comp a live true in
  delivered_as comp m (lcp_route live) effs /\ forall here, follow transport here effs = None.
Proof.
  intros Hdel Hn -> Hq Hm. cbn zeta.
  unfold RoutingService.route_data_to_peripheral_component, to_expired. rewrite Hn, Hm.
  cbn [payload hop_payer]. unfold deliverable in Hdel.
  destruct comp, m; try done; cbn [delivered_as]; try rewrite orb_true_r;
    (split; [|done]); eexists; (split; [reflexivity|]); simpl; rewrite Hq; done.
Qed.

(** A package launched on a delivered itinerary gets there, billed at every Node in between. *)
Lemma send_legs k k1 c0 ks n comp encs tail_ pc m :
  deliverable comp m ->
  Forall2 deliver ((k, k1, c0) :: legs Hopper Hopper k1 ks ++ [(last_key k1 ks, n, comp)]) encs ->
  no_stutter k (k1 :: ks) -> linked (k :: k1 :: ks) ->
  decodex (crypt_of nodes (last_key k1 ks)) pc = Ok m ->
  exists trace effs garbage,
    send nodes cache transport (S (length ks)) k (mkIncipient (mkRoute (encs ++ tail_)) pc)
      = Ret (trace ++ [(last_key k1 ks, effs)]) /\
    Forall2 (billed (crypt_len pc)) (readers (legs Hopper Hopper k1 ks)) trace /\
    deliver (last_key k1 ks, n, comp) (default (mkCryptData []) (last encs)) /\
    delivered_as comp m
      (mkRoute (default (mkCryptData []) (last encs) :: tail_ ++ garbage)) effs.
Proof.
  intros Hdm Hdel Hns Hlink Hm.
  inversion Hdel as [|? e ? es (pp & Hp & Hd) Hes]; subst. simpl in Hp, Hd.
  destruct Hns as [Hne Hns]. pose proof Hlink as [Hserve Hpairs].
  rewrite Forall_cons in Hserve. destruct Hserve as [Hsk Hs'].
  pose proof (proj1 (Forall_cons _ _ _) Hs') as [Hsk1 _].
  set (g := mkCryptData (random (crypt_of nodes k) (crypt_len e))).
  destruct (holds_encoded k k1 (mkRoute ((es ++ tail_) ++ [g])) pc) as (enc & Henc & Hh).
  { apply Hpairs; set_solver. }
  { apply Hsk1. }
  rewrite <- app_assoc in Hh.
  destruct (relay_legs ks k1 n comp es (tail_ ++ [g])
    (transport k (mkTransmitDataMsg (Key k1) false None (crypt_data enc))) pc)
    as (trace & i' & live & next & garbage & Hrel & Hbill & Harr & Hdl & Hlr & Hlg & Hlp & q & Hq);
    [by destruct comp | done | done | by eapply linked_sub; [exact Hlink|set_solver]
    | by rewrite transport_carries |].
  assert (last (e :: es) = last es) as ->.
  { destruct es; [|done]. apply Forall2_nil_inv_r in Hes. by destruct (legs _ _ _ _). }
  destruct Hq as (-> & Hqw & Hqo & Hqd).
  destruct (peripheral_delivers (nodes (last_key k1 ks)) (peer_addr i') live (mkLiveHop n (Some q) comp) q n comp m)
    as [Hda Hfol]; [done | exact (proj2 Harr) | done | done | by rewrite Hlp |].
  destruct (route_delivers (cache (last_key k1 ks)) _ _ _ _ m Harr) with (owns := true)
    as (x & _ & _ & _ & _ & Hroute); [by destruct comp | by rewrite Hlp | naive_solver | done |].
  eexists trace, _, (g :: garbage). split_and!; [| exact Hbill | exact Hdl |].
  - unfold send, ConsumingService.consume, from_incipient, shift. cbn [ic_route hops app ic_payload].
    rewrite Hd. cbn [hop_key]. fold g. rewrite Henc.
    rewrite bool_decide_false by (destruct Hsk as [-> _]; done).
    cbn [ConsumingService.launch_lcp follow endpoint]. rewrite Hrel, Hroute. cbn [obind].
    cbn [hop_component]. rewrite Hfol. done.
  - cbn [hop_component]. rewrite Hlr in Hda. rewrite <- app_assoc in Hda. exact Hda.
Qed.
End network.

Lemma last_key_in k ks : last_key k ks ∈ k :: ks.
Proof.
  revert k. induction ks as [|k' ks IH]; intros k; [left|].
  rewrite last_key_cons. right. apply IH.
Qed.

Lemma incipient_decodes `{!Serde MessageType} {good} `{!SerdeOk MessageType good} a b r m k :
  public_key b = k /\ CryptPair a b -> good m ->
  exists pc, incipient_new a r m k = Ok (mkIncipient r pc) /\ decodex b pc = Ok m.
Proof.
  intros [<- Hpair] Hg. destruct (encodex_decodex a b m Hg) as (pc & He & Hd).
  exists pc. unfold incipient_new. by rewrite He.
Qed.

(** A round trip's hops, split where the exit Node keeps them *)
Lemma round_trip_split `{!EthSign} (keccak256 : bytes -> bytes) `{!Serde LiveHop} `{!Serde Z}
    `{!SerdeOk LiveHop hop_on_wire} `{!SerdeOk Z (uint 32)}
    (originator : CryptDE) (net : PublicKey -> CryptDE) (cw : option Wallet) (ca : option bytes)
    (k k1 b1 : PublicKey) (over_rest back_rest : list PublicKey) (rrid : Z) :
  CryptPair originator originator ->
  Forall (on_net originator net) (k :: (k1 :: over_rest) ++ (b1 :: back_rest)) ->
  can_pay keccak256 cw ca -> uint 32 rrid ->
  let exit_key := last_key k1 over_rest in
  exists encs1 encs2 ide,
    round_trip keccak256 (mkRouteSegment (k :: k1 :: over_rest) ProxyClient)
      (mkRouteSegment (exit_key :: b1 :: back_rest) ProxyServer) originator cw rrid ca
      = Ret (Ok (mkRoute (encs1 ++ encs2 ++ [ide]))) /\
    Forall2 (delivers keccak256 net cw ca)
      ((k, k1, Hopper) :: legs Hopper Hopper k1 over_rest ++ [(exit_key, b1, ProxyClient)]) encs1 /\
    Forall2 (delivers keccak256 net cw ca)
      (legs Hopper Hopper b1 back_rest ++ [(last_key b1 back_rest, empty_key, ProxyServer)]) encs2 /\
    decodex originator ide = Ok rrid.
Proof.
  intros Hself Hnet Hpay Hid exit_key.
  destruct (round_trip_delivers keccak256 originator net cw ca k (k1 :: over_rest)
    (b1 :: back_rest) ProxyClient ProxyServer rrid) as (encs & ide & Hr & Hdel & Hdid); [done..|].
  rewrite last_key_cons in Hr. unfold round_trip_itinerary in Hdel.
  rewrite last_key_cons, (last_key_cons _ b1) in Hdel.
  change (Forall2 (delivers keccak256 net cw ca)
    (((k, k1, Hopper) :: legs Hopper Hopper k1 over_rest) ++
     ([(exit_key, b1, ProxyClient)] ++
      (legs Hopper Hopper b1 back_rest ++ [(last_key b1 back_rest, empty_key, ProxyServer)]))) encs)
    in Hdel.
  rewrite app_assoc in Hdel. apply Forall2_app_inv_l in Hdel as (encs1 & encs2 & Hd1 & Hd2 & ->).
  exists encs1, encs2, ide. rewrite <- app_assoc in Hr. done.
Qed.

(** ** Properties *)

(** C5: routing is never free and never goes astray. Whenever the RoutingService gives data to
    the Dispatcher, the arriving package's top hop said to pass it on to another Node and carried
    a payer whose signature proves that he owns the paying wallet and who is not delinquent; the
    Accountant was told first, with that wallet, the payload's size and this Node's rates; and the
    data goes to the very Node the hop names. *)
Theorem routing_is_paid_for `{!EthSign} `{!Serde LiveHop} `{!Serde LiveCoresPackage}
    `{!Serde MessageType} (cache : BannedCache) (self : RoutingService.RoutingService)
    (ibcd : InboundClientData) (effects : list hopper_effect) (m : TransmitDataMsg) :
  RoutingService.route cache self ibcd = Ret effects -> ToDispatcher m ∈ effects ->
  exists live next p, arrives self ibcd live next /\
    hop_component next = Hopper /\ hop_key next <> public_key (RoutingService.cryptde self) /\
    hop_payer next = Some p /\
    owns_secret_key p (digest (RoutingService.cryptde self)) = Ret true /\
    is_delinquent cache p = Ret false /\
    endpoint m = Key (hop_key next) /\
    effects = [ToAccountantRouting
                 (mkServiceReport (payer_wallet p) (crypt_len (lcp_payload live))
                    (RoutingService.per_routing_service self) (RoutingService.per_routing_byte self));
               ToDispatcher m].
Proof.
  intros Hr Hin. destruct (route_inv cache self ibcd effects Hr) as (live & next & Harr & Hrd).
  { intros ->. by apply not_elem_of_nil in Hin. }
  unfold RoutingService.route_data in Hrd. case_match eqn:Ec; first last.
  { apply internally_no_transmission in Hrd. rewrite Forall_forall in Hrd. by apply Hrd in Hin. }
  apply andb_true_iff in Ec as [Hc%bool_decide_eq_true Hk].
  apply negb_true_iff, bool_decide_eq_false in Hk.
  pose proof Hrd as Hinv. apply externally_inv in Hinv as (p & Hp & Ho & Hd & rest & -> & Hrest); first last.
  { intros ->. by apply not_elem_of_nil in Hin. }
  destruct Hrest as [->|(m' & ->)]; elem_cases Hin.
  exists live, next, p. split_and!; [exact Harr | done..|  | done].
  rewrite Hp in Hrd. unfold RoutingService.route_data_externally in Hrd.
  rewrite Ho in Hrd. cbn [obind negb] in Hrd. rewrite Hd in Hrd. cbn [obind] in Hrd.
  unfold RoutingService.to_transmit_data_msg, to_next_live, shift in Hrd.
  destruct Harr as [_ Hn]. unfold next_hop in Hn. destruct (hops (lcp_route live)); [done|].
  rewrite Hn in Hrd. destruct (encodex _ _ _); by simplify_eq/=.
Qed.

(** C24: a Node that is decentralised gives a client's request to its ProxyClient (and thus acts
    as an exit to the Internet) only for a payer whose signature proves that he owns the paying
    wallet and who is not delinquent; that wallet is named in the package as the one to bill. *)
Theorem exit_needs_proof_of_wallet `{!EthSign} `{!Serde LiveHop} `{!Serde LiveCoresPackage}
    `{!Serde MessageType} (cache : BannedCache) (self : RoutingService.RoutingService)
    (ibcd : InboundClientData) (effects : list hopper_effect)
    (x : ExpiredCoresPackage ClientRequestPayload) :
  RoutingService.is_decentralized self = true ->
  RoutingService.route cache self ibcd = Ret effects -> ToProxyClient x ∈ effects ->
  exists live next p, arrives self ibcd live next /\ hop_component next = ProxyClient /\
    hop_payer next = Some p /\ paying_wallet x = Some (payer_wallet p) /\
    owns_secret_key p (digest (RoutingService.cryptde self)) = Ret true /\
    is_delinquent cache p = Ret false.
Proof.
  intros Hdec Hr Hin. destruct (route_inv cache self ibcd effects Hr) as (live & next & Harr & Hrd).
  { intros ->. by apply not_elem_of_nil in Hin. }
  exists live, next. unfold RoutingService.route_data in Hrd. case_match.
  { apply externally_inv in Hrd as (p & _ & _ & _ & rest & -> & [->|(m & ->)]);
    elem_cases Hin. intros ->. elem_cases Hin. }
  unfold RoutingService.route_data_internally in Hrd. case_bool_decide.
  { unfold RoutingService.route_data_around_again in Hrd. case_match;
      [case_match|]; unbind; elem_cases Hin. }
  apply obind_ret_inv in Hrd as (d & Hd & Hrd). destruct d; [unbind; elem_cases Hin|].
  apply obind_ret_inv in Hrd as (o & Ho & Hrd). injection Hrd as <-.
  apply (peripheral_exit_inv _ _ _ _ _ _ next) in Hin as (Hc & -> & Hx); [|done|apply Harr].
  unfold payer_owns_secret_key in Ho. destruct (hop_payer next) as [p|]; [|done].
  exists p. done.
Qed.

(** C2: a request and its response get through. With a round-trip route built by the originator
    for a wallet that none of the Nodes has banned, between Nodes that can encrypt to each other:
    the request launched by the originator is forwarded over the first segment, each Node in
    between bills the wallet for the payload's size at its own rates, and the exit Node's
    ProxyClient receives exactly the request, with the wallet to bill and the remaining route.
    A response (or DNS failure) launched by the exit Node on that remaining route is forwarded
    and billed the same way over the second segment, the originator's ProxyServer receives
    exactly it, and the return route id is found under the top hop of what is then left of the
    route. *)
Theorem request_and_response_get_through `{!EthSign} `{!EthSignOk} (keccak256 : bytes -> bytes)
    `{!Serde LiveHop} `{!Serde Z} `{!Serde LiveCoresPackage} `{!Serde MessageType}
    `{!SerdeOk LiveHop hop_on_wire} `{!SerdeOk Z (uint 32)}
    `{!SerdeOk LiveCoresPackage (fun p => lcp_version p = VERSION_0_0)}
    (good : MessageType -> Prop) `{!SerdeOk MessageType good}
    (nodes : Network) (cache : PublicKey -> BannedCache)
    (transport : PublicKey -> TransmitDataMsg -> InboundClientData)
    (w : Wallet) (secret addr : bytes) (k k1 b1 : PublicKey) (over_rest back_rest : list PublicKey)
    (rrid : Z) (req : ClientRequestPayload) (answer : MessageType) :
  let exit_key := last_key k1 over_rest in
  let home_key := last_key b1 back_rest in
  let all := k :: (k1 :: over_rest) ++ (b1 :: back_rest) in
  (forall k m, ibcd_data (transport k m) = tdm_data m) ->
  kind w = KeyPair (keypair_from_secret secret) -> can_pay keccak256 (Some w) (Some addr) ->
  uint 32 rrid -> linked keccak256 nodes cache secret addr all ->
  no_stutter k (k1 :: over_rest) -> no_stutter exit_key (b1 :: back_rest) ->
  deliverable ProxyServer answer -> good (ClientRequest req) -> good answer ->
  exists r pkg trace x,
    round_trip keccak256 (mkRouteSegment (k :: k1 :: over_rest) ProxyClient)
      (mkRouteSegment (exit_key :: b1 :: back_rest) ProxyServer) (crypt_of nodes k) (Some w) rrid
      (Some addr) = Ret (Ok r) /\
    incipient_new (crypt_of nodes k) r (ClientRequest req) exit_key = Ok pkg /\
    send nodes cache transport (S (length over_rest)) k pkg
      = Ret (trace ++ [(exit_key, [ToProxyClient x])]) /\
    Forall2 (billed nodes secret (crypt_len (ic_payload pkg)))
      (readers (legs Hopper Hopper k1 over_rest)) trace /\
    payload x = req /\ paying_wallet x = Some (seen_wallet secret) /\
    exists pkg' trace' effs r',
      incipient_new (crypt_of nodes exit_key) (remaining_route x) answer home_key = Ok pkg' /\
      send nodes cache transport (S (length back_rest)) exit_key pkg'
        = Ret (trace' ++ [(home_key, effs)]) /\
      Forall2 (billed nodes secret (crypt_len (ic_payload pkg')))
        (readers (legs Hopper Hopper b1 back_rest)) trace' /\
      delivered_as secret ProxyServer answer r' effs /\
      exists r'' h, shift r' (crypt_of nodes home_key) = (r'', Ok h) /\
        route_id r'' (crypt_of nodes k) = Ok rrid.
Proof.
  intros exit_key home_key all Htr Hw Hpay Hid Hlink Hns1 Hns2 Hans Hg1 Hg2.
  assert (Hexit : exit_key ∈ k1 :: over_rest) by apply last_key_in.
  assert (Hhome : home_key ∈ b1 :: back_rest) by apply last_key_in.
  assert (Hon : forall a b, a ∈ all -> b ∈ all ->
    public_key (crypt_of nodes b) = b /\ CryptPair (crypt_of nodes a) (crypt_of nodes b)).
  { intros a b Ha Hb. destruct Hlink as [Hs Hp]. rewrite Forall_forall in Hs.
    split; [by apply Hs | by apply Hp]. }
  unfold all in *.
  destruct (round_trip_split keccak256 (crypt_of nodes k) (crypt_of nodes) (Some w) (Some addr)
    k k1 b1 over_rest back_rest rrid) as (encs1 & encs2 & ide & Hr & Hd1 & Hd2 & Hdid);
    [apply Hon; set_solver | | done | done |].
  { rewrite Forall_forall. intros a Ha. apply Hon; set_solver. }
  (* over *)
  destruct (incipient_decodes (crypt_of nodes k) (crypt_of nodes exit_key)
    (mkRoute (encs1 ++ encs2 ++ [ide])) (ClientRequest req) exit_key)
    as (pc & Hpc & Hpcd); [apply Hon; set_solver | done |].
  destruct (send_legs keccak256 nodes cache transport Htr w secret addr Hw k k1 Hopper over_rest
    b1 ProxyClient encs1 (encs2 ++ [ide]) pc (ClientRequest req)) as (trace & effs & g & Hsend & Hbill & Hel & Hda).
  { done. } { exact Hd1. } { done. } { eapply linked_sub; [exact Hlink|set_solver]. } { done. }
  destruct Hda as (x & -> & Hx & Hxw & Hxr).
  eexists _, (mkIncipient (mkRoute (encs1 ++ encs2 ++ [ide])) pc), trace, x.
  split_and!; [exact Hr | exact Hpc | exact Hsend | exact Hbill | done | done |].
  (* back *)
  destruct (incipient_decodes (crypt_of nodes exit_key) (crypt_of nodes home_key)
    (remaining_route x) answer home_key)
    as (pc' & Hpc' & Hpcd'); [apply Hon; set_solver | done |].
  set (e := default (mkCryptData []) (last encs1)) in *.
  destruct (send_legs keccak256 nodes cache transport Htr w secret addr Hw exit_key b1 ProxyClient
    back_rest empty_key ProxyServer (e :: encs2) ([ide] ++ g) pc' answer)
    as (trace' & effs' & g' & Hsend' & Hbill' & Hel' & Hda').
  { done. } { by constructor. } { done. } { eapply linked_sub; [exact Hlink|set_solver]. } { done. }
  eexists (mkIncipient (remaining_route x) pc'), trace', effs', _.
  split_and!; [exact Hpc' | | exact Hbill' | exact Hda' |].
  { rewrite Hxr. rewrite <- app_assoc. exact Hsend'. }
  destruct Hel' as (p & _ & Hd'). cbn [fst snd] in Hd'.
  unfold shift. cbn [hops]. fold home_key in Hd'. rewrite Hd'. eexists _, _. split; [reflexivity|].
  unfold route_id. cbn [hops app]. by rewrite Hdid.
Qed.

(** *** Concrete networks for evaluation *)
Definition toy_crypt (k : PublicKey) : CryptDE :=
  CryptDENull.as_cryptde (fun _ => [0]) (fun _ => []) (fun _ => None)
    (CryptDENull.from (fun b => b) [1] k [1]).

Definition toy_nodes : Network := fun k => RoutingService.mk (toy_crypt k) 100 2 true.

Definition toy_transport (k : PublicKey) (m : TransmitDataMsg) : InboundClientData :=
  mkInboundClientData (mkSocketAddr (V4 1 2 3 4) 1234) None (tdm_last_data m) true None (tdm_data m).

Definition toy_request : ClientRequestPayload :=
  mkClientRequestPayload VERSION_0_0 (mkStreamKey [1]) (mkSequencedPacket [71; 69; 84] 0 false)
    None 80 HTTP key_a.

Definition toy_response : ClientResponsePayload :=
  mkClientResponsePayload VERSION_0_0 (mkStreamKey [1]) (mkSequencedPacket [72; 105] 0 false).

Lemma toy_crypt_pair c k : key_data k <> [] -> bytes_ok (key_data k) ->
  CryptPair (toy_crypt c) (toy_crypt k).
Proof. intros. apply CryptDENull.null_pair; [done|]. by apply CryptDENull.from_keyed. Qed.

Lemma toy_linked :
  @linked toy_eth (fun b => b) toy_nodes (fun _ => ∅) [7] [1] [key_a; key_b; key_c; key_b; key_a].
Proof.
  split.
  - repeat (apply List.Forall_cons; [split_and!; reflexivity|]). apply List.Forall_nil.
  - intros a b _ Hb. apply toy_crypt_pair; elem_cases Hb; try done;
      repeat constructor; unfold uint; lia.
Qed.

Lemma request_and_response_get_through_witness :
  exists pkg trace p, @send toy_eth (countable_serde LiveHop) (countable_serde LiveCoresPackage)
      (countable_serde MessageType) toy_nodes (fun _ => ∅) toy_transport 2 key_a pkg
      = Ret (trace ++ [(key_c, [ToProxyClient p])]) /\ payload p = toy_request /\
      paying_wallet p = Some (mkWallet (Address [7])).
Proof.
  destruct (@request_and_response_get_through toy_eth toy_eth_ok (fun b => b)
    (countable_serde _) (countable_serde _) (countable_serde _) (countable_serde _)
    (countable_serde_ok _ _) (countable_serde_ok _ _) (countable_serde_ok _ _)
    (fun _ => True) (countable_serde_ok _ _) toy_nodes (fun _ => ∅) toy_transport toy_wallet [7] [1]
    key_a key_b key_b [key_c] [key_a] 5 toy_request (ClientResponse toy_response))
    as (r & pkg & trace & x & Hr & Hpkg & Hsend & _ & Hx & Hw & _).
  all: try done.
  - exact toy_can_pay.
  - exact toy_linked.
  - exists pkg, trace, x. split_and!; [exact Hsend | exact Hx | exact Hw].
Defined.

Definition toy_payer : Payer := mkPayer (mkWallet (Address [7])) (mkSignature 0 [7] [66; 1]).

(** Data with any given hop and payload can arrive at Node B. *)
Lemma toy_arrives (h : LiveHop) (m : MessageType) :
  exists ibcd live e, @arrives (countable_serde LiveHop) (countable_serde LiveCoresPackage)
      (toy_nodes key_b) ibcd live h /\ hops (lcp_route live) = [e] /\
    @decodex _ (countable_serde MessageType) (toy_crypt key_b) (lcp_payload live) = Ok m.
Proof.
  assert (CryptPair (toy_crypt key_a) (toy_crypt key_b)) as Hp.
  { apply toy_crypt_pair; [done | repeat constructor; unfold uint; lia]. }
  destruct (@encodex_decodex _ (countable_serde LiveHop) (fun _ => True) (countable_serde_ok _ _)
    _ _ Hp h I) as (e & _ & He).
  destruct (@encodex_decodex _ (countable_serde MessageType) (fun _ => True) (countable_serde_ok _ _)
    _ _ Hp m I) as (pc & _ & Hpc).
  destruct (@encodex_decodex _ (countable_serde LiveCoresPackage) (fun _ => True)
    (countable_serde_ok _ _) _ _ Hp (live_new (mkRoute [e]) pc) I) as (d & _ & Hd).
  exists (toy_transport key_a (mkTransmitDataMsg (Key key_b) false None (crypt_data d))),
    (live_new (mkRoute [e]) pc), e.
  split_and!; [split|done..].
  - cbn [toy_transport ibcd_data tdm_data]. destruct d. exact Hd.
  - unfold next_hop, decode_hop, live_hop_decode. cbn. cbn in He. by rewrite He.
Qed.

Lemma routing_is_paid_for_witness :
  exists ibcd effects m, @RoutingService.route toy_eth (countable_serde LiveHop)
      (countable_serde LiveCoresPackage) (countable_serde MessageType) ∅ (toy_nodes key_b) ibcd
      = Ret effects /\ ToDispatcher m ∈ effects /\ endpoint m = Key key_c.
Proof.
  destruct (toy_arrives (mkLiveHop key_c (Some toy_payer) Hopper) (ClientRequest toy_request))
    as (ibcd & live & e & Harr & Hh & Hm).
  assert (CryptPair (toy_crypt key_b) (toy_crypt key_c)) as Hp.
  { apply toy_crypt_pair; [done | repeat constructor; unfold uint; lia]. }
  edestruct (@encodex_decodex _ (countable_serde LiveCoresPackage) (fun _ => True)
    (countable_serde_ok _ _) _ _ Hp) as (d & He & _); [exact I|].
  pose proof (@route_forwards toy_eth (countable_serde LiveHop) (countable_serde LiveCoresPackage)
    (countable_serde MessageType) ∅ (toy_nodes key_b) ibcd live _ toy_payer e [] d Harr Hh eq_refl
    ltac:(done) eq_refl eq_refl eq_refl He) as Hr.
  destruct (@routing_is_paid_for toy_eth (countable_serde LiveHop) (countable_serde LiveCoresPackage)
    (countable_serde MessageType) ∅ (toy_nodes key_b) ibcd _ _ Hr ltac:(right; left))
    as (live' & next & p & [Ha1 Ha2] & _ & _ & _ & _ & _ & Hend & _).
  eexists ibcd, _, _. split; [exact Hr|]. split; [right; left|]. reflexivity.
Defined.

Lemma exit_needs_proof_of_wallet_witness :
  exists ibcd effects x, @RoutingService.route toy_eth (countable_serde LiveHop)
      (countable_serde LiveCoresPackage) (countable_serde MessageType) ∅ (toy_nodes key_b) ibcd
      = Ret effects /\ ToProxyClient x ∈ effects /\ exists w, paying_wallet x = Some w.
Proof.
  destruct (toy_arrives (mkLiveHop key_c (Some toy_payer) ProxyClient) (ClientRequest toy_request))
    as (ibcd & live & e & Harr & Hh & Hm).
  destruct (@route_delivers toy_eth (countable_serde LiveHop) (countable_serde LiveCoresPackage)
    (countable_serde MessageType) ∅ (toy_nodes key_b) ibcd live _ _ Harr ltac:(done) Hm
    ltac:(by intros p [= <-]) true eq_refl) as (x & Hx & Hpx & _ & _ & Hr).
  assert (exists x, @RoutingService.route_data_to_peripheral_component (countable_serde LiveHop)
    (countable_serde MessageType) (toy_nodes key_b) ProxyClient (peer_addr ibcd) live true
    = [ToProxyClient x]) as (y & Hy).
  { unfold RoutingService.route_data_to_peripheral_component. rewrite Hx, Hpx. by eexists. }
  cbn [hop_component] in Hr. rewrite Hy in Hr.
  destruct (@exit_needs_proof_of_wallet toy_eth (countable_serde LiveHop)
    (countable_serde LiveCoresPackage) (countable_serde MessageType) ∅ (toy_nodes key_b) ibcd
    _ y eq_refl Hr ltac:(left)) as (_ & _ & p & _ & _ & _ & Hw & _).
  exists ibcd, [ToProxyClient y], y. split; [exact Hr|]. split; [left|]. by exists (payer_wallet p).
Defined.
