(* ===== verification/Database.v ===== *)
(** * Database: what a Node knows of the neighborhood

    neighborhood/node_record.rs and neighborhood/neighborhood_database.rs, and
    [regenerate_signed_gossip] and [AccessibleGossipRecord] of neighborhood/mod.rs.
    [HashMap]s are [gmap]s, sets of keys are [gset]s; where the source iterates over a
    [HashSet], the order is that of [hash_iter], of which only a permutation law is known. *)
From S2P Require Import Prelude Text SubLib Cryptde Wallet Route SequenceBuffer Messages.

#[global] Arguments NodeAddr.clone : simpl never.

(** ** Iteration over hash sets

    [salt] names the set object that is iterated: two sets with the same members may be
    iterated in different orders. *)
Class HashOrder := {
  hash_iter : list PublicKey -> gset PublicKey -> list PublicKey;
  hash_iter_perm : forall salt s, hash_iter salt s ≡ₚ elements s
}.

Lemma elem_of_hash_iter `{!HashOrder} salt s k : k ∈ hash_iter salt s <-> k ∈ s.
Proof. rewrite hash_iter_perm. apply elem_of_elements. Qed.

Lemma NoDup_hash_iter `{!HashOrder} salt s : NoDup (hash_iter salt s).
Proof. rewrite hash_iter_perm. apply NoDup_elements. Qed.

Definition elements_order : HashOrder := {|
  hash_iter := fun _ s => elements s;
  hash_iter_perm := fun _ s => reflexivity _
|}.

(** ** NodeRecord *)
Record NodeRecordInner := mkInner {
  data_version : DataVersion.DataVersion;
  ni_public_key : PublicKey;
  ni_earning_wallet : Wallet;
  ni_rate_pack : RatePack;
  ni_neighbors : gset PublicKey;
  ni_accepts_connections : bool;
  ni_routes_data : bool;
  ni_version : Z
}.

Definition inner_data_version : DataVersion.DataVersion := DataVersion.mk 0 16 0.

Record NodeRecordMetadata := mkMetadata {
  desirable : bool;
  md_node_addr_opt : option NodeAddr.NodeAddr
}.

Definition metadata_new : NodeRecordMetadata := mkMetadata true None.

Record NodeRecord := mkNodeRecord {
  inner : NodeRecordInner;
  metadata : NodeRecordMetadata;
  signed_gossip : PlainData;
  signature : CryptData
}.

Record AccessibleGossipRecord := mkAgr {
  agr_signed_gossip : PlainData;
  agr_signature : CryptData;
  agr_node_addr_opt : option NodeAddr.NodeAddr;
  agr_inner : NodeRecordInner
}.

#[global] Instance NodeRecordInner_eq_dec : EqDecision NodeRecordInner.
Proof. solve_decision. Defined.
#[global] Instance NodeRecordInner_countable : Countable NodeRecordInner.
Proof.
  refine (inj_countable'
    (fun i => (data_version i, ni_public_key i, ni_earning_wallet i, ni_rate_pack i, ni_neighbors i,
               ni_accepts_connections i, ni_routes_data i, ni_version i))
    (fun x => let '(a, b, c, d, e, f, g, h) := x in mkInner a b c d e f g h) _).
  by intros [].
Defined.
#[global] Instance NodeRecordMetadata_eq_dec : EqDecision NodeRecordMetadata.
Proof. solve_decision. Defined.
#[global] Instance NodeRecord_eq_dec : EqDecision NodeRecord.
Proof. solve_decision. Defined.

(** [AccessibleGossipRecord]'s derived [Clone]: its [NodeAddr] is cloned by [NodeAddr::clone]. *)
Definition agr_clone (a : AccessibleGossipRecord) : AccessibleGossipRecord :=
  mkAgr (agr_signed_gossip a) (agr_signature a) (NodeAddr.clone <$> agr_node_addr_opt a) (agr_inner a).

Definition agr_key (a : AccessibleGossipRecord) : PublicKey := ni_public_key (agr_inner a).

Inductive NodeRecordError := SelfNeighborAttemptR (k : PublicKey).

Inductive NeighborhoodDatabaseError :=
| NodeKeyNotFound (k : PublicKey)
| NodeKeyCollision (k : PublicKey)
| SelfNeighborAttempt (k : PublicKey)
| NodeAddrAlreadySet (na : NodeAddr.NodeAddr)
| EmptyPortList.

(** *** Field updates *)
Definition set_neighbors (n : gset PublicKey) (i : NodeRecordInner) : NodeRecordInner :=
  mkInner (data_version i) (ni_public_key i) (ni_earning_wallet i) (ni_rate_pack i) n
    (ni_accepts_connections i) (ni_routes_data i) (ni_version i).
Definition set_inner_version (v : Z) (i : NodeRecordInner) : NodeRecordInner :=
  mkInner (data_version i) (ni_public_key i) (ni_earning_wallet i) (ni_rate_pack i) (ni_neighbors i)
    (ni_accepts_connections i) (ni_routes_data i) v.
Definition set_inner_wallet (w : Wallet) (i : NodeRecordInner) : NodeRecordInner :=
  mkInner (data_version i) (ni_public_key i) w (ni_rate_pack i) (ni_neighbors i)
    (ni_accepts_connections i) (ni_routes_data i) (ni_version i).
Definition with_inner (f : NodeRecordInner -> NodeRecordInner) (r : NodeRecord) : NodeRecord :=
  mkNodeRecord (f (inner r)) (metadata r) (signed_gossip r) (signature r).
Definition with_node_addr (o : option NodeAddr.NodeAddr) (r : NodeRecord) : NodeRecord :=
  mkNodeRecord (inner r) (mkMetadata (desirable (metadata r)) o) (signed_gossip r) (signature r).

(** *** Accessors *)
Definition nr_key (r : NodeRecord) : PublicKey := ni_public_key (inner r).
Definition nr_neighbors (r : NodeRecord) : gset PublicKey := ni_neighbors (inner r).
Definition nr_accepts_connections (r : NodeRecord) : bool := ni_accepts_connections (inner r).
Definition nr_routes_data (r : NodeRecord) : bool := ni_routes_data (inner r).
Definition nr_version (r : NodeRecord) : Z := ni_version (inner r).
Definition nr_rate_pack (r : NodeRecord) : RatePack := ni_rate_pack (inner r).
Definition nr_earning_wallet (r : NodeRecord) : Wallet := ni_earning_wallet (inner r).
Definition is_desirable (r : NodeRecord) : bool := desirable (metadata r).
Definition node_addr_opt (r : NodeRecord) : option NodeAddr.NodeAddr :=
  NodeAddr.clone <$> md_node_addr_opt (metadata r).
Definition has_half_neighbor (r : NodeRecord) (k : PublicKey) : bool := bool_decide (k ∈ nr_neighbors r).

(** *** Mutators *)
Definition set_node_addr (r : NodeRecord) (na : NodeAddr.NodeAddr)
  : NodeRecord * result bool NeighborhoodDatabaseError :=
  match md_node_addr_opt (metadata r) with
  | Some existing =>
      if bool_decide (na = existing) then (r, Ok false)
      else (r, Err (NodeAddrAlreadySet (NodeAddr.clone existing)))
  | None => (with_node_addr (Some (NodeAddr.clone na)) r, Ok true)
  end.

Definition unset_node_addr (r : NodeRecord) : NodeRecord := with_node_addr None r.

Definition add_half_neighbor_key (r : NodeRecord) (k : PublicKey)
  : NodeRecord * result unit NodeRecordError :=
  if bool_decide (k = nr_key r) then (r, Err (SelfNeighborAttemptR (nr_key r)))
  else (with_inner (set_neighbors ({[k]} ∪ nr_neighbors r)) r, Ok ()).

Definition remove_half_neighbor_key (r : NodeRecord) (k : PublicKey) : NodeRecord * bool :=
  (with_inner (set_neighbors (nr_neighbors r ∖ {[k]})) r, bool_decide (k ∈ nr_neighbors r)).

Definition clear_half_neighbors (r : NodeRecord) : NodeRecord := with_inner (set_neighbors ∅) r.

(** u32: wraps around in the release build *)
Definition increment_version (r : NodeRecord) : NodeRecord :=
  with_inner (set_inner_version (wrap 32 (nr_version r + 1))) r.

Definition set_version (r : NodeRecord) (v : Z) : NodeRecord := with_inner (set_inner_version v) r.

Definition set_earning_wallet (r : NodeRecord) (w : Wallet) : NodeRecord * bool :=
  if wallet_eqb (nr_earning_wallet r) w then (r, false)
  else (with_inner (set_inner_wallet w) r, true).

Definition set_desirable (r : NodeRecord) (b : bool) : NodeRecord :=
  mkNodeRecord (inner r) (mkMetadata b (md_node_addr_opt (metadata r))) (signed_gossip r) (signature r).

Inductive update_error := MustNotChangePublicKey | MustNotChangeNodeAddr | MustNotChangeRatePack.

Definition update (r : NodeRecord) (agr : AccessibleGossipRecord)
  : NodeRecord * result unit update_error :=
  if bool_decide (agr_key agr <> nr_key r) then (r, Err MustNotChangePublicKey)
  else if bool_decide (agr_node_addr_opt agr <> node_addr_opt r) then (r, Err MustNotChangeNodeAddr)
  else if bool_decide (ni_rate_pack (agr_inner agr) <> nr_rate_pack r) then
    (r, Err MustNotChangeRatePack)
  else
    (mkNodeRecord (agr_inner agr) (mkMetadata (desirable (metadata r)) (agr_node_addr_opt agr))
       (agr_signed_gossip agr) (agr_signature agr), Ok ()).

(** [From<AccessibleGossipRecord>] and [From<&AccessibleGossipRecord>] (which clones) *)
Definition record_from_agr (agr : AccessibleGossipRecord) : NodeRecord :=
  mkNodeRecord (agr_inner agr) (mkMetadata true (agr_node_addr_opt agr))
    (agr_signed_gossip agr) (agr_signature agr).
Definition record_from_agr_ref (agr : AccessibleGossipRecord) : NodeRecord :=
  record_from_agr (agr_clone agr).

Section signing.
Context `{!Serde NodeRecordInner}.

(** [regenerate_signed_gossip] of neighborhood/mod.rs; signing errors are [unimplemented!] *)
Definition regenerate (i : NodeRecordInner) (cryptde : CryptDE) : outcome (PlainData * CryptData) :=
  let* v := expect (to_vec i) in
  let signed := mkPlainData v in
  let* sig := expect_ok (sign cryptde signed) in
  Ret (signed, sig).

Definition regenerate_signed_gossip (r : NodeRecord) (cryptde : CryptDE) : outcome NodeRecord :=
  let* (signed, sig) := regenerate (inner r) cryptde in
  Ret (mkNodeRecord (inner r) (metadata r) signed sig).

Definition record_new (pk : PublicKey) (w : Wallet) (rp : RatePack) (accepts routes : bool)
    (v : Z) (cryptde : CryptDE) : outcome NodeRecord :=
  regenerate_signed_gossip
    (mkNodeRecord (mkInner inner_data_version pk w rp ∅ accepts routes v) metadata_new
       (mkPlainData []) (mkCryptData [])) cryptde.

(** [AccessibleGossipRecord::try_from] *)
Definition agr_try_from (g : GossipNodeRecord) : option AccessibleGossipRecord :=
  match from_slice (plain_data (signed_data g)) with
  | Some i => Some (mkAgr (signed_data g) (gnr_signature g) (gnr_node_addr_opt g) i)
  | None => None
  end.

(** [NodeRecord::try_from(&GossipNodeRecord)] *)
Definition record_try_from (g : GossipNodeRecord) : option NodeRecord :=
  match from_slice (plain_data (signed_data g)) with
  | Some i => Some (mkNodeRecord i (mkMetadata true (NodeAddr.clone <$> gnr_node_addr_opt g))
                      (signed_data g) (gnr_signature g))
  | None => None
  end.
End signing.

(** ** NeighborhoodDatabase *)
Record NeighborhoodDatabase := mkDatabase {
  this_node : PublicKey;
  by_public_key : gmap PublicKey NodeRecord;
  by_ip_addr : gmap IpAddr PublicKey
}.

Definition node_by_key (db : NeighborhoodDatabase) (k : PublicKey) : option NodeRecord :=
  by_public_key db !! k.

Definition root (db : NeighborhoodDatabase) : outcome NodeRecord :=
  expect (node_by_key db (this_node db)).

Definition keys (db : NeighborhoodDatabase) : gset PublicKey := dom (by_public_key db).

Definition node_by_ip (db : NeighborhoodDatabase) (i : IpAddr) : option NodeRecord :=
  match by_ip_addr db !! i with
  | Some k => node_by_key db k
  | None => None
  end.

(** Writing through a [&mut NodeRecord] that [node_by_key_mut] returned *)
Definition put_node (k : PublicKey) (r : NodeRecord) (db : NeighborhoodDatabase)
  : NeighborhoodDatabase :=
  mkDatabase (this_node db) (<[k := r]> (by_public_key db)) (by_ip_addr db).

Definition db_has_half_neighbor (db : NeighborhoodDatabase) (from to : PublicKey) : bool :=
  match node_by_key db from with
  | Some f => has_half_neighbor f to
  | None => false
  end.

Definition db_has_full_neighbor (db : NeighborhoodDatabase) (from to : PublicKey) : bool :=
  db_has_half_neighbor db from to && db_has_half_neighbor db to from.

(** [NodeRecord::full_neighbor_keys], [full_neighbors] and [has_full_neighbor] *)
Definition is_full_neighbor (db : NeighborhoodDatabase) (r : NodeRecord) (k : PublicKey) : bool :=
  match node_by_key db k with
  | Some n => has_half_neighbor n (nr_key r)
  | None => false
  end.

Definition full_neighbor_keys (r : NodeRecord) (db : NeighborhoodDatabase) : gset PublicKey :=
  filter (fun k => is_full_neighbor db r k = true) (nr_neighbors r).

Definition has_full_neighbor (r : NodeRecord) (db : NeighborhoodDatabase) (k : PublicKey) : bool :=
  if negb (bool_decide (k ∈ nr_neighbors r)) then false
  else match node_by_key db k with
       | Some neighbor => bool_decide (nr_key r ∈ nr_neighbors neighbor)
       | None => false
       end.

Definition full_neighbors `{!HashOrder} (salt : list PublicKey) (r : NodeRecord)
    (db : NeighborhoodDatabase) : outcome (list NodeRecord) :=
  omapM (fun k => expect (node_by_key db k)) (hash_iter salt (full_neighbor_keys r db)).

Definition gossip_target_degree `{!HashOrder} (db : NeighborhoodDatabase) (target : PublicKey)
  : outcome nat :=
  match node_by_key db target with
  | None => Ret 0%nat
  | Some target_node =>
      let* ns := full_neighbors [target] target_node db in
      let full_accepting_degree := length (filter (fun n => nr_accepts_connections n = true) ns) in
      let nonexistent_degree :=
        size (filter (fun k => k ∉ keys db) (nr_neighbors target_node)) in
      Ret (full_accepting_degree + nonexistent_degree)%nat
  end.

Definition add_arbitrary_node (db : NeighborhoodDatabase) (r : NodeRecord) : NeighborhoodDatabase :=
  mkDatabase (this_node db) (<[nr_key r := r]> (by_public_key db))
    (match node_addr_opt r with
     | Some na => <[NodeAddr.ip_addr na := nr_key r]> (by_ip_addr db)
     | None => by_ip_addr db
     end).

Definition check_for_ports (o : option NodeAddr.NodeAddr) : result unit NeighborhoodDatabaseError :=
  match o with
  | None => Ok ()
  | Some na => if bool_decide (NodeAddr.ports na = []) then Err EmptyPortList else Ok ()
  end.

Definition check_for_collision (db : NeighborhoodDatabase) (k : PublicKey)
  : result unit NeighborhoodDatabaseError :=
  if bool_decide (k ∈ keys db) then Err (NodeKeyCollision k) else Ok ().

Definition add_node (db : NeighborhoodDatabase) (r : NodeRecord)
  : NeighborhoodDatabase * result PublicKey NeighborhoodDatabaseError :=
  match check_for_ports (node_addr_opt r) with
  | Err e => (db, Err e)
  | Ok _ =>
      match check_for_collision db (nr_key r) with
      | Err e => (db, Err e)
      | Ok _ => (add_arbitrary_node db r, Ok (nr_key r))
      end
  end.

Definition add_half_neighbor (db : NeighborhoodDatabase) (new_neighbor : PublicKey)
  : NeighborhoodDatabase * result bool NeighborhoodDatabaseError :=
  if bool_decide (new_neighbor ∉ keys db) then (db, Err (NodeKeyNotFound new_neighbor))
  else
    let node_key := this_node db in
    if db_has_half_neighbor db node_key new_neighbor then (db, Ok false)
    else
      match node_by_key db node_key with
      | None => (db, Err (NodeKeyNotFound node_key))
      | Some node =>
          match add_half_neighbor_key node new_neighbor with
          | (_, Err (SelfNeighborAttemptR k)) => (db, Err (SelfNeighborAttempt k))
          | (node', Ok _) => (put_node node_key node' db, Ok true)
          end
      end.

Inductive remove_error := CouldNotRemoveNonexistent (k : PublicKey).

Definition remove_neighbor (db : NeighborhoodDatabase) (node_key : PublicKey)
  : outcome (NeighborhoodDatabase * result bool remove_error) :=
  match node_by_key db node_key with
  | None => Ret (db, Err (CouldNotRemoveNonexistent node_key))
  | Some record =>
      let ip := NodeAddr.ip_addr <$> node_addr_opt record in
      let db1 := put_node node_key (unset_node_addr record) db in
      let db2 := match ip with
                 | Some i => mkDatabase (this_node db1) (by_public_key db1) (delete i (by_ip_addr db1))
                 | None => db1
                 end in
      let* rt := root db2 in
      let (rt', removed) := remove_half_neighbor_key rt node_key in
      let db3 := put_node (this_node db2) rt' db2 in
      if removed : bool then
        let* rt := root db3 in
        Ret (put_node (this_node db3) (increment_version rt) db3, Ok true)
      else Ret (db3, Ok false)
  end.

Definition database_new `{!Serde NodeRecordInner} (pk : PublicKey)
    (mode : NeighborhoodMode.NeighborhoodMode) (earning_wallet : Wallet) (cryptde : CryptDE)
    : outcome NeighborhoodDatabase :=
  let* r := record_new pk earning_wallet (NeighborhoodMode.rate_pack mode)
              (NeighborhoodMode.accepts_connections mode) (NeighborhoodMode.routes_data mode) 0 cryptde in
  let* r := match NeighborhoodMode.node_addr_opt mode with
            | Some na =>
                let (r', res) := set_node_addr r na in
                let* _ := expect_ok res in Ret r'
            | None => Ret r
            end in
  let* r := regenerate_signed_gossip r cryptde in
  Ret (add_arbitrary_node (mkDatabase pk ∅ ∅) r).

(** ** The database invariant *)
Definition addr_of (r : NodeRecord) : option NodeAddr.NodeAddr := md_node_addr_opt (metadata r).

(** [k] is a Node that the local Node can send to: it is in the database, with an address that
    has a port. *)
Definition reachable (db : NeighborhoodDatabase) (k : PublicKey) : Prop :=
  exists r a, node_by_key db k = Some r /\ addr_of r = Some a /\ NodeAddr.ports a <> [].

Record wf (db : NeighborhoodDatabase) : Prop := {
  (** a record is filed under its own key *)
  wf_keys : forall k r, node_by_key db k = Some r -> nr_key r = k;
  (** the local Node is in the database *)
  wf_root : exists rt, node_by_key db (this_node db) = Some rt;
  (** a Node that accepts connections knows its own address *)
  wf_root_addr : forall rt, node_by_key db (this_node db) = Some rt ->
    nr_accepts_connections rt = true -> exists a, addr_of rt = Some a;
  (** the IP index leads to Nodes at that IP address *)
  wf_index : forall i k, by_ip_addr db !! i = Some k ->
    exists r a, node_by_key db k = Some r /\ addr_of r = Some a /\ NodeAddr.ip_addr a = i /\
      (k <> this_node db -> NodeAddr.ports a <> []);
  (** the local Node's neighbors are other Nodes it can send to *)
  wf_neighbors : forall rt k, node_by_key db (this_node db) = Some rt -> k ∈ nr_neighbors rt ->
    k <> this_node db /\ reachable db k
}.

Lemma node_by_key_put k r db k' :
  node_by_key (put_node k r db) k' = if bool_decide (k = k') then Some r else node_by_key db k'.
Proof. unfold node_by_key. simpl. case_bool_decide; subst; by simplify_map_eq. Qed.

Lemma node_by_key_add db r k' :
  node_by_key (add_arbitrary_node db r) k'
    = if bool_decide (nr_key r = k') then Some r else node_by_key db k'.
Proof. unfold node_by_key. simpl. case_bool_decide; subst; by simplify_map_eq. Qed.

Lemma index_add db r :
  by_ip_addr (add_arbitrary_node db r) =
    match addr_of r with
    | Some a => <[NodeAddr.ip_addr a := nr_key r]> (by_ip_addr db)
    | None => by_ip_addr db
    end.
Proof. unfold addr_of. simpl. unfold node_addr_opt. by destruct (md_node_addr_opt _). Qed.

Lemma elem_of_keys db k : k ∈ keys db <-> exists r, node_by_key db k = Some r.
Proof. unfold keys, node_by_key. rewrite elem_of_dom. done. Qed.

Lemma root_ret db rt : root db = Ret rt <-> node_by_key db (this_node db) = Some rt.
Proof. apply expect_ret. Qed.

Lemma wf_root_ret db : wf db -> exists rt, root db = Ret rt.
Proof. intros [_ [rt Hrt] _ _ _]. exists rt. by apply root_ret. Qed.

(** Once known, a record's address stays (as [NodeAddr::clone] normalises it). *)
Definition keeps_addr (r r' : NodeRecord) : Prop :=
  forall a, node_addr_opt r = Some a -> node_addr_opt r' = Some a.

Lemma keeps_addr_same r r' a :
  keeps_addr r r' -> addr_of r = Some a ->
  exists a', addr_of r' = Some a' /\ NodeAddr.ip_addr a' = NodeAddr.ip_addr a /\
    (NodeAddr.ports a' = [] <-> NodeAddr.ports a = []).
Proof.
  unfold keeps_addr, node_addr_opt, addr_of. intros Hk Ha. rewrite Ha in Hk.
  specialize (Hk _ eq_refl). destruct (md_node_addr_opt (metadata r')) as [a'|]; [|done].
  injection Hk as Hip Hps. exists a'. split_and!; [done | exact Hip |].
  rewrite <- (NodeAddr.ports_clone_nil a'), <- (NodeAddr.ports_clone_nil a).
  unfold NodeAddr.clone, NodeAddr.new. simpl. by rewrite Hps.
Qed.

Lemma keeps_addr_of r r' : addr_of r' = addr_of r -> keeps_addr r r'.
Proof. unfold keeps_addr, node_addr_opt, addr_of. by intros ->. Qed.

(** Replacing a record keeps the invariant if its key and, once known, its address stay. *)
Lemma wf_put db k r r' :
  wf db -> node_by_key db k = Some r -> nr_key r' = k ->
  keeps_addr r r' ->
  (k = this_node db -> nr_accepts_connections r' = true -> exists a, addr_of r' = Some a) ->
  (k = this_node db -> forall n, n ∈ nr_neighbors r' -> n <> k /\ reachable db n) ->
  wf (put_node k r' db).
Proof.
  intros [Hk Hr Hra Hi Hn] Hkr Hk' Ha Hacc Hnew.
  assert (Hreach : forall n, reachable db n -> reachable (put_node k r' db) n).
  { intros n (q & a & Hq & Hqa & Hp). unfold reachable. rewrite node_by_key_put.
    case_bool_decide as Hb; [|by exists q, a]. rewrite <- Hb, Hkr in Hq. injection Hq as <-.
    destruct (keeps_addr_same r r' a Ha Hqa) as (a' & Ha' & _ & Hp'). exists r', a'. naive_solver. }
  split.
  - intros k0 r0. rewrite node_by_key_put. case_bool_decide; [|by apply Hk]. intros [= <-]. congruence.
  - rewrite node_by_key_put. case_bool_decide; eauto.
  - intros rt. rewrite node_by_key_put. case_bool_decide; [|by apply Hra].
    intros [= <-]. by apply Hacc.
  - intros i k0 H0. simpl in H0. destruct (Hi _ _ H0) as (q & a & Hq & Hqa & Hip & Hport).
    rewrite node_by_key_put. case_bool_decide as Hb; [|by exists q, a].
    rewrite <- Hb, Hkr in Hq. injection Hq as <-.
    destruct (keeps_addr_same r r' a Ha Hqa) as (a' & Ha' & Hip' & Hp'). exists r', a'. naive_solver.
  - intros rt n. rewrite node_by_key_put. simpl. case_bool_decide as Hb.
    + intros [= <-] Hin. destruct (Hnew Hb n Hin). split; [congruence|auto].
    + intros Hrt Hin. destruct (Hn rt n Hrt Hin). auto.
Qed.

(** Adding a record of a new Node keeps it. *)
Lemma wf_add db r :
  wf db -> nr_key r ∉ keys db -> (forall a, addr_of r = Some a -> NodeAddr.ports a <> []) ->
  wf (add_arbitrary_node db r).
Proof.
  intros [Hk Hr Hra Hi Hn] Hnew Hports.
  assert (Hne : forall n q, node_by_key db n = Some q -> nr_key r <> n).
  { intros n q Hq <-. apply Hnew, elem_of_keys. eauto. }
  assert (Hkeep : forall n q, node_by_key db n = Some q ->
    node_by_key (add_arbitrary_node db r) n = Some q).
  { intros n q Hq. rewrite node_by_key_add, bool_decide_false; eauto. }
  split.
  - intros k q. rewrite node_by_key_add. case_bool_decide; [by intros [= <-]|apply Hk].
  - destruct Hr as [rt Hrt]. exists rt. by apply Hkeep.
  - intros rt Hrt. apply Hra. destruct Hr as [rt' Hrt'].
    simpl in Hrt. rewrite (Hkeep _ _ Hrt') in Hrt. congruence.
  - intros i k. simpl. intros Hik.
    assert (Hold : by_ip_addr db !! i = Some k ->
      exists q a, node_by_key (add_arbitrary_node db r) k = Some q /\ addr_of q = Some a /\
        NodeAddr.ip_addr a = i /\ (k <> this_node db -> NodeAddr.ports a <> [])).
    { intros (q & a & Hq & Hrest)%Hi. exists q, a. split; [by apply Hkeep | done]. }
    unfold node_addr_opt in Hik. destruct (md_node_addr_opt (metadata r)) as [a|] eqn:Ea;
      simpl in Hik; [|by apply Hold].
    destruct (decide (NodeAddr.ip_addr a = i)) as [<-|Hne']; simplify_map_eq; [|by apply Hold].
    exists r, a. rewrite node_by_key_add, bool_decide_true by done. split_and!; [done..|].
    intros _. by apply Hports.
  - intros rt n Hrt Hin. destruct Hr as [rt' Hrt']. simpl in *. rewrite (Hkeep _ _ Hrt') in Hrt.
    injection Hrt as ->. destruct (Hn _ _ Hrt' Hin) as [? (q & a & Hq & Hrest)]. split; [done|].
    exists q, a. split; [by apply Hkeep|done].
Qed.

(** ** Operations under the invariant *)
Lemma keys_put db k r r' : node_by_key db k = Some r -> keys (put_node k r' db) = keys db.
Proof.
  intros Hk. unfold keys. simpl. rewrite dom_insert_L.
  assert (k ∈ dom (by_public_key db)) by (apply elem_of_dom; by exists r). set_solver.
Qed.

Lemma add_node_fresh db r :
  nr_key r ∉ keys db -> (forall a, addr_of r = Some a -> NodeAddr.ports a <> []) ->
  add_node db r = (add_arbitrary_node db r, Ok (nr_key r)).
Proof.
  intros Hk Hp. unfold add_node, check_for_ports, check_for_collision, node_addr_opt.
  unfold addr_of in Hp. destruct (md_node_addr_opt (metadata r)) as [a|]; simpl.
  - rewrite bool_decide_false by (intros Hnil; apply (Hp a eq_refl), (NodeAddr.ports_clone_nil a), Hnil).
    by rewrite bool_decide_false.
  - by rewrite bool_decide_false.
Qed.

(** A Node that can be sent to becomes the local Node's half neighbor, once. *)
Lemma add_half_neighbor_ok db k rt :
  wf db -> reachable db k -> k <> this_node db -> node_by_key db (this_node db) = Some rt ->
  add_half_neighbor db k =
    if has_half_neighbor rt k then (db, Ok false)
    else (put_node (this_node db) (with_inner (set_neighbors ({[k]} ∪ nr_neighbors rt)) rt) db, Ok true).
Proof.
  intros Hwf (r & a & Hr & _) Hne Hrt. unfold add_half_neighbor.
  rewrite bool_decide_false by (rewrite elem_of_keys; eauto).
  unfold db_has_half_neighbor. rewrite Hrt. destruct (has_half_neighbor rt k); [done|].
  unfold add_half_neighbor_key. rewrite (wf_keys _ Hwf _ _ Hrt). by rewrite bool_decide_false.
Qed.

Lemma wf_add_half_neighbor db k rt :
  wf db -> reachable db k -> k <> this_node db -> node_by_key db (this_node db) = Some rt ->
  wf (put_node (this_node db) (with_inner (set_neighbors ({[k]} ∪ nr_neighbors rt)) rt) db).
Proof.
  intros Hwf Hreach Hne Hrt. eapply wf_put; [done | done | exact (wf_keys _ Hwf _ _ Hrt) | by apply keeps_addr_of | |].
  - intros _. exact (wf_root_addr _ Hwf _ Hrt).
  - intros _ n. change (nr_neighbors (with_inner _ _)) with ({[k]} ∪ nr_neighbors rt).
    intros [->%elem_of_singleton | Hin]%elem_of_union; [done|]. by apply (wf_neighbors _ Hwf rt).
Qed.

(** The root record's own fields that the invariant speaks of are its key, address, neighbors
    and whether it accepts connections. *)
Lemma wf_put_root db rt rt' :
  wf db -> node_by_key db (this_node db) = Some rt -> nr_key rt' = nr_key rt ->
  addr_of rt' = addr_of rt -> nr_accepts_connections rt' = nr_accepts_connections rt ->
  nr_neighbors rt' ⊆ nr_neighbors rt -> wf (put_node (this_node db) rt' db).
Proof.
  intros Hwf Hrt Hk Ha Hacc Hn. eapply wf_put; [done | done | | | |].
  - rewrite Hk. by apply (wf_keys _ Hwf).
  - by apply keeps_addr_of.
  - intros _. rewrite Hacc, Ha. by apply (wf_root_addr _ Hwf).
  - intros _ n Hin. apply (wf_neighbors _ Hwf rt n Hrt). set_solver.
Qed.

Lemma put_put k r r' db : put_node k r' (put_node k r db) = put_node k r' db.
Proof. unfold put_node. simpl. by rewrite insert_insert_eq. Qed.

Section regenerate.
Context `{!Serde NodeRecordInner} (cryptde : CryptDE).

(** The Node can serialise and sign what it says about itself. *)
Definition can_sign : Prop :=
  forall i : NodeRecordInner, exists v s, to_vec i = Some v /\ sign cryptde (mkPlainData v) = Ok s.

(** [r] carries a current signature of its contents. *)
Definition freshly_signed (r : NodeRecord) : Prop :=
  exists v, to_vec (inner r) = Some v /\ signed_gossip r = mkPlainData v /\
    sign cryptde (mkPlainData v) = Ok (signature r).

Lemma regenerate_ok r : can_sign ->
  exists r', regenerate_signed_gossip r cryptde = Ret r' /\ inner r' = inner r /\
    metadata r' = metadata r /\ freshly_signed r'.
Proof.
  intros Hs. destruct (Hs (inner r)) as (v & s & Hv & Hsig).
  unfold regenerate_signed_gossip, regenerate. rewrite Hv. simpl. rewrite Hsig. simpl.
  eexists. split_and!; [done..|]. exists v. done.
Qed.

(** [root_mut().increment_version(); root_mut().regenerate_signed_gossip(cryptde)] *)
Definition touch_root (db : NeighborhoodDatabase) : outcome NeighborhoodDatabase :=
  let* rt := root db in
  let* rt' := regenerate_signed_gossip (increment_version rt) cryptde in
  Ret (put_node (this_node db) rt' db).

Lemma touch_root_ok db : can_sign -> wf db ->
  exists rt rt', node_by_key db (this_node db) = Some rt /\
    touch_root db = Ret (put_node (this_node db) rt' db) /\
    wf (put_node (this_node db) rt' db) /\ freshly_signed rt' /\
    inner rt' = set_inner_version (wrap 32 (nr_version rt + 1)) (inner rt) /\
    metadata rt' = metadata rt.
Proof.
  intros Hs Hwf. destruct (wf_root _ Hwf) as [rt Hrt].
  destruct (regenerate_ok (increment_version rt) Hs) as (rt' & Hrg & Hi & Hm & Hf).
  exists rt, rt'. unfold touch_root. rewrite (proj2 (root_ret _ _) Hrt). cbn [obind]. rewrite Hrg.
  split_and!; [done..| |done|done|done].
  eapply wf_put_root; [done | exact Hrt | | | |];
    unfold nr_key, addr_of, nr_accepts_connections, nr_neighbors; by rewrite ?Hi, ?Hm.
Qed.
End regenerate.

(** *** Removing a neighbor *)
Lemma remove_neighbor_eq db k r rt :
  wf db -> k <> this_node db -> node_by_key db k = Some r ->
  node_by_key db (this_node db) = Some rt ->
  remove_neighbor db k =
    let db1 := put_node k (unset_node_addr r) db in
    let index := match addr_of r with
                 | Some a => delete (NodeAddr.ip_addr a) (by_ip_addr db)
                 | None => by_ip_addr db
                 end in
    let rt' := with_inner (set_neighbors (nr_neighbors rt ∖ {[k]})) rt in
    Ret (if bool_decide (k ∈ nr_neighbors rt)
         then (mkDatabase (this_node db)
                 (<[this_node db := increment_version rt']> (by_public_key db1)) index, Ok true)
         else (mkDatabase (this_node db) (<[this_node db := rt']> (by_public_key db1)) index, Ok false)).
Proof.
  intros Hwf Hne Hr Hrt. unfold remove_neighbor. rewrite Hr. cbv zeta.
  assert (Hroot : forall m, root (mkDatabase (this_node db) (by_public_key
    (put_node k (unset_node_addr r) db)) m) = Ret rt).
  { intros m. apply root_ret. unfold node_by_key. simpl. by rewrite lookup_insert_ne. }
  unfold node_addr_opt, addr_of. destruct (md_node_addr_opt (metadata r)) as [a|];
    cbn [fmap option_fmap option_map]; unfold put_node at 1; cbn [this_node by_public_key by_ip_addr];
    rewrite Hroot; cbn [obind remove_half_neighbor_key];
    destruct (bool_decide _); try done;
    unfold put_node, root, node_by_key, expect; simpl; rewrite lookup_insert_eq; simpl;
    by rewrite insert_insert_eq.
Qed.

Lemma wf_removed db k r rt rt' index :
  wf db -> k <> this_node db -> node_by_key db k = Some r ->
  node_by_key db (this_node db) = Some rt ->
  nr_key rt' = this_node db -> addr_of rt' = addr_of rt ->
  nr_accepts_connections rt' = nr_accepts_connections rt ->
  nr_neighbors rt' = nr_neighbors rt ∖ {[k]} ->
  (forall i k', index !! i = Some k' -> by_ip_addr db !! i = Some k' /\ k' <> k) ->
  wf (mkDatabase (this_node db)
        (<[this_node db := rt']> (<[k := unset_node_addr r]> (by_public_key db))) index).
Proof.
  intros [Hk Hr Hra Hi Hn] Hne Hkr Hrt Hk' Ha Hacc Hns Hix.
  set (db' := mkDatabase _ _ _).
  assert (Hroot' : node_by_key db' (this_node db) = Some rt')
    by (unfold node_by_key; simpl; by simplify_map_eq).
  assert (Hother : forall n, n <> this_node db -> n <> k -> node_by_key db' n = node_by_key db n)
    by (intros n ??; unfold node_by_key; simpl; by simplify_map_eq).
  assert (Hkk : node_by_key db' k = Some (unset_node_addr r))
    by (unfold node_by_key; simpl; by simplify_map_eq).
  split; simpl.
  - intros n q. destruct (decide (n = this_node db)) as [->|]; [rewrite Hroot'; by intros [= <-]|].
    destruct (decide (n = k)) as [->|]; [rewrite Hkk; intros [= <-]; exact (Hk _ _ Hkr)|].
    rewrite Hother by done. apply Hk.
  - eauto.
  - intros q. rewrite Hroot'. intros [= <-]. rewrite Hacc, Ha. by apply Hra.
  - intros i n [Hin Hnk]%Hix. destruct (Hi _ _ Hin) as (q & a & Hq & Hqa & Hrest).
    destruct (decide (n = this_node db)) as [->|].
    + exists rt', a. rewrite Hrt in Hq. injection Hq as <-. by rewrite Ha.
    + exists q, a. by rewrite Hother.
  - intros q n. rewrite Hroot'. intros [= <-]. rewrite Hns. intros [Hin Hnk]%elem_of_difference.
    rewrite elem_of_singleton in Hnk.
    destruct (Hn rt n Hrt Hin) as [Hnt (p & a & Hp & Hrest)]. split; [done|].
    exists p, a. by rewrite Hother.
Qed.

Lemma remove_neighbor_ok (db : NeighborhoodDatabase) (k : PublicKey) (r rt : NodeRecord) :
  wf db -> k <> this_node db -> node_by_key db k = Some r ->
  node_by_key db (this_node db) = Some rt ->
  exists db' rt', remove_neighbor db k = Ret (db', Ok (has_half_neighbor rt k)) /\
    wf db' /\ this_node db' = this_node db /\ keys db' = keys db /\
    node_by_key db' k = Some (unset_node_addr r) /\
    (forall a, addr_of r = Some a -> node_by_ip db' (NodeAddr.ip_addr a) = None) /\
    node_by_key db' (this_node db) = Some rt' /\
    nr_neighbors rt' = nr_neighbors rt ∖ {[k]} /\
    nr_version rt' = (if has_half_neighbor rt k then wrap 32 (nr_version rt + 1) else nr_version rt) /\
    forall k', k' <> k -> k' <> this_node db -> node_by_key db' k' = node_by_key db k'.
Proof.
  intros Hwf Hne Hr Hrt. rewrite (remove_neighbor_eq db k r rt) by done. cbv zeta.
  unfold has_half_neighbor. set (was := bool_decide (k ∈ nr_neighbors rt)).
  set (index := match addr_of r with Some a => _ | None => _ end).
  set (base := with_inner (set_neighbors (nr_neighbors rt ∖ {[k]})) rt).
  set (rt' := if was then increment_version base else base).
  set (db' := mkDatabase (this_node db)
    (<[this_node db := rt']> (<[k := unset_node_addr r]> (by_public_key db))) index).
  exists db', rt'.
  assert (Hix : forall i k', index !! i = Some k' -> by_ip_addr db !! i = Some k' /\ k' <> k).
  { intros i k' Hik. subst index. destruct (addr_of r) as [a|] eqn:Ea.
    - apply lookup_delete_Some in Hik as [Hia Hik]. split; [done|]. intros ->.
      destruct (wf_index _ Hwf _ _ Hik) as (q & b & Hq & Hqb & Hip & _). congruence.
    - split; [done|]. intros ->. destruct (wf_index _ Hwf _ _ Hik) as (q & b & Hq & Hqb & _).
      congruence. }
  split_and!.
  - unfold db', rt', base. by destruct was.
  - apply (wf_removed db k r rt rt' index); try done; unfold rt'; destruct was; try done;
      exact (wf_keys _ Hwf _ _ Hrt).
  - done.
  - unfold keys, db'. simpl. rewrite !dom_insert_L.
    assert (k ∈ dom (by_public_key db)) by (apply elem_of_dom; by exists r).
    assert (this_node db ∈ dom (by_public_key db)) by (apply elem_of_dom; by exists rt).
    set_solver.
  - unfold node_by_key; simpl; by simplify_map_eq.
  - intros a Ha. unfold node_by_ip. simpl. unfold index. rewrite Ha. by rewrite lookup_delete_eq.
  - unfold node_by_key; simpl; by simplify_map_eq.
  - unfold rt'; by destruct was.
  - unfold rt'; by destruct was.
  - intros k' ??. unfold node_by_key; simpl; by simplify_map_eq.
Qed.

(** A database with nothing but the local Node *)
Lemma wf_alone rt :
  nr_neighbors rt = ∅ -> (nr_accepts_connections rt = true -> exists a, addr_of rt = Some a) ->
  wf (add_arbitrary_node (mkDatabase (nr_key rt) ∅ ∅) rt).
Proof.
  intros Hn Hacc.
  assert (Hlook : forall k q,
    node_by_key (add_arbitrary_node (mkDatabase (nr_key rt) ∅ ∅) rt) k = Some q ->
    k = nr_key rt /\ q = rt).
  { intros k q. rewrite node_by_key_add. case_bool_decide; [intros [= <-]; auto|].
    unfold node_by_key. simpl. by rewrite lookup_empty. }
  assert (Hin : node_by_key (add_arbitrary_node (mkDatabase (nr_key rt) ∅ ∅) rt) (nr_key rt) = Some rt)
    by (rewrite node_by_key_add; by rewrite bool_decide_true).
  split; cbn [this_node add_arbitrary_node].
  - by intros k q [-> ->]%Hlook.
  - eauto.
  - by intros q [_ ->]%Hlook.
  - intros i k. rewrite index_add. cbn [by_ip_addr].
    destruct (addr_of rt) as [na|] eqn:Ea; [|by rewrite lookup_empty].
    rewrite lookup_insert_Some, lookup_empty. intros [[<- <-]|[_ ?]]; [|done].
    by exists rt, na.
  - intros q k [_ ->]%Hlook. by rewrite Hn.
Qed.

(** ** Properties *)

(** Removing a neighbor, other than the local Node itself, from a well-formed database never
    panics and forgets how to reach it: the database stays well-formed and keeps all its records;
    the removed Node's record stays but has no address, its IP address leads nowhere in the index,
    it is no half neighbor of the local Node any more, the result says whether it was one, and the
    local Node's version goes up exactly if it was; every other record is unchanged. *)
Theorem remove_neighbor_forgets (db : NeighborhoodDatabase) (k : PublicKey) (r rt : NodeRecord) :
  wf db -> k <> this_node db -> node_by_key db k = Some r ->
  node_by_key db (this_node db) = Some rt ->
  exists db' rt', remove_neighbor db k = Ret (db', Ok (has_half_neighbor rt k)) /\
    wf db' /\ this_node db' = this_node db /\ keys db' = keys db /\
    node_by_key db' k = Some (unset_node_addr r) /\
    (forall a, addr_of r = Some a -> node_by_ip db' (NodeAddr.ip_addr a) = None) /\
    node_by_key db' (this_node db) = Some rt' /\
    nr_neighbors rt' = nr_neighbors rt ∖ {[k]} /\
    nr_version rt' = (if has_half_neighbor rt k then wrap 32 (nr_version rt + 1) else nr_version rt) /\
    forall k', k' <> k -> k' <> this_node db -> node_by_key db' k' = node_by_key db k'.
Proof. apply remove_neighbor_ok. Qed.

(** The database a Node starts with, in any mode, is well-formed: it holds exactly the local
    Node, freshly signed at version 0, without neighbors, with the address its mode gives it (and
    found by that IP address). *)
Theorem database_new_wf `{!Serde NodeRecordInner} (pk : PublicKey)
    (mode : NeighborhoodMode.NeighborhoodMode) (w : Wallet) (cryptde : CryptDE) :
  can_sign cryptde ->
  exists db rt, database_new pk mode w cryptde = Ret db /\ wf db /\ this_node db = pk /\
    by_public_key db = {[pk := rt]} /\ freshly_signed cryptde rt /\
    nr_version rt = 0 /\ nr_neighbors rt = ∅ /\ nr_rate_pack rt = NeighborhoodMode.rate_pack mode /\ nr_earning_wallet rt = w /\
    addr_of rt = NodeAddr.clone <$> NeighborhoodMode.node_addr_opt mode /\
    nr_accepts_connections rt = NeighborhoodMode.accepts_connections mode /\
    forall na, NeighborhoodMode.node_addr_opt mode = Some na ->
      node_by_ip db (NodeAddr.ip_addr na) = Some rt.
Proof.
  intros Hs. unfold database_new, record_new.
  match goal with |- context [regenerate_signed_gossip ?r cryptde] =>
    destruct (regenerate_ok cryptde r Hs) as (r1 & H1 & Hi1 & Hm1 & _) end.
  rewrite H1. cbn [obind]. clear H1.
  set (o := NeighborhoodMode.node_addr_opt mode).
  assert (exists r2, match o with
      | Some na => let (r', res) := set_node_addr r1 na in let* _ := expect_ok res in Ret r'
      | None => Ret r1 end = Ret r2 /\ inner r2 = inner r1 /\ addr_of r2 = NodeAddr.clone <$> o)
    as (r2 & H2 & Hi2 & Ha2).
  { unfold set_node_addr. rewrite Hm1. destruct o; simpl; eexists; (split; [done|]);
      unfold addr_of; by rewrite ?Hm1. }
  rewrite H2. cbn [obind].
  destruct (regenerate_ok cryptde r2 Hs) as (rt & H3 & Hi3 & Hm3 & Hf). rewrite H3. cbn [obind].
  rewrite Hi2, Hi1 in Hi3.
  assert (Hk : nr_key rt = pk) by (unfold nr_key; by rewrite Hi3).
  assert (Ha : addr_of rt = NodeAddr.clone <$> o) by (unfold addr_of in *; by rewrite Hm3).
  assert (Hn : nr_neighbors rt = ∅) by (unfold nr_neighbors; by rewrite Hi3).
  assert (Hin : node_by_key (add_arbitrary_node (mkDatabase pk ∅ ∅) rt) pk = Some rt)
    by (rewrite node_by_key_add, Hk; by rewrite bool_decide_true).
  eexists _, rt. split; [reflexivity|]. split_and!; try done.
  - rewrite <- Hk. apply wf_alone; [done|]. rewrite Ha. unfold nr_accepts_connections.
    rewrite Hi3. unfold o. destruct mode; simpl; eauto; done.
  - simpl. by rewrite Hk.
  - unfold nr_version. by rewrite Hi3.
  - unfold nr_rate_pack. by rewrite Hi3.
  - unfold nr_earning_wallet. by rewrite Hi3.
  - unfold nr_accepts_connections. by rewrite Hi3.
  - intros na Hna. unfold node_by_ip. simpl. unfold node_addr_opt. fold (addr_of rt).
    rewrite Ha. rewrite Hna. simpl. rewrite lookup_insert_eq, Hk. exact Hin.
Qed.

(** *** A concrete database for evaluation *)
Definition toy_cryptde (k : PublicKey) : CryptDE :=
  CryptDENull.as_cryptde (fun _ => [0]) (fun _ => []) (fun _ => None)
    (CryptDENull.from (fun b => b) [1] k [1]).

Lemma toy_can_sign k : key_data k <> [] -> @can_sign (countable_serde NodeRecordInner) (toy_cryptde k).
Proof.
  intros Hk i. simpl. eexists _, _. split; [done|].
  unfold CryptDENull.null_sign, CryptDENull.encode_with_key_data. simpl.
  rewrite bool_decide_false by (rewrite CryptDENull.other_nil; done). done.
Qed.

Definition toy_inner (k : PublicKey) (ns : list PublicKey) (v : Z) : NodeRecordInner :=
  mkInner inner_data_version k (mkWallet (Address [1])) DEFAULT_RATE_PACK (list_to_set ns) true true v.

Definition toy_addr (n : Z) : NodeAddr.NodeAddr := NodeAddr.mk (V4 1 2 3 n) [1234].

Definition toy_record (k : PublicKey) (ns : list PublicKey) (v n : Z) : NodeRecord :=
  mkNodeRecord (toy_inner k ns v) (mkMetadata true (Some (toy_addr n))) (mkPlainData []) (mkCryptData []).

(** Node A, which knows of no other, and Node A with its neighbor B *)
Definition toy_alone : NeighborhoodDatabase :=
  add_arbitrary_node (mkDatabase key_a ∅ ∅) (toy_record key_a [] 0 1).
Definition toy_pair_root : NodeRecord :=
  with_inner (set_neighbors ({[key_b]} ∪ ∅)) (toy_record key_a [] 0 1).
Definition toy_pair : NeighborhoodDatabase :=
  put_node key_a toy_pair_root (add_arbitrary_node toy_alone (toy_record key_b [key_a] 0 2)).

Lemma toy_alone_wf : wf toy_alone.
Proof. apply (wf_alone (toy_record key_a [] 0 1)); [done|]. simpl. eauto. Qed.

Lemma toy_pair_wf : wf toy_pair.
Proof.
  apply (wf_add_half_neighbor (add_arbitrary_node toy_alone (toy_record key_b [key_a] 0 2)) key_b
    (toy_record key_a [] 0 1)); [| |done|done].
  - apply wf_add; [apply toy_alone_wf | | by intros a [= <-]].
    rewrite elem_of_keys. intros (r & Hr). by vm_compute in Hr.
  - exists (toy_record key_b [key_a] 0 2), (toy_addr 2). done.
Qed.

Lemma remove_neighbor_forgets_witness :
  exists db', remove_neighbor toy_pair key_b = Ret (db', Ok true) /\ node_by_ip db' (V4 1 2 3 2) = None.
Proof.
  destruct (remove_neighbor_forgets toy_pair key_b (toy_record key_b [key_a] 0 2) toy_pair_root
    toy_pair_wf) as (db' & rt' & H & _ & _ & _ & _ & Hip & _); [done..|].
  exists db'. split; [exact H | exact (Hip (toy_addr 2) eq_refl)].
Defined.

Lemma database_new_wf_witness :
  exists db, @database_new (countable_serde NodeRecordInner) key_a
    (NeighborhoodMode.Standard (toy_addr 1) [] DEFAULT_RATE_PACK) (mkWallet (Address [1]))
    (toy_cryptde key_a) = Ret db /\ wf db.
Proof.
  destruct (@database_new_wf (countable_serde NodeRecordInner) key_a
    (NeighborhoodMode.Standard (toy_addr 1) [] DEFAULT_RATE_PACK) (mkWallet (Address [1]))
    (toy_cryptde key_a) (toy_can_sign key_a ltac:(done))) as (db & rt & H & Hwf & _).
  exists db. split; [exact H | exact Hwf].
Defined.
