(* ===== verification/Gossip.v ===== *)
(** * Gossip: what a Node tells others of its database

    [GossipNodeRecord], [GossipBuilder] (neighborhood/gossip.rs) and [GossipProducerReal]
    (neighborhood/gossip_producer.rs). *)
From S2P Require Import Prelude Text SubLib Cryptde Wallet Route SequenceBuffer Messages Database.

Definition gossip_new (records : list GossipNodeRecord) : Gossip := mkGossip VERSION_0_0 records.

(** [From<NodeRecord>]; every caller clones the record first. *)
Definition gnr_from_record (r : NodeRecord) : GossipNodeRecord :=
  mkGossipNodeRecord (signed_gossip r) (signature r) (node_addr_opt r).

Definition gnr_from_agr (a : AccessibleGossipRecord) : GossipNodeRecord :=
  mkGossipNodeRecord (agr_signed_gossip a) (agr_signature a) (agr_node_addr_opt a).

Definition without_addr (g : GossipNodeRecord) : GossipNodeRecord :=
  mkGossipNodeRecord (signed_data g) (gnr_signature g) None.

(** [From<(&NeighborhoodDatabase, &PublicKey, bool)>] *)
Definition gnr_from_triple (db : NeighborhoodDatabase) (k : PublicKey) (reveal : bool)
  : outcome GossipNodeRecord :=
  let* r := expect (node_by_key db k) in
  let gnr := gnr_from_record r in
  Ret (if negb reveal then without_addr gnr else gnr).

(** [From<(NodeRecordInner, Option<NodeAddr>, &dyn CryptDE)>] *)
Definition gnr_from_inner `{!Serde NodeRecordInner} (i : NodeRecordInner)
    (na : option NodeAddr.NodeAddr) (cryptde : CryptDE) : outcome GossipNodeRecord :=
  let* v := expect (to_vec i) in
  let* s := expect_ok (sign cryptde (mkPlainData v)) in
  Ret (mkGossipNodeRecord (mkPlainData v) s na).

(** [TryInto<Vec<AccessibleGossipRecord>> for Gossip]: all or the first failure *)
Definition gossip_try_into `{!Serde NodeRecordInner} (g : Gossip) : option (list AccessibleGossipRecord) :=
  mapM agr_try_from (node_records g).

(** ** GossipBuilder *)
Record GossipBuilder := mkBuilder { built : Gossip; keys_so_far : gset PublicKey }.

Definition builder_new : GossipBuilder := mkBuilder (gossip_new []) ∅.

Definition builder_node (db : NeighborhoodDatabase) (self : GossipBuilder) (k : PublicKey)
    (reveal_node_addr : bool) : outcome GossipBuilder :=
  if bool_decide (k ∈ keys_so_far self) then Panic
  else
    match node_by_key db k with
    | None => Panic
    | Some r =>
        let gnr := gnr_from_record r in
        let gnr := if negb reveal_node_addr || negb (nr_accepts_connections r)
                   then without_addr gnr else gnr in
        Ret (mkBuilder (mkGossip (gossip_version (built self)) (node_records (built self) ++ [gnr]))
               ({[nr_key r]} ∪ keys_so_far self))
    end.

(** ** GossipProducerReal *)
Section producer.
Context `{!HashOrder}.

(** The closure given to [fold] *)
Definition produce_step (db : NeighborhoodDatabase) (target_node : NodeRecord)
    (so_far : GossipBuilder) (r : NodeRecord) : outcome GossipBuilder :=
  let* reveal :=
    if nr_accepts_connections r then
      let* rt := root db in
      Ret (bool_decide (nr_key r = nr_key rt) || has_half_neighbor target_node (nr_key r))
    else Ret false in
  builder_node db so_far (nr_key r) reveal.

Definition produce (db : NeighborhoodDatabase) (target : PublicKey) : outcome Gossip :=
  let* target_node := expect (node_by_key db target) in
  let records := omap (node_by_key db)
                   (filter (fun k => k <> target) (hash_iter [target] (keys db))) in
  let* b := ofold (produce_step db target_node) builder_new records in
  Ret (built b).

Definition produce_debut (db : NeighborhoodDatabase) : outcome Gossip :=
  let* rt := root db in
  let* b := builder_node db builder_new (nr_key rt) true in
  Ret (built b).
End producer.

(** What is said of a record: itself, with its address when it is revealed and it accepts
    connections *)
Definition said_of (reveal : bool) (r : NodeRecord) : GossipNodeRecord :=
  let gnr := gnr_from_record r in
  if reveal && nr_accepts_connections r then gnr else without_addr gnr.

Lemma builder_node_ok db b k r reveal :
  node_by_key db k = Some r -> nr_key r = k -> k ∉ keys_so_far b ->
  builder_node db b k reveal =
    Ret (mkBuilder (mkGossip (gossip_version (built b)) (node_records (built b) ++ [said_of reveal r]))
           ({[k]} ∪ keys_so_far b)).
Proof.
  intros Hk Hkey Hn. unfold builder_node. rewrite bool_decide_false by done. rewrite Hk, Hkey.
  unfold said_of. by destruct reveal, (nr_accepts_connections r).
Qed.

(** Is the address of [r] told to [target_node]? *)
Definition reveals (db : NeighborhoodDatabase) (target_node r : NodeRecord) : bool :=
  bool_decide (nr_key r = this_node db) || has_half_neighbor target_node (nr_key r).

Lemma produce_step_ok db target_node b r :
  wf db -> node_by_key db (nr_key r) = Some r -> nr_key r ∉ keys_so_far b ->
  produce_step db target_node b r =
    Ret (mkBuilder (mkGossip (gossip_version (built b))
                      (node_records (built b) ++ [said_of (reveals db target_node r) r]))
           ({[nr_key r]} ∪ keys_so_far b)).
Proof.
  intros Hwf Hk Hn. unfold produce_step. destruct (wf_root _ Hwf) as [rt Hrt].
  rewrite (proj2 (root_ret _ _) Hrt). cbn [obind]. rewrite (wf_keys _ Hwf _ _ Hrt).
  destruct (nr_accepts_connections r) eqn:Ea; cbn [obind]; erewrite builder_node_ok by done.
  - done.
  - unfold said_of. by rewrite Ea, !andb_false_r.
Qed.

Lemma produce_fold_ok db target_node rs : forall b,
  wf db -> Forall (fun r => node_by_key db (nr_key r) = Some r) rs ->
  NoDup (map nr_key rs) -> (forall r, r ∈ rs -> nr_key r ∉ keys_so_far b) ->
  exists b', ofold (produce_step db target_node) b rs = Ret b' /\
    built b' = mkGossip (gossip_version (built b))
      (node_records (built b) ++ map (fun r => said_of (reveals db target_node r) r) rs).
Proof.
  induction rs as [|r rs IH]; intros b Hwf Hall Hnd Hfresh; simpl.
  - exists b. rewrite app_nil_r. split; [done|]. by destruct (built b).
  - apply Forall_cons in Hall as [Hr Hall]. apply NoDup_cons in Hnd as [Hnin Hnd].
    rewrite produce_step_ok; [|done|done|apply Hfresh; set_solver]. cbn [obind].
    destruct (IH (mkBuilder (mkGossip (gossip_version (built b))
      (node_records (built b) ++ [said_of (reveals db target_node r) r]))
      ({[nr_key r]} ∪ keys_so_far b))) as (b' & Hb' & Hbuilt); [done..| |].
    { simpl. intros q Hq. rewrite not_elem_of_union, not_elem_of_singleton. split; [|apply Hfresh; set_solver].
      intros Heq. apply Hnin. rewrite <- Heq. by apply (list_elem_of_fmap_2 nr_key). }
    exists b'. rewrite Hb', Hbuilt. simpl. rewrite <- app_assoc. done.
Qed.

(** The records that are told to [target]: all but its own *)
Definition told `{!HashOrder} (db : NeighborhoodDatabase) (target : PublicKey) : list NodeRecord :=
  omap (node_by_key db) (filter (fun k => k <> target) (hash_iter [target] (keys db))).

Lemma elem_of_told `{!HashOrder} db target r : wf db ->
  r ∈ told db target <-> node_by_key db (nr_key r) = Some r /\ nr_key r <> target.
Proof.
  intros Hwf. unfold told. rewrite list_elem_of_omap. split.
  - intros (k & [Hne Hk]%list_elem_of_filter & Hr). rewrite (wf_keys _ Hwf _ _ Hr). done.
  - intros [Hr Hne]. exists (nr_key r). split; [|done]. apply list_elem_of_filter. split; [done|].
    apply elem_of_hash_iter, elem_of_keys. eauto.
Qed.

Lemma told_keys_NoDup `{!HashOrder} db target : wf db -> NoDup (map nr_key (told db target)).
Proof.
  intros Hwf. unfold told.
  assert (Hnd : NoDup (filter (fun k => k <> target) (hash_iter [target] (keys db))))
    by apply NoDup_filter, NoDup_hash_iter.
  assert (Hsub : forall ks, map nr_key (omap (node_by_key db) ks) `sublist_of` ks).
  { induction ks as [|k ks IH]; simpl; [done|].
    destruct (node_by_key db k) as [r|] eqn:Er; simpl.
    - rewrite (wf_keys _ Hwf _ _ Er). by constructor.
    - by constructor. }
  eapply sublist_NoDup; [done|apply Hsub].
Qed.

Lemma produce_debut_ok db rt :
  wf db -> node_by_key db (this_node db) = Some rt ->
  produce_debut db = Ret (gossip_new [said_of true rt]).
Proof.
  intros Hwf Hrt. unfold produce_debut. rewrite (proj2 (root_ret _ _) Hrt). cbn [obind].
  rewrite (wf_keys _ Hwf _ _ Hrt). erewrite builder_node_ok; [done | done | | set_solver].
  exact (wf_keys _ Hwf _ _ Hrt).
Qed.

Lemma produce_ok `{!HashOrder} db target tn :
  wf db -> node_by_key db target = Some tn ->
  produce db target = Ret (gossip_new (map (fun r => said_of (reveals db tn r) r) (told db target))).
Proof.
  intros Hwf Htn. unfold produce. rewrite Htn. cbn [expect obind]. fold (told db target).
  destruct (produce_fold_ok db tn (told db target) builder_new Hwf) as (b' & Hb & Hbuilt).
  - rewrite Forall_forall. intros r. rewrite elem_of_told by done. tauto.
  - by apply told_keys_NoDup.
  - set_solver.
  - rewrite Hb. cbn [obind]. by rewrite Hbuilt.
Qed.

(** ** Properties *)

(** C23: Gossip for a target Node of a well-formed database can always be produced. It speaks of
    every Node of the database but the target, each exactly once, with the Node's own signed data
    and signature; and it gives away an address only of Nodes that accept connections and that are
    the local Node or a half neighbor of the target, of those always. *)
Theorem gossip_tells_all_masks_strangers `{!HashOrder} (db : NeighborhoodDatabase)
    (target : PublicKey) (tn : NodeRecord) :
  wf db -> node_by_key db target = Some tn ->
  exists rs, produce db target = Ret (gossip_new (map (fun r => said_of (reveals db tn r) r) rs)) /\
    NoDup (map nr_key rs) /\
    (forall k r, node_by_key db k = Some r -> k <> target <-> r ∈ rs) /\
    (forall r, r ∈ rs -> node_by_key db (nr_key r) = Some r /\
      signed_data (said_of (reveals db tn r) r) = signed_gossip r /\
      gnr_signature (said_of (reveals db tn r) r) = signature r /\
      gnr_node_addr_opt (said_of (reveals db tn r) r) =
        if nr_accepts_connections r &&
           (bool_decide (nr_key r = this_node db) || bool_decide (nr_key r ∈ nr_neighbors tn))
        then node_addr_opt r else None).
Proof.
  intros Hwf Htn. exists (told db target).
  split_and!; [by apply produce_ok | by apply told_keys_NoDup | |].
  - intros k r Hr. rewrite elem_of_told by done. rewrite (wf_keys _ Hwf _ _ Hr). tauto.
  - intros r [Hr _]%elem_of_told; [|done]. split; [done|].
    unfold said_of, reveals, has_half_neighbor. rewrite (andb_comm (nr_accepts_connections r)).
    by destruct (_ && _).
Qed.

Lemma gossip_tells_all_masks_strangers_witness :
  exists rs, @produce elements_order toy_pair key_b
    = Ret (gossip_new (map (fun r => said_of (reveals toy_pair (toy_record key_b [key_a] 0 2) r) r) rs)) /\
    toy_pair_root ∈ rs.
Proof.
  destruct (@gossip_tells_all_masks_strangers elements_order toy_pair key_b
    (toy_record key_b [key_a] 0 2) toy_pair_wf eq_refl) as (rs & Hp & _ & Hall & _).
  exists rs. split; [exact Hp|]. by apply (Hall key_a).
Defined.
