(* ===== verification/GossipAcceptor.v ===== *)
(** * GossipAcceptor: what a Node does with the Gossip it receives

    neighborhood/gossip_acceptor.rs: the five handlers, tried in order, and the acceptor that
    delegates to the first that does not pass. A handler that takes the database by [&mut]
    returns it; [format!]ted reasons for a ban are constructors of [ban_reason] with the values
    that are formatted. *)
From S2P Require Import Prelude Text SubLib Cryptde Wallet Route SequenceBuffer Messages Database Gossip.

Definition MAX_DEGREE : nat := 5.

Inductive ban_reason :=
| DebutNoNodeAddr (source : SocketAddr) (k : PublicKey)
| DebutNoPorts (source : SocketAddr) (k : PublicKey)
| DebutUnexpectedNodeAddr (source : SocketAddr) (k : PublicKey)
| PassNoNodeAddr (source : SocketAddr) (k : PublicKey)
| PassNoPorts (source : SocketAddr) (k : PublicKey) (i : IpAddr)
| IntroductionNeitherClaimsSource (k1 : PublicKey) (i1 : IpAddr) (k2 : PublicKey) (i2 : IpAddr) (i : IpAddr)
| IntroducerClaimsLocalKey (k : PublicKey)
| IntroducerNoPorts (k : PublicKey) (i : IpAddr)
| IntroducerClaimsLocalIp (k : PublicKey)
| IntroduceeNoPorts (introducer introducee : PublicKey) (i : IpAddr)
| IntroduceeClaimsSource (introducer introducee : PublicKey) (i : IpAddr)
| IntroducerChangedImmutable (k : PublicKey) (e : update_error)
| StandardClaimsLocalIp (source : SocketAddr) (impostor : PublicKey)
| StandardClaimsLocalKey (source : SocketAddr)
| StandardDuplicateIp (source : SocketAddr) (i : IpAddr)
| Unclassifiable (records : nat) (source : SocketAddr).

Inductive GossipAcceptanceResult :=
| Accepted
| Reply (g : Gossip) (k : PublicKey) (na : NodeAddr.NodeAddr)
| Ignored
| Ban (reason : ban_reason).

Inductive Qualification :=
| Matched
| Unmatched
| Malformed (reason : ban_reason).

(** Order by degree, the first component *)
Definition degree_le (a b : nat * PublicKey) : Prop := (a.1 <= b.1)%nat.

#[global] Instance degree_le_dec : RelDecision degree_le.
Proof. intros a b. apply Nat.le_dec. Defined.
#[global] Instance degree_le_total : Total degree_le.
Proof. intros a b. unfold degree_le. lia. Qed.
#[global] Instance degree_le_trans : Transitive degree_le.
Proof. intros a b c. unfold degree_le. lia. Qed.

(** ** DebutHandler *)
Module DebutHandler.

Definition qualifies (db : NeighborhoodDatabase) (agrs : list AccessibleGossipRecord)
    (source : SocketAddr) : Qualification :=
  match agrs with
  | [agr] =>
      if bool_decide (is_Some (node_by_key db (agr_key agr))) then Unmatched
      else
        match agr_node_addr_opt agr with
        | None =>
            if ni_accepts_connections (agr_inner agr)
            then Malformed (DebutNoNodeAddr source (agr_key agr))
            else Matched
        | Some na =>
            if ni_accepts_connections (agr_inner agr) then
              if bool_decide (NodeAddr.ports na = []) then Malformed (DebutNoPorts source (agr_key agr))
              else if bool_decide (NodeAddr.ip_addr na = ip source) then Matched
              else Unmatched
            else Malformed (DebutUnexpectedNodeAddr source (agr_key agr))
        end
  | _ => Unmatched
  end.

Section debut.
Context `{!HashOrder} `{!Serde NodeRecordInner}.

Definition node_and_neighbor_keys (agr : AccessibleGossipRecord) : gset PublicKey :=
  {[agr_key agr]} ∪ ni_neighbors (agr_inner agr).

(** The comparator's degrees are computed up front; [sort_unstable_by] is a stable sort of
    some order of the set. *)
Definition keys_ordered_by_degree_excluding (salt : list PublicKey) (db : NeighborhoodDatabase)
    (ks excluding : gset PublicKey) : outcome (list PublicKey) :=
  let* ds := omapM (fun k => let* d := gossip_target_degree db k in Ret (d, k))
               (hash_iter salt (ks ∖ excluding)) in
  Ret (map snd (merge_sort degree_le ds)).

Definition root_full_neighbors_ordered_by_degree_excluding (db : NeighborhoodDatabase)
    (excluded : AccessibleGossipRecord) : outcome (list PublicKey) :=
  let* rt := root db in
  keys_ordered_by_degree_excluding [agr_key excluded] db (full_neighbor_keys rt db)
    (node_and_neighbor_keys excluded).

Definition find_least_connected_neighbor_excluding (ks : gset PublicKey)
    (db : NeighborhoodDatabase) (excluded : AccessibleGossipRecord) : outcome (option PublicKey) :=
  let* l := keys_ordered_by_degree_excluding [] db ks (node_and_neighbor_keys excluded) in
  Ret (head l).

Definition find_least_connected_half_neighbor_excluding (db : NeighborhoodDatabase)
    (excluded : AccessibleGossipRecord) : outcome (option PublicKey) :=
  let* rt := root db in
  find_least_connected_neighbor_excluding (nr_neighbors rt) db excluded.

Definition accepts (db : NeighborhoodDatabase) (k : PublicKey) : outcome bool :=
  let* r := expect (node_by_key db k) in Ret (nr_accepts_connections r).

Definition find_least_connected_full_neighbor_excluding (db : NeighborhoodDatabase)
    (excluded : AccessibleGossipRecord) : outcome (option PublicKey) :=
  let* rt := root db in
  let* ks := ofilter (accepts db) (elements (full_neighbor_keys rt db)) in
  find_least_connected_neighbor_excluding (list_to_set ks) db excluded.

Definition find_more_appropriate_neighbor (db : NeighborhoodDatabase)
    (excluded : AccessibleGossipRecord) : outcome (option PublicKey) :=
  let* neighbor_vec := root_full_neighbors_ordered_by_degree_excluding db excluded in
  let* accepting := ofilter (accepts db) neighbor_vec in
  let* qualified := oskip_while (fun k => let* d := gossip_target_degree db k in
                                          Ret (d <=? 2)%nat) accepting in
  match qualified with
  | [] => Ret None
  | k :: _ =>
      let* d := gossip_target_degree db k in
      let* rt := root db in
      let* d_root := gossip_target_degree db (nr_key rt) in
      Ret (if (d_root <=? d)%nat then None else Some k)
  end.

Definition should_not_make_introduction (agr : AccessibleGossipRecord) : bool :=
  negb (bool_decide (ni_neighbors (agr_inner agr) = ∅)).

Definition make_pass_gossip (db : NeighborhoodDatabase) (pass_target : PublicKey) : outcome Gossip :=
  let* b := builder_node db builder_new pass_target true in Ret (built b).

Definition make_introduction (db : NeighborhoodDatabase) (debuting : AccessibleGossipRecord)
    (source : SocketAddr) : outcome (option (Gossip * PublicKey * NodeAddr.NodeAddr)) :=
  let* lcn := find_least_connected_full_neighbor_excluding db debuting in
  match lcn with
  | None => Ret None
  | Some lcn_key =>
      let* _ := expect (node_by_key db lcn_key) in
      let debut_node_addr := match agr_node_addr_opt debuting with
                             | Some na => NodeAddr.clone na
                             | None => NodeAddr.from_socket_addr source
                             end in
      let* rt := root db in
      let* b := builder_node db builder_new (nr_key rt) true in
      let* b := builder_node db b lcn_key true in
      Ret (Some (built b, agr_key debuting, debut_node_addr))
  end.

(** [None] is [Err(())] *)
Definition try_accept_debut (cryptde : CryptDE) (db : NeighborhoodDatabase)
    (debuting : AccessibleGossipRecord) (source : SocketAddr)
    : outcome (NeighborhoodDatabase * option GossipAcceptanceResult) :=
  let* rt := root db in
  let* d := gossip_target_degree db (nr_key rt) in
  if (MAX_DEGREE <=? d)%nat then Ret (db, None)
  else
    let (db1, added) := add_node db (record_from_agr_ref debuting) in
    let* debut_node_key := expect_ok added in
    match add_half_neighbor db1 debut_node_key with
    | (_, Err _) => Panic
    | (_, Ok false) => Panic
    | (db2, Ok true) =>
        let* db3 := touch_root cryptde db2 in
        if should_not_make_introduction debuting then Ret (db3, Some Accepted)
        else
          let* intro := make_introduction db3 debuting source in
          match intro with
          | Some (g, k, na) => Ret (db3, Some (Reply g k na))
          | None => Ret (db3, Some Accepted)
          end
    end.

Definition handle (cryptde : CryptDE) (db : NeighborhoodDatabase)
    (agrs : list AccessibleGossipRecord) (source : SocketAddr)
    : outcome (NeighborhoodDatabase * GossipAcceptanceResult) :=
  let* agr := expect (head agrs) in
  let source_node_addr := match agr_node_addr_opt agr with
                          | None => NodeAddr.from_socket_addr source
                          | Some na => na
                          end in
  let source_agr := mkAgr (agr_signed_gossip agr) (agr_signature agr) (Some source_node_addr)
                      (agr_inner agr) in
  let source_key := agr_key source_agr in
  let* preferred := find_more_appropriate_neighbor db source_agr in
  match preferred with
  | Some preferred_key =>
      let* p := expect (node_by_key db preferred_key) in
      let* _ := expect (node_addr_opt p) in
      let* g := make_pass_gossip db preferred_key in
      Ret (db, Reply g source_key (NodeAddr.clone source_node_addr))
  | None =>
      let* (db', accepted) := try_accept_debut cryptde db source_agr source in
      match accepted with
      | Some res => Ret (db', res)
      | None =>
          let* lcn := find_least_connected_half_neighbor_excluding db' source_agr in
          match lcn with
          | None => Ret (db', Ignored)
          | Some lcn_key =>
              let* _ := expect (node_by_key db' lcn_key) in
              let* g := make_pass_gossip db' lcn_key in
              Ret (db', Reply g source_key (NodeAddr.clone source_node_addr))
          end
      end
  end.
End debut.
End DebutHandler.

(** ** PassHandler *)
Module PassHandler.
Definition qualifies (agrs : list AccessibleGossipRecord) (source : SocketAddr) : Qualification :=
  match agrs with
  | [agr] =>
      match agr_node_addr_opt agr with
      | None => Malformed (PassNoNodeAddr source (agr_key agr))
      | Some na =>
          if bool_decide (NodeAddr.ports na = [])
          then Malformed (PassNoPorts source (agr_key agr) (NodeAddr.ip_addr na))
          else if bool_decide (NodeAddr.ip_addr na = ip source) then Unmatched
          else Matched
      end
  | _ => Unmatched
  end.

Definition handle (db : NeighborhoodDatabase) (agrs : list AccessibleGossipRecord)
  : outcome (NeighborhoodDatabase * GossipAcceptanceResult) :=
  let* rt := root db in
  let* b := builder_node db builder_new (nr_key rt) true in
  let* pass_agr := expect (head agrs) in
  let* na := expect (NodeAddr.clone <$> agr_node_addr_opt pass_agr) in
  Ret (db, Reply (built b) (agr_key pass_agr) na).
End PassHandler.

(** ** The debut that introductions and passes lead to: [GossipAcceptorReal::make_debut_triple] *)
Definition make_debut_triple (db : NeighborhoodDatabase) (debut_target : AccessibleGossipRecord)
  : outcome (option (Gossip * PublicKey * NodeAddr.NodeAddr)) :=
  match agr_node_addr_opt debut_target with
  | None => Ret None
  | Some na =>
      if bool_decide (NodeAddr.ports na = []) then Ret None
      else
        let* rt := root db in
        let* b := builder_node db builder_new (nr_key rt) true in
        Ret (Some (built b, agr_key debut_target, NodeAddr.clone na))
  end.

(** ** IntroductionHandler *)
Module IntroductionHandler.

Definition verify_size (agrs : list AccessibleGossipRecord) : option Qualification :=
  if (length agrs =? 2)%nat then None else Some Unmatched.

(** [true]: the introducer comes first *)
Definition order_is_introducee_introducer (agrs : list AccessibleGossipRecord) (source : SocketAddr)
  : outcome (result bool Qualification) :=
  let* first_agr := expect (agrs !! 0%nat) in
  match agr_node_addr_opt first_agr with
  | None => Ret (Err Unmatched)
  | Some na1 =>
      let* second_agr := expect (agrs !! 1%nat) in
      match agr_node_addr_opt second_agr with
      | None => Ret (Err Unmatched)
      | Some na2 =>
          Ret (if bool_decide (NodeAddr.ip_addr na1 = ip source) then Ok true
               else if bool_decide (NodeAddr.ip_addr na2 = ip source) then Ok false
               else Err (Malformed (IntroductionNeitherClaimsSource
                      (agr_key first_agr) (NodeAddr.ip_addr na1)
                      (agr_key second_agr) (NodeAddr.ip_addr na2) (ip source))))
      end
  end.

(** [agrs.remove(0)] twice *)
Definition identify_players (agrs : list AccessibleGossipRecord) (source : SocketAddr)
  : outcome (result (AccessibleGossipRecord * AccessibleGossipRecord) Qualification) :=
  let* order := order_is_introducee_introducer agrs source in
  match order with
  | Err q => Ret (Err q)
  | Ok introducer_first =>
      match agrs with
      | a :: b :: _ => Ret (Ok (if introducer_first : bool then (a, b) else (b, a)))
      | _ => Panic
      end
  end.

Definition verify_introducer (agr : AccessibleGossipRecord) (root_node : NodeRecord)
  : outcome (option Qualification) :=
  if bool_decide (agr_key agr = nr_key root_node)
  then Ret (Some (Malformed (IntroducerClaimsLocalKey (agr_key agr))))
  else
    let* na := expect (agr_node_addr_opt agr) in
    if bool_decide (NodeAddr.ports na = [])
    then Ret (Some (Malformed (IntroducerNoPorts (agr_key agr) (NodeAddr.ip_addr na))))
    else
      match node_addr_opt root_node with
      | Some root_node_addr =>
          if bool_decide (NodeAddr.ip_addr na = NodeAddr.ip_addr root_node_addr)
          then Ret (Some (Malformed (IntroducerClaimsLocalIp (agr_key agr))))
          else Ret None
      | None => Ret None
      end.

Definition verify_introducee (db : NeighborhoodDatabase) (introducer introducee : AccessibleGossipRecord)
    (source : SocketAddr) : option Qualification :=
  if bool_decide (is_Some (node_by_key db (agr_key introducee))) then Some Unmatched
  else
    match agr_node_addr_opt introducee with
    | None => Some Unmatched
    | Some na =>
        if bool_decide (NodeAddr.ports na = [])
        then Some (Malformed (IntroduceeNoPorts (agr_key introducer) (agr_key introducee)
                                (NodeAddr.ip_addr na)))
        else if bool_decide (NodeAddr.ip_addr na = ip source)
        then Some (Malformed (IntroduceeClaimsSource (agr_key introducer) (agr_key introducee)
                                (ip source)))
        else None
    end.

Definition qualifies (db : NeighborhoodDatabase) (agrs : list AccessibleGossipRecord)
    (source : SocketAddr) : outcome Qualification :=
  match verify_size agrs with
  | Some q => Ret q
  | None =>
      let* order := order_is_introducee_introducer agrs source in
      match order with
      | Err q => Ret q
      | Ok introducer_first =>
          let* a := expect (agrs !! 0%nat) in
          let* b := expect (agrs !! 1%nat) in
          let '(introducer, introducee) := if introducer_first : bool then (a, b) else (b, a) in
          let* rt := root db in
          let* q1 := verify_introducer introducer rt in
          match q1 with
          | Some q => Ret q
          | None =>
              match verify_introducee db introducer introducee source with
              | Some q => Ret q
              | None => Ret Matched
              end
          end
      end
  end.

Section introduction.
Context `{!Serde NodeRecordInner}.

(** The second half of [update_database]: the introducer becomes a half neighbor. *)
Definition adopt_introducer (cryptde : CryptDE) (db : NeighborhoodDatabase) (k : PublicKey)
  : outcome NeighborhoodDatabase :=
  let (db', added) := add_half_neighbor db k in
  let* changed := expect_ok added in
  if changed : bool then touch_root cryptde db' else Ret db'.

Definition update_database (db : NeighborhoodDatabase) (cryptde : CryptDE)
    (introducer : AccessibleGossipRecord)
    : outcome (NeighborhoodDatabase * result bool update_error) :=
  let introducer_key := agr_key introducer in
  match node_by_key db introducer_key with
  | Some existing =>
      if nr_version existing <? ni_version (agr_inner introducer) then
        match update existing introducer with
        | (_, Err e) => Ret (db, Err e)
        | (updated, Ok _) =>
            let* db' := adopt_introducer cryptde (put_node introducer_key updated db) introducer_key in
            Ret (db', Ok true)
        end
      else Ret (db, Ok false)
  | None =>
      let (db1, added) := add_node db (record_from_agr introducer) in
      let* _ := expect_ok added in
      let* db' := adopt_introducer cryptde db1 introducer_key in
      Ret (db', Ok true)
  end.

Definition handle (cryptde : CryptDE) (db : NeighborhoodDatabase)
    (agrs : list AccessibleGossipRecord) (source : SocketAddr)
    : outcome (NeighborhoodDatabase * GossipAcceptanceResult) :=
  let* rt := root db in
  if (MAX_DEGREE <=? size (full_neighbor_keys rt db))%nat then Ret (db, Ignored)
  else
    let* players := identify_players agrs source in
    let* (introducer, introducee) := expect_ok players in
    let introducer_key := agr_key introducer in
    let* (db', updated) := update_database db cryptde introducer in
    match updated with
    | Err e => Ret (db', Ban (IntroducerChangedImmutable introducer_key e))
    | Ok _ =>
        let* triple := make_debut_triple db' introducee in
        let* (debut, target_key, target_node_addr) := expect triple in
        Ret (db', Reply debut target_key target_node_addr)
    end.
End introduction.
End IntroductionHandler.

(** ** StandardGossipHandler *)
Module StandardGossipHandler.

Definition ip_of (agr : AccessibleGossipRecord) : outcome IpAddr :=
  let* na := expect (agr_node_addr_opt agr) in Ret (NodeAddr.ip_addr na).

(** The first record that claims to be at the local Node's IP address *)
Fixpoint find_impostor (root_node : NodeRecord) (next_door : list AccessibleGossipRecord)
  : outcome (option AccessibleGossipRecord) :=
  match next_door with
  | [] => Ret None
  | agr :: rest =>
      let* i := ip_of agr in
      let* root_addr := expect (node_addr_opt root_node) in
      if bool_decide (i = NodeAddr.ip_addr root_addr) then Ret (Some agr)
      else find_impostor root_node rest
  end.

(** One step of the fold that collects addresses and repeated addresses *)
Definition note_ip (so_far : gset IpAddr * gset IpAddr) (agr : AccessibleGossipRecord)
  : outcome (gset IpAddr * gset IpAddr) :=
  let '(addr_set, dup_set) := so_far in
  let* i := ip_of agr in
  Ret (if bool_decide (i ∈ addr_set) then (addr_set, {[i]} ∪ dup_set) else ({[i]} ∪ addr_set, dup_set)).

Definition qualifies (db : NeighborhoodDatabase) (agrs : list AccessibleGossipRecord)
    (source : SocketAddr) : outcome Qualification :=
  let next_door := filter (fun agr => is_Some (agr_node_addr_opt agr)) agrs in
  let* root_node := root db in
  let* impostor := if nr_accepts_connections root_node then find_impostor root_node next_door
                   else Ret None in
  match impostor with
  | Some agr => Ret (Malformed (StandardClaimsLocalIp source (agr_key agr)))
  | None =>
      if existsb (fun agr => bool_decide (agr_key agr = nr_key root_node)) agrs
      then Ret (Malformed (StandardClaimsLocalKey source))
      else
        let* (_, dup_set) := ofold note_ip (∅, ∅) next_door in
        match elements dup_set with
        | [] => Ret Matched
        | first_dup :: _ => Ret (Malformed (StandardDuplicateIp source first_dup))
        end
  end.

(** Records of Nodes that are not known yet and that do not introduce themselves from elsewhere *)
Definition is_new_node (known : gset PublicKey) (source : SocketAddr) (agr : AccessibleGossipRecord)
  : bool :=
  bool_decide (agr_key agr ∉ known) &&
  match agr_node_addr_opt agr with
  | None => true
  | Some na => bool_decide (source ∈ NodeAddr.into_socket_addrs (NodeAddr.clone na))
  end.

Definition add_new_node (db : NeighborhoodDatabase) (agr : AccessibleGossipRecord)
  : outcome NeighborhoodDatabase :=
  let (db', added) := add_node db (record_from_agr_ref agr) in
  let* _ := expect_ok added in Ret db'.

Definition identify_and_add_non_introductory_new_nodes (db : NeighborhoodDatabase)
    (agrs : list AccessibleGossipRecord) (source : SocketAddr)
    : outcome (NeighborhoodDatabase * bool) :=
  let all_keys := keys db in
  let* db' := ofold add_new_node db (filter (fun agr => is_new_node all_keys source agr = true) agrs) in
  Ret (db', negb (size (keys db') =? size all_keys)%nat).

Definition update_database_record (db : NeighborhoodDatabase) (agr : AccessibleGossipRecord)
  : outcome (NeighborhoodDatabase * bool) :=
  let* existing := expect (node_by_key db (agr_key agr)) in
  let* existing := match node_addr_opt existing, NodeAddr.clone <$> agr_node_addr_opt agr with
                   | None, Some new_node_addr =>
                       let (r, set) := set_node_addr existing new_node_addr in
                       let* _ := expect_ok set in Ret r
                   | _, _ => Ret existing
                   end in
  Ret (put_node (agr_key agr)
         (mkNodeRecord (agr_inner agr) (metadata existing) (agr_signed_gossip agr) (agr_signature agr))
         db, true).

Fixpoint identify_and_update_obsolete_nodes (db : NeighborhoodDatabase)
    (agrs : list AccessibleGossipRecord) : outcome (NeighborhoodDatabase * bool) :=
  match agrs with
  | [] => Ret (db, false)
  | agr :: rest =>
      let* (db1, flag) :=
        match node_by_key db (agr_key agr) with
        | Some existing =>
            if nr_version existing <? ni_version (agr_inner agr)
            then update_database_record db agr
            else Ret (db, false)
        | None => Ret (db, false)
        end in
      let* (db2, flags) := identify_and_update_obsolete_nodes db1 rest in
      Ret (db2, flag || flags)
  end.

Section standard.
Context `{!Serde NodeRecordInner}.

Definition handle_root_node (cryptde : CryptDE) (db : NeighborhoodDatabase) (source : SocketAddr)
  : outcome (NeighborhoodDatabase * bool) :=
  match node_by_ip db (ip source) with
  | None => Ret (db, false)
  | Some gossip_node =>
      let* rt := root db in
      if (MAX_DEGREE <=? size (full_neighbor_keys rt db))%nat then Ret (db, false)
      else
        match add_half_neighbor db (nr_key gossip_node) with
        | (db', Ok true) => let* db'' := touch_root cryptde db' in Ret (db'', true)
        | (db', _) => Ret (db', false)
        end
  end.

Definition handle (cryptde : CryptDE) (db : NeighborhoodDatabase)
    (agrs : list AccessibleGossipRecord) (source : SocketAddr)
    : outcome (NeighborhoodDatabase * GossipAcceptanceResult) :=
  let* (db1, c1) := identify_and_add_non_introductory_new_nodes db agrs source in
  let* (db2, c2) := identify_and_update_obsolete_nodes db1 agrs in
  let* (db3, c3) := handle_root_node cryptde db2 source in
  Ret (db3, if c3 || (c2 || c1) then Accepted else Ignored).
End standard.
End StandardGossipHandler.

(** ** GossipAcceptorReal *)
Inductive GossipHandler := Debut | Pass | Introduction | Standard | Reject.

Definition gossip_handlers : list GossipHandler := [Debut; Pass; Introduction; Standard; Reject].

Section acceptor.
Context `{!HashOrder} `{!Serde NodeRecordInner}.

Definition handler_qualifies (h : GossipHandler) (db : NeighborhoodDatabase)
    (agrs : list AccessibleGossipRecord) (source : SocketAddr) : outcome Qualification :=
  match h with
  | Debut => Ret (DebutHandler.qualifies db agrs source)
  | Pass => Ret (PassHandler.qualifies agrs source)
  | Introduction => IntroductionHandler.qualifies db agrs source
  | Standard => StandardGossipHandler.qualifies db agrs source
  | Reject => Ret (Malformed (Unclassifiable (length agrs) source))
  end.

(** [RejectHandler::handle] panics. *)
Definition handler_handle (h : GossipHandler) (cryptde : CryptDE) (db : NeighborhoodDatabase)
    (agrs : list AccessibleGossipRecord) (source : SocketAddr)
    : outcome (NeighborhoodDatabase * GossipAcceptanceResult) :=
  match h with
  | Debut => DebutHandler.handle cryptde db agrs source
  | Pass => PassHandler.handle db agrs
  | Introduction => IntroductionHandler.handle cryptde db agrs source
  | Standard => StandardGossipHandler.handle cryptde db agrs source
  | Reject => Panic
  end.

(** The first handler that does not say [Unmatched] *)
Fixpoint find_handler (hs : list GossipHandler) (db : NeighborhoodDatabase)
    (agrs : list AccessibleGossipRecord) (source : SocketAddr)
    : outcome (option (Qualification * GossipHandler)) :=
  match hs with
  | [] => Ret None
  | h :: hs' =>
      let* q := handler_qualifies h db agrs source in
      match q with
      | Unmatched => find_handler hs' db agrs source
      | _ => Ret (Some (q, h))
      end
  end.

Definition acceptor_handle (cryptde : CryptDE) (db : NeighborhoodDatabase)
    (agrs : list AccessibleGossipRecord) (source : SocketAddr)
    : outcome (NeighborhoodDatabase * GossipAcceptanceResult) :=
  let* found := find_handler gossip_handlers db agrs source in
  let* (q, h) := expect found in
  match q with
  | Matched => handler_handle h cryptde db agrs source
  | Unmatched => Panic
  | Malformed reason => Ret (db, Ban reason)
  end.
End acceptor.

(** ** What every handler keeps *)

(** [r'] may follow [r] in a database: the address, once known, stays; another Node's record is
    never replaced by an older version; the local Node loses no neighbor. *)
Definition follows (is_root : Prop) (r r' : NodeRecord) : Prop :=
  keeps_addr r r' /\ (~ is_root -> nr_version r <= nr_version r') /\
  (is_root -> nr_neighbors r ⊆ nr_neighbors r').

(** [db'] is a well-formed successor of [db]: the same Node's, with every record followed. *)
Definition extends (db db' : NeighborhoodDatabase) : Prop :=
  wf db' /\ this_node db' = this_node db /\
  forall k r, node_by_key db k = Some r ->
    exists r', node_by_key db' k = Some r' /\ follows (k = this_node db) r r'.

Lemma follows_refl P r : follows P r r.
Proof. unfold follows, keeps_addr. split_and!; auto; lia. Qed.

Lemma follows_trans P r r' r'' : follows P r r' -> follows P r' r'' -> follows P r r''.
Proof.
  intros (H1 & H2 & H3) (H4 & H5 & H6). split_and!.
  - intros a Ha. by apply H4, H1.
  - intros HP. specialize (H2 HP). specialize (H5 HP). lia.
  - intros HP. specialize (H3 HP). specialize (H6 HP). set_solver.
Qed.

Lemma extends_refl db : wf db -> extends db db.
Proof. intros Hwf. split_and!; [done..|]. eauto using follows_refl. Qed.

Lemma extends_trans db db' db'' : extends db db' -> extends db' db'' -> extends db db''.
Proof.
  intros (_ & H1 & H2) (H3 & H4 & H5). split_and!; [done | congruence |].
  intros k r (r' & Hr' & Hf)%H2. destruct (H5 _ _ Hr') as (r'' & Hr'' & Hf').
  rewrite H1 in Hf'. eauto using follows_trans.
Qed.

#[global] Hint Resolve extends_refl extends_trans : node.

Lemma extends_put db k r r' :
  wf (put_node k r' db) -> node_by_key db k = Some r -> follows (k = this_node db) r r' ->
  extends db (put_node k r' db).
Proof.
  intros Hwf Hk Hf. split_and!; [done|done|]. intros k0 r0 H0. rewrite node_by_key_put.
  case_bool_decide as Hb; [|eauto using follows_refl]. subst k0. exists r'. split; [done|].
  congruence.
Qed.

Lemma extends_put_root db rt rt' :
  wf (put_node (this_node db) rt' db) -> node_by_key db (this_node db) = Some rt ->
  addr_of rt' = addr_of rt -> nr_neighbors rt ⊆ nr_neighbors rt' ->
  extends db (put_node (this_node db) rt' db).
Proof.
  intros Hwf Hk Ha Hn. eapply extends_put; [done..|].
  split_and!; [by apply keeps_addr_of | done | done].
Qed.

Lemma extends_add db r :
  wf (add_arbitrary_node db r) -> nr_key r ∉ keys db -> extends db (add_arbitrary_node db r).
Proof.
  intros Hwf Hk. split_and!; [done|done|]. intros k q Hq. exists q. split; [|apply follows_refl].
  rewrite node_by_key_add, bool_decide_false; [done|]. intros <-. apply Hk, elem_of_keys. eauto.
Qed.

Lemma touch_root_extends `{!Serde NodeRecordInner} cryptde db :
  can_sign cryptde -> wf db -> exists db', touch_root cryptde db = Ret db' /\ extends db db'.
Proof.
  intros Hs Hwf. destruct (touch_root_ok cryptde db Hs Hwf) as (rt & rt' & Hrt & Ht & Hwf' & _ & Hi & Hm).
  eexists. split; [exact Ht|]. eapply extends_put_root; [done | done | |];
    unfold addr_of, nr_neighbors; by rewrite ?Hi, ?Hm.
Qed.

Lemma elem_of_full_neighbor_keys r db k :
  k ∈ full_neighbor_keys r db <-> k ∈ nr_neighbors r /\
    exists n, node_by_key db k = Some n /\ nr_key r ∈ nr_neighbors n.
Proof.
  unfold full_neighbor_keys, is_full_neighbor, has_half_neighbor.
  rewrite elem_of_filter. split.
  - intros [Hf Hk]. split; [done|]. destruct (node_by_key db k) as [n|]; [|done].
    apply bool_decide_eq_true in Hf. eauto.
  - intros (Hk & n & -> & Hn). by rewrite bool_decide_true.
Qed.

Section degrees.
Context `{!HashOrder}.

Lemma full_neighbors_total salt r db :
  exists l, full_neighbors salt r db = Ret l /\
    Forall2 (fun k n => node_by_key db k = Some n) (hash_iter salt (full_neighbor_keys r db)) l.
Proof.
  destruct (omapM_total (fun k => expect (node_by_key db k))
    (hash_iter salt (full_neighbor_keys r db))) as [l Hl].
  - intros k Hk%elem_of_hash_iter%elem_of_full_neighbor_keys.
    destruct Hk as (_ & n & -> & _). by exists n.
  - exists l. split; [exact Hl|]. apply omapM_ret_Forall2 in Hl.
    eapply Forall2_impl; [exact Hl|]. by intros k n Hk%expect_ret.
Qed.

Lemma degree_total db k : exists d, gossip_target_degree db k = Ret d.
Proof.
  unfold gossip_target_degree. destruct (node_by_key db k) as [r|]; [|eauto].
  destruct (full_neighbors_total [k] r db) as (l & -> & _). simpl. eauto.
Qed.

(** [x] is listed before [y] only if its degree is no greater. *)
Definition by_degree (db : NeighborhoodDatabase) (x y : PublicKey) : Prop :=
  forall dx dy, gossip_target_degree db x = Ret dx -> gossip_target_degree db y = Ret dy ->
    (dx <= dy)%nat.

Lemma keys_ordered_ok salt db ks excl :
  exists l, DebutHandler.keys_ordered_by_degree_excluding salt db ks excl = Ret l /\
    (forall k, k ∈ l <-> k ∈ ks /\ k ∉ excl) /\ StronglySorted (by_degree db) l.
Proof.
  unfold DebutHandler.keys_ordered_by_degree_excluding.
  destruct (omapM_total (fun k => let* d := gossip_target_degree db k in Ret (d, k))
    (hash_iter salt (ks ∖ excl))) as [ds Hds].
  { intros k _. destruct (degree_total db k) as [d ->]. by eexists. }
  rewrite Hds. cbn [obind]. eexists. split; [done|].
  apply omapM_ret_Forall2 in Hds.
  assert (Hdeg : Forall (fun p => gossip_target_degree db p.2 = Ret p.1) ds).
  { eapply Forall2_Forall_r; [exact Hds|]. apply Forall_true. intros k [d k'] Hk. by unbind. }
  assert (Hsnd : map snd ds = hash_iter salt (ks ∖ excl)).
  { clear Hdeg. induction Hds as [|k [d k'] l ds Hk Hds IH]; [done|]. unbind. simpl. by f_equal. }
  split.
  - intros k. rewrite <- elem_of_difference, <- (elem_of_hash_iter salt), <- Hsnd.
    by rewrite (Permutation_map snd (merge_sort_Permutation degree_le ds)).
  - pose proof (StronglySorted_merge_sort degree_le ds) as Hss.
    rewrite <- (merge_sort_Permutation degree_le ds) in Hdeg.
    induction Hss as [|[d k] l Hss IH Hall]; simpl; [constructor|].
    apply Forall_cons in Hdeg as [Hd Hdeg]. constructor; [by apply IH|].
    apply Forall_map. rewrite Forall_forall in Hall, Hdeg |- *. intros [d' k'] Hin dx dy Hx Hy.
    specialize (Hall _ Hin). specialize (Hdeg _ Hin). simpl in *. unfold degree_le in Hall.
    simpl in Hall. congruence || (rewrite Hd in Hx; rewrite Hdeg in Hy; simplify_eq; lia).
Qed.
End degrees.

Section builders.
Lemma build_one db k r : wf db -> node_by_key db k = Some r ->
  builder_node db builder_new k true = Ret (mkBuilder (gossip_new [said_of true r]) ({[k]} ∪ ∅)).
Proof.
  intros Hwf Hr. by rewrite (builder_node_ok db builder_new k r true Hr (wf_keys _ Hwf _ _ Hr)).
Qed.

Lemma make_pass_gossip_ok db k r : wf db -> node_by_key db k = Some r ->
  DebutHandler.make_pass_gossip db k = Ret (gossip_new [said_of true r]).
Proof. intros Hwf Hr. unfold DebutHandler.make_pass_gossip. by rewrite (build_one db k r Hwf Hr). Qed.

Lemma build_two db k1 k2 r1 r2 : wf db -> node_by_key db k1 = Some r1 ->
  node_by_key db k2 = Some r2 -> k1 <> k2 ->
  exists b, (let* b := builder_node db builder_new k1 true in builder_node db b k2 true) = Ret b /\
    built b = gossip_new [said_of true r1; said_of true r2].
Proof.
  intros Hwf H1 H2 Hne. rewrite (build_one db k1 r1) by done. cbn [obind].
  erewrite builder_node_ok; [|done|by apply (wf_keys _ Hwf)|simpl; set_solver]. by eexists.
Qed.
End builders.

Section debut.
Context `{!HashOrder} `{!Serde NodeRecordInner}.
Import DebutHandler.

Lemma accepts_known db k r : node_by_key db k = Some r -> accepts db k = Ret (nr_accepts_connections r).
Proof. intros Hr. unfold accepts. by rewrite Hr. Qed.

Lemma find_more_appropriate_ok db agr : wf db ->
  exists o, find_more_appropriate_neighbor db agr = Ret o /\
    forall k, o = Some k -> exists rt, node_by_key db (this_node db) = Some rt /\ k ∈ nr_neighbors rt.
Proof.
  intros Hwf. destruct (wf_root _ Hwf) as [rt Hrt].
  unfold find_more_appropriate_neighbor, root_full_neighbors_ordered_by_degree_excluding.
  rewrite (proj2 (root_ret _ _) Hrt). cbn [obind].
  destruct (keys_ordered_ok [agr_key agr] db (full_neighbor_keys rt db) (node_and_neighbor_keys agr))
    as (l & -> & Hl & _). cbn [obind].
  assert (Hin : forall k, k ∈ l -> k ∈ nr_neighbors rt /\ exists r, node_by_key db k = Some r).
  { intros k [Hk _]%Hl. apply elem_of_full_neighbor_keys in Hk as (? & n & ? & _). eauto. }
  destruct (ofilter_total (accepts db) l) as (acc & -> & Hacc).
  { intros k (_ & r & Hr)%Hin. rewrite (accepts_known _ _ _ Hr). eauto. }
  cbn [obind].
  destruct (oskip_while_total (fun k => let* d := gossip_target_degree db k in Ret (d <=? 2)%nat) acc)
    as (q & -> & Hq).
  { intros k _. destruct (degree_total db k) as [d ->]. simpl. eauto. }
  cbn [obind]. destruct q as [|k q]; [by exists None|].
  destruct (degree_total db k) as [d ->]. cbn [obind].
  destruct (degree_total db (nr_key rt)) as [d' ->]. cbn [obind].
  eexists. split; [done|]. intros k'. case_match; [done|]. intros [= <-]. exists rt. split; [done|].
  apply Hin, Hacc, Hq. left.
Qed.

Lemma find_least_ok ks db agr :
  exists o, find_least_connected_neighbor_excluding ks db agr = Ret o /\
    forall k, o = Some k -> k ∈ ks.
Proof.
  unfold find_least_connected_neighbor_excluding.
  destruct (keys_ordered_ok [] db ks (node_and_neighbor_keys agr)) as (l & -> & Hl & _). simpl.
  eexists. split; [done|]. destruct l as [|k' l]; [done|]. intros k [= <-]. apply Hl. left.
Qed.

Lemma make_introduction_ok db agr source : wf db ->
  exists o, make_introduction db agr source = Ret o.
Proof.
  intros Hwf. destruct (wf_root _ Hwf) as [rt Hrt].
  unfold make_introduction, find_least_connected_full_neighbor_excluding.
  rewrite (proj2 (root_ret _ _) Hrt). cbn [obind].
  destruct (ofilter_total (accepts db) (elements (full_neighbor_keys rt db))) as (acc & -> & Hacc).
  { intros k Hk%elem_of_elements%elem_of_full_neighbor_keys. destruct Hk as (_ & n & Hn & _).
    rewrite (accepts_known _ _ _ Hn). eauto. }
  cbn [obind]. destruct (find_least_ok (list_to_set acc) db agr) as (o & -> & Ho). cbn [obind].
  destruct o as [lcn|]; [|eauto]. specialize (Ho lcn eq_refl).
  apply elem_of_list_to_set, Hacc in Ho as [Ho _]. apply elem_of_elements in Ho.
  apply elem_of_full_neighbor_keys in Ho as (Hn & n & Hk & _). rewrite Hk. cbn [expect obind].
  rewrite (wf_keys _ Hwf _ _ Hrt).
  destruct (build_two db (this_node db) lcn rt n) as (b & Hb & _); [done..| |].
  { intros <-. by destruct (wf_neighbors _ Hwf _ _ Hrt Hn). }
  apply obind_ret_inv in Hb as (b1 & Hb1 & Hb2). rewrite Hb1. cbn [obind]. rewrite Hb2. simpl. eauto.
Qed.
End debut.

(** *** Adding Nodes and neighbors *)
Lemma add_half_neighbor_extends db k :
  wf db -> reachable db k -> k <> this_node db ->
  exists db' b, add_half_neighbor db k = (db', Ok b) /\ extends db db' /\
    (b = false -> db' = db /\ db_has_half_neighbor db (this_node db) k = true) /\
    (b = true -> db_has_half_neighbor db (this_node db) k = false).
Proof.
  intros Hwf Hreach Hne. destruct (wf_root _ Hwf) as [rt Hrt].
  rewrite (add_half_neighbor_ok db k rt) by done.
  unfold db_has_half_neighbor. rewrite Hrt.
  destruct (has_half_neighbor rt k) eqn:E; eexists _, _; (split; [reflexivity|]).
  - split_and!; auto with node; done.
  - split_and!; [|done|done]. eapply extends_put_root; [|done|done|].
    + by apply wf_add_half_neighbor.
    + simpl. set_solver.
Qed.

Lemma node_of_agr_reachable db agr a :
  agr_node_addr_opt agr = Some a -> NodeAddr.ports a <> [] ->
  reachable (add_arbitrary_node db (record_from_agr_ref agr)) (agr_key agr) /\
  reachable (add_arbitrary_node db (record_from_agr agr)) (agr_key agr).
Proof.
  intros Ha Hp. split.
  - exists (record_from_agr_ref agr), (NodeAddr.clone a). rewrite node_by_key_add.
    rewrite bool_decide_true by done. split_and!; [done| |by rewrite NodeAddr.ports_clone_nil].
    unfold addr_of. simpl. by rewrite Ha.
  - exists (record_from_agr agr), a. rewrite node_by_key_add. by rewrite bool_decide_true.
Qed.

Lemma add_node_agr_ref db agr :
  wf db -> agr_key agr ∉ keys db ->
  (forall a, agr_node_addr_opt agr = Some a -> NodeAddr.ports a <> []) ->
  add_node db (record_from_agr_ref agr)
    = (add_arbitrary_node db (record_from_agr_ref agr), Ok (agr_key agr)) /\
  extends db (add_arbitrary_node db (record_from_agr_ref agr)).
Proof.
  intros Hwf Hk Hp.
  assert (Hp' : forall a, addr_of (record_from_agr_ref agr) = Some a -> NodeAddr.ports a <> []).
  { unfold addr_of. simpl. intros a. destruct (agr_node_addr_opt agr) as [b|]; [|done].
    intros [= <-]. rewrite NodeAddr.ports_clone_nil. by apply Hp. }
  split; [by apply add_node_fresh|]. apply extends_add; [|done]. by apply wf_add.
Qed.

Lemma add_node_agr db agr :
  wf db -> agr_key agr ∉ keys db ->
  (forall a, agr_node_addr_opt agr = Some a -> NodeAddr.ports a <> []) ->
  add_node db (record_from_agr agr)
    = (add_arbitrary_node db (record_from_agr agr), Ok (agr_key agr)) /\
  extends db (add_arbitrary_node db (record_from_agr agr)).
Proof.
  intros Hwf Hk Hp. split; [by apply add_node_fresh|]. apply extends_add; [|done]. by apply wf_add.
Qed.

Section handlers.
Context `{!HashOrder} `{!Serde NodeRecordInner}.
Context (cryptde : CryptDE).
Hypothesis signer : can_sign cryptde.

Lemma not_this_node db k : wf db -> k ∉ keys db -> k <> this_node db.
Proof.
  intros Hwf Hk ->. apply Hk, elem_of_keys, (wf_root _ Hwf).
Qed.

(** A new half neighbor, with the version bumped and the record signed anew *)
Lemma adopt_fresh db k rt :
  wf db -> reachable db k -> k <> this_node db -> node_by_key db (this_node db) = Some rt ->
  exists db', touch_root cryptde
      (put_node (this_node db) (with_inner (set_neighbors ({[k]} ∪ nr_neighbors rt)) rt) db) = Ret db' /\
    extends db db' /\ reachable db' k /\ db_has_half_neighbor db' (this_node db) k = true.
Proof.
  intros Hwf Hreach Hne Hrt. set (db1 := put_node _ _ _).
  assert (Hext1 : extends db db1).
  { eapply extends_put_root; [by apply wf_add_half_neighbor|done|done|]. simpl. set_solver. }
  destruct (touch_root_ok cryptde db1 signer (proj1 Hext1))
    as (rt1 & rt2 & Hrt1 & -> & Hwf2 & _ & Hi2 & Hm2).
  set (db2 := put_node _ rt2 db1) in *. exists db2.
  assert (Hrt2 : node_by_key db2 (this_node db2) = Some rt2)
    by (unfold db2; rewrite node_by_key_put; by rewrite bool_decide_true).
  assert (Hin : k ∈ nr_neighbors rt2).
  { unfold nr_neighbors. rewrite Hi2. unfold db1 in Hrt1. rewrite node_by_key_put in Hrt1.
    rewrite bool_decide_true in Hrt1 by done. injection Hrt1 as <-. simpl. set_solver. }
  split_and!; [done | | by apply (wf_neighbors _ Hwf2 rt2) |].
  - eapply extends_trans; [done|]. eapply extends_put_root; [done | done | |];
      unfold addr_of, nr_neighbors; by rewrite ?Hi2, ?Hm2.
  - unfold db_has_half_neighbor. change (this_node db) with (this_node db2). rewrite Hrt2.
    by apply bool_decide_eq_true.
Qed.

Lemma try_accept_debut_ok db agr source a :
  wf db -> agr_key agr ∉ keys db -> agr_node_addr_opt agr = Some a -> NodeAddr.ports a <> [] ->
  exists db' o, DebutHandler.try_accept_debut cryptde db agr source = Ret (db', o) /\
    extends db db' /\ (o = None -> db' = db) /\
    (o <> None -> reachable db' (agr_key agr) /\
       db_has_half_neighbor db' (this_node db) (agr_key agr) = true).
Proof.
  intros Hwf Hk Ha Hp. destruct (wf_root _ Hwf) as [rt Hrt].
  unfold DebutHandler.try_accept_debut. rewrite (proj2 (root_ret _ _) Hrt). cbn [obind].
  destruct (degree_total db (nr_key rt)) as [d ->]. cbn [obind].
  destruct (MAX_DEGREE <=? d)%nat; [eexists db, None; split_and!; auto with node; done|].
  destruct (add_node_agr_ref db agr Hwf Hk) as [-> Hext1]; [by intros b [= <-]%(eq_trans (eq_sym Ha))|].
  cbn [expect_ok obind]. set (db1 := add_arbitrary_node db _) in *.
  pose proof (not_this_node _ _ Hwf Hk) as Hne.
  destruct (node_of_agr_reachable db agr a Ha Hp) as [Hreach _]. fold db1 in Hreach.
  assert (Hrt1 : node_by_key db1 (this_node db1) = Some rt).
  { unfold db1. rewrite node_by_key_add. by rewrite bool_decide_false. }
  rewrite (add_half_neighbor_ok db1 (agr_key agr) rt (proj1 Hext1) Hreach Hne Hrt1).
  assert (has_half_neighbor rt (agr_key agr) = false) as ->.
  { apply bool_decide_eq_false. intros Hin.
    destruct (wf_neighbors _ Hwf _ _ Hrt Hin) as [_ (r & b & Hr & _)].
    apply Hk, elem_of_keys. eauto. }
  destruct (adopt_fresh db1 (agr_key agr) rt (proj1 Hext1) Hreach Hne Hrt1)
    as (db3 & -> & Hext3 & Hnow). cbn [obind]. pose proof (proj1 Hext3) as Hwf3.
  apply (extends_trans db) in Hext3; [|done].
  destruct (DebutHandler.should_not_make_introduction agr).
  - eexists _, _. split_and!; [done..|]. auto.
  - destruct (make_introduction_ok db3 agr source Hwf3) as (o & ->). cbn [obind].
    destruct o as [[[g k] na]|]; eexists _, _; split_and!; done || auto.
Qed.

Lemma reachable_addr db k : reachable db k ->
  exists r na, node_by_key db k = Some r /\ node_addr_opt r = Some na.
Proof.
  intros (r & a & Hr & Ha & _). exists r, (NodeAddr.clone a). split; [done|].
  unfold node_addr_opt. unfold addr_of in Ha. by rewrite Ha.
Qed.

Lemma debut_outcome db agr source :
  wf db -> DebutHandler.qualifies db [agr] source = Matched ->
exists db' res, DebutHandler.handle cryptde db [agr] source = Ret (db', res) /\ extends db db' /\
  ((reachable db' (agr_key agr) /\ db_has_half_neighbor db' (this_node db) (agr_key agr) = true /\
    (exists d, gossip_target_degree db (this_node db) = Ret d /\ (d < MAX_DEGREE)%nat)) \/
   (db' = db /\
    (res = Ignored \/
     exists k r rt na, res = Reply (gossip_new [said_of true r]) (agr_key agr) na /\
       node_by_key db (this_node db) = Some rt /\ k ∈ nr_neighbors rt /\ node_by_key db k = Some r))).
Proof.
intros Hwf Hq. unfold DebutHandler.qualifies in Hq. case_bool_decide as Hnew; [done|].
assert (Hk : agr_key agr ∉ keys db) by (rewrite elem_of_keys; intros [r Hr]; apply Hnew; by exists r).
destruct (wf_root _ Hwf) as [rt Hrt].
unfold DebutHandler.handle. cbn [head expect obind].
set (na := match agr_node_addr_opt agr with None => _ | Some na => na end).
assert (Hna : NodeAddr.ports na <> []).
{ unfold na. destruct (agr_node_addr_opt agr) as [a|]; [|done].
  destruct (ni_accepts_connections _); [|done]. by case_bool_decide. }
set (agr' := mkAgr _ _ _ _).
destruct (find_more_appropriate_ok db agr' Hwf) as (o & -> & Ho). cbn [obind].
destruct o as [pk|].
- destruct (Ho pk eq_refl) as (rt' & Hrt' & Hin).
  destruct (wf_neighbors _ Hwf _ _ Hrt' Hin) as [_ Hreach].
  destruct (reachable_addr db pk Hreach) as (r & a & Hr & Ha).
  rewrite Hr. cbn [expect obind]. rewrite Ha. cbn [expect obind].
  rewrite (make_pass_gossip_ok db pk r Hwf Hr). cbn [obind]. eexists _, _. split; [done|].
  split; [by apply extends_refl|]. right. split; [done|]. right. by exists pk, r, rt', (NodeAddr.clone na).
- destruct (try_accept_debut_ok db agr' source na Hwf Hk eq_refl Hna)
    as (db' & o & Ht & Hext & Hnone & Hsome). rewrite Ht. cbn [obind].
  destruct o as [res|].
  + eexists _, _. split; [done|]. split; [done|]. left. destruct Hsome as [H1 H2]; [done|].
    split_and!; [done..|]. unfold DebutHandler.try_accept_debut in Ht.
    rewrite (proj2 (root_ret _ _) Hrt) in Ht. cbn [obind] in Ht.
    rewrite (wf_keys _ Hwf _ _ Hrt) in Ht.
    destruct (degree_total db (this_node db)) as [d Hd]. rewrite Hd in Ht. cbn [obind] in Ht.
    exists d. split; [done|]. destruct (Nat.leb_spec MAX_DEGREE d); [by simplify_eq/=|lia].
  + rewrite (Hnone eq_refl) in *.
    unfold DebutHandler.find_least_connected_half_neighbor_excluding.
    rewrite (proj2 (root_ret _ _) Hrt). cbn [obind].
    destruct (find_least_ok (nr_neighbors rt) db agr') as (lcn & -> & Hlcn). cbn [obind].
    destruct lcn as [lk|]; [|eexists _, _; split; [done|]; split; [by apply extends_refl|]; right; auto].
    destruct (wf_neighbors _ Hwf _ _ Hrt (Hlcn lk eq_refl)) as [_ (r & a & Hr & _)].
    rewrite Hr. cbn [expect obind]. rewrite (make_pass_gossip_ok db lk r Hwf Hr). cbn [obind].
    eexists _, _. split; [done|]. split; [by apply extends_refl|]. right. split; [done|]. right.
    exists lk, r, rt, (NodeAddr.clone na). auto.
Qed.

Lemma debut_handle_ok db agrs source :
  wf db -> DebutHandler.qualifies db agrs source = Matched ->
  exists db' res, DebutHandler.handle cryptde db agrs source = Ret (db', res) /\ extends db db'.
Proof.
  intros Hwf Hq. assert (exists agr, agrs = [agr]) as (agr & ->).
  { unfold DebutHandler.qualifies in Hq. destruct agrs as [|agr [|]]; [done| |done]. eauto. }
  destruct (debut_outcome db agr source Hwf Hq) as (db' & res & H1 & H2 & _). eauto.
Qed.

Lemma pass_handle_ok db agrs source :
  wf db -> PassHandler.qualifies agrs source = Matched ->
  exists rt agr a, node_by_key db (this_node db) = Some rt /\ agrs = [agr] /\
    agr_node_addr_opt agr = Some a /\
    PassHandler.handle db agrs
      = Ret (db, Reply (gossip_new [said_of true rt]) (agr_key agr) (NodeAddr.clone a)).
Proof.
  intros Hwf Hq. unfold PassHandler.qualifies in Hq. destruct agrs as [|agr [|]]; [done| |done].
  destruct (agr_node_addr_opt agr) as [a|] eqn:Ea; [|done].
  destruct (wf_root _ Hwf) as [rt Hrt]. exists rt, agr, a. split_and!; [done..|].
  unfold PassHandler.handle. rewrite (proj2 (root_ret _ _) Hrt). cbn [obind].
  rewrite (wf_keys _ Hwf _ _ Hrt), (build_one db _ rt Hwf Hrt). cbn [head expect obind].
  by rewrite Ea.
Qed.

(** *** Introductions *)
Lemma adopt_introducer_ok db k :
  wf db -> reachable db k -> k <> this_node db ->
  exists db', IntroductionHandler.adopt_introducer cryptde db k = Ret db' /\ extends db db' /\
    db_has_half_neighbor db' (this_node db) k = true.
Proof.
  intros Hwf Hreach Hne. destruct (wf_root _ Hwf) as [rt Hrt].
  unfold IntroductionHandler.adopt_introducer. rewrite (add_half_neighbor_ok db k rt) by done.
  destruct (has_half_neighbor rt k) eqn:E; cbn [expect_ok obind].
  - exists db. split_and!; auto with node. unfold db_has_half_neighbor. by rewrite Hrt.
  - destruct (adopt_fresh db k rt Hwf Hreach Hne Hrt) as (db' & ? & ? & ? & ?). eauto.
Qed.

Lemma update_ok r agr r' :
  update r agr = (r', Ok ()) ->
  nr_key r' = nr_key r /\ keeps_addr r r' /\ agr_node_addr_opt agr = addr_of r' /\
  nr_version r' = ni_version (agr_inner agr) /\ agr_key agr = nr_key r.
Proof.
  unfold update. case_bool_decide as H1; [done|]. case_bool_decide as H2; [done|].
  case_bool_decide as H3; [done|]. intros [= <-].
  split_and!; try done. intros a Ha. unfold node_addr_opt at 1. simpl. rewrite H2, Ha. simpl.
  f_equal. unfold node_addr_opt in Ha. destruct (md_node_addr_opt _); [|done].
  injection Ha as <-. apply NodeAddr.clone_idemp.
Qed.

Lemma update_database_ok db agr a :
  wf db -> agr_key agr <> this_node db -> agr_node_addr_opt agr = Some a -> NodeAddr.ports a <> [] ->
  exists db' res, IntroductionHandler.update_database db cryptde agr = Ret (db', res) /\
    extends db db' /\ (forall e, res = Err e -> db' = db).
Proof.
  intros Hwf Hne Ha Hp. unfold IntroductionHandler.update_database.
  destruct (node_by_key db (agr_key agr)) as [r|] eqn:Er.
  - destruct (nr_version r <? ni_version (agr_inner agr)) eqn:Ev; [|eauto 7 with node].
    destruct (update r agr) as [r' [[]|e]] eqn:Eu; [|eauto 7 with node].
    destruct (update_ok r agr r' Eu) as (Hk & Hkeep & Hra & Hv & Hkr).
    assert (Hwf1 : wf (put_node (agr_key agr) r' db)).
    { eapply wf_put; [done | done | | done | done | done]. rewrite Hk. by apply (wf_keys _ Hwf). }
    assert (Hext1 : extends db (put_node (agr_key agr) r' db)).
    { eapply extends_put; [done..|]. split_and!; [done| |done]. intros _. lia. }
    destruct (adopt_introducer_ok (put_node (agr_key agr) r' db) (agr_key agr))
      as (db' & -> & Hext2 & _); [done| |done|].
    { exists r', a. rewrite node_by_key_put, bool_decide_true by done. split_and!; congruence. }
    cbn [obind]. eexists _, _. split_and!; [done|eauto with node|done].
  - assert (Hk : agr_key agr ∉ keys db) by (rewrite elem_of_keys; intros [q Hq]; congruence).
    destruct (add_node_agr db agr Hwf Hk) as [-> Hext1]; [intros b; rewrite Ha; by intros [= <-]|].
    cbn [expect_ok obind].
    destruct (adopt_introducer_ok (add_arbitrary_node db (record_from_agr agr)) (agr_key agr))
      as (db' & -> & Hext2 & _); [apply Hext1| |done|].
    { by apply (node_of_agr_reachable db agr a). }
    cbn [obind]. eexists _, _. split_and!; [done|eauto with node|done].
Qed.

Lemma make_debut_triple_ok db agr a :
  wf db -> agr_node_addr_opt agr = Some a -> NodeAddr.ports a <> [] ->
  exists rt, node_by_key db (this_node db) = Some rt /\
    make_debut_triple db agr
      = Ret (Some (gossip_new [said_of true rt], agr_key agr, NodeAddr.clone a)).
Proof.
  intros Hwf Ha Hp. destruct (wf_root _ Hwf) as [rt Hrt]. exists rt. split; [done|].
  unfold make_debut_triple. rewrite Ha, bool_decide_false by done.
  rewrite (proj2 (root_ret _ _) Hrt). cbn [obind].
  by rewrite (wf_keys _ Hwf _ _ Hrt), (build_one db _ rt Hwf Hrt).
Qed.

(** What a matching introduction looks like *)
Lemma introduction_matched db agrs source :
  wf db -> IntroductionHandler.qualifies db agrs source = Ret Matched ->
  exists introducer introducee na1 na2,
    IntroductionHandler.identify_players agrs source = Ret (Ok (introducer, introducee)) /\
    agr_node_addr_opt introducer = Some na1 /\ NodeAddr.ports na1 <> [] /\
    NodeAddr.ip_addr na1 = ip source /\ agr_key introducer <> this_node db /\
    agr_node_addr_opt introducee = Some na2 /\ NodeAddr.ports na2 <> [] /\
    node_by_key db (agr_key introducee) = None.
Proof.
  intros Hwf. unfold IntroductionHandler.qualifies, IntroductionHandler.verify_size,
    IntroductionHandler.identify_players, IntroductionHandler.order_is_introducee_introducer.
  destruct agrs as [|a1 [|a2 [|]]]; try done. simpl.
  destruct (agr_node_addr_opt a1) as [n1|] eqn:E1; [|done]. simpl.
  destruct (agr_node_addr_opt a2) as [n2|] eqn:E2; [|done]. simpl.
  destruct (wf_root _ Hwf) as [rt Hrt].
  assert (Hgo : forall x y nx ny, agr_node_addr_opt x = Some nx -> agr_node_addr_opt y = Some ny ->
    (let* rt := root db in
     let* q1 := IntroductionHandler.verify_introducer x rt in
     match q1 with
     | Some q => Ret q
     | None => match IntroductionHandler.verify_introducee db x y source with
               | Some q => Ret q | None => Ret Matched end
     end) = Ret Matched ->
    NodeAddr.ports nx <> [] /\ agr_key x <> this_node db /\ NodeAddr.ports ny <> [] /\
    node_by_key db (agr_key y) = None).
  { intros x y nx ny Hx Hy. rewrite (proj2 (root_ret _ _) Hrt). cbn [obind].
    unfold IntroductionHandler.verify_introducer, IntroductionHandler.verify_introducee.
    rewrite Hx, Hy, (wf_keys _ Hwf _ _ Hrt). cbn [expect obind].
    repeat (case_bool_decide; try done); destruct (node_addr_opt rt); simpl;
      repeat (case_bool_decide; try done); simpl; intros Hm; try done;
      (split_and!; [done|done|done|]); by apply eq_None_not_Some. }
  case_bool_decide as H1; [|case_bool_decide as H2; [|done]]; intros Hm;
    eapply Hgo in Hm; try done; naive_solver.
Qed.

Lemma introduction_qualifies_total db agrs source : wf db ->
  exists q, IntroductionHandler.qualifies db agrs source = Ret q.
Proof.
  intros Hwf. destruct (wf_root _ Hwf) as [rt Hrt].
  unfold IntroductionHandler.qualifies, IntroductionHandler.verify_size,
    IntroductionHandler.order_is_introducee_introducer.
  destruct agrs as [|a1 [|a2 [|]]]; simpl; try by eexists.
  destruct (agr_node_addr_opt a1) as [n1|] eqn:E1; simpl; [|by eexists].
  destruct (agr_node_addr_opt a2) as [n2|] eqn:E2; simpl; [|by eexists].
  rewrite (proj2 (root_ret _ _) Hrt).
  assert (Hv : forall x nx, agr_node_addr_opt x = Some nx ->
    exists o, IntroductionHandler.verify_introducer x rt = Ret o).
  { intros x nx Hx. unfold IntroductionHandler.verify_introducer. rewrite Hx. simpl. case_all; eauto. }
  destruct (Hv a1 n1 E1) as (o1 & Ho1), (Hv a2 n2 E2) as (o2 & Ho2).
  case_bool_decide; [|case_bool_decide; [|by eexists]]; cbn [obind]; rewrite ?Ho1, ?Ho2; cbn [obind];
    case_all; eauto.
Qed.

Lemma introduction_handle_ok db agrs source :
  wf db -> IntroductionHandler.qualifies db agrs source = Ret Matched ->
  exists db' res, IntroductionHandler.handle cryptde db agrs source = Ret (db', res) /\ extends db db'.
Proof.
  intros Hwf Hq.
  destruct (introduction_matched db agrs source Hwf Hq)
    as (x & y & nx & ny & Hid & Hx & Hpx & _ & Hne & Hy & Hpy & _).
  destruct (wf_root _ Hwf) as [rt Hrt].
  unfold IntroductionHandler.handle. rewrite (proj2 (root_ret _ _) Hrt). cbn [obind].
  destruct (MAX_DEGREE <=? _)%nat; [eauto with node|]. rewrite Hid. cbn [expect_ok obind].
  destruct (update_database_ok db x nx) as (db' & res & -> & Hext & _); [done..|]. cbn [obind].
  destruct res as [b|e]; [|eauto].
  destruct (make_debut_triple_ok db' y ny (proj1 Hext)) as (rt' & _ & ->); [done..|]. simpl. eauto.
Qed.

(** *** Standard Gossip *)
Lemma find_impostor_total rt next_door a :
  addr_of rt = Some a -> Forall (fun agr => is_Some (agr_node_addr_opt agr)) next_door ->
  exists o, StandardGossipHandler.find_impostor rt next_door = Ret o.
Proof.
  intros Ha. unfold addr_of in Ha. induction 1 as [|agr l [na Hna] Hl [o IH]]; simpl; [eauto|].
  unfold StandardGossipHandler.ip_of. rewrite Hna. simpl. unfold node_addr_opt. rewrite Ha. simpl.
  case_bool_decide; eauto.
Qed.

Lemma note_ip_total next_door : Forall (fun agr => is_Some (agr_node_addr_opt agr)) next_door ->
  forall s, exists s', ofold StandardGossipHandler.note_ip s next_door = Ret s'.
Proof.
  induction 1 as [|agr l [na Hna] Hl IH]; intros [s d]; simpl; [eauto|].
  unfold StandardGossipHandler.ip_of. rewrite Hna. simpl. apply IH.
Qed.

Lemma standard_qualifies_ok db agrs source : wf db ->
  exists q, StandardGossipHandler.qualifies db agrs source = Ret q /\
    (q = Matched -> Forall (fun agr => agr_key agr <> this_node db) agrs).
Proof.
  intros Hwf. destruct (wf_root _ Hwf) as [rt Hrt]. unfold StandardGossipHandler.qualifies.
  set (nd := filter _ agrs).
  assert (Hnd : Forall (fun agr => is_Some (agr_node_addr_opt agr)) nd).
  { rewrite Forall_forall. by intros x [? _]%list_elem_of_filter. }
  rewrite (proj2 (root_ret _ _) Hrt). cbn [obind].
  assert (exists o, (if nr_accepts_connections rt then StandardGossipHandler.find_impostor rt nd
    else Ret None) = Ret o) as (o & ->).
  { destruct (nr_accepts_connections rt) eqn:E; [|eauto].
    destruct (wf_root_addr _ Hwf rt Hrt E) as [a Ha]. by eapply find_impostor_total. }
  cbn [obind]. destruct o; [eexists; split; done|].
  rewrite (wf_keys _ Hwf _ _ Hrt). destruct (existsb _ agrs) eqn:E; [eexists; split; done|].
  destruct (note_ip_total nd Hnd (∅, ∅)) as ([s d] & ->). cbn [obind].
  assert (Hall : Forall (fun agr => agr_key agr <> this_node db) agrs).
  { rewrite Forall_forall. intros x Hx Heq.
    assert (existsb (fun agr => bool_decide (agr_key agr = this_node db)) agrs = true); [|congruence].
    apply existsb_exists. exists x. split; [by apply list_elem_of_In | by apply bool_decide_eq_true]. }
  case_match; eauto.
Qed.

Lemma new_node_ports known source agr a :
  StandardGossipHandler.is_new_node known source agr = true ->
  agr_node_addr_opt agr = Some a -> NodeAddr.ports a <> [].
Proof.
  unfold StandardGossipHandler.is_new_node. intros [_ Hs]%andb_true_iff Ha. rewrite Ha in Hs.
  apply bool_decide_eq_true in Hs. intros Hnil%NodeAddr.ports_clone_nil.
  unfold NodeAddr.into_socket_addrs in Hs. rewrite Hnil in Hs. by apply not_elem_of_nil in Hs.
Qed.

Lemma add_new_nodes_ok l : forall db,
  wf db -> NoDup (map agr_key l) -> Forall (fun agr => agr_key agr ∉ keys db) l ->
  Forall (fun agr => forall a, agr_node_addr_opt agr = Some a -> NodeAddr.ports a <> []) l ->
  exists db', ofold StandardGossipHandler.add_new_node db l = Ret db' /\ extends db db'.
Proof.
  induction l as [|agr l IH]; intros db Hwf Hnd Hnew Hports; simpl; [eauto with node|].
  apply NoDup_cons in Hnd as [Hnin Hnd]. apply Forall_cons in Hnew as [Hk Hnew].
  apply Forall_cons in Hports as [Hp Hports].
  unfold StandardGossipHandler.add_new_node at 1.
  destruct (add_node_agr_ref db agr Hwf Hk Hp) as [-> Hext]. cbn [expect_ok obind].
  destruct (IH (add_arbitrary_node db (record_from_agr_ref agr))) as (db' & -> & Hext');
    [apply Hext | done | | done | eauto with node].
  rewrite Forall_forall in Hnew |- *. intros x Hx. rewrite elem_of_keys, node_by_key_add.
  case_bool_decide as Hb.
  - exfalso. apply Hnin. change (agr_key agr = agr_key x) in Hb. rewrite Hb.
    by apply (list_elem_of_fmap_2 agr_key).
  - rewrite <- elem_of_keys. by apply Hnew.
Qed.

Lemma update_record_ok db agr r :
  wf db -> agr_key agr <> this_node db -> node_by_key db (agr_key agr) = Some r ->
  nr_version r < ni_version (agr_inner agr) ->
  exists db', StandardGossipHandler.update_database_record db agr = Ret (db', true) /\ extends db db'.
Proof.
  intros Hwf Hne Hr Hv. unfold StandardGossipHandler.update_database_record. rewrite Hr.
  cbn [expect obind].
  assert (exists r1, match node_addr_opt r, NodeAddr.clone <$> agr_node_addr_opt agr with
    | None, Some na => let (r', set) := set_node_addr r na in let* _ := expect_ok set in Ret r'
    | _, _ => Ret r end = Ret r1 /\ keeps_addr r r1) as (r1 & -> & Hkeep).
  { unfold node_addr_opt at 1, set_node_addr.
    destruct (md_node_addr_opt (metadata r)) eqn:E; [exists r; split; [done | by intros ? ?]|].
    assert (Hany : forall q, keeps_addr r q) by (unfold keeps_addr, node_addr_opt; by rewrite E).
    destruct (agr_node_addr_opt agr); simpl; eauto. }
  cbn [obind]. eexists. split; [done|].
  set (r2 := mkNodeRecord _ _ _ _). assert (Hkeep2 : keeps_addr r r2) by done.
  eapply extends_put; [|done|].
  - by eapply wf_put.
  - split_and!; [done| |done]. intros _. change (nr_version r2) with (ni_version (agr_inner agr)). lia.
Qed.

Lemma update_obsolete_ok agrs : forall db,
  wf db -> Forall (fun agr => agr_key agr <> this_node db) agrs ->
  exists db' b, StandardGossipHandler.identify_and_update_obsolete_nodes db agrs = Ret (db', b) /\
    extends db db'.
Proof.
  induction agrs as [|agr agrs IH]; intros db Hwf Hne; simpl; [eauto with node|].
  apply Forall_cons in Hne as [Hk Hne].
  assert (exists db1 f, match node_by_key db (agr_key agr) with
    | Some existing => if nr_version existing <? ni_version (agr_inner agr)
                       then StandardGossipHandler.update_database_record db agr else Ret (db, false)
    | None => Ret (db, false) end = Ret (db1, f) /\ extends db db1) as (db1 & f & -> & Hext).
  { destruct (node_by_key db (agr_key agr)) as [r|] eqn:Er; [|eauto with node].
    destruct (Z.ltb_spec (nr_version r) (ni_version (agr_inner agr))); [|eauto with node].
    destruct (update_record_ok db agr r) as (db1 & ? & ?); eauto. }
  cbn [obind]. destruct (IH db1) as (db2 & b & -> & Hext2); [apply Hext | |].
  { destruct Hext as (_ & -> & _). done. }
  cbn [obind]. eauto with node.
Qed.

Lemma handle_root_node_ok db source : wf db ->
  exists db' b, StandardGossipHandler.handle_root_node cryptde db source = Ret (db', b) /\
    extends db db'.
Proof.
  intros Hwf. destruct (wf_root _ Hwf) as [rt Hrt].
  unfold StandardGossipHandler.handle_root_node, node_by_ip.
  destruct (by_ip_addr db !! ip source) as [k|] eqn:Ei; [|eauto with node].
  destruct (wf_index _ Hwf _ _ Ei) as (r & a & Hr & Ha & _ & Hp). rewrite Hr.
  rewrite (proj2 (root_ret _ _) Hrt). cbn [obind].
  destruct (MAX_DEGREE <=? _)%nat; [eauto with node|]. rewrite (wf_keys _ Hwf _ _ Hr).
  destruct (decide (k = this_node db)) as [->|Hne].
  - assert (Hself : add_half_neighbor db (this_node db) = (db, Err (SelfNeighborAttempt (this_node db)))).
    { unfold add_half_neighbor. rewrite bool_decide_false by (rewrite elem_of_keys; eauto).
      unfold db_has_half_neighbor. rewrite Hrt.
      assert (has_half_neighbor rt (this_node db) = false) as ->.
      { apply bool_decide_eq_false. intros Hin. by destruct (wf_neighbors _ Hwf _ _ Hrt Hin). }
      unfold add_half_neighbor_key. rewrite (wf_keys _ Hwf _ _ Hrt). by rewrite bool_decide_true. }
    rewrite Hself. eauto with node.
  - assert (Hreach : reachable db k) by (exists r, a; auto).
    rewrite (add_half_neighbor_ok db k rt) by done.
    destruct (has_half_neighbor rt k); [eauto with node|].
    destruct (adopt_fresh db k rt Hwf Hreach Hne Hrt) as (db' & -> & Hext & _). simpl. eauto.
Qed.

Lemma standard_handle_ok db agrs source :
  wf db -> Forall (fun agr => agr_key agr <> this_node db) agrs -> NoDup (map agr_key agrs) ->
  exists db' res, StandardGossipHandler.handle cryptde db agrs source = Ret (db', res) /\ extends db db'.
Proof.
  intros Hwf Hne Hnd. unfold StandardGossipHandler.handle,
    StandardGossipHandler.identify_and_add_non_introductory_new_nodes.
  set (l := filter _ agrs).
  destruct (add_new_nodes_ok l db Hwf) as (db1 & -> & Hext1).
  - eapply sublist_NoDup; [exact Hnd|]. unfold l.
    apply (fmap_sublist agr_key), sublist_filter.
  - rewrite Forall_forall. intros x [Hx _]%list_elem_of_filter.
    by apply andb_true_iff in Hx as [Hx%bool_decide_eq_true _].
  - rewrite Forall_forall. intros x [Hx _]%list_elem_of_filter a. by eapply new_node_ports.
  - cbn [obind]. destruct (update_obsolete_ok agrs db1) as (db2 & b2 & -> & Hext2); [apply Hext1| |].
    { destruct Hext1 as (_ & -> & _). done. }
    cbn [obind]. destruct (handle_root_node_ok db2 source) as (db3 & b3 & -> & Hext3); [apply Hext2|].
    cbn [obind]. eexists _, _. split; [done|]. eauto using extends_trans.
Qed.
End handlers.

(** ** Properties *)

(** C4: Gossip cannot crash a Node. Whatever the records, as long as no two of them are for the
    same key, the acceptor settles on a handler and returns; the database it leaves is well-formed,
    is the same Node's, has lost no record; known addresses have stayed, no other Node's record
    has been replaced by an older version, and the local Node has lost no neighbor; and when the
    Gossip is banned for being malformed, nothing has changed. *)
Theorem gossip_acceptor_is_safe `{!HashOrder} `{!Serde NodeRecordInner} (cryptde : CryptDE)
    (db : NeighborhoodDatabase) (agrs : list AccessibleGossipRecord) (source : SocketAddr) :
  can_sign cryptde -> wf db -> NoDup (map agr_key agrs) ->
  exists db' res, acceptor_handle cryptde db agrs source = Ret (db', res) /\ extends db db' /\
    forall q h, find_handler gossip_handlers db agrs source = Ret (Some (q, h)) -> q <> Matched ->
      db' = db /\ exists reason, res = Ban reason.
Proof.
  intros Hs Hwf Hnd. unfold acceptor_handle, gossip_handlers. cbn [find_handler handler_qualifies obind].
  destruct (DebutHandler.qualifies db agrs source) eqn:Ed; cbn [expect obind].
  { destruct (debut_handle_ok cryptde Hs db agrs source Hwf Ed) as (db' & res & H1 & H2).
    exists db', res. split_and!; [exact H1|done|]. by intros q h [= <- <-]. }
  2:{ eexists _, _. split_and!; [done|by apply extends_refl|]. eauto. }
  destruct (PassHandler.qualifies agrs source) eqn:Ep; cbn [expect obind].
  { destruct (pass_handle_ok db agrs source Hwf Ep) as (rt & agr & a & _ & _ & _ & H1).
    eexists _, _. split_and!; [exact H1|by apply extends_refl|]. by intros q h [= <- <-]. }
  2:{ eexists _, _. split_and!; [done|by apply extends_refl|]. eauto. }
  assert (exists q, IntroductionHandler.qualifies db agrs source = Ret q) as (q & Hq)
    by by apply introduction_qualifies_total.
  rewrite Hq. cbn [obind]. destruct q as [| |reason]; cbn [expect obind].
  { destruct (introduction_handle_ok cryptde Hs db agrs source Hwf Hq) as (db' & res & H1 & H2).
    exists db', res. split_and!; [exact H1|done|]. by intros q h [= <- <-]. }
  2:{ eexists _, _. split_and!; [done|by apply extends_refl|]. eauto. }
  destruct (standard_qualifies_ok db agrs source Hwf) as (q & -> & Hne). cbn [obind].
  destruct q as [| |reason]; cbn [expect obind].
  - destruct (standard_handle_ok cryptde Hs db agrs source Hwf (Hne eq_refl) Hnd) as (db' & res & H1 & H2).
    exists db', res. split_and!; [exact H1|done|]. by intros q h [= <- <-].
  - eexists _, _. split_and!; [done|by apply extends_refl|]. eauto.
  - eexists _, _. split_and!; [done|by apply extends_refl|]. eauto.
Qed.

Definition toy_agr (k : PublicKey) (ns : list PublicKey) (v : Z) (na : option NodeAddr.NodeAddr)
  : AccessibleGossipRecord := mkAgr (mkPlainData []) (mkCryptData []) na (toy_inner k ns v).

Definition toy_source (n : Z) : SocketAddr := mkSocketAddr (V4 1 2 3 n) 1234.

Lemma gossip_acceptor_is_safe_witness :
  exists db' res, @acceptor_handle elements_order (countable_serde NodeRecordInner) (toy_cryptde key_a)
      toy_pair [toy_agr key_b [key_a; key_c] 4 (Some (toy_addr 2)); toy_agr key_c [key_b] 1 None]
      (toy_source 2) = Ret (db', res) /\ wf db'.
Proof.
  destruct (@gossip_acceptor_is_safe elements_order (countable_serde NodeRecordInner)
    (toy_cryptde key_a) toy_pair
    [toy_agr key_b [key_a; key_c] 4 (Some (toy_addr 2)); toy_agr key_c [key_b] 1 None] (toy_source 2)
    (toy_can_sign key_a ltac:(done)) toy_pair_wf) as (db' & res & H & [Hwf _] & _).
  - apply NoDup_cons. split; [|apply NoDup_singleton]. by intros [=]%list_elem_of_singleton.
  - exists db', res. split; [exact H | exact Hwf].
Defined.

(** a debut that qualifies is either accepted, and then the debuting Node is in the database
    with an address and a port, is a half neighbor of the local Node, and the answer is [Accepted]
    or an introduction; or the database is untouched and the debut is ignored or answered with a
    Pass, to the debuting Node, that names one of the local Node's neighbors. It is accepted only
    while the local Node's degree is below the maximum. *)
Theorem debut_adopted_or_passed `{!HashOrder} `{!Serde NodeRecordInner} (cryptde : CryptDE)
    (db : NeighborhoodDatabase) (agr : AccessibleGossipRecord) (source : SocketAddr) :
  can_sign cryptde -> wf db -> DebutHandler.qualifies db [agr] source = Matched ->
  exists db' res, DebutHandler.handle cryptde db [agr] source = Ret (db', res) /\
    ((reachable db' (agr_key agr) /\ db_has_half_neighbor db' (this_node db) (agr_key agr) = true /\
      (exists d, gossip_target_degree db (this_node db) = Ret d /\ (d < MAX_DEGREE)%nat)) \/
     (db' = db /\
      (res = Ignored \/
       exists k r rt na, res = Reply (gossip_new [said_of true r]) (agr_key agr) na /\
         node_by_key db (this_node db) = Some rt /\ k ∈ nr_neighbors rt /\ node_by_key db k = Some r))).
Proof.
  intros Hs Hwf Hq. destruct (debut_outcome cryptde Hs db agr source Hwf Hq) as (db' & res & H1 & _ & H2).
  by exists db', res.
Qed.

Lemma debut_adopted_or_passed_witness :
  exists db' res, @DebutHandler.handle elements_order (countable_serde NodeRecordInner)
    (toy_cryptde key_a) toy_pair [toy_agr key_c [] 0 (Some (toy_addr 3))] (toy_source 3)
    = Ret (db', res) /\ (reachable db' key_c \/ db' = toy_pair).
Proof.
  destruct (@debut_adopted_or_passed elements_order (countable_serde NodeRecordInner)
    (toy_cryptde key_a) toy_pair (toy_agr key_c [] 0 (Some (toy_addr 3))) (toy_source 3)
    (toy_can_sign key_a ltac:(done)) toy_pair_wf eq_refl) as (db' & res & H & [(Hr & _)|(He & _)]);
    exists db', res; (split; [exact H|]); [by left | by right].
Defined.

(** but two records for the same unknown Node, neither with an address, take every Node down
    that receives them: no handler objects to them, and adding the second one panics. *)
Theorem repeated_record_panics `{!HashOrder} `{!Serde NodeRecordInner} (cryptde : CryptDE)
    (db : NeighborhoodDatabase) (agr : AccessibleGossipRecord) (source : SocketAddr) :
  wf db -> agr_key agr ∉ keys db -> agr_node_addr_opt agr = None ->
  acceptor_handle cryptde db [agr; agr] source = Panic.
Proof.
  intros Hwf Hk Ha. destruct (wf_root _ Hwf) as [rt Hrt].
  pose proof (not_this_node db (agr_key agr) Hwf Hk) as Hne.
  assert (Hstd : StandardGossipHandler.qualifies db [agr; agr] source = Ret Matched).
  { unfold StandardGossipHandler.qualifies. rewrite (proj2 (root_ret _ _) Hrt).
    rewrite !filter_cons_False by (rewrite Ha; by intros []). cbn [filter list_filter obind].
    cbn [StandardGossipHandler.find_impostor].
    destruct (nr_accepts_connections rt); cbn [obind existsb];
      rewrite (wf_keys _ Hwf _ _ Hrt), bool_decide_false by done; reflexivity. }
  unfold acceptor_handle, gossip_handlers. cbn [find_handler handler_qualifies obind].
  unfold DebutHandler.qualifies, PassHandler.qualifies, IntroductionHandler.qualifies,
    IntroductionHandler.verify_size, IntroductionHandler.order_is_introducee_introducer.
  cbn [length Nat.eqb lookup list_lookup expect obind]. rewrite Ha. cbn [obind].
  rewrite Hstd. cbn [obind expect handler_handle].
  unfold StandardGossipHandler.handle, StandardGossipHandler.identify_and_add_non_introductory_new_nodes.
  assert (Hnew : StandardGossipHandler.is_new_node (keys db) source agr = true).
  { unfold StandardGossipHandler.is_new_node. rewrite Ha, bool_decide_true by done. done. }
  rewrite !filter_cons_True by done. rewrite filter_nil. cbn [ofold].
  unfold StandardGossipHandler.add_new_node.
  destruct (add_node_agr_ref db agr Hwf Hk) as [-> _]; [by rewrite Ha|]. cbn [expect_ok obind].
  set (db1 := add_arbitrary_node _ _).
  assert (Hcol : add_node db1 (record_from_agr_ref agr) = (db1, Err (NodeKeyCollision (agr_key agr)))).
  { unfold add_node, check_for_ports, check_for_collision, node_addr_opt. simpl. rewrite Ha. simpl.
    rewrite bool_decide_true; [done|]. apply elem_of_keys. eexists. unfold db1.
    rewrite node_by_key_add, bool_decide_true by done. done. }
  by rewrite Hcol.
Qed.

Lemma repeated_record_panics_witness :
  @acceptor_handle elements_order (countable_serde NodeRecordInner) (toy_cryptde key_a) toy_pair
    [toy_agr key_c [] 0 None; toy_agr key_c [] 0 None] (toy_source 2) = Panic.
Proof.
  apply (@repeated_record_panics elements_order (countable_serde NodeRecordInner) (toy_cryptde key_a)
    toy_pair (toy_agr key_c [] 0 None) (toy_source 2) toy_pair_wf); [|done].
  rewrite elem_of_keys. intros (r & Hr). by vm_compute in Hr.
Defined.

(** An address learned from Standard Gossip about a Node whose address was unknown is kept in
    the Node's record but not in the index by IP address: looking the Node up by that address
    still fails. *)
Theorem learned_address_is_not_indexed (db : NeighborhoodDatabase) (agr : AccessibleGossipRecord)
    (r : NodeRecord) (a : NodeAddr.NodeAddr) :
  node_by_key db (agr_key agr) = Some r -> addr_of r = None -> agr_node_addr_opt agr = Some a ->
  node_by_ip db (NodeAddr.ip_addr a) = None ->
  by_ip_addr db !! NodeAddr.ip_addr a <> Some (agr_key agr) ->
  exists db' r', StandardGossipHandler.update_database_record db agr = Ret (db', true) /\
    node_by_key db' (agr_key agr) = Some r' /\ node_addr_opt r' = Some (NodeAddr.clone a) /\
    node_by_ip db' (NodeAddr.ip_addr a) = None.
Proof.
  intros Hr Hnone Ha Hip Hix. unfold StandardGossipHandler.update_database_record. rewrite Hr.
  cbn [expect obind]. unfold node_addr_opt, addr_of in *. rewrite Hnone, Ha.
  cbn [fmap option_fmap option_map]. unfold set_node_addr. rewrite Hnone. cbn [expect_ok obind].
  eexists _, _. split; [done|]. rewrite node_by_key_put, bool_decide_true by done.
  split_and!; [done| |].
  - simpl. by rewrite !NodeAddr.clone_idemp.
  - unfold node_by_ip in *. simpl. destruct (by_ip_addr db !! NodeAddr.ip_addr a) as [k|]; [|done].
    rewrite node_by_key_put, bool_decide_false by congruence. done.
Qed.

Lemma learned_address_is_not_indexed_witness :
  exists db', StandardGossipHandler.update_database_record
      (put_node key_b (unset_node_addr (toy_record key_b [key_a] 0 2)) toy_alone)
      (toy_agr key_b [key_a] 1 (Some (toy_addr 2))) = Ret (db', true) /\
    node_by_ip db' (V4 1 2 3 2) = None.
Proof.
  destruct (learned_address_is_not_indexed
    (put_node key_b (unset_node_addr (toy_record key_b [key_a] 0 2)) toy_alone)
    (toy_agr key_b [key_a] 1 (Some (toy_addr 2)))
    (unset_node_addr (toy_record key_b [key_a] 0 2)) (toy_addr 2) eq_refl eq_refl eq_refl eq_refl
    ltac:(by vm_compute)) as (db' & r' & H & _ & _ & Hip).
  exists db'. split; [exact H | exact Hip].
Defined.
