(* ===== verification/Neighborhood.v ===== *)
(** * Neighborhood: the actor that keeps the database, answers route queries and gossips

    neighborhood/mod.rs and the messages of sub_lib/neighborhood.rs. A handler takes the actor's
    state and returns the new one with the messages it sends, in order. *)
From S2P Require Import Prelude Text SubLib Cryptde Wallet Route Utils SequenceBuffer Messages.
From S2P Require Import Hopper Database Gossip GossipAcceptor.

(** ** NodeDescriptor *)
Module NodeDescriptor.
Record NodeDescriptor := mk { public_key : PublicKey; node_addr_opt : option NodeAddr.NodeAddr }.

Inductive descriptor_error := BadDescriptor (s : str) | BadKey (e : str).

Definition from_str (cryptde : CryptDE) (s : str) (chain_id : Z)
  : outcome (result NodeDescriptor descriptor_error) :=
  let* delimiter := node_descriptor_delimiter chain_id in
  Ret (match splitn2 delimiter s with
       | [p0; p1] =>
           match descriptor_fragment_to_first_contact_public_key cryptde p0 with
           | Err e => Err (BadKey e)
           | Ok hpk =>
               if bool_decide (p1 = lit ":") then Ok (mk hpk None)
               else match NodeAddr.from_str p1 with
                    | Err _ => Err (BadDescriptor s)
                    | Ok na => Ok (mk hpk (Some na))
                    end
           end
       | _ => Err (BadDescriptor s)
       end).

Definition to_string (show_v6 : list Z -> str) (self : NodeDescriptor) (cryptde : CryptDE)
    (chain_id : Z) : outcome str :=
  let* delimiter := node_descriptor_delimiter chain_id in
  let* contact_public_key_string := public_key_to_descriptor_fragment cryptde (public_key self) in
  Ret (contact_public_key_string ++
       delimiter ::
       match node_addr_opt self with
       | Some na => NodeAddr.to_string show_v6 na
       | None => lit ":"
       end).

Definition from_record (r : NodeRecord) : NodeDescriptor := mk (nr_key r) (Database.node_addr_opt r).
End NodeDescriptor.

(** ** Messages *)
Inductive NodeQueryMessage := QueryIpAddress (i : IpAddr) | QueryPublicKey (k : PublicKey).

Record NodeQueryResponseMetadata := mkQueryResponse {
  qr_public_key : PublicKey;
  qr_node_addr_opt : option NodeAddr.NodeAddr;
  qr_rate_pack : RatePack
}.

Record RouteQueryMessage := mkRouteQuery {
  target_key_opt : option PublicKey;
  target_component : Component;
  minimum_hop_count : nat;
  return_component_opt : option Component
}.

Definition data_indefinite_route_request (hops : nat) : RouteQueryMessage :=
  mkRouteQuery None ProxyClient hops (Some ProxyServer).

Inductive ExpectedService :=
| Routing (k : PublicKey) (w : Wallet) (rp : RatePack)
| Exit (k : PublicKey) (w : Wallet) (rp : RatePack)
| Nothing.

Inductive ExpectedServices :=
| OneWay (s : list ExpectedService)
| RoundTrip (over back : list ExpectedService) (return_route_id : Z).

Record RouteQueryResponse := mkRouteResponse {
  response_route : Route;
  expected_services : ExpectedServices
}.

Inductive RouteDirection := Over | Back.

Inductive neighborhood_effect :=
| SendPackage (p : IncipientCoresPackage)
| SendNoLookup (p : NoLookupIncipientCoresPackage).

Record Neighborhood := mkNeighborhood {
  nh_cryptde : CryptDE;
  hopper_bound : bool;
  neighborhood_database : NeighborhoodDatabase;
  consuming_wallet_opt : option Wallet;
  next_return_route_id : Z;
  initial_neighbors : list str;
  chain_id : Z
}.

Definition with_database (db : NeighborhoodDatabase) (self : Neighborhood) : Neighborhood :=
  mkNeighborhood (nh_cryptde self) (hopper_bound self) db (consuming_wallet_opt self)
    (next_return_route_id self) (initial_neighbors self) (chain_id self).

(** ** Finding routes *)
Section routes.
Context `{!HashOrder} (db : NeighborhoodDatabase).

Definition route_length_qualifies (hops_remaining : nat) : bool := (hops_remaining =? 0)%nat.

Definition last_key_qualifies (last_node : NodeRecord) (target : option PublicKey) : bool :=
  match target with
  | Some t => bool_decide (nr_key last_node = t)
  | None => true
  end.

Definition validate_last_node_not_too_close_to_first_node (prefix_len : nat)
    (first_node_key candidate_node_key : PublicKey) : bool :=
  if (prefix_len <=? 2)%nat then true
  else negb (db_has_half_neighbor db candidate_node_key first_node_key).

Definition is_orig_node_on_back_leg (node : NodeRecord) (target : option PublicKey)
    (direction : RouteDirection) : bool :=
  match direction with
  | Over => false
  | Back => match target with
            | None => false
            | Some t => bool_decide (nr_key node = t)
            end
  end.

(** The two filters on the neighbors of the last Node so far *)
Definition can_continue (prefix : list PublicKey) (target : option PublicKey)
    (direction : RouteDirection) (n : NodeRecord) : bool :=
  negb (bool_decide (nr_key n ∈ prefix)) &&
  (nr_routes_data n || is_orig_node_on_back_leg n target direction).

Fixpoint complete_routes (fuel : nat) (prefix : list PublicKey) (target : option PublicKey)
    (hops_remaining : nat) (direction : RouteDirection) : outcome (list (list PublicKey)) :=
  match fuel with
  | O => OutOfFuel
  | S fuel' =>
      let* first_node_key := expect (head prefix) in
      let* last_node_key := expect (last prefix) in
      let* previous_node := expect (node_by_key db last_node_key) in
      if route_length_qualifies hops_remaining && last_key_qualifies previous_node target &&
         validate_last_node_not_too_close_to_first_node (length prefix) first_node_key
           (nr_key previous_node)
      then Ret [prefix]
      else if (hops_remaining =? 0)%nat && bool_decide (target = None) then Ret []
      else
        let* ns := full_neighbors prefix previous_node db in
        let* routes := omapM (fun n =>
            complete_routes fuel' (prefix ++ [nr_key n]) target (Nat.pred hops_remaining) direction)
          (filter (fun n => can_continue prefix target direction n = true) ns) in
        Ret (concat routes)
  end.

(** A route has no repeated Nodes, so the database bounds the depth of the search. *)
Definition search_fuel : nat := S (size (keys db)).

(** [is_desirable] of a route's exit Node *)
Definition exit_is_desirable (route : list PublicKey) : outcome bool :=
  let* k := expect (last route) in
  let* r := expect (node_by_key db k) in
  Ret (is_desirable r).

(** [Ordering::Greater] exactly for an undesirable exit before a desirable one *)
Definition desirable_le (a b : bool * list PublicKey) : Prop := a.1 = false -> b.1 = false.

#[export] Instance desirable_le_dec : RelDecision desirable_le.
Proof. intros [[] x] [[] y]; unfold desirable_le; simpl; solve [left; done | right; naive_solver]. Defined.

(** The comparator runs only when there are two routes to compare. *)
Definition sort_routes_by_desirable_exit_nodes (node_seqs : list (list PublicKey))
  : outcome (list (list PublicKey)) :=
  match node_seqs with
  | [] => Panic
  | [r] => Ret [r]
  | _ =>
      let* flagged := omapM (fun r => let* d := exit_is_desirable r in Ret (d, r)) node_seqs in
      Ret (map snd (merge_sort desirable_le flagged))
  end.

Inductive route_error :=
| NoRoutes (minimum_hops : nat) (origin : PublicKey) (c : Component) (target : option PublicKey)
| NoSegmentKeys
| NoConsumingWallet
| NoKeysInSegment
| UnknownNeighbor.

Definition make_route_segment (origin : PublicKey) (target : option PublicKey)
    (minimum_hop_count : nat) (target_component : Component) (direction : RouteDirection)
    : outcome (result RouteSegment route_error) :=
  let* node_seqs := complete_routes search_fuel [origin] target minimum_hop_count direction in
  if bool_decide (node_seqs = [])
  then Ret (Err (NoRoutes minimum_hop_count origin target_component target))
  else
    let* sorted := if bool_decide (target = None) then sort_routes_by_desirable_exit_nodes node_seqs
                   else Ret node_seqs in
    let* chosen := expect (head sorted) in
    Ret (Ok (mkRouteSegment chosen target_component)).

(** *** What services a route will be billed for *)
Definition calculate_expected_service (route_segment_key : PublicKey)
    (originator_key exit_key : option PublicKey) : outcome (result ExpectedService route_error) :=
  match node_by_key db route_segment_key with
  | None => Ret (Err UnknownNeighbor)
  | Some node =>
      let* rt := root db in
      if bool_decide (route_segment_key = nr_key rt) then Ret (Ok Nothing)
      else
        Ret (match originator_key, exit_key with
             | Some o, Some e =>
                 if bool_decide (route_segment_key = o) || bool_decide (route_segment_key = e)
                 then Ok (Exit route_segment_key (nr_earning_wallet node) (nr_rate_pack node))
                 else Ok (Routing route_segment_key (nr_earning_wallet node) (nr_rate_pack node))
             | _, _ => Err NoKeysInSegment
             end)
  end.

(** [collect] into a [Result]: stops at the first error *)
Fixpoint expected_services_of (ks : list PublicKey) (first_key last_key : option PublicKey)
  : outcome (result (list ExpectedService) route_error) :=
  match ks with
  | [] => Ret (Ok [])
  | k :: ks' =>
      let* r := calculate_expected_service k first_key last_key in
      match r with
      | Err e => Ret (Err e)
      | Ok s =>
          let* rs := expected_services_of ks' first_key last_key in
          Ret (let? ss := rs in Ok (s :: ss))
      end
  end.

Definition make_expected_services (segment : RouteSegment)
  : outcome (result (list ExpectedService) route_error) :=
  expected_services_of (seg_keys segment) (head (seg_keys segment)) (last (seg_keys segment)).
End routes.

(** ** The actor's handlers *)
Section actor.
Context `{!EthSign} (keccak256 : bytes -> bytes).
Context `{!HashOrder} `{!Serde NodeRecordInner} `{!Serde LiveHop} `{!Serde Z} `{!Serde MessageType}.

Definition neighborhood_new (cryptde : CryptDE) (mode : NeighborhoodMode.NeighborhoodMode)
    (earning_wallet : Wallet) (consuming_wallet : option Wallet) (chain : Z) : outcome Neighborhood :=
  if NeighborhoodMode.is_zero_hop mode && negb (bool_decide (NeighborhoodMode.neighbor_configs mode = []))
  then Panic
  else
    let* db := database_new (public_key cryptde) mode earning_wallet cryptde in
    Ret (mkNeighborhood cryptde false db consuming_wallet 0 (NeighborhoodMode.neighbor_configs mode) chain).

Definition handle_bind (self : Neighborhood) : Neighborhood :=
  mkNeighborhood (nh_cryptde self) true (neighborhood_database self) (consuming_wallet_opt self)
    (next_return_route_id self) (initial_neighbors self) (chain_id self).

Definition handle_set_consuming_wallet (self : Neighborhood) (w : Wallet) : Neighborhood :=
  mkNeighborhood (nh_cryptde self) (hopper_bound self) (neighborhood_database self) (Some w)
    (next_return_route_id self) (initial_neighbors self) (chain_id self).

(** [self.hopper.as_ref().expect("unbound hopper").try_send(..)] *)
Definition send (self : Neighborhood) (e : neighborhood_effect) : outcome neighborhood_effect :=
  if hopper_bound self then Ret e else Panic.

Definition debut_to (self : Neighborhood) (gossip : Gossip) (neighbor : str)
  : outcome neighborhood_effect :=
  let* parsed := NodeDescriptor.from_str (nh_cryptde self) neighbor (chain_id self) in
  let* descriptor := expect_ok parsed in
  match NodeDescriptor.node_addr_opt descriptor with
  | None => Panic
  | Some node_addr =>
      let* package := expect_ok (no_lookup_new (nh_cryptde self)
        (NodeDescriptor.public_key descriptor) node_addr (GossipMsg gossip)) in
      send self (SendNoLookup package)
  end.

Definition handle_start (self : Neighborhood) : outcome (list neighborhood_effect) :=
  if bool_decide (initial_neighbors self = []) then Ret []
  else
    let* gossip := produce_debut (neighborhood_database self) in
    omapM (debut_to self gossip) (initial_neighbors self).

Definition query_response (r : NodeRecord) : NodeQueryResponseMetadata :=
  mkQueryResponse (nr_key r) (NodeAddr.clone <$> node_addr_opt r) (nr_rate_pack r).

Definition handle_node_query (self : Neighborhood) (msg : NodeQueryMessage)
  : option NodeQueryResponseMetadata :=
  query_response <$>
    match msg with
    | QueryIpAddress i => node_by_ip (neighborhood_database self) i
    | QueryPublicKey k => node_by_key (neighborhood_database self) k
    end.

(** The answer goes to the recipient in the message, with the data that waits for it. *)
Definition handle_dispatcher_node_query (self : Neighborhood) (query : NodeQueryMessage)
    (context : TransmitDataMsg) : option NodeQueryResponseMetadata * TransmitDataMsg :=
  (handle_node_query self query, context).

(** u32 [wrapping_add] *)
Definition advance_return_route_id (self : Neighborhood) : Neighborhood * Z :=
  (mkNeighborhood (nh_cryptde self) (hopper_bound self) (neighborhood_database self)
     (consuming_wallet_opt self) (wrap 32 (next_return_route_id self + 1)) (initial_neighbors self)
     (chain_id self), next_return_route_id self).

Definition zero_hop_route_response (self : Neighborhood) : outcome (Neighborhood * RouteQueryResponse) :=
  let (self', return_route_id) := advance_return_route_id self in
  let me := public_key (nh_cryptde self) in
  let* built := round_trip keccak256 (mkRouteSegment [me; me] ProxyClient)
                  (mkRouteSegment [me; me] ProxyServer) (nh_cryptde self) None return_route_id None in
  let* route := expect_ok built in
  Ret (self', mkRouteResponse route (RoundTrip [Nothing; Nothing] [Nothing; Nothing] return_route_id)).

Definition compose_route_query_response (self : Neighborhood) (over back : RouteSegment)
  : outcome (Neighborhood * result RouteQueryResponse route_error) :=
  let db := neighborhood_database self in
  if bool_decide (seg_keys over = []) || bool_decide (seg_keys back = [])
  then Ret (self, Err NoSegmentKeys)
  else if bool_decide (consuming_wallet_opt self = None) &&
          ((2 <? length (seg_keys over))%nat || (2 <? length (seg_keys back))%nat)
  then Ret (self, Err NoConsumingWallet)
  else
    let* request := make_expected_services db over in
    match request with
    | Err e => Ret (self, Err e)
    | Ok expected_request_services =>
        let* response := make_expected_services db back in
        match response with
        | Err e => Ret (self, Err e)
        | Ok expected_response_services =>
            let (self', return_route_id) := advance_return_route_id self in
            let* built := round_trip keccak256 over back (nh_cryptde self) (consuming_wallet_opt self)
                            return_route_id (Some (contract_address (chain_id self))) in
            let* route := expect_ok built in
            Ret (self', Ok (mkRouteResponse route
                   (RoundTrip expected_request_services expected_response_services return_route_id)))
        end
    end.

Definition make_round_trip_route (self : Neighborhood) (msg : RouteQueryMessage)
  : outcome (Neighborhood * result RouteQueryResponse route_error) :=
  let db := neighborhood_database self in
  let me := public_key (nh_cryptde self) in
  let* over := make_route_segment db me (target_key_opt msg) (minimum_hop_count msg)
                 (target_component msg) Over in
  match over with
  | Err e => Ret (self, Err e)
  | Ok over =>
      let* exit_key := expect (last (seg_keys over)) in
      let* return_component := expect (return_component_opt msg) in
      let* back := make_route_segment db exit_key (Some me) (minimum_hop_count msg)
                     return_component Back in
      match back with
      | Err e => Ret (self, Err e)
      | Ok back => compose_route_query_response self over back
      end
  end.

Definition handle_route_query (self : Neighborhood) (msg : RouteQueryMessage)
  : outcome (Neighborhood * option RouteQueryResponse) :=
  if (minimum_hop_count msg =? 0)%nat then
    let* (self', r) := zero_hop_route_response self in Ret (self', Some r)
  else
    let* (self', r) := make_round_trip_route self msg in
    Ret (self', match r with Ok response => Some response | Err _ => None end).

(** *** Gossip *)
Definition create_single_hop_route (self : Neighborhood) (destination : PublicKey) : outcome Route :=
  let* built := one_way keccak256
    (mkRouteSegment [public_key (nh_cryptde self); destination] SubLib.Neighborhood) (nh_cryptde self) None None in
  expect_ok built.

Definition gossip_to (self : Neighborhood) (neighbor : PublicKey) : outcome neighborhood_effect :=
  let* gossip := produce (neighborhood_database self) neighbor in
  let* route := create_single_hop_route self neighbor in
  let* package := expect_ok (incipient_new (nh_cryptde self) route (GossipMsg gossip) neighbor) in
  send self (SendPackage package).

Definition gossip_to_neighbors (self : Neighborhood) : outcome (Neighborhood * list neighborhood_effect) :=
  let db := neighborhood_database self in
  let* rt := root db in
  let* rt' := regenerate_signed_gossip rt (nh_cryptde self) in
  let self' := with_database (put_node (this_node db) rt' db) self in
  let* rt'' := root (neighborhood_database self') in
  let* effects := omapM (gossip_to self') (hash_iter [] (nr_neighbors rt'')) in
  Ret (self', effects).

(** A package that cannot be encrypted is not sent. *)
Definition send_gossip (self : Neighborhood) (gossip : Gossip) (target_key : PublicKey)
    (target_node_addr : NodeAddr.NodeAddr) : outcome (list neighborhood_effect) :=
  match no_lookup_new (nh_cryptde self) target_key target_node_addr (GossipMsg gossip) with
  | Err _ => Ret []
  | Ok package => let* e := send self (SendNoLookup package) in Ret [e]
  end.

Definition handle_agrs (self : Neighborhood) (agrs : list AccessibleGossipRecord) (source : SocketAddr)
  : outcome (Neighborhood * list neighborhood_effect) :=
  let* (db', acceptance) := acceptor_handle (nh_cryptde self) (neighborhood_database self) agrs source in
  let self' := with_database db' self in
  match acceptance with
  | Accepted => gossip_to_neighbors self'
  | Reply next_debut relay_target relay_node_addr =>
      let* effects := send_gossip self' next_debut relay_target relay_node_addr in
      Ret (self', effects)
  | Ignored => Ret (self', [])
  | Ban _ => Ret (self', [])
  end.

Definition signature_invalid (cryptde : CryptDE) (agr : AccessibleGossipRecord) : outcome bool :=
  let* valid := verify_signature cryptde (agr_signed_gossip agr) (agr_signature agr) (agr_key agr) in Ret (negb valid).

Definition handle_gossip (self : Neighborhood) (incoming : Gossip) (source : SocketAddr)
  : outcome (Neighborhood * list neighborhood_effect) :=
  let record_count := length (node_records incoming) in
  let agrs := omap agr_try_from (node_records incoming) in
  if (length agrs <? record_count)%nat then Ret (self, [])
  else
    let* invalid := oany (signature_invalid (nh_cryptde self)) agrs in
    if invalid then Ret (self, []) else handle_agrs self agrs source.

Definition handle_expired_gossip (self : Neighborhood) (msg : ExpiredCoresPackage Gossip)
  : outcome (Neighborhood * list neighborhood_effect) :=
  handle_gossip self (payload msg) (immediate_neighbor msg).

(** *** Losing neighbors *)
Definition handle_remove_neighbor (self : Neighborhood) (k : PublicKey)
  : outcome (Neighborhood * list neighborhood_effect) :=
  let* (db', removed) := Database.remove_neighbor (neighborhood_database self) k in
  let self' := with_database db' self in
  match removed with
  | Err _ => Ret (self', [])
  | Ok true => gossip_to_neighbors self'
  | Ok false => Ret (self', [])
  end.

Definition remove_neighbor (self : Neighborhood) (k : PublicKey)
  : outcome (Neighborhood * list neighborhood_effect) :=
  let* (db', removed) := Database.remove_neighbor (neighborhood_database self) k in
  let self' := with_database db' self in
  match removed with
  | Err _ => Panic
  | Ok true => gossip_to_neighbors self'
  | Ok false => Ret (self', [])
  end.

Definition handle_stream_shutdown_msg (self : Neighborhood) (msg : StreamShutdownMsg)
  : outcome (Neighborhood * list neighborhood_effect) :=
  match stream_type msg with
  | NonClandestine _ _ => Panic
  | Clandestine =>
      match node_by_ip (neighborhood_database self) (ip (shutdown_peer_addr msg)) with
      | None => Ret (self, [])
      | Some n => remove_neighbor self (nr_key n)
      end
  end.

Definition handle_node_record_metadata (self : Neighborhood) (k : PublicKey) (desirable : bool)
  : Neighborhood :=
  let db := neighborhood_database self in
  match node_by_key db k with
  | Some r => with_database (put_node k (set_desirable r desirable) db) self
  | None => self
  end.
End actor.

(** ** What a found route is *)
Section search.
Context (db : NeighborhoodDatabase) (target : option PublicKey) (direction : RouteDirection).

(** From [p] one may go on to [k]: they are neighbors of each other, and [k] passes data on, or
    is the originator, at the end of the way back. *)
Definition hop_ok (p k : PublicKey) : Prop :=
  exists pr n, node_by_key db p = Some pr /\ node_by_key db k = Some n /\
    k ∈ nr_neighbors pr /\ p ∈ nr_neighbors n /\
    (nr_routes_data n = true \/ (direction = Back /\ target = Some k)).

Fixpoint walk (p : PublicKey) (rest : list PublicKey) : Prop :=
  match rest with
  | [] => True
  | k :: rest' => hop_ok p k /\ walk k rest'
  end.

(** The last Node is the target, if there is one; and, on routes of more than one hop, does not
    know the first one. *)
Definition ends_well (origin : PublicKey) (rest : list PublicKey) : Prop :=
  (forall t, target = Some t -> last_key origin rest = t) /\
  ((length rest <= 1)%nat \/ db_has_half_neighbor db (last_key origin rest) origin = false).

(** [s] completes the prefix [o :: pre] in [hops] more hops, or in more if there is a target. *)
Definition completes (o : PublicKey) (pre : list PublicKey) (hops : nat) (s : list PublicKey) : Prop :=
  NoDup ((o :: pre) ++ s) /\ walk (last_key o pre) s /\ (hops <= length s)%nat /\
  (target = None -> length s = hops) /\ ends_well o (pre ++ s).

(** [r] is a route from [origin] with at least [hops] hops. *)
Definition qualifying (origin : PublicKey) (hops : nat) (r : list PublicKey) : Prop :=
  exists s, r = origin :: s /\ completes origin [] hops s.

Lemma last_cons_last_key o pre : last (o :: pre) = Some (last_key o pre).
Proof. apply last_cons_key. Qed.

Lemma last_key_snoc o pre k : last_key o (pre ++ [k]) = k.
Proof. unfold last_key. by rewrite last_snoc. Qed.

Lemma completes_step o pre hops k s :
  hop_ok (last_key o pre) k -> completes o (pre ++ [k]) (Nat.pred hops) s -> target <> None \/ (0 < hops)%nat ->
  completes o pre hops (k :: s).
Proof.
  intros Hk (Hnd & Hw & Hlen & Hex & Hend) Hgo. rewrite last_key_snoc in Hw.
  replace ((o :: pre ++ [k]) ++ s) with ((o :: pre) ++ k :: s) in Hnd
    by (simpl; by rewrite <- app_assoc).
  replace ((pre ++ [k]) ++ s) with (pre ++ k :: s) in Hend by by rewrite <- app_assoc.
  split_and!; [done | done | simpl; lia | | done].
  intros Ht. specialize (Hex Ht). simpl. destruct Hgo; [done|lia].
Qed.

Lemma completes_cons_inv o pre hops k s :
  completes o pre hops (k :: s) ->
  hop_ok (last_key o pre) k /\ ~ (k ∈ o :: pre) /\ completes o (pre ++ [k]) (Nat.pred hops) s.
Proof.
  intros (Hnd & [Hk Hw] & Hlen & Hex & Hend).
  pose proof Hnd as Hnd'. apply NoDup_app in Hnd' as (_ & Hdisj & _).
  split_and!; [done | intros Hin; apply (Hdisj k Hin); left |].
  replace ((o :: pre) ++ k :: s) with ((o :: pre ++ [k]) ++ s) in Hnd
    by (simpl; by rewrite <- app_assoc).
  replace (pre ++ k :: s) with ((pre ++ [k]) ++ s) in Hend by by rewrite <- app_assoc.
  simpl in Hlen. split_and!; [done | by rewrite last_key_snoc | lia | | done].
  intros Ht. specialize (Hex Ht). simpl in Hex. lia.
Qed.
End search.

Section search_proof.
Context `{!HashOrder} (db : NeighborhoodDatabase) (target : option PublicKey).
Context (direction : RouteDirection).
Hypothesis db_wf : wf db.

(** The first test of [complete_routes]: the prefix is a route already. *)
Definition stops (o : PublicKey) (pre : list PublicKey) (hops : nat) (prev : NodeRecord) : bool :=
  route_length_qualifies hops && last_key_qualifies prev target &&
  validate_last_node_not_too_close_to_first_node db (length (o :: pre)) o (nr_key prev).

Lemma stops_spec o pre hops prev :
  node_by_key db (last_key o pre) = Some prev -> NoDup (o :: pre) ->
  stops o pre hops prev = true <-> (completes db target direction o pre hops [] /\ hops = 0%nat).
Proof.
  intros Hp Hnd. unfold stops, completes, ends_well, route_length_qualifies, last_key_qualifies,
    validate_last_node_not_too_close_to_first_node.
  rewrite (wf_keys _ db_wf _ _ Hp), !app_nil_r, !andb_true_iff, Nat.eqb_eq. simpl.
  destruct target as [t|]; rewrite ?bool_decide_eq_true;
    destruct (Nat.leb_spec (length pre) 1); rewrite ?negb_true_iff; naive_solver lia.
Qed.

Lemma can_continue_spec o pre n prev :
  node_by_key db (last_key o pre) = Some prev ->
  nr_key n ∈ full_neighbor_keys prev db -> node_by_key db (nr_key n) = Some n ->
  can_continue (o :: pre) target direction n = true <->
    (~ (nr_key n ∈ o :: pre) /\ hop_ok db target direction (last_key o pre) (nr_key n)).
Proof.
  intros Hp Hfull Hn. apply elem_of_full_neighbor_keys in Hfull as (Hk & n' & Hn' & Hback).
  rewrite (wf_keys _ db_wf _ _ Hp) in Hback. unfold can_continue, is_orig_node_on_back_leg, hop_ok.
  rewrite andb_true_iff, negb_true_iff, bool_decide_eq_false, orb_true_iff.
  assert ((match direction with Over => false | Back => match target with
    | Some t => bool_decide (nr_key n = t) | None => false end end = true) <->
    direction = Back /\ target = Some (nr_key n)) as ->.
  { destruct direction, target; rewrite ?bool_decide_eq_true; naive_solver. }
  rewrite Hn in Hn'. injection Hn' as <-. naive_solver.
Qed.

Lemma elem_of_full_neighbors salt prev ns n :
  full_neighbors salt prev db = Ret ns ->
  n ∈ ns <-> (nr_key n ∈ full_neighbor_keys prev db /\ node_by_key db (nr_key n) = Some n).
Proof.
  intros Hns%omapM_ret_Forall2. rewrite <- (elem_of_hash_iter salt). split.
  - intros [i Hi]%list_elem_of_lookup.
    destruct (Forall2_lookup_r _ _ _ _ _ Hns Hi) as (k & Hk & Hkn%expect_ret).
    rewrite (wf_keys _ db_wf _ _ Hkn). split; [|done]. apply list_elem_of_lookup. eauto.
  - intros [[i Hi]%list_elem_of_lookup Hkn].
    destruct (Forall2_lookup_l _ _ _ _ _ Hns Hi) as (n' & Hn' & Hkn'%expect_ret).
    rewrite Hkn in Hkn'. injection Hkn' as ->. apply list_elem_of_lookup. eauto.
Qed.

(** The neighbors through which the search goes on *)
Lemma candidates_spec o pre prev ns n :
  node_by_key db (last_key o pre) = Some prev -> full_neighbors (o :: pre) prev db = Ret ns ->
  n ∈ filter (fun n => can_continue (o :: pre) target direction n = true) ns <->
    (node_by_key db (nr_key n) = Some n /\ ~ (nr_key n ∈ o :: pre) /\
     hop_ok db target direction (last_key o pre) (nr_key n)).
Proof.
  intros Hprev Hns. rewrite list_elem_of_filter, (elem_of_full_neighbors _ _ _ _ Hns). split.
  - intros (Hc & Hf & Hn). by rewrite (can_continue_spec o pre n prev) in Hc.
  - intros (Hn & Hnin & Hhop). pose proof Hhop as (pr & n' & Hpr & Hn' & Hk & Hb & _).
    assert (Hf : nr_key n ∈ full_neighbor_keys prev db).
    { apply elem_of_full_neighbor_keys. rewrite Hprev in Hpr. injection Hpr as ->.
      rewrite (wf_keys _ db_wf _ _ Hprev). eauto. }
    split; [|done]. by apply (can_continue_spec o pre n prev).
Qed.

(** The search returns, finds only routes, and of every route an initial part at least. *)
Definition finds (fuel : nat) (o : PublicKey) (pre : list PublicKey) (hops : nat) : Prop :=
  exists rs, complete_routes db fuel (o :: pre) target hops direction = Ret rs /\
    (forall r, r ∈ rs -> exists s, r = (o :: pre) ++ s /\ completes db target direction o pre hops s) /\
    (forall s, completes db target direction o pre hops s ->
       exists s1, s1 `prefix_of` s /\ (o :: pre) ++ s1 ∈ rs).

Definition searchable (fuel : nat) (ks : list PublicKey) : Prop :=
  NoDup ks /\ (forall k, k ∈ ks -> k ∈ keys db) /\ (size (keys db) < fuel + length ks)%nat.

Lemma searchable_step fuel o pre n :
  searchable (S fuel) (o :: pre) -> node_by_key db (nr_key n) = Some n -> ~ (nr_key n ∈ o :: pre) ->
  searchable fuel (o :: pre ++ [nr_key n]).
Proof.
  intros (Hnd & Hsub & Hfuel) Hn Hnin.
  change (o :: pre ++ [nr_key n]) with ((o :: pre) ++ [nr_key n]). split_and!.
  - apply NoDup_app. split_and!; [done| |apply NoDup_singleton].
    by intros k Hk ->%list_elem_of_singleton.
  - intros k. rewrite elem_of_app, list_elem_of_singleton. intros [?| ->]; [by apply Hsub|].
    apply elem_of_keys. eauto.
  - rewrite length_app. simpl in *. lia.
Qed.

Lemma not_searchable_0 ks : ~ searchable 0 ks.
Proof.
  intros (Hnd & Hsub & Hfuel).
  assert (size (list_to_set ks : gset PublicKey) <= size (keys db))%nat as Hle
    by (apply subseteq_size; set_solver).
  rewrite size_list_to_set in Hle by done. lia.
Qed.

(** One level of the search, given the levels below it *)
Lemma search_deeper fuel o pre hops prev :
  (forall k, searchable fuel (o :: pre ++ [k]) -> finds fuel o (pre ++ [k]) (Nat.pred hops)) ->
  searchable (S fuel) (o :: pre) -> node_by_key db (last_key o pre) = Some prev ->
  target <> None \/ (0 < hops)%nat -> stops o pre hops prev = false ->
  exists rs,
    (let* ns := full_neighbors (o :: pre) prev db in
     let* routes := omapM (fun n =>
         complete_routes db fuel ((o :: pre) ++ [nr_key n]) target (Nat.pred hops) direction)
       (filter (fun n => can_continue (o :: pre) target direction n = true) ns) in
     Ret (concat routes)) = Ret rs /\
    (forall r, r ∈ rs -> exists s, r = (o :: pre) ++ s /\ completes db target direction o pre hops s) /\
    (forall s, completes db target direction o pre hops s ->
       exists s1, s1 `prefix_of` s /\ (o :: pre) ++ s1 ∈ rs).
Proof.
  intros Hrec Hs Hprev Hgo Hstop.
  destruct (full_neighbors_total (o :: pre) prev db) as (ns & Hns & _). rewrite Hns. cbn [obind].
  set (cands := filter _ ns).
  assert (Hcand := fun n => candidates_spec o pre prev ns n Hprev Hns). fold cands in Hcand.
  assert (Hfinds : forall n, n ∈ cands -> finds fuel o (pre ++ [nr_key n]) (Nat.pred hops)).
  { intros n (Hn & Hnin & _)%Hcand. by apply Hrec, searchable_step. }
  destruct (omapM_total (fun n => complete_routes db fuel ((o :: pre) ++ [nr_key n]) target
    (Nat.pred hops) direction) cands) as (rss & Hrss).
  { intros n Hn. destruct (Hfinds n Hn) as (rs & Hrs & _). eauto. }
  rewrite Hrss. cbn [obind]. eexists. split; [done|]. split.
  - intros r (n & rs & Hn & Hrs & Hr)%(elem_of_concat_omapM _ _ _ r Hrss).
    destruct (Hfinds n Hn) as (rs' & Hrs' & Hsound & _).
    change ((o :: pre) ++ [nr_key n]) with (o :: pre ++ [nr_key n]) in Hrs.
    rewrite Hrs' in Hrs. injection Hrs as ->. destruct (Hsound r Hr) as (s & -> & Hc).
    apply Hcand in Hn as (_ & _ & Hhop). exists (nr_key n :: s).
    split; [simpl; by rewrite <- app_assoc | by apply completes_step].
  - intros s Hc. destruct s as [|k s].
    { destruct (decide (hops = 0%nat)) as [->|]; [|destruct Hc as (_ & _ & Hl & _); simpl in Hl; lia].
      assert (stops o pre 0 prev = true); [apply stops_spec; [done|apply Hs|done]|congruence]. }
    apply completes_cons_inv in Hc as (Hhop & Hnin & Hc).
    pose proof Hhop as (_ & n & _ & Hn & _). pose proof (wf_keys _ db_wf _ _ Hn) as <-.
    assert (Hin : n ∈ cands) by (by apply Hcand).
    destruct (Hfinds n Hin) as (rs & Hrs & _ & Hne). destruct (Hne s Hc) as (s1 & Hpre & Hr).
    exists (nr_key n :: s1). split; [by apply prefix_cons|].
    apply (elem_of_concat_omapM _ _ _ _ Hrss). exists n, rs. split_and!; [done|exact Hrs|].
    simpl in *. by rewrite <- app_assoc in Hr.
Qed.

Lemma complete_routes_spec fuel : forall o pre hops, searchable fuel (o :: pre) -> finds fuel o pre hops.
Proof.
  induction fuel as [|fuel IH]; intros o pre hops Hs; [by apply not_searchable_0 in Hs|].
  pose proof Hs as (Hnd & Hsub & _). unfold finds.
  cbn [complete_routes head expect obind]. rewrite last_cons_last_key. cbn [expect obind].
  assert (exists prev, node_by_key db (last_key o pre) = Some prev) as (prev & Hprev)
    by (apply elem_of_keys, Hsub, last_key_in).
  rewrite Hprev. cbn [expect obind]. fold (stops o pre hops prev).
  destruct (stops o pre hops prev) eqn:Estop.
  { apply stops_spec in Estop as [Hc ->]; [|done..]. eexists. split; [done|]. split.
    - intros r ->%list_elem_of_singleton. exists []. by rewrite app_nil_r.
    - intros s _. exists []. split; [apply prefix_nil|]. rewrite app_nil_r. left. }
  destruct ((hops =? 0)%nat && bool_decide (target = None)) eqn:Edead.
  { apply andb_true_iff in Edead as [->%Nat.eqb_eq Ht%bool_decide_eq_true].
    eexists. split; [done|]. split; [by intros r ?%not_elem_of_nil|]. intros s Hc.
    destruct s; [|by destruct Hc as (_ & _ & _ & Hex & _); specialize (Hex Ht)].
    assert (stops o pre 0 prev = true); [by apply stops_spec|congruence]. }
  apply search_deeper; [by intros k; apply IH | done | done | | done].
  apply andb_false_iff in Edead as [?%Nat.eqb_neq|?%bool_decide_eq_false]; [right; lia|by left].
Qed.
End search_proof.

(** *** Choosing among the routes *)
Definition has_desirable_exit (db : NeighborhoodDatabase) (r : list PublicKey) : Prop :=
  exit_is_desirable db r = Ret true.

#[global] Instance desirable_le_total : Total desirable_le.
Proof. intros [[] x] [[] y]; unfold desirable_le; simpl; tauto. Qed.
#[global] Instance desirable_le_trans : Transitive desirable_le.
Proof. intros [[] x] [[] y] [[] z]; unfold desirable_le; simpl; tauto. Qed.

Lemma exit_desirable_total db o s r :
  node_by_key db (last_key o s) = Some r -> exit_is_desirable db (o :: s) = Ret (is_desirable r).
Proof. intros Hr. unfold exit_is_desirable. rewrite last_cons_last_key. simpl. by rewrite Hr. Qed.

(** Sorting keeps the routes and puts one with a desirable exit first, if there is one. *)
Lemma sort_routes_ok db rs :
  rs <> [] -> (forall r, r ∈ rs -> exists d, exit_is_desirable db r = Ret d) ->
  exists r rest, sort_routes_by_desirable_exit_nodes db rs = Ret (r :: rest) /\ r ∈ rs /\
    (forall r', r' ∈ rs -> has_desirable_exit db r' -> has_desirable_exit db r).
Proof.
  intros Hne Hd. unfold sort_routes_by_desirable_exit_nodes.
  destruct rs as [|r0 [|r1 rs]]; [done| |].
  { exists r0, []. split_and!; [done|left|]. by intros r' ->%list_elem_of_singleton. }
  set (all := r0 :: r1 :: rs) in *.
  destruct (omapM_total (fun r => let* d := exit_is_desirable db r in Ret (d, r)) all) as (fl & Hfl).
  { intros r Hr. destruct (Hd r Hr) as (d & ->). simpl. eauto. }
  rewrite Hfl. cbn [obind].
  assert (Hin : forall p, p ∈ fl <-> (p.2 ∈ all /\ exit_is_desirable db p.2 = Ret p.1)).
  { intros [d r]. apply omapM_ret_Forall2 in Hfl. simpl. split.
    - intros [i Hi]%list_elem_of_lookup. destruct (Forall2_lookup_r _ _ _ _ _ Hfl Hi) as (x & Hx & He).
      unbind. split; [apply list_elem_of_lookup; eauto | done].
    - intros [[i Hi]%list_elem_of_lookup He].
      destruct (Forall2_lookup_l _ _ _ _ _ Hfl Hi) as (p & Hp & Hep). rewrite He in Hep.
      injection Hep as <-. apply list_elem_of_lookup. eauto. }
  pose proof (merge_sort_Permutation desirable_le fl) as Hperm.
  pose proof (StronglySorted_merge_sort desirable_le fl) as Hsort.
  destruct (merge_sort desirable_le fl) as [|[d r] rest].
  { exfalso. apply Permutation_nil_l in Hperm. subst fl. destruct (Hd r0) as (d & Hd0); [left|].
    assert ((d, r0) ∈ []) as ?%not_elem_of_nil; [|done]. apply Hin. split; [left|done]. }
  assert (Hr : (d, r) ∈ fl) by (rewrite <- Hperm; left). apply Hin in Hr as [Hr Hdr]. simpl in *.
  exists r, (map snd rest). split_and!; [done|done|]. intros r' Hr' Hdes. unfold has_desirable_exit in *.
  assert (Hp : (true, r') ∈ (d, r) :: rest) by (rewrite Hperm; by apply Hin).
  apply elem_of_cons in Hp as [[= <- <-]|Hp]; [done|]. inversion_clear Hsort as [|?? _ Hall].
  rewrite Forall_forall in Hall. specialize (Hall _ Hp). unfold desirable_le in Hall. simpl in Hall.
  rewrite Hdr. destruct d; [done|]. by specialize (Hall eq_refl).
Qed.

Lemma walk_last_known db target direction o s : forall r,
  node_by_key db o = Some r -> walk db target direction o s ->
  exists r', node_by_key db (last_key o s) = Some r'.
Proof.
  revert o. induction s as [|k s IH]; intros o r Ho; simpl; [eauto|].
  intros [(pr & n & _ & Hn & _) Hw]. rewrite last_key_cons. by eapply IH.
Qed.

Lemma make_route_segment_ok `{!HashOrder} db origin ro target hops component direction :
  wf db -> node_by_key db origin = Some ro ->
  (exists keys, make_route_segment db origin target hops component direction
       = Ret (Ok (mkRouteSegment keys component)) /\
     qualifying db target direction origin hops keys /\
     (target = None -> forall r, qualifying db target direction origin hops r ->
        has_desirable_exit db r -> has_desirable_exit db keys)) \/
  (make_route_segment db origin target hops component direction
     = Ret (Err (NoRoutes hops origin component target)) /\
   forall r, ~ qualifying db target direction origin hops r).
Proof.
  intros Hwf Ho.
  destruct (complete_routes_spec db target direction Hwf (search_fuel db) origin [] hops)
    as (rs & Hrs & Hsound & Hcompl).
  { split_and!; [apply NoDup_singleton| |unfold search_fuel; simpl; lia].
    intros k ->%list_elem_of_singleton. apply elem_of_keys. eauto. }
  unfold make_route_segment. rewrite Hrs. cbn [obind]. case_bool_decide as Hnil.
  { right. split; [done|]. intros r (s & -> & Hc). destruct (Hcompl s Hc) as (s1 & _ & Hr).
    subst rs. by apply not_elem_of_nil in Hr. }
  left.
  assert (Hq : forall r, r ∈ rs -> qualifying db target direction origin hops r).
  { intros r (s & -> & Hc)%Hsound. by exists s. }
  assert (Hdes : forall r, r ∈ rs -> exists d, exit_is_desirable db r = Ret d).
  { intros r (s & -> & Hc)%Hq. destruct Hc as (_ & Hw & _).
    destruct (walk_last_known _ _ _ origin s ro Ho Hw) as (r' & Hr').
    rewrite (exit_desirable_total db origin s r' Hr'). eauto. }
  case_bool_decide as Ht.
  - destruct (sort_routes_ok db rs Hnil Hdes) as (r & rest & -> & Hr & Hbest). cbn [obind head expect].
    exists r. split_and!; [done|by apply Hq|]. intros _ r' (s & -> & Hc) Hd'. apply (Hbest (origin :: s)); [|done].
    destruct (Hcompl s Hc) as (s1 & [s2 ->] & Hr1). destruct (Hsound _ Hr1) as (s' & [= <-] & Hc').
    destruct Hc as (_ & _ & _ & Hl & _), Hc' as (_ & _ & _ & Hl' & _).
    specialize (Hl Ht). specialize (Hl' Ht). rewrite length_app in Hl.
    assert (s2 = []) as -> by (apply length_zero_iff_nil; lia). by rewrite app_nil_r.
  - destruct rs as [|r rest]; [done|]. cbn [obind head expect]. exists r.
    split_and!; [done|apply Hq; left|done].
Qed.

(** *** Expected services *)

(** What the Node [k] of the segment [ks] is to be paid for: the local Node for nothing, the
    ends of the segment for exit service, the others for routing. *)
Definition service_of (db : NeighborhoodDatabase) (ks : list PublicKey) (k : PublicKey) : ExpectedService :=
  match node_by_key db k with
  | Some n =>
      if bool_decide (k = this_node db) then Nothing
      else if bool_decide (head ks = Some k) || bool_decide (last ks = Some k)
      then Exit k (nr_earning_wallet n) (nr_rate_pack n)
      else Routing k (nr_earning_wallet n) (nr_rate_pack n)
  | None => Nothing
  end.

Lemma calculate_ok db ks k n o e :
  wf db -> head ks = Some o -> last ks = Some e -> node_by_key db k = Some n ->
  calculate_expected_service db k (Some o) (Some e) = Ret (Ok (service_of db ks k)).
Proof.
  intros Hwf Ho He Hk. destruct (wf_root _ Hwf) as [rt Hrt]. unfold calculate_expected_service, service_of.
  rewrite Hk, (proj2 (root_ret _ _) Hrt), Ho, He. cbn [obind]. rewrite (wf_keys _ Hwf _ _ Hrt).
  case_bool_decide; [done|].
  rewrite (bool_decide_ext (k = o) (Some o = Some k)), (bool_decide_ext (k = e) (Some e = Some k))
    by naive_solver. by destruct (_ || _).
Qed.

Lemma make_expected_services_ok db ks c :
  wf db -> ks <> [] -> Forall (fun k => k ∈ keys db) ks ->
  make_expected_services db (mkRouteSegment ks c) = Ret (Ok (map (service_of db ks) ks)).
Proof.
  intros Hwf Hne Hall. unfold make_expected_services. cbn [seg_keys].
  destruct ks as [|o s]; [done|]. rewrite last_cons_last_key. cbn [head].
  set (ks := o :: s) in *.
  assert (Hl : last ks = Some (last_key o s)) by apply last_cons_last_key.
  assert (Hgo : forall l, Forall (fun k => k ∈ keys db) l ->
    expected_services_of db l (Some o) (Some (last_key o s)) = Ret (Ok (map (service_of db ks) l)));
    [|by apply Hgo].
  induction 1 as [|k l (n & Hn)%elem_of_keys Hall' IH]; simpl; [done|].
  rewrite (calculate_ok db ks k n o (last_key o s)) by done. cbn [obind]. by rewrite IH.
Qed.

Lemma walk_keys db target direction o s :
  o ∈ keys db -> walk db target direction o s -> Forall (fun k => k ∈ keys db) (o :: s).
Proof.
  revert o. induction s as [|k s IH]; intros o Ho Hw; [by repeat constructor|].
  destruct Hw as [(pr & n & _ & Hn & _) Hw]. constructor; [done|]. apply IH; [|done].
  apply elem_of_keys. eauto.
Qed.

Lemma qualifying_keys db target direction o h r :
  o ∈ keys db -> qualifying db target direction o h r -> Forall (fun k => k ∈ keys db) r.
Proof. intros Ho (s & -> & _ & Hw & _). by eapply walk_keys. Qed.

(** *** Answering a route query *)
Section query.
Context `{!EthSign} (keccak256 : bytes -> bytes).
Context `{!HashOrder} `{!Serde NodeRecordInner} `{!Serde LiveHop} `{!Serde Z} `{!Serde MessageType}.
Context `{!SerdeOk LiveHop hop_on_wire} `{!SerdeOk Z (uint 32)}.
Context (self : Neighborhood) (net : PublicKey -> CryptDE).
Let db := neighborhood_database self.
Let me := public_key (nh_cryptde self).

(** The actor is in working order: its database is well-formed and its own, it can encrypt to
    the Nodes it knows, and, if it has a consuming wallet, pay with it. *)
Record in_order : Prop := {
  io_wf : wf db;
  io_me : this_node db = me;
  io_net : forall k, k ∈ keys db -> on_net (nh_cryptde self) net k;
  io_self : CryptPair (nh_cryptde self) (nh_cryptde self);
  io_pay : can_pay keccak256 (consuming_wallet_opt self) (Some (contract_address (chain_id self)));
  io_id : uint 32 (next_return_route_id self)
}.

(** The same Neighborhood with its next return route id used up (the id is a u32 and wraps around) *)
Definition id_used_up : Neighborhood :=
  mkNeighborhood (nh_cryptde self) (hopper_bound self) (neighborhood_database self)
    (consuming_wallet_opt self) ((next_return_route_id self + 1) mod 2 ^ 32) (initial_neighbors self)
    (chain_id self).

Lemma compose_ok s s' c c' :
  in_order -> Forall (fun k => k ∈ keys db) (me :: s) ->
  Forall (fun k => k ∈ keys db) (last_key me s :: s') ->
  (consuming_wallet_opt self = None -> (length s <= 1)%nat /\ (length s' <= 1)%nat) ->
  exists r, round_trip keccak256 (mkRouteSegment (me :: s) c) (mkRouteSegment (last_key me s :: s') c')
      (nh_cryptde self) (consuming_wallet_opt self) (next_return_route_id self)
      (Some (contract_address (chain_id self))) = Ret (Ok r) /\
    compose_route_query_response keccak256 self (mkRouteSegment (me :: s) c)
      (mkRouteSegment (last_key me s :: s') c')
    = Ret (id_used_up,
           Ok (mkRouteResponse r (RoundTrip (map (service_of db (me :: s)) (me :: s))
             (map (service_of db (last_key me s :: s')) (last_key me s :: s'))
             (next_return_route_id self)))).
Proof.
  intros [Hwf Hme Hnet Hself Hpay Hid] Hk1 Hk2 Hw.
  destruct (round_trip_delivers keccak256 (nh_cryptde self) net (consuming_wallet_opt self)
    (Some (contract_address (chain_id self))) me s s' c c' (next_return_route_id self))
    as (encs & ide & Hr & _); [done| |done..|].
  { apply Forall_cons in Hk2 as [_ Hk2]. eapply Forall_impl; [|intros k; apply Hnet].
    change (me :: s ++ s') with ((me :: s) ++ s'). by apply Forall_app. }
  eexists. split; [exact Hr|]. unfold compose_route_query_response. cbn [seg_keys].
  rewrite !(bool_decide_false (_ :: _ = [])) by done. cbn [orb].
  assert (bool_decide (consuming_wallet_opt self = None) &&
    ((2 <? length (me :: s))%nat || (2 <? length (last_key me s :: s'))%nat) = false) as ->.
  { case_bool_decide as Hcw; [|done]. destruct (Hw Hcw). apply orb_false_iff.
    rewrite !Nat.ltb_ge. simpl. lia. }
  fold db. rewrite !make_expected_services_ok by done. cbn [obind].
  cbn [advance_return_route_id fst]. rewrite Hr. done.
Qed.

(** What a query for a route of at least [h] hops is answered with *)
Definition answers (msg : RouteQueryMessage) (rc : Component)
    (self' : Neighborhood) (o : option RouteQueryResponse) : Prop :=
  let h := minimum_hop_count msg in
  let over_ok := qualifying db (target_key_opt msg) Over me h in
  let back_ok := fun exit_key => qualifying db (Some me) Back exit_key h in
  match o with
  | Some resp =>
      exists s s', over_ok (me :: s) /\ back_ok (last_key me s) (last_key me s :: s') /\
        round_trip keccak256 (mkRouteSegment (me :: s) (target_component msg))
          (mkRouteSegment (last_key me s :: s') rc) (nh_cryptde self) (consuming_wallet_opt self)
          (next_return_route_id self) (Some (contract_address (chain_id self)))
          = Ret (Ok (response_route resp)) /\
        expected_services resp = RoundTrip (map (service_of db (me :: s)) (me :: s))
          (map (service_of db (last_key me s :: s')) (last_key me s :: s'))
          (next_return_route_id self) /\
        self' = id_used_up
  | None =>
      self' = self /\
      ((forall r, ~ over_ok r) \/
       (exists s, over_ok (me :: s) /\ forall r, ~ back_ok (last_key me s) r) \/
       (consuming_wallet_opt self = None /\
        exists s s', over_ok (me :: s) /\ back_ok (last_key me s) (last_key me s :: s') /\
          ((1 < length s)%nat \/ (1 < length s')%nat)))
  end.

Lemma compose_without_wallet s s' c c' :
  consuming_wallet_opt self = None -> (1 < length s)%nat \/ (1 < length s')%nat ->
  compose_route_query_response keccak256 self (mkRouteSegment (me :: s) c)
    (mkRouteSegment (last_key me s :: s') c') = Ret (self, Err NoConsumingWallet).
Proof.
  intros Hcw Hlong. unfold compose_route_query_response. cbn [seg_keys].
  rewrite !(bool_decide_false (_ :: _ = [])) by done. rewrite bool_decide_true by done. cbn [orb andb].
  assert (((2 <? length (me :: s))%nat || (2 <? length (last_key me s :: s'))%nat) = true) as ->;
    [|done]. apply orb_true_iff. rewrite !Nat.ltb_lt. simpl. lia.
Qed.

Lemma make_round_trip_route_ok msg rc :
  in_order -> return_component_opt msg = Some rc ->
  exists self' o, make_round_trip_route keccak256 self msg = Ret (self', o) /\
    answers msg rc self' (match o with Ok resp => Some resp | Err _ => None end).
Proof.
  intros Hio Hrc. pose proof Hio as [Hwf Hme _ _ _ _]. destruct (wf_root _ Hwf) as [rt Hrt].
  rewrite Hme in Hrt. unfold make_round_trip_route. fold db me.
  destruct (make_route_segment_ok db me rt (target_key_opt msg) (minimum_hop_count msg)
    (target_component msg) Over Hwf Hrt) as [(over & -> & Hover & _)|(-> & Hno)]; cbn [obind].
  2:{ eexists _, _. split; [done|]. simpl. auto. }
  assert (Hme_in : me ∈ keys db) by (apply elem_of_keys; eauto).
  pose proof (qualifying_keys _ _ _ _ _ _ Hme_in Hover) as Hkover.
  pose proof Hover as (s & -> & _). cbn [seg_keys]. rewrite last_cons_last_key. cbn [expect obind].
  rewrite Hrc. cbn [expect obind].
  assert (Hexit : last_key me s ∈ keys db)
    by (rewrite Forall_forall in Hkover; apply Hkover, last_key_in).
  destruct (proj1 (elem_of_keys _ _) Hexit) as (re & Hre).
  destruct (make_route_segment_ok db (last_key me s) re (Some me) (minimum_hop_count msg)
    rc Back Hwf Hre) as [(back & -> & Hback & _)|(-> & Hno)]; cbn [obind].
  2:{ eexists _, _. split; [done|]. simpl. split; [done|]. right; left. eauto. }
  pose proof (qualifying_keys _ _ _ _ _ _ Hexit Hback) as Hkback.
  pose proof Hback as (s' & -> & _).
  destruct (decide (consuming_wallet_opt self = None /\ ((1 < length s)%nat \/ (1 < length s')%nat)))
    as [[Hcw Hlong]|Hok].
  - rewrite compose_without_wallet by done. eexists _, _. split; [done|]. simpl. split; [done|].
    right; right. split; [done|]. eauto.
  - destruct (compose_ok s s' (target_component msg) rc Hio Hkover Hkback) as (r & Hr & ->).
    { intros Hcw. split; apply Nat.nlt_ge; intros ?; apply Hok; auto. }
    eexists _, _. split; [done|]. exists s, s'. split_and!; done.
Qed.
End query.

(** *** Gossiping to the neighbors *)
Section gossiping.
Context `{!EthSign} (keccak256 : bytes -> bytes).
Context `{!HashOrder} `{!Serde NodeRecordInner} `{!Serde LiveHop} `{!Serde Z} `{!Serde MessageType}.
Context (self : Neighborhood).

(** The Node can encrypt hops and Gossip to [k]. *)
Definition can_encrypt_to (k : PublicKey) : Prop :=
  (forall h : LiveHop, exists e, encodex (nh_cryptde self) k h = Ok e) /\
  (forall m : MessageType, exists e, encodex (nh_cryptde self) k m = Ok e).

Lemma single_hop_route_ok k :
  can_encrypt_to (public_key (nh_cryptde self)) -> can_encrypt_to k ->
  exists r, create_single_hop_route keccak256 self k = Ret r.
Proof.
  intros [Hme _] [Hk _]. unfold create_single_hop_route, one_way, construct. cbn.
  unfold hops_to_route. cbn [encode_hops hop_key]. unfold live_hop_encode.
  match goal with |- context [encodex _ (public_key (nh_cryptde self)) ?h] =>
    destruct (Hme h) as (e1 & ->) end.
  match goal with |- context [encodex _ k ?h] => destruct (Hk h) as (e2 & ->) end. simpl. eauto.
Qed.

(** The effect sends Gossip for [k] to [k]. *)
Definition gossips_to (s : Neighborhood) (k : PublicKey) (e : neighborhood_effect) : Prop :=
  exists g r p, produce (neighborhood_database s) k = Ret g /\
    create_single_hop_route keccak256 s k = Ret r /\
    incipient_new (nh_cryptde s) r (GossipMsg g) k = Ok p /\ e = SendPackage p.

End gossiping.

Section gossiping_all.
Context `{!EthSign} (keccak256 : bytes -> bytes).
Context `{!HashOrder} `{!Serde NodeRecordInner} `{!Serde LiveHop} `{!Serde Z} `{!Serde MessageType}.

Lemma gossip_to_ok self k r :
  wf (neighborhood_database self) -> node_by_key (neighborhood_database self) k = Some r ->
  hopper_bound self = true ->
  can_encrypt_to self (public_key (nh_cryptde self)) -> can_encrypt_to self k ->
  exists e, gossip_to keccak256 self k = Ret e /\ gossips_to keccak256 self k e.
Proof.
  intros Hwf Hr Hb Hme Henc. destruct (single_hop_route_ok keccak256 self k Hme Henc) as (route & Hroute).
  pose proof (produce_ok (neighborhood_database self) k r Hwf Hr) as Hp.
  destruct (proj2 Henc (GossipMsg (gossip_new (map (fun q =>
    said_of (reveals (neighborhood_database self) r q) q) (told (neighborhood_database self) k)))))
    as (e & He).
  exists (SendPackage (mkIncipient route e)). split.
  - unfold gossip_to. rewrite Hp. cbn [obind]. rewrite Hroute. cbn [obind].
    unfold incipient_new. rewrite He. cbn [expect_ok obind]. unfold send. by rewrite Hb.
  - eexists _, route, _. split_and!; [exact Hp | exact Hroute | | done].
    unfold incipient_new. by rewrite He.
Qed.

Context (self : Neighborhood).

Lemma gossip_to_neighbors_ok :
  can_sign (nh_cryptde self) -> wf (neighborhood_database self) -> hopper_bound self = true ->
  can_encrypt_to self (public_key (nh_cryptde self)) ->
  (forall k, db_has_half_neighbor (neighborhood_database self) (this_node (neighborhood_database self)) k
     = true -> can_encrypt_to self k) ->
  exists self' effects rt rt', gossip_to_neighbors keccak256 self = Ret (self', effects) /\
    extends (neighborhood_database self) (neighborhood_database self') /\
    node_by_key (neighborhood_database self) (this_node (neighborhood_database self)) = Some rt /\
    node_by_key (neighborhood_database self') (this_node (neighborhood_database self)) = Some rt' /\
    inner rt' = inner rt /\ freshly_signed (nh_cryptde self) rt' /\
    exists ks, ks ≡ₚ elements (nr_neighbors rt) /\ Forall2 (gossips_to keccak256 self') ks effects.
Proof.
  intros Hs Hwf Hb Hme Hall. set (db := neighborhood_database self) in *.
  destruct (wf_root _ Hwf) as [rt Hrt].
  destruct (regenerate_ok (nh_cryptde self) rt Hs) as (rt' & Hrg & Hi & Hm & Hf).
  unfold gossip_to_neighbors. fold db. rewrite (proj2 (root_ret _ _) Hrt). cbn [obind].
  rewrite Hrg. cbn [obind]. set (db' := put_node (this_node db) rt' db).
  assert (Hwf' : wf db').
  { eapply wf_put_root; [done | exact Hrt | | | |];
      unfold nr_key, addr_of, nr_accepts_connections, nr_neighbors; by rewrite ?Hi, ?Hm. }
  assert (Hrt' : node_by_key db' (this_node db) = Some rt')
    by (unfold db'; rewrite node_by_key_put; by rewrite bool_decide_true).
  cbn [neighborhood_database with_database]. rewrite (proj2 (root_ret _ _) Hrt'). cbn [obind].
  assert (Hn : nr_neighbors rt' = nr_neighbors rt) by (unfold nr_neighbors; by rewrite Hi).
  rewrite Hn. set (self' := with_database db' self).
  assert (Hgo : forall k, k ∈ hash_iter [] (nr_neighbors rt) ->
    exists e, gossip_to keccak256 self' k = Ret e /\ gossips_to keccak256 self' k e).
  { intros k Hk%elem_of_hash_iter.
    destruct (wf_neighbors _ Hwf' rt' k Hrt') as [_ (r & a & Hr & _)]; [by rewrite Hn|].
    assert (Henc : can_encrypt_to self k).
    { apply Hall. unfold db_has_half_neighbor. rewrite Hrt. by apply bool_decide_eq_true. }
    by apply (gossip_to_ok self' k r). }
  destruct (omapM_total (gossip_to keccak256 self') (hash_iter [] (nr_neighbors rt))) as (effects & He).
  { intros k (e & -> & _)%Hgo. eauto. }
  rewrite He. cbn [obind]. eexists self', effects, rt, rt'. split_and!; try done.
  - eapply extends_put_root; [done | done | |]; unfold addr_of, nr_neighbors; by rewrite ?Hi, ?Hm.
  - exists (hash_iter [] (nr_neighbors rt)). split; [apply hash_iter_perm|].
    apply omapM_ret_Forall2 in He. apply Forall2_same_length_lookup_2.
    { by apply Forall2_length in He. }
    intros i k e Hk Hi'. destruct (Hgo k) as (e' & Hge & Hgs); [by eapply list_elem_of_lookup_2|].
    pose proof (Forall2_lookup_lr _ _ _ _ _ _ He Hk Hi') as Heq. simpl in Heq.
    rewrite Hge in Heq. by injection Heq as <-.
Qed.
End gossiping_all.

Lemma remove_then_gossip `{!EthSign} (keccak256 : bytes -> bytes) `{!HashOrder}
    `{!Serde NodeRecordInner} `{!Serde LiveHop} `{!Serde Z} `{!Serde MessageType}
    (self : Neighborhood) k r rt :
  let db := neighborhood_database self in
  can_sign (nh_cryptde self) -> wf db -> hopper_bound self = true ->
  can_encrypt_to self (public_key (nh_cryptde self)) ->
  (forall n, n ∈ keys db -> can_encrypt_to self n) ->
  k <> this_node db -> node_by_key db k = Some r -> node_by_key db (this_node db) = Some rt ->
  exists self' effects, remove_neighbor keccak256 self k = Ret (self', effects) /\
    wf (neighborhood_database self') /\
    db_has_half_neighbor (neighborhood_database self') (this_node db) k = false /\
    (forall a, addr_of r = Some a -> node_by_ip (neighborhood_database self') (NodeAddr.ip_addr a) = None) /\
    (has_half_neighbor rt k = false -> effects = []) /\
    (has_half_neighbor rt k = true ->
       exists ks, ks ≡ₚ elements (nr_neighbors rt ∖ {[k]}) /\ Forall2 (gossips_to keccak256 self') ks effects).
Proof.
  intros db Hs Hwf Hb Hme Henc Hne Hr Hrt.
  destruct (remove_neighbor_ok db k r rt Hwf Hne Hr Hrt)
    as (db' & rt' & Hrm & Hwf' & Hthis & Hkeys & Hk' & Hip & Hrt' & Hn' & _ & _).
  unfold remove_neighbor. fold db. rewrite Hrm. cbn [obind].
  assert (Hnot : db_has_half_neighbor db' (this_node db) k = false).
  { unfold db_has_half_neighbor. rewrite Hrt'. apply bool_decide_eq_false. rewrite Hn'. set_solver. }
  destruct (has_half_neighbor rt k) eqn:E.
  2:{ eexists _, _. split_and!; [done..|]. done. }
  destruct (gossip_to_neighbors_ok keccak256 (with_database db' self))
    as (self' & effects & rt1 & rt2 & Hg & Hext & Hrt1 & Hrt2 & Hi & _ & ks & Hks & Hall); [done..| |].
  { intros n Hn. apply Henc. rewrite <- Hkeys. cbn in Hn.
    unfold db_has_half_neighbor in Hn. rewrite Hthis, Hrt' in Hn. apply bool_decide_eq_true in Hn.
    rewrite <- Hthis in Hrt'. destruct (wf_neighbors _ Hwf' _ _ Hrt' Hn) as [_ (q & a & Hq & _)].
    apply elem_of_keys. eauto. }
  cbn [neighborhood_database with_database] in *. rewrite Hthis, Hrt' in Hrt1. injection Hrt1 as <-.
  rewrite Hthis in Hrt2.
  eexists _, _. split; [exact Hg|]. split_and!; [apply Hext | | | done |].
  - unfold db_has_half_neighbor. rewrite Hrt2. apply bool_decide_eq_false.
    unfold nr_neighbors. rewrite Hi. fold (nr_neighbors rt'). rewrite Hn'. set_solver.
  - intros a Ha. specialize (Hip a Ha). unfold gossip_to_neighbors in Hg. unbind. simpl in *.
    unfold node_by_ip in *. simpl. destruct (by_ip_addr db' !! NodeAddr.ip_addr a) as [n|] eqn:En; [|done].
    destruct (wf_index _ Hwf' _ _ En) as (q & b & Hq & _). congruence.
  - intros _. exists ks. by rewrite <- Hn'.
Qed.

(** ** Properties *)

(** C3: looking for a route never panics, terminates, and is exact. It finds a route exactly if
    there is one that starts at the origin, goes from neighbor to mutual neighbor through Nodes
    that route data (or, on the way back, ends at the target) without visiting a Node twice, has
    at least the minimum of hops (just that many when there is no target), ends at the target if
    there is one, and, beyond one hop, ends at a Node that does not know the origin. What it
    returns is such a route; without a target, one whose exit Node is desirable if any has one. *)
Theorem route_search_is_exact `{!HashOrder} (db : NeighborhoodDatabase) (origin : PublicKey)
    (ro : NodeRecord) (target : option PublicKey) (hops : nat) (component : Component)
    (direction : RouteDirection) :
  wf db -> node_by_key db origin = Some ro ->
  (exists keys, make_route_segment db origin target hops component direction
       = Ret (Ok (mkRouteSegment keys component)) /\
     qualifying db target direction origin hops keys /\
     (target = None -> forall r, qualifying db target direction origin hops r ->
        has_desirable_exit db r -> has_desirable_exit db keys)) \/
  (make_route_segment db origin target hops component direction
     = Ret (Err (NoRoutes hops origin component target)) /\
   forall r, ~ qualifying db target direction origin hops r).
Proof. apply make_route_segment_ok. Qed.

Lemma route_search_is_exact_witness :
  exists keys, @make_route_segment elements_order toy_pair key_a (Some key_b) 1 ProxyClient Over
    = Ret (Ok (mkRouteSegment keys ProxyClient)).
Proof.
  destruct (@route_search_is_exact elements_order toy_pair key_a toy_pair_root (Some key_b) 1
    ProxyClient Over toy_pair_wf eq_refl) as [(keys & H & _)|(H & Hno)].
  - exists keys. exact H.
  - exfalso. apply (Hno [key_a; key_b]). exists [key_b]. split; [done|].
    by split_and!.
Defined.

(** C6: a query for a round trip of at least one hop is always answered, and rightly. With an
    answer come a route built for an over segment and a back segment that meet at the exit Node
    and are routes in the sense of the search, the services to expect along each (nothing of the
    local Node, exit service of the segment's ends, routing of the Nodes between, each with its own
    wallet and rates), under the next return route id, which is used up. Without an answer, nothing
    has changed, and there is no way over, no way back from the exit Node chosen, or no wallet to
    pay for more than one hop. *)
Theorem route_query_is_answered `{!EthSign} (keccak256 : bytes -> bytes) `{!HashOrder}
    `{!Serde NodeRecordInner} `{!Serde LiveHop} `{!Serde Z} `{!Serde MessageType}
    `{!SerdeOk LiveHop hop_on_wire} `{!SerdeOk Z (uint 32)}
    (self : Neighborhood) (net : PublicKey -> CryptDE) (msg : RouteQueryMessage) (rc : Component) :
  in_order keccak256 self net -> return_component_opt msg = Some rc -> (0 < minimum_hop_count msg)%nat ->
  exists self' o, handle_route_query keccak256 self msg = Ret (self', o) /\
    answers keccak256 self msg rc self' o.
Proof.
  intros Hio Hrc Hh. destruct (make_round_trip_route_ok keccak256 self net msg rc Hio Hrc)
    as (self' & o & Hr & Ha).
  eexists _, _. split; [|exact Ha]. unfold handle_route_query.
  rewrite (proj2 (Nat.eqb_neq _ _)) by lia. by rewrite Hr.
Qed.

Definition toy_neighborhood (db : NeighborhoodDatabase) : Neighborhood :=
  mkNeighborhood (toy_cryptde key_a) true db None 7 [] 1.

Lemma toy_pair_keys k : k ∈ keys toy_pair -> k = key_a \/ k = key_b.
Proof.
  intros (r & Hr)%elem_of_keys. unfold toy_pair, toy_alone in Hr.
  rewrite node_by_key_put, !node_by_key_add in Hr. repeat (case_bool_decide; [auto|]). done.
Qed.

Lemma toy_cryptde_pair k : k = key_a \/ k = key_b -> CryptPair (toy_cryptde key_a) (toy_cryptde k).
Proof.
  intros [-> | ->]; (apply CryptDENull.null_pair; [done|]); apply CryptDENull.from_keyed; try done;
    repeat constructor; unfold uint; lia.
Qed.

Lemma toy_in_order : @in_order toy_eth (fun b => b) (toy_neighborhood toy_pair) toy_cryptde.
Proof.
  split; try done.
  - exact toy_pair_wf.
  - intros k Hk%toy_pair_keys. split; [done | by apply toy_cryptde_pair].
  - apply (toy_cryptde_pair key_a). by left.
  - intros k. by eexists.
Qed.

Lemma route_query_is_answered_witness :
  exists self' o, @handle_route_query toy_eth (fun b => b) elements_order (countable_serde LiveHop)
    (countable_serde Z) (toy_neighborhood toy_pair) (data_indefinite_route_request 1) = Ret (self', o).
Proof.
  destruct (@route_query_is_answered toy_eth (fun b => b) elements_order (countable_serde NodeRecordInner)
    (countable_serde LiveHop) (countable_serde Z) (countable_serde MessageType) (countable_serde_ok _ _)
    (countable_serde_ok _ _) (toy_neighborhood toy_pair) toy_cryptde (data_indefinite_route_request 1)
    ProxyServer toy_in_order eq_refl ltac:(simpl; lia)) as (self' & o & H & _).
  exists self', o. exact H.
Defined.

(** Broadcasting reaches every neighbor, once, with Gossip produced for it: the local Node's
    record is signed anew first, contents unchanged, and then one package per half neighbor is
    given to the Hopper, on a route of a single hop to that neighbor, holding Gossip produced for
    that neighbor from the well-formed database with the new signature. *)
Theorem gossip_reaches_every_neighbor `{!EthSign} (keccak256 : bytes -> bytes) `{!HashOrder}
    `{!Serde NodeRecordInner} `{!Serde LiveHop} `{!Serde Z} `{!Serde MessageType} (self : Neighborhood) :
  let db := neighborhood_database self in
  can_sign (nh_cryptde self) -> wf db -> hopper_bound self = true ->
  can_encrypt_to self (public_key (nh_cryptde self)) ->
  (forall k, db_has_half_neighbor db (this_node db) k = true -> can_encrypt_to self k) ->
  exists self' effects rt rt', gossip_to_neighbors keccak256 self = Ret (self', effects) /\
    extends db (neighborhood_database self') /\
    node_by_key db (this_node db) = Some rt /\
    node_by_key (neighborhood_database self') (this_node db) = Some rt' /\
    inner rt' = inner rt /\ freshly_signed (nh_cryptde self) rt' /\
    exists ks, ks ≡ₚ elements (nr_neighbors rt) /\ Forall2 (gossips_to keccak256 self') ks effects.
Proof. intros db. apply gossip_to_neighbors_ok. Qed.

Lemma toy_encodes {T} `{Countable T} k (t : T) : k = key_a \/ k = key_b ->
  exists e, @encodex T (countable_serde T) (toy_cryptde key_a) k t = Ok e.
Proof.
  intros Hk. destruct (@encodex_decodex T (countable_serde T) (fun _ => True) (countable_serde_ok _ _)
    _ _ (toy_cryptde_pair k Hk) t I) as (e & He & _). eauto.
Qed.

Lemma toy_can_encrypt k : k = key_a \/ k = key_b ->
  @can_encrypt_to (countable_serde LiveHop) (countable_serde MessageType) (toy_neighborhood toy_pair) k.
Proof. intros Hk. split; intros t; by apply toy_encodes. Qed.

Lemma gossip_reaches_every_neighbor_witness :
  exists self' effects, @gossip_to_neighbors toy_eth (fun b => b) elements_order
    (countable_serde NodeRecordInner) (countable_serde LiveHop) (countable_serde Z)
    (countable_serde MessageType) (toy_neighborhood toy_pair) = Ret (self', effects).
Proof.
  destruct (@gossip_reaches_every_neighbor toy_eth (fun b => b) elements_order
    (countable_serde NodeRecordInner) (countable_serde LiveHop) (countable_serde Z)
    (countable_serde MessageType) (toy_neighborhood toy_pair) (toy_can_sign key_a ltac:(done))
    toy_pair_wf eq_refl (toy_can_encrypt key_a ltac:(by left)))
    as (self' & effects & rt & rt' & H & _).
  - intros k Hk. apply toy_can_encrypt. right. apply bool_decide_eq_true in Hk.
    by apply elem_of_union in Hk as [?%elem_of_singleton|?].
  - exists self', effects. exact H.
Defined.

Lemma invalid_of_verified cryptde agr b :
  verify_signature cryptde (agr_signed_gossip agr) (agr_signature agr) (agr_key agr) = b ->
  signature_invalid cryptde agr = (let* valid := b in Ret (negb valid)).
Proof. unfold signature_invalid. by intros ->. Qed.

(** Gossip with a record that cannot be read, or, if all can, with one whose signature does not verify under the key it claims,
    changes nothing and causes no message; Gossip all of whose records are readable and verify is handed on, complete and in
    order. If verifying the signature of a record panics, and the records before it verify, so does the Neighborhood. *)
Theorem unverifiable_gossip_is_ignored `{!EthSign} (keccak256 : bytes -> bytes) `{!HashOrder}
    `{!Serde NodeRecordInner} `{!Serde LiveHop} `{!Serde Z} `{!Serde MessageType} (self : Neighborhood)
    (g : Gossip) (source : SocketAddr) :
  let verified agr := verify_signature (nh_cryptde self) (agr_signed_gossip agr) (agr_signature agr) (agr_key agr) in
  (forall record, record ∈ node_records g -> agr_try_from record = None -> handle_gossip keccak256 self g source = Ret (self, [])) /\
  (forall agrs, mapM agr_try_from (node_records g) = Some agrs ->
     (Forall (fun agr => verified agr = Ret true) agrs -> handle_gossip keccak256 self g source = handle_agrs keccak256 self agrs source) /\
     (forall l agr l', agrs = l ++ agr :: l' -> Forall (fun agr => verified agr = Ret true) l ->
        (verified agr = Ret false -> handle_gossip keccak256 self g source = Ret (self, [])) /\
        (verified agr = Panic -> handle_gossip keccak256 self g source = Panic))).
Proof.
  intros verified. unfold handle_gossip.
  split.
  - intros record Hin Hnone. apply list_elem_of_split in Hin as (l1 & l2 & ->).
    rewrite omap_app, omap_cons, Hnone, (proj2 (Nat.ltb_lt _ _)); [done|]. rewrite !length_app. cbn [length].
    pose proof (length_omap_le agr_try_from l1). pose proof (length_omap_le agr_try_from l2). lia.
  - intros agrs [-> Hlen]%omap_mapM. rewrite Hlen, Nat.ltb_irrefl.
    assert (forall l, Forall (fun agr => verified agr = Ret true) l -> Forall (fun agr => signature_invalid (nh_cryptde self) agr = Ret false) l) as Hok
      by (intros l Hl; eapply Forall_impl; [exact Hl|]; intros agr Ha; by rewrite (invalid_of_verified _ _ _ Ha)).
    split.
    + intros Hall. rewrite <- (app_nil_r agrs), oany_skip by (by apply Hok). cbn. by rewrite app_nil_r.
    + intros l agr l' -> Hl. rewrite oany_skip by (by apply Hok). cbn [oany].
      split; intros Ha; by rewrite (invalid_of_verified _ _ _ Ha).
Qed.

(** when a neighbor's stream dies, the neighbor is forgotten: the shutdown of a clandestine
    stream to the IP address of a known Node, other than the local one, leaves a well-formed
    database in which that Node is no half neighbor and is not found by its address; if it was a
    half neighbor, each of the remaining ones is told, and nobody otherwise. *)
Theorem stream_shutdown_forgets_neighbor `{!EthSign} (keccak256 : bytes -> bytes) `{!HashOrder}
    `{!Serde NodeRecordInner} `{!Serde LiveHop} `{!Serde Z} `{!Serde MessageType} (self : Neighborhood)
    (peer : SocketAddr) (report : bool) (r rt : NodeRecord) :
  let db := neighborhood_database self in
  can_sign (nh_cryptde self) -> wf db -> hopper_bound self = true ->
  can_encrypt_to self (public_key (nh_cryptde self)) ->
  (forall n, n ∈ keys db -> can_encrypt_to self n) ->
  node_by_ip db (ip peer) = Some r -> nr_key r <> this_node db ->
  node_by_key db (this_node db) = Some rt ->
  exists self' effects,
    handle_stream_shutdown_msg keccak256 self (mkStreamShutdownMsg peer Clandestine report)
      = Ret (self', effects) /\
    wf (neighborhood_database self') /\
    db_has_half_neighbor (neighborhood_database self') (this_node db) (nr_key r) = false /\
    node_by_ip (neighborhood_database self') (ip peer) = None /\
    (has_half_neighbor rt (nr_key r) = false -> effects = []) /\
    (has_half_neighbor rt (nr_key r) = true ->
       exists ks, ks ≡ₚ elements (nr_neighbors rt ∖ {[nr_key r]}) /\
         Forall2 (gossips_to keccak256 self') ks effects).
Proof.
  intros db Hs Hwf Hb Hme Henc Hip Hne Hrt. unfold handle_stream_shutdown_msg. simpl. fold db.
  rewrite Hip. unfold node_by_ip in Hip. destruct (by_ip_addr db !! ip peer) as [k|] eqn:Ek; [|done].
  destruct (wf_index _ Hwf _ _ Ek) as (q & a & Hq & Ha & Hipa & _).
  rewrite Hq in Hip. injection Hip as ->. pose proof (wf_keys _ Hwf _ _ Hq) as Hk. subst k.
  destruct (remove_then_gossip keccak256 self (nr_key r) r rt) as (self' & effects & Hrm & H1 & H2 & H3 & H4 & H5);
    [done..|].
  eexists _, _. split; [exact Hrm|]. split_and!; [done | done | | done | done].
  rewrite <- Hipa. by apply H3.
Qed.

Lemma stream_shutdown_forgets_neighbor_witness :
  exists self' effects, @handle_stream_shutdown_msg toy_eth (fun b => b) elements_order
    (countable_serde NodeRecordInner) (countable_serde LiveHop) (countable_serde Z)
    (countable_serde MessageType) (toy_neighborhood toy_pair)
    (mkStreamShutdownMsg (toy_source 2) Clandestine false) = Ret (self', effects) /\
    node_by_ip (neighborhood_database self') (V4 1 2 3 2) = None.
Proof.
  destruct (@stream_shutdown_forgets_neighbor toy_eth (fun b => b) elements_order
    (countable_serde NodeRecordInner) (countable_serde LiveHop) (countable_serde Z)
    (countable_serde MessageType) (toy_neighborhood toy_pair) (toy_source 2) false
    (toy_record key_b [key_a] 0 2) toy_pair_root (toy_can_sign key_a ltac:(done))
    toy_pair_wf eq_refl (toy_can_encrypt key_a ltac:(by left)))
    as (self' & effects & H & _ & _ & Hip & _); try done.
  - intros k Hk%toy_pair_keys. by apply toy_can_encrypt.
  - exists self', effects. split; [exact H | exact Hip].
Defined.
