(* ===== verification/Framers.v ===== *)
(** * Framers: cutting a byte stream into packets

    [sub_lib/framer.rs], [sub_lib/tls_framer.rs] and [json_framer.rs]. A framer is given what each
    read from a stream yields and is then asked for complete frames. What a framer promises is the
    class [Framing]; that the reads may be cut anywhere is proved once, for every framer that keeps
    the promise. *)
From S2P Require Import Prelude Text SubLib Utils.

Record FramedChunk := mkFramedChunk { chunk : bytes; last_chunk : bool }.

(** ** The interface *)
(** The trait [Framer], with the number of bytes waiting as a measure of the work left. *)
Class Framer (F : Type) := {
  add_data : F -> bytes -> F;
  take_frame : F -> outcome (F * option FramedChunk);
  buffered : F -> nat;
}.

(** What a framer promises for a stream of well-formed frames. Which frames may come next can depend
    on those before: [frame s r s'] says that [r] may come in phase [s] and leads to phase [s']. A
    complete frame is taken off the front of what the framer holds, whatever follows; of an
    incomplete one nothing is taken, and nothing is lost if it is one of those that are [kept]. *)
Class Framing (F : Type) `{!Framer F} {Phase : Type} (frame : Phase -> bytes -> Phase -> Prop) (kept : bytes -> Prop) := {
  holds : F -> Phase -> bytes -> Prop;
  holds_add f s b d : holds f s b -> holds (add_data f d) s (b ++ d);
  holds_buffered f s b : holds f s b -> (length b <= buffered f)%nat;
  take_nothing f s : holds f s [] -> exists f', take_frame f = Ret (f', None) /\ holds f' s [];
  frame_nonempty s r s' : frame s r s' -> r <> [];
  take_complete f s r s' rest :
    frame s r s' -> holds f s (r ++ rest) ->
    exists f' last, take_frame f = Ret (f', Some (mkFramedChunk r last)) /\ holds f' s' rest;
  take_partial f s s' p q :
    frame s (p ++ q) s' -> p <> [] -> q <> [] -> kept p -> holds f s p ->
    exists f', take_frame f = Ret (f', None) /\ holds f' s p;
}.

(** A sequence of frames, from one phase to another *)
Inductive framed {Phase : Type} (frame : Phase -> bytes -> Phase -> Prop) : Phase -> list bytes -> Phase -> Prop :=
| framed_nil s : framed frame s [] s
| framed_cons s r s1 rs s' : frame s r s1 -> framed frame s1 rs s' -> framed frame s (r :: rs) s'.

Lemma framed_app {Phase} (frame : Phase -> bytes -> Phase -> Prop) s rs rs' s' :
  framed frame s (rs ++ rs') s' -> exists s1, framed frame s rs s1 /\ framed frame s1 rs' s'.
Proof.
  revert s. induction rs as [|r rs IH]; intros s H; simpl in H; [exists s; by split; [constructor|]|].
  inversion H as [|? ? s1 ? ? Hr Hrs]; subst. destruct (IH _ Hrs) as (s2 & ? & ?).
  exists s2. split; [by econstructor|done].
Qed.

(** Where there is only one kind of frame *)
Definition plain (frame : bytes -> Prop) (_ : unit) (r : bytes) (_ : unit) : Prop := frame r.

Lemma framed_plain frame rs : Forall frame rs -> framed (plain frame) tt rs tt.
Proof. induction 1; [constructor | by apply (framed_cons _ _ _ tt)]. Qed.

Section feeding.
Context {F : Type} `{!Framer F}.

(** Taking frames until there is none. *)
Fixpoint drain (fuel : nat) (f : F) : outcome (F * list bytes) :=
  match fuel with
  | O => OutOfFuel
  | S fuel' =>
      let* (f', o) := take_frame f in
      match o with
      | None => Ret (f', [])
      | Some c => let* (f'', cs) := drain fuel' f' in Ret (f'', chunk c :: cs)
      end
  end.

(** One read after the other, the frames taken after each. *)
Fixpoint feed (f : F) (reads : list bytes) : outcome (F * list bytes) :=
  match reads with
  | [] => Ret (f, [])
  | d :: reads' =>
      let f1 := add_data f d in
      let* (f2, cs) := drain (S (buffered f1)) f1 in
      let* (f3, cs') := feed f2 reads' in
      Ret (f3, cs ++ cs')
  end.

(** What is left of a stream of [frames] after its first [n] bytes have come: the frames complete by
    then, and the beginning of the next. *)
Fixpoint complete_frames (frames : list bytes) (n : nat) : list bytes * bytes :=
  match frames with
  | [] => ([], [])
  | r :: rs =>
      if (length r <=? n)%nat then
        let (done, part) := complete_frames rs (n - length r) in (r :: done, part)
      else ([], take n r)
  end.
End feeding.

Lemma complete_frames_spec frames s t :
  s ++ t = concat frames -> Forall (fun r => r <> []) frames ->
  exists rest, frames = (complete_frames frames (length s)).1 ++ rest /\
    s = concat (complete_frames frames (length s)).1 ++ (complete_frames frames (length s)).2 /\
    (complete_frames frames (length s)).2 ++ t = concat rest /\
    match rest with
    | [] => (complete_frames frames (length s)).2 = []
    | r :: _ => exists q, r = (complete_frames frames (length s)).2 ++ q /\ q <> []
    end.
Proof.
  revert s. induction frames as [|r rs IH]; intros s Hst Hne; simpl in *.
  { exists []. destruct s; [|done]. done. }
  apply Forall_cons in Hne as [Hr Hrs]. destruct (Nat.leb_spec (length r) (length s)) as [Hle|Hlt].
  - assert (s = r ++ drop (length r) s) as Hs.
    { rewrite <- (take_drop (length r) s) at 1. f_equal.
      assert (take (length r) (s ++ t) = r) as Ht by (rewrite Hst; by rewrite take_app_length).
      by rewrite take_app_le in Ht by done. }
    rewrite Hs in Hst. rewrite <- app_assoc in Hst. apply app_inv_head in Hst.
    destruct (IH _ Hst Hrs) as (rest & E1 & E2 & E3 & E4). rewrite length_drop in *.
    destruct (complete_frames rs (length s - length r)) as [done part]. simpl in *.
    exists rest. split_and!; [by rewrite E1 at 1| |done|done]. rewrite Hs at 1. rewrite E2 at 1.
    by rewrite app_assoc.
  - assert (Hs : s = take (length s) r).
    { assert (take (length s) (s ++ t) = s) as Ht by by rewrite take_app_length.
      rewrite Hst in Ht. rewrite take_app_le in Ht by lia. done. }
    exists (r :: rs). simpl. split_and!; [done|done| |].
    + rewrite <- Hst. by rewrite <- Hs.
    + exists (drop (length s) r). split; [by rewrite take_drop|]. intros Hd.
      apply (f_equal length) in Hd. rewrite length_drop in Hd. simpl in Hd. lia.
Qed.

Lemma complete_frames_app done rest n :
  (complete_frames (done ++ rest) (length (concat done) + n)).2 = (complete_frames rest n).2.
Proof.
  induction done as [|r rs IH]; simpl; [done|]. rewrite length_app.
  rewrite (proj2 (Nat.leb_le _ _)) by lia.
  replace (length r + length (concat rs) + n - length r)%nat with (length (concat rs) + n)%nat by lia.
  destruct (complete_frames (rs ++ rest) (length (concat rs) + n)). done.
Qed.

Section fragmentation.
Context {F : Type} `{!Framer F} {Phase : Type} (frame : Phase -> bytes -> Phase -> Prop) (kept : bytes -> Prop).
Context `{!Framing F frame kept}.

Lemma framed_nonempty s rs s' : framed frame s rs s' -> Forall (fun r => r <> []) rs.
Proof. induction 1; constructor; [by eapply frame_nonempty|done]. Qed.

Lemma drain_ok frames f p s s1 :
  framed frame s frames s1 -> (p = [] \/ kept p /\ exists q s2, frame s1 (p ++ q) s2 /\ q <> []) ->
  holds f s (concat frames ++ p) ->
  forall fuel, (length (concat frames) < fuel)%nat ->
  exists f', drain fuel f = Ret (f', frames) /\ holds f' s1 p.
Proof.
  intros Hfr. revert f. induction Hfr as [s|s r s1 rs s2 Hr Hrs IH]; intros f Hp Hf fuel Hfuel.
  - destruct fuel as [|fuel]; [simpl in Hfuel; lia|]. simpl in *.
    assert (exists f', take_frame f = Ret (f', None) /\ holds f' s p) as (f' & -> & Hf').
    { destruct (decide (p = [])) as [->|Hne]; [by apply take_nothing|].
      destruct Hp as [?|(Hk & q & s' & Hq & Hqne)]; [done|]. by apply (take_partial f s s' p q). }
    simpl. by exists f'.
  - destruct fuel as [|fuel]; [simpl in Hfuel; lia|]. simpl in *. rewrite <- app_assoc in Hf.
    destruct (take_complete f s r s1 (concat rs ++ p) Hr Hf) as (f1 & last & -> & Hf1). simpl.
    assert (Hne := frame_nonempty s r s1 Hr). rewrite length_app in Hfuel.
    destruct (IH f1 Hp Hf1 fuel) as (f' & -> & Hf'); [destruct r; [done|simpl in Hfuel; lia]|].
    simpl. by exists f'.
Qed.

(** A stream of frames, cut into reads at any places that leave what is [kept], yields its frames. *)
Lemma feed_from reads frames f p s s' :
  framed frame s frames s' -> holds f s p -> p ++ concat reads = concat frames ->
  (forall k, kept (complete_frames frames (length p + length (concat (take k reads)))).2) ->
  (reads <> [] \/ p = []) ->
  exists f', feed f reads = Ret (f', match reads with [] => [] | _ => frames end) /\
    holds f' (match reads with [] => s | _ => s' end) [].
Proof.
  intros Hfr Hf Hcat. revert f p frames s Hfr Hf Hcat.
  induction reads as [|d reads IH]; intros f p frames s Hfr Hf Hcat Hk Hor.
  { destruct Hor as [?| ->]; [done|]. by exists f. }
  pose proof Hcat as Hsplit. simpl in Hsplit. rewrite app_assoc in Hsplit.
  assert (Hnes := framed_nonempty _ _ _ Hfr).
  destruct (complete_frames_spec frames (p ++ d) (concat reads) Hsplit Hnes) as (rest & E1 & E2 & E3 & E4).
  destruct (complete_frames frames (length (p ++ d))) as [done part] eqn:E. simpl in E1, E2, E3, E4.
  assert (Hkp : kept part).
  { specialize (Hk 1%nat). simpl in Hk. rewrite app_nil_r, <- length_app, E in Hk. done. }
  rewrite E1 in Hfr. apply framed_app in Hfr as (s1 & Hdone & Hrest).
  destruct (drain_ok done (add_data f d) part s s1) with (fuel := S (buffered (add_data f d))) as (f2 & Hdr & Hf2).
  { done. }
  { destruct rest as [|r rest]; [by left|]. right. destruct E4 as (q & -> & Hq). split; [done|].
    inversion Hrest as [|? ? s2]; subst. by exists q, s2. }
  { rewrite <- E2. by apply holds_add. }
  { pose proof (holds_buffered _ _ _ (holds_add f s p d Hf)) as Hbuf. rewrite E2, length_app in Hbuf. lia. }
  cbn [feed]. cbv zeta. rewrite Hdr. simpl. destruct (decide (reads = [])) as [->|Hne].
  - simpl in *. rewrite app_nil_r in E3. exists f2. assert (part = []) as ->.
    { destruct rest as [|r rest]; [done|]. destruct E4 as (q & -> & Hq). simpl in E3.
      rewrite <- app_assoc in E3. rewrite <- (app_nil_r part) in E3 at 1. apply app_inv_head in E3.
      by destruct q. }
    destruct rest as [|r rest]; [inversion Hrest; by rewrite !app_nil_r in *; subst|]. destruct E4 as (q & -> & Hq).
    simpl in E3. by destruct q.
  - destruct (IH f2 part rest s1 Hrest Hf2 E3) as (f' & -> & Hf').
    + intros k. specialize (Hk (S k)). simpl in Hk. rewrite E1 in Hk. rewrite length_app in Hk.
      replace (length p + (length d + length (concat (take k reads))))%nat
        with (length (concat done) + (length part + length (concat (take k reads))))%nat in Hk.
      { by rewrite complete_frames_app in Hk. }
      apply (f_equal length) in E2. rewrite !length_app in E2. lia.
    + by left.
    + simpl. exists f'. destruct reads; [done|]. split; [|done]. by rewrite E1.
Qed.

Lemma feed_ok reads frames f s s' :
  framed frame s frames s' -> holds f s [] -> concat reads = concat frames ->
  (forall k, kept (complete_frames frames (length (concat (take k reads)))).2) ->
  exists f', feed f reads = Ret (f', frames) /\ holds f' s' [].
Proof.
  intros Hfr Hf Hcat Hk.
  destruct (feed_from reads frames f [] s s' Hfr Hf Hcat Hk) as (f' & Hfeed & Hf'); [by right|].
  exists f'. destruct reads as [|d reads]; [|done]. destruct Hfr as [|s r s1 rs s2 Hr Hrs]; [done|].
  apply frame_nonempty in Hr. by destruct r.
Qed.
End fragmentation.

(** ** TlsFramer *)
Module TlsFramer.
Record TlsFramer := mk { data_so_far : bytes }.

Definition PRESERVE_HEADER_LEN : nat := 4.

Definition new : TlsFramer := mk [].

Definition is_valid_content_type (candidate : Z) : bool := (20 <=? candidate) && (candidate <=? 23).

Definition is_valid_protocol_version (byte1 byte2 : Z) : bool :=
  (byte1 =? 3) && ((byte2 =? 1) || (byte2 =? 3)).

Definition to_usize (hi lo : Z) : nat := Z.to_nat (Z.lor (Z.shiftl hi 8) lo).

(** [Err(0)]: don't bother trying again; [Err(x)]: try again starting at [x]. *)
Definition search_for_frame_offset (data : bytes) : outcome (result nat nat) :=
  match index_of data [3] with
  | None => Ret (Err 0%nat)
  | Some O => Ret (Err 1%nat)
  | Some (S offset) =>
      if (length data <=? offset + 4)%nat then Ret (Err 0%nat) else
      let* t := index data offset in
      let* v1 := index data (offset + 1) in
      let* v2 := index data (offset + 2) in
      Ret (if is_valid_content_type t && is_valid_protocol_version v1 v2
           then Ok offset else Err (offset + 1)%nat)
  end.

(** Every turn but the last advances the offset. *)
Fixpoint find_frame_offset_loop (fuel : nat) (data : bytes) (accumulated_offset : nat) : outcome (option nat) :=
  match fuel with
  | O => OutOfFuel
  | S fuel' =>
      let* r := search_for_frame_offset (drop accumulated_offset data) in
      match r with
      | Ok offset => Ret (Some (accumulated_offset + offset)%nat)
      | Err O => Ret None
      | Err next => find_frame_offset_loop fuel' data (accumulated_offset + next)
      end
  end.

Definition find_frame_offset (data : bytes) : outcome (option nat) :=
  find_frame_offset_loop (S (length data)) data 0.

Definition tls_take_frame (self : TlsFramer) : outcome (TlsFramer * option FramedChunk) :=
  let data := data_so_far self in
  let* o := find_frame_offset data in
  match o with
  | None =>
      let split_point := if (length data <? PRESERVE_HEADER_LEN)%nat then length data
                         else (length data - PRESERVE_HEADER_LEN)%nat in
      Ret (mk (drop split_point data), None)
  | Some offset =>
      let from_offset := drop offset data in
      let* hi := index from_offset 3 in
      let* lo := index from_offset 4 in
      let l := to_usize hi lo in
      if (5 + l <=? length from_offset)%nat
      then Ret (mk (drop (5 + l) from_offset), Some (mkFramedChunk (take (5 + l)%nat from_offset) false))
      else Ret (mk from_offset, None)
  end.

#[global] Instance tls_framer : Framer TlsFramer := {|
  add_data f d := mk (data_so_far f ++ d);
  take_frame := tls_take_frame;
  buffered f := length (data_so_far f);
|}.

(** A TLS record: content type, version, length, and that many bytes *)
Inductive record : bytes -> Prop :=
| record_intro t v hi lo body :
    20 <= t <= 23 -> v = 1 \/ v = 3 -> uint 8 hi -> uint 8 lo ->
    Z.of_nat (length body) = hi * 256 + lo -> record (t :: 3 :: v :: hi :: lo :: body).

(** The beginnings of records that survive being looked at *)
Definition survives (p : bytes) : Prop := p = [] \/ (4 <= length p)%nat.

Lemma to_usize_eq hi lo n : uint 8 hi -> uint 8 lo -> Z.of_nat n = hi * 256 + lo -> to_usize hi lo = n.
Proof.
  intros Hhi Hlo Hn. unfold to_usize. rewrite Z.shiftl_mul_pow2 by lia.
  rewrite lor_add by (unfold uint in *; lia). change (2 ^ 8) with 256. lia.
Qed.

(** At the start of a record of which at least five bytes are there, the search stops at once. *)
Lemma find_at_record t v rest :
  20 <= t <= 23 -> v = 1 \/ v = 3 -> (2 <= length rest)%nat ->
  find_frame_offset (t :: 3 :: v :: rest) = Ret (Some 0%nat).
Proof.
  intros Ht Hv Hl. unfold find_frame_offset. cbn [find_frame_offset_loop]. rewrite drop_0.
  unfold search_for_frame_offset, index_of. simpl.
  destruct (decide (t = 3)); [lia|]. simpl.
  destruct (length rest) as [|[|m]] eqn:E; [lia..|]. simpl.
  unfold is_valid_content_type, is_valid_protocol_version.
  rewrite !(proj2 (Z.leb_le _ _)) by lia. simpl. destruct Hv as [-> | ->]; done.
Qed.

#[global] Instance tls_framing : Framing TlsFramer (plain record) survives.
Proof.
  refine {| holds f _ b := data_so_far f = b |}.
  - by intros f ? b d <-.
  - by intros f ? b <-.
  - intros f ? Hf. unfold take_frame, tls_framer, tls_take_frame. rewrite Hf. simpl. by exists (mk []).
  - by intros ? r ? [].
  - intros f ? r ? rest [t v hi lo body Ht Hv Hhi Hlo Hlen] Hf. unfold take_frame, tls_framer, tls_take_frame.
    rewrite Hf. cbn [app]. rewrite find_at_record by (simpl; (done || lia)). cbn [obind]. rewrite drop_0.
    unfold index. cbn [lookup list_lookup expect obind]. rewrite (to_usize_eq hi lo (length body)) by done.
    rewrite (proj2 (Nat.leb_le _ _)) by (simpl; rewrite length_app; lia).
    eexists _, false. cbn [plus take drop]. rewrite take_app_length, drop_app_length. done.
  - intros f ? ? p q Hr Hp Hq [->|Hk] Hf; [done|]. inversion Hr as [t v hi lo body Ht Hv Hhi Hlo Hlen E].
    destruct p as [|p0 [|p1 [|p2 [|p3 p]]]]; simpl in Hk; try lia. simplify_eq/=.
    unfold take_frame, tls_framer, tls_take_frame. rewrite Hf. destruct p as [|p4 p].
    + unfold find_frame_offset. cbn [find_frame_offset_loop]. rewrite drop_0.
      unfold search_for_frame_offset, index_of. simpl. destruct (decide (p0 = 3)); [lia|]. simpl.
      by eexists.
    + simplify_eq/=. rewrite find_at_record by (simpl; (done || lia)). cbn [obind]. rewrite drop_0.
      unfold index. cbn [lookup list_lookup expect obind]. rewrite length_app in Hlen.
      rewrite (to_usize_eq p3 p4 (length p + length q)) by done.
      simpl length. cbv iota. rewrite (proj2 (Nat.leb_gt _ _)); [by eexists|]. destruct q; [done|simpl; lia].
Defined.
End TlsFramer.

(** ** JsonFramer

    The nesting depth is an [i32] that changes by one per byte of a buffer far shorter than [2^31]. *)
Module JsonFramer.
Record JsonFramer := mk {
  possible_start : option nat;
  possible_end : option nat;
  data_so_far : bytes;
  brace_nest_count : Z;
  in_single_quote_string : bool;
  in_double_quote_string : bool;
  after_backslash : bool;
}.

Definition OB : Z := 123.
Definition CB : Z := 125.
Definition SQ : Z := 39.
Definition DQ : Z := 34.
Definition BS : Z := 92.

Definition new : JsonFramer := mk None None [] 0 false false false.

Definition reset (self : JsonFramer) : JsonFramer := mk None None (data_so_far self) 0 false false false.

Definition set_start (o : option nat) (self : JsonFramer) : JsonFramer :=
  mk o (possible_end self) (data_so_far self) (brace_nest_count self) (in_single_quote_string self)
    (in_double_quote_string self) (after_backslash self).
Definition set_end (o : option nat) (self : JsonFramer) : JsonFramer :=
  mk (possible_start self) o (data_so_far self) (brace_nest_count self) (in_single_quote_string self)
    (in_double_quote_string self) (after_backslash self).
Definition set_data (d : bytes) (self : JsonFramer) : JsonFramer :=
  mk (possible_start self) (possible_end self) d (brace_nest_count self) (in_single_quote_string self)
    (in_double_quote_string self) (after_backslash self).
Definition set_count (n : Z) (self : JsonFramer) : JsonFramer :=
  mk (possible_start self) (possible_end self) (data_so_far self) n (in_single_quote_string self)
    (in_double_quote_string self) (after_backslash self).
Definition set_single (b : bool) (self : JsonFramer) : JsonFramer :=
  mk (possible_start self) (possible_end self) (data_so_far self) (brace_nest_count self) b
    (in_double_quote_string self) (after_backslash self).
Definition set_double (b : bool) (self : JsonFramer) : JsonFramer :=
  mk (possible_start self) (possible_end self) (data_so_far self) (brace_nest_count self)
    (in_single_quote_string self) b (after_backslash self).
Definition set_backslash (b : bool) (self : JsonFramer) : JsonFramer :=
  mk (possible_start self) (possible_end self) (data_so_far self) (brace_nest_count self)
    (in_single_quote_string self) (in_double_quote_string self) b.

Definition handle_quotes (self : JsonFramer) (byte : Z) : JsonFramer :=
  match possible_start self with
  | None => self
  | Some _ =>
      match in_single_quote_string self, byte =? SQ, in_double_quote_string self, byte =? DQ with
      | false, false, false, true => set_double true self
      | false, false, true, true => set_double false self
      | false, true, false, false => set_single true self
      | true, true, false, false => set_single false self
      | _, _, _, _ => self
      end
  end.

Definition handle_braces (self : JsonFramer) (byte : Z) (offset : nat) : JsonFramer :=
  if byte =? OB then
    let self1 := set_count (brace_nest_count self + 1) self in
    if brace_nest_count self1 =? 1
    then set_start (Some offset) (set_count 1 (reset self1))
    else self1
  else if byte =? CB then
    let self1 := set_count (brace_nest_count self - 1) self in
    if brace_nest_count self1 <? 0 then set_start None (set_count 0 self1)
    else if (brace_nest_count self1 =? 0) && bool_decide (is_Some (possible_start self1))
    then set_end (Some (offset + 1)%nat) self1
    else self1
  else self.

Definition update_state (self : JsonFramer) (byte : Z) (offset : nat) : JsonFramer :=
  if after_backslash self then set_backslash false self
  else
    let self1 := handle_quotes self byte in
    if negb (in_single_quote_string self1) && negb (in_double_quote_string self1)
    then handle_braces self1 byte offset
    else if bool_decide (is_Some (possible_start self1)) && (byte =? BS)
    then set_backslash true self1
    else self1.

Definition check_data_chunk (self : JsonFramer) : outcome (JsonFramer * option bytes) :=
  match possible_start self, possible_end self with
  | Some start, Some end_ =>
      let self1 := reset self in
      let* c := slice (data_so_far self1) start end_ in
      Ret (self1, Some c)
  | _, _ => Ret (self, None)
  end.

(** The loop over the bytes from index [i] on *)
Fixpoint scan (self : JsonFramer) (i : nat) (rest : bytes) : outcome (JsonFramer * option FramedChunk) :=
  match rest with
  | [] =>
      match possible_start self, possible_end self with
      | None, None => Ret (set_data [] self, None)
      | Some start, None => Ret (set_start (Some 0%nat) (set_data (drop start (data_so_far self)) self), None)
      | _, _ => Panic
      end
  | byte :: rest' =>
      let* (self1, o) := check_data_chunk (update_state self byte i) in
      match o with
      | Some c => Ret (set_data (drop (i + 1) (data_so_far self1)) self1, Some (mkFramedChunk c true))
      | None => scan self1 (i + 1) rest'
      end
  end.

Definition json_take_frame (self : JsonFramer) : outcome (JsonFramer * option FramedChunk) :=
  let self1 := reset self in scan self1 0 (data_so_far self1).

#[global] Instance json_framer : Framer JsonFramer := {|
  add_data f d := set_data (data_so_far f ++ d) f;
  take_frame := json_take_frame;
  buffered f := length (data_so_far f);
|}.

(** *** Well-formed objects: braces balance outside of strings, which end at an unescaped quote *)
Inductive string_body (q : Z) : bytes -> Prop :=
| sb_nil : string_body q []
| sb_byte b s : b <> q -> b <> BS -> string_body q s -> string_body q (b :: s)
| sb_escape b s : string_body q s -> string_body q (BS :: b :: s).

Inductive content : bytes -> Prop :=
| c_nil : content []
| c_byte b s : b <> OB -> b <> CB -> b <> SQ -> b <> DQ -> content s -> content (b :: s)
| c_double body s : string_body DQ body -> content s -> content (DQ :: body ++ DQ :: s)
| c_single body s : string_body SQ body -> content s -> content (SQ :: body ++ SQ :: s)
| c_braces inner s : content inner -> content s -> content (OB :: inner ++ CB :: s).

Inductive object : bytes -> Prop :=
| object_intro c : content c -> object (OB :: c ++ [CB]).

(** Inside an object that starts at 0 at depth [d], in no string *)
Definition inside (data : bytes) (d : Z) : JsonFramer := mk (Some 0%nat) None data d false false false.

Definition in_string (q : Z) (data : bytes) (d : Z) : JsonFramer :=
  mk (Some 0%nat) None data d (q =? SQ) (q =? DQ) false.

Lemma in_string_step q data d b i :
  q = SQ \/ q = DQ -> b <> q -> b <> BS ->
  check_data_chunk (update_state (in_string q data d) b i) = Ret (in_string q data d, None).
Proof.
  intros Hq Hbq Hbs. unfold update_state, handle_quotes, in_string. simpl.
  destruct Hq as [-> | ->]; simpl; rewrite (proj2 (Z.eqb_neq b BS)) by done; unfold SQ, DQ in *;
    [rewrite (proj2 (Z.eqb_neq b 39)) by done|rewrite (proj2 (Z.eqb_neq b 34)) by done; destruct (b =? 39)];
    try done; by destruct (b =? 34).
Qed.

Lemma escape_step q data d i :
  q = SQ \/ q = DQ ->
  check_data_chunk (update_state (in_string q data d) BS i) =
  Ret (set_backslash true (in_string q data d), None).
Proof. by intros [-> | ->]. Qed.

Lemma plain_step data d b i :
  b <> OB -> b <> CB -> b <> SQ -> b <> DQ ->
  check_data_chunk (update_state (inside data d) b i) = Ret (inside data d, None).
Proof.
  intros. unfold update_state, handle_quotes, handle_braces. simpl.
  by rewrite (proj2 (Z.eqb_neq b SQ)), (proj2 (Z.eqb_neq b DQ)), (proj2 (Z.eqb_neq b OB)),
    (proj2 (Z.eqb_neq b CB)) by done.
Qed.

Lemma open_step data d i :
  0 < d -> check_data_chunk (update_state (inside data d) OB i) = Ret (inside data (d + 1), None).
Proof.
  intros Hd. unfold update_state, handle_quotes, handle_braces. simpl.
  by destruct (Z.eqb_spec (d + 1) 1); [lia|].
Qed.

Lemma close_step data d i :
  0 < d -> check_data_chunk (update_state (inside data (d + 1)) CB i) = Ret (inside data d, None).
Proof.
  intros Hd. unfold update_state, handle_quotes, handle_braces. simpl. unfold set_count, inside. simpl.
  replace (d + 1 - 1) with d by lia. destruct (Z.ltb_spec d 0); [lia|]. by destruct (Z.eqb_spec d 0); [lia|].
Qed.

Lemma scan_string q body data d i rest :
  q = SQ \/ q = DQ -> string_body q body ->
  scan (in_string q data d) i (body ++ rest) = scan (in_string q data d) (i + length body) rest.
Proof.
  intros Hq Hb. revert i. induction Hb as [|b s Hbq Hbs Hs IH|b s Hs IH]; intros i; simpl app; cbn [scan].
  - simpl. by rewrite Nat.add_0_r.
  - rewrite in_string_step by done. cbn [obind]. rewrite IH. f_equal. simpl. lia.
  - rewrite escape_step by done. cbn [obind]. unfold check_data_chunk, update_state. simpl.
    change (set_backslash false _) with (in_string q data d). rewrite IH. f_equal. simpl. lia.
Qed.

Lemma enter_string q data d i :
  q = SQ \/ q = DQ -> 0 < d ->
  check_data_chunk (update_state (inside data d) q i) = Ret (in_string q data d, None).
Proof. intros [-> | ->] Hd; done. Qed.

Lemma leave_string q data d i :
  q = SQ \/ q = DQ -> 0 < d ->
  check_data_chunk (update_state (in_string q data d) q i) = Ret (inside data d, None).
Proof. intros [-> | ->] Hd; done. Qed.

Lemma scan_quoted q body data d i rest :
  q = SQ \/ q = DQ -> 0 < d -> string_body q body ->
  scan (inside data d) i (q :: body ++ q :: rest) = scan (inside data d) (i + (length body + 2)) rest.
Proof.
  intros Hq Hd Hb. cbn [scan]. rewrite enter_string by done. cbn [obind]. rewrite scan_string by done.
  cbn [scan]. rewrite leave_string by done. cbn [obind]. f_equal. lia.
Qed.

Lemma scan_content c data d i rest :
  content c -> 0 < d -> scan (inside data d) i (c ++ rest) = scan (inside data d) (i + length c) rest.
Proof.
  intros Hc. revert d i rest.
  induction Hc as [|b s H1 H2 H3 H4 Hs IH|body s Hb Hs IH|body s Hb Hs IH|inner s Hin IHin Hs IH];
    intros d i rest Hd; simpl app; rewrite <- ?app_assoc; simpl app.
  - simpl. by rewrite Nat.add_0_r.
  - cbn [scan]. rewrite plain_step by done. cbn [obind]. rewrite IH by done. f_equal. simpl. lia.
  - rewrite scan_quoted, IH by (done || by right). f_equal. simpl. rewrite length_app. simpl. lia.
  - rewrite scan_quoted, IH by (done || by left). f_equal. simpl. rewrite length_app. simpl. lia.
  - cbn [scan]. rewrite open_step by done. cbn [obind]. rewrite IHin by lia. cbn [scan].
    rewrite close_step by done. cbn [obind]. rewrite IH by done. f_equal. simpl. rewrite length_app. simpl. lia.
Qed.

(** *** Beginnings of objects *)
Definition quiet (data : bytes) (s : JsonFramer) : Prop :=
  possible_start s = Some 0%nat /\ possible_end s = None /\ data_so_far s = data.

(** The scan of [p] comes to its end without having found a chunk, still inside the object. *)
Definition idles (data : bytes) (s : JsonFramer) (p : bytes) : Prop :=
  forall i, exists s', quiet data s' /\ scan s i p = scan s' (i + length p) [].

Lemma idles_nil data s : quiet data s -> idles data s [].
Proof. intros Hs i. exists s. by rewrite Nat.add_0_r. Qed.

Lemma idles_cons data s b p s1 :
  (forall i, check_data_chunk (update_state s b i) = Ret (s1, None)) -> idles data s1 p ->
  idles data s (b :: p).
Proof.
  intros Hstep Hp i. destruct (Hp (i + 1)%nat) as (s' & Hq & Hs). exists s'. split; [done|].
  cbn [scan]. rewrite Hstep. cbn [obind]. by rewrite Hs.
Qed.

(** After something that leads from [s] to [s1] *)
Lemma idles_app data s u p s1 :
  (forall i rest, scan s i (u ++ rest) = scan s1 (i + length u) rest) -> idles data s1 p ->
  idles data s (u ++ p).
Proof.
  intros Hu Hp i. destruct (Hp (i + length u)%nat) as (s' & Hq & Hs). exists s'. split; [done|].
  by rewrite Hu, Hs.
Qed.

Lemma idles_string q body data d p r :
  q = SQ \/ q = DQ -> string_body q body -> body = p ++ r -> idles data (in_string q data d) p.
Proof.
  intros Hq Hb. revert p. induction Hb as [|b s Hbq Hbs Hs IH|b s Hs IH]; intros p E.
  - destruct p; [by apply idles_nil|done].
  - destruct p as [|b' p]; [by apply idles_nil|]. injection E as <- E.
    apply (idles_cons _ _ _ _ (in_string q data d)); [intros; by apply in_string_step|by apply IH].
  - destruct p as [|b' p]; [by apply idles_nil|]. injection E as <- E.
    apply (idles_cons _ _ _ _ (set_backslash true (in_string q data d))); [intros; by apply escape_step|].
    destruct p as [|b' p]; [by apply idles_nil|]. injection E as <- E.
    by apply (idles_cons _ _ _ _ (in_string q data d)); [|apply IH].
Qed.

Lemma idles_quoted q body data d s p r :
  q = SQ \/ q = DQ -> 0 < d -> string_body q body ->
  (forall p' r', s = p' ++ r' -> idles data (inside data d) p') ->
  q :: body ++ q :: s = p ++ r -> idles data (inside data d) p.
Proof.
  intros Hq Hd Hb IH E. destruct p as [|b p]; [by apply idles_nil|]. injection E as <- E.
  apply (idles_cons _ _ _ _ (in_string q data d)); [intros; by apply enter_string|].
  apply app_eq_inv in E as [(k & E1 & E2)|(k & E1 & E2)].
  - by apply (idles_string q body data d p k).
  - rewrite E1. apply (idles_app _ _ _ _ (in_string q data d)); [intros; by apply scan_string|].
    destruct k as [|b k]; [by apply idles_nil|]. injection E2 as <- E2.
    apply (idles_cons _ _ _ _ (inside data d)); [intros; by apply leave_string|by apply (IH k r)].
Qed.

Lemma idles_content c data d p r :
  content c -> 0 < d -> c = p ++ r -> idles data (inside data d) p.
Proof.
  intros Hc. revert d p r.
  induction Hc as [|b s H1 H2 H3 H4 Hs IH|body s Hb Hs IH|body s Hb Hs IH|inner s Hin IHin Hs IH];
    intros d p r Hd E.
  - destruct p; [by apply idles_nil|done].
  - destruct p as [|b' p]; [by apply idles_nil|]. injection E as <- E.
    apply (idles_cons _ _ _ _ (inside data d)); [intros; by apply plain_step|by apply (IH d p r)].
  - apply (idles_quoted DQ body data d s p r); eauto.
  - apply (idles_quoted SQ body data d s p r); eauto.
  - destruct p as [|b p]; [by apply idles_nil|]. injection E as <- E.
    apply (idles_cons _ _ _ _ (inside data (d + 1))); [intros; by apply open_step|].
    apply app_eq_inv in E as [(k & E1 & E2)|(k & E1 & E2)]; [apply (IHin (d + 1) p k); [lia|done]|].
    rewrite E1. apply (idles_app _ _ _ _ (inside data (d + 1))); [intros; apply scan_content; [done|lia]|].
    destruct k as [|b k]; [by apply idles_nil|]. injection E2 as <- E2.
    apply (idles_cons _ _ _ _ (inside data d)); [intros; by apply close_step|by apply (IH d k r)].
Qed.

Lemma take_object f c rest :
  content c -> data_so_far f = (OB :: c ++ [CB]) ++ rest ->
  exists f', json_take_frame f = Ret (f', Some (mkFramedChunk (OB :: c ++ [CB]) true)) /\
    data_so_far f' = rest.
Proof.
  intros Hc Hd. unfold json_take_frame. cbv zeta. unfold reset. rewrite Hd. cbn [data_so_far].
  set (data := (OB :: c ++ [CB]) ++ rest). unfold data at 2. cbn [app].
  change (scan _ 0 (OB :: (c ++ [CB]) ++ rest)) with (scan (inside data 1) 1 ((c ++ [CB]) ++ rest)).
  rewrite <- app_assoc. rewrite scan_content by done. cbn [app scan].
  unfold update_state, handle_quotes, handle_braces, check_data_chunk, inside. simpl.
  rewrite slice_ok; [|lia|unfold data; simpl; rewrite !length_app; simpl; lia]. simpl.
  eexists. split; [|].
  - do 5 f_equal. replace (length c + 1)%nat with (length (c ++ [CB])) by (rewrite length_app; done).
    apply take_app_length.
  - simpl. replace (length c + 1)%nat with (length (c ++ [CB])) by (rewrite length_app; done).
    apply drop_app_length.
Qed.

#[global] Instance json_framing : Framing JsonFramer (plain object) (fun _ => True).
Proof.
  refine {| holds f _ b := data_so_far f = b |}.
  - by intros f ? b d <-.
  - by intros f ? b <-.
  - intros f ? Hf. unfold take_frame, json_framer, json_take_frame. cbv zeta. simpl. rewrite Hf. simpl. by eexists.
  - by intros ? r ? [].
  - intros f ? r ? rest [c Hc] Hf. destruct (take_object f c rest Hc Hf) as (f' & E & Hf'). by exists f', true.
  - intros f ph ph' p q Hr Hp Hq _ Hf. inversion Hr as [c Hc E]. destruct p as [|b p]; [done|].
    injection E as <- E. apply app_eq_inv in E as [(k & E1 & E2)|(k & E1 & E2)].
    + unfold take_frame, json_framer, json_take_frame. cbv zeta. unfold reset. rewrite Hf. cbn [data_so_far].
      change (scan _ 0 (OB :: p)) with (scan (inside (OB :: p) 1) 1 p).
      destruct (idles_content c (OB :: p) 1 p k Hc ltac:(lia) E1 1%nat) as (s' & (Hs & He & Hdat) & ->).
      cbn [scan]. rewrite Hs, He, Hdat, drop_0. by eexists.
    + destruct k as [|b k]; [|by destruct k, q; simplify_eq/=].
      rewrite app_nil_r in E1. subst p.
      unfold take_frame, json_framer, json_take_frame. cbv zeta. unfold reset. rewrite Hf. cbn [data_so_far].
      change (scan _ 0 (OB :: c)) with (scan (inside (OB :: c) 1) 1 c).
      destruct (idles_content c (OB :: c) 1 c [] Hc ltac:(lia) ltac:(by rewrite app_nil_r) 1%nat)
        as (s' & (Hs & He & Hdat) & ->).
      cbn [scan]. rewrite Hs, He, Hdat, drop_0. by eexists.
Defined.
End JsonFramer.

(** ** Properties *)

(** a stream of TLS records is cut into exactly its records, in order, however the reads from the
    network fall, as long as no read ends one, two or three bytes into a record: everything comes
    out, and nothing is left over. *)
Theorem tls_stream_is_framed (reads records : list bytes) :
  Forall TlsFramer.record records -> concat reads = concat records ->
  (forall k, TlsFramer.survives (complete_frames records (length (concat (take k reads)))).2) ->
  exists f', feed TlsFramer.new reads = Ret (f', records) /\ TlsFramer.data_so_far f' = [].
Proof.
  intros Hrec Hcat Hk.
  destruct (feed_ok (plain TlsFramer.record) TlsFramer.survives reads records TlsFramer.new tt tt)
    as (f' & E & Hf'); [by apply framed_plain|done..|]. by exists f'.
Qed.

Lemma tls_stream_is_framed_witness :
  exists f', feed TlsFramer.new [[22; 3; 1; 0]; [2; 7; 8; 23; 3; 3; 0; 1]; [9]] =
    Ret (f', [[22; 3; 1; 0; 2; 7; 8]; [23; 3; 3; 0; 1; 9]]) /\ TlsFramer.data_so_far f' = [].
Proof.
  apply tls_stream_is_framed.
  - repeat constructor; (lia || (split; norm_pow; lia) || by left || by right).
  - done.
  - intros [|[|[|[|k]]]]; simpl; rewrite ?take_nil; (by left) || (right; simpl; lia).
Defined.

(** But a TLS record of whose header a read brings only the first one, two or three bytes is lost:
    looking for a frame then forgets those bytes, and the framer is as if they had never come. *)
Theorem tls_header_fragment_is_lost (p q : bytes) :
  (0 < length p < 4)%nat -> TlsFramer.record (p ++ q) ->
  take_frame (add_data TlsFramer.new p) = Ret (TlsFramer.new, None).
Proof.
  intros Hlen Hr. inversion Hr as [t v hi lo body Ht Hv _ _ _ E].
  assert (t <> 3) by lia. unfold take_frame, add_data, TlsFramer.tls_framer, TlsFramer.tls_take_frame. simpl.
  destruct p as [|a [|b [|c [|]]]]; simpl in *; try lia; simplify_eq; simpl;
    unfold TlsFramer.find_frame_offset; simpl; unfold TlsFramer.search_for_frame_offset, index_of; simpl;
    rewrite (decide_False (P := a = 3)) by done; done.
Qed.

Lemma tls_header_fragment_is_lost_witness :
  take_frame (add_data TlsFramer.new [22; 3; 1]) = Ret (TlsFramer.new, None).
Proof.
  apply (tls_header_fragment_is_lost [22; 3; 1] [0; 1; 9]); [simpl; lia|].
  constructor; (lia || (split; norm_pow; lia) || by left).
Defined.
