(* ===== verification/StreamReader.v ===== *)
(** * StreamReader: from the bytes of a stream to packets for the Dispatcher

    [masquerader.rs], [null_masquerader.rs], [json_masquerader.rs], [discriminator.rs] with its
    factories, and [stream_reader.rs]. The parsing and printing of JSON (serde_json) and Base64 are
    parameters, and so is the recognition of the HTTP method by the http package. *)
From S2P Require Import Prelude Text SubLib Cryptde Utils SequenceBuffer Messages Framers.

(** ** Masqueraders *)
Record UnmaskedChunk := mkUnmasked { um_chunk : bytes; um_last_chunk : bool; sequenced : bool }.

Inductive MasqueradeError :=
| NotThisMasquerader
| LowLevelDataError
| MidLevelDataError
| HighLevelDataError.

(** [JsonMasqueraderUnmaskStructure] *)
Record UnmaskStructure := mkStructure { bodyText : option bytes; bodyData : option bytes }.

(** What serde_json and base64 do for the three structures of [json_masquerader.rs]. *)
Class JsonLib := {
  text_to_string : bytes -> option bytes;
  data_to_string : bytes -> option bytes;
  structure_from_str : bytes -> option UnmaskStructure;
  base64_encode : bytes -> bytes;
  base64_decode : bytes -> option bytes;
}.

Definition quoted (key body : bytes) : bytes :=
  JsonFramer.OB :: (JsonFramer.DQ :: key ++ [JsonFramer.DQ]) ++ 58 ::
    (JsonFramer.DQ :: body ++ [JsonFramer.DQ]) ++ [JsonFramer.CB].

Definition ascii_bytes (s : str) : bytes := map ascii_code s.
Definition body_text : bytes := ascii_bytes (lit "bodyText").
Definition body_data : bytes := ascii_bytes (lit "bodyData").

(** serde_json prints such a structure as one object with one member, whose string it escapes the way
    JSON demands; the result is a UTF-8 string, and parsing it gives the member back. Base64 text
    decodes to what was encoded. *)
Class JsonLibOk `{!JsonLib} : Prop := {
  text_printed s :
    bytes_ok s -> utf8_ok s = true ->
    exists body, text_to_string s = Some (quoted body_text body) /\
      JsonFramer.string_body JsonFramer.DQ body /\ utf8_ok (quoted body_text body) = true /\
      structure_from_str (quoted body_text body) = Some (mkStructure (Some s) None);
  data_printed s :
    bytes_ok s ->
    exists body, data_to_string (base64_encode s) = Some (quoted body_data body) /\
      JsonFramer.string_body JsonFramer.DQ body /\ utf8_ok (quoted body_data body) = true /\
      structure_from_str (quoted body_data body) = Some (mkStructure None (Some (base64_encode s)));
  base64_inverse s : bytes_ok s -> base64_decode (base64_encode s) = Some s;
}.

Inductive Masquerader := NullMasquerader | JsonMasquerader.

(** A discriminator: a framer and the masqueraders to try on its frames *)
Record Discriminator (F : Type) := mkDiscriminator { framer : F; masqueraders : list Masquerader }.
Arguments mkDiscriminator {F}.
Arguments framer {F}.
Arguments masqueraders {F}.

Section masqueraders.
Context `{!JsonLib}.

(** [String::from_utf8] decides between text and binary. *)
Definition json_mask (data : bytes) : outcome bytes :=
  expect (if utf8_ok data then text_to_string data else data_to_string (base64_encode data)).

Definition string_from_data (data : bytes) : result bytes MasqueradeError :=
  if utf8_ok data then Ok data else Err LowLevelDataError.

Definition structure_from_string (json_string : bytes) : result UnmaskStructure MasqueradeError :=
  match structure_from_str json_string with
  | Some s => Ok s
  | None => Err MidLevelDataError
  end.

Definition data_vector_from_structure (s : UnmaskStructure) : result bytes MasqueradeError :=
  match bodyText s, bodyData s with
  | Some text, None => Ok text
  | None, Some data =>
      match base64_decode data with
      | Some v => Ok v
      | None => Err HighLevelDataError
      end
  | Some _, Some _ => Err HighLevelDataError
  | None, None => Err HighLevelDataError
  end.

Definition json_unmask (data : bytes) : result UnmaskedChunk MasqueradeError :=
  let? json_string := string_from_data data in
  let? structure := structure_from_string json_string in
  let? v := data_vector_from_structure structure in
  Ok (mkUnmasked v true false).

Definition null_unmask (item : bytes) : result UnmaskedChunk MasqueradeError :=
  Ok (mkUnmasked item true true).

Definition null_mask (data : bytes) : result bytes MasqueradeError := Ok data.

Definition try_unmask (m : Masquerader) (item : bytes) : result UnmaskedChunk MasqueradeError :=
  match m with
  | NullMasquerader => null_unmask item
  | JsonMasquerader => json_unmask item
  end.

(** ** Discriminator *)
Definition discriminator_new {F} (f : F) (ms : list Masquerader) : outcome (Discriminator F) :=
  match ms with
  | [] => Panic
  | _ => Ret (mkDiscriminator f ms)
  end.

Definition discriminator_add_data {F} `{!Framer F} (d : Discriminator F) (data : bytes) : Discriminator F :=
  mkDiscriminator (add_data (framer d) data) (masqueraders d).

(** The first masquerader that can; errors are logged and passed over. *)
Fixpoint first_unmask (ms : list Masquerader) (item : bytes) : option UnmaskedChunk :=
  match ms with
  | [] => None
  | m :: ms' =>
      match try_unmask m item with
      | Ok c => Some c
      | Err _ => first_unmask ms' item
      end
  end.

Definition take_chunk {F} `{!Framer F} (d : Discriminator F) : outcome (Discriminator F * option UnmaskedChunk) :=
  let* (f', o) := take_frame (framer d) in
  let d' := mkDiscriminator f' (masqueraders d) in
  match o with
  | None => Ret (d', None)
  | Some fr => Ret (d', first_unmask (masqueraders d) (chunk fr))
  end.
End masqueraders.

(** ** StreamReader

    [F] is the type of the framers behind [Box<dyn Framer>]; [method_is_connect] says whether the http
    package takes some bytes for the method CONNECT. *)
Record RemoveStreamMsg := mkRemoveStreamMsg {
  remove_local_addr : SocketAddr;
  remove_peer_addr : SocketAddr;
  remove_stream_type : RemovedStreamType;
}.

Inductive reader_effect :=
| ToDispatcher (msg : InboundClientData)
| ToStreamHandlerPool (msg : RemoveStreamMsg).

Section reader.
Context {F : Type} `{!Framer F} `{!JsonLib} (method_is_connect : bytes -> bool).

Record StreamReader := mkStreamReader {
  sr_local_addr : SocketAddr;
  sr_peer_addr : SocketAddr;
  sr_reception_port : option Z;
  discriminators : list (Discriminator F);
  sr_is_clandestine : bool;
  next_sequence : Z;
}.

Fixpoint until_space (data : bytes) : bytes :=
  match data with
  | [] => []
  | c :: rest => if c =? 32 then [] else c :: until_space rest
  end.

Definition is_connect (data : bytes) : bool := method_is_connect (until_space (take 8 data)).

(** The number a chunk gets, and the sequencer's next one *)
Definition number_chunk (is_connect sequenced : bool) (next : Z) : Z * option Z :=
  if sequenced && negb is_connect then
    let (next', n) := next_sequence_number next in (next', Some n)
  else if is_connect then (next, Some 0)
  else (next, None).

Definition inbound (self : StreamReader) (n : option Z) (data : bytes) : InboundClientData :=
  mkInboundClientData (sr_peer_addr self) (sr_reception_port self) false (sr_is_clandestine self) n data.

(** The loop over the chunks of the chosen discriminator *)
Fixpoint take_chunks (fuel : nat) (self : StreamReader) (is_connect : bool) (d : Discriminator F) (next : Z)
    : outcome (Discriminator F * Z * list reader_effect) :=
  match fuel with
  | O => OutOfFuel
  | S fuel' =>
      let* (d', o) := take_chunk d in
      match o with
      | None => Ret (d', next, [])
      | Some c =>
          let (next', n) := number_chunk is_connect (sequenced c) next in
          let* (r, es) := take_chunks fuel' self is_connect d' next' in
          Ret (r, ToDispatcher (inbound self n (um_chunk c)) :: es)
      end
  end.

Definition with_discriminator (self : StreamReader) (i : nat) (d : Discriminator F) (next : Z) : StreamReader :=
  mkStreamReader (sr_local_addr self) (sr_peer_addr self) (sr_reception_port self)
    (<[i := d]> (discriminators self)) (sr_is_clandestine self) next.

(** [buf] is the whole read buffer, of which [length] bytes are new. *)
Definition wrangle_discriminators (self : StreamReader) (buf : bytes) (length : nat)
    : outcome (StreamReader * list reader_effect) :=
  let connect := is_connect buf in
  let i := if (1 <? List.length (discriminators self))%nat && connect then 1%nat else 0%nat in
  let* d := expect (discriminators self !! i) in
  let* data := slice buf 0 length in
  let d1 := discriminator_add_data d data in
  let* (r, es) := take_chunks (S (buffered (framer d1))) self connect d1 (next_sequence self) in
  Ret (with_discriminator self i r.1 r.2, es).

Definition shutdown (self : StreamReader) : outcome (StreamReader * list reader_effect) :=
  let* (next', t) := if sr_is_clandestine self then Ret (next_sequence self, Clandestine)
                     else let* p := expect (sr_reception_port self) in
                          let (next', n) := next_sequence_number (next_sequence self) in
                          Ret (next', NonClandestine p n) in
  Ret (mkStreamReader (sr_local_addr self) (sr_peer_addr self) (sr_reception_port self)
         (discriminators self) (sr_is_clandestine self) next',
       [ToStreamHandlerPool (mkRemoveStreamMsg (sr_local_addr self) (sr_peer_addr self) t)]).

(** What reading from the stream can yield: [Data] fills the front of the buffer. *)
Inductive read_result := NotReady | Data (d : bytes) | DeadStream | OtherError.

Inductive poll_result := PollNotReady | PollReady | PollErr.

(** The buffer is zeroed when [poll] starts and keeps what earlier reads left behind the new data. *)
Definition BUFFER_SIZE : nat := Z.to_nat 65536.

Definition fill (buf d : bytes) : bytes := d ++ drop (length d) buf.

(** [poll] over the results of the reads it makes; it returns at the first that is not ready. *)
Fixpoint poll_reads (self : StreamReader) (buf : bytes) (reads : list read_result)
    : outcome (StreamReader * list reader_effect * option poll_result) :=
  match reads with
  | [] => Ret (self, [], None)
  | NotReady :: _ => Ret (self, [], Some PollNotReady)
  | Data [] :: _ => let* (self', es) := shutdown self in Ret (self', es, Some PollReady)
  | Data d :: reads' =>
      let buf' := fill buf d in
      let* (self1, es1) := wrangle_discriminators self buf' (length d) in
      let* (r, o) := poll_reads self1 buf' reads' in
      Ret (r.1, es1 ++ r.2, o)
  | DeadStream :: _ => let* (self', es) := shutdown self in Ret (self', es, Some PollErr)
  | OtherError :: reads' => poll_reads self buf reads'
  end.

Definition poll (self : StreamReader) (reads : list read_result) :=
  poll_reads self (replicate BUFFER_SIZE 0) reads.
End reader.
Arguments StreamReader F : clear implicits.

(** ** The clandestine stream *)
Section clandestine.
Context `{!JsonLib} `{!JsonLibOk}.

Lemma quoted_object key body :
  JsonFramer.string_body JsonFramer.DQ key -> JsonFramer.string_body JsonFramer.DQ body ->
  JsonFramer.object (quoted key body).
Proof.
  intros Hk Hb. unfold quoted.
  replace (JsonFramer.OB :: _) with (JsonFramer.OB ::
    (JsonFramer.DQ :: key ++ JsonFramer.DQ :: 58 :: JsonFramer.DQ :: body ++ JsonFramer.DQ :: []) ++ [JsonFramer.CB]).
  2:{ simpl. by repeat (rewrite <- app_assoc; simpl). }
  constructor. apply JsonFramer.c_double; [done|]. apply JsonFramer.c_byte; [done..|].
  apply JsonFramer.c_double; [done|constructor].
Qed.

(** Masking never fails, and what it yields is an object that unmasks to the same data. *)
Lemma mask_ok data :
  bytes_ok data ->
  exists w, json_mask data = Ret w /\ JsonFramer.object w /\
    json_unmask w = Ok (mkUnmasked data true false).
Proof.
  intros Hdata. unfold json_mask, json_unmask, string_from_data, structure_from_string, data_vector_from_structure. destruct (utf8_ok data) eqn:Eu.
  - destruct (text_printed data Hdata Eu) as (body & -> & Hb & Hu & Hs). eexists. split; [done|]. split.
    + apply quoted_object; [|done]. by repeat constructor.
    + by rewrite Hu; simpl; rewrite Hs.
  - destruct (data_printed data Hdata) as (body & -> & Hb & Hu & Hs). eexists. split; [done|]. split.
    + apply quoted_object; [|done]. by repeat constructor.
    + rewrite Hu. simpl. rewrite Hs. simpl. by rewrite base64_inverse by done.
Qed.

Context {F : Type} `{!Framer F} (method_is_connect : bytes -> bool).

(** The messages for some data, numbered as a clandestine stream is: not at all, or 0 if the buffer
    looks like a CONNECT request *)
Definition delivered (self : StreamReader F) (ds : list bytes) (es : list reader_effect) : Prop :=
  Forall2 (fun d e => exists n, (n = None \/ n = Some 0) /\ e = ToDispatcher (inbound self n d)) ds es.

Lemma take_chunks_drain fuel self k d next f' frames ds :
  drain fuel (framer d) = Ret (f', frames) ->
  Forall2 (fun w x => first_unmask (masqueraders d) w = Some (mkUnmasked x true false)) frames ds ->
  exists es, take_chunks fuel self k d next = Ret (mkDiscriminator f' (masqueraders d), next, es) /\
    delivered self ds es.
Proof.
  revert d frames ds. induction fuel as [|fuel IH]; intros d frames ds; [done|]. simpl.
  intros ([f1 o] & Htake & Hd)%obind_ret_inv Hun. unfold take_chunk. rewrite Htake. simpl.
  destruct o as [c|].
  - apply obind_ret_inv in Hd as ([f2 cs] & Hd & [= <- <-]). inversion Hun as [|w x ws xs Hw Hws]; subst.
    rewrite Hw. destruct (IH (mkDiscriminator f1 (masqueraders d)) cs xs Hd Hws) as (es & E & Hes).
    simpl in *. destruct k; simpl; rewrite E; simpl; eexists; (split; [done|]); constructor; eauto.
  - injection Hd as <- <-. inversion Hun; subst. eexists. split; [done|]. constructor.
Qed.

Definition clandestine_reader (local peer : SocketAddr) (port : option Z) (f : F) : StreamReader F :=
  mkStreamReader local peer port [mkDiscriminator f [JsonMasquerader]] true 0.

Lemma wrangle_ok self f buf d f' frames ds :
  discriminators self = [mkDiscriminator f [JsonMasquerader]] ->
  drain (S (buffered (add_data f d))) (add_data f d) = Ret (f', frames) ->
  Forall2 (fun w x => json_unmask w = Ok (mkUnmasked x true false)) frames ds ->
  exists es, wrangle_discriminators method_is_connect self (fill buf d) (length d) =
    Ret (with_discriminator self 0 (mkDiscriminator f' [JsonMasquerader]) (next_sequence self), es) /\
    delivered self ds es.
Proof.
  intros Hself Hdrain Hun. unfold wrangle_discriminators. rewrite Hself. cbv zeta.
  rewrite (slice_ok (fill buf d)) by (unfold fill; rewrite ?length_app; lia).
  assert (take (length d - 0) (drop 0 (fill buf d)) = d) as ->.
  { rewrite Nat.sub_0_r, drop_0. apply take_app_length. }
  destruct (take_chunks_drain (S (buffered (add_data f d))) self (is_connect method_is_connect (fill buf d))
    (mkDiscriminator (add_data f d) [JsonMasquerader]) (next_sequence self) f' frames ds) as (es & E & Hes).
  - done.
  - eapply Forall2_impl; [done|]. simpl. by intros w x ->.
  - exists es. split; [|done]. cbn [length Nat.ltb Nat.leb andb lookup list_lookup expect obind].
    unfold discriminator_add_data. cbn [framer masqueraders]. by rewrite E.
Qed.

Lemma poll_feed reads f buf self frames ds f' :
  discriminators self = [mkDiscriminator f [JsonMasquerader]] ->
  Forall (fun r => r <> []) reads -> feed f reads = Ret (f', frames) ->
  Forall2 (fun w x => json_unmask w = Ok (mkUnmasked x true false)) frames ds ->
  exists self' es, poll_reads method_is_connect self buf (map Data reads ++ [NotReady]) =
    Ret (self', es, Some PollNotReady) /\ delivered self ds es.
Proof.
  revert f buf self frames ds. induction reads as [|d reads IH]; intros f buf self frames ds Hself Hne; simpl.
  { intros [= <- <-] Hun. inversion Hun; subst. eexists _, _. split; [done|]. constructor. }
  apply Forall_cons in Hne as [Hd Hne].
  intros ([f2 cs] & Hdrain & ([f3 cs'] & Hfeed & [= <- <-])%obind_ret_inv)%obind_ret_inv Hun.
  apply Forall2_app_inv_l in Hun as (ds1 & ds2 & Hun1 & Hun2 & ->).
  destruct (wrangle_ok self f buf d f2 cs ds1 Hself Hdrain Hun1) as (es1 & E1 & Hes1).
  destruct d as [|b d]; [done|]. rewrite E1. simpl.
  destruct (IH f2 (fill buf (b :: d)) (with_discriminator self 0 (mkDiscriminator f2 [JsonMasquerader])
    (next_sequence self)) cs' ds2) as (self' & es2 & -> & Hes2); [by simpl; rewrite Hself|done..|].
  simpl. eexists _, _. split; [done|]. by apply Forall2_app.
Qed.

(** Masked packages come out of a reader whatever framer of objects it has. *)
Lemma clandestine_delivers (f : F) `{!Framing F (plain JsonFramer.object) (fun _ => True)} local peer port packages :
  holds f tt [] -> Forall bytes_ok packages ->
  exists wires, omapM json_mask packages = Ret wires /\
    forall reads, Forall (fun r => r <> []) reads -> concat reads = concat wires ->
    exists self' messages,
      poll method_is_connect (clandestine_reader local peer port f) (map Data reads ++ [NotReady]) = Ret (self', messages, Some PollNotReady) /\
      delivered (clandestine_reader local peer port f) packages messages.
Proof.
  intros Hf Hok. rewrite Forall_forall in Hok. destruct (omapM_total json_mask packages) as [wires Hw].
  { intros x Hx. destruct (mask_ok x) as (w & E & _); [by apply Hok|]. by exists w. }
  exists wires. split; [done|]. intros reads Hne Hcat. apply omapM_ret_Forall2 in Hw.
  destruct (feed_ok (plain JsonFramer.object) (fun _ => True) reads wires f tt tt) as (f' & Hfeed & _).
  - apply framed_plain, Forall_forall. intros w Hin. apply list_elem_of_lookup in Hin as [i Hi].
    destruct (Forall2_lookup_r _ _ _ _ _ Hw Hi) as (x & Hxi & Hx).
    destruct (mask_ok x) as (w' & E & Ho & _); [by eapply Hok, list_elem_of_lookup_2|]. congruence.
  - done.
  - done.
  - done.
  - apply (poll_feed reads f _ _ wires packages f'); [done..|].
    apply Forall2_same_length_lookup.
    split; [symmetry; by apply (Forall2_length _ _ _ Hw)|]. intros i w x Hi Hx. simpl.
    pose proof (Forall2_lookup_lr _ _ _ _ _ _ Hw Hx Hi) as Hm.
    destruct (mask_ok x) as (w' & E & _ & Hu); [by eapply Hok, list_elem_of_lookup_2|]. congruence.
Qed.
End clandestine.

(** ** Properties *)

(** packages masqueraded as JSON survive the network. Any data, text or binary, can be masked;
    when the masked packages are sent down a clandestine stream one after the other and the
    receiving Node reads them in pieces cut anywhere, its Dispatcher is given exactly the original
    data, each package as one message from that peer, in order, and nothing else. *)
Theorem clandestine_stream_delivers `{!JsonLib} `{!JsonLibOk} (method_is_connect : bytes -> bool)
    (local peer : SocketAddr) (port : option Z) (packages : list bytes) :
  Forall bytes_ok packages ->
  exists wires, omapM json_mask packages = Ret wires /\
    forall reads, Forall (fun r => r <> []) reads -> concat reads = concat wires ->
    exists self' messages,
      let self := clandestine_reader local peer port JsonFramer.new in
      poll method_is_connect self (map Data reads ++ [NotReady]) = Ret (self', messages, Some PollNotReady) /\
      delivered self packages messages.
Proof. intros Hok. by apply (clandestine_delivers method_is_connect JsonFramer.new (Framing0 := JsonFramer.json_framing)). Qed.

(** *** An instance: two letters per byte in place of JSON's and Base64's encodings *)
Definition letters (s : bytes) : bytes := concat (map (fun b => [65 + b / 16; 65 + b mod 16]) s).

Fixpoint unletters (s : bytes) : option bytes :=
  match s with
  | [] => Some []
  | h :: l :: s' => (fun r => (h - 65) * 16 + (l - 65) :: r) <$> unletters s'
  | _ => None
  end.

Definition toy_parse (w : bytes) : option UnmaskStructure :=
  let body := take (length w - 15) (drop 13 w) in
  if decide (take 10 (drop 2 w) = body_text ++ [JsonFramer.DQ; 58])
  then (fun s => mkStructure (Some s) None) <$> unletters body
  else Some (mkStructure None (Some body)).

Definition toy_json : JsonLib := {|
  text_to_string s := Some (quoted body_text (letters s));
  data_to_string s := Some (quoted body_data s);
  structure_from_str := toy_parse;
  base64_encode := letters;
  base64_decode := unletters;
|}.

Lemma unletters_letters s : unletters (letters s) = Some s.
Proof.
  unfold letters. induction s as [|b s IH]; [done|]. simpl. rewrite IH. simpl. do 2 f_equal. divmod_lia.
Qed.

Lemma letters_range s : bytes_ok s -> Forall (fun b => 65 <= b <= 80) (letters s).
Proof.
  unfold letters, bytes_ok, uint. intros Hs. apply Forall_concat, Forall_map. eapply Forall_impl; [done|].
  simpl. intros b Hb. norm_pow. repeat constructor; divmod_lia.
Qed.

Lemma utf8_ascii s : Forall (fun b => 0 <= b <= 127) s -> utf8_ok s = true.
Proof.
  induction 1 as [|b s Hb Hs IH]; [done|]. simpl. unfold between.
  by rewrite !(proj2 (Z.leb_le _ _)) by lia.
Qed.

Lemma quoted_ascii key s :
  Forall (fun b => 0 <= b <= 127) key -> Forall (fun b => 65 <= b <= 80) s ->
  JsonFramer.string_body JsonFramer.DQ s /\ utf8_ok (quoted key s) = true.
Proof.
  intros Hk Hs. split.
  - induction Hs; constructor; unfold JsonFramer.DQ, JsonFramer.BS; (done || lia).
  - apply utf8_ascii. unfold quoted, JsonFramer.OB, JsonFramer.CB, JsonFramer.DQ.
    repeat (rewrite ?Forall_cons, ?Forall_app); split_and!; try lia; try done; try (by repeat constructor; lia).
    eapply Forall_impl; [done|]. simpl. lia.
Qed.

Lemma toy_json_ok : @JsonLibOk toy_json.
Proof.
  split.
  - intros s Hs _. exists (letters s). destruct (quoted_ascii body_text (letters s)) as [Hb Hu].
    { apply (bool_decide_unpack _). by vm_compute. } { by apply letters_range. }
    split_and!; [done..|]. simpl. unfold toy_parse. rewrite decide_True by done.
    assert (take _ (drop 13 (quoted body_text (letters s))) = letters s) as ->.
    { simpl. rewrite !length_app. simpl.
      replace (_ - _)%nat with (length (letters s)) by (rewrite ?length_app; simpl; lia).
      rewrite <- app_assoc. apply take_app_length. }
    by rewrite unletters_letters.
  - intros s Hs. exists (letters s). destruct (quoted_ascii body_data (letters s)) as [Hb Hu].
    { apply (bool_decide_unpack _). by vm_compute. } { by apply letters_range. }
    split_and!; [done..|]. simpl. unfold toy_parse. rewrite decide_False by done. do 3 f_equal.
    simpl. rewrite !length_app. simpl.
    replace (_ - _)%nat with (length (letters s)) by (rewrite ?length_app; simpl; lia).
    rewrite <- app_assoc. apply take_app_length.
  - intros s _. apply unletters_letters.
Qed.

Lemma clandestine_stream_delivers_witness :
  exists self' messages,
    let here := mkSocketAddr (V4 1 2 3 4) 5678 in
    let self := clandestine_reader here here None JsonFramer.new in
    @poll JsonFramer.JsonFramer _ toy_json (fun _ => false) self
      [Data (take 3 (quoted body_text (letters [104; 105])));
       Data (drop 3 (quoted body_text (letters [104; 105])) ++ quoted body_data (letters [255])); NotReady]
    = Ret (self', messages, Some PollNotReady) /\
    delivered self [[104; 105]; [255]] messages.
Proof.
  destruct (@clandestine_stream_delivers toy_json toy_json_ok (fun _ => false) (mkSocketAddr (V4 1 2 3 4) 5678)
    (mkSocketAddr (V4 1 2 3 4) 5678) None [[104; 105]; [255]]) as (wires & Hw & Hdel).
  - repeat constructor; norm_pow; lia.
  - vm_compute in Hw. injection Hw as <-.
    apply (Hdel [_; _]); [by repeat constructor|by vm_compute].
Defined.
