(* ===== verification/HttpFramer.v ===== *)
(** * HttpFramer: cutting a byte stream into HTTP packets and chunks

    [sub_lib/framer_utils.rs], [sub_lib/http_packet_framer.rs], [http_request_start_finder.rs] and
    [sub_lib/http_response_start_finder.rs]. The framer is a state machine over what has come so
    far: it seeks the start of a packet (a request's method or a response's status line, by a start
    finder), then header lines up to an empty one, then a body of the announced length; after a
    packet with a chunked encoding it takes chunks up to the last one. The machine keeps the promise
    [Framing], whose phases are packets and chunks, whatever start finder it is given. *)
From S2P Require Import Prelude Text SubLib Utils Framers.

Definition codes (s : string) : bytes := map ascii_code (lit s).

(** ** framer_utils *)
Module FramerUtils.
Record ChunkOffsetLength := mkChunkOffsetLength { offset : nat; length : Z }.

Definition CRLF : bytes := [13; 10].

Definition position_in_range (digit first last : Z) : option Z :=
  if digit <? first then None else if last <? digit then None else Some (digit - first).

Definition evaluate_hex_digit (digit : Z) : option Z :=
  match position_in_range digit 48 57 with
  | Some pos => Some pos
  | None =>
      match position_in_range digit 65 70 with
      | Some pos => Some (10 + pos)
      | None =>
          match position_in_range digit 97 102 with
          | Some pos => Some (10 + pos)
          | None => None
          end
      end
  end.

(** The loop over the digits, least significant first; [usize] arithmetic *)
Fixpoint value_loop (multiplier result : Z) (reversed_digits : list Z) : Z :=
  match reversed_digits with
  | [] => result
  | digit :: rest =>
      value_loop (wrap 64 (Z.shiftl multiplier 4)) (wrap 64 (result + wrap 64 (digit * multiplier))) rest
  end.

Definition value_of_reversed_digits (reversed_digits : list Z) : Z := value_loop 1 0 reversed_digits.

(** The loop that walks backward: [room] digits may still be found, the next index is [idx - 1]. *)
Fixpoint reversed_digits_loop (room : nat) (data_so_far : bytes) (idx : nat) : outcome (list Z) :=
  match room, idx with
  | S room', S idx' =>
      let* b := index data_so_far idx' in
      match evaluate_hex_digit b with
      | None => Ret []
      | Some value => let* rest := reversed_digits_loop room' data_so_far idx' in Ret (value :: rest)
      end
  | _, _ => Ret []
  end.

Definition find_reversed_digits (data_so_far : bytes) (backward_from : nat) : outcome (list Z) :=
  reversed_digits_loop 8 data_so_far backward_from.

(** [Err(0)]: nothing to be found; [Err(x)]: try again [x] bytes further on *)
Definition find_next_chunk_offset_length (data_so_far : bytes) : outcome (result ChunkOffsetLength nat) :=
  match index_of data_so_far CRLF with
  | None => Ret (Err 0%nat)
  | Some O => Ret (Err (List.length CRLF))
  | Some (S before as crlf_offset) =>
      let* b := index data_so_far before in
      match evaluate_hex_digit b with
      | None => Ret (Err (crlf_offset + List.length CRLF)%nat)
      | Some _ =>
          let* reversed_digits := find_reversed_digits data_so_far crlf_offset in
          let digits := List.length reversed_digits in
          Ret (Ok (mkChunkOffsetLength (crlf_offset - digits)
                     (wrap 64 (value_of_reversed_digits reversed_digits + 2 + Z.of_nat digits))))
      end
  end.

(** Every turn but the last advances the offset. *)
Fixpoint find_chunk_loop (fuel : nat) (data_so_far : bytes) (accumulated_offset : nat)
  : outcome (option ChunkOffsetLength) :=
  match fuel with
  | O => OutOfFuel
  | S fuel' =>
      let* rest := slice data_so_far accumulated_offset (List.length data_so_far) in
      let* r := find_next_chunk_offset_length rest in
      match r with
      | Err O => Ret None
      | Err next_offset => find_chunk_loop fuel' data_so_far (accumulated_offset + next_offset)
      | Ok found => Ret (Some (mkChunkOffsetLength (offset found + accumulated_offset) (length found)))
      end
  end.

Definition find_chunk_offset_length (data_so_far : bytes) : outcome (option ChunkOffsetLength) :=
  find_chunk_loop (S (List.length data_so_far)) data_so_far 0.
End FramerUtils.

(** ** http_packet_framer *)
Inductive PacketProgressState := SeekingPacketStart | SeekingBodyStart | SeekingBodyEnd.
Inductive ChunkExistenceState := Standard | ChunkedResponse | Chunk.
Inductive ChunkProgressState :=
  NoProgress | SeekingLengthHeader | SeekingEndOfChunk | SeekingEndOfFinalChunk.

(** The lengths are [usize]s, which can be far longer than any buffer. *)
Record HttpFramerState := mkState {
  data_so_far : bytes;
  packet_progress_state : PacketProgressState;
  content_length : Z;
  transfer_encoding_chunked : ChunkExistenceState;
  chunk_progress_state : ChunkProgressState;
  chunk_size : option Z;
  lines : list bytes;
}.

Definition set_data (d : bytes) (s : HttpFramerState) : HttpFramerState :=
  mkState d (packet_progress_state s) (content_length s) (transfer_encoding_chunked s)
    (chunk_progress_state s) (chunk_size s) (lines s).
Definition set_progress (p : PacketProgressState) (s : HttpFramerState) : HttpFramerState :=
  mkState (data_so_far s) p (content_length s) (transfer_encoding_chunked s)
    (chunk_progress_state s) (chunk_size s) (lines s).
Definition set_length (n : Z) (s : HttpFramerState) : HttpFramerState :=
  mkState (data_so_far s) (packet_progress_state s) n (transfer_encoding_chunked s)
    (chunk_progress_state s) (chunk_size s) (lines s).
Definition set_chunking (e : ChunkExistenceState) (p : ChunkProgressState) (n : option Z)
    (s : HttpFramerState) : HttpFramerState :=
  mkState (data_so_far s) (packet_progress_state s) (content_length s) e p n (lines s).
Definition set_lines (ls : list bytes) (s : HttpFramerState) : HttpFramerState :=
  mkState (data_so_far s) (packet_progress_state s) (content_length s) (transfer_encoding_chunked s)
    (chunk_progress_state s) (chunk_size s) ls.

(** The trait [HttpPacketStartFinder] *)
Class HttpPacketStartFinder := {
  seek_packet_start : HttpFramerState -> outcome (HttpFramerState * bool)
}.

(** [\d] of the regex crate matches the decimal digits of all scripts, by that crate's tables: does a
    text begin with one outside of ASCII? Such a digit takes at least two bytes of UTF-8, neither of
    them ASCII. *)
Class RegexDigits := {
  other_digit : bytes -> bool;
  other_digit_ascii b s : b < 128 -> other_digit (b :: s) = false
}.

Definition BYTES_TO_PRESERVE : nat := 9.
Definition CRLF : bytes := [13; 10].
Definition DOUBLE_CRLF : bytes := [13; 10; 13; 10].

Fixpoint skip_spaces (s : bytes) : bytes :=
  match s with b :: s' => if b =? 32 then skip_spaces s' else s | [] => [] end.

Fixpoint span (f : Z -> bool) (s : bytes) : bytes * bytes :=
  match s with
  | b :: s' => if f b then let (p, r) := span f s' in (b :: p, r) else ([], s)
  | [] => ([], [])
  end.

Definition is_digit (b : Z) : bool := between 48 57 b.

Section framer.
Context `{!RegexDigits}.

(** Group 1 of [^Content-Length: *(\d+)] as a [usize]. Without a match, and with one that is not a
    number in ASCII digits below [2^64], the code does the same. *)
Definition parse_content_length (line : bytes) : option Z :=
  let (run, rest) := span is_digit (skip_spaces (drop 15 line)) in
  if other_digit rest then None else parse_uint 64 (map ascii_of_code run).

(** Group 1 of [^Transfer-Encoding: *(.+)]: up to the end of the line, and after the spaces unless
    nothing but spaces is there, of which the last is then taken. *)
Definition capture_encodings (line : bytes) : option bytes :=
  let (text, _) := span (fun b => negb (b =? 10)) (drop 18 line) in
  match skip_spaces text, text with
  | [], [] => None
  | [], _ => Some [32]
  | encodings, _ => Some encodings
  end.

Definition discard_current_request (s : HttpFramerState) : HttpFramerState :=
  set_lines [] (set_length 0 (set_progress SeekingPacketStart s)).

Definition check_for_content_length (line : bytes) (s : HttpFramerState) : HttpFramerState :=
  if negb (matches_at line (codes "Content-Length:")) then s
  else if negb (utf8_ok line) then discard_current_request s
  else match parse_content_length line with
       | None => discard_current_request s
       | Some n => set_length n s
       end.

Definition check_for_transfer_encoding (line : bytes) (s : HttpFramerState) : HttpFramerState :=
  if negb (matches_at line (codes "Transfer-Encoding:")) then s
  else if negb (utf8_ok line) then discard_current_request s
  else match capture_encodings line with
       | None => discard_current_request s
       | Some encodings =>
           if bool_decide (is_Some (index_of encodings (codes "chunked")))
           then set_chunking ChunkedResponse SeekingLengthHeader None s
           else s
       end.

Definition check_for_zero_length (line : bytes) (s : HttpFramerState) : HttpFramerState * bool :=
  if (length line =? 2)%nat then (set_progress SeekingBodyEnd s, true) else (s, false).

Definition is_standard (s : HttpFramerState) : bool :=
  match transfer_encoding_chunked s with Standard => true | _ => false end.

(** What is done with a line that has been cut off the data *)
Definition take_line (line : bytes) (s : HttpFramerState) : HttpFramerState * bool :=
  let s1 := if content_length s =? 0 then check_for_content_length line s else s in
  let s2 := if is_standard s1 then check_for_transfer_encoding line s1 else s1 in
  let (s3, result) := check_for_zero_length line s2 in
  (set_lines (lines s3 ++ [line]) s3, result).

(** Every turn of the loop takes a line off the data. *)
Fixpoint seek_body_start_loop (fuel : nat) (s : HttpFramerState) : outcome (HttpFramerState * bool) :=
  match fuel with
  | O => OutOfFuel
  | S fuel' =>
      match packet_progress_state s with
      | SeekingBodyStart =>
          match index_of (data_so_far s) CRLF with
          | Some line_end =>
              let line := take (line_end + 2) (data_so_far s) in
              let (s1, result) := take_line line (set_data (drop (line_end + 2) (data_so_far s)) s) in
              if result then Ret (s1, true) else seek_body_start_loop fuel' s1
          | None => Ret (s, false)
          end
      | _ => Ret (s, false)
      end
  end.

Definition seek_body_start (s : HttpFramerState) : outcome (HttpFramerState * bool) :=
  seek_body_start_loop (S (length (data_so_far s))) s.

Definition seek_body_end (s : HttpFramerState) : HttpFramerState * option bytes :=
  match packet_progress_state s with
  | SeekingBodyEnd =>
      if content_length s <=? Z.of_nat (length (data_so_far s)) then
        let n := Z.to_nat (content_length s) in
        let s1 := set_lines (lines s ++ [take n (data_so_far s)]) (set_data (drop n (data_so_far s)) s) in
        let s2 := set_progress SeekingPacketStart s1 in
        let s3 := match transfer_encoding_chunked s2 with
                  | ChunkedResponse => set_chunking Chunk SeekingLengthHeader None s2
                  | _ => set_chunking Standard (chunk_progress_state s2) (chunk_size s2) s2
                  end in
        (set_lines [] (set_length 0 s3), Some (concat (lines s3)))
      else (s, None)
  | _ => (s, None)
  end.

Definition take_packet_frame (finder : HttpPacketStartFinder) (s : HttpFramerState)
  : outcome (HttpFramerState * option FramedChunk) :=
  let* (s1, started) := match packet_progress_state s with
                        | SeekingPacketStart => seek_packet_start s
                        | _ => Ret (s, true)
                        end in
  if negb started then Ret (s1, None) else
  let* (s2, body) := match packet_progress_state s1 with
                     | SeekingBodyStart => seek_body_start s1
                     | _ => Ret (s1, true)
                     end in
  if negb body then Ret (s2, None) else
  match packet_progress_state s2 with
  | SeekingBodyEnd =>
      match seek_body_end s2 with
      | (s3, Some request) => Ret (s3, Some (mkFramedChunk request false))
      | (s3, None) => Ret (s3, None)
      end
  | _ => Ret (s2, None)
  end.

(** [chunk_size + CRLF.len()] of a chunk size below [2^33] *)
Definition take_frame_while_seeking_end_of_chunk (s : HttpFramerState)
  : outcome (HttpFramerState * option FramedChunk) :=
  let* size := expect (chunk_size s) in
  let full := wrap 64 (size + 2) in
  let data := data_so_far s in
  if Z.of_nat (length data) <? full then Ret (s, None) else
  let n := Z.to_nat full in
  let chunk := take n data in
  let remaining := drop n data in
  let* (chunk', remaining') :=
    if bool_decide (drop (length chunk - 2) chunk = CRLF) then Ret (chunk, remaining)
    else
      let* b1 := index chunk (length chunk - 1) in
      let* b2 := index chunk (length chunk - 2) in
      Ret (take (length chunk - 2) chunk, b2 :: b1 :: remaining) in
  Ret (set_data remaining' (set_chunking (transfer_encoding_chunked s) SeekingLengthHeader None s),
       Some (mkFramedChunk chunk' false)).

Definition take_frame_while_seeking_end_of_final_chunk (s : HttpFramerState)
  : HttpFramerState * option FramedChunk :=
  match index_of (data_so_far s) DOUBLE_CRLF with
  | Some offset =>
      (set_chunking Standard NoProgress None (set_data (drop (offset + 4) (data_so_far s)) s),
       Some (mkFramedChunk (take (offset + 4) (data_so_far s)) false))
  | None => (s, None)
  end.

(** The call of [take_chunk_frame] by [take_frame_while_seeking_length_header] comes once the state
    has moved on: it does not come back here. *)
Fixpoint take_chunk_frame (calls : nat) (s : HttpFramerState)
  : outcome (HttpFramerState * option FramedChunk) :=
  match calls with
  | O => OutOfFuel
  | S calls' =>
      match chunk_progress_state s with
      | NoProgress => Panic
      | SeekingLengthHeader =>
          let data := data_so_far s in
          let* found := FramerUtils.find_chunk_offset_length data in
          match found with
          | None =>
              Ret (if (BYTES_TO_PRESERVE <? length data)%nat
                   then set_data (drop (length data - BYTES_TO_PRESERVE) data) s else s, None)
          | Some col =>
              let s1 := set_data (drop (FramerUtils.offset col) data) s in
              let* is_final :=
                if FramerUtils.length col =? 3
                then let* b := index (data_so_far s1) (FramerUtils.offset col) in Ret (b =? 48)
                else Ret false in
              take_chunk_frame calls'
                (if is_final
                 then set_chunking (transfer_encoding_chunked s1) SeekingEndOfFinalChunk None s1
                 else set_chunking (transfer_encoding_chunked s1) SeekingEndOfChunk
                        (Some (FramerUtils.length col)) s1)
          end
      | SeekingEndOfChunk => take_frame_while_seeking_end_of_chunk s
      | SeekingEndOfFinalChunk => Ret (take_frame_while_seeking_end_of_final_chunk s)
      end
  end.

Record HttpPacketFramer := mkFramer {
  framer_state : HttpFramerState;
  start_finder : HttpPacketStartFinder;
}.

Definition http_framer_new (finder : HttpPacketStartFinder) : HttpPacketFramer :=
  mkFramer (mkState [] SeekingPacketStart 0 Standard NoProgress None []) finder.

Definition http_take_frame (self : HttpPacketFramer) : outcome (HttpPacketFramer * option FramedChunk) :=
  let* (s, frame) :=
    match transfer_encoding_chunked (framer_state self) with
    | Chunk => take_chunk_frame 2 (framer_state self)
    | _ => take_packet_frame (start_finder self) (framer_state self)
    end in
  Ret (mkFramer s (start_finder self), frame).

#[global] Instance http_framer : Framer HttpPacketFramer := {|
  add_data f d := mkFramer (set_data (data_so_far (framer_state f) ++ d) (framer_state f)) (start_finder f);
  take_frame := http_take_frame;
  buffered f := length (concat (lines (framer_state f)) ++ data_so_far (framer_state f));
|}.
End framer.

(** ** http_request_start_finder *)
Module HttpRequestStartFinder.
Definition METHODS : list bytes :=
  map codes ["GET"; "HEAD"; "POST"; "PUT"; "DELETE"; "CONNECT"; "OPTIONS"; "TRACE"; "PATCH"]%string.

Definition LONGEST_METHOD_LEN : nat := 7.

(** [Iterator::min] *)
Definition minimum (l : list nat) : option nat :=
  match l with [] => None | n :: l' => Some (fold_right Nat.min n l') end.

Definition request_seek_packet_start (s : HttpFramerState) : HttpFramerState * bool :=
  match packet_progress_state s with
  | SeekingPacketStart =>
      let data := data_so_far s in
      match minimum (omap (fun method => index_of data method) METHODS) with
      | Some first_method_offset =>
          (set_lines [] (set_length 0 (set_progress SeekingBodyStart
             (set_data (drop first_method_offset data) s))), true)
      | None =>
          let index := if (LONGEST_METHOD_LEN <? length data)%nat
                       then (length data - LONGEST_METHOD_LEN)%nat else 0%nat in
          (set_data (drop index data) s, false)
      end
  | _ => (s, false)
  end.

Definition request_start_finder : HttpPacketStartFinder :=
  {| seek_packet_start s := Ret (request_seek_packet_start s) |}.
End HttpRequestStartFinder.

(** ** http_response_start_finder *)
Module HttpResponseStartFinder.
Definition LONGEST_PREFIX_LEN : nat := 13.

Definition needle : bytes := codes "HTTP/".

(** [regex.find] of [HTTP/1\.[01] \d\d\d ] in 13 bytes taken as text. The expression needs thirteen
    characters, so it only matches where every byte is a character, from the first one on. *)
Definition is_status_line (p : bytes) : bool :=
  match p with
  | [h; t1; t2; p'; sl; one; dot; minor; sp; d1; d2; d3; sp'] =>
      bool_decide ([h; t1; t2; p'; sl; one; dot] = codes "HTTP/1.") && between 48 49 minor &&
      (sp =? 32) && is_digit d1 && is_digit d2 && is_digit d3 && (sp' =? 32)
  | _ => false
  end.

Definition find_next_response_offset (data_so_far : bytes) : outcome (result nat nat) :=
  match index_of data_so_far needle with
  | None => Ret (Err 0%nat)
  | Some http_offset =>
      if (length data_so_far <? http_offset + LONGEST_PREFIX_LEN)%nat
      then Ret (Err (http_offset + length needle)%nat)
      else
        let* possibility := slice data_so_far http_offset (http_offset + LONGEST_PREFIX_LEN) in
        Ret (if is_status_line possibility then Ok http_offset else Err (http_offset + 1)%nat)
  end.

Fixpoint find_response_loop (fuel : nat) (data_so_far : bytes) (accumulated_offset : nat)
  : outcome (option nat) :=
  match fuel with
  | O => OutOfFuel
  | S fuel' =>
      let* rest := slice data_so_far accumulated_offset (length data_so_far) in
      let* r := find_next_response_offset rest in
      match r with
      | Err O => Ret None
      | Err next_offset => find_response_loop fuel' data_so_far (accumulated_offset + next_offset)
      | Ok offset => Ret (Some (offset + accumulated_offset)%nat)
      end
  end.

Definition find_response_offset (data_so_far : bytes) : outcome (option nat) :=
  find_response_loop (S (length data_so_far)) data_so_far 0.

Definition response_seek_packet_start (s : HttpFramerState) : outcome (HttpFramerState * bool) :=
  match packet_progress_state s with
  | SeekingPacketStart =>
      let data := data_so_far s in
      let* found := find_response_offset data in
      match found with
      | Some response_offset =>
          Ret (mkState (drop response_offset data) SeekingBodyStart 0 Standard NoProgress None [], true)
      | None =>
          let index := if (LONGEST_PREFIX_LEN <? length data)%nat
                       then (length data - LONGEST_PREFIX_LEN)%nat else 0%nat in
          Ret (set_data (drop index data) s, false)
      end
  | _ => Ret (s, false)
  end.

Definition response_start_finder : HttpPacketStartFinder :=
  {| seek_packet_start := response_seek_packet_start |}.
End HttpResponseStartFinder.

(** ** The grammar of what comes over a connection *)
(** A line that is not ended before its own end *)
Definition line_ok (l : bytes) : Prop := index_of (l ++ CRLF) CRLF = Some (length l).

Definition eol (l : bytes) : bytes := l ++ CRLF.

Definition LENGTH : bytes := codes "Content-Length:".
Definition ENCODING : bytes := codes "Transfer-Encoding:".

Definition ends_number (more : bytes) : Prop :=
  match more with [] => True | b :: _ => is_digit b = false /\ b < 128 end.

(** A header line, with the body length and the chunking known before and after it *)
Inductive header : bytes -> Z * bool -> Z * bool -> Prop :=
| plain_header l n c :
    l <> [] -> ~ LENGTH `prefix_of` eol l -> ~ ENCODING `prefix_of` eol l -> header l (n, c) (n, c)
| length_header l k n more c :
    l = LENGTH ++ repeat 32 k ++ map ascii_code (dec n) ++ more -> ends_number more ->
    uint 64 n -> utf8_ok (eol l) = true -> header l (0, c) (n, c)
| encoding_header l k e n :
    l = ENCODING ++ repeat 32 k ++ e -> head e <> Some 32 -> 10 ∉ e ->
    is_Some (index_of e (codes "chunked")) -> utf8_ok (eol l) = true -> header l (n, false) (n, true).

Inductive headers : list bytes -> Z * bool -> Z * bool -> Prop :=
| headers_nil x : headers [] x x
| headers_cons l ls x y z : line_ok l -> header l x y -> headers ls y z -> headers (l :: ls) x z.

(** A packet: a first line that begins as the start finder expects, headers, an empty line and a body
    of the announced length (none if no length is announced); and is it followed by chunks? *)
Inductive packet (start : bytes -> Prop) : bytes -> bool -> Prop :=
| packet_intro h t hs body n c :
    start h -> line_ok (h ++ t) -> headers hs (0, false) (n, c) -> Z.of_nat (length body) = n ->
    packet start (concat (map eol ((h ++ t) :: hs)) ++ CRLF ++ body) c.

Definition hex_value (digits : list Z) : Z := fold_left (fun v d => v * 16 + d) digits 0.

(** A chunk of [hex_value digits] bytes, which are not none, behind a length of at most eight digits *)
Inductive chunk_frame : bytes -> Prop :=
| chunk_intro hx digits body :
    Forall2 (fun b d => FramerUtils.evaluate_hex_digit b = Some d) hx digits ->
    (0 < length hx <= 8)%nat -> hex_value digits = Z.of_nat (length body) -> body <> [] ->
    chunk_frame (hx ++ CRLF ++ body ++ CRLF).

(** The chunk of length zero, with or without trailing header lines *)
Inductive last_chunk_frame : bytes -> Prop :=
| last_chunk_intro t :
    index_of (48 :: CRLF ++ t) DOUBLE_CRLF = Some (length t - 1)%nat -> (0 < length t)%nat ->
    last_chunk_frame (48 :: CRLF ++ t).

Inductive phase := Packets | Chunks.

Inductive http_frame (start : bytes -> Prop) : phase -> bytes -> phase -> Prop :=
| frame_packet r c : packet start r c -> http_frame start Packets r (if c then Chunks else Packets)
| frame_chunk r : chunk_frame r -> http_frame start Chunks r Chunks
| frame_last r : last_chunk_frame r -> http_frame start Chunks r Packets.

(** The state between two frames *)
Definition idle (ph : phase) (d : bytes) : HttpFramerState :=
  match ph with
  | Packets => mkState d SeekingPacketStart 0 Standard NoProgress None []
  | Chunks => mkState d SeekingPacketStart 0 Chunk SeekingLengthHeader None []
  end.

(** The state among the headers and before the body *)
Definition amid (pps : PacketProgressState) (x : Z * bool) (ls : list bytes) (d : bytes) : HttpFramerState :=
  mkState d pps x.1 (if x.2 then ChunkedResponse else Standard)
    (if x.2 then SeekingLengthHeader else NoProgress) None ls.

(** What a start finder promises to the framer: the start of a packet is recognised where the data
    begin with it, and the beginning of one is kept. *)
Class StartFinding (finder : HttpPacketStartFinder) (start : bytes -> Prop) := {
  start_plain h t : start h -> h <> [] /\ ~ LENGTH `prefix_of` h ++ t /\ ~ ENCODING `prefix_of` h ++ t;
  start_found h rest :
    start h -> seek_packet_start (idle Packets (h ++ rest))
               = Ret (amid SeekingBodyStart (0, false) [] (h ++ rest), true);
  start_waits h p q :
    start h -> h = p ++ q -> q <> [] -> seek_packet_start (idle Packets p) = Ret (idle Packets p, false);
  start_nothing : seek_packet_start (idle Packets []) = Ret (idle Packets [], false)
}.

(** ** Lines *)
Lemma crlf_at j (l : bytes) : CRLF `prefix_of` drop j l -> l !! j = Some 13.
Proof. intros [t Ht]. rewrite <- (Nat.add_0_r j), <- lookup_drop, Ht. done. Qed.

Lemma line_without_cr l : 13 ∉ l -> line_ok l.
Proof.
  intros Hl. apply index_of_Some; [done|]. split; [rewrite drop_app_length; by exists []|].
  intros j Hj Hp%crlf_at. apply Hl. rewrite lookup_app_l in Hp by done. by apply list_elem_of_lookup_2 in Hp.
Qed.

Lemma index_line l d : line_ok l -> index_of (eol l ++ d) CRLF = Some (length l).
Proof. intros Hl. by apply index_of_app. Qed.

Lemma part_of_line l p q : line_ok l -> eol l = p ++ q -> q <> [] -> index_of p CRLF = None.
Proof.
  unfold line_ok. intros Hl E Hq. change (l ++ CRLF) with (eol l) in Hl. rewrite E in Hl.
  eapply index_of_before; [|exact Hl|]; [done|]. apply (f_equal length) in E.
  unfold eol in E. rewrite !length_app in E. simpl in *. destruct q; [done|]. simpl in E. lia.
Qed.

Lemma span_app (f : Z -> bool) p b s :
  Forall (fun x => f x = true) p -> f b = false -> span f (p ++ b :: s) = (p, b :: s).
Proof. intros Hp Hb. induction Hp as [|x p Hx Hp IH]; simpl; [by rewrite Hb|]. by rewrite Hx, IH. Qed.

Lemma skip_spaces_app k b s : b <> 32 -> skip_spaces (repeat 32 k ++ b :: s) = b :: s.
Proof. intros Hb. induction k as [|k IH]; simpl; [|done]. by rewrite (proj2 (Z.eqb_neq b 32)). Qed.

Section headers.
Context `{!RegexDigits}.

Lemma digits_code c : is_Some (digit_value c) -> is_digit (ascii_code c) = true.
Proof. unfold digit_value, is_digit, between. case_match; [done|]. by intros []. Qed.

Lemma dec_codes n : uint 64 n -> Forall (fun x => is_digit x = true) (map ascii_code (dec n)).
Proof.
  intros Hn. apply Forall_fmap. eapply Forall_impl; [apply (dec_all_digits n)|apply digits_code].
  unfold uint in Hn. lia.
Qed.

Lemma parse_content_length_ok l k n more :
  l = LENGTH ++ repeat 32 k ++ map ascii_code (dec n) ++ more -> ends_number more -> uint 64 n ->
  parse_content_length (eol l) = Some n.
Proof.
  intros -> Hmore Hn. unfold parse_content_length, eol. rewrite <- !app_assoc.
  change (drop 15 _) with (repeat 32 k ++ map ascii_code (dec n) ++ more ++ CRLF).
  pose proof (dec_codes n Hn) as Hd. pose proof (dec_nonempty n).
  destruct (map ascii_code (dec n)) as [|b ds] eqn:E; [by destruct (dec n)|]. cbn [app].
  rewrite skip_spaces_app by (apply Forall_cons in Hd as [Hb _]; by intros ->).
  assert (exists m more', more ++ CRLF = m :: more' /\ is_digit m = false /\ m < 128)
    as (m & more' & -> & Hm & Hlt).
  { destruct more as [|m more]; [by exists 13, [10]|]. destruct Hmore. by exists m, (more ++ CRLF). }
  rewrite app_comm_cons, span_app by done. rewrite other_digit_ascii by done.
  rewrite <- E, ascii_code_back. by apply parse_uint_dec.
Qed.

Lemma capture_encodings_ok l k e :
  l = ENCODING ++ repeat 32 k ++ e -> head e <> Some 32 -> 10 ∉ e -> e <> [] ->
  capture_encodings (eol l) = Some (e ++ [13]).
Proof.
  intros -> Hh Hn He. unfold capture_encodings, eol. rewrite <- !app_assoc.
  change (drop 18 _) with (repeat 32 k ++ e ++ CRLF).
  replace (repeat 32 k ++ e ++ CRLF) with ((repeat 32 k ++ e ++ [13]) ++ 10 :: [])
    by (rewrite <- !app_assoc; done).
  rewrite span_app; [| |done].
  - destruct e as [|b e]; [done|]. cbn [app]. rewrite skip_spaces_app by (intros ->; by apply Hh). done.
  - rewrite !Forall_app. split_and!; [|apply Forall_forall; intros x Hx; destruct (Z.eqb_spec x 10); [|done];
      by subst|by repeat constructor].
    clear. induction k; simpl; by constructor.
Qed.

Lemma check_other (pre line : bytes) : ~ pre `prefix_of` line -> matches_at line pre = false.
Proof. rewrite <- matches_at_prefix. by destruct (matches_at line pre). Qed.

Lemma take_line_header l x y ls d :
  header l x y ->
  take_line (eol l) (amid SeekingBodyStart x ls d) = (amid SeekingBodyStart y (ls ++ [eol l]) d, false).
Proof.
  intros Hh. assert (Hzero : (length (eol l) =? 2)%nat = false).
  { apply Nat.eqb_neq. unfold eol. rewrite length_app. simpl. destruct l as [|b l]; [|simpl; lia].
    inversion Hh; subst; done. }
  unfold take_line, check_for_zero_length. rewrite Hzero. unfold check_for_content_length,
    check_for_transfer_encoding. fold LENGTH ENCODING.
  destruct Hh as [l n c Hne HL HE|l k n more c El Hm Hn Hu|l k e n El Hh Hnl Hc Hu].
  - rewrite (check_other LENGTH), (check_other ENCODING) by done. cbn [negb].
    destruct (content_length _ =? 0); by destruct (is_standard _).
  - change (content_length _ =? 0) with true. cbv iota.
    assert (matches_at (eol l) LENGTH = true) as ->.
    { apply matches_at_prefix. rewrite El. unfold eol. rewrite <- !app_assoc. by eexists. }
    rewrite Hu, (parse_content_length_ok l k n more) by done. cbn [negb].
    assert (matches_at (eol l) ENCODING = false) as -> by (rewrite El; reflexivity). cbn [negb].
    by destruct (is_standard _).
  - assert (matches_at (eol l) LENGTH = false) as -> by (rewrite El; reflexivity). cbn [negb].
    assert (matches_at (eol l) ENCODING = true) as ->.
    { apply matches_at_prefix. rewrite El. unfold eol. rewrite <- !app_assoc. by eexists. }
    rewrite Hu, (capture_encodings_ok l k e) by (done || by intros ->; destruct Hc).
    assert (Hne : codes "chunked" <> []) by done. destruct Hc as [i Hi].
    rewrite (index_of_app e [13] _ i Hne Hi), bool_decide_true by done.
    cbn [negb]. by destruct (content_length _ =? 0).
Qed.

(** The loop needs no more fuel than there are bytes. *)
Lemma seek_fuel n m s :
  (length (data_so_far s) < n)%nat -> (length (data_so_far s) < m)%nat ->
  seek_body_start_loop n s = seek_body_start_loop m s.
Proof.
  revert m s. induction n as [|n IH]; intros [|m] s Hn Hm; [lia..|]. cbn [seek_body_start_loop].
  destruct (packet_progress_state s); try done. destruct (index_of (data_so_far s) CRLF) as [i|] eqn:E; [|done].
  apply (index_of_Some _ CRLF) in E as [Hp _]; [|done]. apply prefix_drop_length in Hp; [|done]. simpl in Hp.
  destruct (take_line _ _) as [s1 res] eqn:E1. destruct res; [done|].
  assert (data_so_far s1 = drop (i + 2) (data_so_far s)) as Hd.
  { revert E1. unfold take_line, check_for_zero_length, check_for_transfer_encoding, check_for_content_length.
    repeat case_match; intros; simplify_eq/=; done. }
  apply IH; rewrite Hd, length_drop; lia.
Qed.

Lemma seek_line l s d :
  line_ok l -> packet_progress_state s = SeekingBodyStart -> data_so_far s = eol l ++ d ->
  seek_body_start s =
    let (s1, result) := take_line (eol l) (set_data d s) in
    if result then Ret (s1, true) else seek_body_start_loop (S (length d) + length l + 1)%nat s1.
Proof.
  intros Hl Hp Hd. unfold seek_body_start. rewrite Hd.
  replace (S (length (eol l ++ d))) with (S (S (length d) + length l + 1))
    by (unfold eol; rewrite !length_app; simpl; lia).
  cbn [seek_body_start_loop]. rewrite Hp, Hd, index_line by done.
  replace (length l + 2)%nat with (length (eol l)) by (unfold eol; by rewrite length_app).
  by rewrite take_app_length, drop_app_length.
Qed.

Lemma seek_headers hs x y ls d :
  headers hs x y ->
  seek_body_start (amid SeekingBodyStart x ls (concat (map eol hs) ++ d)) =
  seek_body_start (amid SeekingBodyStart y (ls ++ map eol hs) d).
Proof.
  intros Hhs. revert ls. induction Hhs as [x|l hs x y z Hl Hh Hhs IH]; intros ls; simpl.
  - by rewrite app_nil_r.
  - rewrite <- app_assoc. rewrite (seek_line l _ (concat (map eol hs) ++ d)) by done.
    change (set_data ?a (amid ?b ?c ?e ?g)) with (amid b c e a).
    rewrite (take_line_header l x y) by done. change (eol l :: map eol hs) with ([eol l] ++ map eol hs).
    rewrite (app_assoc ls), <- IH. apply seek_fuel; simpl; lia.
Qed.

Lemma seek_blank x ls d :
  seek_body_start (amid SeekingBodyStart x ls (CRLF ++ d)) = Ret (amid SeekingBodyEnd x (ls ++ [CRLF]) d, true).
Proof.
  rewrite (seek_line [] _ d) by done. unfold take_line. change (set_data d _) with (amid SeekingBodyStart x ls d).
  assert (check_for_content_length (eol []) (amid SeekingBodyStart x ls d) = amid SeekingBodyStart x ls d) as -> by done.
  replace (if content_length _ =? 0 then _ else _) with (amid SeekingBodyStart x ls d) by by case_match.
  assert (check_for_transfer_encoding (eol []) (amid SeekingBodyStart x ls d) = amid SeekingBodyStart x ls d) as -> by done.
  replace (if is_standard _ then _ else _) with (amid SeekingBodyStart x ls d) by by case_match.
  done.
Qed.

Lemma seek_stuck x ls d :
  index_of d CRLF = None ->
  seek_body_start (amid SeekingBodyStart x ls d) = Ret (amid SeekingBodyStart x ls d, false).
Proof. intros Hd. unfold seek_body_start. cbn [seek_body_start_loop amid packet_progress_state data_so_far].
  by rewrite Hd. Qed.
End headers.

(** ** Chunks *)
Lemma hex_digit_range b d : FramerUtils.evaluate_hex_digit b = Some d -> 0 <= d < 16 /\ b <> 13.
Proof.
  unfold FramerUtils.evaluate_hex_digit, FramerUtils.position_in_range.
  repeat case_match; intros; simplify_eq; (split; [|intros ->; done]);
    repeat match goal with
           | H : (_ <? _) = false |- _ => apply Z.ltb_ge in H
           end; lia.
Qed.

Definition hex_digits : bytes -> list Z -> Prop :=
  Forall2 (fun b d => FramerUtils.evaluate_hex_digit b = Some d).

Lemma hex_line hx digits :
  hex_digits hx digits -> line_ok hx.
Proof.
  intros Hf. apply line_without_cr. intros [i Hi]%list_elem_of_lookup.
  destruct (Forall2_lookup_l _ _ _ _ _ Hf Hi) as (d & _ & Hd%hex_digit_range). lia.
Qed.

Lemma hex_range hx digits : hex_digits hx digits -> Forall (fun d => 0 <= d < 16) digits.
Proof.
  intros Hf. apply Forall_lookup. intros i d Hd.
  destruct (Forall2_lookup_r _ _ _ _ _ Hf Hd) as (b & _ & Hb%hex_digit_range). lia.
Qed.

Definition low_first (digits : list Z) : Z := foldr (fun d v => d + 16 * v) 0 digits.

Lemma low_first_bound digits :
  Forall (fun d => 0 <= d < 16) digits -> 0 <= low_first digits < 16 ^ Z.of_nat (length digits).
Proof.
  induction 1 as [|d ds Hd Hds IH]; simpl; [lia|].
  replace (Z.of_nat (S (length ds))) with (Z.of_nat (length ds) + 1) by lia. rewrite Z.pow_add_r by lia. lia.
Qed.

Lemma low_first_reverse digits : low_first (reverse digits) = hex_value digits.
Proof.
  unfold low_first, hex_value. unfold reverse. rewrite <- rev_alt, <- fold_left_rev_right.
  generalize (rev digits). intros l. induction l as [|d l IH]; simpl; [done|]. rewrite IH. lia.
Qed.

Lemma value_loop_ok digits m r :
  Forall (fun d => 0 <= d < 16) digits -> 0 < m -> 0 <= r < m -> m * 16 ^ Z.of_nat (length digits) <= 2 ^ 62 ->
  FramerUtils.value_loop m r digits = r + m * low_first digits.
Proof.
  intros Hds. revert m r. induction Hds as [|d ds Hd Hds IH]; intros m r Hm Hr Hb; simpl; [lia|].
  cbn [length] in Hb. replace (Z.of_nat (S (length ds))) with (Z.of_nat (length ds) + 1) in Hb by lia.
  rewrite Z.pow_add_r, Z.pow_1_r in Hb by lia.
  assert (1 <= 16 ^ Z.of_nat (length ds)) by (apply (Z.pow_le_mono_r 16 0); lia).
  assert (16 * m <= m * (16 ^ Z.of_nat (length ds) * 16)) by nia.
  assert (0 <= d * m <= 15 * m) by nia. rewrite Z.shiftl_mul_pow2 by lia. change (2 ^ 4) with 16.
  assert (2 ^ 62 < 2 ^ 64) by lia.
  rewrite (wrap_small 64 (d * m)), (wrap_small 64 (m * 16)), wrap_small by (unfold uint; lia).
  rewrite IH; [change (low_first (d :: ds)) with (d + 16 * low_first ds); ring|lia|lia|].
  by rewrite <- Z.mul_assoc, (Z.mul_comm 16).
Qed.

Lemma reversed_digits_ok hx digits room rest :
  hex_digits hx digits -> (length hx <= room)%nat ->
  FramerUtils.reversed_digits_loop room (hx ++ rest) (length hx) = Ret (reverse digits).
Proof.
  intros Hf. revert room rest digits Hf. induction hx as [|b hx IH] using rev_ind; intros room rest digits Hf Hr.
  { apply Forall2_nil_inv_l in Hf as ->. by destruct room. }
  apply Forall2_app_inv_l in Hf as (ds & k & Hf & Hk & ->).
  apply Forall2_cons_inv_l in Hk as (d & ? & Hd & Hn%Forall2_nil_inv_l & ->). subst.
  rewrite length_app in *. simpl in Hr. destruct room as [|room]; [lia|].
  replace (length hx + length [b])%nat with (S (length hx)) by (simpl; lia).
  cbn [FramerUtils.reversed_digits_loop]. unfold index. rewrite <- app_assoc.
  rewrite lookup_app_r, Nat.sub_diag by lia. cbn [app lookup list_lookup expect obind]. rewrite Hd.
  rewrite (IH room (b :: rest) ds) by (done || lia). cbn [obind]. by rewrite reverse_app.
Qed.

Lemma find_next_here hx digits t :
  hex_digits hx digits -> (0 < length hx <= 8)%nat ->
  FramerUtils.find_next_chunk_offset_length (hx ++ CRLF ++ t) =
  Ret (Ok (FramerUtils.mkChunkOffsetLength 0 (hex_value digits + 2 + Z.of_nat (length hx)))).
Proof.
  intros Hf Hl. assert (Hds := hex_range _ _ Hf). assert (Hok := hex_line _ _ Hf).
  unfold FramerUtils.find_next_chunk_offset_length. change FramerUtils.CRLF with CRLF.
  pose proof (index_line hx t Hok) as Hidx. unfold eol in Hidx. rewrite <- app_assoc in Hidx. rewrite Hidx.
  destruct (length hx) as [|n] eqn:En; [lia|].
  destruct (index_ret (hx ++ CRLF ++ t) n) as (b & -> & Hb); [rewrite length_app; lia|]. cbn [obind].
  rewrite lookup_app_l in Hb by lia. destruct (Forall2_lookup_l _ _ _ _ _ Hf Hb) as (d & _ & ->).
  unfold FramerUtils.find_reversed_digits. rewrite <- En, (reversed_digits_ok hx digits) by (done || lia).
  cbn [obind]. rewrite length_reverse, <- (Forall2_length _ _ _ Hf), Nat.sub_diag.
  assert (16 ^ Z.of_nat (length hx) <= 16 ^ 8) by (apply Z.pow_le_mono_r; lia).
  pose proof (low_first_bound digits Hds) as Hlow. rewrite <- (Forall2_length _ _ _ Hf) in Hlow.
  unfold FramerUtils.value_of_reversed_digits. rewrite value_loop_ok.
  - assert (low_first (reverse digits) = hex_value digits) as <- by apply low_first_reverse.
    pose proof (low_first_bound (reverse digits)) as Hlow'. rewrite length_reverse in Hlow'.
    rewrite <- (Forall2_length _ _ _ Hf) in Hlow'.
    assert (0 <= low_first (reverse digits) < 16 ^ 8).
    { destruct Hlow' as [? ?]; [|lia]. by apply Forall_reverse. }
    rewrite wrap_small by (unfold uint; norm_pow; lia). simpl. do 4 f_equal. lia.
  - by apply Forall_reverse.
  - lia.
  - lia.
  - rewrite length_reverse, <- (Forall2_length _ _ _ Hf). norm_pow. lia.
Qed.

Lemma find_chunk_here hx digits t :
  hex_digits hx digits -> (0 < length hx <= 8)%nat ->
  FramerUtils.find_chunk_offset_length (hx ++ CRLF ++ t) =
  Ret (Some (FramerUtils.mkChunkOffsetLength 0 (hex_value digits + 2 + Z.of_nat (length hx)))).
Proof.
  intros Hf Hl. unfold FramerUtils.find_chunk_offset_length. cbn [FramerUtils.find_chunk_loop].
  rewrite slice_ok, drop_0, Nat.sub_0_r, take_ge by lia. cbn [obind].
  by rewrite (find_next_here hx digits).
Qed.

(** ** The framer keeps its promise *)
Section framing.
Context `{!RegexDigits} (finder : HttpPacketStartFinder) (start : bytes -> Prop) `{!StartFinding finder start}.

Ltac take_amid :=
  unfold take_packet_frame;
  repeat change (packet_progress_state (amid ?pps ?x ?ls ?d)) with pps; cbv iota; cbn [obind negb];
  repeat change (packet_progress_state (amid ?pps ?x ?ls ?d)) with pps; cbv iota; cbn [obind negb].

Lemma take_started h rest :
  start h -> take_packet_frame finder (idle Packets (h ++ rest)) =
             take_packet_frame finder (amid SeekingBodyStart (0, false) [] (h ++ rest)).
Proof.
  intros Hh. unfold take_packet_frame at 1.
  change (packet_progress_state (idle Packets (h ++ rest))) with SeekingPacketStart. cbv iota.
  by rewrite start_found.
Qed.

Lemma take_headers hs x y ls d :
  headers hs x y ->
  take_packet_frame finder (amid SeekingBodyStart x ls (concat (map eol hs) ++ d)) =
  take_packet_frame finder (amid SeekingBodyStart y (ls ++ map eol hs) d).
Proof.
  intros Hhs. take_amid.
  by rewrite (seek_headers hs x y).
Qed.

Lemma take_blank x ls d :
  take_packet_frame finder (amid SeekingBodyStart x ls (CRLF ++ d)) =
  take_packet_frame finder (amid SeekingBodyEnd x (ls ++ [CRLF]) d).
Proof.
  take_amid. by rewrite seek_blank.
Qed.

Lemma take_stuck x ls d :
  index_of d CRLF = None ->
  take_packet_frame finder (amid SeekingBodyStart x ls d) = Ret (amid SeekingBodyStart x ls d, None).
Proof.
  intros Hd. take_amid. by rewrite seek_stuck.
Qed.

Lemma take_body n c ls body rest :
  Z.of_nat (length body) = n ->
  take_packet_frame finder (amid SeekingBodyEnd (n, c) ls (body ++ rest)) =
  Ret (idle (if c then Chunks else Packets) rest, Some (mkFramedChunk (concat ls ++ body) false)).
Proof.
  intros Hn. take_amid. unfold seek_body_end.
  cbn [packet_progress_state content_length data_so_far amid fst].
  rewrite (proj2 (Z.leb_le _ _)) by (rewrite length_app; lia).
  replace (Z.to_nat n) with (length body) by lia. rewrite take_app_length, drop_app_length.
  destruct c; simpl; by rewrite concat_app; simpl; rewrite app_nil_r.
Qed.

Lemma take_body_waits n c ls d :
  Z.of_nat (length d) < n ->
  take_packet_frame finder (amid SeekingBodyEnd (n, c) ls d) = Ret (amid SeekingBodyEnd (n, c) ls d, None).
Proof.
  intros Hn. take_amid. unfold seek_body_end.
  cbn [packet_progress_state content_length data_so_far amid fst]. by rewrite (proj2 (Z.leb_gt _ _)).
Qed.

Lemma first_line h t : start h -> line_ok (h ++ t) -> headers [h ++ t] (0, false) (0, false).
Proof.
  intros Hh Hl. econstructor; [done| |constructor].
  destruct (start_plain h (t ++ CRLF) Hh) as (Hne & HL & HE). unfold eol in *. rewrite app_assoc in HL, HE.
  apply plain_header; [by destruct h|done..].
Qed.

Lemma headers_app hs hs' x z :
  headers (hs ++ hs') x z -> exists y, headers hs x y /\ headers hs' y z.
Proof.
  revert x. induction hs as [|l hs IH]; intros x Hall; [exists x; by split; [constructor|]|].
  inversion Hall as [|? ? ? y0 ? Hl Hh Hhs]; subst. destruct (IH _ Hhs) as (y & ? & ?).
  exists y. split; [by econstructor|done].
Qed.

Lemma headers_trans hs hs' x y z : headers hs x y -> headers hs' y z -> headers (hs ++ hs') x z.
Proof. induction 1; [done|]. intros. econstructor; eauto. Qed.

Lemma take_packet r c rest :
  packet start r c ->
  take_packet_frame finder (idle Packets (r ++ rest)) =
  Ret (idle (if c then Chunks else Packets) rest, Some (mkFramedChunk r false)).
Proof.
  intros [h t hs body n c' Hh Hl Hhs Hn]. pose proof (headers_trans _ _ _ _ _ (first_line h t Hh Hl) Hhs) as Hall.
  cbn [app] in Hall. rewrite <- !app_assoc.
  assert (Hb : exists x, concat (map eol ((h ++ t) :: hs)) ++ CRLF ++ body ++ rest = h ++ x).
  { simpl. unfold eol at 1. rewrite <- !app_assoc. by eexists. }
  destruct Hb as [x Hx]. rewrite Hx, take_started, <- Hx by done.
  rewrite (take_headers _ _ _ _ _ Hall), take_blank, take_body by done.
  rewrite concat_app. simpl. by rewrite <- app_assoc.
Qed.

(** [s] is what looking at [p] leaves, and looking again when more has come is the same as looking at
    it all at once. *)
Definition resumes (ph : phase) (p : bytes) (s : HttpFramerState) : Prop :=
  http_take_frame (mkFramer (idle ph p) finder) = Ret (mkFramer s finder, None) /\
  (length p <= length (concat (lines s) ++ data_so_far s))%nat /\
  forall d, http_take_frame (mkFramer (set_data (data_so_far s ++ d) s) finder) =
            http_take_frame (mkFramer (idle ph (p ++ d)) finder).

Lemma take_from_packet s :
  transfer_encoding_chunked s <> Chunk ->
  http_take_frame (mkFramer s finder) =
  let* (s', frame) := take_packet_frame finder s in Ret (mkFramer s' finder, frame).
Proof.
  intros Hs. unfold http_take_frame. cbn [framer_state start_finder].
  by destruct (transfer_encoding_chunked s).
Qed.

(** A beginning of a packet that is longer than what the start finder needs *)
Lemma resumes_amid pps x ls part p :
  pps <> SeekingPacketStart -> p = concat ls ++ part ->
  (forall d, take_packet_frame finder (idle Packets (p ++ d)) =
             take_packet_frame finder (amid pps x ls (part ++ d))) ->
  take_packet_frame finder (amid pps x ls part) = Ret (amid pps x ls part, None) ->
  resumes Packets p (amid pps x ls part).
Proof.
  intros Hpps -> Hd Hnone. unfold resumes. split_and!.
  - specialize (Hd []). rewrite !app_nil_r in Hd. rewrite take_from_packet by done. by rewrite Hd, Hnone.
  - done.
  - intros d. change (set_data _ (amid pps x ls part)) with (amid pps x ls (part ++ d)).
    rewrite !take_from_packet by (done || by destruct x as [? []]). by rewrite Hd.
Qed.

(** A beginning of a sequence of lines is some of the lines and a beginning of the next. *)
Lemma lines_prefix (ls : list bytes) p q :
  concat (map eol ls) = p ++ q -> q <> [] ->
  exists done l todo part x, ls = done ++ l :: todo /\ p = concat (map eol done) ++ part /\
    eol l = part ++ x /\ x <> [].
Proof.
  revert p. induction ls as [|l ls IH]; intros p E Hq; simpl in E; [by destruct p, q|].
  apply app_eq_inv in E as [(k & E1 & E2)|(k & E1 & E2)].
  - destruct (decide (k = [])) as [->|Hk].
    + rewrite app_nil_r in E1. simpl in E2. subst p. rewrite E2 in Hq. destruct ls as [|l' ls]; [done|].
      exists [l], l', ls, [], (eol l'). split_and!; [done|simpl; by rewrite !app_nil_r|done|].
      unfold eol. by destruct l'.
    + by exists [], l, ls, p, k.
  - destruct (IH k) as (dn & l' & todo & part & x & -> & -> & ? & ?); [done..|].
    exists (l :: dn), l', todo, part, x. split_and!; [done|simpl; by rewrite E1, app_assoc|done..].
Qed.

Lemma headers_lines hs x y : headers hs x y -> Forall line_ok hs.
Proof. induction 1; by constructor. Qed.

(** The beginning of a packet ends among its lines ... *)
Lemma partial_lines h k p q hs y :
  start h -> p = h ++ k -> headers hs (0, false) y ->
  concat (map eol (hs ++ [[]])) = p ++ q -> q <> [] -> exists s, resumes Packets p s.
Proof.
  intros Hh Hp Hhs E Hq. destruct (lines_prefix _ _ _ E Hq) as (dn & l & todo & part & x & Els & Ep & El & Hx).
  assert (Hok : line_ok l).
  { assert (Hall : Forall line_ok (hs ++ [[]])).
    { apply Forall_app. split; [by eapply headers_lines|]. by repeat constructor. }
    rewrite Els in Hall. apply Forall_app in Hall as [_ Hall]. by apply Forall_cons in Hall as [? _]. }
  assert (exists rest, hs = dn ++ rest) as [rest ->].
  { destruct todo as [|l' todo] using rev_ind; [apply app_inj_tail in Els as [-> _]; exists []; by rewrite app_nil_r|].
    rewrite app_comm_cons, app_assoc in Els. apply app_inj_tail in Els as [-> _]. by eexists. }
  apply headers_app in Hhs as (z & Hdn & _). exists (amid SeekingBodyStart z (map eol dn) part).
  apply resumes_amid; [done|done| |].
  - intros d. rewrite Hp, <- app_assoc, take_started, app_assoc, <- Hp, Ep, <- app_assoc by done.
    by apply take_headers.
  - apply take_stuck. by apply (part_of_line l part x).
Qed.

(** ... or in its body. *)
Lemma partial_body h k p body1 n c hs :
  start h -> p = h ++ k -> headers hs (0, false) (n, c) ->
  p = concat (map eol (hs ++ [[]])) ++ body1 -> Z.of_nat (length body1) < n -> exists s, resumes Packets p s.
Proof.
  intros Hh Hp Hhs E Hn. exists (amid SeekingBodyEnd (n, c) (map eol (hs ++ [[]])) body1).
  apply resumes_amid; [done|done| |by apply take_body_waits].
  intros d. rewrite Hp, <- app_assoc, take_started, app_assoc, <- Hp, E by done.
  rewrite map_app, concat_app, <- !app_assoc. rewrite (take_headers _ _ _ _ _ Hhs).
  by rewrite take_blank.
Qed.

Lemma packet_partial r c p q :
  packet start r c -> r = p ++ q -> p <> [] -> q <> [] -> exists s, resumes Packets p s.
Proof.
  intros Hr E Hp Hq. destruct Hr as [h t hs body n c Hh Hl Hhs Hn].
  pose proof (headers_trans _ _ _ _ _ (first_line h t Hh Hl) Hhs) as Hall. cbn [app] in Hall.
  set (ls := (h ++ t) :: hs) in *.
  replace (concat (map eol ls) ++ CRLF ++ body) with (concat (map eol (ls ++ [[]])) ++ body) in E
    by (rewrite map_app, concat_app, <- app_assoc; done).
  assert (Hstart : exists y, concat (map eol (ls ++ [[]])) ++ body = h ++ y).
  { simpl. unfold eol at 1. rewrite <- !app_assoc. by eexists. }
  destruct Hstart as [y Hy]. pose proof E as E'. rewrite Hy in E'.
  apply app_eq_inv in E' as [(k & E1 & E2)|(k & E1 & E2)].
  - destruct (decide (k = [])) as [->|Hk].
    + rewrite app_nil_r in E1. apply (partial_lines h [] p (t ++ CRLF ++ concat (map eol (hs ++ [[]]))) ls (n, c));
        [done|by rewrite app_nil_r|done| |by destruct t].
      subst p. unfold ls. simpl. unfold eol at 1. by rewrite <- !app_assoc.
    + exists (idle Packets p). unfold resumes. split_and!; [|done|done].
      rewrite take_from_packet by done. unfold take_packet_frame.
      change (packet_progress_state (idle Packets p)) with SeekingPacketStart. cbv iota.
      by rewrite (start_waits h p k).
  - apply app_eq_inv in E as [(b & E3 & E4)|(b & E3 & E4)].
    + destruct (decide (b = [])) as [->|Hb].
      * rewrite app_nil_r in E3. apply (partial_body h k p [] n c ls); [done..|by rewrite app_nil_r|].
        simpl in E4. subst q. destruct body; [done|simpl in *; lia].
      * by apply (partial_lines h k p b ls (n, c)).
    + apply (partial_body h k p b n c ls); [done..|]. subst body. rewrite length_app in Hn.
      destruct q; [done|simpl in *; lia].
Qed.

(** *** Chunks *)
Definition in_chunk (size : Z) (d : bytes) : HttpFramerState :=
  mkState d SeekingPacketStart 0 Chunk SeekingEndOfChunk (Some size) [].

Definition in_last_chunk (d : bytes) : HttpFramerState :=
  mkState d SeekingPacketStart 0 Chunk SeekingEndOfFinalChunk None [].

Definition of_state (r : outcome (HttpFramerState * option FramedChunk)) : outcome (HttpPacketFramer * option FramedChunk) :=
  let* (s, frame) := r in Ret (mkFramer s finder, frame).

Lemma take_chunk_header hx digits t :
  hex_digits hx digits -> (0 < length hx <= 8)%nat ->
  0 < hex_value digits ->
  http_take_frame (mkFramer (idle Chunks (hx ++ CRLF ++ t)) finder) =
  of_state (take_frame_while_seeking_end_of_chunk
              (in_chunk (hex_value digits + 2 + Z.of_nat (length hx)) (hx ++ CRLF ++ t))).
Proof.
  intros Hf Hl Hv. unfold http_take_frame. cbn [framer_state start_finder transfer_encoding_chunked idle].
  cbn [take_chunk_frame chunk_progress_state data_so_far]. rewrite (find_chunk_here hx digits) by done.
  cbn [obind FramerUtils.length FramerUtils.offset].
  destruct (Z.eqb_spec (hex_value digits + 2 + Z.of_nat (length hx)) 3); [lia|]. done.
Qed.

Lemma chunk_waits size d :
  uint 64 (size + 2) -> Z.of_nat (length d) < size + 2 ->
  take_frame_while_seeking_end_of_chunk (in_chunk size d) = Ret (in_chunk size d, None).
Proof.
  intros Hs Hd. unfold take_frame_while_seeking_end_of_chunk. cbn [in_chunk chunk_size data_so_far expect obind].
  rewrite wrap_small by done. by rewrite (proj2 (Z.ltb_lt _ _)).
Qed.

Lemma chunk_taken size c rest :
  uint 64 (size + 2) -> Z.of_nat (length (c ++ CRLF)) = size + 2 ->
  take_frame_while_seeking_end_of_chunk (in_chunk size ((c ++ CRLF) ++ rest)) =
  Ret (idle Chunks rest, Some (mkFramedChunk (c ++ CRLF) false)).
Proof.
  intros Hs Hd. unfold take_frame_while_seeking_end_of_chunk. cbn [in_chunk chunk_size data_so_far expect obind].
  rewrite wrap_small by done. rewrite (proj2 (Z.ltb_ge _ _)) by (rewrite (length_app (c ++ CRLF)); lia).
  replace (Z.to_nat (size + 2)) with (length (c ++ CRLF)) by lia. rewrite take_app_length, drop_app_length.
  rewrite bool_decide_true; [done|]. rewrite length_app. simpl length.
  replace (length c + 2 - 2)%nat with (length c) by lia. apply drop_app_length.
Qed.

(** A beginning of a chunk's length is kept as it is. *)
Lemma header_partial hx p q :
  line_ok hx -> eol hx = p ++ q -> q <> [] -> (length hx <= 8)%nat -> resumes Chunks p (idle Chunks p).
Proof.
  intros Hl E Hq Hlen. unfold resumes. split_and!; [|done|done].
  unfold http_take_frame. cbn [framer_state start_finder transfer_encoding_chunked idle].
  cbn [take_chunk_frame chunk_progress_state data_so_far].
  unfold FramerUtils.find_chunk_offset_length. cbn [FramerUtils.find_chunk_loop].
  rewrite slice_ok, drop_0, Nat.sub_0_r, take_ge by lia. cbn [obind].
  unfold FramerUtils.find_next_chunk_offset_length. change FramerUtils.CRLF with CRLF.
  rewrite (part_of_line hx p q) by done. cbn [obind].
  assert (length p <= 9)%nat.
  { apply (f_equal length) in E. unfold eol in E. rewrite !length_app in E. simpl in E.
    destruct q; [done|simpl in E; lia]. }
  unfold BYTES_TO_PRESERVE. by rewrite (proj2 (Nat.ltb_ge _ _)).
Qed.

Lemma chunk_size_fits hx digits (body : bytes) :
  hex_digits hx digits -> (length hx <= 8)%nat ->
  hex_value digits = Z.of_nat (length body) -> uint 64 (hex_value digits + 2 + Z.of_nat (length hx) + 2).
Proof.
  intros Hf Hl Hv. assert (Hds := low_first_bound (reverse digits) (proj2 (Forall_reverse _ _) (hex_range _ _ Hf))).
  rewrite low_first_reverse, length_reverse, <- (Forall2_length _ _ _ Hf) in Hds.
  assert (16 ^ Z.of_nat (length hx) <= 16 ^ 8) by (apply Z.pow_le_mono_r; lia).
  unfold uint. norm_pow. lia.
Qed.

Lemma take_chunk r rest :
  chunk_frame r ->
  http_take_frame (mkFramer (idle Chunks (r ++ rest)) finder) =
  Ret (mkFramer (idle Chunks rest) finder, Some (mkFramedChunk r false)).
Proof.
  intros [hx digits body Hf Hl Hv Hne]. pose proof (chunk_size_fits _ _ _ Hf (proj2 Hl) Hv).
  rewrite <- !app_assoc. rewrite (take_chunk_header hx digits) by (done || (destruct body; [done|simpl in *; lia])).
  replace (hx ++ CRLF ++ body ++ CRLF ++ rest) with (((hx ++ CRLF ++ body) ++ CRLF) ++ rest)
    by (by rewrite <- !app_assoc).
  rewrite chunk_taken; [by rewrite <- !app_assoc|done|].
  rewrite !length_app. simpl length. lia.
Qed.

Lemma chunk_partial r p q : chunk_frame r -> r = p ++ q -> q <> [] -> exists s, resumes Chunks p s.
Proof.
  intros [hx digits body Hf Hl Hv Hne] E Hq. pose proof (chunk_size_fits _ _ _ Hf (proj2 Hl) Hv) as Hfit.
  rewrite app_assoc in E. apply app_eq_inv in E as [(k & E1 & E2)|(k & E1 & E2)].
  - destruct (decide (k = [])) as [->|Hk];
      [|exists (idle Chunks p); apply (header_partial hx p k); [by eapply hex_line|done..|lia]].
    rewrite app_nil_r in E1. exists (in_chunk (hex_value digits + 2 + Z.of_nat (length hx)) p).
    assert (Hgo := fun t => take_chunk_header hx digits t Hf Hl ltac:(destruct body; [done|simpl in *; lia])).
    unfold resumes. subst p. split_and!; [|done|intros d].
    + specialize (Hgo []). rewrite app_nil_r in Hgo. rewrite Hgo, chunk_waits; [done|done|].
      rewrite length_app. simpl. lia.
    + change (set_data _ (in_chunk ?n ?b)) with (in_chunk n (b ++ d)). by rewrite <- app_assoc, Hgo.
  - exists (in_chunk (hex_value digits + 2 + Z.of_nat (length hx)) p).
    assert (Hgo := fun t => take_chunk_header hx digits t Hf Hl ltac:(destruct body; [done|simpl in *; lia])).
    unfold resumes. subst p. rewrite <- app_assoc. split_and!; [|done|intros d].
    + rewrite Hgo, chunk_waits; [done..|]. apply (f_equal length) in E2. rewrite !length_app in *.
      simpl in *. destruct q; [done|simpl in *; lia].
    + change (set_data _ (in_chunk ?n ?b)) with (in_chunk n (b ++ d)). by rewrite <- !app_assoc, Hgo.
Qed.

Lemma take_last_header t :
  http_take_frame (mkFramer (idle Chunks (48 :: CRLF ++ t)) finder) =
  of_state (Ret (take_frame_while_seeking_end_of_final_chunk (in_last_chunk (48 :: CRLF ++ t)))).
Proof.
  unfold http_take_frame. cbn [framer_state start_finder transfer_encoding_chunked idle].
  cbn [take_chunk_frame chunk_progress_state data_so_far].
  change (48 :: CRLF ++ t) with ([48] ++ CRLF ++ t). rewrite (find_chunk_here [48] [0]); [done|by repeat constructor|].
  simpl. lia.
Qed.

Lemma take_last r rest :
  last_chunk_frame r ->
  http_take_frame (mkFramer (idle Chunks (r ++ rest)) finder) =
  Ret (mkFramer (idle Packets rest) finder, Some (mkFramedChunk r false)).
Proof.
  intros [t Hi Ht]. change ((48 :: CRLF ++ t) ++ rest) with (48 :: CRLF ++ t ++ rest).
  rewrite take_last_header. unfold take_frame_while_seeking_end_of_final_chunk.
  cbn [in_last_chunk data_so_far].
  change (48 :: CRLF ++ t ++ rest) with ((48 :: CRLF ++ t) ++ rest).
  rewrite (index_of_app _ _ DOUBLE_CRLF _ ltac:(done) Hi).
  replace (length t - 1 + 4)%nat with (length (48 :: CRLF ++ t)) by (simpl; lia).
  by rewrite take_app_length, drop_app_length.
Qed.

Lemma last_partial r p q : last_chunk_frame r -> r = p ++ q -> q <> [] -> exists s, resumes Chunks p s.
Proof.
  intros [t Hi Ht] E Hq. change (48 :: CRLF ++ t) with (eol [48] ++ t) in E.
  assert (Hstay : forall t', p = eol [48] ++ t' -> exists s, resumes Chunks p s).
  { intros t' Ep. exists (in_last_chunk p). unfold resumes. subst p.
    change (eol [48] ++ t') with (48 :: CRLF ++ t') in *. split_and!; [|done|intros d].
    - rewrite take_last_header. unfold take_frame_while_seeking_end_of_final_chunk.
      cbn [in_last_chunk data_so_far]. change (48 :: CRLF ++ t) with (eol [48] ++ t) in Hi.
      rewrite E in Hi. rewrite (index_of_before _ _ DOUBLE_CRLF _ ltac:(done) Hi); [done|].
      apply (f_equal length) in E. rewrite !length_app in E. simpl in *. destruct q; [done|simpl in E; lia].
    - change ((48 :: CRLF ++ t') ++ d) with (48 :: CRLF ++ t' ++ d). by rewrite take_last_header. }
  apply app_eq_inv in E as [(k & E1 & E2)|(k & E1 & E2)]; [|by apply (Hstay k)].
  destruct (decide (k = [])) as [->|Hk].
  - apply (Hstay []). by rewrite app_nil_r in *.
  - exists (idle Chunks p). apply (header_partial [48] p k); [done..|simpl; lia].
Qed.

(** *** The instance *)
Lemma resumes_holds f ph p s :
  start_finder f = finder ->
  (forall d, http_take_frame (add_data f d) = http_take_frame (mkFramer (idle ph (p ++ d)) finder)) ->
  resumes ph p s ->
  exists f', http_take_frame f = Ret (f', None) /\ start_finder f' = finder /\
    (forall d, http_take_frame (add_data f' d) = http_take_frame (mkFramer (idle ph (p ++ d)) finder)) /\
    (length p <= buffered f')%nat.
Proof.
  intros Hf Hd (Hnone & Hlen & Hre). exists (mkFramer s finder). split_and!; [|done|done|done].
  specialize (Hd []). rewrite app_nil_r in Hd. rewrite <- Hnone, <- Hd. destruct f as [[]]. simpl.
  unfold set_data. simpl. by rewrite app_nil_r.
Qed.

#[global] Instance http_framing : Framing HttpPacketFramer (http_frame start) (fun _ => True).
Proof.
  refine {| holds f ph b := start_finder f = finder /\
              (forall d, http_take_frame (add_data f d) = http_take_frame (mkFramer (idle ph (b ++ d)) finder)) /\
              (length b <= buffered f)%nat |}.
  - intros f ph b d (Hf & Hd & Hlen). split_and!; [done| |].
    + intros d'. rewrite <- app_assoc, <- Hd. simpl. by rewrite app_assoc.
    + simpl in *. rewrite !length_app in *. lia.
  - by intros f ph b (_ & _ & Hlen).
  - intros f ph (Hf & Hd & _). apply (resumes_holds f ph [] (idle ph [])); [done..|]. unfold resumes.
    split_and!; [|simpl; lia|by destruct ph]. destruct ph; [|done].
    rewrite take_from_packet by done. unfold take_packet_frame.
    change (packet_progress_state (idle Packets [])) with SeekingPacketStart. cbv iota.
    by rewrite start_nothing.
  - intros ph r ph' Hr. destruct Hr as [r c [h t hs body n c' Hh]|r [hx]|r []].
    + destruct (start_plain h [] Hh) as [Hne _]. simpl. unfold eol at 1. by destruct h.
    + by destruct hx.
    + done.
  - intros f ph r ph' rest Hr (Hf & Hd & _). exists (mkFramer (idle ph' rest) finder), false.
    specialize (Hd []). rewrite app_nil_r in Hd. split; [|split_and!; [done|by destruct ph'|by destruct ph']].
    replace (add_data f []) with f in Hd
      by (destruct f as [[]]; simpl in *; unfold set_data; simpl; by rewrite app_nil_r).
    change (take_frame f) with (http_take_frame f). rewrite Hd.
    destruct Hr as [r c Hr|r Hr|r Hr]; [|by apply take_chunk|by apply take_last].
    rewrite take_from_packet, (take_packet r c) by done. done.
  - intros f ph ph' p q Hr Hp Hq _ (Hf & Hd & _).
    assert (exists s, resumes ph p s) as [s Hs]; [|by apply (resumes_holds f ph p s)].
    inversion Hr as [r c Hr'|r Hr'|r Hr']; subst.
    + by apply (packet_partial (p ++ q) c p q).
    + by apply (chunk_partial (p ++ q) p q).
    + by apply (last_partial (p ++ q) p q).
Defined.

Lemma http_new_holds : holds (http_framer_new finder) Packets [].
Proof. done. Qed.
End framing.

(** ** The two start finders *)
Lemma not_prefix (pre line : bytes) : matches_at line pre = false -> ~ pre `prefix_of` line.
Proof. rewrite <- matches_at_prefix. by intros ->. Qed.

Module RequestStart.
Import HttpRequestStartFinder.

Definition is_method (h : bytes) : Prop := h ∈ METHODS.

Lemma minimum_zero l : 0%nat ∈ l -> minimum l = Some 0%nat.
Proof.
  destruct l as [|n l]; simpl; [by intros ?%not_elem_of_nil|]. intros Hin. f_equal.
  assert (forall m, 0%nat ∈ l \/ m = 0%nat -> fold_right Nat.min m l = 0%nat) as Hz.
  { clear. induction l as [|x l IH]; intros m Hm; simpl.
    - by destruct Hm as [?%not_elem_of_nil|].
    - destruct (decide (x = 0%nat)) as [->|]; [lia|]. rewrite (IH m); [lia|].
      destruct Hm as [[?|]%elem_of_cons|]; [congruence|auto..]. }
  apply Hz. apply elem_of_cons in Hin as [->|]; auto.
Qed.

(** No method is within a proper beginning of another. *)
Lemma no_method_within :
  forallb (fun h => forallb (fun k => forallb (fun m =>
    bool_decide (index_of (take k h) m = None)) METHODS) (seq 0 (length h))) METHODS = true.
Proof. vm_compute. reflexivity. Qed.

#[global] Instance request_starts : StartFinding request_start_finder is_method.
Proof.
  split.
  - intros h t Hh. unfold is_method, METHODS in Hh. cbn [map] in Hh.
    elem_cases Hh; (split; [done|split; apply not_prefix; reflexivity]).
  - intros h rest Hh. simpl. unfold request_seek_packet_start.
    cbn [idle packet_progress_state data_so_far].
    assert (Hne : h <> []) by (unfold is_method, METHODS in Hh; cbn [map] in Hh; by elem_cases Hh).
    rewrite minimum_zero; [done|]. apply list_elem_of_omap. exists h. split; [done|].
    apply index_of_Some; [done|]. split; [by exists rest|]. intros; lia.
  - intros h p q Hh E Hq. simpl. unfold request_seek_packet_start.
    cbn [idle packet_progress_state data_so_far].
    pose proof no_method_within as Hall. rewrite forallb_forall in Hall.
    specialize (Hall h (proj1 (list_elem_of_In _ _) Hh)). rewrite forallb_forall in Hall.
    assert (Hlen : (length p < length h <= 7)%nat).
    { split; [subst h; rewrite length_app; destruct q; [done|simpl; lia]|].
      unfold is_method, METHODS in Hh. cbn [map] in Hh. elem_cases Hh; simpl; lia. }
    specialize (Hall (length p)). rewrite in_seq, forallb_forall in Hall.
    assert (omap (fun method => index_of p method) METHODS = []) as ->.
    { destruct (omap _ _) as [|i l] eqn:El; [done|].
      assert (i ∈ omap (fun method => index_of p method) METHODS) as Hi by (rewrite El; left).
      apply list_elem_of_omap in Hi as (m & Hm & Hi). apply list_elem_of_In in Hm.
      specialize (Hall ltac:(lia) m Hm). apply bool_decide_eq_true in Hall.
      subst h. rewrite take_app_length in Hall. congruence. }
    simpl. unfold LONGEST_METHOD_LEN. rewrite (proj2 (Nat.ltb_ge _ _)) by lia. done.
  - reflexivity.
Qed.
End RequestStart.

Module ResponseStart.
Import HttpResponseStartFinder.

Definition is_status (h : bytes) : Prop := is_status_line h = true.

Lemma status_shape h :
  is_status h -> exists m d1 d2 d3, h = codes "HTTP/1." ++ [m; 32; d1; d2; d3; 32].
Proof.
  unfold is_status, is_status_line. intros Hs. repeat case_match; try done.
  rewrite !andb_true_iff in Hs. destruct Hs as [[[[[[Hb _] Hsp%Z.eqb_eq] _] _] _] Hsp'%Z.eqb_eq].
  apply bool_decide_eq_true in Hb. subst. eexists _, _, _, _.
  rewrite <- Hb. reflexivity.
Qed.

Lemma too_short_for_status data acc fuel :
  (acc <= length data < acc + 13)%nat -> (length data - acc < fuel)%nat ->
  find_response_loop fuel data acc = Ret None.
Proof.
  revert acc. induction fuel as [|fuel IH]; intros acc Hacc Hf; [lia|]. cbn [find_response_loop].
  rewrite slice_ok by lia. rewrite take_ge by (rewrite length_drop; lia). cbn [obind].
  unfold find_next_response_offset. destruct (index_of (drop acc data) needle) as [i|] eqn:E; [|done].
  apply index_of_Some in E as [Hp _]; [|done]. apply prefix_drop_length in Hp; [|done].
  rewrite length_drop in *. simpl in Hp. unfold LONGEST_PREFIX_LEN.
  rewrite (proj2 (Nat.ltb_lt _ _)) by lia. cbn [obind].
  destruct (i + length needle)%nat eqn:En; [simpl in En; lia|]. rewrite <- En. apply IH; simpl length; lia.
Qed.

#[global] Instance response_starts : StartFinding response_start_finder is_status.
Proof.
  split.
  - intros h t (m & d1 & d2 & d3 & ->)%status_shape.
    split; [done|split; apply not_prefix; reflexivity].
  - intros h rest Hs. pose proof (status_shape h Hs) as (m & d1 & d2 & d3 & Eh). simpl.
    unfold response_seek_packet_start. cbn [idle packet_progress_state data_so_far].
    assert (find_response_offset (h ++ rest) = Ret (Some 0%nat)) as ->.
    { unfold find_response_offset. cbn [find_response_loop].
      rewrite slice_ok, drop_0, Nat.sub_0_r, take_ge by lia. cbn [obind]. unfold find_next_response_offset.
      assert (index_of (h ++ rest) needle = Some 0%nat) as -> by (subst h; reflexivity).
      assert (length h = 13%nat) as Hlen by by subst h.
      rewrite (proj2 (Nat.ltb_ge _ _)) by (rewrite length_app; unfold LONGEST_PREFIX_LEN; lia).
      rewrite slice_ok by (rewrite ?length_app; unfold LONGEST_PREFIX_LEN; lia). rewrite drop_0, Nat.sub_0_r.
      cbn [plus]. change LONGEST_PREFIX_LEN with 13%nat. rewrite <- Hlen, take_app_length. cbn [obind].
      by rewrite Hs. }
    done.
  - intros h p q Hs E Hq. pose proof (status_shape h Hs) as (m & d1 & d2 & d3 & Eh). simpl.
    unfold response_seek_packet_start. cbn [idle packet_progress_state data_so_far].
    assert (length p < 13)%nat.
    { apply (f_equal length) in Eh. rewrite E, length_app in Eh. simpl in Eh. destruct q; [done|simpl in Eh; lia]. }
    unfold find_response_offset. rewrite too_short_for_status by lia. cbn [obind].
    unfold LONGEST_PREFIX_LEN. by rewrite (proj2 (Nat.ltb_ge _ _)) by lia.
  - reflexivity.
Qed.
End ResponseStart.

Inductive http_kind := Requests | Responses.

Definition finder_of (k : http_kind) : HttpPacketStartFinder :=
  match k with
  | Requests => HttpRequestStartFinder.request_start_finder
  | Responses => HttpResponseStartFinder.response_start_finder
  end.

Definition start_of (k : http_kind) : bytes -> Prop :=
  match k with Requests => RequestStart.is_method | Responses => ResponseStart.is_status end.

#[global] Instance starts_of k : StartFinding (finder_of k) (start_of k).
Proof. destruct k; [apply RequestStart.request_starts | apply ResponseStart.response_starts]. Defined.

(** ** Lines that are not lengths *)
Definition no_length (l : bytes) : Prop :=
  line_ok l /\ forall l' b, l = l' ++ [b] -> FramerUtils.evaluate_hex_digit b = None.

Lemma next_after_stray l d :
  no_length l -> FramerUtils.find_next_chunk_offset_length (eol l ++ d) = Ret (Err (length (eol l))).
Proof.
  intros [Hl Hb]. unfold FramerUtils.find_next_chunk_offset_length. change FramerUtils.CRLF with CRLF.
  rewrite (index_line l d Hl). destruct l as [|b l _] using rev_ind; [done|].
  unfold eol. rewrite !length_app. replace (length l + length [b])%nat with (S (length l)) by (simpl; lia).
  unfold index. rewrite <- !app_assoc, lookup_app_r, Nat.sub_diag by lia. cbn [app lookup list_lookup expect obind].
  rewrite (Hb l b) by done. done.
Qed.

Lemma find_after_stray ls pre hx digits t fuel :
  Forall no_length ls -> hex_digits hx digits -> (0 < length hx <= 8)%nat -> (length ls < fuel)%nat ->
  FramerUtils.find_chunk_loop fuel (pre ++ concat (map eol ls) ++ hx ++ CRLF ++ t) (length pre) =
  Ret (Some (FramerUtils.mkChunkOffsetLength (length pre + length (concat (map eol ls)))
               (hex_value digits + 2 + Z.of_nat (length hx)))).
Proof.
  intros Hls Hx Hlen. revert pre fuel. induction Hls as [|l ls Hl Hls IH]; intros pre [|fuel] Hf;
    [simpl in Hf; lia| |simpl in Hf; lia|].
  - cbn [FramerUtils.find_chunk_loop map concat app]. rewrite slice_ok by (rewrite ?length_app; lia).
    rewrite drop_app_length, take_ge by (rewrite !length_app; lia). cbn [obind].
    rewrite (find_next_here hx digits) by done. cbn [obind FramerUtils.offset FramerUtils.length].
    do 3 f_equal. simpl. lia.
  - cbn [FramerUtils.find_chunk_loop map concat]. rewrite slice_ok by (rewrite ?length_app; lia).
    rewrite drop_app_length, take_ge by (rewrite !length_app; lia). cbn [obind]. rewrite <- app_assoc.
    rewrite next_after_stray by done. cbn [obind].
    destruct (length (eol l)) as [|n] eqn:En; [unfold eol in En; rewrite length_app in En; simpl in En; lia|].
    rewrite <- En. rewrite (app_assoc pre). rewrite <- length_app.
    rewrite (IH (pre ++ eol l)) by (simpl in Hf; lia). do 3 f_equal. rewrite !length_app. lia.
Qed.

(** ** Properties *)

(** C19: a stream of HTTP requests or of responses is cut into exactly its packets and chunks, in order,
    wherever the reads from the network fall. A packet is a first line with a method (or a status),
    any headers, and a body as long as its Content-Length says, or none; after a packet with a
    Transfer-Encoding that names "chunked" come chunks with their lengths, up to the last one of
    length zero with or without trailing headers. Everything comes out, and afterwards the framer
    does with whatever comes next what a new one would do. *)
Theorem http_stream_is_framed `{!RegexDigits} (kind : http_kind) (reads frames : list bytes) :
  framed (http_frame (start_of kind)) Packets frames Packets -> concat reads = concat frames ->
  exists f', feed (http_framer_new (finder_of kind)) reads = Ret (f', frames) /\
    forall d, take_frame (add_data f' d) = take_frame (add_data (http_framer_new (finder_of kind)) d).
Proof.
  intros Hfr Hcat.
  destruct (feed_ok (http_frame (start_of kind)) (fun _ => True) reads frames
    (http_framer_new (finder_of kind)) Packets Packets Hfr) as (f' & E & _ & Hd & _); [|done..|].
  - apply (http_new_holds (finder_of kind) (start_of kind)).
  - by exists f'.
Qed.

Definition no_other_digits : RegexDigits := {| other_digit _ := false; other_digit_ascii _ _ _ := eq_refl |}.

Definition toy_get : bytes := codes "GET /" ++ CRLF ++ codes "Host: a" ++ CRLF ++ CRLF.
Definition toy_post : bytes :=
  codes "POST /f" ++ CRLF ++ codes "Content-Length: 3" ++ CRLF ++ CRLF ++ codes "a=b".
Definition toy_upload : bytes := codes "PUT /u" ++ CRLF ++ codes "Transfer-Encoding: chunked" ++ CRLF ++ CRLF.
Definition toy_chunk : bytes := codes "5" ++ CRLF ++ codes "hello" ++ CRLF.
Definition toy_last : bytes := codes "0" ++ CRLF ++ CRLF.

Lemma toy_frames :
  framed (http_frame (start_of Requests)) Packets [toy_get; toy_post; toy_upload; toy_chunk; toy_last] Packets.
Proof.
  apply (framed_cons _ _ _ Packets); [apply (frame_packet _ _ false)|].
  { apply (packet_intro _ (codes "GET") (codes " /") [codes "Host: a"] [] 0); [left|done| |done].
    econstructor; [done| |constructor]. apply plain_header; [done|apply not_prefix; reflexivity..]. }
  apply (framed_cons _ _ _ Packets); [apply (frame_packet _ _ false)|].
  { apply (packet_intro _ (codes "POST") (codes " /f") [codes "Content-Length: 3"] (codes "a=b") 3);
      [do 2 right; left|done| |done].
    econstructor; [done| |constructor]. by apply (length_header _ 1 3 []). }
  apply (framed_cons _ _ _ Chunks); [apply (frame_packet _ _ true)|].
  { apply (packet_intro _ (codes "PUT") (codes " /u") [codes "Transfer-Encoding: chunked"] [] 0);
      [do 3 right; left|done| |done].
    econstructor; [done| |constructor]. apply (encoding_header _ 1 (codes "chunked"));
      [done|done|by apply (bool_decide_unpack _); vm_compute|by exists 0%nat|done]. }
  apply (framed_cons _ _ _ Chunks); [apply frame_chunk, (chunk_intro [53] [5] (codes "hello"))|].
  1: by repeat constructor. 1: simpl; lia. 1, 2: done.
  apply (framed_cons _ _ _ Packets); [apply frame_last, (last_chunk_intro CRLF)|constructor]; [done|simpl; lia].
Qed.

Lemma http_stream_is_framed_witness :
  exists f', @feed _ (@http_framer no_other_digits) (http_framer_new (finder_of Requests))
    [toy_get ++ take 20 toy_post; drop 20 toy_post ++ take 9 toy_upload; drop 9 toy_upload ++ take 4 toy_chunk;
     drop 4 toy_chunk ++ take 2 toy_last; drop 2 toy_last]
    = Ret (f', [toy_get; toy_post; toy_upload; toy_chunk; toy_last]).
Proof.
  destruct (@http_stream_is_framed no_other_digits Requests
    [toy_get ++ take 20 toy_post; drop 20 toy_post ++ take 9 toy_upload; drop 9 toy_upload ++ take 4 toy_chunk;
     drop 4 toy_chunk ++ take 2 toy_last; drop 2 toy_last] _ toy_frames eq_refl) as (f' & E & _).
  exists f'. exact E.
Defined.

(** but while chunks are expected, lines before the last chunk that do not end in a hexadecimal
    digit bring the framer down: the length is found behind them, the data are cut there, and then
    the digit is looked up at the old place. It panics whenever less than the stray lines' length
    comes behind the last chunk's length. *)
Theorem stray_lines_before_last_chunk_panic `{!RegexDigits} (finder : HttpPacketStartFinder)
    (stray : list bytes) (t : bytes) :
  Forall no_length stray -> (length t + 3 <= length (concat (map eol stray)))%nat ->
  take_frame (mkFramer (idle Chunks (concat (map eol stray) ++ [48] ++ CRLF ++ t)) finder) = Panic.
Proof.
  intros Hs Hlen. unfold take_frame, http_framer, http_take_frame.
  cbn [framer_state start_finder transfer_encoding_chunked idle].
  cbn [take_chunk_frame chunk_progress_state data_so_far]. unfold FramerUtils.find_chunk_offset_length.
  pose proof (find_after_stray stray [] [48] [0] t) as Hf. cbn [app length] in Hf.
  rewrite Hf; [| done | by repeat constructor | simpl; lia |].
  - cbn [obind FramerUtils.length FramerUtils.offset]. change (hex_value [0] + 2 + Z.of_nat 1 =? 3) with true.
    cbn [plus data_so_far set_data]. rewrite drop_app_length. unfold index. rewrite lookup_ge_None_2; [done|].
    simpl. lia.
  - assert (length stray <= length (concat (map eol stray)))%nat; [|rewrite !length_app; lia].
    clear. induction stray as [|l ls IH]; simpl; [lia|]. unfold eol at 1. rewrite !length_app. simpl. lia.
Qed.

Lemma stray_lines_before_last_chunk_panic_witness :
  @take_frame _ (@http_framer no_other_digits)
    (mkFramer (idle Chunks (codes "5;ext=xyz" ++ CRLF ++ codes "hello" ++ CRLF ++ codes "0" ++ CRLF ++ CRLF))
       (finder_of Requests)) = Panic.
Proof.
  apply (@stray_lines_before_last_chunk_panic no_other_digits (finder_of Requests)
    [codes "5;ext=xyz"; codes "hello"] CRLF); [|simpl; lia].
  repeat constructor; intros l' b E; apply (f_equal last) in E; rewrite last_snoc in E; by injection E as <-.
Defined.
