(* ===== verification/Dns.v ===== *)
(** * Dns: the entry DNS server's view of a packet, and its answers

    [node/src/entry_dns/packet_facade.rs] and [node/src/entry_dns/processing.rs]. A facade is a
    buffer together with the length of the packet in it; a setter returns the changed facade with
    its [bool]. A [usize] is a [nat]: the offsets stay far below [2^64]. *)
From S2P Require Import Prelude Utils.

(** ** Writing into slices *)
(** [buf[i] = v] *)
Definition set_at (buf : bytes) (i : nat) (v : Z) : outcome bytes :=
  if (i <? length buf)%nat then Ret (<[i := v]> buf) else Panic.

(** [for i in 0..data.len() { buf[start + i] = data[i] }] *)
Fixpoint put_bytes (buf : bytes) (start : nat) (data : bytes) : outcome bytes :=
  match data with
  | [] => Ret buf
  | b :: data' => let* buf' := set_at buf start b in put_bytes buf' (S start) data'
  end.

(** [str::split('.')] *)
Definition DOT : Z := 46.

Fixpoint split_dots (s : bytes) : list bytes :=
  match s with
  | [] => [[]]
  | b :: s' =>
      if b =? DOT then [] :: split_dots s' else
      match split_dots s' with
      | [] => [[b]]
      | p :: ps => (b :: p) :: ps
      end
  end.

(** ** PacketFacade *)
Record PacketFacade := mkFacade { buf : bytes; len : nat }.

Definition u16_from (b : bytes) (start buflen : nat) : outcome (option Z) :=
  if (buflen <? start + 2)%nat then Ret None else
  let* hi := index b start in
  let* lo := index b (start + 1) in
  Ret (Some (Z.shiftl hi 8 + lo)).

Definition u16_to (value : Z) (b : bytes) (start : nat) : outcome (bytes * bool) :=
  if (length b <? start + 2)%nat then Ret (b, false) else
  let* b1 := set_at b start (wrap 8 (Z.shiftr value 8)) in
  let* b2 := set_at b1 (start + 1) (Z.land value 255) in
  Ret (b2, true).

Definition u32_from (b : bytes) (start buflen : nat) : outcome (option Z) :=
  let* high := u16_from b start buflen in
  match high with
  | None => Ret None
  | Some high_word =>
      let* low := u16_from b (start + 2) buflen in
      match low with
      | None => Ret None
      | Some low_word => Ret (Some (Z.lor (Z.shiftl high_word 16) low_word))
      end
  end.

Definition u32_to (value : Z) (b : bytes) (start : nat) : outcome (bytes * bool) :=
  let* (b1, _) := u16_to (wrap 16 (Z.shiftr value 16)) b start in
  let* (b2, _) := u16_to (Z.land value 65535) b1 (start + 2) in
  Ret (b2, true).

(** The loop of [find_string_seq_end]; [local_offset] grows with every turn, so that a fuel of
    [buflen - offset + 2] suffices. *)
Fixpoint find_string_seq_end_loop (fuel : nat) (b : bytes) (local_offset buflen : nat)
    : outcome (option nat) :=
  match fuel with
  | O => OutOfFuel
  | S fuel' =>
      if (buflen <? local_offset)%nat then Ret None else
      let* l := index b local_offset in
      if l =? 0 then Ret (Some (local_offset + 1)%nat)
      else find_string_seq_end_loop fuel' b (local_offset + (Z.to_nat l + 1)) buflen
  end.

Definition find_string_seq_end (b : bytes) (offset buflen : nat) : outcome (option nat) :=
  find_string_seq_end_loop (buflen - offset + 2) b offset buflen.

Fixpoint extract_string_seq_loop (fuel : nat) (b : bytes) (local_offset buflen : nat) (result : bytes)
    : outcome (option (bytes * nat)) :=
  match fuel with
  | O => OutOfFuel
  | S fuel' =>
      if (buflen <=? local_offset)%nat then Ret None else
      let* l := index b local_offset in
      if l =? 0 then Ret (Some (result, (local_offset + 1)%nat)) else
      let result1 := match result with [] => result | _ => result ++ [DOT] end in
      let end_ := (local_offset + 1 + Z.to_nat l)%nat in
      if (buflen <? end_)%nat then Ret None else
      let* s := slice b (local_offset + 1) end_ in
      if utf8_ok s then extract_string_seq_loop fuel' b end_ buflen (result1 ++ s) else Ret None
  end.

Definition extract_string_seq (b : bytes) (offset buflen : nat) : outcome (option (bytes * nat)) :=
  extract_string_seq_loop (buflen - offset + 1) b offset buflen [].

Fixpoint add_parts (b : bytes) (local_offset : nat) (parts : list bytes) : outcome (bytes * option nat) :=
  match parts with
  | [] => Ret (b, Some local_offset)
  | part :: parts' =>
      if (length b <? local_offset + length part + 1)%nat then Ret (b, None) else
      let* b1 := set_at b local_offset (wrap 8 (Z.of_nat (length part))) in
      let* b2 := put_bytes b1 (local_offset + 1) part in
      add_parts b2 (local_offset + (1 + length part)) parts'
  end.

Definition add_string_seq (b : bytes) (offset : nat) (string : bytes) : outcome (bytes * option nat) :=
  let* (b1, o) := match string with
                  | [] => Ret (b, Some offset)
                  | _ => add_parts b offset (split_dots string)
                  end in
  match o with
  | None => Ret (b1, None)
  | Some local_offset =>
      if (length b1 <=? local_offset)%nat then Ret (b1, None) else
      let* b2 := set_at b1 local_offset 0 in
      Ret (b2, Some (local_offset + 1)%nat)
  end.

(** *** Queries and resource records *)
Record Query := mkQuery { q_name : bytes; qtype : Z; qclass : Z; q_length : nat }.

Definition query_new (b : bytes) (offset length : nat) : outcome (option Query) :=
  let* name_opt := extract_string_seq b offset length in
  match name_opt with
  | None => Ret None
  | Some (name, name_end) =>
      let* t := u16_from b name_end length in
      match t with
      | None => Ret None
      | Some t =>
          let* c := u16_from b (name_end + 2) length in
          match c with
          | None => Ret None
          | Some c => Ret (Some (mkQuery name t c (name_end + 4 - offset)))
          end
      end
  end.

Definition query_find_end (b : bytes) (offset length : nat) : outcome (option nat) :=
  let* e := find_string_seq_end b offset length in
  match e with
  | None => Ret None
  | Some e => Ret (if (length <? e + 4)%nat then None else Some (e + 4)%nat)
  end.

Record ResourceRecord := mkRecord {
  r_name : bytes;
  rtype : Z;
  rclass : Z;
  time_to_live : Z;
  rdata : bytes;
  r_length : nat;
}.

Definition record_fields (b : bytes) (name_end buflen : nat) : outcome (option (Z * Z * Z * nat)) :=
  let* t := u16_from b name_end buflen in
  match t with
  | None => Ret None
  | Some t =>
      let* c := u16_from b (name_end + 2) buflen in
      match c with
      | None => Ret None
      | Some c =>
          let* ttl := u32_from b (name_end + 4) buflen in
          match ttl with
          | None => Ret None
          | Some ttl =>
              let* l := u16_from b (name_end + 8) buflen in
              Ret ((fun l => (t, c, ttl, Z.to_nat l)) <$> l)
          end
      end
  end.

Definition resource_record_new (b : bytes) (offset buflen : nat) : outcome (option ResourceRecord) :=
  let* name_opt := extract_string_seq b offset buflen in
  match name_opt with
  | None => Ret None
  | Some (name, name_end) =>
      let* fields := record_fields b name_end buflen in
      match fields with
      | None => Ret None
      | Some (t, c, ttl, rdata_length) =>
          let rdata_begin := (name_end + 10)%nat in
          let rdata_end := (rdata_begin + rdata_length)%nat in
          let l := (rdata_end - offset)%nat in
          if (buflen <? offset + l)%nat then Ret None else
          let* data := slice b rdata_begin rdata_end in
          Ret (Some (mkRecord name t c ttl data l))
      end
  end.

Definition resource_record_find_end (b : bytes) (offset length : nat) : outcome (option nat) :=
  let* e := find_string_seq_end b offset length in
  match e with
  | None => Ret None
  | Some name_end =>
      let* l := u16_from b (name_end + 8) length in
      match l with
      | None => Ret None
      | Some l =>
          let record_end := (name_end + 10 + Z.to_nat l)%nat in
          Ret (if (length <? record_end)%nat then None else Some record_end)
      end
  end.

(** [for _i in 0..count] around a step that can give up *)
Fixpoint repeat_end (count : nat) (next : nat -> outcome (option nat)) (offset : nat)
    : outcome (option nat) :=
  match count with
  | O => Ret (Some offset)
  | S count' =>
      let* o := next offset in
      match o with
      | None => Ret None
      | Some offset' => repeat_end count' next offset'
      end
  end.

Fixpoint repeat_read {A} (count : nat) (read : nat -> outcome (option A)) (size : A -> nat)
    (offset : nat) : outcome (option (list A)) :=
  match count with
  | O => Ret (Some [])
  | S count' =>
      let* o := read offset in
      match o with
      | None => Ret None
      | Some a =>
          let* rest := repeat_read count' read size (offset + size a) in
          Ret ((fun l => a :: l) <$> rest)
      end
  end.

Definition count_at (f : PacketFacade) (start : nat) : outcome (option nat) :=
  let* c := u16_from (buf f) start (len f) in Ret (Z.to_nat <$> c).

Definition find_queries_end (f : PacketFacade) : outcome (option nat) :=
  let* c := count_at f 4 in
  match c with
  | None => Ret None
  | Some count => repeat_end count (fun o => query_find_end (buf f) o (len f)) 12
  end.

(** [find_answers_end], [find_authorities_end] and [find_additionals_end] differ in the position of
    the count and in where the section begins. *)
Definition find_section_end (f : PacketFacade) (count_pos : nat) (begin : PacketFacade -> outcome (option nat))
    : outcome (option nat) :=
  let* c := count_at f count_pos in
  match c with
  | None => Ret None
  | Some count =>
      let* o := begin f in
      match o with
      | None => Ret None
      | Some offset => repeat_end count (fun o => resource_record_find_end (buf f) o (len f)) offset
      end
  end.

Definition find_answers_end (f : PacketFacade) : outcome (option nat) :=
  find_section_end f 6 find_queries_end.
Definition find_authorities_end (f : PacketFacade) : outcome (option nat) :=
  find_section_end f 8 find_answers_end.
Definition find_additionals_end (f : PacketFacade) : outcome (option nat) :=
  find_section_end f 10 find_authorities_end.

Definition get_queries (f : PacketFacade) : outcome (option (list Query)) :=
  let* c := count_at f 4 in
  match c with
  | None => Ret None
  | Some count => repeat_read count (fun o => query_new (buf f) o (len f)) q_length 12
  end.

Definition get_section (f : PacketFacade) (count_pos : nat) (begin : PacketFacade -> outcome (option nat))
    : outcome (option (list ResourceRecord)) :=
  let* o := begin f in
  match o with
  | None => Ret None
  | Some offset =>
      let* c := count_at f count_pos in
      match c with
      | None => Ret None
      | Some count =>
          repeat_read count (fun o => resource_record_new (buf f) o (len f)) r_length offset
      end
  end.

Definition get_answers (f : PacketFacade) : outcome (option (list ResourceRecord)) :=
  get_section f 6 find_queries_end.
Definition get_authorities (f : PacketFacade) : outcome (option (list ResourceRecord)) :=
  get_section f 8 find_answers_end.
Definition get_additionals (f : PacketFacade) : outcome (option (list ResourceRecord)) :=
  get_section f 10 find_authorities_end.

Definition establish_high_water (f : PacketFacade) (candidate : nat) : PacketFacade :=
  mkFacade (buf f) (Nat.max (len f) candidate).

(** [let count = try_flg!(u16_from(buf, pos, length)) + 1; u16_to(count, buf, pos); true] *)
Definition bump_count (f : PacketFacade) (pos : nat) : outcome (PacketFacade * bool) :=
  let* c := u16_from (buf f) pos (len f) in
  match c with
  | None => Ret (f, false)
  | Some c =>
      let* (b, _) := u16_to (wrap 16 (c + 1)) (buf f) pos in
      Ret (mkFacade b (len f), true)
  end.

Definition add_query (f : PacketFacade) (name : bytes) (query_type query_class : Z)
    : outcome (PacketFacade * bool) :=
  let* e := find_queries_end f in
  match e with
  | None => Ret (f, false)
  | Some e =>
      let* (b1, o) := add_string_seq (buf f) e name in
      match o with
      | None => Ret (mkFacade b1 (len f), false)
      | Some offset =>
          let* (b2, ok2) := u16_to query_type b1 offset in
          if negb ok2 then Ret (mkFacade b2 (len f), false) else
          let* (b3, ok3) := u16_to query_class b2 (offset + 2) in
          if negb ok3 then Ret (mkFacade b3 (len f), false) else
          bump_count (establish_high_water (mkFacade b3 (len f)) (offset + 4)) 4
      end
  end.

Definition write_resource_record (f : PacketFacade) (start : nat) (name : bytes) (t c ttl : Z)
    (data : bytes) : outcome (PacketFacade * option nat) :=
  let* (b1, o) := add_string_seq (buf f) start name in
  match o with
  | None => Ret (mkFacade b1 (len f), None)
  | Some string_end =>
      let* (b2, ok2) := u16_to t b1 string_end in
      if negb ok2 then Ret (mkFacade b2 (len f), None) else
      let* (b3, ok3) := u16_to c b2 (string_end + 2) in
      if negb ok3 then Ret (mkFacade b3 (len f), None) else
      let* (b4, ok4) := u32_to ttl b3 (string_end + 4) in
      if negb ok4 then Ret (mkFacade b4 (len f), None) else
      let* (b5, ok5) := u16_to (wrap 16 (Z.of_nat (length data))) b4 (string_end + 8) in
      if negb ok5 then Ret (mkFacade b5 (len f), None) else
      let rdata_begin := (string_end + 10)%nat in
      let rdata_end := (rdata_begin + length data)%nat in
      if (length b5 <? rdata_end)%nat then Ret (mkFacade b5 (len f), None) else
      let* b6 := put_bytes b5 rdata_begin data in
      Ret (establish_high_water (mkFacade b6 (len f)) rdata_end, Some (rdata_end - start)%nat)
  end.

(** [add_answer], [add_authority] and [add_additional] differ in the section's end and count. *)
Definition add_record (f : PacketFacade) (count_pos : nat) (end_ : PacketFacade -> outcome (option nat))
    (name : bytes) (t c ttl : Z) (data : bytes) : outcome (PacketFacade * bool) :=
  let* e := end_ f in
  match e with
  | None => Ret (f, false)
  | Some begin =>
      let* (f1, o) := write_resource_record f begin name t c ttl data in
      match o with
      | None => Ret (f1, false)
      | Some _ => bump_count f1 count_pos
      end
  end.

Definition add_answer (f : PacketFacade) := add_record f 6 find_answers_end.
Definition add_authority (f : PacketFacade) := add_record f 8 find_authorities_end.
Definition add_additional (f : PacketFacade) := add_record f 10 find_additionals_end.

Definition clear (f : PacketFacade) : outcome PacketFacade :=
  let* (b1, _) := u16_to 0 (buf f) 4 in
  let* (b2, _) := u16_to 0 b1 6 in
  let* (b3, _) := u16_to 0 b2 8 in
  let* (b4, _) := u16_to 0 b3 10 in
  Ret (mkFacade b4 12).

(** *** Header fields *)
Definition req_len_opt {T} (f : PacketFacade) (n : nat) (closure : outcome T) : outcome (option T) :=
  if (len f <? n)%nat || (length (buf f) <? n)%nat then Ret None else
  let* t := closure in Ret (Some t).

(** A setter of a field in the byte at [pos], given how the byte changes. *)
Definition set_byte (f : PacketFacade) (pos : nat) (change : Z -> Z) : outcome (PacketFacade * bool) :=
  if (length (buf f) <? pos + 1)%nat then Ret (f, false) else
  let* b := index (buf f) pos in
  let* buf' := set_at (buf f) pos (change b) in
  Ret (mkFacade buf' (len f), true).

Definition bit (v : bool) (mask : Z) : Z := if v then mask else 0.

Definition get_transaction_id (f : PacketFacade) : outcome (option Z) := u16_from (buf f) 0 (len f).

Definition set_transaction_id (f : PacketFacade) (v : Z) : outcome (PacketFacade * bool) :=
  let* (b, ok) := u16_to v (buf f) 0 in Ret (mkFacade b (len f), ok).

Definition is_query (f : PacketFacade) : outcome (option bool) :=
  req_len_opt f 3 (let* b := index (buf f) 2 in Ret (Z.land b 128 =? 0)).
Definition set_query (f : PacketFacade) (v : bool) :=
  set_byte f 2 (fun b => Z.lor (Z.land b 127) (bit (negb v) 128)).

Definition get_opcode (f : PacketFacade) : outcome (option Z) :=
  req_len_opt f 3 (let* b := index (buf f) 2 in Ret (Z.shiftr (Z.land b 120) 3)).
Definition set_opcode (f : PacketFacade) (v : Z) :=
  set_byte f 2 (fun b => Z.lor (Z.land b 135) (wrap 8 (Z.shiftl v 3))).

Definition is_authoritative_answer (f : PacketFacade) : outcome (option bool) :=
  req_len_opt f 3 (let* b := index (buf f) 2 in Ret (0 <? Z.land b 4)).
Definition set_authoritative_answer (f : PacketFacade) (v : bool) :=
  set_byte f 2 (fun b => Z.lor (Z.land b 251) (bit v 4)).

Definition is_truncated (f : PacketFacade) : outcome (option bool) :=
  req_len_opt f 3 (let* b := index (buf f) 2 in Ret (0 <? Z.land b 2)).
Definition set_truncated (f : PacketFacade) (v : bool) :=
  set_byte f 2 (fun b => Z.lor (Z.land b 253) (bit v 2)).

Definition is_recursion_desired (f : PacketFacade) : outcome (option bool) :=
  req_len_opt f 3 (let* b := index (buf f) 2 in Ret (0 <? Z.land b 1)).
Definition set_recursion_desired (f : PacketFacade) (v : bool) :=
  set_byte f 2 (fun b => Z.lor (Z.land b 254) (bit v 1)).

Definition is_recursion_available (f : PacketFacade) : outcome (option bool) :=
  req_len_opt f 4 (let* b := index (buf f) 3 in Ret (0 <? Z.land b 128)).
Definition set_recursion_available (f : PacketFacade) (v : bool) :=
  set_byte f 3 (fun b => Z.lor (Z.land b 127) (bit v 128)).

Definition get_z (f : PacketFacade) : outcome (option bool) :=
  req_len_opt f 4 (let* b := index (buf f) 3 in Ret (0 <? Z.land b 64)).
Definition set_z (f : PacketFacade) (v : bool) :=
  set_byte f 3 (fun b => Z.lor (Z.land b 191) (bit v 64)).

Definition is_authenticated_data (f : PacketFacade) : outcome (option bool) :=
  req_len_opt f 4 (let* b := index (buf f) 3 in Ret (0 <? Z.land b 32)).
Definition set_authenticated_data (f : PacketFacade) (v : bool) :=
  set_byte f 3 (fun b => Z.lor (Z.land b 223) (bit v 32)).

Definition is_checking_disabled (f : PacketFacade) : outcome (option bool) :=
  req_len_opt f 4 (let* b := index (buf f) 3 in Ret (0 <? Z.land b 16)).
Definition set_checking_disabled (f : PacketFacade) (v : bool) :=
  set_byte f 3 (fun b => Z.lor (Z.land b 239) (bit v 16)).

Definition get_rcode (f : PacketFacade) : outcome (option Z) :=
  req_len_opt f 4 (let* b := index (buf f) 3 in Ret (Z.land b 15)).
Definition set_rcode (f : PacketFacade) (v : Z) :=
  set_byte f 3 (fun b => Z.lor (Z.land b 240) (Z.land v 15)).

(** ** Processing

    The codes come from the trust_dns package. *)
Inductive RecordType := RA | RAAAA | ROther.

Class TrustDns := {
  opcode_query : Z;
  class_in : Z;
  record_type_from : Z -> RecordType;
  form_err_low : Z;
  not_imp_low : Z;
}.

(** The values RFC 1035 and RFC 3596 assign. *)
Definition rfc_codes : TrustDns := {|
  opcode_query := 0;
  class_in := 1;
  record_type_from t := if t =? 1 then RA else if t =? 28 then RAAAA else ROther;
  form_err_low := 1;
  not_imp_low := 4;
|}.

Definition HEADER_BYTES : nat := 12.
Definition V4_LOCALHOST : bytes := [127; 0; 0; 1].
Definition V6_LOCALHOST : bytes := [0; 0; 0; 0; 0; 0; 0; 0; 0; 0; 0; 0; 0; 0; 0; 1].

(** The [&&] of setters: those after the first that fails are not called. *)
Fixpoint set_all (f : PacketFacade) (setters : list (PacketFacade -> outcome (PacketFacade * bool)))
    : outcome (PacketFacade * bool) :=
  match setters with
  | [] => Ret (f, true)
  | s :: ss => let* (f', ok) := s f in if ok : bool then set_all f' ss else Ret (f', false)
  end.

(** A sequence of setters whose results are ignored. *)
Definition set_each (f : PacketFacade) (setters : list (PacketFacade -> outcome (PacketFacade * bool)))
    : outcome PacketFacade :=
  ofold (fun f s => let* (f', _) := s f in Ret f') f setters.

Definition response_flags : list (PacketFacade -> outcome (PacketFacade * bool)) :=
  [ (fun f => set_query f false);
    (fun f => set_authoritative_answer f false);
    (fun f => set_truncated f false);
    (fun f => set_recursion_available f true);
    (fun f => set_authenticated_data f false);
    (fun f => set_checking_disabled f false) ].

Definition make_error (f : PacketFacade) (response_code : Z) : outcome (PacketFacade * nat) :=
  let* f1 := set_each f (response_flags ++ [fun f => set_rcode f response_code]) in
  let* f2 := clear f1 in
  Ret (f2, HEADER_BYTES).

Section processing.
Context `{!TrustDns}.

Definition make_format_error (f : PacketFacade) := make_error f form_err_low.
Definition make_not_implemented_error (f : PacketFacade) := make_error f not_imp_low.

(** The loop over the queries, with its early returns. The results of [add_answer] are ignored. *)
Fixpoint answer_queries (f : PacketFacade) (queries : list Query) : outcome (PacketFacade * nat) :=
  match queries with
  | [] => Ret (f, len f)
  | q :: qs =>
      if negb (qclass q =? class_in) then make_not_implemented_error f else
      match record_type_from (qtype q) with
      | RA =>
          let* (f', _) := add_answer f (q_name q) (qtype q) class_in 3600 V4_LOCALHOST in
          answer_queries f' qs
      | RAAAA =>
          let* (f', _) := add_answer f (q_name q) (qtype q) class_in 3600 V6_LOCALHOST in
          answer_queries f' qs
      | ROther => make_not_implemented_error f
      end
  end.

Definition make_response (f : PacketFacade) : outcome (PacketFacade * nat) :=
  let* opcode := get_opcode f in
  match opcode with
  | None => make_format_error f
  | Some opcode =>
      if negb (opcode =? opcode_query) then make_not_implemented_error f else
      let* (f1, ok) := set_all f response_flags in
      if negb ok then make_format_error f1 else
      let* queries := get_queries f1 in
      match queries with
      | None => make_format_error f1
      | Some queries => answer_queries f1 queries
      end
  end.

(** The records made for the log are read from the packet whether or not they are written. *)
Definition process (b : bytes) (length : nat) : outcome (bytes * nat) :=
  let f := mkFacade b length in
  let* _ := get_opcode f in
  let* _ := get_queries f in
  let* (f1, response_size) := make_response f in
  let* _ := get_rcode f1 in
  let* _ := get_answers f1 in
  Ret (buf f1, response_size).
End processing.

(** ** Nothing panics, and every loop ends *)

(** A write of [data] at [start]: nothing else changes. *)
Record writes (b : bytes) (start : nat) (data b' : bytes) : Prop := {
  writes_length : length b' = length b;
  writes_here : forall i x, data !! i = Some x -> b' !! (start + i)%nat = Some x;
  writes_elsewhere : forall i, (i < start \/ start + length data <= i)%nat -> b' !! i = b !! i;
}.

Lemma writes_nil b start : writes b start [] b.
Proof. split; [done|by intros i x; rewrite lookup_nil|done]. Qed.

Lemma writes_app b start d1 d2 b1 b2 :
  writes b start d1 b1 -> writes b1 (start + length d1) d2 b2 -> writes b start (d1 ++ d2) b2.
Proof.
  intros [L1 H1 E1] [L2 H2 E2]. split.
  - congruence.
  - intros i x [Hi|[Hge Hi]]%lookup_app_Some.
    + rewrite E2; [by apply H1|]. apply lookup_lt_Some in Hi. lia.
    + apply H2 in Hi. rewrite <- Hi. f_equal. lia.
  - intros i. rewrite length_app. intros Hi. rewrite E2, E1; [done|lia..].
Qed.

Lemma set_at_ok b i v : (i < length b)%nat -> set_at b i v = Ret (<[i := v]> b) /\ writes b i [v] (<[i := v]> b).
Proof.
  intros Hi. unfold set_at. rewrite (proj2 (Nat.ltb_lt _ _)) by done. split; [done|]. split.
  - apply length_insert.
  - intros [|j] x; simpl; [|by rewrite lookup_nil]. intros [= <-]. rewrite Nat.add_0_r.
    by apply list_lookup_insert_eq.
  - simpl. intros j Hj. apply list_lookup_insert_ne. lia.
Qed.

Lemma put_bytes_ok b start data :
  (start + length data <= length b)%nat -> exists b', put_bytes b start data = Ret b' /\ writes b start data b'.
Proof.
  revert b start. induction data as [|x data IH]; intros b start; simpl.
  - intros _. exists b. split; [done|apply writes_nil].
  - intros Hlen. destruct (set_at_ok b start x) as [-> Hw]; [lia|]. simpl.
    destruct (IH (<[start := x]> b) (S start)) as (b' & -> & Hw'); [rewrite length_insert; lia|].
    exists b'. split; [done|]. apply (writes_app b start [x] data (<[start := x]> b)); [done|]. simpl.
    by rewrite Nat.add_1_r.
Qed.

Lemma u16_from_total b start L : (L <= length b)%nat -> exists o, u16_from b start L = Ret o.
Proof.
  intros HL. unfold u16_from. destruct (Nat.ltb_spec L (start + 2)); [by eexists|].
  destruct (index_ret b start) as (x & -> & _); [lia|]. simpl.
  destruct (index_ret b (start + 1)) as (y & -> & _); [lia|]. by eexists.
Qed.

Lemma u16_from_bound b start L v : u16_from b start L = Ret (Some v) -> (start + 2 <= L)%nat.
Proof. unfold u16_from. destruct (Nat.ltb_spec L (start + 2)); [done|lia]. Qed.

Lemma u32_from_total b start L : (L <= length b)%nat -> exists o, u32_from b start L = Ret o.
Proof.
  intros HL. unfold u32_from. destruct (u16_from_total b start L HL) as [[hi|] ->]; simpl; [|by eexists].
  destruct (u16_from_total b (start + 2) L HL) as [[lo|] ->]; simpl; by eexists.
Qed.

(** The two bytes of a 16-bit number on the wire *)
Definition be16 (v : Z) : bytes := [wrap 8 (Z.shiftr v 8); Z.land v 255].

Lemma u16_to_spec v b start :
  exists b' ok, u16_to v b start = Ret (b', ok) /\ length b' = length b /\
    (forall i, (i < start)%nat -> b' !! i = b !! i) /\
    (ok = true <-> (start + 2 <= length b)%nat) /\
    (ok = true -> writes b start (be16 v) b').
Proof.
  unfold u16_to. destruct (Nat.ltb_spec (length b) (start + 2)) as [Hlt|Hge].
  { exists b, false. split_and!; [done..|split; [done|lia]|done]. }
  destruct (set_at_ok b start (wrap 8 (Z.shiftr v 8))) as [-> W1]; [lia|]. simpl.
  destruct (set_at_ok (<[start := wrap 8 (Z.shiftr v 8)]> b) (start + 1) (Z.land v 255)) as [-> W2];
    [rewrite length_insert; lia|]. simpl. eexists _, true.
  pose proof (writes_app _ _ [_] [_] _ _ W1 W2) as W. split_and!; [done|apply W| |done|done].
  intros i Hi. apply W. lia.
Qed.

Lemma u32_to_spec v b start :
  exists b', u32_to v b start = Ret (b', true) /\ length b' = length b /\
    (forall i, (i < start)%nat -> b' !! i = b !! i) /\
    ((start + 4 <= length b)%nat ->
     writes b start (be16 (wrap 16 (Z.shiftr v 16)) ++ be16 (Z.land v 65535)) b').
Proof.
  unfold u32_to.
  destruct (u16_to_spec (wrap 16 (Z.shiftr v 16)) b start) as (b1 & k1 & -> & L1 & P1 & K1 & W1). simpl.
  destruct (u16_to_spec (Z.land v 65535) b1 (start + 2)) as (b2 & k2 & -> & L2 & P2 & K2 & W2). simpl.
  exists b2. split_and!; [done|congruence| |].
  - intros i Hi. rewrite P2, P1 by lia. done.
  - intros Hlen. apply (writes_app b start (be16 _) (be16 _) b1); [apply W1, K1; lia|apply W2, K2; lia].
Qed.

Lemma find_end_loop_total fuel b o L :
  (L < length b)%nat -> (S L - o + 1 <= fuel)%nat ->
  exists r, find_string_seq_end_loop fuel b o L = Ret r /\
    forall e, r = Some e -> (o < e <= L + 1)%nat.
Proof.
  intros HL. revert o. induction fuel as [|fuel IH]; intros o Hf; [lia|]. simpl.
  destruct (Nat.ltb_spec L o); [by exists None|].
  destruct (index_ret b o) as (l & -> & _); [lia|]. simpl. destruct (l =? 0).
  - eexists. split; [done|]. intros e [= <-]. lia.
  - destruct (IH (o + (Z.to_nat l + 1))%nat) as (r & -> & Hr); [lia|]. exists r. split; [done|].
    intros e He. specialize (Hr e He). lia.
Qed.

Lemma find_end_total b o L :
  (L < length b)%nat ->
  exists r, find_string_seq_end b o L = Ret r /\ forall e, r = Some e -> (o < e <= L + 1)%nat.
Proof. intros HL. apply find_end_loop_total; [done|lia]. Qed.

Lemma extract_loop_total fuel b o L acc :
  (L <= length b)%nat -> (L - o + 1 <= fuel)%nat ->
  exists r, extract_string_seq_loop fuel b o L acc = Ret r /\
    forall s e, r = Some (s, e) ->
      (o < e <= L)%nat /\ (length s <= length acc + (e - o - 1))%nat /\
      (acc = [] -> length s + 1 <= e - o)%nat.
Proof.
  intros HL. revert o acc. induction fuel as [|fuel IH]; intros o acc Hf; [lia|]. simpl.
  destruct (Nat.leb_spec L o); [by exists None|].
  destruct (index_ret b o) as (l & -> & _); [lia|]. simpl. destruct (l =? 0).
  { eexists. split; [done|]. intros s e [= <- <-]. split_and!; [lia..|intros ->; simpl; lia]. }
  destruct (Nat.ltb_spec L (o + 1 + Z.to_nat l)); [by exists None|].
  rewrite slice_ok by lia. simpl. destruct (utf8_ok _); [|by exists None].
  match goal with |- context [extract_string_seq_loop fuel b ?o' L ?acc'] =>
    destruct (IH o' acc') as (r & -> & Hr); [lia|] end.
  exists r. split; [done|]. intros s e He. destruct (Hr s e He) as (Hoe & Hlen & _).
  rewrite length_app, length_take, length_drop in Hlen.
  split_and!; [lia|lia|destruct acc; rewrite ?length_app in Hlen; simpl in *; lia|].
  intros ->. simpl in *. lia.
Qed.

Lemma extract_total b o L :
  (L <= length b)%nat ->
  exists r, extract_string_seq b o L = Ret r /\
    forall s e, r = Some (s, e) -> (o < e <= L)%nat /\ (length s + 1 <= e - o)%nat.
Proof.
  intros HL. destruct (extract_loop_total (L - o + 1) b o L [] HL) as (r & Hr & Hb); [lia|].
  exists r. split; [done|]. intros s e He. destruct (Hb s e He) as (? & _ & ?). eauto.
Qed.

Lemma query_new_total b o L :
  (L <= length b)%nat ->
  exists r, query_new b o L = Ret r /\
    forall q, r = Some q -> (o + q_length q <= L)%nat /\ (length (q_name q) + 5 <= q_length q)%nat.
Proof.
  intros HL. unfold query_new. destruct (extract_total b o L HL) as ([[s e]|] & -> & Hb); simpl; [|by exists None].
  destruct (Hb s e eq_refl) as [Hoe Hs].
  destruct (u16_from_total b e L HL) as [[t|] Ht]; rewrite Ht; simpl; [|by exists None].
  destruct (u16_from_total b (e + 2) L HL) as [[c|] Hc]; rewrite Hc; simpl; [|by exists None].
  eexists. split; [done|]. intros q [= <-]. apply u16_from_bound in Hc. simpl. lia.
Qed.

Lemma query_find_end_total b o L :
  (L < length b)%nat ->
  exists r, query_find_end b o L = Ret r /\ forall e, r = Some e -> (o < e <= L)%nat.
Proof.
  intros HL. unfold query_find_end. destruct (find_end_total b o L HL) as ([e|] & -> & He); simpl; [|by exists None].
  specialize (He e eq_refl). destruct (Nat.ltb_spec L (e + 4)); eexists; (split; [done|]); [done|].
  intros e' [= <-]. lia.
Qed.

Lemma record_new_total b o L : (L <= length b)%nat -> exists r, resource_record_new b o L = Ret r.
Proof.
  intros HL. unfold resource_record_new, record_fields.
  destruct (extract_total b o L HL) as ([[s e]|] & -> & Hb); simpl; [|by exists None].
  destruct (Hb s e eq_refl) as [Hoe _].
  destruct (u16_from_total b e L HL) as [[t|] ->]; simpl; [|by exists None].
  destruct (u16_from_total b (e + 2) L HL) as [[c|] ->]; simpl; [|by exists None].
  destruct (u32_from_total b (e + 4) L HL) as [[ttl|] ->]; simpl; [|by exists None].
  destruct (u16_from_total b (e + 8) L HL) as [[l|] ->]; simpl; [|by exists None].
  destruct (Nat.ltb_spec L (o + (e + 10 + Z.to_nat l - o))); [by exists None|].
  rewrite slice_ok by lia. simpl. by eexists.
Qed.

Lemma record_find_end_total b o L :
  (L < length b)%nat ->
  exists r, resource_record_find_end b o L = Ret r /\ forall e, r = Some e -> (o < e <= L)%nat.
Proof.
  intros HL. unfold resource_record_find_end.
  destruct (find_end_total b o L HL) as ([e|] & -> & He); simpl; [|by exists None].
  specialize (He e eq_refl).
  destruct (u16_from_total b (e + 8) L) as [[l|] ->]; [lia|..]; simpl; [|by exists None].
  destruct (Nat.ltb_spec L (e + 10 + Z.to_nat l)); eexists; (split; [done|]); [done|].
  intros e' [= <-]. lia.
Qed.

Lemma repeat_end_total n next o L :
  (forall o, exists r, next o = Ret r /\ forall e, r = Some e -> (o < e <= L)%nat) ->
  exists r, repeat_end n next o = Ret r /\ forall e, r = Some e -> (e <= Nat.max o L)%nat.
Proof.
  intros Hnext. revert o. induction n as [|n IH]; intros o; simpl.
  - eexists. split; [done|]. intros e [= <-]. lia.
  - destruct (Hnext o) as ([o'|] & -> & Ho); simpl; [|by exists None].
    destruct (IH o') as (r & -> & Hr). exists r. split; [done|]. intros e He. specialize (Hr e He).
    specialize (Ho o' eq_refl). lia.
Qed.

Lemma repeat_read_total {A} n (read : nat -> outcome (option A)) size o :
  (forall o, exists r, read o = Ret r) -> exists r, repeat_read n read size o = Ret r.
Proof.
  intros Hread. revert o. induction n as [|n IH]; intros o; simpl; [by eexists|].
  destruct (Hread o) as [[a|] ->]; simpl; [|by eexists].
  destruct (IH (o + size a)%nat) as [r ->]. by eexists.
Qed.

(** ** Names on the wire *)
Definition enc_parts (parts : list bytes) : bytes :=
  concat (map (fun p => wrap 8 (Z.of_nat (length p)) :: p) parts).

Definition enc_name (s : bytes) : bytes :=
  match s with [] => [] | _ => enc_parts (split_dots s) end ++ [0].

Lemma length_enc_split s : length (enc_parts (split_dots s)) = S (length s).
Proof.
  unfold enc_parts. induction s as [|x s IH]; [done|]. simpl. destruct (x =? DOT); simpl; [by rewrite IH|].
  destruct (split_dots s) as [|p ps]; simpl in *; [done|]. rewrite length_app in *. lia.
Qed.

Lemma length_enc_name s : (length (enc_name s) <= length s + 2)%nat.
Proof.
  unfold enc_name. rewrite length_app. destruct s; [simpl; lia|]. rewrite length_enc_split. simpl. lia.
Qed.

(** What an encoder that may run out of room does: nothing before [start] changes, and it gives the
    end if and only if [data] fits, which is then there. *)
Definition encodes (b : bytes) (start : nat) (data b' : bytes) (end_ : option nat) : Prop :=
  length b' = length b /\ (forall i, (i < start)%nat -> b' !! i = b !! i) /\
  ((start + length data <= length b)%nat ->
     end_ = Some (start + length data)%nat /\ writes b start data b') /\
  (forall e, end_ = Some e -> e = (start + length data)%nat /\ (e <= length b)%nat).

Lemma add_parts_spec b o parts :
  exists b' r, add_parts b o parts = Ret (b', r) /\
    ((o <= length b)%nat -> encodes b o (enc_parts parts) b' r).
Proof.
  revert b o. induction parts as [|p ps IH]; intros b o; simpl.
  { eexists _, _. split; [done|]. intros Ho. split_and!; [done..| |].
    - intros _. simpl. rewrite Nat.add_0_r. split; [done|apply writes_nil].
    - intros e [= <-]. simpl. lia. }
  destruct (Nat.ltb_spec (length b) (o + length p + 1)).
  { eexists _, _. split; [done|]. intros _. unfold encodes, enc_parts. simpl. rewrite !length_app.
    split_and!; [done..|lia|done]. }
  destruct (set_at_ok b o (wrap 8 (Z.of_nat (length p)))) as [-> W1]; [lia|]. simpl.
  destruct (put_bytes_ok (<[o := wrap 8 (Z.of_nat (length p))]> b) (o + 1) p) as (b2 & -> & W2);
    [rewrite length_insert; lia|]. simpl.
  pose proof (writes_app b o [_] p _ b2 W1 W2) as W. simpl in W.
  destruct (IH b2 (o + S (length p))%nat) as (b' & r & -> & He). exists b', r. split; [done|].
  intros _. destruct He as (L & P & F & E); [rewrite (writes_length _ _ _ _ W); lia|].
  rewrite (writes_length _ _ _ _ W) in *. unfold encodes, enc_parts in *. simpl. rewrite length_app in *.
  split_and!; [done| | |].
  - intros i Hi. rewrite P by lia. apply W. lia.
  - intros Hfit. destruct F as [-> W']; [lia|]. split; [f_equal; lia|].
    by apply (writes_app b o (_ :: p) _ b2 b' W).
  - intros e He. apply E in He. lia.
Qed.

Lemma add_string_seq_spec b o s :
  (o <= length b)%nat -> exists b' r, add_string_seq b o s = Ret (b', r) /\ encodes b o (enc_name s) b' r.
Proof.
  intros Ho. unfold add_string_seq, enc_name.
  assert (exists b1 r1, match s with [] => Ret (b, Some o) | _ => add_parts b o (split_dots s) end = Ret (b1, r1)
    /\ encodes b o (match s with [] => [] | _ => enc_parts (split_dots s) end) b1 r1)
    as (b1 & r1 & -> & L & P & F & E).
  { destruct s as [|x s]; [|destruct (add_parts_spec b o (split_dots (x :: s))) as (? & ? & ? & ?); eauto].
    eexists _, _. split; [done|]. split_and!; [done..| |].
    - intros _. simpl. rewrite Nat.add_0_r. split; [done|apply writes_nil].
    - intros e [= <-]. simpl. lia. }
  simpl. set (data := match s with [] => [] | _ => _ end) in *. destruct r1 as [e1|].
  - destruct (E e1 eq_refl) as [-> Hle]. destruct F as [_ W]; [done|].
    destruct (Nat.leb_spec (length b1) (o + length data)).
    + eexists _, _. split; [done|]. unfold encodes. rewrite length_app. simpl.
      split_and!; [done..|lia|done].
    + destruct (set_at_ok b1 (o + length data) 0) as [-> W2]; [done|]. simpl. eexists _, _. split; [done|].
      pose proof (writes_app _ _ _ _ _ _ W W2) as W3. unfold encodes. rewrite length_app. simpl.
      split_and!; [apply W3|intros i Hi; apply W3; lia| |].
      * intros _. split; [f_equal; lia|done].
      * intros e [= <-]. lia.
  - eexists _, _. split; [done|]. unfold encodes. rewrite length_app. simpl.
    split_and!; [done..| |done]. intros Hfit. destruct F as [? _]; [lia|done].
Qed.

(** A resource record on the wire *)
Definition enc_record (name : bytes) (t c ttl : Z) (data : bytes) : bytes :=
  enc_name name ++ be16 t ++ be16 c ++ (be16 (wrap 16 (Z.shiftr ttl 16)) ++ be16 (Z.land ttl 65535)) ++
  be16 (wrap 16 (Z.of_nat (length data))) ++ data.

Lemma length_enc_record name t c ttl data :
  length (enc_record name t c ttl data) = (length (enc_name name) + 10 + length data)%nat.
Proof. unfold enc_record. rewrite !length_app. simpl. lia. Qed.

(** Writing a record: nothing before its start changes; the high-water mark moves to its end, and it
    is there, if and only if it fits. *)
Definition written (f : PacketFacade) (start : nat) (wire : bytes) (f' : PacketFacade) (r : option nat)
    : Prop :=
  length (buf f') = length (buf f) /\
  (forall i, (i < start)%nat -> buf f' !! i = buf f !! i) /\
  (if decide (start + length wire <= length (buf f))%nat then
     r = Some (length wire) /\ len f' = Nat.max (len f) (start + length wire) /\
     writes (buf f) start wire (buf f')
   else r = None /\ len f' = len f).

Lemma not_written f start wire b :
  length b = length (buf f) -> (forall i, (i < start)%nat -> b !! i = buf f !! i) ->
  ~ (start + length wire <= length (buf f))%nat ->
  exists f' r, Ret (mkFacade b (len f), None) = Ret (f', r) /\ written f start wire f' r.
Proof. intros Hl Hp Hno. eexists _, _. split; [done|]. split_and!; [done..|]. by rewrite decide_False. Qed.

Lemma record_wire b start name t c ttl data b1 b2 b3 b4 b5 b6 :
  let e := (start + length (enc_name name))%nat in
  writes b start (enc_name name) b1 -> writes b1 e (be16 t) b2 -> writes b2 (e + 2) (be16 c) b3 ->
  writes b3 (e + 4) (be16 (wrap 16 (Z.shiftr ttl 16)) ++ be16 (Z.land ttl 65535)) b4 ->
  writes b4 (e + 8) (be16 (wrap 16 (Z.of_nat (length data)))) b5 -> writes b5 (e + 10) data b6 ->
  writes b start (enc_record name t c ttl data) b6.
Proof.
  intros e W1 W2 W3 W4 W5 W6. unfold enc_record. apply (writes_app _ _ _ _ b1); [done|]. fold e.
  apply (writes_app _ _ (be16 t) _ b2); [done|]. apply (writes_app _ _ (be16 c) _ b3); [done|].
  apply (writes_app _ _ (be16 _ ++ be16 _) _ b4);
    [by replace (e + _ + _)%nat with (e + 4)%nat by (simpl; lia)|].
  apply (writes_app _ _ (be16 _) _ b5);
    [by replace (e + _ + _ + _)%nat with (e + 8)%nat by (simpl; lia)|].
  by replace (e + _ + _ + _ + _)%nat with (e + 10)%nat by (simpl; lia).
Qed.

Lemma write_record_spec f start name t c ttl data :
  (start <= length (buf f))%nat ->
  exists f' r, write_resource_record f start name t c ttl data = Ret (f', r) /\
    written f start (enc_record name t c ttl data) f' r.
Proof.
  intros Hs. unfold write_resource_record. pose proof (length_enc_record name t c ttl data) as HL.
  destruct (add_string_seq_spec (buf f) start name Hs) as (b1 & r1 & -> & L1 & P1 & F1 & E1). simpl.
  destruct r1 as [e|]; simpl.
  2:{ apply not_written; [done..|]. intros Hfit. destruct F1 as [? _]; [lia|done]. }
  destruct (E1 e eq_refl) as [-> Hle]. destruct F1 as [_ W1]; [lia|].
  set (e := (start + length (enc_name name))%nat) in *.
  destruct (u16_to_spec t b1 e) as (b2 & k2 & -> & L2 & P2 & K2 & W2). simpl.
  destruct (u16_to_spec c b2 (e + 2)) as (b3 & k3 & E3 & L3 & P3 & K3 & W3).
  destruct (u32_to_spec ttl b3 (e + 4)) as (b4 & E4 & L4 & P4 & W4).
  destruct (u16_to_spec (wrap 16 (Z.of_nat (length data))) b4 (e + 8)) as (b5 & k5 & E5 & L5 & P5 & K5 & W5).
  assert (Hp2 : forall i, (i < start)%nat -> b2 !! i = buf f !! i) by (intros; rewrite P2, P1 by lia; done).
  assert (Hp3 : forall i, (i < start)%nat -> b3 !! i = buf f !! i) by (intros; rewrite P3, Hp2 by lia; done).
  assert (Hp5 : forall i, (i < start)%nat -> b5 !! i = buf f !! i)
    by (intros; rewrite P5, P4, Hp3 by lia; done).
  destruct k2; simpl; [|apply not_written; [congruence|done|intros ?; discriminate (proj2 K2); lia]].
  rewrite E3. simpl.
  destruct k3; simpl; [|apply not_written; [congruence|done|intros ?; discriminate (proj2 K3); lia]].
  rewrite E4. simpl. rewrite E5. simpl.
  destruct k5; simpl; [|apply not_written; [congruence|done|intros ?; discriminate (proj2 K5); lia]].
  destruct (Nat.ltb_spec (length b5) (e + 10 + length data)) as [Hlt|Hge].
  { apply not_written; [congruence|done|lia]. }
  destruct (put_bytes_ok b5 (e + 10) data Hge) as (b6 & -> & W6). simpl. eexists _, _. split; [done|].
  assert (W : writes (buf f) start (enc_record name t c ttl data) b6).
  { apply (record_wire _ _ _ _ _ _ _ b1 b2 b3 b4 b5 b6); fold e; auto. apply W4. lia. }
  unfold written. rewrite decide_True by lia. simpl.
  split_and!; [apply W|intros i Hi; apply W; lia|f_equal; lia|lia|done].
Qed.

(** *** The operations on whole packets *)
Lemma count_at_total f pos : (len f <= length (buf f))%nat -> exists r, count_at f pos = Ret r.
Proof.
  intros Hf. unfold count_at. destruct (u16_from_total (buf f) pos (len f) Hf) as [r ->]. by eexists.
Qed.

Lemma find_queries_end_total f :
  (len f < length (buf f))%nat ->
  exists r, find_queries_end f = Ret r /\ forall e, r = Some e -> (e <= Nat.max 12 (len f))%nat.
Proof.
  intros Hf. unfold find_queries_end. destruct (count_at_total f 4) as [[n|] ->]; [lia|..]; simpl; [|by exists None].
  apply repeat_end_total. intros o. by apply query_find_end_total.
Qed.

Lemma find_section_end_total f pos begin :
  (len f < length (buf f))%nat ->
  (exists r, begin f = Ret r /\ forall e, r = Some e -> (e <= Nat.max 12 (len f))%nat) ->
  exists r, find_section_end f pos begin = Ret r /\ forall e, r = Some e -> (e <= Nat.max 12 (len f))%nat.
Proof.
  intros Hf (r & Hr & Hb). unfold find_section_end.
  destruct (count_at_total f pos) as [[n|] ->]; [lia|..]; simpl; [|by exists None]. rewrite Hr. simpl.
  destruct r as [o|]; [|by exists None]. specialize (Hb o eq_refl).
  destruct (repeat_end_total n (fun o => resource_record_find_end (buf f) o (len f)) o (len f)) as (r & Hr' & He).
  { intros o'. by apply record_find_end_total. }
  exists r. split; [done|]. intros e ->. specialize (He e eq_refl). lia.
Qed.

Lemma find_answers_end_total f :
  (len f < length (buf f))%nat ->
  exists r, find_answers_end f = Ret r /\ forall e, r = Some e -> (e <= Nat.max 12 (len f))%nat.
Proof. intros Hf. by apply find_section_end_total, find_queries_end_total. Qed.

Lemma get_section_total f pos begin :
  (len f < length (buf f))%nat -> (exists r, begin f = Ret r) -> exists r, get_section f pos begin = Ret r.
Proof.
  intros Hf [r Hr]. unfold get_section. rewrite Hr. simpl. destruct r as [o|]; [|by eexists].
  destruct (count_at_total f pos) as [[n|] ->]; [lia|..]; simpl; [|by eexists].
  apply repeat_read_total. intros o'. apply record_new_total. lia.
Qed.

(** The queries that are read lie one after the other within the packet. *)
Lemma read_queries_ok b L n o :
  (L <= length b)%nat ->
  exists r, repeat_read n (fun o => query_new b o L) q_length o = Ret r /\
    forall qs, r = Some qs ->
      (o + sum_list_with q_length qs <= Nat.max o L)%nat /\
      Forall (fun q => (length (q_name q) + 5 <= q_length q)%nat) qs.
Proof.
  intros HL. revert o. induction n as [|n IH]; intros o; simpl.
  { eexists. split; [done|]. intros qs [= <-]. simpl. split; [lia|done]. }
  destruct (query_new_total b o L HL) as ([q|] & -> & Hq); simpl; [|by exists None].
  destruct (Hq q eq_refl) as [Hle Hname].
  destruct (IH (o + q_length q)%nat) as (r & -> & Hr). simpl. eexists. split; [done|].
  intros qs'. destruct r as [qs|]; simpl; [|done]. intros [= <-]. destruct (Hr qs eq_refl) as [Hsum Hall].
  simpl. split; [lia|by constructor].
Qed.

Lemma get_queries_total f :
  (len f <= length (buf f))%nat ->
  exists r, get_queries f = Ret r /\
    forall qs, r = Some qs ->
      (12 + sum_list_with q_length qs <= Nat.max 12 (len f))%nat /\
      Forall (fun q => (length (q_name q) + 5 <= q_length q)%nat) qs.
Proof.
  intros Hf. unfold get_queries. destruct (count_at_total f 4 Hf) as [[n|] ->]; simpl; [|by exists None].
  by apply read_queries_ok.
Qed.

Lemma bump_count_total f pos :
  (len f <= length (buf f))%nat ->
  exists f' ok, bump_count f pos = Ret (f', ok) /\ length (buf f') = length (buf f) /\ len f' = len f.
Proof.
  intros Hf. unfold bump_count. destruct (u16_from_total (buf f) pos (len f) Hf) as [[c|] ->]; simpl; [|by eexists _, _].
  destruct (u16_to_spec (wrap 16 (c + 1)) (buf f) pos) as (b' & k & -> & Hl & _). by eexists _, _.
Qed.

(** Adding an answer never panics and moves the end of the packet by at most the answer's size. *)
Lemma add_answer_total f name t c ttl data :
  (len f < length (buf f))%nat -> (12 <= length (buf f))%nat ->
  exists f' ok, add_answer f name t c ttl data = Ret (f', ok) /\ length (buf f') = length (buf f) /\
    (len f' <= Nat.min (length (buf f)) (Nat.max 12 (len f) + (length name + 12 + length data)))%nat.
Proof.
  intros Hf H12. unfold add_answer, add_record.
  destruct (find_answers_end_total f Hf) as ([e|] & -> & He); simpl; [|eexists _, _; split_and!; [done..|lia]].
  specialize (He e eq_refl).
  destruct (write_record_spec f e name t c ttl data) as (f1 & r & -> & L1 & _ & Hw); [lia|]. simpl.
  pose proof (length_enc_record name t c ttl data) as HL. pose proof (length_enc_name name) as HN.
  case_decide as Hfit; [destruct Hw as (-> & Hlen & _)|destruct Hw as [-> Hlen]].
  - destruct (bump_count_total f1 6) as (f2 & ok & -> & L2 & Hl2); [lia|].
    eexists _, _. split_and!; [done|congruence|lia].
  - eexists _, _. split_and!; [done..|lia].
Qed.

Lemma alter_out (g : Z -> Z) i (b : bytes) : (length b <= i)%nat -> alter g i b = b.
Proof.
  intros Hi. apply list_eq. intros j. destruct (decide (i = j)) as [->|Hne].
  - rewrite list_lookup_alter_eq. by rewrite lookup_ge_None_2.
  - by rewrite list_lookup_alter_ne.
Qed.

Lemma set_byte_eq f pos g :
  set_byte f pos g = Ret (mkFacade (alter g pos (buf f)) (len f), (pos <? length (buf f))%nat).
Proof.
  unfold set_byte. destruct (Nat.ltb_spec (length (buf f)) (pos + 1)).
  - rewrite alter_out by lia. rewrite (proj2 (Nat.ltb_ge _ _)) by lia. by destruct f.
  - destruct (index_ret (buf f) pos) as (x & -> & Hx); [lia|]. simpl.
    destruct (set_at_ok (buf f) pos (g x)) as [-> _]; [lia|]. simpl.
    rewrite (proj2 (Nat.ltb_lt _ _)) by lia. do 3 f_equal. apply list_eq. intros j.
    destruct (decide (pos = j)) as [<-|Hne].
    + rewrite list_lookup_insert_eq by lia. by rewrite list_lookup_alter_eq, Hx.
    + by rewrite list_lookup_insert_ne, list_lookup_alter_ne by done.
Qed.

(** What the header's flag bytes become in every response *)
Definition flags_of_response (b2 : Z) : Z := Z.lor (Z.land (Z.lor (Z.land (Z.lor (Z.land b2 127) 128) 251) 0) 253) 0.
Definition flags2_of_response (b3 : Z) : Z := Z.lor (Z.land (Z.lor (Z.land (Z.lor (Z.land b3 127) 128) 223) 0) 239) 0.

Definition respond (b : bytes) : bytes := alter flags2_of_response 3%nat (alter flags_of_response 2%nat b).

Lemma alter_compose (g h : Z -> Z) i (b : bytes) : alter g i (alter h i b) = alter (g ∘ h) i b.
Proof.
  apply list_eq. intros j. destruct (decide (i = j)) as [->|Hne].
  - rewrite !list_lookup_alter_eq. by destruct (b !! j).
  - by rewrite !list_lookup_alter_ne.
Qed.

Lemma set_all_byte f pos g ss :
  (pos < length (buf f))%nat ->
  set_all f ((fun f => set_byte f pos g) :: ss) = set_all (mkFacade (alter g pos (buf f)) (len f)) ss.
Proof. intros Hpos. simpl. rewrite set_byte_eq. simpl. by rewrite (proj2 (Nat.ltb_lt _ _)). Qed.

Lemma set_all_response_flags f :
  (4 <= length (buf f))%nat ->
  set_all f response_flags = Ret (mkFacade (respond (buf f)) (len f), true).
Proof.
  intros Hl. unfold response_flags, set_query, set_authoritative_answer, set_truncated,
    set_recursion_available, set_authenticated_data, set_checking_disabled.
  do 6 (rewrite set_all_byte by (cbn [buf]; rewrite ?length_alter; lia); cbn [buf len]).
  unfold respond. by rewrite !alter_compose.
Qed.

Lemma set_each_error_flags f code :
  set_each f (response_flags ++ [fun f => set_rcode f code]) =
  Ret (mkFacade (alter (fun b => Z.lor (Z.land b 240) (Z.land code 15)) 3%nat (respond (buf f))) (len f)).
Proof.
  unfold set_each, response_flags. simpl.
  repeat (unfold set_query, set_authoritative_answer, set_truncated, set_recursion_available,
      set_authenticated_data, set_checking_disabled, set_rcode; rewrite set_byte_eq; cbn [obind buf len]).
  unfold respond. by rewrite !alter_compose.
Qed.

Lemma clear_total f :
  exists f', clear f = Ret f' /\ length (buf f') = length (buf f) /\ len f' = 12%nat.
Proof.
  unfold clear. destruct (u16_to_spec 0 (buf f) 4) as (b1 & k1 & -> & L1 & _). simpl.
  destruct (u16_to_spec 0 b1 6) as (b2 & k2 & -> & L2 & _). simpl.
  destruct (u16_to_spec 0 b2 8) as (b3 & k3 & -> & L3 & _). simpl.
  destruct (u16_to_spec 0 b3 10) as (b4 & k4 & -> & L4 & _). simpl.
  eexists. split_and!; [done|simpl; congruence|done].
Qed.

Lemma make_error_total f code :
  exists f', make_error f code = Ret (f', 12%nat) /\ length (buf f') = length (buf f) /\ len f' = 12%nat.
Proof.
  unfold make_error. rewrite set_each_error_flags. simpl.
  match goal with |- context [clear ?g] => destruct (clear_total g) as (f' & -> & Hl & H12) end. simpl.
  exists f'. split_and!; [done| |done]. rewrite Hl. unfold respond. simpl. by rewrite !length_alter.
Qed.

Section total.
Context `{!TrustDns}.

(** The room the answers to some queries can take at most *)
Definition room (qs : list Query) : nat := sum_list_with (fun q => length (q_name q) + 28)%nat qs.

Lemma answer_queries_total qs f :
  (Nat.max 12 (len f) + room qs < length (buf f))%nat ->
  exists f' n, answer_queries f qs = Ret (f', n) /\ length (buf f') = length (buf f) /\
    len f' = n /\ (n < length (buf f))%nat.
Proof.
  revert f. induction qs as [|q qs IH]; intros f Hroom.
  { exists f, (len f). simpl. split_and!; [done..|]. simpl in Hroom. lia. }
  assert (Herr : exists f' n, make_not_implemented_error f = Ret (f', n) /\ length (buf f') = length (buf f) /\
    len f' = n /\ (n < length (buf f))%nat).
  { destruct (make_error_total f not_imp_low) as (f' & E & Hl & H12). exists f', 12%nat.
    split_and!; [done..|]. lia. }
  assert (Hadd : forall data, (length data <= 16)%nat -> exists f' n,
    (let* (f', _) := add_answer f (q_name q) (qtype q) class_in 3600 data in answer_queries f' qs) = Ret (f', n) /\
    length (buf f') = length (buf f) /\ len f' = n /\ (n < length (buf f))%nat).
  { intros data Hd. unfold room in Hroom. simpl in Hroom. fold (room qs) in Hroom.
    destruct (add_answer_total f (q_name q) (qtype q) class_in 3600 data) as (f1 & ok & -> & L1 & Hl1);
      [lia..|]. simpl. destruct (IH f1) as (f' & n & E & L' & Hn & Hlt); [lia|]. exists f', n.
    split_and!; [done|congruence|done|lia]. }
  simpl. destruct (qclass q =? class_in); simpl; [|done].
  destruct (record_type_from (qtype q)); [apply Hadd; simpl; lia..|done].
Qed.

Lemma room_bound qs :
  Forall (fun q => (length (q_name q) + 5 <= q_length q)%nat) qs ->
  (5 * room qs <= 28 * sum_list_with q_length qs)%nat.
Proof. unfold room. induction 1 as [|q qs Hq Hqs IH]; simpl; lia. Qed.

Lemma make_response_total f :
  (12 < length (buf f))%nat -> (7 * len f <= length (buf f))%nat ->
  exists f' n, make_response f = Ret (f', n) /\ length (buf f') = length (buf f) /\
    len f' = n /\ (n < length (buf f))%nat.
Proof.
  intros H12 H7. unfold make_response, get_opcode, req_len_opt.
  assert (Herr : forall g code, length (buf g) = length (buf f) -> exists f' n,
    make_error g code = Ret (f', n) /\ length (buf f') = length (buf f) /\ len f' = n /\
    (n < length (buf f))%nat).
  { intros g code Hg. destruct (make_error_total g code) as (f' & E & Hl & Hn). exists f', 12%nat.
    split_and!; [done|congruence|done|done]. }
  destruct ((len f <? 3)%nat || (length (buf f) <? 3)%nat); cbn [obind]; [by apply Herr|].
  destruct (index_ret (buf f) 2) as (x & -> & _); [lia|]. cbn [obind].
  destruct (_ =? opcode_query); cbn [negb]; [|by apply Herr].
  rewrite set_all_response_flags by lia. cbn [obind negb].
  set (g := mkFacade (respond (buf f)) (len f)).
  assert (Lg : length (buf g) = length (buf f)) by (unfold g, respond; simpl; by rewrite !length_alter).
  assert (len g = len f) as Hg by done. destruct (get_queries_total g) as ([qs|] & -> & Hq); [lia|..]; cbn [obind].
  - destruct (Hq qs eq_refl) as [Hsum Hall]. pose proof (room_bound qs Hall) as Hroom.
    destruct (answer_queries_total qs g) as (f' & n & E & L' & Hn & Hlt); [lia|]. exists f', n.
    rewrite Lg in *. eauto.
  - by apply Herr.
Qed.
End total.

(** ** Reading back what is on the wire *)
Definition here (b : bytes) (off : nat) (data : bytes) : Prop :=
  forall i x, data !! i = Some x -> b !! (off + i)%nat = Some x.

Lemma here_app b off d1 d2 : here b off (d1 ++ d2) <-> here b off d1 /\ here b (off + length d1) d2.
Proof.
  split.
  - intros Hh. split; intros i x Hi.
    + apply Hh. by apply lookup_app_l_Some.
    + rewrite <- Nat.add_assoc. apply Hh. rewrite lookup_app_r by lia. rewrite <- Hi. f_equal. lia.
  - intros [H1 H2] i x [Hi|[Hge Hi]]%lookup_app_Some; [by apply H1|]. apply H2 in Hi. rewrite <- Hi.
    f_equal. lia.
Qed.

Lemma here_same b b' off data :
  here b off data -> (forall i, (off <= i < off + length data)%nat -> b' !! i = b !! i) -> here b' off data.
Proof. intros Hh Hs i x Hi. rewrite Hs; [by apply Hh|]. apply lookup_lt_Some in Hi. lia. Qed.

Lemma here_take b off data : here b off data -> take (length data) (drop off b) = data.
Proof.
  intros Hh. apply list_eq. intros i. destruct (decide (i < length data)%nat) as [Hi|Hi].
  - rewrite lookup_take_lt, lookup_drop by done. apply lookup_lt_is_Some in Hi as [x Hx].
    rewrite Hx. by apply Hh.
  - rewrite lookup_take_ge by lia. symmetry. apply lookup_ge_None. lia.
Qed.

Lemma take_here b off data : take (length data) (drop off b) = data -> here b off data.
Proof.
  intros <- i x Hi. assert (i < length data)%nat by (apply lookup_lt_Some in Hi; rewrite length_take in Hi; lia).
  rewrite lookup_take_lt, lookup_drop in Hi by done. done.
Qed.

Lemma index_here b off x rest : here b off (x :: rest) -> index b off = Ret x.
Proof. intros Hh. unfold index. specialize (Hh 0%nat x eq_refl). rewrite Nat.add_0_r in Hh. by rewrite Hh. Qed.

Lemma u16_from_here b off L v :
  uint 16 v -> here b off (be16 v) -> (off + 2 <= L)%nat -> u16_from b off L = Ret (Some v).
Proof.
  intros Hv Hh HL. unfold u16_from. rewrite (proj2 (Nat.ltb_ge _ _)) by done.
  rewrite (index_here b off _ _ Hh). simpl. rewrite (index_here b (off + 1) (Z.land v 255) []).
  2:{ apply (here_app b off [_] [_]) in Hh. apply Hh. }
  simpl. do 2 f_equal. unfold uint, wrap in *. rewrite Z.shiftl_mul_pow2, Z.shiftr_div_pow2 by lia.
  change 255 with (2 ^ 8 - 1). rewrite land_mask by lia. divmod_lia.
Qed.

Lemma u32_from_here b off L v :
  uint 32 v -> here b off (be16 (wrap 16 (Z.shiftr v 16)) ++ be16 (Z.land v 65535)) -> (off + 4 <= L)%nat ->
  u32_from b off L = Ret (Some v).
Proof.
  intros Hv [H1 H2]%here_app HL. unfold u32_from. change 65535 with (2 ^ 16 - 1) in *.
  rewrite land_mask in * by lia. rewrite (u16_from_here b off L _ (wrap_uint 16 _ ltac:(lia)) H1) by lia.
  cbn [obind]. rewrite (u16_from_here b (off + 2) L (v mod 2 ^ 16)) by
    ((done || lia || (apply Z.mod_pos_bound; lia))). cbn [obind].
  do 2 f_equal. unfold uint, wrap in *. rewrite Z.shiftl_mul_pow2, Z.shiftr_div_pow2 by lia.
  rewrite lor_add by (norm_pow; divmod_lia). divmod_lia.
Qed.

(** *** Names *)
Definition parts_of (s : bytes) : list bytes := match s with [] => [] | _ => split_dots s end.

Definition part_ok (p : bytes) : Prop := (0 < length p < 256)%nat /\ utf8_ok p = true.

(** A name DNS can carry: labels of 1 to 255 bytes, separated by dots. *)
Definition name_ok (s : bytes) : Prop := Forall part_ok (parts_of s).

Definition glue (acc p : bytes) : bytes := match acc with [] => acc | _ => acc ++ [DOT] end ++ p.

Lemma enc_name_parts s : enc_name s = enc_parts (parts_of s) ++ [0].
Proof. unfold enc_name, parts_of. by destruct s. Qed.

Lemma foldl_glue s acc p ps :
  acc <> [] -> split_dots s = p :: ps -> foldl glue (acc ++ p) ps = acc ++ s.
Proof.
  revert acc p ps. induction s as [|x s IH]; intros acc p ps Hne; simpl.
  { by intros [= <- <-]. }
  assert (Hg : forall q, glue acc q = (acc ++ [DOT]) ++ q) by (intros q; unfold glue; by destruct acc).
  destruct (Z.eqb_spec x DOT) as [->|_].
  - intros [= <- <-]. destruct (split_dots s) as [|p' ps'] eqn:E; [by destruct s; simpl in E; case_all|].
    simpl. rewrite app_nil_r, Hg, (IH _ p' ps'); [|by destruct acc|done]. by rewrite <- app_assoc.
  - destruct (split_dots s) as [|p' ps'] eqn:E; [by destruct s; simpl in E; case_all|].
    intros [= <- <-]. replace (acc ++ x :: p') with ((acc ++ [x]) ++ p') by by rewrite <- app_assoc.
    rewrite (IH _ p' ps'); [|by destruct acc|done]. by rewrite <- app_assoc.
Qed.

Lemma glue_parts s : name_ok s -> foldl glue [] (parts_of s) = s.
Proof.
  unfold name_ok, parts_of. destruct s as [|x s]; [done|]. simpl. destruct (Z.eqb_spec x DOT).
  { intros [[Hlen _] _]%Forall_cons. simpl in Hlen. lia. }
  destruct (split_dots s) as [|p ps] eqn:E; [by destruct s; simpl in E; case_all|]. intros _. simpl.
  by apply (foldl_glue s [x] p ps).
Qed.

Lemma extract_loop_here parts b o L acc fuel :
  Forall part_ok parts -> here b o (enc_parts parts ++ [0]) ->
  (o + length (enc_parts parts ++ [0%Z]) <= L)%nat -> (L <= length b)%nat -> (L - o + 1 <= fuel)%nat ->
  extract_string_seq_loop fuel b o L acc =
  Ret (Some (foldl glue acc parts, o + length (enc_parts parts ++ [0%Z])))%nat.
Proof.
  revert o acc fuel. induction parts as [|p ps IH]; intros o acc fuel Hok Hh HL Hb Hf;
    (destruct fuel as [|fuel]; [lia|]); simpl in *.
  - rewrite (proj2 (Nat.leb_gt _ _)) by lia. by rewrite (index_here b o _ _ Hh).
  - apply Forall_cons in Hok as [[Hp Hu] Hok]. unfold enc_parts in *. simpl in *. fold (enc_parts ps) in *.
    rewrite <- app_assoc, length_app in *. rewrite (proj2 (Nat.leb_gt _ _)) by lia.
    rewrite (index_here b o _ _ Hh). simpl.
    assert (Hl : wrap 8 (Z.of_nat (length p)) = Z.of_nat (length p)).
    { apply wrap_small. unfold uint. change (2 ^ 8) with 256. lia. }
    rewrite Hl. destruct (Z.eqb_spec (Z.of_nat (length p)) 0); [lia|]. rewrite Nat2Z.id.
    rewrite (proj2 (Nat.ltb_ge _ _)) by lia. rewrite slice_ok by lia. simpl.
    apply (here_app b o [_] _) in Hh as [_ Hh]. simpl in Hh. apply here_app in Hh as [Hp' Hh].
    replace (o + 1 + length p - (o + 1))%nat with (length p) by lia. rewrite (here_take _ _ _ Hp'), Hu.
    rewrite !length_app in *. simpl in *.
    rewrite IH; rewrite ?length_app; simpl; [|done|done|lia|done|lia]. do 3 f_equal. lia.
Qed.

Lemma extract_here b o L s :
  name_ok s -> here b o (enc_name s) -> (o + length (enc_name s) <= L)%nat -> (L <= length b)%nat ->
  extract_string_seq b o L = Ret (Some (s, o + length (enc_name s)))%nat.
Proof.
  intros Hs. rewrite enc_name_parts. intros Hh HL Hb. unfold extract_string_seq.
  rewrite (extract_loop_here (parts_of s)) by (done || lia). by rewrite glue_parts.
Qed.

Lemma find_end_loop_here parts b o L fuel :
  Forall part_ok parts -> here b o (enc_parts parts ++ [0]) ->
  (o + length (enc_parts parts ++ [0%Z]) <= L)%nat -> (L - o + 1 <= fuel)%nat ->
  find_string_seq_end_loop fuel b o L = Ret (Some (o + length (enc_parts parts ++ [0%Z])))%nat.
Proof.
  revert o fuel. induction parts as [|p ps IH]; intros o fuel Hok Hh HL Hf;
    (destruct fuel as [|fuel]; [lia|]); simpl in *.
  - rewrite (proj2 (Nat.ltb_ge _ _)) by lia. by rewrite (index_here b o _ _ Hh).
  - apply Forall_cons in Hok as [[Hp Hu] Hok]. unfold enc_parts in *. simpl in *. fold (enc_parts ps) in *.
    rewrite <- app_assoc, length_app in *. rewrite (proj2 (Nat.ltb_ge _ _)) by lia.
    rewrite (index_here b o _ _ Hh). simpl.
    assert (Hl : wrap 8 (Z.of_nat (length p)) = Z.of_nat (length p)).
    { apply wrap_small. unfold uint. change (2 ^ 8) with 256. lia. }
    rewrite Hl. destruct (Z.eqb_spec (Z.of_nat (length p)) 0); [lia|]. rewrite Nat2Z.id.
    apply (here_app b o (_ :: p) _) in Hh as [_ Hh]. simpl in Hh. rewrite (Nat.add_1_r (length p)).
    rewrite !length_app in *. simpl in *.
    rewrite IH; rewrite ?length_app; simpl; [|done|done|lia|lia]. do 2 f_equal. lia.
Qed.

Lemma find_end_here b o L s :
  name_ok s -> here b o (enc_name s) -> (o + length (enc_name s) <= L)%nat ->
  find_string_seq_end b o L = Ret (Some (o + length (enc_name s)))%nat.
Proof.
  intros Hs. rewrite enc_name_parts. intros Hh HL. apply find_end_loop_here; (done || lia).
Qed.

(** *** Queries, records and packets *)
Definition enc_query (q : Query) : bytes := enc_name (q_name q) ++ be16 (qtype q) ++ be16 (qclass q).

Definition enc_rr (r : ResourceRecord) : bytes :=
  enc_record (r_name r) (rtype r) (rclass r) (time_to_live r) (rdata r).

Record query_ok (q : Query) : Prop := {
  qo_name : name_ok (q_name q);
  qo_type : uint 16 (qtype q);
  qo_class : uint 16 (qclass q);
  qo_length : q_length q = length (enc_query q);
}.

Record rr_ok (r : ResourceRecord) : Prop := {
  ro_name : name_ok (r_name r);
  ro_type : uint 16 (rtype r);
  ro_class : uint 16 (rclass r);
  ro_ttl : uint 32 (time_to_live r);
  ro_data : uint 16 (Z.of_nat (length (rdata r)));
  ro_length : r_length r = length (enc_rr r);
}.

Lemma query_new_here b o L q :
  query_ok q -> here b o (enc_query q) -> (o + length (enc_query q) <= L)%nat -> (L <= length b)%nat ->
  query_new b o L = Ret (Some q) /\ query_find_end b o L = Ret (Some (o + length (enc_query q)))%nat.
Proof.
  intros [Hn Ht Hc Hq]. unfold enc_query in *. intros [Hname [Htype Hclass]%here_app]%here_app HL Hb.
  simpl in Hclass. rewrite !length_app in *. simpl in *.
  unfold query_new, query_find_end. rewrite (extract_here b o L (q_name q)) by (done || lia). simpl.
  rewrite (u16_from_here b _ L (qtype q)) by (done || lia). simpl.
  rewrite (u16_from_here b _ L (qclass q)) by (done || lia). simpl.
  rewrite (find_end_here b o L (q_name q)) by (done || lia). simpl.
  rewrite (proj2 (Nat.ltb_ge _ _)) by lia. split; [|do 2 f_equal; lia]. destruct q; simpl in *.
  do 3 f_equal. lia.
Qed.

Lemma rr_new_here b o L r :
  rr_ok r -> here b o (enc_rr r) -> (o + length (enc_rr r) <= L)%nat -> (L <= length b)%nat ->
  resource_record_new b o L = Ret (Some r) /\
  resource_record_find_end b o L = Ret (Some (o + length (enc_rr r)))%nat.
Proof.
  intros [Hn Ht Hc Httl Hd Hr]. unfold enc_rr in *. rewrite length_enc_record in *. unfold enc_record.
  intros [Hname [Htype [Hclass [Hl [Hlen Hdata]%here_app]%here_app]%here_app]%here_app]%here_app HL Hb.
  rewrite (wrap_small 16 (Z.of_nat _)) in Hlen by done. rewrite <- !Nat.add_assoc in *. simpl in *.
  set (e := (o + length (enc_name (r_name r)))%nat). replace (o + (length (enc_name (r_name r)) + _))%nat
    with (e + 2)%nat in Hclass by lia.
  unfold resource_record_new, resource_record_find_end, record_fields.
  rewrite (extract_here b o L (r_name r)) by (done || lia). simpl. fold e.
  rewrite (u16_from_here b e L (rtype r)) by (done || lia). simpl.
  rewrite (u16_from_here b _ L (rclass r)) by (done || lia). simpl.
  rewrite (u32_from_here b (e + 4) L (time_to_live r)); [|done| |lia].
  2:{ replace (e + 4)%nat with (o + (length (enc_name (r_name r)) + 4))%nat by lia. done. }
  simpl. rewrite (u16_from_here b (e + 8) L (Z.of_nat (length (rdata r)))); [|done| |lia].
  2:{ replace (e + 8)%nat with (o + (length (enc_name (r_name r)) + 8))%nat by lia. done. }
  simpl. rewrite Nat2Z.id. rewrite (proj2 (Nat.ltb_ge _ _)) by lia. rewrite slice_ok by lia. simpl.
  rewrite (find_end_here b o L (r_name r)) by (done || lia). simpl. fold e.
  rewrite (u16_from_here b (e + 8) L (Z.of_nat (length (rdata r)))); [|done| |lia].
  2:{ replace (e + 8)%nat with (o + (length (enc_name (r_name r)) + 8))%nat by lia. done. }
  simpl. rewrite Nat2Z.id, (proj2 (Nat.ltb_ge _ _)) by lia. split; [|do 2 f_equal; lia].
  do 2 f_equal. replace (e + 10 + length (rdata r) - (e + 10))%nat with (length (rdata r)) by lia.
  rewrite here_take.
  2:{ replace (e + 10)%nat with (o + (length (enc_name (r_name r)) + 10))%nat by lia. done. }
  destruct r; simpl in *. f_equal. lia.
Qed.

(** Items one after the other *)
Lemma repeat_read_here {A} (enc : A -> bytes) read size b L items o :
  (forall a o, a ∈ items -> here b o (enc a) -> (o + length (enc a) <= L)%nat ->
     read o = Ret (Some a) /\ size a = length (enc a)) ->
  here b o (concat (map enc items)) -> (o + length (concat (map enc items)) <= L)%nat ->
  repeat_read (length items) read size o = Ret (Some items).
Proof.
  revert o. induction items as [|a items IH]; intros o Hread Hh HL; simpl in *; [done|].
  apply here_app in Hh as [Ha Hh]. rewrite length_app in HL.
  destruct (Hread a o) as [-> Hs]; [left|done|lia|]. simpl. rewrite Hs, IH; [done| |done|lia].
  intros a' o' Ha'. apply Hread. by right.
Qed.

Lemma repeat_end_here {A} (enc : A -> bytes) next b L items o :
  (forall a o, a ∈ items -> here b o (enc a) -> (o + length (enc a) <= L)%nat ->
     next o = Ret (Some (o + length (enc a))%nat)) ->
  here b o (concat (map enc items)) -> (o + length (concat (map enc items)) <= L)%nat ->
  repeat_end (length items) next o = Ret (Some (o + length (concat (map enc items)))%nat).
Proof.
  revert o. induction items as [|a items IH]; intros o Hnext Hh HL; simpl in *; [by rewrite Nat.add_0_r|].
  apply here_app in Hh as [Ha Hh]. rewrite length_app in *.
  rewrite (Hnext a o) by (left || done || lia). simpl. rewrite IH; [do 2 f_equal; lia| |done|lia].
  intros a' o' Ha'. apply Hnext. by right.
Qed.

(** A packet with these queries and these answers and nothing behind them *)
Record packet (f : PacketFacade) (qs : list Query) (rs : list ResourceRecord) : Prop := {
  pk_counts : here (buf f) 4 (be16 (Z.of_nat (length qs)) ++ be16 (Z.of_nat (length rs)));
  pk_body : here (buf f) 12 (concat (map enc_query qs) ++ concat (map enc_rr rs));
  pk_len : len f = (12 + length (concat (map enc_query qs) ++ concat (map enc_rr rs)))%nat;
  pk_fits : (len f <= length (buf f))%nat;
  pk_queries : Forall query_ok qs;
  pk_records : Forall rr_ok rs;
  pk_few : uint 16 (Z.of_nat (length qs)) /\ uint 16 (Z.of_nat (length rs));
}.

Lemma packet_reads f qs rs :
  packet f qs rs ->
  get_queries f = Ret (Some qs) /\ get_answers f = Ret (Some rs) /\ find_answers_end f = Ret (Some (len f)).
Proof.
  intros [[Hq Hr]%here_app [Hbq Hbr]%here_app Hlen Hfit Hqs Hrs [Hfq Hfr]]. simpl in Hr.
  rewrite length_app in Hlen. rewrite Forall_forall in Hqs. rewrite Forall_forall in Hrs.
  assert (C4 : count_at f 4 = Ret (Some (length qs))).
  { unfold count_at. rewrite (u16_from_here _ _ _ _ Hfq Hq) by lia. simpl. by rewrite Nat2Z.id. }
  assert (C6 : count_at f 6 = Ret (Some (length rs))).
  { unfold count_at. rewrite (u16_from_here _ _ _ _ Hfr Hr) by lia. simpl. by rewrite Nat2Z.id. }
  assert (Eq : find_queries_end f = Ret (Some (12 + length (concat (map enc_query qs))))%nat).
  { unfold find_queries_end. rewrite C4. simpl.
    apply (repeat_end_here enc_query _ (buf f) (len f)); [|done|lia].
    intros q o Hin Hh HL. by apply query_new_here; [apply Hqs| | |lia]. }
  split_and!.
  - unfold get_queries. rewrite C4. simpl.
    apply (repeat_read_here enc_query _ _ (buf f) (len f)); [|done|lia].
    intros q o Hin Hh HL. split; [by apply query_new_here; [apply Hqs| | |lia]|by apply qo_length, Hqs].
  - unfold get_answers, get_section. rewrite Eq. simpl. rewrite C6. simpl.
    apply (repeat_read_here enc_rr _ _ (buf f) (len f)); [|done|lia].
    intros r o Hin Hh HL. split; [by apply rr_new_here; [apply Hrs| | |lia]|by apply ro_length, Hrs].
  - unfold find_answers_end, find_section_end. rewrite C6. simpl. rewrite Eq. simpl.
    rewrite (repeat_end_here enc_rr _ (buf f) (len f)); [do 2 f_equal; lia| |done|lia].
    intros r o Hin Hh HL. by apply rr_new_here; [apply Hrs| | |lia].
Qed.

Lemma bump_count_ok f pos v :
  here (buf f) pos (be16 v) -> uint 16 (v + 1) -> 0 <= v -> (pos + 2 <= len f)%nat -> (len f <= length (buf f))%nat ->
  exists b, bump_count f pos = Ret (mkFacade b (len f), true) /\ writes (buf f) pos (be16 (v + 1)) b.
Proof.
  intros Hh Hv H0 Hpos Hf. unfold bump_count.
  rewrite (u16_from_here (buf f) pos (len f) v) by (done || unfold uint in *; lia). simpl.
  rewrite wrap_small by done.
  destruct (u16_to_spec (v + 1) (buf f) pos) as (b & k & -> & _ & _ & K & W). simpl.
  exists b. split; [done|]. apply W, K. lia.
Qed.

(** Adding an answer that fits makes a packet with that answer more, and changes nothing else. *)
Lemma packet_add_answer f qs rs r :
  packet f qs rs -> rr_ok r -> uint 16 (Z.of_nat (length rs) + 1) ->
  (len f + length (enc_rr r) <= length (buf f))%nat ->
  exists f', add_answer f (r_name r) (rtype r) (rclass r) (time_to_live r) (rdata r) = Ret (f', true) /\
    packet f' qs (rs ++ [r]) /\ length (buf f') = length (buf f) /\
    len f' = (len f + length (enc_rr r))%nat /\
    (forall i, (i < 4)%nat -> buf f' !! i = buf f !! i).
Proof.
  intros Hpk Hr Hmore Hroom. destruct (packet_reads f qs rs Hpk) as (_ & _ & Hend).
  destruct Hpk as [[Hq Hc]%here_app Hb Hlen Hfit Hqs Hrs [Hfq Hfr]]. simpl in Hc.
  unfold add_answer, add_record. rewrite Hend. simpl.
  destruct (write_record_spec f (len f) (r_name r) (rtype r) (rclass r) (time_to_live r) (rdata r))
    as (f1 & r1 & -> & L1 & P1 & Hw); [lia|]. fold (enc_rr r) in Hw. rewrite decide_True in Hw by done.
  destruct Hw as (-> & Hl1 & W1). simpl.
  destruct (bump_count_ok f1 6 (Z.of_nat (length rs))) as (b2 & -> & W2); [|done|lia|lia|lia|].
  { eapply here_same; [done|]. simpl. intros i Hi. apply P1. lia. }
  eexists. split; [done|]. simpl. split_and!.
  2: by rewrite (writes_length _ _ _ _ W2). 2: lia.
  2:{ intros i Hi. rewrite (writes_elsewhere _ _ _ _ W2) by lia. apply P1. lia. }
  assert (Hlen' : Nat.max (len f) (len f + length (enc_rr r)) = (len f + length (enc_rr r))%nat) by lia.
  split; simpl; rewrite ?map_app, ?concat_app; simpl; rewrite ?app_nil_r, ?app_assoc.
  - apply (here_app _ _ (be16 _) (be16 _)). rewrite length_app. simpl. split.
    + eapply here_same; [done|]. simpl. intros i Hi. rewrite (writes_elsewhere _ _ _ _ W2) by lia. apply P1. lia.
    + rewrite Nat2Z.inj_add. intros i x Hi. by apply (writes_here _ _ _ _ W2).
  - apply here_app. rewrite length_app in *. split.
    + eapply here_same; [done|]. intros i Hi. rewrite length_app in Hi.
      rewrite (writes_elsewhere _ _ _ _ W2) by (simpl; lia). apply P1. lia.
    + intros i x Hi. rewrite (writes_elsewhere _ _ _ _ W2) by (simpl; lia).
      replace (12 + (length (concat (map enc_query qs)) + length (concat (map enc_rr rs))) + i)%nat
        with (len f + i)%nat by lia. by apply (writes_here _ _ _ _ W1).
  - rewrite Hl1, !length_app in *. lia.
  - rewrite (writes_length _ _ _ _ W2). lia.
  - done.
  - apply Forall_app. by split; [|constructor].
  - split; [done|]. rewrite length_app, Nat2Z.inj_add. done.
Qed.

Section answers.
Context `{!TrustDns}.

(** The answer the Node gives to a query: itself *)
Definition localhost_for (q : Query) : bytes :=
  match record_type_from (qtype q) with RA => V4_LOCALHOST | _ => V6_LOCALHOST end.

Definition answer_to (q : Query) : ResourceRecord :=
  mkRecord (q_name q) (qtype q) class_in 3600 (localhost_for q)
    (length (enc_record (q_name q) (qtype q) class_in 3600 (localhost_for q))).

(** A query for an Internet address *)
Definition answerable (q : Query) : Prop := qclass q = class_in /\ record_type_from (qtype q) <> ROther.

Lemma answer_to_ok q : uint 16 class_in -> query_ok q -> rr_ok (answer_to q).
Proof.
  intros Hin [Hn Ht Hc Hq]. split; simpl; [done..|split; [lia|norm_pow; lia]| |done].
  unfold localhost_for. destruct (record_type_from (qtype q)); split; simpl; norm_pow; lia.
Qed.

Lemma answer_queries_step f q qs :
  answerable q ->
  answer_queries f (q :: qs) =
  let* (f', _) := add_answer f (r_name (answer_to q)) (rtype (answer_to q)) (rclass (answer_to q))
                    (time_to_live (answer_to q)) (rdata (answer_to q)) in
  answer_queries f' qs.
Proof.
  intros [Hc Ht]. simpl. rewrite Hc, Z.eqb_refl. simpl. unfold localhost_for.
  by destruct (record_type_from (qtype q)).
Qed.

Lemma answer_queries_ok qs qs0 rs f :
  uint 16 class_in -> packet f qs0 rs -> Forall query_ok qs -> Forall answerable qs ->
  uint 16 (Z.of_nat (length rs + length qs)) ->
  (len f + length (concat (map enc_rr (map answer_to qs))) <= length (buf f))%nat ->
  exists f', answer_queries f qs = Ret (f', len f') /\ packet f' qs0 (rs ++ map answer_to qs) /\
    length (buf f') = length (buf f) /\ (forall i, (i < 4)%nat -> buf f' !! i = buf f !! i).
Proof.
  intros Hin. revert rs f. induction qs as [|q qs IH]; intros rs f Hpk Hqs Hans Hfew Hroom.
  { exists f. simpl. rewrite app_nil_r. done. }
  apply Forall_cons in Hqs as [Hq Hqs]. apply Forall_cons in Hans as [Ha Hans].
  cbn [map concat] in Hroom. rewrite length_app in Hroom. simpl length in Hfew.
  rewrite (answer_queries_step f q qs Ha).
  destruct (packet_add_answer f qs0 rs (answer_to q) Hpk) as (f1 & -> & Hpk1 & L1 & Hl1 & P1);
    [by apply answer_to_ok|unfold uint in *; lia|lia|]. cbn [obind].
  destruct (IH (rs ++ [answer_to q]) f1) as (f' & -> & Hpk' & L' & P'); [done..| |lia|].
  { rewrite length_app. simpl. unfold uint in *. lia. }
  exists f'. split; [done|]. cbn [map]. rewrite <- app_assoc in Hpk'. split_and!; [done|congruence|].
  intros i Hi. rewrite P', P1 by done. done.
Qed.

Lemma packet_respond f qs rs : packet f qs rs -> packet (mkFacade (respond (buf f)) (len f)) qs rs.
Proof.
  intros [Hc Hb Hl Hf Hqs Hrs Hfew].
  assert (Hsame : forall i, (4 <= i)%nat -> respond (buf f) !! i = buf f !! i).
  { intros i Hi. unfold respond. by rewrite !list_lookup_alter_ne by lia. }
  split; simpl; [| |done|unfold respond; by rewrite !length_alter|done..].
  - eapply here_same; [exact Hc|]. intros i Hi. apply Hsame. lia.
  - eapply here_same; [exact Hb|]. intros i Hi. apply Hsame. lia.
Qed.
End answers.

(** Every byte is looked at. *)
Lemma every_byte (P : Z -> bool) :
  forallb P (map Z.of_nat (seq 0 256)) = true -> forall b, uint 8 b -> P b = true.
Proof.
  intros Hall b [H0 H1]. norm_pow. rewrite forallb_forall in Hall. apply Hall. apply in_map_iff.
  exists (Z.to_nat b). split; [lia|]. apply in_seq. lia.
Qed.

(** *** The fields of the header's two flag bytes *)
Inductive field := FQuery | FOpcode | FAuthoritative | FTruncated | FDesired | FAvailable | FZ
  | FAuthenticated | FDisabled | FRcode.

Definition of_bool (o : outcome (option bool)) : outcome (option Z) :=
  let* v := o in Ret ((fun v : bool => if v then 1 else 0) <$> v).

Definition get_field (f : PacketFacade) (x : field) : outcome (option Z) :=
  match x with
  | FQuery => of_bool (is_query f)
  | FOpcode => get_opcode f
  | FAuthoritative => of_bool (is_authoritative_answer f)
  | FTruncated => of_bool (is_truncated f)
  | FDesired => of_bool (is_recursion_desired f)
  | FAvailable => of_bool (is_recursion_available f)
  | FZ => of_bool (get_z f)
  | FAuthenticated => of_bool (is_authenticated_data f)
  | FDisabled => of_bool (is_checking_disabled f)
  | FRcode => get_rcode f
  end.

Definition set_field (f : PacketFacade) (x : field) (v : Z) : outcome (PacketFacade * bool) :=
  match x with
  | FQuery => set_query f (v =? 1)
  | FOpcode => set_opcode f v
  | FAuthoritative => set_authoritative_answer f (v =? 1)
  | FTruncated => set_truncated f (v =? 1)
  | FDesired => set_recursion_desired f (v =? 1)
  | FAvailable => set_recursion_available f (v =? 1)
  | FZ => set_z f (v =? 1)
  | FAuthenticated => set_authenticated_data f (v =? 1)
  | FDisabled => set_checking_disabled f (v =? 1)
  | FRcode => set_rcode f v
  end.

Definition in_range (x : field) (v : Z) : bool :=
  match x with FOpcode | FRcode => between 0 15 v | _ => between 0 1 v end.

(** The same, as functions of one byte *)
Definition place (x : field) : nat :=
  match x with FQuery | FOpcode | FAuthoritative | FTruncated | FDesired => 2 | _ => 3 end.

Definition read_byte (x : field) (b : Z) : Z :=
  let flag v := if v : bool then 1 else 0 in
  match x with
  | FQuery => flag (Z.land b 128 =? 0)
  | FOpcode => Z.shiftr (Z.land b 120) 3
  | FAuthoritative => flag (0 <? Z.land b 4)
  | FTruncated => flag (0 <? Z.land b 2)
  | FDesired => flag (0 <? Z.land b 1)
  | FAvailable => flag (0 <? Z.land b 128)
  | FZ => flag (0 <? Z.land b 64)
  | FAuthenticated => flag (0 <? Z.land b 32)
  | FDisabled => flag (0 <? Z.land b 16)
  | FRcode => Z.land b 15
  end.

Definition write_byte (x : field) (v b : Z) : Z :=
  match x with
  | FQuery => Z.lor (Z.land b 127) (bit (negb (v =? 1)) 128)
  | FOpcode => Z.lor (Z.land b 135) (wrap 8 (Z.shiftl v 3))
  | FAuthoritative => Z.lor (Z.land b 251) (bit (v =? 1) 4)
  | FTruncated => Z.lor (Z.land b 253) (bit (v =? 1) 2)
  | FDesired => Z.lor (Z.land b 254) (bit (v =? 1) 1)
  | FAvailable => Z.lor (Z.land b 127) (bit (v =? 1) 128)
  | FZ => Z.lor (Z.land b 191) (bit (v =? 1) 64)
  | FAuthenticated => Z.lor (Z.land b 223) (bit (v =? 1) 32)
  | FDisabled => Z.lor (Z.land b 239) (bit (v =? 1) 16)
  | FRcode => Z.lor (Z.land b 240) (Z.land v 15)
  end.

Lemma set_field_eq f x v :
  set_field f x v =
  Ret (mkFacade (alter (write_byte x v) (place x) (buf f)) (len f), (place x <? length (buf f))%nat).
Proof. by destruct x; simpl; apply set_byte_eq. Qed.

Lemma req_len_opt_eq {T} f n (c : outcome T) :
  (n <= len f)%nat -> (n <= length (buf f))%nat -> req_len_opt f n c = let* t := c in Ret (Some t).
Proof. intros. unfold req_len_opt. by rewrite !(proj2 (Nat.ltb_ge _ _)) by done. Qed.

Lemma get_field_eq f x b :
  (4 <= len f)%nat -> (4 <= length (buf f))%nat -> buf f !! place x = Some b ->
  get_field f x = Ret (Some (read_byte x b)).
Proof.
  intros Hl Hb Hx. destruct x; simpl in *;
    unfold is_query, get_opcode, is_authoritative_answer, is_truncated, is_recursion_desired,
      is_recursion_available, get_z, is_authenticated_data, is_checking_disabled, get_rcode;
    rewrite req_len_opt_eq by lia; unfold index; rewrite Hx; done.
Qed.

Lemma get_field_total f x : (12 < length (buf f))%nat -> exists r, get_field f x = Ret r.
Proof.
  intros Hb. destruct (index_ret (buf f) (place x)) as (b & Hi & _); [destruct x; simpl; lia|].
  destruct x; simpl in *;
    unfold is_query, get_opcode, is_authoritative_answer, is_truncated, is_recursion_desired,
      is_recursion_available, get_z, is_authenticated_data, is_checking_disabled, get_rcode, req_len_opt;
    rewrite Hi; destruct (_ || _); by eexists.
Qed.

Definition all_fields : list field :=
  [FQuery; FOpcode; FAuthoritative; FTruncated; FDesired; FAvailable; FZ; FAuthenticated; FDisabled; FRcode].

#[global] Instance field_eq_dec : EqDecision field.
Proof. solve_decision. Defined.

Definition field_check (x : field) (v b : Z) : bool :=
  negb (in_range x v) ||
  ((read_byte x (write_byte x v b) =? v) &&
   forallb (fun y => bool_decide (y = x) || negb (place y =? place x)%nat ||
                     (read_byte y (write_byte x v b) =? read_byte y b)) all_fields).

Definition every_value (x : field) (b : Z) : bool :=
  forallb (fun v => field_check x (Z.of_nat v) b) (seq 0 16).

Lemma field_checked x v b : uint 8 b -> in_range x v = true -> field_check x v b = true.
Proof.
  intros Hb Hv. assert (Hv16 : 0 <= v < 16).
  { unfold in_range, between in Hv. destruct x; lia. }
  apply (every_byte (every_value x)) in Hb; [|by destruct x; vm_compute].
  unfold every_value in Hb. rewrite forallb_forall in Hb. rewrite <- (Z2Nat.id v) by lia.
  apply Hb. apply in_seq. lia.
Qed.

(** ** Properties *)

(** A DNS request cannot take the entry DNS server down. Whatever bytes are in the buffer, as long
    as the packet takes up at most a seventh of it (9,362 bytes of the server's 65,536), processing
    it ends without a panic, keeps the buffer's size, and yields a response that lies within the
    buffer. *)
Lemma process_total `{!TrustDns} (b : bytes) (L : nat) :
  (12 < length b)%nat -> (7 * L <= length b)%nat ->
  exists b' n, process b L = Ret (b', n) /\ length b' = length b /\ (n < length b')%nat.
Proof.
  intros H12 H7. unfold process. set (f := mkFacade b L).
  destruct (get_field_total f FOpcode H12) as [r1 E1]. simpl in E1. rewrite E1. cbn [obind].
  destruct (get_queries_total f) as (r2 & -> & _); [unfold f; simpl; lia|]. cbn [obind].
  destruct (make_response_total f H12 H7) as (f' & n & -> & L' & Hn & Hlt). cbn [obind].
  assert (Hl' : length (buf f') = length b) by done.
  destruct (get_field_total f' FRcode) as [r3 E3]; [lia|]. simpl in E3. rewrite E3. cbn [obind].
  destruct (get_section_total f' 6 find_queries_end) as [r4 E4]; [simpl in *; lia| |].
  { destruct (find_queries_end_total f') as (r & -> & _); [simpl in *; lia|]. by eexists. }
  unfold get_answers. rewrite E4. cbn [obind]. eexists _, _. split_and!; [done|done|]. by rewrite L'.
Qed.

(** Each field of the DNS header is its own: setting one of the eight flags, the opcode or the
    response code to a value in its range, in a packet with a header, succeeds, makes reading the
    field yield that value, and changes the reading of none of the other nine. *)
Theorem dns_header_fields_independent (f : PacketFacade) (x : field) (v : Z) :
  (4 <= len f)%nat -> (4 <= length (buf f))%nat -> bytes_ok (buf f) -> in_range x v = true ->
  exists f', set_field f x v = Ret (f', true) /\ len f' = len f /\
    get_field f' x = Ret (Some v) /\
    forall y, y <> x -> get_field f' y = get_field f y.
Proof.
  intros Hl Hb Hok Hv. rewrite set_field_eq. rewrite (proj2 (Nat.ltb_lt _ _)) by (destruct x; simpl; lia).
  eexists. split; [done|]. split; [done|].
  assert (Hat : forall y, exists c, buf f !! place y = Some c /\ uint 8 c).
  { intros y. destruct (lookup_lt_is_Some_2 (buf f) (place y)) as [c Hc]; [destruct y; simpl; lia|].
    exists c. split; [done|]. by eapply Forall_lookup_1. }
  assert (Hset : forall y, (4 <= length (alter (write_byte x v) (place x) (buf f)))%nat)
    by (intros; by rewrite length_alter).
  destruct (Hat x) as (b & Hx & H8). pose proof (field_checked x v b H8 Hv) as Hchk.
  unfold field_check in Hchk. rewrite Hv in Hchk. simpl negb in Hchk.
  apply andb_true_iff in Hchk as [Hself Hothers]. split.
  - rewrite (get_field_eq _ x (write_byte x v b)); [|done|by apply Hset|].
    + do 2 f_equal. by apply Z.eqb_eq.
    + simpl. by rewrite list_lookup_alter_eq, Hx.
  - intros y Hne. destruct (Hat y) as (c & Hy & _). rewrite (get_field_eq f y c) by done.
    destruct (decide (place y = place x)) as [Heq|Hneq].
    + rewrite Heq, Hx in Hy. injection Hy as <-.
      rewrite (get_field_eq _ y (write_byte x v b)); [|done|by apply Hset|].
      2:{ simpl. by rewrite Heq, list_lookup_alter_eq, Hx. }
      rewrite forallb_forall in Hothers. specialize (Hothers y ltac:(destruct y; simpl; tauto)).
      rewrite bool_decide_eq_false_2, Heq, Nat.eqb_refl in Hothers by done. simpl in Hothers.
      do 2 f_equal. by apply Z.eqb_eq.
    + apply get_field_eq; [done|by apply Hset|]. simpl. by rewrite list_lookup_alter_ne.
Qed.

Lemma dns_header_fields_independent_witness :
  exists f', set_field (mkFacade [18; 52; 129; 128] 4) FRcode 3 = Ret (f', true) /\
    get_field f' FRcode = Ret (Some 3) /\ get_field f' FAvailable = Ret (Some 1).
Proof.
  destruct (dns_header_fields_independent (mkFacade [18; 52; 129; 128] 4) FRcode 3)
    as (f' & Hset & _ & Hget & Hothers); [simpl; lia..|by repeat constructor|done|].
  exists f'. split_and!; [done|done|]. by rewrite (Hothers FAvailable).
Defined.

(** What the flag bytes of a response say *)
Lemma response_byte x b :
  uint 8 b -> place x = 2%nat ->
  read_byte x (flags_of_response b) =
  match x with FQuery | FAuthoritative | FTruncated => 0 | _ => read_byte x b end.
Proof.
  intros Hb Hx. apply Z.eqb_eq. revert b Hb.
  destruct x; try done; apply every_byte; by vm_compute.
Qed.

Lemma response_byte2 x b :
  uint 8 b -> place x = 3%nat ->
  read_byte x (flags2_of_response b) =
  match x with FAvailable => 1 | FAuthenticated | FDisabled => 0 | _ => read_byte x b end.
Proof.
  intros Hb Hx. apply Z.eqb_eq. revert b Hb.
  destruct x; try done; apply every_byte; by vm_compute.
Qed.

(** The header of a response, given that of the request *)
Definition responds (f f' : PacketFacade) : Prop :=
  get_transaction_id f' = get_transaction_id f /\
  get_field f' FQuery = Ret (Some 0) /\ get_field f' FAuthoritative = Ret (Some 0) /\
  get_field f' FTruncated = Ret (Some 0) /\ get_field f' FAvailable = Ret (Some 1) /\
  get_field f' FAuthenticated = Ret (Some 0) /\ get_field f' FDisabled = Ret (Some 0) /\
  (forall x, x ∈ [FOpcode; FDesired; FZ; FRcode] -> get_field f' x = get_field f x).

Lemma u16_from_same b b' start L L' :
  (start + 2 <= L)%nat -> (start + 2 <= L')%nat ->
  (forall i, (start <= i < start + 2)%nat -> b' !! i = b !! i) ->
  u16_from b' start L' = u16_from b start L.
Proof.
  intros HL HL' Hs. unfold u16_from, index. rewrite !(proj2 (Nat.ltb_ge _ _)) by done.
  by rewrite !Hs by lia.
Qed.

Lemma response_header f f' :
  bytes_ok (buf f) -> (4 <= len f <= length (buf f))%nat -> (4 <= len f' <= length (buf f'))%nat ->
  (forall i, (i < 4)%nat -> buf f' !! i = respond (buf f) !! i) ->
  (exists rc, get_rcode f' = Ret (Some rc)) /\ responds f f'.
Proof.
  intros Hok Hf Hf' Hsame.
  destruct (lookup_lt_is_Some_2 (buf f) 2) as [b2 H2]; [lia|].
  destruct (lookup_lt_is_Some_2 (buf f) 3) as [b3 H3]; [lia|].
  assert (Hread : forall x, get_field f' x = Ret (Some (read_byte x
    (if (place x =? 2)%nat then flags_of_response b2 else flags2_of_response b3)))).
  { intros x. apply get_field_eq; [lia..|]. unfold respond in Hsame.
    destruct x; simpl; rewrite Hsame by lia;
      first [by rewrite list_lookup_alter_ne, list_lookup_alter_eq, H2 by done
            |by rewrite list_lookup_alter_eq, list_lookup_alter_ne, H3 by done]. }
  assert (Hread0 : forall x, get_field f x = Ret (Some (read_byte x (if (place x =? 2)%nat then b2 else b3)))).
  { intros x. apply get_field_eq; [lia..|]. by destruct x. }
  split; [eexists; apply (Hread FRcode)|].
  assert (Hb2 : uint 8 b2) by by eapply Forall_lookup_1. assert (Hb3 : uint 8 b3) by by eapply Forall_lookup_1.
  unfold responds. rewrite !Hread. simpl place. simpl Nat.eqb. cbv iota.
  split_and!; try (by rewrite (response_byte _ b2)); try (by rewrite (response_byte2 _ b3)).
  - apply u16_from_same; [lia..|]. intros i Hi. rewrite Hsame by lia. unfold respond.
    by rewrite !list_lookup_alter_ne by lia.
  - intros x Hx. rewrite Hread, Hread0. do 2 f_equal.
    repeat (apply elem_of_cons in Hx as [->|Hx]; [first [by apply response_byte|by apply response_byte2]|]).
    by apply not_elem_of_nil in Hx.
Qed.

(** C38: the entry DNS server answers every query with the local host. A request that consists of
    well-formed queries for Internet addresses (A or AAAA) and nothing else, with room in the buffer
    for the answers, is answered by a response with the same transaction id, the same queries in
    order, and for each of them, in order, one answer that gives 127.0.0.1 or ::1 for its name, for
    3600 seconds. The response is marked as one, as not authoritative, complete and with recursion
    available; opcode, recursion-desired flag and response code are the request's. *)
Theorem dns_answers_with_localhost `{!TrustDns} (b : bytes) (L : nat) (qs : list Query) :
  uint 16 class_in -> bytes_ok b ->
  packet (mkFacade b L) qs [] ->
  get_opcode (mkFacade b L) = Ret (Some opcode_query) ->
  Forall answerable qs ->
  (L + length (concat (map enc_rr (map answer_to qs))) <= length b)%nat ->
  exists b' n, process b L = Ret (b', n) /\
    let f := mkFacade b L in
    let f' := mkFacade b' n in
    get_queries f' = Ret (Some qs) /\ get_answers f' = Ret (Some (map answer_to qs)) /\ responds f f'.
Proof.
  intros Hin Hok Hpk Hop Hans Hroom. set (f := mkFacade b L) in *.
  pose proof (pk_len _ _ _ Hpk) as HL. pose proof (pk_fits _ _ _ Hpk) as Hfit.
  destruct (packet_reads _ _ _ Hpk) as (Hq0 & _ & _).
  pose proof (packet_respond f qs [] Hpk) as Hpk1. destruct (packet_reads _ _ _ Hpk1) as (Hq1 & _ & _).
  set (f1 := mkFacade (respond (buf f)) (len f)) in *.
  assert (L1 : length (buf f1) = length b) by (unfold f1, respond; simpl; by rewrite !length_alter).
  destruct (answer_queries_ok qs qs [] f1 Hin Hpk1) as (f' & Ha & Hpk' & L' & P').
  { by apply (pk_queries _ _ _ Hpk). } { done. } { by destruct (pk_few _ _ _ Hpk). } { simpl in *. lia. }
  destruct (packet_reads _ _ _ Hpk') as (Hq' & Ha' & _). pose proof (pk_len _ _ _ Hpk') as HL'.
  pose proof (pk_fits _ _ _ Hpk') as Hfit'. simpl app in *.
  destruct (response_header f f') as (Hrc & Hhdr); [done|simpl in *; lia..| |].
  { intros i Hi. by rewrite P'. }
  exists (buf f'), (len f'). split.
  { unfold process. fold f. rewrite Hop. cbn [obind]. rewrite Hq0. cbn [obind].
    unfold make_response. rewrite Hop. cbn [obind]. rewrite Z.eqb_refl. cbn [negb].
    rewrite set_all_response_flags by (simpl in *; lia). cbn [obind negb]. fold f1. rewrite Hq1. cbn [obind].
    rewrite Ha. cbn [obind]. destruct Hrc as [rc Hrc]. rewrite Hrc. cbn [obind].
    by rewrite Ha'. }
  replace (mkFacade (buf f') (len f')) with f' by by destruct f'. done.
Qed.

(** A request for the address of a.bc *)
Definition sample_query : Query := mkQuery [97; 46; 98; 99] 1 1 10.
Definition sample_request : bytes := [18; 52; 1; 0; 0; 1] ++ replicate 6 0 ++ enc_query sample_query ++ replicate 40 0.

Lemma dns_answers_with_localhost_witness :
  exists b' n, @process rfc_codes sample_request 22 = Ret (b', n) /\
    get_answers (mkFacade b' n) =
      Ret (Some [mkRecord [97; 46; 98; 99] 1 1 3600 [127; 0; 0; 1] 20]).
Proof.
  destruct (@dns_answers_with_localhost rfc_codes sample_request 22 [sample_query])
    as (b' & n & Hp & _ & Ha & _).
  - by vm_compute.
  - unfold bytes_ok. apply Forall_forall. intros x Hx. apply uintb_uint. revert x Hx.
    apply Forall_forall. by repeat constructor.
  - split; simpl; [by apply take_here; vm_compute..|done|vm_compute; lia| |done|by vm_compute].
    repeat constructor; simpl; try (by vm_compute); lia.
  - done.
  - by repeat constructor.
  - vm_compute. lia.
  - exists b', n. split; [done|]. rewrite Ha. by vm_compute.
Defined.

(** An answer is written over whatever follows the questions in the request. A request with an
    EDNS record among its additional records (as common resolvers send it) is answered by a packet
    that still announces an additional record and ends before it: the additional section of the
    request can be read, that of the response cannot. *)
Theorem edns_request_gets_malformed_response :
  let request := [18; 52; 1; 0; 0; 1; 0; 0; 0; 0; 0; 1] ++ enc_query (mkQuery [97; 98; 99] 1 1 9) ++
                 [0; 0; 41; 16; 0; 0; 0; 0; 0; 0; 0] in
  get_additionals (mkFacade (request ++ replicate 100 0) (length request)) =
    Ret (Some [mkRecord [] 41 4096 0 [] 11]) /\
  exists b' n, @process rfc_codes (request ++ replicate 100 0) (length request) = Ret (b', n) /\
    get_answers (mkFacade b' n) = Ret (Some [mkRecord [97; 98; 99] 1 1 3600 [127; 0; 0; 1] 19]) /\
    count_at (mkFacade b' n) 10 = Ret (Some 1%nat) /\
    get_additionals (mkFacade b' n) = Ret None.
Proof. split; [by vm_compute|]. eexists _, _. split_and!; by vm_compute. Qed.
