(* ===== verification/Accounts.v ===== *)
(** * Accounts: what a Node keeps in its database

    The tables of [database/db_initializer.rs] and the objects that read and write them:
    [config_dao.rs], [persistent_configuration.rs], [accountant/payable_dao.rs],
    [accountant/receivable_dao.rs] and [banned_dao.rs] with the ban cache in memory.

    A table is a map from its primary key. Wallets are stored as the text of their address, which
    reads back as a wallet with that address; here the key is the address itself. The SQL statements
    are translated into operations on the maps; SQLite itself is the class [Sqlite]: the order in
    which a query yields rows, and what a sum beyond 64 bits becomes. Statements do not fail, except
    for the violated constraint that the code provides for. Times are whole seconds since the epoch,
    which is what is stored; every reading of the clock is an argument. *)
From S2P Require Import Prelude Text SubLib Cryptde Wallet.
From Stdlib Require Import SpecFloat.

(** ** Machine integers and floating point *)
Definition I64_MAX : Z := 2 ^ 63 - 1.

Definition i64 (z : Z) : Prop := - 2 ^ 63 <= z < 2 ^ 63.
Definition i64b (z : Z) : bool := (- 2 ^ 63 <=? z) && (z <? 2 ^ 63).

(** [x as i64] *)
Definition as_i64 (z : Z) : Z := (z + 2 ^ 63) mod 2 ^ 64 - 2 ^ 63.

(** [i64::try_from] of a [u64] *)
Definition i64_try_from (z : Z) : option Z := if z <? 2 ^ 63 then Some z else None.

(** [u64::try_from] of an [i64] *)
Definition u64_try_from (z : Z) : option Z := if z <? 0 then None else Some z.

Abbreviation f64 := spec_float.
Definition f64_of (z : Z) : f64 := binary_normalize 53 1024 z 0 false.
Definition f64_add : f64 -> f64 -> f64 := SFadd 53 1024.
Definition f64_sub : f64 -> f64 -> f64 := SFsub 53 1024.
Definition f64_mul : f64 -> f64 -> f64 := SFmul 53 1024.
Definition f64_div : f64 -> f64 -> f64 := SFdiv 53 1024.
Definition f64_opp : f64 -> f64 := SFopp.
Definition f64_gtb (x y : f64) : bool := match SFcompare x y with Some Gt => true | _ => false end.

(** ** Times *)
(** A time before the epoch is [unimplemented!()]. *)
Definition to_time_t (t : Z) : outcome Z := if t <? 0 then Panic else Ret t.

(** A negative number of seconds becomes one too large to be added. *)
Definition from_time_t (t : Z) : outcome Z := if t <? 0 then Panic else Ret t.

(** ** SQLite *)
(** An integer column keeps the floating-point result of a sum that left the integers. *)
Inductive column (real : Type) := Integer (n : Z) | Real (r : real).
Arguments Integer {real}.
Arguments Real {real}.

Class Sqlite := {
  real : Type;
  add_beyond : column real -> Z -> column real;
  sub_beyond : column real -> Z -> column real;
  rows : forall {A}, gmap bytes A -> list (bytes * A);
  rows_perm : forall {A} (t : gmap bytes A), rows t ≡ₚ map_to_list t;
  real_gtb : real -> f64 -> bool;
  real_leb : real -> Z -> bool;
  real_gt_int : real -> Z -> bool
}.

(** ** The tables *)
Record PayableRow `{!Sqlite} := mkPayableRow {
  pr_balance : column real;
  pr_last_paid_timestamp : Z;
  pr_pending_payment_transaction : option bytes
}.

Record ReceivableRow `{!Sqlite} := mkReceivableRow {
  rr_balance : column real;
  rr_last_received_timestamp : Z
}.

Record Db `{!Sqlite} := mkDb {
  config : gmap str (option str);
  payable : gmap bytes PayableRow;
  receivable : gmap bytes ReceivableRow;
  banned : gset bytes
}.

Section tables.
Context `{!Sqlite}.

Definition set_config (c : gmap str (option str)) (db : Db) : Db := mkDb _ c (payable db) (receivable db) (banned db).
Definition set_payable (p : gmap bytes PayableRow) (db : Db) : Db := mkDb _ (config db) p (receivable db) (banned db).
Definition set_receivable (r : gmap bytes ReceivableRow) (db : Db) : Db := mkDb _ (config db) (payable db) r (banned db).
Definition set_banned (b : gset bytes) (db : Db) : Db := mkDb _ (config db) (payable db) (receivable db) b.

(** [balance + ?] and [balance - ?] *)
Definition sql_add (c : column real) (n : Z) : column real :=
  match c with
  | Integer b => if i64b (b + n) then Integer (b + n) else add_beyond c n
  | Real _ => add_beyond c n
  end.

Definition sql_sub (c : column real) (n : Z) : column real :=
  match c with
  | Integer b => if i64b (b - n) then Integer (b - n) else sub_beyond c n
  | Real _ => sub_beyond c n
  end.

(** [row.get] of an [i64]: a floating-point value is the wrong type, upon which every reader of these
    tables panics. *)
Definition get_i64 (c : column real) : outcome Z := match c with Integer n => Ret n | Real _ => Panic end.

(** ** config_dao *)
Inductive ConfigDaoError := NotPresent | TypeError | DatabaseError.

Definition try_get (db : Db) (name : str) : result str ConfigDaoError :=
  match config db !! name with
  | Some (Some value) => Ok value
  | Some None => Err NotPresent
  | None => Err DatabaseError
  end.

(** [handle_update_execution]: no row, no value *)
Definition config_try_update (db : Db) (name value : str) : result Db ConfigDaoError :=
  match config db !! name with
  | None => Err NotPresent
  | Some _ => Ok (set_config (<[name := Some value]> (config db)) db)
  end.

Definition get_string := try_get.
Definition set_string := config_try_update.

Definition get_u64 (db : Db) (name : str) : result Z ConfigDaoError :=
  let? s := get_string db name in
  match parse_uint 64 s with None => Err TypeError | Some v => Ok v end.

Definition set_u64 (db : Db) (name : str) (value : Z) : result Db ConfigDaoError :=
  set_string db name (dec value).

(** The same statement within a transaction *)
Definition set_u64_transactional (db : Db) (name : str) (value : Z) : result Db ConfigDaoError :=
  config_try_update db name (dec value).
End tables.

(** ** persistent_configuration *)

Inductive Bip39Error :=
  ConversionError | EncryptionFailure | DecryptionFailure | Bip39NotPresent | SerializationFailure
| DeserializationFailure.

(** What the configuration calls: whether a port can be bound to, encryption of the seed, which first draws bytes at
    random, derivation of a key pair from a seed, hexadecimal text, and reading a wallet from text. *)
Class ConfigLib := {
  can_bind : Z -> bool;
  encrypt_bytes : bytes -> bytes -> str -> result str Bip39Error;
  decrypt_bytes : str -> str -> result bytes Bip39Error;
  keypair_from_raw : bytes -> str -> option Bip32ECKeyPair;
  to_hex : bytes -> str;
  wallet_from_str : str -> option Wallet;
  to_lowercase : str -> str
}.

(** Of the encryption of the seed: whether it succeeds does not depend on what is drawn, and what was encrypted is decrypted under the
    same password. *)
Class SeedLaws `{!ConfigLib} : Prop := {
  seed_encrypts draw draw' seed password c : encrypt_bytes draw seed password = Ok c -> exists c', encrypt_bytes draw' seed password = Ok c';
  seed_decrypts draw seed password c : encrypt_bytes draw seed password = Ok c -> decrypt_bytes c password = Ok seed }.

Section config.
Context `{!Sqlite} `{!ConfigLib} `{!EthSign}.

Definition or_panic {A E} (r : result A E) : outcome A := expect_ok r.

(** [Ok] is present, [NotPresent] absent, and anything else a panic. *)
Definition optional_string (db : Db) (name : str) : outcome (option str) :=
  match get_string db name with
  | Ok s => Ret (Some s)
  | Err NotPresent => Ret None
  | Err _ => Panic
  end.

Definition current_schema_version (db : Db) : outcome str := or_panic (get_string db (lit "schema_version")).

Definition clandestine_port (db : Db) : outcome Z :=
  let* unchecked_port := or_panic (get_u64 db (lit "clandestine_port")) in
  if (unchecked_port <? NodeAddr.LOWEST_USABLE_INSECURE_PORT) || (NodeAddr.HIGHEST_USABLE_PORT <? unchecked_port) then Panic
  else if can_bind unchecked_port then Ret unchecked_port else Panic.

Definition set_clandestine_port (db : Db) (port : Z) : outcome Db :=
  if port <? NodeAddr.LOWEST_USABLE_INSECURE_PORT then Panic
  else or_panic (set_u64 db (lit "clandestine_port") port).

Definition gas_price (db : Db) : outcome Z := or_panic (get_u64 db (lit "gas_price")).

Definition set_gas_price (db : Db) (gas_price : Z) : outcome Db := or_panic (set_u64 db (lit "gas_price") gas_price).

Definition encrypted_mnemonic_seed (db : Db) : outcome (option str) := optional_string db (lit "seed").

Definition mnemonic_seed (db : Db) (wallet_password : str) : outcome (result bytes Bip39Error) :=
  let* ems := encrypted_mnemonic_seed db in
  Ret (match ems with None => Err Bip39NotPresent | Some ems => decrypt_bytes ems wallet_password end).

Definition set_mnemonic_seed (draw : bytes) (db : Db) (seed : bytes) (wallet_password : str) : outcome Db :=
  let* encrypted := expect_ok (encrypt_bytes draw seed wallet_password) in
  or_panic (set_string db (lit "seed") encrypted).

Definition KEY : str := lit "consuming_wallet_public_key".
Definition PATH : str := lit "consuming_wallet_derivation_path".

Definition consuming_wallet_public_key (db : Db) : outcome (option str) :=
  match get_string db KEY, get_string db PATH with
  | Err NotPresent, Err NotPresent => Ret None
  | Ok key_enc, Err NotPresent => Ret (Some key_enc)
  | Err NotPresent, Ok _ => Ret None
  | _, _ => Panic
  end.

Definition consuming_wallet_derivation_path (db : Db) : outcome (option str) :=
  match get_string db KEY, get_string db PATH with
  | Err NotPresent, Err NotPresent => Ret None
  | Ok _, Err NotPresent => Ret None
  | Err NotPresent, Ok path => Ret (Some path)
  | _, _ => Panic
  end.

Definition set_consuming_wallet_derivation_path (db : Db) (derivation_path wallet_password : str) : outcome Db :=
  match get_string db KEY, get_string db PATH with
  | Err NotPresent, Err NotPresent => expect_ok (set_string db PATH derivation_path)
  | Ok private_public_key, Err NotPresent =>
      let* r := mnemonic_seed db wallet_password in
      let* seed := expect_ok r in
      let* keypair := expect (keypair_from_raw seed derivation_path) in
      if bool_decide (private_public_key = to_hex (eth_public (kp_secret keypair))) then Ret db else Panic
  | Err NotPresent, Ok existing_path => if bool_decide (derivation_path = existing_path) then Ret db else Panic
  | _, _ => Panic
  end.

Definition set_consuming_wallet_public_key (db : Db) (public_key : bytes) : outcome Db :=
  let public_key_text := to_hex public_key in
  match get_string db KEY, get_string db PATH with
  | Err NotPresent, Err NotPresent => expect_ok (set_string db KEY public_key_text)
  | Ok existing, Err NotPresent => if bool_decide (public_key_text = existing) then Ret db else Panic
  | _, _ => Panic
  end.

Definition EARNING : str := lit "earning_wallet_address".

Definition earning_wallet_from_address (db : Db) : outcome (option Wallet) :=
  let* a := optional_string db EARNING in
  match a with
  | None => Ret None
  | Some address => let* w := expect (wallet_from_str address) in Ret (Some w)
  end.

Definition earning_wallet_address (db : Db) : outcome (option str) := optional_string db EARNING.

Definition set_earning_wallet_address (db : Db) (address : str) : outcome Db :=
  let* _ := expect (wallet_from_str address) in
  match get_string db EARNING with
  | Ok existing => if bool_decide (to_lowercase address = to_lowercase existing) then Ret db else Panic
  | Err _ => or_panic (set_string db EARNING address)
  end.

Definition start_block (db : Db) : outcome Z := or_panic (get_u64 db (lit "start_block")).

Definition set_start_block_transactionally (db : Db) (value : Z) : outcome (result Db unit) :=
  match set_u64_transactional db (lit "start_block") value with
  | Ok db' => Ret (Ok db')
  | Err DatabaseError => Ret (Err tt)
  | Err _ => Panic
  end.
End config.

(** ** payable_dao *)
Record PayableAccount := mkPayableAccount {
  pa_wallet : Wallet;
  pa_balance : Z;
  pa_last_paid_timestamp : Z;
  pa_pending_payment_transaction : option bytes
}.

Record Payment := mkPayment {
  pay_to : Wallet;
  pay_amount : Z;
  pay_timestamp : Z;
  pay_transaction : bytes
}.

Definition payment_new (now : Z) (to : Wallet) (amount : Z) (transaction : bytes) : Payment :=
  mkPayment to amount now transaction.

Section payable_dao.
Context `{!Sqlite} `{!EthSign}.

(** [insert ... on conflict (wallet_address) do update set balance = balance + :balance]: the time and
    the pending transaction of an existing row stay. *)
Definition try_increase_balance (now : Z) (db : Db) (wallet : Wallet) (amount : Z) : outcome Db :=
  let* key := address wallet in
  let* balance := expect (i64_try_from amount) in
  let row := match payable db !! key with
             | None => mkPayableRow _ (Integer balance) now None
             | Some r => mkPayableRow _ (sql_add (pr_balance r) balance) (pr_last_paid_timestamp r)
                           (pr_pending_payment_transaction r)
             end in
  Ret (set_payable (<[key := row]> (payable db)) db).

Definition more_money_payable := try_increase_balance.

(** [insert ... on conflict (wallet_address) do update set balance = balance - :balance, ...] *)
Definition try_decrease_balance (db : Db) (wallet : Wallet) (amount last_paid_timestamp : Z)
    (transaction_hash : bytes) : outcome Db :=
  let* balance := expect (i64_try_from amount) in
  let* last_paid := to_time_t last_paid_timestamp in
  let* key := address wallet in
  let row := match payable db !! key with
             | None => mkPayableRow _ (sql_sub (Integer 0) balance) last_paid (Some transaction_hash)
             | Some r => mkPayableRow _ (sql_sub (pr_balance r) balance) last_paid (Some transaction_hash)
             end in
  Ret (set_payable (<[key := row]> (payable db)) db).

Definition payment_sent (db : Db) (payment : Payment) : outcome Db :=
  try_decrease_balance db (pay_to payment) (pay_amount payment) (pay_timestamp payment) (pay_transaction payment).

(** [unimplemented!()] *)
Definition payment_confirmed (db : Db) (wallet : Wallet) (amount confirmation_noticed_timestamp : Z)
    (transaction_hash : bytes) : outcome Db := Panic.

Definition payable_account_status (db : Db) (wallet : Wallet) : outcome (option PayableAccount) :=
  let* key := address wallet in
  match payable db !! key with
  | None => Ret None
  | Some r =>
      let* balance := get_i64 (pr_balance r) in
      let* last_paid := from_time_t (pr_last_paid_timestamp r) in
      Ret (Some (mkPayableAccount wallet balance last_paid (pr_pending_payment_transaction r)))
  end.

Definition payable_account (row : bytes * PayableRow) : outcome PayableAccount :=
  let (key, r) := row in
  let* balance := get_i64 (pr_balance r) in
  let* last_paid := from_time_t (pr_last_paid_timestamp r) in
  Ret (mkPayableAccount (mkWallet (Address key)) balance last_paid None).

(** [where pending_payment_transaction is null] *)
Definition non_pending_payables (db : Db) : outcome (list PayableAccount) :=
  omapM payable_account
    (filter (fun row => pr_pending_payment_transaction row.2 = None) (rows (payable db))).
End payable_dao.

(** ** receivable_dao *)
Record ReceivableAccount := mkReceivableAccount {
  ra_wallet : Wallet;
  ra_balance : Z;
  ra_last_received_timestamp : Z
}.

Record Transaction := mkTransaction { block_number : Z; tx_from : Wallet; gwei_amount : Z }.

Record PaymentCurves := mkPaymentCurves {
  payment_suggested_after_sec : Z;
  payment_grace_before_ban_sec : Z;
  permanent_debt_allowed_gwub : Z;
  balance_to_decrease_from_gwub : Z;
  balance_decreases_for_sec : Z;
  unban_when_balance_below_gwub : Z
}.

Definition sugg_and_grace (c : PaymentCurves) (now : Z) : Z :=
  as_i64 (as_i64 (now - payment_suggested_after_sec c) - payment_grace_before_ban_sec c).

Definition sugg_thru_decreasing (c : PaymentCurves) (now : Z) : Z :=
  as_i64 (sugg_and_grace c now - balance_decreases_for_sec c).

Section receivable_dao.
Context `{!Sqlite} `{!ConfigLib} `{!EthSign}.

(** How many rows did the update change? *)
Definition receivable_try_update (db : Db) (wallet : Wallet) (amount : Z) : outcome (Db * bool) :=
  let* key := address wallet in
  match receivable db !! key with
  | None => Ret (db, false)
  | Some r =>
      Ret (set_receivable (<[key := mkReceivableRow _ (sql_add (rr_balance r) (as_i64 amount))
                                      (rr_last_received_timestamp r)]> (receivable db)) db, true)
  end.

(** Only called where there is no row *)
Definition try_insert (now : Z) (db : Db) (wallet : Wallet) (amount : Z) : outcome Db :=
  let* timestamp := to_time_t now in
  let* key := address wallet in
  match receivable db !! key with
  | Some _ => Panic
  | None => Ret (set_receivable (<[key := mkReceivableRow _ (Integer (as_i64 amount)) timestamp]> (receivable db)) db)
  end.

Definition more_money_receivable (now : Z) (db : Db) (wallet : Wallet) (amount : Z) : outcome Db :=
  let* (db', updated) := receivable_try_update db wallet amount in
  if updated : bool then Ret db' else try_insert now db' wallet amount.

(** [update receivable set balance = balance - ?, last_received_timestamp = ? where wallet_address = ?] *)
Definition receive_one (now : Z) (db : Db) (transaction : Transaction) : outcome Db :=
  let* timestamp := to_time_t now in
  let* key := address (tx_from transaction) in
  match receivable db !! key with
  | None => Ret db
  | Some r =>
      Ret (set_receivable (<[key := mkReceivableRow _ (sql_sub (rr_balance r) (as_i64 (gwei_amount transaction)))
                                      timestamp]> (receivable db)) db)
  end.

Definition max_block (payments : list Transaction) : option Z :=
  match payments with
  | [] => None
  | t :: ts => Some (fold_right Z.max (block_number t) (map block_number ts))
  end.

(** All of it is one transaction of the database: on [Err] nothing has changed. *)
Definition try_multi_insert_payment (now : Z) (db : Db) (payments : list Transaction)
  : outcome (result Db unit) :=
  match max_block payments with
  | None => Ret (Err tt)
  | Some block =>
      let* r := set_start_block_transactionally db block in
      match r with
      | Err e => Ret (Err e)
      | Ok db' => let* db'' := ofold (receive_one now) db' payments in Ret (Ok db'')
      end
  end.

Definition more_money_received (now : Z) (db : Db) (payments : list Transaction) : outcome Db :=
  let* r := try_multi_insert_payment now db payments in
  Ret (match r with Ok db' => db' | Err _ => db end).

Definition row_to_account (row : bytes * ReceivableRow) : outcome ReceivableAccount :=
  let (key, r) := row in
  let* balance := get_i64 (rr_balance r) in
  let* last_received := from_time_t (rr_last_received_timestamp r) in
  Ret (mkReceivableAccount (mkWallet (Address key)) balance last_received).

Definition receivable_account_status (db : Db) (wallet : Wallet) : outcome (option ReceivableAccount) :=
  let* key := address wallet in
  match receivable db !! key with
  | None => Ret None
  | Some r => let* a := row_to_account (key, r) in Ret (Some a)
  end.

Definition receivables (db : Db) : outcome (list ReceivableAccount) := omapM row_to_account (rows (receivable db)).

(** Comparisons of the balance column in the [where] clauses *)
Definition balance_gt (c : column real) (limit : f64) : bool :=
  match c with Integer b => f64_gtb (f64_of b) limit | Real r => real_gtb r limit end.

Definition balance_gt_int (c : column real) (limit : Z) : bool :=
  match c with Integer b => limit <? b | Real r => real_gt_int r limit end.

Definition balance_le (c : column real) (limit : Z) : bool :=
  match c with Integer b => b <=? limit | Real r => real_leb r limit end.

Definition slope (curves : PaymentCurves) : f64 :=
  f64_div (f64_sub (f64_of (permanent_debt_allowed_gwub curves)) (f64_of (balance_to_decrease_from_gwub curves)))
    (f64_of (balance_decreases_for_sec curves)).

(** The [where] clause of [new_delinquencies], but for the join with the banned wallets *)
Definition is_delinquency (curves : PaymentCurves) (now : Z) (r : ReceivableRow) : bool :=
  (rr_last_received_timestamp r <? sugg_and_grace curves now) &&
  balance_gt (rr_balance r)
    (f64_add (f64_of (balance_to_decrease_from_gwub curves))
       (f64_mul (slope curves) (f64_of (as_i64 (sugg_and_grace curves now - rr_last_received_timestamp r))))) &&
  balance_gt_int (rr_balance r) (permanent_debt_allowed_gwub curves).

Definition new_delinquencies (db : Db) (system_now : Z) (curves : PaymentCurves) : outcome (list ReceivableAccount) :=
  let* now := to_time_t system_now in
  omapM row_to_account
    (filter (fun row => is_delinquency curves now row.2 = true /\ row.1 ∉ banned db) (rows (receivable db))).

Definition paid_delinquencies (db : Db) (curves : PaymentCurves) : outcome (list ReceivableAccount) :=
  omapM row_to_account
    (filter (fun row => balance_le (rr_balance row.2) (unban_when_balance_below_gwub curves) = true /\
                        row.1 ∈ banned db) (rows (receivable db))).
End receivable_dao.

(** ** banned_dao: the table and the cache in memory *)
Section banned_dao.
Context `{!Sqlite} `{!EthSign}.

Definition load (db : Db) (cache : BannedCache) : outcome BannedCache :=
  ofold (fun c key => ban_insert c (mkWallet (Address key))) cache (elements (banned db)).

Definition ban_list (db : Db) : list Wallet := map (fun key => mkWallet (Address key)) (elements (banned db)).

(** An insertion that violates the primary key only adds to the cache. *)
Definition ban (db : Db) (cache : BannedCache) (wallet : Wallet) : outcome (Db * BannedCache) :=
  let* already := is_banned cache wallet in
  if already : bool then Ret (db, cache) else
  let* key := address wallet in
  let* cache' := ban_insert cache wallet in
  Ret (set_banned ({[key]} ∪ banned db) db, cache').

Definition unban (db : Db) (cache : BannedCache) (wallet : Wallet) : outcome (Db * BannedCache) :=
  let* already := is_banned cache wallet in
  if negb already then Ret (db, cache) else
  let* key := address wallet in
  let* cache' := ban_remove cache wallet in
  Ret (set_banned (banned db ∖ {[key]}) db, cache').
End banned_dao.

(** ** db_initializer *)
Definition CURRENT_SCHEMA_VERSION : str := lit "0.0.9".
Definition DEFAULT_GAS_PRICE : str := lit "1".

(** The configuration of a new database; the port is chosen at random among those free. *)
Definition initialize_config (chain_id port : Z) : gmap str (option str) :=
  list_to_map
    [(lit "clandestine_port", Some (dec port)); (PATH, None); (KEY, None); (EARNING, None);
     (lit "schema_version", Some CURRENT_SCHEMA_VERSION); (lit "seed", None);
     (lit "start_block", Some (dec (contract_creation_block_from_chain_id chain_id)));
     (lit "gas_price", Some DEFAULT_GAS_PRICE)].

Definition create_database_tables `{!Sqlite} (chain_id port : Z) : Db :=
  mkDb _ (initialize_config chain_id port) ∅ ∅ ∅.

Inductive InitializationError := IncompatibleVersion.

Definition check_version (version : option (option str)) : result unit InitializationError :=
  match version with
  | None => Err IncompatibleVersion
  | Some None => Err IncompatibleVersion
  | Some (Some v) => if bool_decide (v = CURRENT_SCHEMA_VERSION) then Ok tt else Err IncompatibleVersion
  end.

(** ** The configuration stays consistent *)
Definition NAMES : list str :=
  [lit "clandestine_port"; PATH; KEY; EARNING; lit "schema_version"; lit "seed"; lit "start_block"; lit "gas_price"].

(** What can be done to the configuration of a Node *)
Inductive config_op :=
| SetClandestinePort (port : Z)
| SetGasPrice (price : Z)
| SetMnemonicSeed (draw seed : bytes) (password : str)
| SetDerivationPath (path password : str)
| SetPublicKey (key : bytes)
| SetEarningWallet (address : str)
| SetStartBlock (block : Z).

Section consistency.
Context `{!Sqlite} `{!ConfigLib} `{!EthSign}.

Definition config_apply (db : Db) (op : config_op) : outcome Db :=
  match op with
  | SetClandestinePort port => set_clandestine_port db port
  | SetGasPrice price => set_gas_price db price
  | SetMnemonicSeed draw seed password => set_mnemonic_seed draw db seed password
  | SetDerivationPath path password => set_consuming_wallet_derivation_path db path password
  | SetPublicKey key => set_consuming_wallet_public_key db key
  | SetEarningWallet address => set_earning_wallet_address db address
  | SetStartBlock block =>
      let* r := set_start_block_transactionally db block in
      match r with Ok db' => Ret db' | Err _ => Ret db end
  end.

Record config_ok (db : Db) : Prop := {
  names_present name : name ∈ NAMES -> is_Some (config db !! name);
  one_consuming_wallet : config db !! KEY = Some None \/ config db !! PATH = Some None
}.

(** A value that is set once for all *)
Definition lasting (name : str) (db db' : Db) : Prop :=
  forall v, config db !! name = Some (Some v) -> config db' !! name = Some (Some v).

Definition evolves (db db' : Db) : Prop :=
  config_ok db' /\ lasting KEY db db' /\ lasting PATH db db' /\ lasting EARNING db db'.

Lemma evolves_refl db : config_ok db -> evolves db db.
Proof. intros Hok. unfold evolves, lasting. auto. Qed.

Lemma set_string_ok db name value db' :
  set_string db name value = Ok db' ->
  is_Some (config db !! name) /\ db' = set_config (<[name := Some value]> (config db)) db.
Proof. unfold set_string, config_try_update. destruct (config db !! name); [|done]. intros [= <-]. by split. Qed.

Lemma evolves_set db name value db' :
  config_ok db -> set_string db name value = Ok db' ->
  (name = KEY -> config db !! KEY = Some None /\ config db !! PATH = Some None) ->
  (name = PATH -> config db !! KEY = Some None /\ config db !! PATH = Some None) ->
  (name = EARNING -> config db !! EARNING = Some None) -> evolves db db'.
Proof.
  intros [Hn Hone] [_ ->]%set_string_ok Hk Hp He. unfold evolves, lasting. cbn [config set_config].
  assert (Hlast : forall n, (name = n -> config db !! n = Some None) ->
    forall v, config db !! n = Some (Some v) -> <[name := Some value]> (config db) !! n = Some (Some v)).
  { intros n Hno v Hv. destruct (decide (name = n)) as [->|]; [rewrite Hno in Hv; [done|done]|by rewrite lookup_insert_ne]. }
  split; [constructor|].
  - intros n Hin. cbn [config set_config]. destruct (decide (name = n)) as [->|]; [by rewrite lookup_insert_eq|].
    rewrite lookup_insert_ne by done. by apply Hn.
  - cbn [config set_config]. destruct (decide (name = KEY)) as [->|HneK].
    + right. rewrite lookup_insert_ne by done. by apply Hk.
    + destruct (decide (name = PATH)) as [->|HneP]; [left|]; rewrite !lookup_insert_ne by done; [by apply Hp|done].
  - split_and!; apply Hlast; intros ->; [by apply Hk|by apply Hp|by apply He].
Qed.

Lemma get_string_absent db name : get_string db name = Err NotPresent -> config db !! name = Some None.
Proof. unfold get_string, try_get. by destruct (config db !! name) as [[]|]. Qed.

Lemma config_apply_ok db op db' : config_ok db -> config_apply db op = Ret db' -> evolves db db'.
Proof.
  intros Hok. destruct op as [p|g|draw seed pw|path pw|key|a|b]; cbn [config_apply].
  - unfold set_clandestine_port. case_match; [done|]. intros E%expect_ok_ret. by eapply evolves_set.
  - intros E%expect_ok_ret. by eapply evolves_set.
  - unfold set_mnemonic_seed. intros (e & _ & E%expect_ok_ret)%obind_ret_inv. by eapply evolves_set.
  - unfold set_consuming_wallet_derivation_path.
    destruct (get_string db KEY) as [k|[| |]] eqn:Ek, (get_string db PATH) as [q|[| |]] eqn:Ep; try done.
    + intros E. unbind. case_bool_decide; unbind. by apply evolves_refl.
    + case_bool_decide; intros; simplify_eq. by apply evolves_refl.
    + apply get_string_absent in Ek, Ep. intros E%expect_ok_ret. by eapply evolves_set.
  - unfold set_consuming_wallet_public_key.
    destruct (get_string db KEY) as [k|[| |]] eqn:Ek, (get_string db PATH) as [q|[| |]] eqn:Ep; try done.
    + case_bool_decide; intros; simplify_eq. by apply evolves_refl.
    + apply get_string_absent in Ek, Ep. intros E%expect_ok_ret. by eapply evolves_set.
  - unfold set_earning_wallet_address. intros (w & _ & E)%obind_ret_inv.
    destruct (get_string db EARNING) as [e|e] eqn:Ee.
    + case_bool_decide; simplify_eq. by apply evolves_refl.
    + apply expect_ok_ret in E. eapply evolves_set; [done..|]. intros _. unfold get_string, try_get in Ee.
      destruct (names_present db Hok EARNING) as [v Hv]; [by do 3 right; left|]. rewrite Hv in Ee. rewrite Hv.
      by destruct v.
  - unfold set_start_block_transactionally, set_u64_transactional. fold (set_string db (lit "start_block") (dec b)).
    change (config_try_update db) with (set_string db).
    destruct (set_string db (lit "start_block") (dec b)) as [d|[| |]] eqn:E; cbn [obind]; intros; simplify_eq.
    + by eapply evolves_set.
    + by apply evolves_refl.
Qed.

Lemma config_run_ok ops db db' : config_ok db -> ofold config_apply db ops = Ret db' -> evolves db db'.
Proof.
  intros Hok. apply (ofold_inv (evolves db)); [|by apply evolves_refl].
  intros d op d' _ (Hd & Hk & Hp & He) Hop. destruct (config_apply_ok d op d' Hd Hop) as (Hd' & Hk' & Hp' & He').
  split; [done|]. split_and!; intros v Hv; auto.
Qed.

Lemma initial_config_ok chain_id port : config_ok (create_database_tables chain_id port).
Proof.
  constructor; [|by left]. intros name Hin. unfold NAMES in Hin.
  repeat (apply elem_of_cons in Hin as [->|Hin]; [by eexists|]). by apply not_elem_of_nil in Hin.
Qed.
End consistency.

(** ** An engine to evaluate with: sums beyond 64 bits are kept as they are *)
Definition toy_sqlite : Sqlite.
Proof.
  refine {| real := Z;
    add_beyond c n := Real (match c with Integer b => b + n | Real r => r + n end);
    sub_beyond c n := Real (match c with Integer b => b - n | Real r => r - n end);
    rows A t := map_to_list t;
    real_gtb r x := f64_gtb (f64_of r) x;
    real_leb r z := r <=? z;
    real_gt_int r z := z <? r |}.
  done.
Defined.

Definition toy_config_lib : ConfigLib := {|
  can_bind _ := true;
  encrypt_bytes draw seed password := Ok (map ascii_of_code seed);
  decrypt_bytes s password := Ok (map ascii_code s);
  keypair_from_raw seed path := Some (mkKeyPair seed seed);
  to_hex b := map ascii_of_code b;
  wallet_from_str s := Some (mkWallet (Address (map ascii_code s)));
  to_lowercase s := map lower s
|}.

(** ** Properties *)

(** the configuration of a Node stays consistent whatever is done to it in whatever order, as long as
    nothing panics: every value keeps its place, at most one of the consuming wallet's public key and
    derivation path is set, so that both can always be asked for, and neither of them nor the earning
    wallet's address, once set, ever changes. *)
Theorem configuration_stays_consistent `{!Sqlite} `{!ConfigLib} `{!EthSign} (ops : list config_op) (db db' : Db) :
  config_ok db -> ofold config_apply db ops = Ret db' ->
  config_ok db' /\
  (exists key path, consuming_wallet_public_key db' = Ret key /\ consuming_wallet_derivation_path db' = Ret path /\
     (key = None \/ path = None)) /\
  (forall key, consuming_wallet_public_key db = Ret (Some key) -> consuming_wallet_public_key db' = Ret (Some key)) /\
  (forall path, consuming_wallet_derivation_path db = Ret (Some path) ->
     consuming_wallet_derivation_path db' = Ret (Some path)) /\
  (forall a, earning_wallet_address db = Ret (Some a) -> earning_wallet_address db' = Ret (Some a)).
Proof.
  intros Hok Hrun. destruct (config_run_ok ops db db' Hok Hrun) as (Hok' & Hk & Hp & He).
  destruct (names_present db' Hok' KEY) as [k' Ek']; [by do 2 right; left|].
  destruct (names_present db' Hok' PATH) as [p' Ep']; [right; left|].
  pose proof (one_consuming_wallet db' Hok') as Hone. rewrite Ek', Ep' in Hone. unfold lasting in *.
  unfold consuming_wallet_public_key, consuming_wallet_derivation_path, earning_wallet_address, optional_string,
    get_string, try_get in *. rewrite Ek', Ep' in *. split; [done|]. split.
  { destruct k' as [k'|], p' as [p'|]; [by destruct Hone|exists (Some k'), None|exists None, (Some p')|exists None, None];
      split_and!; auto. }
  split; [|split].
  - intros key. destruct (config db !! KEY) as [[k|]|], (config db !! PATH) as [[q|]|]; try done.
    intros [= ->]. specialize (Hk key eq_refl). simplify_eq. destruct p'; [by destruct Hone|done].
  - intros path. destruct (config db !! KEY) as [[k|]|], (config db !! PATH) as [[q|]|]; try done.
    intros [= ->]. specialize (Hp path eq_refl). simplify_eq. destruct k'; [by destruct Hone|done].
  - intros a. destruct (config db !! EARNING) as [[e|]|]; try done. intros [= ->]. by rewrite (He a eq_refl).
Qed.

Definition toy_config_run : outcome (@Db toy_sqlite) :=
  @ofold config_op (@Db toy_sqlite) (@config_apply toy_sqlite toy_config_lib toy_eth)
    (@create_database_tables toy_sqlite 1 5000)
    [SetGasPrice 20; SetPublicKey [1; 2; 3]; SetEarningWallet (lit "0xAb"); SetEarningWallet (lit "0xab")].

Lemma toy_config_run_ret : exists db', toy_config_run = Ret db'.
Proof.
  assert (match toy_config_run with Ret _ => true | _ => false end = true) as E by (vm_compute; reflexivity).
  destruct toy_config_run as [db'| |]; [by exists db'|done..].
Qed.

Lemma configuration_stays_consistent_witness :
  exists db', toy_config_run = Ret db' /\ @config_ok toy_sqlite db'.
Proof.
  destruct toy_config_run_ret as [db' E]. exists db'. split; [exact E|].
  exact (proj1 (@configuration_stays_consistent toy_sqlite toy_config_lib toy_eth _ _ db'
    (@initial_config_ok toy_sqlite 1 5000) E)).
Defined.
