(* ===== verification/Blockchain.v ===== *)
(** * Blockchain: transactions, the interface to the chain, and the bridge

    [blockchain/raw_transaction.rs], the operations of [blockchain/blockchain_interface.rs] and the
    actor [blockchain/blockchain_bridge.rs]. The web3 crate and the chain behind it are the class
    [Web3], whose state is threaded through the calls; RLP encoding is the class [Rlp]; the big
    integers of these crates are unbounded here, with the checks the code makes. *)
From S2P Require Import Prelude Text Cryptde Wallet Accounts.

(** ** raw_transaction *)
Inductive RlpItem := RlpUint (n : Z) | RlpBytes (b : bytes).

Class Rlp := { rlp_list : list RlpItem -> bytes }.

Record RawTransaction := mkRawTransaction {
  tx_nonce : Z;
  tx_to : option bytes;
  tx_value : Z;
  tx_gas_price : Z;
  tx_gas_limit : Z;
  tx_data : bytes
}.

Section raw.
Context `{!Rlp} `{!EthSign} (keccak256 : bytes -> bytes).

Definition encode (self : RawTransaction) : list RlpItem :=
  [RlpUint (tx_nonce self); RlpUint (tx_gas_price self); RlpUint (tx_gas_limit self);
   match tx_to self with Some t => RlpBytes t | None => RlpBytes [] end;
   RlpUint (tx_value self); RlpBytes (tx_data self)].

Definition tx_hash (self : RawTransaction) (chain_id : Z) : bytes :=
  keccak256 (rlp_list (encode self ++ [RlpBytes [chain_id]; RlpUint 0; RlpUint 0])).

(** The recovery id is a [u8]. *)
Definition ecdsa_sign (hash : bytes) (wallet : Wallet) (chain_id : Z) : outcome Signature :=
  match wallet_sign wallet hash with
  | Ok s => Ret (mkSignature (wrap 8 (sig_v s + wrap 8 (chain_id * 2) + 35)) (sig_r s) (sig_s s))
  | Err _ => Panic
  end.

Definition raw_sign (self : RawTransaction) (wallet : Wallet) (chain_id : Z) : outcome bytes :=
  let hash := tx_hash self chain_id in
  let* sig := ecdsa_sign hash wallet chain_id in
  Ret (rlp_list (encode self ++ [RlpUint (sig_v sig); RlpBytes (sig_r sig); RlpBytes (sig_s sig)])).
End raw.

(** ** blockchain_interface *)
Inductive BlockchainError := InvalidUrl | BInvalidAddress | InvalidResponse | QueryFailed | TransactionFailed.

Definition TRANSACTION_LITERAL : bytes :=
  [0xdd; 0xf2; 0x52; 0xad; 0x1b; 0xe2; 0xc8; 0x9b; 0x69; 0xc2; 0xb0; 0x68; 0xfc; 0x37; 0x8d; 0xaa;
   0x95; 0x2b; 0xa7; 0xf1; 0x63; 0xc4; 0xa1; 0x16; 0x28; 0xf5; 0x5a; 0x4d; 0xf5; 0x23; 0xb3; 0xef].

Definition TRANSFER_METHOD_ID : bytes := [0xa9; 0x05; 0x9c; 0xbb].

Definition GWEI : Z := 1000000000.

(** [U256::from] of a slice and [to_big_endian] *)
Definition from_big_endian (b : bytes) : Z := fold_left (fun v d => v * 256 + d) b 0.

Fixpoint to_big_endian (n : nat) (v : Z) : bytes :=
  match n with O => [] | S n' => to_big_endian n' (v / 256) ++ [v mod 256] end.

Definition to_gwei (wei : Z) : option Z :=
  let gwei := wei / GWEI in if gwei <? 2 ^ 64 then Some gwei else None.

Definition to_wei (gwub : Z) : outcome Z :=
  let wei := gwub * GWEI in if wei <? 2 ^ 256 then Ret wei else Panic.

Record Log := mkLog { log_topics : list bytes; log_data : bytes; log_block_number : option Z }.

(** From the given block to the latest, by the contract and the first and third topic *)
Record Filter := mkFilter {
  filter_address : bytes;
  filter_from_block : Z;
  filter_topic0 : bytes;
  filter_topic2 : bytes
}.

Class Web3 := {
  chain : Type;
  logs : chain -> Filter -> option (list Log);
  transaction_count : chain -> bytes -> option Z;
  eth_balance : chain -> bytes -> option Z;
  (** [balanceOf] of the contract at the first address, for the second *)
  token_balance : chain -> bytes -> bytes -> option Z;
  send_raw_transaction : chain -> bytes -> chain * option bytes
}.

(** The trait [BlockchainInterface] *)
Class BlockchainInterface `{!Web3} := {
  interface_contract_address : bytes;
  retrieve_transactions : chain -> Z -> Wallet -> outcome (result (list Transaction) BlockchainError);
  send_transaction : chain -> Wallet -> Wallet -> Z -> Z -> Z -> outcome (chain * result bytes BlockchainError);
  get_eth_balance : chain -> Wallet -> outcome (result Z BlockchainError);
  get_token_balance : chain -> Wallet -> outcome (result Z BlockchainError);
  get_transaction_count : chain -> Wallet -> outcome (result Z BlockchainError)
}.

(** The trait's own method *)
Definition get_balances `{!Web3} `{!BlockchainInterface} (c : chain) (address : Wallet)
  : outcome (result Z BlockchainError * result Z BlockchainError) :=
  let* eth := get_eth_balance c address in
  let* token := get_token_balance c address in
  Ret (eth, token).

(** [H256::from(Address)] *)
Definition address_topic (a : bytes) : bytes := replicate 12 0 ++ a.

(** [Wallet::from(H256)] *)
Definition wallet_from_topic (t : bytes) : Wallet := mkWallet (Address (take 20 (drop 12 t))).

Section interfaces.
Context `{!Web3} `{!Rlp} `{!EthSign} (keccak256 : bytes -> bytes) (chain_id : Z).

(** *** BlockchainInterfaceClandestine: no service URL *)
Definition clandestine_interface : BlockchainInterface := {|
  interface_contract_address := contract_address chain_id;
  retrieve_transactions _ _ _ := Ret (Err TransactionFailed);
  send_transaction c _ _ _ _ _ := Ret (c, Err TransactionFailed);
  get_eth_balance _ _ := Ret (Ok 0);
  get_token_balance _ _ := Ret (Ok 0);
  get_transaction_count _ _ := Panic
|}.

(** *** BlockchainInterfaceNonClandestine *)
Definition log_transaction (log : Log) : outcome (option Transaction) :=
  match log_block_number log with
  | None => Ret None
  | Some block_number =>
      match to_gwei (from_big_endian (log_data log)) with
      | None => Ret None
      | Some gwei_amount =>
          let* block := expect (if block_number <? 2 ^ 64 then Some block_number else None) in
          let* from := expect (log_topics log !! 1%nat) in
          Ret (Some (mkTransaction block (wallet_from_topic from) gwei_amount))
      end
  end.

Definition bad_log (log : Log) : bool := (length (log_topics log) <? 2)%nat || (32 <? length (log_data log))%nat.

Definition web3_retrieve_transactions (c : chain) (start_block : Z) (recipient : Wallet)
  : outcome (result (list Transaction) BlockchainError) :=
  let* a := address recipient in
  match logs c (mkFilter (contract_address chain_id) start_block TRANSACTION_LITERAL (address_topic a)) with
  | None => Ret (Err QueryFailed)
  | Some ls =>
      if existsb bad_log ls then Ret (Err InvalidResponse) else
      let* ts := omapM log_transaction ls in
      Ret (Ok (omap id ts))
  end.

(** The call of the contract's [transfer]: method, recipient and amount *)
Definition transfer_data (recipient : bytes) (wei : Z) : bytes :=
  TRANSFER_METHOD_ID ++ replicate 12 0 ++ recipient ++ to_big_endian 32 wei.

Definition gas_limit_for (data : bytes) : Z :=
  fold_left (fun acc v => acc + (if v =? 0 then 4 else 68)) data 55000.

Definition web3_send_transaction (c : chain) (consuming_wallet recipient : Wallet) (amount nonce gas_price : Z)
  : outcome (chain * result bytes BlockchainError) :=
  let* to := address recipient in
  let* wei := to_wei amount in
  let data := transfer_data to wei in
  let* gas_price_wei := to_wei gas_price in
  let tx := mkRawTransaction nonce (Some (contract_address chain_id)) 0 gas_price_wei (gas_limit_for data) data in
  let* signed := raw_sign keccak256 tx consuming_wallet chain_id in
  let (c', r) := send_raw_transaction c signed in
  Ret (c', match r with Some h => Ok h | None => Err TransactionFailed end).

Definition web3_get_eth_balance (c : chain) (wallet : Wallet) : outcome (result Z BlockchainError) :=
  let* a := address wallet in
  Ret (match eth_balance c a with Some n => Ok n | None => Err QueryFailed end).

Definition web3_get_token_balance (c : chain) (wallet : Wallet) : outcome (result Z BlockchainError) :=
  let* a := address wallet in
  Ret (match token_balance c (contract_address chain_id) a with Some n => Ok n | None => Err QueryFailed end).

Definition web3_get_transaction_count (c : chain) (wallet : Wallet) : outcome (result Z BlockchainError) :=
  let* a := address wallet in
  Ret (match transaction_count c a with Some n => Ok n | None => Err QueryFailed end).

Definition nonclandestine_interface : BlockchainInterface := {|
  interface_contract_address := contract_address chain_id;
  retrieve_transactions := web3_retrieve_transactions;
  send_transaction := web3_send_transaction;
  get_eth_balance := web3_get_eth_balance;
  get_token_balance := web3_get_token_balance;
  get_transaction_count := web3_get_transaction_count
|}.
End interfaces.

(** ** blockchain_bridge *)
Record BlockchainBridge := mkBridge {
  bb_consuming_wallet : option Wallet;
  ui_bound : bool;
  wallet_subs_bound : bool
}.

Record RetrieveTransactions := mkRetrieve { rt_start_block : Z; rt_recipient : Wallet }.

(** What the bridge sends: answers to the user interface, and the new wallet to the Neighborhood and
    the Proxy Server *)
Inductive bridge_effect :=
| SetGasPriceResponse (client_id : Z) (accepted : bool)
| SetWalletPasswordResponse (client_id : Z) (accepted : bool)
| SetConsumingWalletToNeighborhood (w : Wallet)
| SetConsumingWalletToProxyServer (w : Wallet).

Section bridge.
Context `{!Web3} `{!BlockchainInterface} `{!Sqlite} `{!ConfigLib} `{!EthSign}.

Definition handle_bind (self : BlockchainBridge) : BlockchainBridge :=
  mkBridge (bb_consuming_wallet self) true true.

Definition handle_retrieve_transactions (c : chain) (msg : RetrieveTransactions)
  : outcome (result (list Transaction) BlockchainError) :=
  retrieve_transactions c (rt_start_block msg) (rt_recipient msg).

(** One account after the other; a failure to pay one does not keep the next from being paid. *)
Definition pay_one (db : Db) (now : Z) (consuming_wallet : Wallet) (c : chain) (account : PayableAccount)
  : outcome (chain * result Payment BlockchainError) :=
  let* r := get_transaction_count c consuming_wallet in
  match r with
  | Err e => Ret (c, Err e)
  | Ok nonce =>
      let* amount := expect (u64_try_from (pa_balance account)) in
      let* price := gas_price db in
      let* (c', sent) := send_transaction c consuming_wallet (pa_wallet account) amount nonce price in
      Ret (c', match sent with
               | Ok hash => Ok (payment_new now (pa_wallet account) amount hash)
               | Err e => Err e
               end)
  end.

Fixpoint pay_all (db : Db) (now : Z) (consuming_wallet : Wallet) (c : chain) (accounts : list PayableAccount)
  : outcome (chain * list (result Payment BlockchainError)) :=
  match accounts with
  | [] => Ret (c, [])
  | a :: rest =>
      let* (c1, p) := pay_one db now consuming_wallet c a in
      let* (c2, ps) := pay_all db now consuming_wallet c1 rest in
      Ret (c2, p :: ps)
  end.

(** [Err] is the text "No consuming wallet specified". *)
Definition handle_report_accounts_payable (db : Db) (now : Z) (self : BlockchainBridge) (c : chain)
    (accounts : list PayableAccount)
  : outcome (chain * result (list (result Payment BlockchainError)) unit) :=
  match bb_consuming_wallet self with
  | None => Ret (c, Err tt)
  | Some w => let* (c', ps) := pay_all db now w c accounts in Ret (c', Ok ps)
  end.

Definition handle_set_gas_price (db : Db) (self : BlockchainBridge) (client_id : Z) (price : str)
  : outcome (Db * list bridge_effect) :=
  let* (db', accepted) := match parse_uint 64 price with
                          | Some p => let* d := set_gas_price db p in Ret (d, true)
                          | None => Ret (db, false)
                          end in
  if ui_bound self then Ret (db', [SetGasPriceResponse client_id accepted]) else Panic.

Definition accept_wallet_password (db : Db) (self : BlockchainBridge) (password : str)
  : outcome (BlockchainBridge * list bridge_effect * bool) :=
  match bb_consuming_wallet self with
  | Some _ => Ret (self, [], false)
  | None =>
      let* path := consuming_wallet_derivation_path db in
      match path with
      | None => Ret (self, [], false)
      | Some path =>
          let* seed := mnemonic_seed db password in
          match seed with
          | Err _ => Ret (self, [], false)
          | Ok plain_data =>
              let* key_pair := expect (keypair_from_raw plain_data path) in
              let wallet := mkWallet (KeyPair key_pair) in
              if wallet_subs_bound self
              then Ret (mkBridge (Some wallet) (ui_bound self) (wallet_subs_bound self),
                        [SetConsumingWalletToNeighborhood wallet; SetConsumingWalletToProxyServer wallet], true)
              else Panic
          end
      end
  end.

Definition handle_set_wallet_password (db : Db) (self : BlockchainBridge) (client_id : Z) (password : str)
  : outcome (BlockchainBridge * list bridge_effect) :=
  let* (self', effects, accepted) := accept_wallet_password db self password in
  if ui_bound self' then Ret (self', effects ++ [SetWalletPasswordResponse client_id accepted]) else Panic.
End bridge.

(** ** Amounts on the wire *)
Lemma length_to_big_endian n v : length (to_big_endian n v) = n.
Proof. revert v. induction n as [|n IH]; intros v; simpl; [done|]. rewrite length_app, IH. simpl. lia. Qed.

Lemma from_to_big_endian n v : 0 <= v < 256 ^ Z.of_nat n -> from_big_endian (to_big_endian n v) = v.
Proof.
  revert v. induction n as [|n IH]; intros v Hv;
    [change (256 ^ Z.of_nat 0) with 1 in Hv; unfold from_big_endian; simpl; lia|]. cbn [to_big_endian].
  replace (Z.of_nat (S n)) with (Z.of_nat n + 1) in Hv by lia. rewrite Z.pow_add_r in Hv by lia.
  unfold from_big_endian in *. rewrite fold_left_app. rewrite IH.
  - simpl. pose proof (Z.div_mod v 256). lia.
  - split; [apply Z.div_pos; lia|]. apply Z.div_lt_upper_bound; lia.
Qed.

Lemma gas_fold data : forall acc, acc + 4 * Z.of_nat (length data) <=
  fold_left (fun acc v => acc + (if v =? 0 then 4 else 68)) data acc <= acc + 68 * Z.of_nat (length data).
Proof.
  induction data as [|b data IH]; intros acc; cbn [fold_left length]; [lia|].
  specialize (IH (acc + (if b =? 0 then 4 else 68))). destruct (b =? 0); lia.
Qed.

(** ** Properties *)

(** What is paid is what is credited. The data of the transaction that pays [amount] gwub are a call of
    the contract's transfer: the method, the recipient's address and the amount in wei, padded to
    words; its gas limit lies between 55,272 and 59,624. And the event that the contract then
    records - its method's signature, payer and recipient as topics, the amount as data - is read by
    the recipient's Node as a payment of [amount] gwub from the payer's address. *)
Theorem payment_is_read_as_sent (amount block : Z) (payer recipient : bytes) :
  uint 64 amount -> uint 64 block -> length payer = 20%nat -> length recipient = 20%nat ->
  exists wei, to_wei amount = Ret wei /\
    let data := transfer_data recipient wei in
    take 4 data = TRANSFER_METHOD_ID /\ take 32 (drop 4 data) = address_topic recipient /\
    length data = 68%nat /\ 55272 <= gas_limit_for data <= 59624 /\
    log_transaction (mkLog [TRANSACTION_LITERAL; address_topic payer; address_topic recipient] (drop 36 data) (Some block))
      = Ret (Some (mkTransaction block (mkWallet (Address payer)) amount)).
Proof.
  intros [Ha Hmax] [_ Hb] Hp Hr. exists (amount * GWEI). unfold to_wei.
  assert (Hwei : 0 <= amount * GWEI < 2 ^ 94) by (unfold GWEI; norm_pow; lia).
  rewrite (proj2 (Z.ltb_lt _ _)) by (norm_pow; lia). split; [done|]. cbv zeta.
  assert (Hlen : length (transfer_data recipient (amount * GWEI)) = 68%nat).
  { unfold transfer_data. rewrite !length_app, length_replicate, length_to_big_endian, Hr. done. }
  assert (Hword : drop 4 (transfer_data recipient (amount * GWEI)) =
    address_topic recipient ++ to_big_endian 32 (amount * GWEI)).
  { unfold transfer_data, address_topic. by rewrite <- app_assoc. }
  assert (Htopic : length (address_topic recipient) = 32%nat).
  { unfold address_topic. by rewrite length_app, length_replicate, Hr. }
  split_and!; [done| |done| | |].
  - rewrite Hword, <- Htopic. apply take_app_length.
  - pose proof (gas_fold (transfer_data recipient (amount * GWEI)) 55000) as [Hlo _]. rewrite Hlen in Hlo.
    unfold gas_limit_for. lia.
  - pose proof (gas_fold (transfer_data recipient (amount * GWEI)) 55000) as [_ Hhi]. rewrite Hlen in Hhi.
    unfold gas_limit_for. lia.
  - assert (drop 36 (transfer_data recipient (amount * GWEI)) = to_big_endian 32 (amount * GWEI)) as ->.
    { change 36%nat with (4 + 32)%nat. rewrite <- drop_drop, Hword, <- Htopic. apply drop_app_length. }
    unfold log_transaction. cbn [log_block_number log_data log_topics]. 
    rewrite from_to_big_endian by (replace (256 ^ Z.of_nat 32) with (2 ^ 256) by reflexivity; norm_pow; lia).
    unfold to_gwei. rewrite Z.div_mul by done. rewrite !(proj2 (Z.ltb_lt _ _)) by lia.
    cbn [lookup list_lookup expect obind]. unfold wallet_from_topic, address_topic.
    rewrite drop_app_length' by done. by rewrite take_ge by lia.
Qed.

Lemma payment_is_read_as_sent_witness :
  log_transaction (mkLog [TRANSACTION_LITERAL; address_topic (replicate 20 7); address_topic (replicate 20 9)]
    (drop 36 (transfer_data (replicate 20 9) 12345000000000)) (Some 6))
  = Ret (Some (mkTransaction 6 (mkWallet (Address (replicate 20 7))) 12345)).
Proof.
  destruct (payment_is_read_as_sent 12345 6 (replicate 20 7) (replicate 20 9)) as (wei & Hw & _ & _ & _ & _ & H);
    [split; norm_pow; lia|split; norm_pow; lia|done|done|]. vm_compute in Hw. injection Hw as <-. exact H.
Defined.
