(* ===== verification/Accountant.v ===== *)
(** * Accountant: who owes whom

    The actor of [accountant/mod.rs] on top of the tables ([Accounts]) and the bridge to the chain
    ([Blockchain]). It charges wallets for services provided, accrues debts for services consumed,
    scans for debts to be paid, for payments received and for delinquent wallets. Messages that it
    sends and whose answers it waits for are split into a request and a continuation, which a round
    composes with the bridge's handler. *)
From S2P Require Import Prelude Text SubLib Cryptde Wallet Route SequenceBuffer Messages.
From S2P Require Import Accounts Blockchain.

Definition SECONDS_PER_DAY : Z := 86400.

Definition PAYMENT_CURVES : PaymentCurves :=
  mkPaymentCurves SECONDS_PER_DAY SECONDS_PER_DAY 10000000 1000000000 (30 * SECONDS_PER_DAY) 10000000.

Record Accountant := mkAccountant {
  acc_consuming_wallet : option Wallet;
  acc_earning_wallet : Wallet;
  acc_bound : bool
}.

Record FinancialStatisticsMessage := mkStatistics { pending_credit : Z; pending_debt : Z }.

Section accountant.
Context `{!Sqlite} `{!ConfigLib} `{!EthSign}.

Definition acc_handle_bind (self : Accountant) : Accountant :=
  mkAccountant (acc_consuming_wallet self) (acc_earning_wallet self) true.

Definition our_wallet (self : Accountant) (wallet : Wallet) : outcome bool :=
  let* ours := match acc_consuming_wallet self with
               | None => Ret false
               | Some consuming =>
                   let* c := address consuming in let* a := address wallet in Ret (bool_decide (c = a))
               end in
  if ours : bool then Ret true else
  let* a := address wallet in let* e := address (acc_earning_wallet self) in Ret (bool_decide (a = e)).

(** [u64] arithmetic *)
Definition total_charge (r : ServiceReport) : Z :=
  wrap 64 (report_service_rate r + wrap 64 (report_byte_rate r * wrap 64 (Z.of_nat (report_payload_size r)))).

Definition record_service_provided (now : Z) (self : Accountant) (db : Db) (r : ServiceReport) : outcome Db :=
  let* ours := our_wallet self (report_wallet r) in
  if ours : bool then Ret db else more_money_receivable now db (report_wallet r) (total_charge r).

Definition record_service_consumed (now : Z) (self : Accountant) (db : Db) (r : ServiceReport) : outcome Db :=
  let* ours := our_wallet self (report_wallet r) in
  if ours : bool then Ret db else more_money_payable now db (report_wallet r) (total_charge r).

Definition handle_received_payments (now : Z) (db : Db) (payments : list Transaction) : outcome Db :=
  more_money_received now db payments.

Definition handle_sent_payments (db : Db) (payments : list (result Payment BlockchainError)) : outcome Db :=
  ofold (fun db p => match p with Ok payment => payment_sent db payment | Err _ => Ret db end) db payments.

(** [Iterator::sum] of [i64]s *)
Definition sum_i64 (l : list Z) : Z := fold_left (fun s x => as_i64 (s + x)) l 0.

Definition handle_get_financial_statistics (self : Accountant) (db : Db) : outcome FinancialStatisticsMessage :=
  let* credits := receivables db in
  let* debts := non_pending_payables db in
  if acc_bound self then Ret (mkStatistics (sum_i64 (map ra_balance credits)) (sum_i64 (map pa_balance debts)))
  else Panic.

(** *** Payables *)
Definition calculate_payout_threshold (x : Z) : f64 :=
  let c := PAYMENT_CURVES in
  let m := f64_opp (f64_div
    (f64_sub (f64_of (balance_to_decrease_from_gwub c)) (f64_of (permanent_debt_allowed_gwub c)))
    (f64_sub (f64_of (balance_decreases_for_sec c)) (f64_of (payment_suggested_after_sec c)))) in
  let b := f64_sub (f64_of (balance_to_decrease_from_gwub c)) (f64_mul m (f64_of (payment_suggested_after_sec c))) in
  f64_add (f64_mul m (f64_of x)) b.

Definition should_pay (now : Z) (account : PayableAccount) : outcome bool :=
  let time_since_last_paid := now - pa_last_paid_timestamp account in
  if time_since_last_paid <? 0 then Panic
  else if time_since_last_paid <=? payment_suggested_after_sec PAYMENT_CURVES then Ret false
  else if pa_balance account <=? permanent_debt_allowed_gwub PAYMENT_CURVES then Ret false
  else Ret (f64_gtb (f64_of (pa_balance account)) (calculate_payout_threshold time_since_last_paid)).

(** The message to the bridge, if there is anything to pay *)
Definition scan_for_payables (now : Z) (self : Accountant) (db : Db) : outcome (option (list PayableAccount)) :=
  let* all := non_pending_payables db in
  let* payables := ofilter (should_pay now) all in
  match payables with
  | [] => Ret None
  | _ => if acc_bound self then Ret (Some payables) else Panic
  end.

(** What comes of the bridge's answer: [SentPayments] to the Accountant itself *)
Definition payables_reported (answer : result (list (result Payment BlockchainError)) unit)
  : option (list (result Payment BlockchainError)) :=
  match answer with Ok results => Some results | Err _ => None end.

(** *** Received payments *)
Definition scan_for_received_payments (self : Accountant) (db : Db) : outcome RetrieveTransactions :=
  let* start := start_block db in
  if acc_bound self then Ret (mkRetrieve start (acc_earning_wallet self)) else Panic.

(** What comes of the bridge's answer: [ReceivedPayments] to the Accountant itself *)
Definition transactions_retrieved (answer : result (list Transaction) BlockchainError) : option (list Transaction) :=
  match answer with Ok [] => None | Ok ts => Some ts | Err _ => None end.

(** *** Delinquencies *)
Definition ban_accounts (db : Db) (cache : BannedCache) (accounts : list ReceivableAccount)
  : outcome (Db * BannedCache) :=
  ofold (fun s a => ban s.1 s.2 (ra_wallet a)) (db, cache) accounts.

Definition unban_accounts (db : Db) (cache : BannedCache) (accounts : list ReceivableAccount)
  : outcome (Db * BannedCache) :=
  ofold (fun s a => unban s.1 s.2 (ra_wallet a)) (db, cache) accounts.

Definition scan_for_delinquencies (now : Z) (db : Db) (cache : BannedCache) : outcome (Db * BannedCache) :=
  let* new := new_delinquencies db now PAYMENT_CURVES in
  let* (db1, cache1) := ban_accounts db cache new in
  let* paid := paid_delinquencies db1 PAYMENT_CURVES in
  unban_accounts db1 cache1 paid.

(** *** Rounds with the bridge *)
Context `{!Web3} `{interface : !BlockchainInterface}.

Definition payables_round (now : Z) (self : Accountant) (bridge : BlockchainBridge) (c : chain) (db : Db)
  : outcome (chain * Db) :=
  let* request := scan_for_payables now self db in
  match request with
  | None => Ret (c, db)
  | Some accounts =>
      let* (c', answer) := handle_report_accounts_payable db now bridge c accounts in
      match payables_reported answer with
      | None => Ret (c', db)
      | Some results => let* db' := handle_sent_payments db results in Ret (c', db')
      end
  end.

Definition received_payments_round (now : Z) (self : Accountant) (c : chain) (db : Db) : outcome Db :=
  let* request := scan_for_received_payments self db in
  let* answer := handle_retrieve_transactions c request in
  match transactions_retrieved answer with
  | None => Ret db
  | Some ts => handle_received_payments now db ts
  end.

(** The handler of [StartMessage]: the three scans, whose intervals then repeat them. The messages
    they send are answered later. *)
Definition handle_start (now : Z) (self : Accountant) (db : Db) (cache : BannedCache)
  : outcome (Db * BannedCache * option (list PayableAccount) * RetrieveTransactions) :=
  let* payables := scan_for_payables now self db in
  let* retrieve := scan_for_received_payments self db in
  let* (db', cache') := scan_for_delinquencies now db cache in
  Ret (db', cache', payables, retrieve).
End accountant.

(** ** An abstract ledger

    What each wallet owes and is owed, as plain numbers by address, and what the messages mean for it:
    a charge opens an account if need be, a payment received only counts for an account there is. *)
Record Ledger := mkLedger { owed_to_us : gmap bytes Z; owed_by_us : gmap bytes Z }.

Definition charge (a : bytes) (n : Z) (l : gmap bytes Z) : gmap bytes Z := <[a := default 0 (l !! a) + n]> l.

Inductive ledger_msg :=
| Provided (r : ServiceReport)
| Consumed (r : ServiceReport)
| Received (payments : list Transaction)
| Sent (payments : list (result Payment BlockchainError)).

(** Charged to a wallet: a rate per service and a rate per byte *)
Definition price (r : ServiceReport) : Z :=
  report_service_rate r + report_byte_rate r * Z.of_nat (report_payload_size r).

Section ledger.
Context `{!Sqlite} `{!ConfigLib} `{!EthSign} (self : Accountant).

Definition addr (w : Wallet) : bytes := match address w with Ret a => a | _ => [] end.

Definition ours (a : bytes) : Prop :=
  a = addr (acc_earning_wallet self) \/ exists w, acc_consuming_wallet self = Some w /\ a = addr w.

#[global] Instance ours_dec a : Decision (ours a).
Proof.
  unfold ours. destruct (acc_consuming_wallet self) as [w|].
  - destruct (decide (a = addr (acc_earning_wallet self))); [left; by left|].
    destruct (decide (a = addr w)) as [->|]; [left; right; by exists w|].
    right. intros [?|(w' & [= <-] & ?)]; done.
  - destruct (decide (a = addr (acc_earning_wallet self))); [left; by left|].
    right. intros [?|(w' & ? & ?)]; done.
Defined.

Definition ledger_step (l : Ledger) (m : ledger_msg) : Ledger :=
  match m with
  | Provided r =>
      if decide (ours (addr (report_wallet r))) then l
      else mkLedger (charge (addr (report_wallet r)) (price r) (owed_to_us l)) (owed_by_us l)
  | Consumed r =>
      if decide (ours (addr (report_wallet r))) then l
      else mkLedger (owed_to_us l) (charge (addr (report_wallet r)) (price r) (owed_by_us l))
  | Received ts =>
      mkLedger (fold_left (fun o t => alter (fun b => b - gwei_amount t) (addr (tx_from t)) o) ts (owed_to_us l))
        (owed_by_us l)
  | Sent ps =>
      mkLedger (owed_to_us l)
        (fold_left (fun o p => match p with
                               | Ok p => charge (addr (pay_to p)) (- pay_amount p) o
                               | Err _ => o
                               end) ps (owed_by_us l))
  end.

(** The Accountant's handlers; each message comes with the time it is handled at. *)
Definition handle (db : Db) (tm : Z * ledger_msg) : outcome Db :=
  let (now, m) := tm in
  match m with
  | Provided r => record_service_provided now self db r
  | Consumed r => record_service_consumed now self db r
  | Received ts => handle_received_payments now db ts
  | Sent ps => handle_sent_payments db ps
  end.

(** The money in a message, which bounds what any balance changes by *)
Definition volume (m : ledger_msg) : Z :=
  match m with
  | Provided r | Consumed r => price r
  | Received ts => fold_right (fun t s => gwei_amount t + s) 0 ts
  | Sent ps => fold_right (fun p s => match p with Ok p => pay_amount p | Err _ => 0 end + s) 0 ps
  end.

Definition report_ok (r : ServiceReport) : Prop :=
  initialized (report_wallet r) /\ 0 <= report_service_rate r /\ 0 <= report_byte_rate r.

Definition transaction_ok (t : Transaction) : Prop :=
  initialized (tx_from t) /\ 0 <= gwei_amount t.

Definition payment_ok (p : result Payment BlockchainError) : Prop :=
  match p with Ok p => initialized (pay_to p) /\ 0 <= pay_amount p /\ 0 <= pay_timestamp p | Err _ => True end.

Definition msg_ok (tm : Z * ledger_msg) : Prop :=
  0 <= tm.1 /\
  match tm.2 with
  | Provided r | Consumed r => report_ok r
  | Received ts => Forall transaction_ok ts
  | Sent ps => Forall payment_ok ps
  end.

(** The tables hold the ledger's numbers. *)
Definition keeps (db : Db) (l : Ledger) : Prop :=
  rr_balance <$> receivable db = Integer <$> owed_to_us l /\
  pr_balance <$> payable db = Integer <$> owed_by_us l /\
  is_Some (config db !! lit "start_block").

(** No balance is further from zero than [m]. *)
Definition within (m : Z) (o : gmap bytes Z) : Prop := map_Forall (fun _ b => - m <= b <= m) o.

Lemma addr_ret w : initialized w -> address w = Ret (addr w).
Proof. intros [a Ha]%address_total. unfold addr. by rewrite Ha. Qed.

Lemma our_wallet_ok w :
  initialized w -> initialized (acc_earning_wallet self) ->
  (forall c, acc_consuming_wallet self = Some c -> initialized c) ->
  our_wallet self w = Ret (bool_decide (ours (addr w))).
Proof.
  intros Hw He Hc. unfold our_wallet. rewrite (addr_ret w), (addr_ret (acc_earning_wallet self)) by done.
  destruct (acc_consuming_wallet self) as [c|] eqn:E.
  - rewrite (addr_ret c) by by apply Hc. cbn [obind]. case_bool_decide as Heq.
    + rewrite bool_decide_true; [done|]. right. by exists c.
    + cbn [obind]. f_equal. apply bool_decide_ext. unfold ours. rewrite E. split; [by left|].
      intros [?|(c' & [= <-] & ?)]; [done|]. congruence.
  - cbn [obind]. f_equal. apply bool_decide_ext. unfold ours. rewrite E. split; [by left|].
    by intros [?|(c' & ? & ?)].
Qed.

Lemma as_i64_small z : i64 z -> as_i64 z = z.
Proof. unfold as_i64, i64. intros. rewrite Z.mod_small; norm_pow; lia. Qed.

Lemma total_charge_price r : report_ok r -> price r < 2 ^ 63 -> total_charge r = price r.
Proof.
  intros (_ & Hs & Hb) Hp. unfold total_charge, price in *. remember (Z.of_nat (report_payload_size r)) as n eqn:En.
  assert (0 <= n) by lia. assert (0 <= report_byte_rate r * n) by nia.
  destruct (decide (report_byte_rate r = 0)) as [Hz|Hz].
  - rewrite Hz in *. change (wrap 64 (0 * wrap 64 n)) with 0. rewrite wrap_small; unfold uint; norm_pow; lia.
  - assert (n <= report_byte_rate r * n) by nia.
    rewrite (wrap_small 64 n) by (unfold uint; norm_pow; lia).
    rewrite (wrap_small 64 (report_byte_rate r * n)), wrap_small by (unfold uint; norm_pow; lia). done.
Qed.

Lemma sql_add_ok b n : i64 (b + n) -> sql_add (Integer b) n = Integer (b + n).
Proof.
  intros [Hlo Hhi]. unfold sql_add, i64b. by rewrite (proj2 (Z.leb_le _ _) Hlo), (proj2 (Z.ltb_lt _ _) Hhi).
Qed.

Lemma sql_sub_ok b n : i64 (b - n) -> sql_sub (Integer b) n = Integer (b - n).
Proof.
  intros [Hlo Hhi]. unfold sql_sub, i64b. by rewrite (proj2 (Z.leb_le _ _) Hlo), (proj2 (Z.ltb_lt _ _) Hhi).
Qed.

(** A table whose balance column [f] holds the numbers of [o] *)
Lemma tied {A} (f : A -> column real) (t : gmap bytes A) (o : gmap bytes Z) a :
  f <$> t = Integer <$> o ->
  match t !! a with
  | Some r => exists b, o !! a = Some b /\ f r = Integer b
  | None => o !! a = None
  end.
Proof.
  intros E. apply (f_equal (lookup a)) in E. rewrite !lookup_fmap in E.
  destruct (t !! a) as [r|], (o !! a) as [b|]; simplify_eq/=; eauto.
Qed.

Lemma tied_insert {A} (f : A -> column real) (t : gmap bytes A) (o : gmap bytes Z) a r b :
  f <$> t = Integer <$> o -> f r = Integer b -> f <$> <[a := r]> t = Integer <$> <[a := b]> o.
Proof. intros E Hr. by rewrite !fmap_insert, E, Hr. Qed.

Lemma within_lookup m o a b : within m o -> o !! a = Some b -> - m <= b <= m.
Proof. intros Hw Hb. by apply (Hw a b). Qed.

Lemma within_charge m o a n : within m o -> 0 <= m -> within (m + Z.abs n) (charge a n o).
Proof.
  intros Hw Hm. unfold within, charge. apply map_Forall_insert_2.
  - destruct (o !! a) as [b|] eqn:E; simpl; [apply Hw in E|]; lia.
  - eapply map_Forall_impl; [done|]. simpl. lia.
Qed.

Lemma within_alter m o a n : within m o -> 0 <= n -> within (m + n) (alter (fun b => b - n) a o).
Proof.
  intros Hw Hn i b Hb. destruct (decide (i = a)) as [->|].
  - rewrite lookup_alter_eq in Hb. destruct (o !! a) as [c|] eqn:E; [|done]. apply Hw in E. simplify_eq/=. lia.
  - rewrite lookup_alter_ne in Hb by done. apply Hw in Hb. lia.
Qed.

Lemma receivable_charged now db o w n m :
  rr_balance <$> receivable db = Integer <$> o -> within m o -> 0 <= n -> 0 <= m -> m + n < 2 ^ 63 ->
  0 <= now -> initialized w ->
  exists r, more_money_receivable now db w n = Ret (set_receivable r db) /\ rr_balance <$> r = Integer <$> charge (addr w) n o.
Proof.
  intros E Hw Hn Hm Hs Hnow Hi. unfold more_money_receivable, receivable_try_update.
  rewrite (addr_ret w Hi). cbn [obind]. pose proof (tied _ _ _ (addr w) E) as Ht. unfold charge.
  rewrite (as_i64_small n) by (unfold i64; lia). destruct (receivable db !! addr w) as [r|] eqn:Er.
  - destruct Ht as (b & Hb & Hrb). pose proof (within_lookup _ _ _ _ Hw Hb). cbn [obind].
    eexists. split; [done|]. rewrite Hb. simpl. apply tied_insert; [done|]. simpl. rewrite Hrb.
    apply sql_add_ok. unfold i64. lia.
  - cbn [obind]. unfold try_insert, to_time_t. rewrite (proj2 (Z.ltb_ge _ _)) by lia. cbn [obind].
    rewrite (addr_ret w Hi). cbn [obind]. rewrite Er, (as_i64_small n) by (unfold i64; lia).
    eexists. split; [done|]. rewrite Ht. by apply tied_insert.
Qed.

Lemma payable_charged now db o w n m :
  pr_balance <$> payable db = Integer <$> o -> within m o -> 0 <= n -> 0 <= m -> m + n < 2 ^ 63 ->
  initialized w ->
  exists p, more_money_payable now db w n = Ret (set_payable p db) /\ pr_balance <$> p = Integer <$> charge (addr w) n o.
Proof.
  intros E Hw Hn Hm Hs Hi. unfold more_money_payable, try_increase_balance. rewrite (addr_ret w Hi).
  cbn [obind]. unfold i64_try_from. rewrite (proj2 (Z.ltb_lt _ _)) by lia. cbn [expect obind].
  pose proof (tied _ _ _ (addr w) E) as Ht. unfold charge. eexists. split; [done|].
  destruct (payable db !! addr w) as [r|] eqn:Er.
  - destruct Ht as (b & Hb & Hrb). pose proof (within_lookup _ _ _ _ Hw Hb). rewrite Hb. simpl.
    apply tied_insert; [done|]. simpl. rewrite Hrb. apply sql_add_ok. unfold i64. lia.
  - rewrite Ht. by apply tied_insert.
Qed.

Lemma payable_paid db o p m :
  pr_balance <$> payable db = Integer <$> o -> within m o -> payment_ok (Ok p) -> 0 <= m ->
  m + pay_amount p < 2 ^ 63 ->
  exists t, payment_sent db p = Ret (set_payable t db) /\
    pr_balance <$> t = Integer <$> charge (addr (pay_to p)) (- pay_amount p) o.
Proof.
  intros E Hw (Hi & Ha & Ht0) Hm Hs. unfold payment_sent, try_decrease_balance, i64_try_from, to_time_t.
  rewrite (proj2 (Z.ltb_lt _ _)), (proj2 (Z.ltb_ge _ _)) by lia. cbn [expect obind].
  rewrite (addr_ret _ Hi). cbn [obind]. pose proof (tied _ _ _ (addr (pay_to p)) E) as Ht. unfold charge.
  eexists. split; [done|]. destruct (payable db !! addr (pay_to p)) as [r|] eqn:Er.
  - destruct Ht as (b & Hb & Hrb). pose proof (within_lookup _ _ _ _ Hw Hb). rewrite Hb. simpl.
    apply tied_insert; [done|]. simpl. rewrite Hrb, sql_sub_ok by (unfold i64; lia). f_equal; lia.
  - rewrite Ht. apply tied_insert; [done|]. cbn [pr_balance]. rewrite sql_sub_ok by (unfold i64; lia).
    simpl. f_equal; lia.
Qed.

Lemma receivable_credited now db o t m :
  rr_balance <$> receivable db = Integer <$> o -> within m o -> transaction_ok t -> 0 <= now -> 0 <= m ->
  m + gwei_amount t < 2 ^ 63 ->
  exists r, receive_one now db t = Ret (set_receivable r db) /\
    rr_balance <$> r = Integer <$> alter (fun b => b - gwei_amount t) (addr (tx_from t)) o.
Proof.
  intros E Hw (Hi & Ha) Hnow Hm Hs. unfold receive_one, to_time_t. rewrite (proj2 (Z.ltb_ge _ _)) by lia.
  cbn [obind]. rewrite (addr_ret _ Hi). cbn [obind]. pose proof (tied _ _ _ (addr (tx_from t)) E) as Ht.
  destruct (receivable db !! addr (tx_from t)) as [r|] eqn:Er.
  - destruct Ht as (b & Hb & Hrb). pose proof (within_lookup _ _ _ _ Hw Hb). eexists. split; [done|].
    assert (alter (fun b => b - gwei_amount t) (addr (tx_from t)) o = <[addr (tx_from t) := b - gwei_amount t]> o) as ->.
    { apply map_eq. intros i. destruct (decide (i = addr (tx_from t))) as [->|].
      - by rewrite lookup_alter_eq, Hb, lookup_insert_eq.
      - by rewrite lookup_alter_ne, lookup_insert_ne. }
    apply tied_insert; [done|]. cbn [rr_balance]. rewrite Hrb, as_i64_small by (unfold i64; lia).
    apply sql_sub_ok. unfold i64. lia.
  - exists (receivable db). split; [by destruct db|]. rewrite E. f_equal.
    apply map_eq. intros i. destruct (decide (i = addr (tx_from t))) as [->|].
    + by rewrite lookup_alter_eq, Ht.
    + by rewrite lookup_alter_ne.
Qed.

Lemma received_all now ts : forall db o m,
  rr_balance <$> receivable db = Integer <$> o -> within m o -> Forall transaction_ok ts -> 0 <= now -> 0 <= m ->
  m + volume (Received ts) < 2 ^ 63 ->
  exists r, ofold (receive_one now) db ts = Ret (set_receivable r db) /\
    let o' := fold_left (fun o t => alter (fun b => b - gwei_amount t) (addr (tx_from t)) o) ts o in
    rr_balance <$> r = Integer <$> o' /\ within (m + volume (Received ts)) o'.
Proof.
  induction ts as [|t ts IH]; intros db o m E Hw Hok Hnow Hm Hs; simpl in *.
  { exists (receivable db). rewrite Z.add_0_r. by destruct db. }
  apply Forall_cons in Hok as [Ht Hok]. assert (0 <= volume (Received ts)) as Hv.
  { clear -Hok. induction Hok as [|x l [_ Hx]]; simpl in *; lia. }
  pose proof Ht as [_ Ha]. simpl in Hv.
  destruct (receivable_credited now db o t m) as (r & -> & Hr); [done..|lia|]. cbn [obind].
  destruct (IH (set_receivable r db) (alter (fun b => b - gwei_amount t) (addr (tx_from t)) o) (m + gwei_amount t))
    as (r' & -> & Hr' & Hw'); [done|by apply within_alter|done|done|lia|lia|].
  exists r'. rewrite Z.add_assoc. by destruct db.
Qed.

Lemma sent_all ps : forall db o m,
  pr_balance <$> payable db = Integer <$> o -> within m o -> Forall payment_ok ps -> 0 <= m ->
  m + volume (Sent ps) < 2 ^ 63 ->
  exists p, handle_sent_payments db ps = Ret (set_payable p db) /\
    let o' := fold_left (fun o p => match p with
                                    | Ok p => charge (addr (pay_to p)) (- pay_amount p) o
                                    | Err _ => o
                                    end) ps o in
    pr_balance <$> p = Integer <$> o' /\ within (m + volume (Sent ps)) o'.
Proof.
  unfold handle_sent_payments. induction ps as [|p ps IH]; intros db o m E Hw Hok Hm Hs; simpl in *.
  { exists (payable db). rewrite Z.add_0_r. by destruct db. }
  apply Forall_cons in Hok as [Hp Hok]. assert (0 <= volume (Sent ps)) as Hv.
  { clear -Hok. induction Hok as [|[x|e] l Hx]; simpl in *; lia. }
  simpl in Hv. destruct p as [p|e].
  - pose proof Hp as (_ & Ha & _). destruct (payable_paid db o p m) as (t & -> & Ht); [done..|lia|]. cbn [obind].
    destruct (IH (set_payable t db) (charge (addr (pay_to p)) (- pay_amount p) o) (m + pay_amount p))
      as (t' & -> & Ht' & Hw'); [done| |done|lia|lia|].
    { replace (m + pay_amount p) with (m + Z.abs (- pay_amount p)) by lia. by apply within_charge. }
    exists t'. rewrite Z.add_assoc. by destruct db.
  - cbn [obind]. destruct (IH db o m) as (t' & -> & Ht' & Hw'); [done..|]. by exists t'.
Qed.

Lemma within_mono m m' o : within m o -> m <= m' -> within m' o.
Proof. intros Hw Hm. eapply map_Forall_impl; [done|]. simpl. lia. Qed.

Definition wallets_ok : Prop :=
  initialized (acc_earning_wallet self) /\ forall c, acc_consuming_wallet self = Some c -> initialized c.

Lemma price_nonneg r : report_ok r -> 0 <= price r.
Proof. intros (_ & ? & ?). unfold price. nia. Qed.

Lemma volume_nonneg tm : msg_ok tm -> 0 <= volume tm.2.
Proof.
  destruct tm as [now [r|r|ts|ps]]; intros [_ Hm]; cbn [fst snd volume] in *; try by apply price_nonneg.
  - induction Hm as [|x k [_ Hx]]; simpl in *; lia.
  - induction Hm as [|[x|e] k Hx]; simpl in *; lia.
Qed.

Lemma start_block_set db block :
  is_Some (config db !! lit "start_block") ->
  exists c, set_start_block_transactionally db block = Ret (Ok (set_config c db)) /\
    is_Some (c !! lit "start_block").
Proof.
  intros [v Hv]. unfold set_start_block_transactionally, set_u64_transactional, config_try_update.
  rewrite Hv. eexists. split; [done|]. by rewrite lookup_insert_eq.
Qed.

Lemma handle_keeps tm db l m :
  wallets_ok -> msg_ok tm -> keeps db l -> within m (owed_to_us l) -> within m (owed_by_us l) -> 0 <= m ->
  m + volume tm.2 < 2 ^ 63 ->
  exists db', handle db tm = Ret db' /\ keeps db' (ledger_step l tm.2) /\
    within (m + volume tm.2) (owed_to_us (ledger_step l tm.2)) /\
    within (m + volume tm.2) (owed_by_us (ledger_step l tm.2)) /\ 0 <= volume tm.2.
Proof.
  intros [He Hc] Hok (Hr & Hp & Hb) Hwr Hwp Hm Hs. pose proof (volume_nonneg tm Hok) as Hv.
  destruct Hok as [Hnow Hmsg].
  assert (Hmono : forall o, within m o -> within (m + volume tm.2) o) by (intros o Ho; eapply within_mono; [done|lia]).
  destruct tm as [now [r|r|ts|ps]]; cbn [fst snd] in *.
  - pose proof Hmsg as (Hi & _). cbn [handle ledger_step volume] in *.
    unfold record_service_provided. rewrite our_wallet_ok by done. cbn [obind].
    case_bool_decide as Ho; [rewrite decide_True by done; exists db; by split_and!; auto|rewrite decide_False by done].
    rewrite total_charge_price by (done || lia).
    destruct (receivable_charged now db (owed_to_us l) (report_wallet r) (price r) m) as (r' & -> & Hr'); [done..|].
    eexists. split_and!; [done|by split_and!| |by auto|done].
    replace (m + price r) with (m + Z.abs (price r)) by lia. by apply within_charge.
  - pose proof Hmsg as (Hi & _). cbn [handle ledger_step volume] in *.
    unfold record_service_consumed. rewrite our_wallet_ok by done. cbn [obind].
    case_bool_decide as Ho; [rewrite decide_True by done; exists db; by split_and!; auto|rewrite decide_False by done].
    rewrite total_charge_price by (done || lia).
    destruct (payable_charged now db (owed_by_us l) (report_wallet r) (price r) m) as (p' & -> & Hp'); [done..|].
    eexists. split_and!; [done|by split_and!|by auto| |done].
    replace (m + price r) with (m + Z.abs (price r)) by lia. by apply within_charge.
  - cbn [handle ledger_step]. unfold handle_received_payments, more_money_received, try_multi_insert_payment.
    destruct (max_block ts) as [block|] eqn:Eb.
    + destruct (start_block_set db block Hb) as (c & -> & Hc'). cbn [obind].
      destruct (received_all now ts (set_config c db) (owed_to_us l) m) as (r' & -> & Hr' & Hw'); [done..|].
      eexists. split_and!; [done|by split_and!|done|by apply Hmono|done].
    + destruct ts; [|done]. exists db. by split_and!; try apply Hmono.
  - cbn [handle ledger_step].
    destruct (sent_all ps db (owed_by_us l) m) as (p' & -> & Hp' & Hw'); [done..|].
    eexists. split_and!; [done|by split_and!|by apply Hmono|done|done].
Qed.

Lemma run_keeps tms : forall db l m,
  wallets_ok -> Forall msg_ok tms -> keeps db l -> within m (owed_to_us l) -> within m (owed_by_us l) -> 0 <= m ->
  m + fold_right (fun tm s => volume tm.2 + s) 0 tms < 2 ^ 63 ->
  exists db', ofold handle db tms = Ret db' /\ keeps db' (fold_left ledger_step (map snd tms) l).
Proof.
  induction tms as [|tm tms IH]; intros db l m Hw Hok Hk Hwr Hwp Hm Hs; simpl in *; [by exists db|].
  apply Forall_cons in Hok as [Ht Hok].
  assert (0 <= fold_right (fun tm s => volume tm.2 + s) 0 tms) as Hpos.
  { clear -Hok. induction Hok as [|x k Hx]; simpl; [done|]. pose proof (volume_nonneg x Hx). lia. }
  destruct (handle_keeps tm db l m) as (db1 & -> & Hk1 & Hr1 & Hp1 & Hv); [done..|lia|]. cbn [obind].
  apply (IH db1 (ledger_step l tm.2) (m + volume tm.2)); (done || lia).
Qed.
End ledger.

(** ** A payment under way is never followed by another *)
Section pending.
Context `{!Sqlite} `{!ConfigLib} `{!EthSign} (self : Accountant).

Definition blocked (a : bytes) (db : Db) : Prop :=
  exists r, payable db !! a = Some r /\ is_Some (pr_pending_payment_transaction r).

Lemma blocked_insert a k r db :
  blocked a db -> (k = a -> is_Some (pr_pending_payment_transaction r)) ->
  blocked a (set_payable (<[k := r]> (payable db)) db).
Proof.
  intros (r0 & Hr & Hp) Hk. destruct (decide (k = a)) as [->|Hne].
  - exists r. cbn [payable set_payable]. rewrite lookup_insert_eq. auto.
  - exists r0. cbn [payable set_payable]. by rewrite lookup_insert_ne.
Qed.

Lemma addr_address w a : address w = Ret a -> addr w = a.
Proof. unfold addr. by intros ->. Qed.

Lemma blocked_sent a db p db' : payment_sent db p = Ret db' -> blocked a db \/ a = addr (pay_to p) -> blocked a db'.
Proof.
  unfold payment_sent, try_decrease_balance. intros H' Hb. unbind.
  match goal with Ha : address _ = Ret ?k |- _ => rename k into key; pose proof (addr_address _ _ Ha) as Hk end.
  destruct (decide (key = a)) as [<-|Hne].
  - unfold blocked. cbn [payable set_payable]. rewrite lookup_insert_eq. destruct (payable db !! key); by eexists.
  - destruct Hb as [Hb|Hb]; [|congruence]. apply blocked_insert; [done|]. congruence.
Qed.

Lemma blocked_more a now db w n db' : more_money_payable now db w n = Ret db' -> blocked a db -> blocked a db'.
Proof.
  unfold more_money_payable, try_increase_balance. intros H' Hb. unbind. apply blocked_insert; [done|].
  intros ->. destruct Hb as (r & Hr & Hp). by rewrite Hr.
Qed.

Lemma payable_ofold {A} (f : Db -> A -> outcome Db) l db db' :
  (forall d x d', f d x = Ret d' -> payable d' = payable d) -> ofold f db l = Ret db' -> payable db' = payable db.
Proof.
  intros Hf. apply (ofold_inv (fun d => payable d = payable db)); [|done].
  intros d x d' _ Hd Hx. by rewrite (Hf _ _ _ Hx).
Qed.

Lemma payable_received now db ts db' : handle_received_payments now db ts = Ret db' -> payable db' = payable db.
Proof.
  unfold handle_received_payments, more_money_received, try_multi_insert_payment.
  destruct (max_block ts) as [b|]; [|by intros [= <-]]. intros H'. unbind.
  destruct x0 as [d|e]; unbind; [|done].
  assert (payable d = payable db) as <-.
  { unfold set_start_block_transactionally, set_u64_transactional, config_try_update in *.
    repeat case_match; by simplify_eq. }
  eapply payable_ofold; [|done]. intros d0 t d1 Hone. unfold receive_one in Hone. unbind. by case_match; simplify_eq/=.
Qed.

Lemma blocked_handle a db tm db' : handle self db tm = Ret db' -> blocked a db -> blocked a db'.
Proof.
  destruct tm as [now [r|r|ts|ps]]; cbn [handle]; intros H' Hb.
  - unfold blocked in *. assert (payable db' = payable db) as ->; [|done].
    unfold record_service_provided, more_money_receivable, receivable_try_update, try_insert in H'.
    unbind. repeat (case_match; unbind); done.
  - unfold record_service_consumed in H'. unbind. case_match; unbind; [done|]. by eapply blocked_more.
  - unfold blocked in *. by rewrite (payable_received _ _ _ _ H').
  - revert H'. unfold handle_sent_payments. apply (ofold_inv (blocked a)); [|done].
    intros d [p|e] d' _ Hd Hp; [by eapply blocked_sent; eauto|by simplify_eq].
Qed.

Lemma blocked_not_listed a db l acc :
  blocked a db -> non_pending_payables db = Ret l -> acc ∈ l -> addr (pa_wallet acc) <> a.
Proof.
  intros (r & Hr & Hp) Hl Hacc Ha. unfold non_pending_payables in Hl. apply omapM_ret_Forall2 in Hl.
  apply list_elem_of_lookup in Hacc as [i Hi].
  destruct (Forall2_lookup_r _ _ _ _ _ Hl Hi) as ([k row] & Hrow & E).
  apply list_elem_of_lookup_2, list_elem_of_filter in Hrow as [Hnone Hrow]. simpl in Hnone.
  rewrite rows_perm, elem_of_map_to_list in Hrow. unfold payable_account in E. unbind.
  change (addr (mkWallet (Address k))) with k in Hr. destruct Hp as [h Hh]. congruence.
Qed.
End pending.

(** ** Scanning for payments received, again and again *)
Section rescan.
Context `{!Sqlite} `{!ConfigLib} `{!EthSign} `{!Web3} `{!Rlp} (keccak256 : bytes -> bytes) (chain_id : Z).
Context (self : Accountant) (c : chain).

(** The transfer of [n] from wallet address [a] to the local Node, in block [block], and no other: a query
    yields it from its own block on, as the filter's first block is included in the search. *)
Record only_payment (a : bytes) (n block : Z) (log : Log) : Prop := {
  op_topics : exists t0 rest, log_topics log = t0 :: address_topic a :: rest;
  op_address : length a = 20%nat;
  op_data : (length (log_data log) <= 32)%nat;
  op_amount : to_gwei (from_big_endian (log_data log)) = Some n;
  op_block : log_block_number log = Some block;
  op_logs : forall b, logs c (mkFilter (contract_address chain_id) b TRANSACTION_LITERAL
                                (address_topic (addr (acc_earning_wallet self))))
                      = Some (if b <=? block then [log] else [])
}.

#[local] Instance web3_iface : BlockchainInterface := nonclandestine_interface keccak256 chain_id.

Lemma retrieve_only a n block log b :
  only_payment a n block log -> initialized (acc_earning_wallet self) -> block < 2 ^ 64 -> b <= block ->
  retrieve_transactions c b (acc_earning_wallet self) =
  Ret (Ok [mkTransaction block (mkWallet (Address a)) n]).
Proof.
  intros [(t0 & rest & Ht) Hlen Hd Hn Hb Hlogs] Hi Hmax Hle. cbn [retrieve_transactions web3_iface nonclandestine_interface].
  unfold web3_retrieve_transactions. rewrite (addr_ret _ Hi). cbn [obind]. rewrite Hlogs.
  rewrite (proj2 (Z.leb_le _ _)) by done. cbn [existsb]. unfold bad_log. rewrite Ht.
  rewrite (proj2 (Nat.ltb_ge 32 _)) by done. cbn [length Nat.ltb Nat.leb orb]. cbn [omapM].
  unfold log_transaction. rewrite Hb, Hn, Ht. rewrite (proj2 (Z.ltb_lt _ _)) by done.
  cbn [expect obind lookup list_lookup omap id]. unfold wallet_from_topic, address_topic.
  rewrite drop_app_length' by done. rewrite take_ge by lia. done.
Qed.

Lemma start_block_value db v : start_block db = Ret v -> exists t, config db !! lit "start_block" = Some t.
Proof.
  unfold start_block, or_panic, get_u64, get_string, try_get. destruct (config db !! lit "start_block"); [eauto|done].
Qed.

Lemma start_block_written db t block :
  uint 64 block -> start_block (set_config (<[lit "start_block" := Some (dec block)]> t) db) = Ret block.
Proof.
  intros Hb. unfold start_block, or_panic, get_u64, get_string, try_get. cbn [config set_config].
  rewrite lookup_insert_eq. cbn [rbind]. by rewrite parse_uint_dec.
Qed.

Lemma round_credits a n block log db start b t now :
  only_payment a n block log -> initialized (acc_earning_wallet self) -> acc_bound self = true ->
  uint 64 block -> start_block db = Ret start -> start <= block -> 0 <= now -> uint 63 n ->
  receivable db !! a = Some (mkReceivableRow _ (Integer b) t) -> i64 (b - n) ->
  exists db', received_payments_round now self c db = Ret db' /\ start_block db' = Ret block /\
    receivable db' !! a = Some (mkReceivableRow _ (Integer (b - n)) now).
Proof.
  intros Hop Hi Hbd Hbl Hst Hle Hnow Hn Hrow Hfit. unfold received_payments_round, scan_for_received_payments.
  rewrite Hst, Hbd. cbn [obind]. unfold handle_retrieve_transactions. cbn [rt_start_block rt_recipient].
  rewrite (retrieve_only a n block log) by (done || (unfold uint in Hbl; lia)). cbn [obind transactions_retrieved].
  unfold handle_received_payments, more_money_received, try_multi_insert_payment. cbn [max_block map fold_right].
  destruct (start_block_value _ _ Hst) as [v Hv].
  unfold set_start_block_transactionally, set_u64_transactional, config_try_update.
  cbn [block_number]. rewrite Hv. cbn [obind ofold]. unfold receive_one, to_time_t.
  rewrite (proj2 (Z.ltb_ge _ _)) by lia. cbn [obind tx_from gwei_amount address kind receivable set_config].
  rewrite Hrow. cbn [obind rr_balance]. rewrite as_i64_small by (unfold i64; unfold uint in Hn; lia).
  rewrite sql_sub_ok by done. eexists. split_and!; [done|by apply start_block_written|].
  cbn [receivable set_receivable]. by rewrite lookup_insert_eq.
Qed.

Lemma rounds_credit a n block log nows : forall db start b t,
  only_payment a n block log -> initialized (acc_earning_wallet self) -> acc_bound self = true ->
  uint 64 block -> start_block db = Ret start -> start <= block -> Forall (fun now => 0 <= now) nows -> uint 63 n ->
  receivable db !! a = Some (mkReceivableRow _ (Integer b) t) -> b < 2 ^ 63 ->
  - 2 ^ 63 <= b - Z.of_nat (length nows) * n ->
  exists db' t', ofold (fun db now => received_payments_round now self c db) db nows = Ret db' /\
    receivable db' !! a = Some (mkReceivableRow _ (Integer (b - Z.of_nat (length nows) * n)) t').
Proof.
  induction nows as [|now nows IH]; intros db start b t Hop Hi Hbd Hbl Hst Hle Hnows Hn Hrow Hmax Hmin.
  { exists db, t. simpl. split; [done|]. by rewrite Z.sub_0_r. }
  apply Forall_cons in Hnows as [Hnow Hnows]. cbn [length] in *.
  replace (Z.of_nat (S (length nows)) * n) with (n + Z.of_nat (length nows) * n) in * by lia.
  assert (0 <= Z.of_nat (length nows) * n) by (unfold uint in Hn; nia).
  destruct (round_credits a n block log db start b t now) as (db1 & E & Hst1 & Hrow1); try done.
  { unfold i64. unfold uint in Hn. lia. }
  cbn [ofold]. rewrite E. cbn [obind].
  destruct (IH db1 block (b - n) now) as (db' & t' & E' & Hrow'); try done; [unfold uint in Hn; lia|lia|].
  exists db', t'. split; [done|]. rewrite Hrow'. do 3 f_equal. lia.
Qed.
End rescan.

(** ** Delinquencies *)
Section delinquencies.
Context `{!Sqlite} `{!EthSign}.

Definition by_address (a : bytes) : Wallet := mkWallet (Address a).

(** The cache in memory holds what the table holds. *)
Definition in_step (s : Db * BannedCache) : Prop := forall w, w ∈ s.2 <-> exists a, w = by_address a /\ a ∈ banned s.1.

Definition readable (r : ReceivableRow) : Prop :=
  exists b, rr_balance r = Integer b /\ 0 <= rr_last_received_timestamp r.

Definition same_but_banned (b : gset bytes) (s s' : Db * BannedCache) : Prop :=
  s'.1 = set_banned b s.1 /\ in_step s'.

Lemma is_banned_in_step s a : in_step s -> is_banned s.2 (by_address a) = Ret (bool_decide (a ∈ banned s.1)).
Proof.
  intros Hs. unfold is_banned. cbn [as_address_wallet address by_address kind obind]. f_equal.
  apply bool_decide_ext. rewrite (Hs (by_address a)). split; [by intros (a' & [= <-] & ?)|eauto].
Qed.

Lemma ban_ok s a :
  in_step s -> exists s', ban s.1 s.2 (by_address a) = Ret s' /\ same_but_banned ({[a]} ∪ banned s.1) s s'.
Proof.
  intros Hs. unfold ban. rewrite is_banned_in_step by done. cbn [obind]. case_bool_decide as Ha.
  - eexists. split; [done|]. split; [|done]. destruct s as [[] ?]. unfold set_banned. simpl in *. f_equal. set_solver.
  - cbn [by_address address kind obind ban_insert as_address_wallet]. eexists. split; [done|]. split; [done|].
    intros w. cbn [fst snd banned set_banned]. rewrite elem_of_union, elem_of_singleton, (Hs w). set_solver.
Qed.

Lemma unban_ok s a :
  in_step s -> exists s', unban s.1 s.2 (by_address a) = Ret s' /\ same_but_banned (banned s.1 ∖ {[a]}) s s'.
Proof.
  intros Hs. unfold unban. rewrite is_banned_in_step by done. cbn [obind]. case_bool_decide as Ha; cbn [negb].
  - cbn [by_address address kind obind ban_remove as_address_wallet]. eexists. split; [done|]. split; [done|].
    intros w. cbn [fst snd banned set_banned]. rewrite elem_of_difference, elem_of_singleton, (Hs w). split.
    + intros [(a' & -> & Ha') Hne]. exists a'. split; [done|]. set_solver.
    + intros (a' & -> & Ha'). apply elem_of_difference in Ha' as [Ha' Hne]. split; [eauto|].
      intros [= ->]. set_solver.
  - eexists. split; [done|]. split; [|done]. destruct s as [[] ?]. unfold set_banned. simpl in *. f_equal. set_solver.
Qed.

Lemma bans_ok (f : Db -> BannedCache -> Wallet -> outcome (Db * BannedCache)) (g : bytes -> gset bytes -> gset bytes) l :
  (forall s a, in_step s -> exists s', f s.1 s.2 (by_address a) = Ret s' /\ same_but_banned (g a (banned s.1)) s s') ->
  forall s, in_step s -> Forall (fun acc => exists a, ra_wallet acc = by_address a) l ->
  exists s', ofold (fun s acc => f s.1 s.2 (ra_wallet acc)) s l = Ret s' /\
    same_but_banned (fold_left (fun b acc => g (addr (ra_wallet acc)) b) l (banned s.1)) s s'.
Proof.
  intros Hf. induction l as [|acc l IH]; intros s Hs Hl; cbn [ofold fold_left].
  { exists s. split; [done|]. split; [by destruct s as [[] ?]|done]. }
  apply Forall_cons in Hl as [[a Ha] Hl]. rewrite Ha.
  destruct (Hf s a Hs) as (s1 & -> & E1 & Hs1). cbn [obind].
  destruct (IH s1 Hs1 Hl) as (s2 & -> & E2 & Hs2). exists s2. split; [done|]. split; [|done].
  rewrite E2, E1. done.
Qed.

(** The addresses of the rows that a query selects *)
Lemma accounts_ok (P : bytes * ReceivableRow -> Prop) `{!forall x, Decision (P x)} (t : gmap bytes ReceivableRow) :
  map_Forall (fun _ r => readable r) t ->
  exists l, omapM row_to_account (filter P (rows t)) = Ret l /\
    Forall (fun acc => exists a, ra_wallet acc = by_address a) l /\
    forall a, a ∈ map (fun acc => addr (ra_wallet acc)) l <-> exists r, t !! a = Some r /\ P (a, r).
Proof.
  intros Ht. destruct (omapM_total row_to_account (filter P (rows t))) as [l Hl].
  { intros [a r] Hx. apply list_elem_of_filter in Hx as [_ Hx]. rewrite rows_perm, elem_of_map_to_list in Hx.
    apply Ht in Hx as (b & Hb & Hr). unfold row_to_account, from_time_t. rewrite Hb. cbn [get_i64 obind].
    rewrite (proj2 (Z.ltb_ge _ _)) by done. by eexists. }
  exists l. split; [done|]. apply omapM_ret_Forall2 in Hl.
  assert (Hw : Forall2 (fun x acc => ra_wallet acc = by_address x.1) (filter P (rows t)) l).
  { eapply Forall2_impl; [done|]. intros [a r] acc Hacc. unfold row_to_account in Hacc. by unbind. }
  split.
  - apply Forall_lookup. intros i acc Hi. destruct (Forall2_lookup_r _ _ _ _ _ Hw Hi) as (x & _ & ->). eauto.
  - intros a. rewrite list_elem_of_fmap. split.
    + intros (acc & -> & [i Hi]%list_elem_of_lookup). destruct (Forall2_lookup_r _ _ _ _ _ Hw Hi) as ([a r] & Hx & E).
      apply list_elem_of_lookup_2, list_elem_of_filter in Hx as [HP Hx].
      rewrite rows_perm, elem_of_map_to_list in Hx. rewrite E. exists r. done.
    + intros (r & Hr & HP). assert (Hx : (a, r) ∈ filter P (rows t)).
      { apply list_elem_of_filter. split; [done|]. by rewrite rows_perm, elem_of_map_to_list. }
      apply list_elem_of_lookup in Hx as [i Hi]. destruct (Forall2_lookup_l _ _ _ _ _ Hw Hi) as (acc & Hacc & E).
      exists acc. rewrite E. split; [done|]. by eapply list_elem_of_lookup_2.
Qed.

Lemma fold_union (l : list ReceivableAccount) (b : gset bytes) :
  fold_left (fun b acc => {[addr (ra_wallet acc)]} ∪ b) l b = list_to_set (map (fun acc => addr (ra_wallet acc)) l) ∪ b.
Proof. revert b. induction l as [|acc l IH]; intros b; simpl; [set_solver|]. rewrite IH. set_solver. Qed.

Lemma fold_difference (l : list ReceivableAccount) (b : gset bytes) :
  fold_left (fun b acc => b ∖ {[addr (ra_wallet acc)]}) l b = b ∖ list_to_set (map (fun acc => addr (ra_wallet acc)) l).
Proof. revert b. induction l as [|acc l IH]; intros b; simpl; [set_solver|]. rewrite IH. set_solver. Qed.

Definition delinquent (now : Z) (db : Db) (a : bytes) : Prop :=
  exists r, receivable db !! a = Some r /\ is_delinquency PAYMENT_CURVES now r = true.

Definition settled (db : Db) (a : bytes) : Prop :=
  exists r b, receivable db !! a = Some r /\ rr_balance r = Integer b /\ b <= unban_when_balance_below_gwub PAYMENT_CURVES.

Lemma delinquent_owes now db a r b :
  receivable db !! a = Some r -> is_delinquency PAYMENT_CURVES now r = true -> rr_balance r = Integer b ->
  rr_last_received_timestamp r < sugg_and_grace PAYMENT_CURVES now /\ permanent_debt_allowed_gwub PAYMENT_CURVES < b.
Proof.
  intros _ Hd Hb. unfold is_delinquency in Hd. rewrite !andb_true_iff in Hd. destruct Hd as [[Ht _] Hg].
  rewrite Hb in Hg. cbn [balance_gt_int] in Hg. apply Z.ltb_lt in Ht, Hg. done.
Qed.

Lemma scan_ok now db cache :
  in_step (db, cache) -> map_Forall (fun _ r => readable r) (receivable db) -> 0 <= now ->
  exists b s', scan_for_delinquencies now db cache = Ret s' /\ same_but_banned b (db, cache) s' /\
    forall a, a ∈ b <-> delinquent now db a \/ a ∈ banned db /\ ~ settled db a.
Proof.
  intros Hs Hr Hnow. unfold scan_for_delinquencies, new_delinquencies, to_time_t.
  rewrite (proj2 (Z.ltb_ge _ _)) by done. cbn [obind].
  destruct (accounts_ok (fun row => is_delinquency PAYMENT_CURVES now row.2 = true /\ row.1 ∉ banned db) (receivable db) Hr)
    as (new & Hnew & Hnw & Hna). rewrite Hnew. cbn [obind]. unfold ban_accounts.
  destruct (bans_ok ban (fun a b => {[a]} ∪ b) new ban_ok (db, cache) Hs Hnw) as ([db1 cache1] & -> & E1 & Hs1).
  cbn [obind fst snd] in *. rewrite fold_union in E1. unfold paid_delinquencies.
  assert (receivable db1 = receivable db) as Hdb1 by by subst.
  destruct (accounts_ok (fun row => balance_le (rr_balance row.2) (unban_when_balance_below_gwub PAYMENT_CURVES) = true /\
    row.1 ∈ banned db1) (receivable db1)) as (paid & Hpaid & Hpw & Hpa); [by rewrite Hdb1|].
  rewrite Hpaid. cbn [obind]. unfold unban_accounts.
  destruct (bans_ok unban (fun a b => b ∖ {[a]}) paid unban_ok (db1, cache1) Hs1 Hpw) as (s2 & -> & E2 & Hs2).
  rewrite fold_difference in E2. cbn [fst snd] in *. eexists _, s2. split; [done|].
  split; [split; [rewrite E2, E1; done|done]|]. intros a. subst db1. cbn [banned set_banned receivable] in *.
  rewrite elem_of_difference, elem_of_union, !elem_of_list_to_set, Hna, Hpa. cbn [fst snd].
  setoid_rewrite elem_of_union. setoid_rewrite elem_of_list_to_set. setoid_rewrite Hna. cbn [fst snd]. split.
  - intros [[(r & Hra & Hd & _)|Hb] Hnp]; [left; by exists r|]. right. split; [done|].
    intros (r & b & Hra & Hrb & Hle). apply Hnp. exists r. rewrite Hrb. cbn [balance_le].
    rewrite (proj2 (Z.leb_le _ _)) by done. auto.
  - intros [(r & Hra & Hd)|[Hb Hns]].
    + assert (Hnp : ~ exists r0, receivable db !! a = Some r0 /\
        balance_le (rr_balance r0) (unban_when_balance_below_gwub PAYMENT_CURVES) = true).
      { intros (r0 & Hr0 & Hle). simplify_eq. destruct (Hr _ _ Hra) as (b & Hb & _).
        destruct (delinquent_owes now db a r b Hra Hd Hb) as [_ Hgt]. rewrite Hb in Hle. cbn [balance_le] in Hle.
        apply Z.leb_le in Hle. change (permanent_debt_allowed_gwub PAYMENT_CURVES) with 10000000 in Hgt.
        change (unban_when_balance_below_gwub PAYMENT_CURVES) with 10000000 in Hle. lia. }
      split; [|intros (r0 & Hr0 & Hle & _); apply Hnp; eauto].
      destruct (decide (a ∈ banned db)); [by right|left; by exists r].
    + split; [by right|]. intros (r & Hra & Hle & _). apply Hns. destruct (Hr _ _ Hra) as (b & Hrb & _).
      exists r, b. rewrite Hrb in Hle. apply Z.leb_le in Hle. auto.
Qed.
End delinquencies.

(** ** Paying debts *)
(** What the bridge promises to the Accountant: with this wallet to pay from, it always has an answer. *)
Class CanPay `{!EthSign} `{!Web3} `{!BlockchainInterface} (payer : Wallet) : Prop := {
  count_answers c : exists r, get_transaction_count c payer = Ret r;
  send_answers c to amount nonce price :
    initialized to -> uint 64 amount -> uint 64 price ->
    exists c' r, send_transaction c payer to amount nonce price = Ret (c', r)
}.

Section paying.
Context `{!Sqlite} `{!ConfigLib} `{!EthSign} `{!Web3} `{!BlockchainInterface}.
Context (payer : Wallet) `{!CanPay payer} (now : Z).

Definition account_ok (acc : PayableAccount) : Prop :=
  (exists a, pa_wallet acc = by_address a) /\ 0 <= pa_balance acc < 2 ^ 63.

(** The answer for an account: a payment of all that is owed, or an error *)
Definition answer_for (acc : PayableAccount) (r : result Payment BlockchainError) : Prop :=
  match r with Ok p => exists h, p = mkPayment (pa_wallet acc) (pa_balance acc) now h | Err _ => True end.

Lemma pay_all_ok db g accounts : forall c,
  gas_price db = Ret g -> uint 64 g -> Forall account_ok accounts ->
  exists c' rs, pay_all db now payer c accounts = Ret (c', rs) /\ Forall2 answer_for accounts rs.
Proof.
  intros c Hg Hu Hacc. revert c. induction Hacc as [|acc accounts [[a Ha] Hb] Hrest IH]; intros c; cbn [pay_all].
  { by exists c, []. }
  assert (exists c1 r, pay_one db now payer c acc = Ret (c1, r) /\ answer_for acc r) as (c1 & r & -> & Hr).
  { unfold pay_one. destruct (count_answers c) as [[nonce|e] ->]; cbn [obind]; [|by eexists _, _].
    unfold u64_try_from. rewrite (proj2 (Z.ltb_ge _ _)) by lia. cbn [expect obind]. rewrite Hg. cbn [obind].
    destruct (send_answers c (pa_wallet acc) (pa_balance acc) nonce g) as (c1 & r & ->);
      [by rewrite Ha|unfold uint; lia|done|]. cbn [obind]. eexists _, _. split; [done|].
    destruct r as [h|]; [by exists h|done]. }
  cbn [obind]. destruct (IH c1) as (c' & rs & -> & Hrs). cbn [obind]. eexists _, _. split; [done|]. by constructor.
Qed.

Definition paid_row (h : bytes) : PayableRow := mkPayableRow _ (Integer 0) now (Some h).

Lemma payment_sent_row db a b row h :
  0 <= now -> 0 <= b < 2 ^ 63 -> payable db !! a = Some row -> pr_balance row = Integer b ->
  payment_sent db (mkPayment (by_address a) b now h) = Ret (set_payable (<[a := paid_row h]> (payable db)) db).
Proof.
  intros Hnow Hb Hrow Hbal. unfold payment_sent, try_decrease_balance, i64_try_from, to_time_t.
  cbn [pay_amount pay_timestamp pay_to pay_transaction].
  rewrite (proj2 (Z.ltb_lt _ _)), (proj2 (Z.ltb_ge _ _)) by lia. cbn [expect obind by_address address kind].
  rewrite Hrow, Hbal, sql_sub_ok, Z.sub_diag by (unfold i64; lia). done.
Qed.

(** The transactions among the answers, by the address of who was paid *)
Definition accepted (rs : list (result Payment BlockchainError)) : list (bytes * bytes) :=
  omap (fun r => match r with Ok p => Some (addr (pay_to p), pay_transaction p) | Err _ => None end) rs.

Lemma accepted_among accounts rs a h :
  Forall2 answer_for accounts rs -> (a, h) ∈ accepted rs -> a ∈ map (fun acc => addr (pa_wallet acc)) accounts.
Proof.
  induction 1 as [|acc r accounts rs Hr _ IH]; [by intros ?%elem_of_nil|]. unfold accepted in *. cbn [omap list_omap map].
  destruct r as [p|e]; [|right; by apply IH]. destruct Hr as [h' ->]. intros [[= -> _]|Hin]%elem_of_cons; [left|right; by apply IH].
Qed.

Lemma sent_results accounts rs : forall db,
  0 <= now -> Forall2 answer_for accounts rs -> Forall account_ok accounts ->
  NoDup (map (fun acc => addr (pa_wallet acc)) accounts) ->
  (forall acc, acc ∈ accounts -> exists r, payable db !! addr (pa_wallet acc) = Some r /\ pr_balance r = Integer (pa_balance acc)) ->
  exists t, handle_sent_payments db rs = Ret (set_payable t db) /\
    forall a, t !! a = match (list_to_map (accepted rs) : gmap bytes bytes) !! a with
                       | Some h => Some (paid_row h)
                       | None => payable db !! a
                       end.
Proof.
  intros db Hnow Hf. revert db. unfold handle_sent_payments.
  induction Hf as [|acc r accounts rs Hr Hf IH]; intros db Hok Hnd Hrow; cbn [ofold map] in *.
  { exists (payable db). split; [by destruct db|]. intros a. change (list_to_map (accepted [])) with (∅ : gmap bytes bytes). by rewrite lookup_empty. }
  apply Forall_cons in Hok as [[[a Ha] Hb] Hok]. apply NoDup_cons in Hnd as [Hnin Hnd].
  destruct r as [p|e]; cbn [answer_for] in Hr.
  - destruct Hr as [h ->]. destruct (Hrow acc) as (row & Hpr & Hbal); [left|].
    rewrite Ha in *. change (addr (by_address a)) with a in *.
    rewrite (payment_sent_row db a (pa_balance acc) row h) by done. cbn [obind].
    destruct (IH (set_payable (<[a := paid_row h]> (payable db)) db)) as (t & -> & Ht); [done|done| |].
    { intros acc' Hacc'. destruct (Hrow acc') as (r' & Hr' & Hb'); [by right|]. exists r'.
      cbn [payable set_payable]. rewrite lookup_insert_ne; [done|]. intros ->. apply Hnin.
      by apply list_elem_of_fmap_2 with (f := fun acc => addr (pa_wallet acc)). }
    exists t. split; [by destruct db|]. intros a'. rewrite Ht. cbn [payable set_payable].
    change (accepted (Ok (mkPayment (by_address a) (pa_balance acc) now h) :: rs)) with ((a, h) :: accepted rs). cbn [list_to_map foldr fst snd].
    destruct (decide (a' = a)) as [->|]; [|by rewrite !lookup_insert_ne].
    rewrite !lookup_insert_eq. destruct (list_to_map (accepted rs) !! a) as [h'|] eqn:Ep; [|done].
    exfalso. apply Hnin. eapply accepted_among; [exact Hf|]. by apply elem_of_list_to_map_2.
  - cbn [obind]. destruct (IH db) as (t & -> & Ht); [done|done|intros; apply Hrow; by right|].
    exists t. by split.
Qed.

(** The rows of debts that no payment is under way for *)
Definition open_rows_readable (db : Db) : Prop :=
  map_Forall (fun _ r => pr_pending_payment_transaction r = None ->
    exists b, pr_balance r = Integer b /\ i64 b /\ 0 <= pr_last_paid_timestamp r) (payable db).

Definition open_rows_ok (db : Db) : Prop :=
  map_Forall (fun _ r => pr_pending_payment_transaction r = None ->
    exists b, pr_balance r = Integer b /\ i64 b /\ 0 <= pr_last_paid_timestamp r <= now) (payable db).

(** An account that has nothing under way *)
Definition listed (db : Db) (acc : PayableAccount) : Prop :=
  exists a r b, payable db !! a = Some r /\ pr_pending_payment_transaction r = None /\ pr_balance r = Integer b /\
    acc = mkPayableAccount (by_address a) b (pr_last_paid_timestamp r) None.

Lemma should_pay_answers acc : pa_last_paid_timestamp acc <= now -> exists b, should_pay now acc = Ret b.
Proof.
  intros Ht. unfold should_pay. rewrite (proj2 (Z.ltb_ge _ _)) by lia. repeat case_match; by eexists.
Qed.

Lemma should_pay_floor acc :
  should_pay now acc = Ret true ->
  permanent_debt_allowed_gwub PAYMENT_CURVES < pa_balance acc /\
  payment_suggested_after_sec PAYMENT_CURVES < now - pa_last_paid_timestamp acc.
Proof.
  unfold should_pay. destruct (Z.ltb_spec (now - pa_last_paid_timestamp acc) 0); [done|].
  destruct (Z.leb_spec (now - pa_last_paid_timestamp acc) (payment_suggested_after_sec PAYMENT_CURVES)); [done|].
  destruct (Z.leb_spec (pa_balance acc) (permanent_debt_allowed_gwub PAYMENT_CURVES)); [done|]. done.
Qed.

Lemma open_rows_read db : open_rows_ok db -> open_rows_readable db.
Proof. intros Hok a r Hr Hn. destruct (Hok a r Hr Hn) as (b & Hb & Hi & Ht & _). by exists b. Qed.

Lemma payables_listed db :
  open_rows_readable db ->
  exists l, non_pending_payables db = Ret l /\ NoDup (map (fun acc => addr (pa_wallet acc)) l) /\
    forall acc, acc ∈ l <-> listed db acc.
Proof.
  intros Hok. unfold non_pending_payables.
  set (sel := filter (fun row => pr_pending_payment_transaction row.2 = None) (rows (payable db))).
  assert (Hsel : forall a r, (a, r) ∈ sel <-> payable db !! a = Some r /\ pr_pending_payment_transaction r = None).
  { intros a r. unfold sel. rewrite list_elem_of_filter, rows_perm, elem_of_map_to_list. simpl. tauto. }
  assert (Hone : forall a r, (a, r) ∈ sel -> exists b, pr_balance r = Integer b /\
    payable_account (a, r) = Ret (mkPayableAccount (by_address a) b (pr_last_paid_timestamp r) None)).
  { intros a r [Hr Hn]%Hsel. destruct (Hok _ _ Hr Hn) as (b & Hb & _ & Ht). exists b. split; [done|].
    unfold payable_account, from_time_t. rewrite Hb. cbn [get_i64 obind]. by rewrite (proj2 (Z.ltb_ge _ _)) by lia. }
  destruct (omapM_total payable_account sel) as [l Hl].
  { intros [a r] Hx. destruct (Hone a r Hx) as (b & _ & ->). by eexists. }
  exists l. split; [done|]. apply omapM_ret_Forall2 in Hl. split.
  - assert (map (fun acc => addr (pa_wallet acc)) l = map fst sel) as ->.
    { symmetry. apply list_eq_Forall2, Forall2_fmap. eapply Forall2_impl; [exact Hl|].
      intros [a r] acc Hacc. unfold payable_account in Hacc. by unbind. }
    apply (sublist_NoDup _ (map fst (rows (payable db)))); [|apply (fmap_sublist fst), sublist_filter].
    rewrite rows_perm. apply NoDup_fst_map_to_list.
  - intros acc. split.
    + intros [i Hi]%list_elem_of_lookup. destruct (Forall2_lookup_r _ _ _ _ _ Hl Hi) as ([a r] & Hx & E).
      apply list_elem_of_lookup_2 in Hx. destruct (Hone a r Hx) as (b & Hb & E'). apply Hsel in Hx as [Hr Hn].
      exists a, r, b. split_and!; [done..|congruence].
    + intros (a & r & b & Hr & Hn & Hb & ->). assert (Hx : (a, r) ∈ sel) by by apply Hsel.
      destruct (Hone a r Hx) as (b' & Hb' & E). apply list_elem_of_lookup in Hx as [i Hi].
      destruct (Forall2_lookup_l _ _ _ _ _ Hl Hi) as (acc & Hacc & E2). apply list_elem_of_lookup_2 in Hacc.
      rewrite E in E2. injection E2 as <-. rewrite Hb in Hb'. by injection Hb' as <-.
Qed.

(** The scan asks for just the payments that are due. *)
Lemma payables_scanned self db :
  open_rows_ok db -> acc_bound self = true ->
  exists l, scan_for_payables now self db = Ret (match l with [] => None | _ => Some l end) /\
    NoDup (map (fun acc => addr (pa_wallet acc)) l) /\ forall acc, acc ∈ l <-> listed db acc /\ should_pay now acc = Ret true.
Proof.
  intros Hok Hb. unfold scan_for_payables. destruct (payables_listed db (open_rows_read db Hok)) as (all & -> & Hnd & Hall). cbn [obind].
  destruct (ofilter_total (should_pay now) all) as (l & Hf & Hl).
  { intros acc (a & r & b & Hr & Hn & _ & ->)%Hall. apply should_pay_answers. by destruct (Hok _ _ Hr Hn) as (? & _ & _ & ? & ?). }
  rewrite Hf. cbn [obind]. rewrite Hb. exists l. split; [by destruct l|]. split.
  - eapply sublist_NoDup; [exact Hnd|]. apply (fmap_sublist (fun acc => addr (pa_wallet acc))). by eapply ofilter_sublist.
  - intros acc. by rewrite Hl, Hall.
Qed.

(** An account that was last paid later than now makes the scan panic. *)
Lemma scan_panics self db a r :
  open_rows_readable db -> payable db !! a = Some r -> pr_pending_payment_transaction r = None ->
  now < pr_last_paid_timestamp r -> scan_for_payables now self db = Panic.
Proof.
  intros Hok Hr Hn Hlate. unfold scan_for_payables. destruct (payables_listed db Hok) as (all & -> & _ & Hall). cbn [obind].
  destruct (Hok a r Hr Hn) as (b & Hb & _). rewrite (ofilter_panics _ _ (mkPayableAccount (by_address a) b (pr_last_paid_timestamp r) None)).
  - done.
  - apply Hall. by exists a, r, b.
  - unfold should_pay. cbn [pa_last_paid_timestamp]. by rewrite (proj2 (Z.ltb_lt _ _)) by lia.
  - intros acc _. unfold should_pay. repeat case_match; eauto.
Qed.

Lemma round_pays db g self bridge c :
  open_rows_ok db -> 0 <= now -> gas_price db = Ret g -> uint 64 g -> acc_bound self = true ->
  bb_consuming_wallet bridge = Some payer ->
  exists accounts c' rs t,
    (forall acc, acc ∈ accounts <-> listed db acc /\ should_pay now acc = Ret true) /\
    NoDup (map (fun acc => addr (pa_wallet acc)) accounts) /\ Forall account_ok accounts /\
    pay_all db now payer c accounts = Ret (c', rs) /\ payables_round now self bridge c db = Ret (c', set_payable t db) /\
    forall a, t !! a = match (list_to_map (accepted rs) : gmap bytes bytes) !! a with
                       | Some h => Some (paid_row h)
                       | None => payable db !! a
                       end.
Proof.
  intros Hok Hnow Hg Hu Hbd Hpayer. unfold payables_round.
  destruct (payables_scanned self db Hok Hbd) as (accounts & -> & Hnd & Hacc). cbn [obind].
  assert (Hdue : forall acc, acc ∈ accounts -> account_ok acc /\
    exists r, payable db !! addr (pa_wallet acc) = Some r /\ pr_balance r = Integer (pa_balance acc)).
  { intros acc [(a & r & b & Hr & Hn & Hb & ->) Hpay]%Hacc. destruct (Hok _ _ Hr Hn) as (b' & Hb' & Hi & _).
    pose proof (should_pay_floor _ Hpay) as [Hfl _]. change (permanent_debt_allowed_gwub PAYMENT_CURVES) with 10000000 in Hfl.
    rewrite Hb in Hb'. injection Hb' as <-. cbn [pa_balance] in Hfl. split; [split; [by eexists|simpl; unfold i64 in Hi; lia]|by exists r]. }
  assert (Hoks : Forall account_ok accounts) by (apply Forall_forall; intros x Hx; by apply Hdue).
  destruct (pay_all_ok db g accounts c Hg Hu Hoks) as (c' & rs & Ea & Hrs).
  destruct (sent_results accounts rs db Hnow Hrs Hoks Hnd) as (t & Et & Ht); [intros acc Hin; by apply Hdue|].
  exists accounts, c', rs, t. split_and!; [done..| |done]. destruct accounts as [|acc0 accounts0].
  { cbn [pay_all] in Ea. injection Ea as <- <-. unfold handle_sent_payments in Et. cbn [ofold] in Et. by injection Et as <-. }
  unfold handle_report_accounts_payable. rewrite Hpayer, Ea. cbn [obind payables_reported]. by rewrite Et.
Qed.
End paying.

(** The bridge over web3 keeps the promise, for a wallet that can sign. *)
Lemma web3_can_pay `{!EthSign} `{!Web3} `{!Rlp} (keccak256 : bytes -> bytes) (chain_id : Z) (payer : Wallet) :
  initialized payer -> (forall msg, exists s, wallet_sign payer msg = Ok s) ->
  @CanPay _ _ (nonclandestine_interface keccak256 chain_id) payer.
Proof.
  intros Hi Hsign. split.
  - intros c. cbn [get_transaction_count nonclandestine_interface]. unfold web3_get_transaction_count.
    rewrite (addr_ret _ Hi). by eexists.
  - intros c to amount nonce price Hto [Ha Hmax] [Hp Hpmax].
    cbn [send_transaction nonclandestine_interface]. unfold web3_send_transaction. rewrite (addr_ret _ Hto).
    cbn [obind]. unfold to_wei, GWEI. rewrite !(proj2 (Z.ltb_lt _ _)) by (norm_pow; lia). cbn [obind].
    unfold raw_sign, ecdsa_sign. destruct (Hsign (tx_hash keccak256
      (mkRawTransaction nonce (Some (contract_address chain_id)) 0 (price * 1000000000)
        (gas_limit_for (transfer_data (addr to) (amount * 1000000000)))
        (transfer_data (addr to) (amount * 1000000000))) chain_id)) as [s ->]. cbn [obind].
    destruct (send_raw_transaction c _). by eexists _, _.
Qed.

(** *** What the chain makes of a round of payments *)
Section settling.
Context `{!EthSign} `{!Web3} `{!Rlp} (keccak256 : bytes -> bytes) (chain_id : Z) (payer : Wallet) (price : Z).

(** The transaction that pays an account: the whole of the debt, by a call of the contract's [transfer] *)
Definition transfer_of (nonce : Z) (acc : PayableAccount) : RawTransaction :=
  let call := transfer_data (addr (pa_wallet acc)) (pa_balance acc * GWEI) in
  mkRawTransaction nonce (Some (contract_address chain_id)) 0 (price * GWEI) (gas_limit_for call) call.

(** One account after the other, in the state that the chain is then in: an account is passed over if the chain does
    not tell the payer's number of transactions, or refuses the signed transaction of that number; [paid]
    are those it accepts, with their hashes. *)
Inductive settles : chain -> list PayableAccount -> chain -> list (bytes * bytes) -> Prop :=
| settles_nil c : settles c [] c []
| settles_uncounted c acc accounts c' paid :
    transaction_count c (addr payer) = None -> settles c accounts c' paid -> settles c (acc :: accounts) c' paid
| settles_refused c acc accounts nonce signed c1 c' paid :
    transaction_count c (addr payer) = Some nonce -> raw_sign keccak256 (transfer_of nonce acc) payer chain_id = Ret signed ->
    send_raw_transaction c signed = (c1, None) -> settles c1 accounts c' paid -> settles c (acc :: accounts) c' paid
| settles_accepted c acc accounts nonce signed c1 c' paid h :
    transaction_count c (addr payer) = Some nonce -> raw_sign keccak256 (transfer_of nonce acc) payer chain_id = Ret signed ->
    send_raw_transaction c signed = (c1, Some h) -> settles c1 accounts c' paid ->
    settles c (acc :: accounts) c' ((addr (pa_wallet acc), h) :: paid).

Lemma pay_all_settles `{!Sqlite} (now : Z) db accounts : forall c c' rs,
  initialized payer -> gas_price db = Ret price -> Forall account_ok accounts ->
  @pay_all _ (nonclandestine_interface keccak256 chain_id) _ db now payer c accounts = Ret (c', rs) ->
  settles c accounts c' (accepted rs).
Proof.
  intros c c' rs Hi Hg Hok. revert c c' rs. induction Hok as [|acc accounts [[a Ha] Hb] _ IH]; intros c c' rs; cbn [pay_all].
  { intros [= <- <-]. constructor. }
  intros ([c1 r] & E1 & ([c2 rs'] & E2 & [= <- <-])%obind_ret_inv)%obind_ret_inv. apply IH in E2. revert E1.
  unfold pay_one. cbn [get_transaction_count send_transaction nonclandestine_interface].
  unfold web3_get_transaction_count. rewrite (addr_ret _ Hi). cbn [obind].
  destruct (transaction_count c (addr payer)) as [nonce|] eqn:En.
  2: { intros [= <- <-]. by constructor. }
  unfold u64_try_from. rewrite (proj2 (Z.ltb_ge _ _)) by lia. cbn [expect obind]. rewrite Hg. cbn [obind].
  intros ([c3 sent] & Es & [= <- <-])%obind_ret_inv. revert Es. unfold web3_send_transaction.
  rewrite addr_ret by (by rewrite Ha). cbn [obind]. intros (wei & Ew & (gw & Eg & (signed & Esig & Es)%obind_ret_inv)%obind_ret_inv)%obind_ret_inv.
  unfold to_wei in Ew, Eg. cbn zeta in Ew, Eg. destruct (pa_balance acc * GWEI <? 2 ^ 256); [|done]. destruct (price * GWEI <? 2 ^ 256); [|done].
  injection Ew as <-. injection Eg as <-.
  destruct (send_raw_transaction c signed) as [c4 [h|]] eqn:Esend; injection Es as <- <-.
  - by eapply settles_accepted.
  - by eapply settles_refused.
Qed.
End settling.

(** ** Properties *)

(** C14: the Accountant's tables are a faithful ledger. Through any sequence of reports of services provided
    and consumed and of payments received and sent, handled at any times, nothing panics and the
    balances in the tables are at all times those of the abstract ledger: every service charged with
    its rate per service and its rate per byte, none of them to the Node's own wallets, payments
    received deducted from accounts there are, payments sent deducted from debts. The one condition
    is that balances and the money moved stay below 2^63. *)
Theorem accountant_keeps_the_ledger `{!Sqlite} `{!EthSign} (self : Accountant)
    (tms : list (Z * ledger_msg)) (db : Db) (l : Ledger) (m : Z) :
  wallets_ok self -> Forall msg_ok tms -> keeps db l -> within m (owed_to_us l) -> within m (owed_by_us l) ->
  0 <= m -> m + fold_right (fun tm s => volume tm.2 + s) 0 tms < 2 ^ 63 ->
  exists db', ofold (handle self) db tms = Ret db' /\ keeps db' (fold_left (ledger_step self) (map snd tms) l).
Proof. apply run_keeps. Qed.

Definition toy_accountant : Accountant := mkAccountant (Some (by_address [1])) (by_address [2]) true.

Definition toy_messages : list (Z * ledger_msg) :=
  [(5, Provided (mkServiceReport (by_address [3]) 10 100 7)); (6, Provided (mkServiceReport (by_address [2]) 10 100 7));
   (7, Received [mkTransaction 9 (by_address [3]) 50; mkTransaction 9 (by_address [4]) 50]);
   (8, Consumed (mkServiceReport (by_address [4]) 2 1 1)); (9, Sent [Ok (mkPayment (by_address [4]) 3 9 [0])])].

Lemma accountant_keeps_the_ledger_witness :
  exists db', @ofold _ _ (@handle toy_sqlite toy_eth toy_accountant)
      (@create_database_tables toy_sqlite 1 5000) toy_messages = Ret db' /\
    @keeps toy_sqlite db' (mkLedger {[ [3] := 120 ]} {[ [4] := 0 ]}).
Proof.
  destruct (@accountant_keeps_the_ledger toy_sqlite toy_eth toy_accountant toy_messages
    (@create_database_tables toy_sqlite 1 5000) (mkLedger ∅ ∅) 0) as (db' & H1 & H2).
  - split; [done|]. by intros c [= <-].
  - repeat first [apply Forall_nil_2 | apply Forall_cons_2 | split]; simpl; (done || lia).
  - split_and!; [reflexivity..|]. by eexists.
  - apply map_Forall_empty.
  - apply map_Forall_empty.
  - done.
  - reflexivity.
  - exists db'. split; [exact H1|]. exact H2.
Defined.

(** A payment received is credited again at every scan. Every scan asks the chain for transactions from the
    start block on, that block included, and the handling of payments received sets the start block to
    the highest block among them. So a payment whose block is the last one with a payment to the Node is
    found by every further scan, and after [k] scans the payer's debt is down by [k] times the amount. *)
Theorem payment_is_credited_at_every_scan `{!Sqlite} `{!EthSign} `{!Web3} `{!Rlp}
    (keccak256 : bytes -> bytes) (chain_id : Z) (self : Accountant) (c : chain) (a : bytes) (n block : Z)
    (log : Log) (nows : list Z) (db : Db) (start b t : Z) :
  only_payment chain_id self c a n block log -> initialized (acc_earning_wallet self) -> acc_bound self = true ->
  uint 64 block -> start_block db = Ret start -> start <= block -> Forall (fun now => 0 <= now) nows -> uint 63 n ->
  receivable db !! a = Some (mkReceivableRow _ (Integer b) t) -> b < 2 ^ 63 ->
  - 2 ^ 63 <= b - Z.of_nat (length nows) * n ->
  exists db' t',
    ofold (fun db now => received_payments_round (interface := nonclandestine_interface keccak256 chain_id)
                           now self c db) db nows = Ret db' /\
    receivable db' !! a = Some (mkReceivableRow _ (Integer (b - Z.of_nat (length nows) * n)) t').
Proof. apply rounds_credit. Qed.

(** A chain with one payment of 50 gwub from [9...] in block 100, to the toy Accountant *)
Definition toy_log : Log :=
  mkLog [TRANSACTION_LITERAL; address_topic (replicate 20 9); address_topic [2]] (to_big_endian 32 50000000000) (Some 100).

Definition toy_web3 : Web3 := {|
  chain := unit;
  logs _ f := Some (if filter_from_block f <=? 100 then [toy_log] else []);
  transaction_count _ _ := Some 0;
  eth_balance _ _ := Some 0;
  token_balance _ _ _ := Some 0;
  send_raw_transaction c _ := (c, Some [42])
|}.

Definition toy_rlp : Rlp := {| rlp_list _ := [] |}.

Definition toy_owing (b : Z) : @Db toy_sqlite :=
  @set_receivable toy_sqlite {[ replicate 20 9 := mkReceivableRow _ (Integer b) 0 ]} (@create_database_tables toy_sqlite 2 5000).

Lemma payment_is_credited_at_every_scan_witness :
  exists db' t', ofold (fun db now => @received_payments_round toy_sqlite toy_eth toy_web3
      (@nonclandestine_interface toy_web3 toy_rlp toy_eth id 2) now toy_accountant tt db) (toy_owing 60) [10; 20; 30] = Ret db' /\
    @receivable toy_sqlite db' !! replicate 20 9 = Some (mkReceivableRow _ (Integer (-90)) t').
Proof.
  apply (@payment_is_credited_at_every_scan toy_sqlite toy_eth toy_web3 toy_rlp id 2 toy_accountant tt
    (replicate 20 9) 50 100 toy_log [10; 20; 30] (toy_owing 60) 0 60 0); try done.
  - split; [by eexists _, _|done..].
  - repeat constructor; lia.
Defined.

(** a wallet is paid once and never again. From the moment a payment to it has been recorded as sent, the
    transaction stays pending - its confirmation is not implemented - and no sequence of messages, however
    the debt grows, makes the scan for payables ask for another payment to that wallet. *)
Theorem sent_payment_is_final `{!Sqlite} `{!EthSign} (self : Accountant) (db db1 db2 : Db)
    (p : Payment) (tms : list (Z * ledger_msg)) (now : Z) (accounts : list PayableAccount) (acc : PayableAccount) :
  payment_sent db p = Ret db1 -> ofold (handle self) db1 tms = Ret db2 ->
  scan_for_payables now self db2 = Ret (Some accounts) -> acc ∈ accounts -> addr (pa_wallet acc) <> addr (pay_to p).
Proof.
  intros Hp Hrun Hscan Hin. assert (Hb : blocked (addr (pay_to p)) db2).
  { revert Hrun. apply (ofold_inv (blocked (addr (pay_to p)))).
    - intros d tm d' _ Hd Hh. by eapply blocked_handle.
    - eapply blocked_sent; [done|by right]. }
  unfold scan_for_payables in Hscan. unbind. destruct x0 as [|a0 l0]; [done|].
  destruct (acc_bound self); [|done]. simplify_eq.
  eapply blocked_not_listed; [done|done|]. eapply elem_of_sublist; [done|by eapply ofilter_sublist].
Qed.

Definition toy_debts : @Db toy_sqlite :=
  @set_payable toy_sqlite (list_to_map [([3], mkPayableRow _ (Integer 2000000000) 0 None);
                                        ([4], mkPayableRow _ (Integer 2000000000) 0 None)])
    (@create_database_tables toy_sqlite 2 5000).

Definition toy_payment : Payment := mkPayment (by_address [4]) 2000000000 100 [42].

Definition toy_after : outcome (@Db toy_sqlite * @Db toy_sqlite * option (list PayableAccount)) :=
  let* db1 := @payment_sent toy_sqlite toy_eth toy_debts toy_payment in
  let* db2 := @ofold _ _ (@handle toy_sqlite toy_eth toy_accountant) db1
                [(200, Consumed (mkServiceReport (by_address [4]) 1000 5 90000000))] in
  let* o := @scan_for_payables toy_sqlite 900000 toy_accountant db2 in
  Ret (db1, db2, o).

Lemma toy_after_scan :
  match toy_after with Ret (_, _, Some l) => map (fun acc => (@addr toy_eth (pa_wallet acc))) l | _ => [] end = [[3]].
Proof. vm_compute. reflexivity. Qed.

Lemma sent_payment_is_final_witness :
  exists db1 db2 accounts, toy_after = Ret (db1, db2, Some accounts) /\
    Forall (fun acc => @addr toy_eth (pa_wallet acc) <> [4]) accounts.
Proof.
  pose proof toy_after_scan as Hs. destruct toy_after as [[[db1 db2] [accounts|]]| |] eqn:E; try discriminate Hs.
  exists db1, db2, accounts. split; [reflexivity|]. unfold toy_after in E.
  apply obind_ret_inv in E as (d1 & E1 & E). apply obind_ret_inv in E as (d2 & E2 & E).
  apply obind_ret_inv in E as (o & E3 & [= -> -> ->]). apply Forall_forall. intros acc Hacc.
  exact (@sent_payment_is_final toy_sqlite toy_eth toy_accountant toy_debts db1 db2 toy_payment
    _ 900000 accounts acc E1 E2 E3 Hacc).
Defined.

(** A scan for delinquencies bans and unbans exactly those it should. If the cache in memory agrees with the
    table, the scan leaves everything but the bans alone, the two still agree, and banned are just
    those wallets that are delinquent now, and those that were banned before and have not settled. A
    delinquent wallet has last paid more than two days ago and owes more than the permanent debt
    allowed, so no wallet is banned for less; settled is a balance at or below the same amount. *)
Theorem delinquency_scan_is_exact `{!Sqlite} `{!EthSign} (now : Z) (db : Db) (cache : BannedCache) :
  in_step (db, cache) -> map_Forall (fun _ r => readable r) (receivable db) -> 2 * SECONDS_PER_DAY <= now < 2 ^ 62 ->
  exists b s', scan_for_delinquencies now db cache = Ret s' /\ same_but_banned b (db, cache) s' /\
    (forall a, a ∈ b <-> delinquent now db a \/ a ∈ banned db /\ ~ settled db a) /\
    forall a, delinquent now db a -> exists r n, receivable db !! a = Some r /\ rr_balance r = Integer n /\
      10000000 < n /\ rr_last_received_timestamp r < now - 2 * SECONDS_PER_DAY.
Proof.
  intros Hs Hr Hnow. unfold SECONDS_PER_DAY in *.
  destruct (scan_ok now db cache Hs Hr) as (b & s' & E & Hb & Ha); [lia|]. exists b, s'. split_and!; [done..|].
  intros a (r & Hra & Hd). destruct (Hr _ _ Hra) as (n & Hn & _). exists r, n.
  destruct (delinquent_owes now db a r n Hra Hd Hn) as [Ht Hdebt]. split_and!; [done|done|done|].
  unfold sugg_and_grace in Ht. change (payment_suggested_after_sec PAYMENT_CURVES) with 86400 in Ht.
  change (payment_grace_before_ban_sec PAYMENT_CURVES) with 86400 in Ht.
  rewrite (as_i64_small (now - 86400)), as_i64_small in Ht by (unfold i64; norm_pow; lia). lia.
Qed.

Definition toy_delinquents : @Db toy_sqlite :=
  @set_banned toy_sqlite {[ [6]; [7] ]} (@set_receivable toy_sqlite
    (list_to_map [([5], mkReceivableRow _ (Integer 2000000000) 0); ([6], mkReceivableRow _ (Integer 5) 0);
                  ([7], mkReceivableRow _ (Integer 20000000) 0); ([8], mkReceivableRow _ (Integer 20000000) 0)])
    (@create_database_tables toy_sqlite 2 5000)).

Lemma delinquency_scan_is_exact_witness :
  exists (b : gset bytes) s',
    @scan_for_delinquencies toy_sqlite toy_eth 200000 toy_delinquents {[by_address [6]; by_address [7]]} = Ret s' /\
    forall a, a ∈ b <-> @delinquent toy_sqlite 200000 toy_delinquents a \/
                        a ∈ @banned toy_sqlite toy_delinquents /\ ~ @settled toy_sqlite toy_delinquents a.
Proof.
  destruct (@delinquency_scan_is_exact toy_sqlite toy_eth 200000 toy_delinquents {[by_address [6]; by_address [7]]})
    as (b & s' & E & _ & Hb & _).
  - intros w. cbn [fst snd]. change (@banned toy_sqlite toy_delinquents) with ({[ [6]; [7] ]} : gset bytes). set_solver.
  - intros a r Hr. apply elem_of_list_to_map_2 in Hr. elem_cases Hr; eexists; (split; [reflexivity|simpl; lia]).
  - unfold SECONDS_PER_DAY. norm_pow. lia.
  - exists b, s'. split; [exact E|exact Hb].
Defined.

(** C25: a round of payments settles debts and nothing else. If there is a blockchain service URL, a gas price, a
    consuming wallet that can sign, and no debt without a payment under way was last paid in the
    future, then the scan for payables, the bridge and the handling of its answer together come to an end
    without a panic. The accounts that the bridge tries to pay are just those that are due: nothing under way, last paid
    more than a day ago, more owed than the permanent debt allowed, and above the curve. To each goes one
    transaction of the whole debt, signed, with the number and price that count then, unless the chain
    tells no number. Just the wallets whose transaction the chain accepted then owe zero, paid now, with this transaction
    pending; every other row, and the rest of the database, is as before. *)
Theorem payment_round_settles_debts `{!Sqlite} `{!EthSign} `{!Web3} `{!Rlp} (keccak256 : bytes -> bytes)
    (chain_id : Z) (payer : Wallet) (now g : Z) (db : Db) (self : Accountant) (bridge : BlockchainBridge) (c : chain) :
  initialized payer -> (forall msg, exists s, wallet_sign payer msg = Ok s) ->
  open_rows_ok now db -> 0 <= now -> gas_price db = Ret g -> uint 64 g -> acc_bound self = true ->
  bb_consuming_wallet bridge = Some payer ->
  exists accounts c' (paid : list (bytes * bytes)) t,
    (forall acc, acc ∈ accounts <-> listed db acc /\ should_pay now acc = Ret true) /\
    NoDup (map (fun acc => addr (pa_wallet acc)) accounts) /\
    Forall (fun acc => 10000000 < pa_balance acc /\ pa_last_paid_timestamp acc + SECONDS_PER_DAY < now) accounts /\
    settles keccak256 chain_id payer g c accounts c' paid /\
    payables_round (interface := nonclandestine_interface keccak256 chain_id) now self bridge c db
      = Ret (c', set_payable t db) /\
    forall a, t !! a = match (list_to_map paid : gmap bytes bytes) !! a with
                       | Some h => Some (mkPayableRow _ (Integer 0) now (Some h))
                       | None => payable db !! a
                       end.
Proof.
  intros Hi Hsign Hok Hnow Hg Hu Hb Hp. pose proof (web3_can_pay keccak256 chain_id payer Hi Hsign) as Hcan.
  destruct (@round_pays _ _ _ _ payer Hcan now db g self bridge c Hok Hnow Hg Hu Hb Hp)
    as (accounts & c' & rs & t & Hacc & Hnd & Hoks & Epay & E & Ht).
  exists accounts, c', (accepted rs), t. split_and!; [done|done| |by eapply pay_all_settles|done|done].
  apply Forall_forall. intros acc [_ Hpay]%Hacc. apply should_pay_floor in Hpay as [Hdebt Htime].
  change (permanent_debt_allowed_gwub PAYMENT_CURVES) with 10000000 in Hdebt.
  change (payment_suggested_after_sec PAYMENT_CURVES) with SECONDS_PER_DAY in Htime. lia.
Qed.

Definition toy_payer : Wallet := mkWallet (KeyPair (mkKeyPair [1] [1])).

Lemma payment_round_settles_debts_witness :
  exists c' t, @payables_round toy_sqlite toy_eth toy_web3 (@nonclandestine_interface toy_web3 toy_rlp toy_eth id 2)
    900000 toy_accountant (mkBridge (Some toy_payer) true true) tt toy_debts = Ret (c', @set_payable toy_sqlite t toy_debts).
Proof.
  destruct (@payment_round_settles_debts toy_sqlite toy_eth toy_web3 toy_rlp id 2 toy_payer 900000 1
    toy_debts toy_accountant (mkBridge (Some toy_payer) true true) tt) as (accounts & c' & paid & t & _ & _ & _ & _ & E & _).
  - done.
  - intros msg. by eexists.
  - intros a r Hr _. apply elem_of_list_to_map_2 in Hr.
    elem_cases Hr; eexists; (split; [reflexivity|split; [split; norm_pow; lia|simpl; lia]]).
  - lia.
  - reflexivity.
  - split; norm_pow; lia.
  - reflexivity.
  - reflexivity.
  - exists c', t. exact E.
Defined.

(** C40: the range of charges. The charge for a service is not checked before it is recorded: one of 2^63
    or more for a service consumed from a wallet that is not the Node's own makes the Accountant panic;
    one for a service provided is cast to a negative number, and recorded, for a wallet without an
    account, as a debt of the Node to that wallet. *)
Theorem exorbitant_rates `{!Sqlite} `{!EthSign} (now : Z) (self : Accountant) (db : Db) (r : ServiceReport) :
  wallets_ok self -> report_ok r -> uint 64 (Z.of_nat (report_payload_size r)) -> 2 ^ 63 <= price r < 2 ^ 64 ->
  ~ ours self (addr (report_wallet r)) ->
  record_service_consumed now self db r = Panic /\
  (0 <= now -> receivable db !! addr (report_wallet r) = None ->
   exists db' n, record_service_provided now self db r = Ret db' /\ n < 0 /\
     receivable db' !! addr (report_wallet r) = Some (mkReceivableRow _ (Integer n) now)).
Proof.
  intros [He Hc] Hr Hsize [Hlo Hhi] Hours. pose proof Hr as (Hi & Hs & Hb).
  assert (Hcharge : total_charge r = price r).
  { unfold total_charge, price in *. rewrite (wrap_small 64 (Z.of_nat _)) by done.
    assert (0 <= report_byte_rate r * Z.of_nat (report_payload_size r)) by nia.
    rewrite (wrap_small 64 (report_byte_rate r * _)), wrap_small by (unfold uint; lia). done. }
  unfold record_service_consumed, record_service_provided. rewrite our_wallet_ok, bool_decide_false by done.
  cbn [obind]. rewrite Hcharge. split.
  - unfold more_money_payable, try_increase_balance, i64_try_from. rewrite (addr_ret _ Hi).
    rewrite (proj2 (Z.ltb_ge _ _)) by done. done.
  - intros Hnow Hnone. unfold more_money_receivable, receivable_try_update. rewrite (addr_ret _ Hi).
    cbn [obind]. rewrite Hnone. cbn [obind]. unfold try_insert, to_time_t. rewrite (proj2 (Z.ltb_ge _ _)) by done.
    rewrite (addr_ret _ Hi). cbn [obind]. rewrite Hnone. eexists _, (as_i64 (price r)). split; [done|].
    split; [|cbn [receivable set_receivable]; by rewrite lookup_insert_eq].
    unfold as_i64. replace (price r + 2 ^ 63) with (price r - 2 ^ 63 + 1 * 2 ^ 64) by (norm_pow; lia).
    rewrite Z.mod_add, Z.mod_small by (norm_pow; lia). norm_pow. lia.
Qed.

Lemma exorbitant_rates_witness :
  @record_service_consumed toy_sqlite toy_eth 5 toy_accountant toy_debts
    (mkServiceReport (by_address [5]) 1 (2 ^ 63) 0) = Panic.
Proof.
  refine (proj1 (@exorbitant_rates toy_sqlite toy_eth 5 toy_accountant toy_debts
    (mkServiceReport (by_address [5]) 1 (2 ^ 63) 0) _ _ _ _ _)).
  - split; [done|]. by intros c [= <-].
  - split_and!; done.
  - split; simpl; norm_pow; lia.
  - unfold price. simpl. norm_pow. lia.
  - intros [Hw|(w & [= <-] & Hw)]; discriminate Hw.
Defined.

(** Without a blockchain service URL, a Node with a wallet to pay from and a debt that is due panics when it
    comes to paying: the transaction count is not implemented there. *)
Lemma clandestine_payment_panics `{!Sqlite} `{!EthSign} `{!Web3} (chain_id now : Z) (db : Db)
    (bridge : BlockchainBridge) (c : chain) (payer : Wallet) (accounts : list PayableAccount) :
  bb_consuming_wallet bridge = Some payer -> accounts <> [] ->
  @handle_report_accounts_payable _ (clandestine_interface chain_id) _ db now bridge c accounts = Panic.
Proof. intros Hp Hne. unfold handle_report_accounts_payable. rewrite Hp. by destruct accounts. Qed.
