(* ===== verification/DbInit.v ===== *)
(** * DbInit: creating and opening the database of a Node

    database/db_initializer.rs, statement by statement: [Accounts] has the tables of a database that was created in
    full, this file how one comes about, and what becomes of one whose creation was interrupted, since every statement
    is a transaction of its own. A database is its tables and indexes by name, and the rows of its configuration.
    Whether a file can be opened, the directory's state, the random numbers and the ports in use are arguments. *)
From S2P Require Import Prelude Text SubLib Wallet Cryptde Accounts.

Record database := mkDatabase { tables : list str; indexes : list str; config_rows : list (str * option str) }.

Definition no_tables : database := mkDatabase [] [] [].

(** ** Statements *)
Inductive statement :=
| CreateTable (if_not_exists : bool) (name : str)
| CreateUniqueIndex (if_not_exists : bool) (name table : str)
| InsertConfig (name : str) (value : option str).

(** [None] is an error. *)
Definition execute (s : statement) (db : database) : option database :=
  match s with
  | CreateTable if_not_exists t =>
      if bool_decide (t ∈ tables db) then if if_not_exists then Some db else None
      else Some (mkDatabase (tables db ++ [t]) (indexes db) (config_rows db))
  | CreateUniqueIndex if_not_exists i t =>
      if bool_decide (i ∈ indexes db) then if if_not_exists then Some db else None
      else if bool_decide (t ∈ tables db) then Some (mkDatabase (tables db) (indexes db ++ [i]) (config_rows db)) else None
  | InsertConfig name value =>
      if negb (bool_decide (lit "config" ∈ tables db)) then None
      else if bool_decide (lit "idx_config_name" ∈ indexes db) && bool_decide (name ∈ (config_rows db).*1) then None
      else Some (mkDatabase (tables db) (indexes db) (config_rows db ++ [(name, value)]))
  end.

Definition execute_all (l : list statement) (db : database) : outcome database :=
  ofold (fun db s => expect (execute s db)) db l.

(** ** The functions of the initializer, each as the statements it executes; a failing one panics *)
Definition create_config_table : list statement :=
  [CreateTable true (lit "config"); CreateUniqueIndex true (lit "idx_config_name") (lit "config")].

Definition set_config_value (name : str) (value : option str) : statement := InsertConfig name value.

Definition initialize_config_rows (chain_id port : Z) : list statement :=
  [set_config_value (lit "clandestine_port") (Some (dec port));
   set_config_value (lit "consuming_wallet_derivation_path") None;
   set_config_value (lit "consuming_wallet_public_key") None;
   set_config_value (lit "earning_wallet_address") None;
   set_config_value (lit "schema_version") (Some CURRENT_SCHEMA_VERSION);
   set_config_value (lit "seed") None;
   set_config_value (lit "start_block") (Some (dec (contract_creation_block_from_chain_id chain_id)));
   set_config_value (lit "gas_price") (Some DEFAULT_GAS_PRICE)].

Definition create_payable_table : list statement :=
  [CreateTable true (lit "payable"); CreateUniqueIndex true (lit "idx_payable_wallet_address") (lit "payable")].
Definition create_receivable_table : list statement :=
  [CreateTable true (lit "receivable"); CreateUniqueIndex true (lit "idx_receivable_wallet_address") (lit "receivable")].
Definition create_banned_table : list statement :=
  [CreateTable false (lit "banned"); CreateUniqueIndex false (lit "idx_banned_wallet_address") (lit "banned")].

(** [create_database_tables] *)
Definition creation (chain_id port : Z) : list statement :=
  create_config_table ++ initialize_config_rows chain_id port ++ create_payable_table ++ create_receivable_table ++ create_banned_table.

(** The port is drawn until one can be bound to. *)
Fixpoint choose_clandestine_port (can_listen : Z -> bool) (draws : list Z) : outcome Z :=
  match draws with
  | [] => OutOfFuel
  | candidate_port :: draws' => if can_listen candidate_port then Ret candidate_port else choose_clandestine_port can_listen draws'
  end.

Definition HIGHEST_RANDOM_CLANDESTINE_PORT : Z := 9999.

(** What [gen_range] draws: its upper bound is exclusive. *)
Definition drawn (port : Z) : Prop := NodeAddr.LOWEST_USABLE_INSECURE_PORT <= port < HIGHEST_RANDOM_CLANDESTINE_PORT.

Definition extract_configurations (db : database) : outcome (gmap str (option str)) :=
  if bool_decide (lit "config" ∈ tables db) then Ret (list_to_map (rev (config_rows db))) else Panic.

Inductive directory := Present | Missing (can_create : bool) | Inaccessible.

Definition create_data_directory_if_necessary (d : directory) : outcome unit :=
  match d with
  | Present | Missing true => Ret tt
  | Missing false | Inaccessible => Panic
  end.

Inductive init_error := Incompatible | SqliteError.

(** [opens] and [creates]: the file can be opened as it is, or else be created. [db] is what is in it. *)
Definition initialize (d : directory) (opens creates : bool) (can_listen : Z -> bool) (draws : list Z) (chain_id : Z) (db : database)
  : outcome (result database init_error) :=
  let* _ := create_data_directory_if_necessary d in
  if opens then
    let* config := extract_configurations db in
    match check_version (config !! lit "schema_version") with
    | Ok _ => Ret (Ok db)
    | Err _ => Ret (Err Incompatible)
    end
  else if creates then
    let* port := choose_clandestine_port can_listen draws in
    let* db' := execute_all (creation chain_id port) db in
    Ret (Ok db')
  else Ret (Err SqliteError).

(** A database whose creation was not interrupted *)
Definition complete (chain_id port : Z) (db : database) : Prop :=
  tables db = [lit "config"; lit "payable"; lit "receivable"; lit "banned"] /\
  indexes db = [lit "idx_config_name"; lit "idx_payable_wallet_address"; lit "idx_receivable_wallet_address"; lit "idx_banned_wallet_address"] /\
  list_to_map (config_rows db) = initialize_config chain_id port.

(** ** Lemmas *)
Lemma chosen_port can_listen draws port :
  choose_clandestine_port can_listen draws = Ret port -> port ∈ draws /\ can_listen port = true.
Proof.
  induction draws as [|p draws IH]; cbn [choose_clandestine_port]; [done|]. destruct (can_listen p) eqn:E.
  - intros [= <-]. by split; [left|].
  - intros [Hin Hp]%IH. by split; [right|].
Qed.

Lemma port_is_chosen can_listen draws p :
  p ∈ draws -> can_listen p = true -> exists port, choose_clandestine_port can_listen draws = Ret port.
Proof.
  intros Hin Hp. induction draws as [|q draws IH]; [by apply not_elem_of_nil in Hin|]. cbn [choose_clandestine_port].
  destruct (can_listen q) eqn:E; [by eexists|]. apply elem_of_cons in Hin as [->|Hin]; [congruence|by apply IH].
Qed.


Lemma execute_all_app l l' db : execute_all (l ++ l') db = (let* db' := execute_all l db in execute_all l' db').
Proof.
  unfold execute_all. revert db. induction l as [|s l IH]; intros db; cbn; [done|].
  destruct (execute s db); cbn; [apply IH|done].
Qed.

(** What a list of statements leaves, when none of them fails *)
Definition left_by (l : list statement) : database :=
  mkDatabase (omap (fun s => match s with CreateTable _ t => Some t | _ => None end) l)
             (omap (fun s => match s with CreateUniqueIndex _ i _ => Some i | _ => None end) l)
             (omap (fun s => match s with InsertConfig n v => Some (n, v) | _ => None end) l).

(** What [check_version] says of a database is all that opening it depends on. *)
Definition opened (db : database) : outcome (result database init_error) :=
  let* config := extract_configurations db in
  match check_version (config !! lit "schema_version") with
  | Ok _ => Ret (Ok db)
  | Err _ => Ret (Err Incompatible)
  end.

Definition opens_after (k : nat) (db : database) : outcome (result database init_error) :=
  if (k =? 0)%nat then Panic else if (k <? 7)%nat then Ret (Err Incompatible) else Ret (Ok db).

Definition k_first (k : nat) : Prop := forall chain_id port,
  execute_all (take k (creation chain_id port)) no_tables = Ret (left_by (take k (creation chain_id port))) /\
  opened (left_by (take k (creation chain_id port))) = opens_after k (left_by (take k (creation chain_id port))) /\
  (complete chain_id port (left_by (take k (creation chain_id port))) <-> k = 16%nat).

(** The two values that vary are abstracted, then each prefix computes. *)
Ltac run_prefix :=
  intros chain_id port; unfold complete, creation, initialize_config_rows, initialize_config;
  generalize (dec port) (dec (contract_creation_block_from_chain_id chain_id)); intros a b;
  (split; [vm_compute; reflexivity|split; [vm_compute; reflexivity|]]).

Lemma k_first_partial (k : nat) : (k < 16)%nat -> k_first k.
Proof.
  intros Hk. do 16 (destruct k as [|k]; [run_prefix; split; [intros (Ht & Hi & _); discriminate|lia]|]). lia.
Qed.

Lemma k_first_whole : k_first 16.
Proof. run_prefix. split; [done|]. intros _. by repeat split. Qed.

Lemma k_first_all (k : nat) : (k <= 16)%nat -> k_first k.
Proof. intros Hk. destruct (decide (k = 16)%nat) as [->|]; [apply k_first_whole|apply k_first_partial; lia]. Qed.

Lemma creation_succeeds chain_id port :
  execute_all (creation chain_id port) no_tables = Ret (left_by (creation chain_id port)).
Proof. by destruct (k_first_whole chain_id port). Qed.

(** An existing file is opened or refused by what it holds alone. *)
Lemma initialize_opens d creates can_listen draws chain_id db :
  create_data_directory_if_necessary d = Ret tt -> initialize d true creates can_listen draws chain_id db = opened db.
Proof. unfold initialize. by intros ->. Qed.

(** ** Properties *)

(** C29: A database is whole once [DbInitializerReal::initialize] has returned, and not if it was cut short. (1) Where
    there is no database yet, and one of the ports drawn is free, [initialize] returns a complete database: the four
    tables, their indexes and the initial configuration, with a clandestine port that was drawn and can be bound to;
    opening that database again, whatever the ports and the chain are then, returns it as it is. (2) Every statement
    of the creation is a transaction of its own, so a Node may have been stopped after any [k] of the sixteen. When it
    is started again: after none, it panics, every time; after fewer than seven, the database is refused as having no
    version, every time; from the seventh on, which writes the schema version, it is accepted as it stands and never
    completed, although only after all sixteen is it complete. *)
Theorem creation_and_reopening (d : directory) (can_listen : Z -> bool) (draws : list Z) (chain_id p : Z) :
  create_data_directory_if_necessary d = Ret tt -> p ∈ draws -> can_listen p = true ->
  (exists port db,
      initialize d false true can_listen draws chain_id no_tables = Ret (Ok db) /\
      complete chain_id port db /\ port ∈ draws /\ can_listen port = true /\
      (forall d' creates can_listen' draws' chain_id', create_data_directory_if_necessary d' = Ret tt ->
         initialize d' true creates can_listen' draws' chain_id' db = Ret (Ok db))) /\
  (forall k port d' creates can_listen' draws' chain_id', (k <= 16)%nat -> create_data_directory_if_necessary d' = Ret tt ->
     exists db,
       execute_all (take k (creation chain_id port)) no_tables = Ret db /\
       initialize d' true creates can_listen' draws' chain_id' db =
         (if (k =? 0)%nat then Panic else if (k <? 7)%nat then Ret (Err Incompatible) else Ret (Ok db)) /\
       (complete chain_id port db <-> k = 16%nat)).
Proof.
  intros Hd Hin Hp. split.
  - destruct (port_is_chosen can_listen draws p Hin Hp) as [port Hport]. destruct (chosen_port _ _ _ Hport) as [Hdrawn Hfree].
    destruct (k_first_whole chain_id port) as (Hrun & Hopen & Hwhole). exists port, (left_by (creation chain_id port)).
    split_and!; [|by apply Hwhole|done|done|intros; rewrite initialize_opens by done; apply Hopen].
    unfold initialize. rewrite Hd. cbn [obind]. rewrite Hport. cbn [obind]. by rewrite creation_succeeds.
  - intros k port d' creates can_listen' draws' chain_id' Hk Hd'. destruct (k_first_all k Hk chain_id port) as (Hrun & Hopen & Hwhole).
    eexists. split_and!; [apply Hrun|rewrite initialize_opens by done; apply Hopen|exact Hwhole].
Qed.

Lemma creation_and_reopening_witness :
  (exists port db,
      initialize (Missing true) false true (fun p => negb (p =? 5000)) [5000; 6000] 3 no_tables = Ret (Ok db) /\
      complete 3 port db /\ port ∈ [5000; 6000] /\ negb (port =? 5000) = true /\
      (forall d' creates can_listen' draws' chain_id', create_data_directory_if_necessary d' = Ret tt ->
         initialize d' true creates can_listen' draws' chain_id' db = Ret (Ok db))) /\
  (forall k port d' creates can_listen' draws' chain_id', (k <= 16)%nat -> create_data_directory_if_necessary d' = Ret tt ->
     exists db,
       execute_all (take k (creation 3 port)) no_tables = Ret db /\
       initialize d' true creates can_listen' draws' chain_id' db =
         (if (k =? 0)%nat then Panic else if (k <? 7)%nat then Ret (Err Incompatible) else Ret (Ok db)) /\
       (complete 3 port db <-> k = 16%nat)).
Proof.
  apply (creation_and_reopening (Missing true) (fun p => negb (p =? 5000)) [5000; 6000] 3 6000); [done| |done].
  right. left.
Defined.
