(* ===== verification/ProtocolPacks.v ===== *)
(** * ProtocolPacks: what the ProxyServer knows about HTTP and TLS

    sub_lib/binary_traverser.rs and, of proxy_server/, protocol_pack.rs, http_protocol_pack.rs,
    tls_protocol_pack.rs, server_impersonator_http.rs, server_impersonator_tls.rs and
    client_request_payload_factory.rs. A [String] is the list of its bytes in UTF-8. *)
From S2P Require Import Prelude Text SubLib Cryptde Utils Wallet Route SequenceBuffer Messages.
From S2P Require Import Framers StreamReader HttpFramer.
From Stdlib Require Import Ascii.

(** A [String] made of bytes that are UTF-8 *)
Definition text (b : bytes) : str := map ascii_of_code b.

(** ** BinaryTraverser *)
Module BinaryTraverser.
Record BinaryTraverser := mk { bt_data : PlainData; offset : nat }.

Definition new (d : PlainData) : BinaryTraverser := mk d 0.

Definition is_valid (x : BinaryTraverser) : bool := (offset x <? length (plain_data (bt_data x)))%nat.

(** Code that moves a traverser and may give up with the error [()] *)
Definition traversal (A : Type) : Type := BinaryTraverser -> outcome (BinaryTraverser * result A unit).

Definition give {A} (a : A) : traversal A := fun x => Ret (x, Ok a).

(** The operator [?] *)
Definition tbind {A B} (m : traversal A) (k : A -> traversal B) : traversal B := fun x =>
  let* r := m x in
  match r with (x', Ok a) => k a x' | (x', Err e) => Ret (x', Err e) end.

Notation "'let!' x ':=' c 'in' k" := (tbind c (fun x => k))
  (at level 10, x pattern, c at level 100, k at level 200) : node_scope.

(** The position moves even when the data does not reach that far. *)
Definition advance (n : nat) : traversal unit := fun x =>
  let x' := mk (bt_data x) (offset x + n) in
  Ret (x', if (length (plain_data (bt_data x)) <? offset x')%nat then Err tt else Ok tt).

Definition convert_result {A} (o : option A) : result A unit := match o with Some a => Ok a | None => Err tt end.

Definition read {A} (f : PlainData -> nat -> outcome (option A)) (width : nat) : traversal A :=
  let! _ := advance width in
  fun x => let* o := f (bt_data x) (offset x - width)%nat in Ret (x, convert_result o).

Definition get_u8 : traversal Z := read get_u8 1.
Definition get_u16 : traversal Z := read get_u16 2.
Definition get_u24 : traversal Z := read get_u24 3.
Definition get_u32 : traversal Z := read get_u32 4.

Definition next_bytes (count : nat) : traversal bytes := fun x =>
  let position := offset x in
  (let! _ := advance count in
   fun x' => let* b := slice (plain_data (bt_data x')) position (position + count) in Ret (x', Ok b)) x.
End BinaryTraverser.

(** ** The traits *)
Record Host := mkHost { host_name : str; host_port : option Z }.

Record ServerImpersonator := mkImpersonator {
  route_query_failure_response : str -> bytes;
  dns_resolution_failure_response : PublicKey -> option str -> bytes;
  consuming_wallet_absent : bytes
}.

Record ProtocolPack := mkProtocolPack {
  proxy_protocol : ProxyProtocol;
  standard_port : Z;
  find_host : PlainData -> outcome (option Host);
  server_impersonator : ServerImpersonator
}.

(** ** HttpProtocolPack *)
(** [\s] of the regex crate matches the white space of all scripts: does a text begin with some outside
    of ASCII? In UTF-8 the first byte of such a character is at least 194. *)
Class RegexSpaces := {
  other_space : bytes -> bool;
  other_space_first b s : other_space (b :: s) = true -> 194 <= b
}.


Module Http.
Definition port_from_string (s : str) : option Z := parse_uint 16 s.

Definition host_from_host_name_and_port (host_and_port : str) : option Host :=
  match split_on ":"%char host_and_port with
  | [name] => Some (mkHost name None)
  | [name; port] => Some (mkHost name (port_from_string port))
  | _ => None
  end.

Section patterns.
Context `{!RegexSpaces}.

Definition space_at (s : bytes) : bool :=
  match s with
  | [] => false
  | b :: _ => between 9 13 b || (b =? 32) || other_space s
  end.

(** The longest beginning that [[^\s/]*] matches *)
Fixpoint host_run (s : bytes) : bytes :=
  match s with
  | [] => []
  | b :: s' => if space_at s || (b =? 47) then [] else b :: host_run s'
  end.

Definition strip (prefix s : bytes) : option bytes :=
  if matches_at s prefix then Some (drop (length prefix) s) else None.

(** Group 1 of [HOST_PATTERN], [^(?:https?://)?([^\s/]+)]: behind the scheme if there is one with
    something behind it, else from the start *)
Definition capture_host (path : bytes) : option bytes :=
  let behind := match strip (codes "https://") path with
                | Some rest => host_run rest
                | None => match strip (codes "http://") path with
                          | Some rest => host_run rest
                          | None => []
                          end
                end in
  match behind, host_run path with
  | [], [] => None
  | [], run => Some run
  | run, _ => Some run
  end.

Definition find_url_host (data : bytes) : option Host :=
  idx ← index_of data CRLF;
  let first_line := take idx data in
  space ← index_of first_line [32];
  let path_begin := S space in
  space' ← index_of (drop path_begin data) [32];
  let path := take space' (drop path_begin data) in
  if negb (utf8_ok path) then None else
  host_name_and_port ← capture_host path;
  host ← host_from_host_name_and_port (text host_name_and_port);
  if bool_decide (host_name host = []) then None else Some host.

Definition find_header_host (data : bytes) : option Host :=
  idx ← index_of data DOUBLE_CRLF;
  let headers := take (idx + 2) data in
  let needle := CRLF ++ codes "Host: " in
  found ← index_of headers needle;
  let begin := (found + length needle)%nat in
  value_end ← index_of (drop begin headers) CRLF;
  let host_header_value := take value_end (drop begin headers) in
  if negb (utf8_ok host_header_value) then None else
  host_from_host_name_and_port (text host_header_value).

Definition find_host (data : PlainData) : option Host :=
  match find_url_host (plain_data data) with
  | Some host => Some host
  | None => find_header_host (plain_data data)
  end.
End patterns.
End Http.

(** ** ServerImpersonatorHttp: error pages *)
Module ImpersonatorHttp.
(** [str::replace]: from left to right, occurrences that do not overlap. [skip] characters belong to
    the last one. *)
Fixpoint replace_loop (pat rep : str) (skip : nat) (s : str) : str :=
  match s with
  | [] => []
  | c :: s' =>
      match skip with
      | S k => replace_loop pat rep k s'
      | O => if matches_at s pat then rep ++ replace_loop pat rep (length pat - 1) s'
             else c :: replace_loop pat rep 0 s'
      end
  end.

Definition replace (s pat rep : str) : str := replace_loop pat rep 0 s.

Definition NL : str := [ascii_of_code 10].
Definition EOL : str := [ascii_of_code 13; ascii_of_code 10].
Definition quote : str := [ascii_of_code 34].

Definition ERROR_TEMPLATE : str :=
  lit "<html>" ++ NL ++ lit "<body>" ++ NL ++ lit "<h1>Error {status}</h1>" ++ NL ++
  lit "<h2>Title: {title}</h2>" ++ NL ++ lit "<h3>Subtitle: {subtitle}</h3>" ++ NL ++
  lit "<p>{content}</p>" ++ NL ++ lit "</body>" ++ NL ++ lit "</html>" ++ NL.

Definition HTTP_RESPONSE_TEMPLATE : str :=
  lit "HTTP/1.1 {status} Routing Error" ++ EOL ++ lit "Content-Type: text/html" ++ EOL ++
  lit "Content-Length: {length}" ++ EOL ++ EOL ++ lit "{body}".

Definition make_error_page (status : Z) (title subtitle content : str) : str :=
  replace (replace (replace (replace ERROR_TEMPLATE (lit "{status}") (dec status)) (lit "{title}") title)
             (lit "{subtitle}") subtitle) (lit "{content}") content.

Definition make_error_response (status : Z) (title subtitle content : str) : bytes :=
  let html := make_error_page status title subtitle content in
  map ascii_code
    (replace (replace (replace HTTP_RESPONSE_TEMPLATE (lit "{status}") (dec status))
                (lit "{length}") (dec (Z.of_nat (length html)))) (lit "{body}") html).

(** How a key is displayed is a matter of Base64. *)
Definition impersonator (show_key : PublicKey -> str) : ServerImpersonator := {|
  route_query_failure_response server_name :=
    make_error_response 503 (lit "Routing Problem") (lit "Can't find a route to " ++ server_name)
      (lit "Prometheus can't find a route through the Network yet to a Node that knows " ++
       lit "where to find " ++ server_name ++ lit ". Maybe later enough will be known about the Network to " ++
       lit "find that Node, but we can't guarantee it. We're sorry.");
  dns_resolution_failure_response exit_key server_name_opt :=
    let (server_name, quoted_server_name) :=
      match server_name_opt with
      | Some name => (name, quote ++ name ++ quote)
      | None => (lit "<unspecified>", lit "<unspecified>")
      end in
    make_error_response 503 (lit "DNS Resolution Problem")
      (lit "Exit Node couldn't resolve " ++ quoted_server_name)
      (lit "We chose the exit Node " ++ show_key exit_key ++ lit " for your request to " ++ server_name ++
       lit "; but when it asked its DNS server to look up the IP address for " ++ server_name ++
       lit ", it wasn't found. If " ++ server_name ++
       lit " exists, it will need to be looked up by a different exit Node. " ++
       lit "We've deprioritized this exit Node. Reload the page, and we'll try to find another.");
  consuming_wallet_absent :=
    make_error_response 402 (lit "Consuming Wallet Required") (lit "Can't consume without wallet to pay from")
      (lit "You're trying to consume routing and exit services from other Nodes, but you haven't " ++
       lit "specified a consuming wallet from which your Node can pay the bills you're about to incur. " ++
       lit "Set up a funded consuming wallet and try again.")
|}.
End ImpersonatorHttp.

(** ** ServerImpersonatorTls: alerts *)
Module ImpersonatorTls.
Definition TLS_INTERNAL_ERROR_ALERT : bytes := [0x15; 0x03; 0x03; 0x00; 0x02; 0x02; 0x50].
Definition TLS_UNRECOGNIZED_NAME_ALERT : bytes := [0x15; 0x03; 0x03; 0x00; 0x02; 0x02; 0x70].

Definition impersonator : ServerImpersonator := {|
  route_query_failure_response _ := TLS_INTERNAL_ERROR_ALERT;
  dns_resolution_failure_response _ _ := TLS_UNRECOGNIZED_NAME_ALERT;
  consuming_wallet_absent := TLS_INTERNAL_ERROR_ALERT
|}.
End ImpersonatorTls.

(** ** TlsProtocolPack *)
Module Tls.
Import BinaryTraverser.

(** [xvsr.get_u8() == Ok(expected)] *)
Definition next_is (expected : Z) (x : BinaryTraverser) : outcome (BinaryTraverser * bool) :=
  let* r := get_u8 x in
  match r with (x', r') => Ret (x', bool_decide (r' = Ok expected)) end.

Definition is_handshake : BinaryTraverser -> outcome (BinaryTraverser * bool) := next_is 22.

(** Called at offset 1: the data must reach to offset 5. *)
Definition is_client_hello (x : BinaryTraverser) : outcome (BinaryTraverser * bool) :=
  let* r := advance (5 - offset x) x in
  match r with
  | (x', Ok _) => next_is 1 x'
  | (_, Err _) => Panic
  end.

Definition host_name_from_list_entry : traversal str :=
  let! server_name_length := get_u16 in
  let! server_name_bytes := next_bytes (Z.to_nat server_name_length) in
  fun x => Ret (x, if utf8_ok server_name_bytes then Ok (text server_name_bytes) else Err tt).

(** Every turn of these loops moves the traverser on, and a traverser moved beyond the data gives up. *)
Fixpoint server_name_loop (fuel : nat) (server_name_list_end : nat) : traversal str := fun x =>
  match fuel with
  | O => OutOfFuel
  | S fuel' =>
      if (offset x <? server_name_list_end)%nat then
        (let! server_name_type := get_u8 in
         if server_name_type =? 0 then host_name_from_list_entry
         else
           let! server_name_length := get_u16 in
           let! _ := advance (Z.to_nat server_name_length) in
           server_name_loop fuel' server_name_list_end) x
      else Ret (x, Err tt)
  end.

Definition fuel_for (x : BinaryTraverser) : nat := S (length (plain_data (bt_data x))).

Definition host_name_from_extension : traversal str :=
  let! _ := advance 2 in
  let! server_name_list_length := get_u16 in
  fun x => server_name_loop (fuel_for x) (offset x + Z.to_nat server_name_list_length) x.

Fixpoint extension_loop (fuel : nat) (extensions_end : nat) : traversal str := fun x =>
  match fuel with
  | O => OutOfFuel
  | S fuel' =>
      if (offset x <? extensions_end)%nat then
        (let! extension_type := get_u16 in
         if extension_type =? 0 then host_name_from_extension
         else
           let! extension_length := get_u16 in
           let! _ := advance (Z.to_nat extension_length) in
           extension_loop fuel' extensions_end) x
      else Ret (x, Err tt)
  end.

(** Called at offset 6 *)
Definition host_name_from_client_hello : traversal str := fun x =>
  (let! _ := advance (43 - offset x) in
   let! session_id_length := get_u8 in
   let! _ := advance (Z.to_nat session_id_length) in
   let! cipher_suites_length := get_u16 in
   let! _ := advance (Z.to_nat cipher_suites_length) in
   let! compression_methods_length := get_u8 in
   let! _ := advance (Z.to_nat compression_methods_length) in
   let! extensions_length := get_u16 in
   fun x' => extension_loop (fuel_for x') (offset x' + Z.to_nat extensions_length) x') x.

Definition find_host (data : PlainData) : outcome (option Host) :=
  let* (x, handshake) := is_handshake (new data) in
  if negb handshake then Ret None else
  let* (x', client_hello) := is_client_hello x in
  if negb client_hello then Ret None else
  let* (_, r) := host_name_from_client_hello x' in
  match r with
  | Ok name => Ret (Some (mkHost name None))
  | Err _ => Ret None
  end.
End Tls.

(** ** Which pack for what *)
Section packs.
Context `{!RegexSpaces} (show_key : PublicKey -> str).

Definition HttpProtocolPack : ProtocolPack := {|
  proxy_protocol := HTTP;
  standard_port := HTTP_PORT;
  find_host d := Ret (Http.find_host d);
  server_impersonator := ImpersonatorHttp.impersonator show_key
|}.

Definition TlsProtocolPack : ProtocolPack := {|
  proxy_protocol := TLS;
  standard_port := 443;
  find_host := Tls.find_host;
  server_impersonator := ImpersonatorTls.impersonator
|}.

Definition from_protocol (p : ProxyProtocol) : ProtocolPack :=
  match p with HTTP => HttpProtocolPack | TLS => TlsProtocolPack end.

Definition from_standard_port (port : Z) : option ProtocolPack :=
  if port =? HTTP_PORT then Some HttpProtocolPack
  else if port =? TLS_PORT then Some TlsProtocolPack
  else None.

Definition from_ibcd (ibcd : InboundClientData) : option ProtocolPack :=
  match reception_port ibcd with
  | None => None
  | Some origin_port => from_standard_port origin_port
  end.

(** [ClientRequestPayloadFactory::make] *)
Definition payload_factory_make (ibcd : InboundClientData) (stream_key : StreamKey) (cryptde : CryptDE)
  : outcome (option ClientRequestPayload) :=
  match from_ibcd ibcd with
  | None => Ret None
  | Some protocol_pack =>
      match ibcd_sequence_number ibcd with
      | None => Ret None
      | Some sequence_number =>
          let* target_host := find_host protocol_pack (mkPlainData (ibcd_data ibcd)) in
          let (target_hostname, target_port) :=
            match target_host with
            | Some host => (Some (host_name host), default (standard_port protocol_pack) (host_port host))
            | None => (None, standard_port protocol_pack)
            end in
          Ret (Some (mkClientRequestPayload VERSION_0_0 stream_key
                       (mkSequencedPacket (ibcd_data ibcd) sequence_number (ibcd_last_data ibcd))
                       target_hostname target_port (proxy_protocol protocol_pack) (public_key cryptde)))
      end
  end.
End packs.

(** ** Traversing data that was laid out *)
Definition be16 (n : Z) : bytes := [n / 256; n mod 256].

(** A field behind its length in one byte or in two *)
Definition vec8 (b : bytes) : bytes := Z.of_nat (length b) :: b.
Definition vec16 (b : bytes) : bytes := be16 (Z.of_nat (length b)) ++ b.

Section cursors.
Import BinaryTraverser.

(** The traverser between what it has passed and what is to come *)
Definition cursor (passed coming : bytes) : BinaryTraverser := mk (mkPlainData (passed ++ coming)) (length passed).

Lemma tbind_ok {A B} (m : traversal A) (k : A -> traversal B) x x' a :
  m x = Ret (x', Ok a) -> tbind m k x = k a x'.
Proof. intros E. unfold tbind. by rewrite E. Qed.

Lemma advance_over p b c n : n = length b -> advance n (cursor p (b ++ c)) = Ret (cursor (p ++ b) c, Ok tt).
Proof.
  intros ->. unfold advance, cursor. cbn [bt_data offset plain_data].
  rewrite <- app_assoc, (length_app p b).
  replace (_ <? _)%nat with false; [done|]. symmetry. apply Nat.ltb_ge. rewrite !length_app. lia.
Qed.

Lemma read_over {A} f (width : nat) p b c (v : A) :
  length b = width -> f (mkPlainData (p ++ b ++ c)) (length p) = Ret (Some v) ->
  read f width (cursor p (b ++ c)) = Ret (cursor (p ++ b) c, Ok v).
Proof.
  intros Hw Hf. unfold read. rewrite (tbind_ok _ _ _ _ _ (advance_over p b c width (eq_sym Hw))).
  unfold cursor. cbn [bt_data offset]. rewrite <- app_assoc.
  replace (length (p ++ b) - width)%nat with (length p) by (rewrite length_app; lia). by rewrite Hf.
Qed.

Lemma get_u8_over p b c : get_u8 (cursor p (b :: c)) = Ret (cursor (p ++ [b]) c, Ok b).
Proof.
  apply (read_over _ 1 p [b] c); [done|]. unfold Cryptde.get_u8. cbn [plain_data app].
  rewrite (proj2 (Nat.leb_gt _ _)) by (rewrite length_app; simpl; lia). by rewrite list_lookup_middle.
Qed.

Lemma get_u16_over p n c : uint 16 n -> get_u16 (cursor p (be16 n ++ c)) = Ret (cursor (p ++ be16 n) c, Ok n).
Proof.
  intros Hn. apply read_over; [done|]. unfold Cryptde.get_u16. cbn [plain_data app be16].
  rewrite (proj2 (Nat.leb_gt _ _)) by (rewrite length_app; simpl; lia).
  rewrite list_lookup_middle by done. cbn [expect obind].
  rewrite (lookup_app_r p) by lia. replace (length p + 1 - length p)%nat with 1%nat by lia.
  cbn [expect obind lookup list_lookup]. do 2 f_equal. unfold uint in Hn.
  pose proof (Z.mod_pos_bound n 256 ltac:(lia)). pose proof (Z.div_lt_upper_bound n 256 256 ltac:(lia) ltac:(lia)).
  pose proof (Z.div_pos n 256 ltac:(lia) ltac:(lia)).
  rewrite Z.shiftl_mul_pow2, wrap_small by (unfold uint; lia).
  rewrite (lor_add 8) by lia. rewrite (Z.div_mod n 256) at 3 by lia. f_equal. lia.
Qed.

Lemma next_bytes_over p b c n :
  n = length b -> next_bytes n (cursor p (b ++ c)) = Ret (cursor (p ++ b) c, Ok b).
Proof.
  intros ->. unfold next_bytes. rewrite (tbind_ok _ _ _ _ _ (advance_over p b c _ eq_refl)).
  unfold cursor. cbn [bt_data plain_data offset]. rewrite slice_ok by (rewrite ?length_app; lia).
  cbn [obind]. do 4 f_equal. rewrite <- app_assoc, drop_app_length.
  replace (length p + length b - length p)%nat with (length b) by lia. by rewrite take_app_length.
Qed.

Lemma get_vec16_over {A} (k : traversal A) p b c :
  (length b < Z.to_nat 65536)%nat ->
  tbind get_u16 (fun n => tbind (advance (Z.to_nat n)) (fun _ => k)) (cursor p (vec16 b ++ c)) =
  k (cursor (p ++ vec16 b) c).
Proof.
  intros Hb. unfold vec16. rewrite <- app_assoc. erewrite tbind_ok by (apply get_u16_over; unfold uint; lia).
  erewrite tbind_ok by (apply advance_over; lia). by rewrite <- app_assoc.
Qed.

Lemma get_vec8_over {A} (k : traversal A) p b c :
  tbind get_u8 (fun n => tbind (advance (Z.to_nat n)) (fun _ => k)) (cursor p (vec8 b ++ c)) =
  k (cursor (p ++ vec8 b) c).
Proof.
  unfold vec8. cbn [app]. erewrite tbind_ok by apply get_u8_over.
  erewrite tbind_ok by (apply advance_over; lia). by rewrite <- app_assoc.
Qed.
End cursors.

(** ** ClientHello as RFC 5246 and RFC 6066 lay it out *)
Inductive extension :=
| ServerNames (names : list (Z * bytes))
| OtherExtension (type : Z) (content : bytes).

Record ClientHello := mkClientHello {
  record_header : bytes;
  message_header : bytes;
  session_id : bytes;
  cipher_suites : bytes;
  compression_methods : bytes;
  extensions : list extension
}.

Definition name_wire (e : Z * bytes) : bytes := e.1 :: vec16 e.2.
Definition names_wire (names : list (Z * bytes)) : bytes := concat (map name_wire names).

Definition extension_wire (e : extension) : bytes :=
  match e with
  | ServerNames names => be16 0 ++ vec16 (vec16 (names_wire names))
  | OtherExtension t content => be16 t ++ vec16 content
  end.

Definition extensions_wire (es : list extension) : bytes := concat (map extension_wire es).

Definition hello_wire (h : ClientHello) : bytes :=
  [22] ++ record_header h ++ [1] ++ message_header h ++ vec8 (session_id h) ++ vec16 (cipher_suites h) ++
  vec8 (compression_methods h) ++ vec16 (extensions_wire (extensions h)).

Definition extension_ok (e : extension) : Prop :=
  match e with OtherExtension t _ => uint 16 t /\ t <> 0 | ServerNames _ => True end.

Record hello_ok (h : ClientHello) : Prop := {
  record_header_ok : length (record_header h) = 4%nat;
  message_header_ok : length (message_header h) = 37%nat;
  cipher_suites_ok : (length (cipher_suites h) < Z.to_nat 65536)%nat;
  extensions_fit : (length (extensions_wire (extensions h)) < Z.to_nat 65536)%nat;
  extensions_ok : Forall extension_ok (extensions h)
}.

(** The host a ClientHello is for: the first name of type 0 in the first [server_name] extension *)
Fixpoint first_host_name (names : list (Z * bytes)) : option bytes :=
  match names with
  | [] => None
  | (t, name) :: names' => if t =? 0 then Some name else first_host_name names'
  end.

Fixpoint first_server_names (es : list extension) : option (list (Z * bytes)) :=
  match es with
  | [] => None
  | ServerNames names :: _ => Some names
  | OtherExtension _ _ :: es' => first_server_names es'
  end.

Definition named (name : option bytes) : result str unit :=
  match name with
  | Some n => if utf8_ok n then Ok (text n) else Err tt
  | None => Err tt
  end.

Definition hello_name (es : list extension) : result str unit := named (first_server_names es ≫= first_host_name).

Section hello.
Import BinaryTraverser Tls.

Lemma server_name_loop_finds names p c fuel :
  (length (names_wire names) < Z.to_nat 65536)%nat -> (length names < fuel)%nat ->
  exists x, server_name_loop fuel (length p + length (names_wire names)) (cursor p (names_wire names ++ c)) =
    Ret (x, named (first_host_name names)).
Proof.
  revert p fuel. induction names as [|[t n] names IH]; intros p fuel Hlen Hfuel;
    (destruct fuel as [|fuel]; [simpl in Hfuel; lia|]); cbn [server_name_loop].
  - change (names_wire []) with (@nil Z). rewrite Nat.add_0_r. cbn [offset cursor]. rewrite Nat.ltb_irrefl. by eexists.
  - change (names_wire ((t, n) :: names)) with (t :: (vec16 n ++ names_wire names)) in *.
    simpl in Hlen, Hfuel. rewrite !length_app in Hlen. simpl in Hlen.
    rewrite (proj2 (Nat.ltb_lt _ _)) by (cbn [offset cursor]; simpl; lia).
    cbn [app]. erewrite tbind_ok by apply get_u8_over. cbn [first_host_name].
    rewrite <- app_assoc. destruct (t =? 0) eqn:Et.
    + unfold host_name_from_list_entry, vec16. rewrite <- app_assoc.
      erewrite tbind_ok by (apply get_u16_over; unfold uint; lia).
      erewrite tbind_ok by (apply next_bytes_over; lia). by eexists.
    + rewrite get_vec16_over by lia. destruct (IH ((p ++ [t]) ++ vec16 n) fuel) as [x Hx]; [lia..|].
      exists x. rewrite <- Hx. f_equal. rewrite !length_app. simpl. rewrite length_app. simpl. lia.
Qed.

Lemma names_count names : (length names <= length (names_wire names))%nat.
Proof.
  induction names as [|e names IH]; [done|]. unfold names_wire in *. cbn [map concat length].
  rewrite length_app. simpl. lia.
Qed.

Lemma extension_loop_finds es p c fuel :
  (length (extensions_wire es) < Z.to_nat 65536)%nat -> Forall extension_ok es -> (length es < fuel)%nat ->
  exists x, extension_loop fuel (length p + length (extensions_wire es)) (cursor p (extensions_wire es ++ c)) =
    Ret (x, hello_name es).
Proof.
  intros Hlen Hok. revert p fuel Hlen. induction Hok as [|e es He _ IH]; intros p fuel Hlen Hfuel;
    (destruct fuel as [|fuel]; [simpl in Hfuel; lia|]); cbn [extension_loop].
  - change (extensions_wire []) with (@nil Z). rewrite Nat.add_0_r. cbn [offset cursor].
    rewrite Nat.ltb_irrefl. by eexists.
  - change (extensions_wire (e :: es)) with (extension_wire e ++ extensions_wire es) in *.
    simpl in Hfuel. rewrite length_app in *. rewrite <- app_assoc.
    assert (4 <= length (extension_wire e))%nat by (destruct e; simpl; lia).
    rewrite (proj2 (Nat.ltb_lt _ _)) by (cbn [offset cursor]; lia).
    destruct e as [names|t content]; unfold extension_wire in *; cbn [extension_ok] in He.
    + rewrite <- app_assoc. erewrite tbind_ok by (apply get_u16_over; done). cbn [Z.eqb].
      unfold host_name_from_extension. unfold vec16 at 1. rewrite <- app_assoc.
      erewrite tbind_ok by (apply advance_over; done). unfold vec16 at 1. rewrite <- app_assoc.
      rewrite !length_app in Hlen. unfold vec16 in Hlen. rewrite !length_app in Hlen. simpl in Hlen.
      erewrite tbind_ok by (apply get_u16_over; unfold uint; lia). cbn beta. cbn [offset cursor].
      rewrite Nat2Z.id. apply server_name_loop_finds; [lia|]. unfold fuel_for. cbn [cursor bt_data plain_data].
      rewrite !length_app. pose proof (names_count names). lia.
    + destruct He as [Ht Hne]. rewrite <- app_assoc. erewrite tbind_ok by (by apply get_u16_over).
      rewrite (proj2 (Z.eqb_neq _ _)) by done. rewrite !length_app in Hlen. simpl in Hlen.
      rewrite get_vec16_over by lia. destruct (IH ((p ++ be16 t) ++ vec16 content) fuel) as [x Hx]; [lia..|].
      exists x. unfold hello_name in *. cbn [first_server_names]. rewrite <- Hx. f_equal.
      rewrite !length_app. lia.
Qed.

Lemma extensions_count es : (length es <= length (extensions_wire es))%nat.
Proof.
  induction es as [|e es IH]; [done|]. unfold extensions_wire in *. cbn [map concat length].
  rewrite length_app. destruct e; simpl; lia.
Qed.

Lemma host_name_found h c :
  hello_ok h ->
  exists x, host_name_from_client_hello
    (cursor ([22] ++ record_header h ++ [1])
       (message_header h ++ vec8 (session_id h) ++ vec16 (cipher_suites h) ++ vec8 (compression_methods h) ++
        vec16 (extensions_wire (extensions h)) ++ c)) = Ret (x, hello_name (extensions h)).
Proof.
  intros [Hr Hm Hc Hf Hx]. unfold host_name_from_client_hello.
  erewrite tbind_ok by (apply advance_over; cbn [cursor offset]; rewrite !length_app, Hr, Hm; simpl; lia).
  rewrite get_vec8_over, get_vec16_over, get_vec8_over by done.
  unfold vec16 at 2. rewrite <- app_assoc. erewrite tbind_ok by (apply get_u16_over; unfold uint; lia).
  cbn beta. rewrite Nat2Z.id. apply extension_loop_finds; [done..|]. unfold fuel_for.
  cbn [cursor bt_data plain_data]. rewrite !length_app. pose proof (extensions_count (extensions h)). lia.
Qed.
End hello.

(** ** Any data can be traversed *)
Section total.
Import BinaryTraverser Tls.

Definition returns {A} (m : traversal A) (x : BinaryTraverser) : Prop := exists x' r, m x = Ret (x', r).

Definition size_of (x : BinaryTraverser) : nat := length (plain_data (bt_data x)).

(** [m] returns, and if it does not give up it has moved by at least [n], within the data. *)
Definition moves {A} (n : nat) (m : traversal A) : Prop := forall x, exists x' r,
  m x = Ret (x', r) /\ bt_data x' = bt_data x /\ forall a, r = Ok a -> (offset x + n <= offset x' <= size_of x)%nat.

Lemma tbind_returns {A B} n (m : traversal A) (k : A -> traversal B) x :
  moves n m ->
  (forall a x', bt_data x' = bt_data x -> (offset x + n <= offset x' <= size_of x)%nat -> returns (k a) x') ->
  returns (tbind m k) x.
Proof.
  intros Hm Hk. destruct (Hm x) as (x' & r & E & Hd & Hr). unfold returns, tbind. rewrite E. cbn [obind].
  destruct r as [a|[]]; [|by eexists _, _]. apply Hk; [done|]. by eapply Hr.
Qed.

Lemma advance_moves n : moves n (advance n).
Proof.
  intros x. eexists _, _. split; [done|]. split; [done|]. intros a. unfold size_of. cbn [offset].
  case_match eqn:E; [done|]. apply Nat.ltb_ge in E. lia.
Qed.

Lemma read_moves {A} f w : (forall d i, exists o : option A, f d i = Ret o) -> moves w (read f w).
Proof.
  intros Hf x. destruct (advance_moves w x) as (x' & r & E & Hd & Hr). unfold read, tbind. rewrite E. cbn [obind].
  destruct r as [[]|[]]; [|by eexists _, _].
  destruct (Hf (bt_data x') (offset x' - w)%nat) as [o ->]. eexists _, _. split; [done|]. split; [done|].
  intros a _. by apply (Hr tt).
Qed.

Lemma get_u8_moves : moves 1 get_u8.
Proof.
  apply read_moves. intros d i. unfold Cryptde.get_u8. case_match eqn:E; [by eexists|].
  apply Nat.leb_gt in E. destruct (lookup_lt_is_Some_2 _ _ E) as [b ->]. by eexists.
Qed.

Lemma get_u16_moves : moves 2 get_u16.
Proof.
  apply read_moves. intros d i. unfold Cryptde.get_u16. case_match eqn:E; [by eexists|]. apply Nat.leb_gt in E.
  destruct (lookup_lt_is_Some_2 (plain_data d) i) as [b ->]; [lia|].
  destruct (lookup_lt_is_Some_2 _ _ E) as [b' ->]. by eexists.
Qed.

Lemma list_entry_returns x : returns host_name_from_list_entry x.
Proof.
  eapply tbind_returns; [apply get_u16_moves|]. intros n x' _ _. unfold returns, next_bytes, tbind.
  destruct (advance_moves (Z.to_nat n) x') as (x2 & r & E & Hd & Hr). rewrite E. cbn [obind].
  destruct r as [[]|[]]; [|by eexists _, _]. specialize (Hr tt eq_refl). unfold size_of in Hr. rewrite Hd.
  rewrite slice_ok by lia. by eexists _, _.
Qed.

Lemma server_name_loop_returns fuel e x : (size_of x - offset x < fuel)%nat -> returns (server_name_loop fuel e) x.
Proof.
  revert x. induction fuel as [|fuel IH]; intros x Hf; [lia|]. unfold returns. cbn [server_name_loop].
  case_match; [|by eexists _, _]. eapply tbind_returns; [apply get_u8_moves|]. intros t x1 H1 Ho1.
  case_match; [apply list_entry_returns|]. eapply tbind_returns; [apply get_u16_moves|]. intros n x2 H2 Ho2.
  eapply tbind_returns; [apply advance_moves|]. intros _ x3 H3 Ho3. apply IH.
  unfold size_of in *. rewrite H3, H2, H1 in *. lia.
Qed.

Lemma extension_returns x : returns host_name_from_extension x.
Proof.
  eapply tbind_returns; [apply advance_moves|]. intros _ x1 _ _. eapply tbind_returns; [apply get_u16_moves|].
  intros n x2 _ _. apply server_name_loop_returns. unfold fuel_for, size_of. lia.
Qed.

Lemma extension_loop_returns fuel e x : (size_of x - offset x < fuel)%nat -> returns (extension_loop fuel e) x.
Proof.
  revert x. induction fuel as [|fuel IH]; intros x Hf; [lia|]. unfold returns. cbn [extension_loop].
  case_match; [|by eexists _, _]. eapply tbind_returns; [apply get_u16_moves|]. intros t x1 H1 Ho1.
  case_match; [apply extension_returns|]. eapply tbind_returns; [apply get_u16_moves|]. intros n x2 H2 Ho2.
  eapply tbind_returns; [apply advance_moves|]. intros _ x3 H3 Ho3. apply IH.
  unfold size_of in *. rewrite H3, H2, H1 in *. lia.
Qed.

Lemma client_hello_returns x : returns host_name_from_client_hello x.
Proof.
  unfold returns, host_name_from_client_hello.
  repeat first [ apply (tbind_returns _ _ _ _ (advance_moves _)); intros ? ? _ _
               | apply (tbind_returns _ _ _ _ get_u8_moves); intros ? ? _ _
               | apply (tbind_returns _ _ _ _ get_u16_moves); intros ? ? _ _ ].
  apply extension_loop_returns. unfold fuel_for, size_of. lia.
Qed.

(** The pack panics on the beginning of a handshake record that does not hold the whole record header,
    and on nothing else. *)
Lemma tls_find_host_returns d :
  (exists r, Tls.find_host d = Ret r) <-> ~ (head (plain_data d) = Some 22 /\ (length (plain_data d) < 5)%nat).
Proof.
  destruct d as [b]. cbn [plain_data]. unfold Tls.find_host, is_handshake, next_is.
  destruct b as [|b0 b]. { split; [by intros _ []|]. intros _. by eexists. }
  change (new _) with (cursor [] (b0 :: b)). rewrite get_u8_over. cbn [obind head].
  case_bool_decide as E0; cbn [negb].
  2: { split; [|by eexists]. intros _ [[= ->] _]. by apply E0. }
  injection E0 as ->. unfold is_client_hello, advance. cbn [cursor offset bt_data plain_data app length obind].
  change (1 + (5 - 1))%nat with 5%nat.
  destruct (Nat.ltb_spec (S (length b)) 5) as [Hlt|Hge].
  - split; [by intros [? ?]|]. intros Hn. exfalso. apply Hn. split; [done|]. simpl. lia.
  - split; [intros _ [_ ?]; simpl in *; lia|]. intros _.
    destruct (get_u8_moves (mk (mkPlainData (22 :: b)) 5)) as (x & r & E & _).
    unfold next_is. rewrite E. cbn [obind]. case_bool_decide; [|by eexists].
    destruct (client_hello_returns x) as (x' & r' & ->). destruct r'; by eexists.
Qed.
End total.

(** ** Requests that name a host *)
(** A name, and a port if it is given *)
Definition authority (name : bytes) (port : option Z) : bytes :=
  name ++ match port with Some p => 58 :: map ascii_code (dec p) | None => [] end.

Definition name_ok (name : bytes) : Prop :=
  name <> [] /\ Forall (fun b => 33 <= b <= 126 /\ b <> 47 /\ b <> 58) name.

Definition request_line (method url version : bytes) : bytes := method ++ [32] ++ url ++ [32] ++ version.

(** A header line other than that of the host *)
Definition other_header (l : bytes) : Prop := l <> [] /\ (13 ∉ l) /\ not (prefix (codes "Host: ") (eol l)).

(** The three forms of RFC 7230: absolute (to a proxy), authority ([CONNECT]) and origin *)
Inductive request_for (name : bytes) (port : option Z) : bytes -> Prop :=
| absolute_form method scheme tail version rest :
    32 ∉ method -> 13 ∉ request_line method (scheme ++ authority name port ++ tail) version ->
    32 ∉ tail -> utf8_ok (scheme ++ authority name port ++ tail) = true ->
    scheme = codes "http://" \/ scheme = codes "https://" -> tail = [] \/ head tail = Some 47 ->
    request_for name port (eol (request_line method (scheme ++ authority name port ++ tail) version) ++ rest)
| authority_form method version rest :
    32 ∉ method -> 13 ∉ request_line method (authority name port) version ->
    request_for name port (eol (request_line method (authority name port) version) ++ rest)
| origin_form method path version before after rest :
    32 ∉ method -> 13 ∉ request_line method (47 :: path) version -> 32 ∉ path ->
    Forall other_header before -> Forall other_header after ->
    request_for name port
      (eol (request_line method (47 :: path) version) ++
       concat (map eol (before ++ (codes "Host: " ++ authority name port) :: after)) ++ CRLF ++ rest).

Lemma text_codes s : text (map ascii_code s) = s.
Proof.
  induction s as [|c s IH]; [done|]. cbn [map text]. f_equal; [|exact IH]. unfold ascii_of_code, ascii_code.
  by rewrite N2Z.id, ascii_N_embedding.
Qed.

Lemma text_app a b : text (a ++ b) = text a ++ text b.
Proof. apply map_app. Qed.

Lemma text_dec n : 0 <= n -> Forall (fun b => 48 <= b <= 57) (map ascii_code (dec n)).
Proof.
  intros Hn. apply Forall_map. eapply Forall_impl; [exact (dec_all_digits n Hn)|]. intros c [d Hd].
  unfold digit_value in Hd. case_match eqn:E; [|done]. lia.
Qed.

Lemma authority_bytes name port :
  name_ok name -> (forall p, port = Some p -> uint 16 p) ->
  Forall (fun b => 33 <= b <= 126 /\ b <> 47) (authority name port).
Proof.
  intros [_ Hn] Hp. unfold authority. apply Forall_app. split.
  - eapply Forall_impl; [exact Hn|]. simpl. lia.
  - destruct port as [p|]; [|done]. constructor; [lia|]. destruct (Hp p eq_refl).
    eapply Forall_impl; [by apply text_dec|]. simpl. lia.
Qed.

Lemma authority_host name port :
  name_ok name -> (forall p, port = Some p -> uint 16 p) ->
  Http.host_from_host_name_and_port (text (authority name port)) = Some (mkHost (text name) port).
Proof.
  intros [_ Hn] Hp. assert (Hcolon : ":"%char ∉ text name).
  { intros (b & Hb & Hin)%list_elem_of_fmap. rewrite Forall_forall in Hn. destruct (Hn b Hin) as (Hr & _ & Hne).
    apply Hne. apply (f_equal ascii_code) in Hb. rewrite ascii_code_of_code in Hb by lia. by rewrite <- Hb. }
  unfold authority, Http.host_from_host_name_and_port. rewrite text_app. destruct port as [p|].
  - cbn [text map]. change (ascii_of_code 58) with ":"%char. fold (text (map ascii_code (dec p))).
    rewrite text_codes, split_on_app by done. pose proof (Hp p eq_refl) as Hu.
    rewrite split_on_clean by (apply all_digits_no_sep; [apply dec_all_digits; apply Hu | done]).
    unfold Http.port_from_string. by rewrite parse_uint_dec.
  - cbn [text map]. rewrite app_nil_r. by rewrite split_on_clean.
Qed.

Lemma index_of_found (l : bytes) n ns hs : n ∉ l -> index_of (l ++ (n :: ns) ++ hs) (n :: ns) = Some (length l).
Proof. intros Hl. rewrite index_of_skip, index_of_here by done. cbn. by rewrite Nat.add_0_r. Qed.

Lemma matches_at_same (x : Z) hs ns : matches_at (x :: hs) (x :: ns) = matches_at hs ns.
Proof. cbn [matches_at]. by rewrite decide_True. Qed.

Lemma matches_at_other (x y : Z) hs ns : x <> y -> matches_at (x :: hs) (y :: ns) = false.
Proof. intros. cbn [matches_at]. by rewrite decide_False. Qed.

Section find_host.
Context `{!RegexSpaces}.
Import Http.

Lemma host_run_stops a tail :
  Forall (fun b => 33 <= b <= 126 /\ b <> 47) a -> tail = [] \/ head tail = Some 47 -> host_run (a ++ tail) = a.
Proof.
  intros Ha Ht. induction Ha as [|b a Hb _ IH]; cbn [app].
  - destruct Ht as [->|Ht]; [done|]. destruct tail as [|c tail]; [done|]. injection Ht as ->. cbn [host_run].
    by rewrite orb_true_r.
  - cbn [host_run space_at]. rewrite IH. destruct (other_space (b :: a ++ tail)) eqn:E.
    + apply other_space_first in E. lia.
    + unfold between. replace ((9 <=? b) && (b <=? 13)) with false by lia.
      by rewrite !(proj2 (Z.eqb_neq _ _)) by lia.
Qed.

Lemma find_url_host_line method url version rest :
  32 ∉ method -> 13 ∉ request_line method url version -> 32 ∉ url ->
  find_url_host (eol (request_line method url version) ++ rest) =
    if negb (utf8_ok url) then None else
    host_name_and_port ← capture_host url;
    host ← host_from_host_name_and_port (text host_name_and_port);
    if bool_decide (host_name host = []) then None else Some host.
Proof.
  intros Hm Hl Hu. unfold find_url_host, eol. rewrite <- app_assoc, (index_of_found _ 13 [10]) by done.
  cbn [mbind option_bind]. rewrite take_app_length.
  assert (index_of (request_line method url version) [32] = Some (length method)) as ->
    by (by apply (index_of_found _ 32 [])). cbn [mbind option_bind].
  replace (drop (S (length method)) (request_line method url version ++ CRLF ++ rest))
    with (url ++ [32] ++ version ++ CRLF ++ rest).
  2: { unfold request_line. rewrite <- app_assoc, drop_app_ge, Nat.sub_succ_l, Nat.sub_diag by lia.
       cbn [app drop]. by rewrite <- app_assoc. }
  rewrite (index_of_found _ 32 []) by done. cbn [mbind option_bind]. by rewrite take_app_length.
Qed.

Lemma capture_absolute scheme a tail :
  scheme = codes "http://" \/ scheme = codes "https://" -> a <> [] ->
  Forall (fun b => 33 <= b <= 126 /\ b <> 47) a -> tail = [] \/ head tail = Some 47 ->
  capture_host (scheme ++ a ++ tail) = Some a.
Proof.
  intros Hs Hne Ha Ht. unfold capture_host. pose proof (host_run_stops a tail Ha Ht) as Hr.
  assert (match strip (codes "https://") (scheme ++ a ++ tail) with
          | Some rest => host_run rest
          | None => match strip (codes "http://") (scheme ++ a ++ tail) with
                    | Some rest => host_run rest
                    | None => []
                    end
          end = a) as ->.
  { unfold strip. destruct Hs as [-> | ->].
    - change (matches_at _ (codes "https://")) with false. cbn iota.
      rewrite (proj2 (matches_at_prefix _ (codes "http://"))) by (by apply prefix_app_r). by rewrite drop_app_length.
    - rewrite (proj2 (matches_at_prefix _ (codes "https://"))) by (by apply prefix_app_r). by rewrite drop_app_length. }
  by destruct a.
Qed.

Lemma strip_without_slash prefix s : bool_decide (47 ∈ prefix) = true -> 47 ∉ s -> strip prefix s = None.
Proof.
  intros Hp%bool_decide_eq_true Hs. unfold strip. destruct (matches_at s prefix) eqn:E; [|done].
  apply matches_at_prefix in E as [t ->]. set_solver.
Qed.

Lemma capture_authority a :
  a <> [] -> Forall (fun b => 33 <= b <= 126 /\ b <> 47) a -> capture_host a = Some a.
Proof.
  intros Hne Ha. assert (47 ∉ a). { intros Hin. rewrite Forall_forall in Ha. by destruct (Ha _ Hin). }
  unfold capture_host. rewrite !strip_without_slash by done.
  rewrite <- (app_nil_r a) at 1. rewrite host_run_stops by (done || by left). by destruct a.
Qed.

Lemma capture_origin path : capture_host (47 :: path) = None.
Proof.
  unfold capture_host. change (strip _ _) with (@None bytes) at 1. change (strip _ _) with (@None bytes) at 1.
  cbn [host_run]. by rewrite orb_true_r.
Qed.

Definition wire_lines (ls : list bytes) : bytes := concat (map eol ls).

(** A needle that begins with a line end is found behind the first lines that no such needle spans. *)
Lemma index_after_lines ns ls next :
  ls <> [] -> Forall (fun l => 13 ∉ l) ls ->
  Forall (fun l => forall x, matches_at (10 :: eol l ++ x) ns = false) (tail ls) -> matches_at (10 :: next) ns = true ->
  index_of (wire_lines ls ++ next) (13 :: ns) = Some (length (wire_lines ls) - 2)%nat.
Proof.
  intros Hne Hcr Hapart Hns. unfold wire_lines. induction ls as [|l ls IH]; [done|]. clear Hne.
  inversion_clear Hcr as [|?? Hl Hls]. cbn [map concat tail] in *. unfold eol at 1 3. rewrite <- !app_assoc.
  rewrite index_of_skip by done. cbn [app CRLF]. rewrite index_of_cons, matches_at_same. destruct ls as [|l' ls].
  - cbn [map concat app]. rewrite Hns. cbn. rewrite length_app. simpl. f_equal. lia.
  - inversion_clear Hapart as [|?? Ha Has]. cbn [map concat]. rewrite <- app_assoc, Ha, index_of_cons.
    rewrite matches_at_other, app_assoc by done.
    change (eol l' ++ concat (map eol ls)) with (concat (map eol (l' :: ls))). rewrite IH by done.
    assert (2 <= length (concat (map eol (l' :: ls))))%nat
      by (cbn [map concat]; unfold eol; rewrite !length_app; simpl; lia).
    cbn [fmap option_fmap option_map length]. f_equal. rewrite (length_app l). cbn [length]. lia.
Qed.

Lemma other_header_apart ns l :
  other_header l -> ns = [10; 13; 10] \/ ns = 10 :: codes "Host: " -> forall x, matches_at (10 :: eol l ++ x) ns = false.
Proof.
  intros (Hne & Hcr & Hhost) Hns x. destruct Hns as [-> | ->]; rewrite matches_at_same.
  - destruct l as [|b l]; [done|]. cbn [eol app]. rewrite matches_at_other by set_solver. done.
  - destruct (matches_at (eol l ++ x) (codes "Host: ")) eqn:E; [|done]. apply matches_at_prefix in E.
    destruct (prefix_weak_total _ (eol l) _ E) as [?|[t Ht]]; [by exists x| |].
    + done.
    + assert (13 ∈ codes "Host: ") as Hin.
      { rewrite Ht. unfold eol, CRLF. set_solver. }
      by apply (bool_decide_eq_true_2 _) in Hin.
Qed.

Lemma authority_no_cr name port : name_ok name -> (forall p, port = Some p -> uint 16 p) -> 13 ∉ authority name port.
Proof.
  intros Hn Hp Hin. pose proof (authority_bytes name port Hn Hp) as H13. rewrite Forall_forall in H13.
  apply H13 in Hin. lia.
Qed.

Lemma header_host_found first before name port after rest :
  first <> [] -> 13 ∉ first -> Forall other_header before -> Forall other_header after ->
  name_ok name -> (forall p, port = Some p -> uint 16 p) ->
  find_header_host (wire_lines (first :: before ++ (codes "Host: " ++ authority name port) :: after) ++ CRLF ++ rest)
    = Some (mkHost (text name) port).
Proof.
  intros Hf0 Hf Hb Ha Hn Hp. pose proof (authority_no_cr name port Hn Hp) as Hcr.
  set (host := codes "Host: " ++ authority name port). set (lines := first :: before ++ host :: after).
  assert (Hh : 13 ∉ host).
  { unfold host. rewrite elem_of_app. intros [Hin|?]; [|done]. by apply (bool_decide_eq_true_2 _) in Hin. }
  assert (Hno : Forall (fun l => 13 ∉ l) lines).
  { unfold lines. constructor; [done|]. apply Forall_app. split; [|constructor; [done|]];
      (eapply Forall_impl; [eassumption|]); by intros l (? & ? & ?). }
  unfold find_header_host, DOUBLE_CRLF.
  rewrite (index_after_lines [10; 13; 10] lines (CRLF ++ rest)).
  2, 3: done.
  3: by cbn; destruct rest.
  2: { unfold lines. cbn [tail]. apply Forall_app. split; [|constructor].
       - eapply Forall_impl; [exact Hb|]. intros l Hl x. apply other_header_apart; [done|by left].
       - intros x. done.
       - eapply Forall_impl; [exact Ha|]. intros l Hl x. apply other_header_apart; [done|by left]. }
  cbn [mbind option_bind].
  assert (Hsplit : wire_lines lines = wire_lines (first :: before) ++ codes "Host: " ++ authority name port ++ CRLF ++
                     wire_lines after).
  { unfold lines, wire_lines, host. rewrite app_comm_cons, map_app, concat_app. cbn [map concat]. unfold eol at 3.
    by rewrite <- !app_assoc. }
  assert (Htwo : (2 <= length (wire_lines (first :: before)))%nat)
    by (unfold wire_lines, eol; cbn [map concat]; rewrite !length_app; simpl; lia).
  replace (length (wire_lines lines) - 2 + 2)%nat with (length (wire_lines lines))
    by (rewrite Hsplit, length_app; lia).
  rewrite take_app_length, Hsplit. change (CRLF ++ codes "Host: ") with (13 :: 10 :: codes "Host: ").
  rewrite index_after_lines; [|done| | |].
  - cbn [mbind option_bind].
    replace (_ - 2 + _)%nat with (length (wire_lines (first :: before) ++ codes "Host: ")).
    2: { rewrite length_app. change (length (codes "Host: ")) with 6%nat.
         change (length (13 :: 10 :: codes "Host: ")) with 8%nat. lia. }
    rewrite (app_assoc (wire_lines _)), drop_app_length, (index_of_found _ 13 [10]) by done.
    cbn [mbind option_bind]. rewrite take_app_length, utf8_ascii; [by apply authority_host|].
    eapply Forall_impl; [by apply authority_bytes|]. simpl. lia.
  - unfold lines in Hno. rewrite app_comm_cons in Hno. by apply Forall_app in Hno as [? _].
  - cbn [tail]. eapply Forall_impl; [exact Hb|]. intros l Hl x. apply other_header_apart; [done|by right].
  - rewrite matches_at_same. apply matches_at_prefix. by apply prefix_app_r.
Qed.

Lemma request_host_found name port data :
  name_ok name -> (forall p, port = Some p -> uint 16 p) -> request_for name port data ->
  Http.find_host (mkPlainData data) = Some (mkHost (text name) port).
Proof.
  intros Hn Hp Hr. pose proof (authority_bytes name port Hn Hp) as Hab. destruct Hn as [Hne Hn'] eqn:En. clear En.
  assert (Hane : authority name port <> []) by (unfold authority; by destruct name).
  assert (Htne : text name <> []) by (by destruct name).
  assert (H32 : 32 ∉ authority name port).
  { intros Hin. rewrite Forall_forall in Hab. apply Hab in Hin. lia. }
  unfold Http.find_host. cbn [plain_data].
  destruct Hr as [method scheme tail version rest Hm Hl Ht Hu Hs Htail|method version rest Hm Hl
                 |method path version before after rest Hm Hl Hp32 Hb Ha].
  - rewrite find_url_host_line; [|done..|].
    2: { rewrite !elem_of_app. intros [Hin|[?|?]]; [|done..].
         destruct Hs as [-> | ->]; by apply (bool_decide_eq_true_2 _) in Hin. }
    rewrite Hu, capture_absolute by done. cbn [negb mbind option_bind]. rewrite authority_host by done.
    cbn [mbind option_bind]. by rewrite bool_decide_false by done.
  - rewrite find_url_host_line by done. rewrite utf8_ascii.
    2: { eapply Forall_impl; [exact Hab|]. simpl. lia. }
    rewrite capture_authority by done. cbn [negb mbind option_bind]. rewrite authority_host by done.
    cbn [mbind option_bind]. by rewrite bool_decide_false by done.
  - rewrite find_url_host_line; [|done..|set_solver]. rewrite capture_origin.
    assert ((if negb (utf8_ok (47 :: path)) then None else None ≫= _) = @None Host) as -> by (by case_match).
    rewrite app_assoc. change (eol ?l ++ concat (map eol ?ls)) with (wire_lines (l :: ls)).
    apply header_host_found; try done. unfold request_line. by destruct method.
Qed.
End find_host.

(** ** Error pages *)
Section pages.
Import ImpersonatorHttp.

Lemma replace_skip (c : ascii) pat rep l s :
  c ∉ l -> replace_loop (c :: pat) rep 0 (l ++ s) = l ++ replace_loop (c :: pat) rep 0 s.
Proof.
  induction l as [|x l IH]; intros Hl; [done|]. cbn [app replace_loop matches_at].
  rewrite decide_False by set_solver. by rewrite IH by set_solver.
Qed.

Lemma digits_no_brace n : 0 <= n -> "{"%char ∉ dec n.
Proof. intros Hn. apply all_digits_no_sep; [by apply dec_all_digits | done]. Qed.

Definition status_line (status : Z) : str := lit "HTTP/1.1 " ++ dec status ++ lit " Routing Error".

(** What a page is sent as: three lines, an empty one and the page. *)
Lemma error_response_layout status title subtitle content :
  0 <= status ->
  exists html, make_error_response status title subtitle content =
    concat (map eol [map ascii_code (status_line status); codes "Content-Type: text/html";
                     codes "Content-Length: " ++ map ascii_code (dec (Z.of_nat (length html)))]) ++
    CRLF ++ html.
Proof.
  intros Hs. exists (map ascii_code (make_error_page status title subtitle content)).
  unfold make_error_response. rewrite length_map. set (html := make_error_page _ _ _ _).
  pose proof (digits_no_brace status Hs) as H1.
  pose proof (digits_no_brace (Z.of_nat (length html)) ltac:(lia)) as H2.
  set (n := dec (Z.of_nat (length html))) in *. set (s := dec status) in *.
  assert (E1 : replace HTTP_RESPONSE_TEMPLATE (lit "{status}") s =
    lit "HTTP/1.1 " ++ s ++ (lit " Routing Error" ++ EOL ++ lit "Content-Type: text/html" ++ EOL ++
      lit "Content-Length: ") ++ lit "{length}" ++ (EOL ++ EOL) ++ lit "{body}") by reflexivity.
  rewrite E1. unfold replace. change (lit "{length}") with ("{"%char :: lit "length}") at 1.
  rewrite !replace_skip by (done || by apply (bool_decide_eq_false_1 _)).
  change (replace_loop ("{"%char :: lit "length}") n 0 (lit "{length}" ++ (EOL ++ EOL) ++ lit "{body}"))
    with (n ++ (EOL ++ EOL) ++ lit "{body}").
  change (lit "{body}") with ("{"%char :: lit "body}") at 1.
  rewrite !replace_skip by (done || by apply (bool_decide_eq_false_1 _)).
  assert (replace_loop ("{"%char :: lit "body}") html 0 (lit "{body}") = html) as -> by apply app_nil_r.
  unfold status_line. fold s. cbn [map concat]. unfold eol. rewrite !map_app, app_nil_r, <- !app_assoc.
  reflexivity.
Qed.

Lemma error_response_packet status title subtitle content :
  status = 402 \/ status = 503 ->
  Z.of_nat (length (make_error_response status title subtitle content)) < 2 ^ 64 ->
  packet ResponseStart.is_status (make_error_response status title subtitle content) false.
Proof.
  intros Hs Hlen. destruct (error_response_layout status title subtitle content ltac:(lia)) as [html E].
  rewrite E in *. rewrite !length_app in Hlen.
  assert (Hd : Forall (fun b => 0 <= b <= 127) (map ascii_code (dec (Z.of_nat (length html))))).
  { eapply Forall_impl; [apply text_dec; lia|]. simpl. lia. }
  assert (map ascii_code (status_line status) =
    codes (if status =? 402 then "HTTP/1.1 402 " else "HTTP/1.1 503 ") ++ codes "Routing Error") as ->
    by (by destruct Hs as [-> | ->]).
  eapply (packet_intro _ _ _ [_; _] html (Z.of_nat (length html))); [| | |done].
  - by destruct Hs as [-> | ->].
  - apply line_without_cr. by destruct Hs as [-> | ->]; apply (bool_decide_eq_false_1 _).
  - eapply headers_cons; [|apply plain_header; [done|by apply not_prefix..]|].
    { apply line_without_cr. by apply (bool_decide_eq_false_1 _). }
    eapply headers_cons; [| |constructor].
    + apply line_without_cr. rewrite elem_of_app. intros [Hin|Hin].
      * by apply (bool_decide_eq_true_2 _) in Hin.
      * pose proof (text_dec (Z.of_nat (length html)) ltac:(lia)) as Hc. rewrite Forall_forall in Hc.
        apply Hc in Hin. lia.
    + apply (length_header _ 1 _ []); [by rewrite app_nil_r|done|unfold uint; lia|].
      apply utf8_ascii. unfold eol. rewrite !Forall_app. split_and!; [|done|].
      * by repeat constructor.
      * by repeat constructor.
Qed.

Lemma http_impersonation `{!RegexSpaces} show_key response name key name_opt :
  (let imp := server_impersonator (HttpProtocolPack show_key) in
   response ∈ [route_query_failure_response imp name; dns_resolution_failure_response imp key name_opt;
               consuming_wallet_absent imp]) ->
  exists status t u c, (status = 402 \/ status = 503) /\ response = make_error_response status t u c.
Proof.
  cbn [server_impersonator HttpProtocolPack impersonator route_query_failure_response
       dns_resolution_failure_response consuming_wallet_absent].
  rewrite !elem_of_cons, elem_of_nil. intros [->|[->|[->|[]]]]; try destruct name_opt;
    eexists _, _, _, _; (split; [|reflexivity]); auto.
Qed.
End pages.

(** ** Properties *)

(** C18: for a request in any of the three forms of HTTP/1.1, to a proxy with the whole URL, a CONNECT
    with name and port, or with a path and a Host header among others, the HTTP pack finds the host
    that is asked for, with its port if one is given. *)
Theorem http_host_is_found `{!RegexSpaces} (show_key : PublicKey -> str) (name : bytes) (port : option Z) (data : bytes) :
  name_ok name -> (forall p, port = Some p -> uint 16 p) -> request_for name port data ->
  find_host (HttpProtocolPack show_key) (mkPlainData data) = Ret (Some (mkHost (text name) port)).
Proof. intros Hn Hp Hr. cbn [find_host HttpProtocolPack]. by rewrite (request_host_found name port). Qed.

Definition no_other_spaces : RegexSpaces.
Proof. refine {| other_space _ := false |}. done. Defined.

Definition toy_show_key (k : PublicKey) : str := text (key_data k).

Lemma http_host_is_found_witness :
  @find_host (@HttpProtocolPack no_other_spaces toy_show_key) (mkPlainData
    (codes "GET /index.html HTTP/1.1" ++ CRLF ++ codes "Accept: x" ++ CRLF ++ codes "Host: a.b:8080" ++ CRLF ++ CRLF ++
     codes "body")) = Ret (Some (mkHost (lit "a.b") (Some 8080))).
Proof.
  refine (http_host_is_found toy_show_key (codes "a.b") (Some 8080) _ _ _ _).
  - split; [done|]. by repeat constructor.
  - intros p [= <-]. split; norm_pow; lia.
  - refine (origin_form (codes "a.b") (Some 8080) (codes "GET") (codes "index.html") (codes "HTTP/1.1")
              [codes "Accept: x"] [] (codes "body") _ _ _ _ _).
    1-3: by apply (bool_decide_eq_false_1 _).
    + constructor; [|done]. split; [done|]. split; [by apply (bool_decide_eq_false_1 _)|by apply not_prefix].
    + done.
Defined.

(** C17: from a TLS ClientHello with any session, ciphers and extensions, whatever follows it, the TLS
    pack takes the host name of the server_name extension, and none if there is no such extension, no
    name of the right type in it, or one that is not UTF-8. On any other data it returns too, except
    that the beginning of a handshake record too short to hold the record header makes it panic. *)
Theorem tls_host_is_found (hello : ClientHello) (more data : bytes) :
  hello_ok hello ->
  Tls.find_host (mkPlainData (hello_wire hello ++ more)) =
    Ret (match hello_name (extensions hello) with Ok name => Some (mkHost name None) | Err _ => None end) /\
  ((exists r, Tls.find_host (mkPlainData data) = Ret r) <-> ~ (head data = Some 22 /\ (length data < 5)%nat)).
Proof.
  intros Hok. split; [|exact (tls_find_host_returns (mkPlainData data))].
  unfold Tls.find_host, Tls.is_handshake, Tls.next_is, hello_wire. rewrite <- !app_assoc.
  change (BinaryTraverser.new _) with
    (cursor [] (22 :: record_header hello ++ [1] ++ message_header hello ++ vec8 (session_id hello) ++
       vec16 (cipher_suites hello) ++ vec8 (compression_methods hello) ++ vec16 (extensions_wire (extensions hello)) ++ more)).
  rewrite get_u8_over. cbn [obind]. rewrite bool_decide_true by done. cbn [negb app].
  unfold Tls.is_client_hello. rewrite advance_over by (rewrite record_header_ok by done; done). cbn [obind].
  unfold Tls.next_is. rewrite get_u8_over. cbn [obind]. rewrite bool_decide_true by done. cbn [negb].
  destruct (host_name_found hello more Hok) as [x Hx].
  change (([22] ++ record_header hello) ++ [1]) with ([22] ++ record_header hello ++ [1]).
  rewrite Hx. cbn [obind]. by destruct (hello_name _).
Qed.

Definition toy_hello : ClientHello :=
  mkClientHello [3; 1; 0; 90] (repeat 7 37) [5; 6] [0; 4] [0]
    [OtherExtension 11 [1; 2]; ServerNames [(9, [1]); (0, codes "a.example")]; OtherExtension 35 []].

Lemma tls_host_is_found_witness :
  Tls.find_host (mkPlainData (hello_wire toy_hello ++ [])) = Ret (Some (mkHost (lit "a.example") None)).
Proof.
  refine (proj1 (tls_host_is_found toy_hello [] [] _)). split; try done.
  - apply Nat.ltb_lt. reflexivity.
  - apply Nat.ltb_lt. reflexivity.
  - by repeat constructor.
Defined.

(** Whatever the ProxyServer answers in place of a server (no route, no such host, no wallet) is
    one well-formed message of the protocol the client speaks. For HTTP it is a response whose
    Content-Length is right: a client that reads it in any pieces gets exactly this one packet. For
    TLS it is one record. *)
Theorem impersonated_responses_are_framed `{!RegexSpaces} `{!RegexDigits} (show_key : PublicKey -> str)
    (protocol : ProxyProtocol) (response : bytes) (name : str) (key : PublicKey) (name_opt : option str)
    (reads : list bytes) :
  (let imp := server_impersonator (from_protocol show_key protocol) in
   response ∈ [route_query_failure_response imp name; dns_resolution_failure_response imp key name_opt;
               consuming_wallet_absent imp]) ->
  Z.of_nat (length response) < 2 ^ 64 -> concat reads = response ->
  match protocol with
  | HTTP => exists f', feed (http_framer_new (finder_of Responses)) reads = Ret (f', [response])
  | TLS => TlsFramer.record response
  end.
Proof.
  intros Hin Hlen Hreads. destruct protocol; cbn [from_protocol] in Hin.
  - assert (packet ResponseStart.is_status response false) as Hp.
    { destruct (http_impersonation show_key response name key name_opt Hin) as (st & t & u & c & Hst & ->).
      by apply error_response_packet. }
    destruct (feed_ok (http_frame (start_of Responses)) (fun _ => True) reads [response]
      (http_framer_new (finder_of Responses)) Packets Packets) as (f' & E & _); [| |by cbn [concat]; rewrite Hreads, app_nil_r|done|].
    + eapply framed_cons; [|constructor]. exact (frame_packet _ _ false Hp).
    + apply (http_new_holds (finder_of Responses) (start_of Responses)).
    + by exists f'.
  - cbn [server_impersonator TlsProtocolPack] in Hin. rewrite !elem_of_cons, elem_of_nil in Hin.
    destruct Hin as [->|[->|[->|[]]]]; (apply (TlsFramer.record_intro 0x15 3 0 2); auto; unfold uint; lia).
Qed.

Lemma impersonated_responses_are_framed_witness :
  TlsFramer.record [0x15; 3; 3; 0; 2; 2; 0x70].
Proof.
  refine (@impersonated_responses_are_framed no_other_spaces no_other_digits toy_show_key TLS
    [0x15; 3; 3; 0; 2; 2; 0x70] [] (mkPublicKey []) None [[0x15; 3; 3]; [0; 2; 2; 0x70]] _ _ _).
  - right. left.
  - norm_pow. simpl. lia.
  - done.
Defined.
