(* ===== verification/ProxyServer.v ===== *)
(** * ProxyServer: between a client's connection and the Hopper

    proxy_server/mod.rs with the messages of sub_lib/proxy_server.rs. A handler returns the new state
    and what it sends, in order; sends do not fail. The answer to a route query comes later, to code
    that has no access to the actor's state: the query carries what that code needs ([RouteRequest]),
    and [route_answered] is that code. The messages the ProxyServer sends to itself ([ToSelf...]) come
    back through its mailbox. Every reading of the clock is an argument. *)
From S2P Require Import Prelude Text SubLib Cryptde Utils Wallet Route SequenceBuffer Messages Hopper.
From S2P Require Import Containers Database Neighborhood Framers StreamReader HttpFramer ProtocolPacks.

(** ** Messages *)
Record AddReturnRouteMessage := mkAddReturnRoute {
  return_route_id : Z;
  back_services : list ExpectedService;
  return_protocol : ProxyProtocol;
  server_name : option str
}.

Record AddRouteMessage := mkAddRoute { add_stream_key : StreamKey; add_route : RouteQueryResponse }.

#[global] Instance ExpectedService_eq_dec : EqDecision ExpectedService.
Proof. solve_decision. Defined.

Definition find_exit_node_key (self : AddReturnRouteMessage) : option PublicKey :=
  head (omap (fun service => match service with Exit k _ _ => Some k | _ => None end) (back_services self)).

Definition is_zero_hop (self : AddReturnRouteMessage) : bool :=
  bool_decide (back_services self = [Nothing; Nothing]).

(** What the code that waits for a route has captured *)
Record RouteRequest := mkRouteRequest {
  rq_stream_key : StreamKey;
  rq_payload : ClientRequestPayload;
  rq_source_addr : SocketAddr;
  rq_retire : bool
}.

Inductive proxy_effect :=
| ToDispatcher (m : TransmitDataMsg)
| ToHopper (p : IncipientCoresPackage)
| ToAccountantExit (r : ServiceReport)
| ToAccountantRouting (r : ServiceReport)
| ToNeighborhoodRoute (q : RouteQueryMessage) (r : RouteRequest)
| ToNeighborhoodDesirable (k : PublicKey) (desirable : bool)
| ToSelfReturnRoute (m : AddReturnRouteMessage)
| ToSelfRoute (m : AddRouteMessage)
| ToSelfShutdown (m : StreamShutdownMsg).

(** ** State *)
Record ProxyServer := mkProxyServer {
  is_bound : bool;
  keys_and_addrs : BidiHashMap.BidiHashMap StreamKey SocketAddr;
  tunneled_hosts : gmap StreamKey str;
  stream_key_routes : gmap StreamKey RouteQueryResponse;
  ps_is_decentralized : bool;
  consuming_wallet_balance : option Z;
  ps_cryptde : CryptDE;
  route_ids_to_return_routes : @TtlHashMap.TtlHashMap Z AddReturnRouteMessage _ _;
  browser_proxy_sequence_offset : bool
}.

(** 120 seconds, in milliseconds *)
Definition RETURN_ROUTE_TTL : Z := 120000.

Definition with_maps (keys : BidiHashMap.BidiHashMap StreamKey SocketAddr) (hosts : gmap StreamKey str)
    (routes : gmap StreamKey RouteQueryResponse) (self : ProxyServer) : ProxyServer :=
  mkProxyServer (is_bound self) keys hosts routes (ps_is_decentralized self) (consuming_wallet_balance self)
    (ps_cryptde self) (route_ids_to_return_routes self) (browser_proxy_sequence_offset self).

Definition with_return_routes (m : @TtlHashMap.TtlHashMap Z AddReturnRouteMessage _ _) (self : ProxyServer) : ProxyServer :=
  mkProxyServer (is_bound self) (keys_and_addrs self) (tunneled_hosts self) (stream_key_routes self)
    (ps_is_decentralized self) (consuming_wallet_balance self) (ps_cryptde self) m
    (browser_proxy_sequence_offset self).

Definition with_offset (self : ProxyServer) : ProxyServer :=
  mkProxyServer (is_bound self) (keys_and_addrs self) (tunneled_hosts self) (stream_key_routes self)
    (ps_is_decentralized self) (consuming_wallet_balance self) (ps_cryptde self)
    (route_ids_to_return_routes self) true.

Definition proxy_server_new (now : Z) (cryptde : CryptDE) (is_decentralized : bool)
    (consuming_wallet_balance : option Z) : ProxyServer :=
  mkProxyServer false BidiHashMap.new ∅ ∅ is_decentralized consuming_wallet_balance cryptde
    (TtlHashMap.new now RETURN_ROUTE_TTL) false.

Definition handle_bind (self : ProxyServer) : ProxyServer :=
  mkProxyServer true (keys_and_addrs self) (tunneled_hosts self) (stream_key_routes self)
    (ps_is_decentralized self) (consuming_wallet_balance self) (ps_cryptde self)
    (route_ids_to_return_routes self) (browser_proxy_sequence_offset self).

Definition handle_set_consuming_wallet (self : ProxyServer) : ProxyServer :=
  mkProxyServer (is_bound self) (keys_and_addrs self) (tunneled_hosts self) (stream_key_routes self)
    (ps_is_decentralized self) (Some 0) (ps_cryptde self)
    (route_ids_to_return_routes self) (browser_proxy_sequence_offset self).

(** [self.subs.as_ref().expect(..)] *)
Definition out_subs (self : ProxyServer) : outcome unit := if is_bound self then Ret tt else Panic.

Definition handle_add_return_route (now now' : Z) (self : ProxyServer) (msg : AddReturnRouteMessage)
  : outcome ProxyServer :=
  let* m := TtlHashMap.insert now now' (return_route_id msg) msg (route_ids_to_return_routes self) in
  Ret (with_return_routes m self).

Definition handle_add_route (self : ProxyServer) (msg : AddRouteMessage) : ProxyServer :=
  with_maps (keys_and_addrs self) (tunneled_hosts self)
    (<[add_stream_key msg := add_route msg]> (stream_key_routes self)) self.

Definition purge_stream_key (stream_key : StreamKey) (self : ProxyServer) : ProxyServer :=
  with_maps (BidiHashMap.remove_a stream_key (keys_and_addrs self)).1
    (delete stream_key (tunneled_hosts self)) (delete stream_key (stream_key_routes self)) self.

Definition hostname (payload : ClientRequestPayload) : str := default (lit "<unknown>") (target_hostname payload).

(** ** Reports *)
Definition exit_report (w : Wallet) (size : nat) : ServiceReport :=
  mkServiceReport w size (exit_service_rate DEFAULT_RATE_PACK) (exit_byte_rate DEFAULT_RATE_PACK).

Definition routing_report (w : Wallet) (size : nat) : ServiceReport :=
  mkServiceReport w size (routing_service_rate DEFAULT_RATE_PACK) (routing_byte_rate DEFAULT_RATE_PACK).

Definition report_routing_service (expected_services : list ExpectedService) (payload_size : nat) : list proxy_effect :=
  omap (fun service => match service with
                       | Routing _ earning_wallet _ => Some (ToAccountantRouting (routing_report earning_wallet payload_size))
                       | _ => None
                       end) expected_services.

Definition report_exit_service (expected_services : list ExpectedService) (payload : ClientRequestPayload)
  : list proxy_effect :=
  match head (omap (fun service => match service with Exit _ w _ => Some w | _ => None end) expected_services) with
  | Some earning_wallet => [ToAccountantExit (exit_report earning_wallet (length (data (request_packet payload))))]
  | None => []
  end.

Definition report_response_services_consumed (return_route_info : AddReturnRouteMessage) (exit_size routing_size : nat)
  : list proxy_effect :=
  omap (fun service => match service with
                       | Nothing => None
                       | Exit _ w _ => Some (ToAccountantExit (exit_report w exit_size))
                       | Routing _ w _ => Some (ToAccountantRouting (routing_report w routing_size))
                       end) (back_services return_route_info).

(** The key the payload is encrypted to *)
Definition destination_key (expected_services : list ExpectedService) (payload : ClientRequestPayload) : option PublicKey :=
  if bool_decide (expected_services <> []) && forallb (fun s => match s with Nothing => true | _ => false end) expected_services
  then Some (originator_public_key payload)
  else head (omap (fun service => match service with Exit k _ _ => Some k | _ => None end) expected_services).

Section server.
Context `{!RegexSpaces} (show_key : PublicKey -> str) (method_is_connect : bytes -> bool) (sha1 : bytes -> bytes).
Context `{!Serde LiveHop} `{!Serde Z} `{!Serde MessageType}.

(** ** Data on its way out *)
Definition send_route_failure (payload : ClientRequestPayload) (source_addr : SocketAddr) : list proxy_effect :=
  [ToDispatcher (mkTransmitDataMsg (Socket source_addr) true (Some 0)
     (route_query_failure_response (server_impersonator (from_protocol show_key (protocol payload))) (hostname payload)))].

Definition handle_route_failure := send_route_failure.

(** [retire_stream_key_via] is given exactly when the stream is to be retired. *)
Definition transmit_to_hopper (cryptde : CryptDE) (payload : ClientRequestPayload) (route : Route)
    (expected_services : list ExpectedService) (source_addr : SocketAddr) (retire : bool) : outcome (list proxy_effect) :=
  match destination_key expected_services payload with
  | None => Ret (handle_route_failure payload source_addr)
  | Some payload_destination_key =>
      let* pkg := expect_ok (incipient_new cryptde route (ClientRequest payload) payload_destination_key) in
      Ret (report_routing_service expected_services (crypt_len (ic_payload pkg)) ++ [ToHopper pkg] ++
           if retire then [ToSelfShutdown (mkStreamShutdownMsg source_addr (NonClandestine 0 0) false)] else [])
  end.

Definition try_transmit_to_hopper (cryptde : CryptDE) (route_query_response : RouteQueryResponse)
    (payload : ClientRequestPayload) (source_addr : SocketAddr) (retire : bool) : outcome (list proxy_effect) :=
  match expected_services route_query_response with
  | RoundTrip over back id =>
      let* sent := transmit_to_hopper cryptde payload (response_route route_query_response) over source_addr retire in
      Ret ([ToSelfReturnRoute (mkAddReturnRoute id back (protocol payload) (target_hostname payload))] ++
           report_exit_service over payload ++ sent)
  | OneWay _ => Panic
  end.

(** The Neighborhood's answer to the route query. *)
Definition route_answered (cryptde : CryptDE) (r : RouteRequest) (answer : option RouteQueryResponse)
  : outcome (list proxy_effect) :=
  match answer with
  | Some route_query_response =>
      let* sent := try_transmit_to_hopper cryptde route_query_response (rq_payload r) (rq_source_addr r) (rq_retire r) in
      Ret (ToSelfRoute (mkAddRoute (rq_stream_key r) route_query_response) :: sent)
  | None => Ret (handle_route_failure (rq_payload r) (rq_source_addr r))
  end.

Definition make_stream_key (self : ProxyServer) (ibcd : InboundClientData) : outcome (ProxyServer * StreamKey) :=
  match BidiHashMap.b_to_a (keys_and_addrs self) (peer_addr ibcd) with
  | Some stream_key => Ret (self, stream_key)
  | None =>
      let* stream_key := stream_key_new sha1 (public_key (ps_cryptde self)) (peer_addr ibcd) in
      Ret (with_maps (BidiHashMap.insert stream_key (peer_addr ibcd) (keys_and_addrs self))
             (tunneled_hosts self) (stream_key_routes self) self, stream_key)
  end.

Definition make_payload (self : ProxyServer) (ibcd : InboundClientData) (stream_key : StreamKey)
  : outcome (option ClientRequestPayload) :=
  let tunnelled_host := tunneled_hosts self !! stream_key in
  let new_ibcd := match tunnelled_host with
                  | Some _ => mkInboundClientData (peer_addr ibcd) (Some 443) (ibcd_last_data ibcd)
                                (is_clandestine ibcd) (ibcd_sequence_number ibcd) (ibcd_data ibcd)
                  | None => ibcd
                  end in
  let* made := payload_factory_make show_key new_ibcd stream_key (ps_cryptde self) in
  match made, tunnelled_host with
  | None, _ => Ret None
  | Some p, Some host =>
      Ret (Some (mkClientRequestPayload VERSION_0_0 (request_stream_key p) (request_packet p) (Some host)
                   (target_port p) (protocol p) (originator_public_key p)))
  | Some p, None => Ret (Some p)
  end.

Definition handle_normal_client_data (self : ProxyServer) (msg : InboundClientData) (retire_stream_key : bool)
  : outcome (ProxyServer * list proxy_effect) :=
  let* _ := out_subs self in
  let source_addr := peer_addr msg in
  if bool_decide (consuming_wallet_balance self = None) && ps_is_decentralized self then
    match from_ibcd show_key msg with
    | None => Ret (self, [])
    | Some protocol_pack =>
        Ret (self, [ToDispatcher (mkTransmitDataMsg (Socket source_addr) true (Some 0)
                      (consuming_wallet_absent (server_impersonator protocol_pack)))])
    end
  else
    let* (self', stream_key) := make_stream_key self msg in
    let* made := make_payload self' msg stream_key in
    match made with
    | None => Ret (self', [])
    | Some payload =>
        match stream_key_routes self' !! stream_key with
        | Some route_query_response =>
            let* sent := try_transmit_to_hopper (ps_cryptde self') route_query_response payload source_addr retire_stream_key in
            Ret (self', sent)
        | None =>
            Ret (self', [ToNeighborhoodRoute
                           (data_indefinite_route_request (if ps_is_decentralized self' then 3 else 0))
                           (mkRouteRequest stream_key payload source_addr retire_stream_key)])
        end
    end.

Definition OK_RESPONSE : bytes := codes "HTTP/1.1 200 OK" ++ CRLF ++ CRLF.
Definition BAD_REQUEST_RESPONSE : bytes :=
  codes "HTTP/1.1 400 Bad Request" ++ CRLF ++ codes "Content-Length: 0" ++ CRLF ++ CRLF.

Definition tls_connect (self : ProxyServer) (msg : InboundClientData) : outcome (ProxyServer * list proxy_effect) :=
  let bad_request := [ToDispatcher (mkTransmitDataMsg (Socket (peer_addr msg)) true (ibcd_sequence_number msg)
                                      BAD_REQUEST_RESPONSE)] in
  match Http.find_host (mkPlainData (ibcd_data msg)) with
  | Some host =>
      if bool_decide (host_port host = Some 443) then
        let* (self', stream_key) := make_stream_key self msg in
        let self'' := with_maps (keys_and_addrs self') (<[stream_key := host_name host]> (tunneled_hosts self'))
                        (stream_key_routes self') self' in
        let* _ := out_subs self'' in
        Ret (self'', [ToDispatcher (mkTransmitDataMsg (Socket (peer_addr msg)) false (ibcd_sequence_number msg) OK_RESPONSE)])
      else let* _ := out_subs self in Ret (self, bad_request)
  | None => let* _ := out_subs self in Ret (self, bad_request)
  end.

Definition handle_inbound_client_data (self : ProxyServer) (msg : InboundClientData)
  : outcome (ProxyServer * list proxy_effect) :=
  if is_connect method_is_connect (ibcd_data msg) then
    let* (self', sent) := tls_connect self msg in Ret (with_offset self', sent)
  else handle_normal_client_data self msg false.

(** ** Data on its way back *)
Definition get_return_route_info (now now' : Z) (self : ProxyServer) (remaining_route : Route)
  : outcome (ProxyServer * option AddReturnRouteMessage) :=
  let (shifted, top) := shift remaining_route (ps_cryptde self) in
  let* _ := expect_ok top in
  match route_id shifted (ps_cryptde self) with
  | Err _ => Ret (self, None)
  | Ok return_route_id =>
      let* (m, rri) := TtlHashMap.get now now' return_route_id (route_ids_to_return_routes self) in
      Ret (with_return_routes m self, rri)
  end.

Definition handle_client_response_payload (now now' : Z) (self : ProxyServer)
    (msg : ExpiredCoresPackage ClientResponsePayload) : outcome (ProxyServer * list proxy_effect) :=
  let response := payload msg in
  let packet := response_packet response in
  let* (self', info) := get_return_route_info now now' self (remaining_route msg) in
  match info with
  | None => Ret (self', [])
  | Some return_route_info =>
      match BidiHashMap.a_to_b (keys_and_addrs self') (response_stream_key response) with
      | Some socket_addr =>
          let* _ := out_subs self' in
          let sequence_number :=
            wrap 64 (sequence_number packet + if browser_proxy_sequence_offset self' then 1 else 0) in
          Ret (if last_data packet then purge_stream_key (response_stream_key response) self' else self',
               report_response_services_consumed return_route_info (length (data packet)) (payload_len msg) ++
               [ToDispatcher (mkTransmitDataMsg (Socket socket_addr) (last_data packet) (Some sequence_number) (data packet))])
      | None => Ret (self', [])
      end
  end.

Definition handle_dns_resolve_failure (now now' : Z) (self : ProxyServer)
    (msg : ExpiredCoresPackage DnsResolveFailure) : outcome (ProxyServer * list proxy_effect) :=
  let* (self', info) := get_return_route_info now now' self (remaining_route msg) in
  match info with
  | None => Ret (self', [])
  | Some return_route_info =>
      let* exit_public_key :=
        match find_exit_node_key return_route_info with
        | Some k => Ret k
        | None => if is_zero_hop return_route_info then Ret (public_key (ps_cryptde self')) else Panic
        end in
      let stream_key := failure_stream_key (payload msg) in
      match BidiHashMap.a_to_b (keys_and_addrs self') stream_key with
      | Some socket_addr =>
          let* _ := out_subs self' in
          Ret (purge_stream_key stream_key self',
               [ToNeighborhoodDesirable exit_public_key false] ++
               report_response_services_consumed return_route_info 0 (payload_len msg) ++
               [ToDispatcher (mkTransmitDataMsg (Socket socket_addr) true (Some 0)
                  (dns_resolution_failure_response
                     (server_impersonator (from_protocol show_key (return_protocol return_route_info)))
                     exit_public_key (server_name return_route_info)))])
      | None => Ret (self', [])
      end
  end.

Definition handle_stream_shutdown (self : ProxyServer) (msg : StreamShutdownMsg)
  : outcome (ProxyServer * list proxy_effect) :=
  match stream_type msg with
  | Clandestine => Panic
  | NonClandestine reception_port sequence_number =>
      match BidiHashMap.b_to_a (keys_and_addrs self) (shutdown_peer_addr msg) with
      | None => Ret (self, [])
      | Some stream_key =>
          if report_to_counterpart msg then
            handle_normal_client_data self
              (mkInboundClientData (shutdown_peer_addr msg) (Some reception_port) true false (Some sequence_number) [])
              true
          else Ret (purge_stream_key stream_key self, [])
      end
  end.
End server.

(** ** The ProxyServer as a state machine *)
Inductive proxy_msg :=
| Bind
| SetConsumingWallet
| Inbound (m : InboundClientData)
| AddReturnRoute (m : AddReturnRouteMessage)
| AddRoute (m : AddRouteMessage)
| DnsFailure (p : ExpiredCoresPackage DnsResolveFailure)
| Response (p : ExpiredCoresPackage ClientResponsePayload)
| StreamShutdown (m : StreamShutdownMsg).

Section machine.
Context `{!RegexSpaces} (show_key : PublicKey -> str) (method_is_connect : bytes -> bool) (sha1 : bytes -> bytes).
Context `{!Serde LiveHop} `{!Serde Z} `{!Serde MessageType}.

(** One message, with the two readings of the clock that some handlers take *)
Definition handle (now now' : Z) (self : ProxyServer) (m : proxy_msg) : outcome (ProxyServer * list proxy_effect) :=
  match m with
  | Bind => Ret (handle_bind self, [])
  | SetConsumingWallet => Ret (handle_set_consuming_wallet self, [])
  | Inbound i => handle_inbound_client_data show_key method_is_connect sha1 self i
  | AddReturnRoute a => let* self' := handle_add_return_route now now' self a in Ret (self', [])
  | AddRoute a => Ret (handle_add_route self a, [])
  | DnsFailure p => handle_dns_resolve_failure show_key now now' self p
  | Response p => handle_client_response_payload now now' self p
  | StreamShutdown s => handle_stream_shutdown show_key sha1 self s
  end.

(** A port is 16 bits wide. *)
Definition valid_addr (a : SocketAddr) : Prop := uint 16 (port a).

Definition valid_msg (m : proxy_msg) : Prop := match m with Inbound i => valid_addr (peer_addr i) | _ => True end.

(** The states that any messages at all can lead to *)
Inductive reachable : ProxyServer -> Prop :=
| reachable_new now cryptde decentralized balance : reachable (proxy_server_new now cryptde decentralized balance)
| reachable_step now now' self m self' sent :
    reachable self -> valid_msg m -> handle now now' self m = Ret (self', sent) -> reachable self'.

(** The key of the stream to an address *)
Definition key_of (self : ProxyServer) (a : SocketAddr) : outcome StreamKey :=
  stream_key_new sha1 (public_key (ps_cryptde self)) a.

Record consistent (self : ProxyServer) : Prop := {
  both_ways : BidiHashMap.inverse (keys_and_addrs self);
  valid_addrs k a : BidiHashMap.a_to_b (keys_and_addrs self) k = Some a -> valid_addr a;
  true_keys k a : BidiHashMap.a_to_b (keys_and_addrs self) k = Some a -> key_of self a = Ret k;
  live_tunnels k : is_Some (tunneled_hosts self !! k) -> is_Some (BidiHashMap.a_to_b (keys_and_addrs self) k)
}.

(** SHA-1 does not give two peers of a Node the same key. *)
Definition distinct_keys : Prop := forall pk a b k,
  valid_addr a -> valid_addr b -> stream_key_new sha1 pk a = Ret k -> stream_key_new sha1 pk b = Ret k -> a = b.

(** A change that leaves the streams as they are *)
Definition same_streams (self self' : ProxyServer) : Prop :=
  keys_and_addrs self' = keys_and_addrs self /\ tunneled_hosts self' = tunneled_hosts self /\
  ps_cryptde self' = ps_cryptde self.

Lemma same_streams_consistent self self' : same_streams self self' -> consistent self -> consistent self'.
Proof.
  intros (Ek & Et & Ec) [Hb Hv Ht Hl]. split; rewrite ?Ek, ?Et; [done|done| |done].
  intros k a. unfold key_of. rewrite Ec. apply Ht.
Qed.

Lemma new_consistent now cryptde decentralized balance : consistent (proxy_server_new now cryptde decentralized balance).
Proof.
  split; cbn.
  - apply BidiHashMap.new_inverse.
  - intros k a. unfold BidiHashMap.a_to_b. cbn. by rewrite lookup_empty.
  - intros k a. unfold BidiHashMap.a_to_b. cbn. by rewrite lookup_empty.
  - intros k. rewrite lookup_empty. by intros [].
Qed.

Lemma purge_consistent self k : consistent self -> consistent (purge_stream_key k self).
Proof.
  intros [Hb Hv Ht Hl]. unfold purge_stream_key. split; cbn [keys_and_addrs tunneled_hosts with_maps].
  - by apply BidiHashMap.remove_a_inverse.
  - intros k' a. unfold BidiHashMap.remove_a, BidiHashMap.a_to_b. case_match; cbn; [|apply Hv].
    rewrite lookup_delete_Some. intros [_ Ha]. by eapply Hv.
  - intros k' a. unfold BidiHashMap.remove_a, BidiHashMap.a_to_b. case_match; cbn; [|apply Ht].
    rewrite lookup_delete_Some. intros [_ Ha]. by apply Ht.
  - intros k'. rewrite lookup_delete_is_Some. intros [Hne Hk']. apply Hl in Hk'.
    unfold BidiHashMap.remove_a, BidiHashMap.a_to_b in *. case_match; cbn; [|done].
    by rewrite lookup_delete_ne.
Qed.

Lemma make_stream_key_spec self msg self' k :
  distinct_keys -> consistent self -> valid_addr (peer_addr msg) -> make_stream_key sha1 self msg = Ret (self', k) ->
  consistent self' /\ key_of self' (peer_addr msg) = Ret k /\
  BidiHashMap.a_to_b (keys_and_addrs self') k = Some (peer_addr msg).
Proof.
  intros Hd Hc Hva. pose proof Hc as [Hb Hv Ht Hl]. unfold make_stream_key.
  destruct (BidiHashMap.b_to_a (keys_and_addrs self) (peer_addr msg)) as [k'|] eqn:E.
  { intros [= <- <-]. apply Hb in E. split_and!; [done|by apply Ht|done]. }
  intros (k' & Ek & [= <- <-])%obind_ret_inv.
  assert (Hnew : BidiHashMap.a_to_b (keys_and_addrs self) k' = None).
  { destruct (BidiHashMap.a_to_b _ _) as [a|] eqn:Ea; [|done]. pose proof (Ht k' a Ea) as Hk.
    assert (a = peer_addr msg) as -> by (eapply Hd; [by eapply Hv|done..]). apply Hb in Ea. congruence. }
  split_and!; [|done|unfold BidiHashMap.a_to_b; cbn; by rewrite lookup_insert_eq].
  split; cbn [keys_and_addrs tunneled_hosts with_maps].
  - apply BidiHashMap.insert_inverse; [done|]. by left.
  - intros k2 a. unfold BidiHashMap.a_to_b. cbn. rewrite lookup_insert_Some. intros [[<- <-]|[_ Ha]]; [done|].
    by eapply Hv.
  - intros k2 a. unfold BidiHashMap.a_to_b. cbn. rewrite lookup_insert_Some. intros [[<- <-]|[_ Ha]]; [done|].
    by apply Ht.
  - intros k2 Hk2%Hl. unfold BidiHashMap.a_to_b in *. cbn. apply lookup_insert_is_Some'. by right.
Qed.

Lemma make_stream_key_cryptde self msg self' k :
  make_stream_key sha1 self msg = Ret (self', k) -> ps_cryptde self' = ps_cryptde self.
Proof.
  unfold make_stream_key. destruct (BidiHashMap.b_to_a _ _); [by intros [= <- <-]|].
  by intros (k' & _ & [= <- <-])%obind_ret_inv.
Qed.

Lemma get_return_route_info_same now now' self r self' info :
  get_return_route_info now now' self r = Ret (self', info) -> same_streams self self'.
Proof.
  unfold get_return_route_info. destruct (shift _ _) as [shifted top]. intros (h & _ & E)%obind_ret_inv.
  destruct (route_id _ _) as [id|]; [|by injection E as <- <-].
  apply obind_ret_inv in E as ([m rri] & _ & [= <- <-]). done.
Qed.

(** Data for clients goes only to sockets with [P]. *)
Definition directed (P : SocketAddr -> Prop) (e : proxy_effect) : Prop :=
  match e with ToDispatcher m => exists a, endpoint m = Socket a /\ P a | _ => True end.

Lemma omap_directed {A} P (f : A -> option proxy_effect) l :
  (forall x e, f x = Some e -> directed P e) -> Forall (directed P) (omap f l).
Proof. intros Hf. apply Forall_forall. intros e (x & _ & He)%list_elem_of_omap. by eapply Hf. Qed.

Lemma transmit_directed cryptde pl r services a retire sent :
  transmit_to_hopper show_key cryptde pl r services a retire = Ret sent -> Forall (directed (eq a)) sent.
Proof.
  unfold transmit_to_hopper. case_match.
  - intros (pkg & _ & [= <-])%obind_ret_inv. apply Forall_app. split.
    + apply omap_directed. intros [] e He; simplify_eq/=; done.
    + constructor; [done|]. destruct retire; repeat constructor.
  - intros [= <-]. constructor; [by eexists|done].
Qed.

Lemma try_transmit_directed cryptde rqr pl a retire sent :
  try_transmit_to_hopper show_key cryptde rqr pl a retire = Ret sent -> Forall (directed (eq a)) sent.
Proof.
  unfold try_transmit_to_hopper. case_match; [done|]. intros (s & E & [= <-])%obind_ret_inv.
  constructor; [done|]. apply Forall_app. split; [|by eapply transmit_directed].
  unfold report_exit_service. case_match; by repeat constructor.
Qed.

Lemma response_reports_directed P info n m : Forall (directed P) (report_response_services_consumed info n m).
Proof. apply omap_directed. intros [] e He; simplify_eq/=; done. Qed.

Lemma normal_data_spec self msg retire self' sent :
  distinct_keys -> consistent self -> valid_addr (peer_addr msg) ->
  handle_normal_client_data show_key sha1 self msg retire = Ret (self', sent) ->
  consistent self' /\ ps_cryptde self' = ps_cryptde self /\ Forall (directed (eq (peer_addr msg))) sent.
Proof.
  intros Hd Hc Hva. unfold handle_normal_client_data. intros (_ & _ & E)%obind_ret_inv. case_match.
  { case_match; injection E as <- <-; split_and!; try done. constructor; [by eexists|done]. }
  apply obind_ret_inv in E as ([s1 k] & Ek & E). pose proof (make_stream_key_spec _ _ _ _ Hd Hc Hva Ek) as (Hc1 & _ & _).
  pose proof (make_stream_key_cryptde _ _ _ _ Ek) as Hcr.
  apply obind_ret_inv in E as ([pl|] & _ & E); [|by injection E as <- <-]. case_match.
  - apply obind_ret_inv in E as (s & Es & [= <- <-]). split_and!; [done..|]. by eapply try_transmit_directed.
  - injection E as <- <-. split_and!; [done..|]. by repeat constructor.
Qed.

Lemma tls_connect_spec self msg self' sent :
  distinct_keys -> consistent self -> valid_addr (peer_addr msg) -> tls_connect sha1 self msg = Ret (self', sent) ->
  consistent self' /\ ps_cryptde self' = ps_cryptde self /\ Forall (directed (eq (peer_addr msg))) sent.
Proof.
  intros Hd Hc Hva. unfold tls_connect. intros E.
  assert (Hbad : (let* _ := out_subs self in
    Ret (self, [ToDispatcher (mkTransmitDataMsg (Socket (peer_addr msg)) true (ibcd_sequence_number msg) BAD_REQUEST_RESPONSE)]))
    = Ret (self', sent) ->
    consistent self' /\ ps_cryptde self' = ps_cryptde self /\ Forall (directed (eq (peer_addr msg))) sent).
  { intros (_ & _ & [= <- <-])%obind_ret_inv. split_and!; [done..|]. constructor; [by eexists|done]. }
  case_match; [|auto]. case_match; [|auto].
  apply obind_ret_inv in E as ([s1 k] & Ek & E). apply obind_ret_inv in E as (_ & _ & [= <- <-]).
  pose proof (make_stream_key_spec _ _ _ _ Hd Hc Hva Ek) as ([Hb Hv Ht Hl] & _ & Ha). split_and!.
  - split; cbn [keys_and_addrs tunneled_hosts with_maps]; [done..|]. intros k'.
    rewrite lookup_insert_is_Some'. intros [<-|Hk']; [by eexists|by apply Hl].
  - exact (make_stream_key_cryptde _ _ _ _ Ek).
  - constructor; [by eexists|done].
Qed.

(** Whom a message may bring data to *)
Definition addressed (self : ProxyServer) (m : proxy_msg) (a : SocketAddr) : Prop :=
  match m with
  | Inbound i => a = peer_addr i
  | StreamShutdown s => a = shutdown_peer_addr s
  | DnsFailure p => key_of self a = Ret (failure_stream_key (payload p))
  | Response p => key_of self a = Ret (response_stream_key (payload p))
  | _ => False
  end.

Lemma handle_spec now now' self m self' sent :
  distinct_keys -> consistent self -> valid_msg m -> handle now now' self m = Ret (self', sent) ->
  consistent self' /\ ps_cryptde self' = ps_cryptde self /\ Forall (directed (addressed self m)) sent.
Proof.
  intros Hd Hc Hva. destruct m as [| |i|a|a|p|p|s]; cbn [handle valid_msg] in *.
  1, 2, 5: intros [= <- <-]; split_and!; [|done..]; by apply (same_streams_consistent self).
  - unfold handle_inbound_client_data. case_match.
    + intros ([s1 e1] & E & [= <- <-])%obind_ret_inv. apply tls_connect_spec in E as (Q1 & Q2 & Q3); [|done..].
      split_and!; [by apply (same_streams_consistent s1)|done|].
      eapply Forall_impl; [exact Q3|]. intros [] He; try done. by destruct He as (a & ? & <-); exists (peer_addr i).
    + intros (Q1 & Q2 & Q3)%normal_data_spec; [|done..]. split_and!; [done..|].
      eapply Forall_impl; [exact Q3|]. intros [] He; try done. by destruct He as (a & ? & <-); exists (peer_addr i).
  - intros (s1 & (mm & _ & [= <-])%obind_ret_inv & [= <- <-])%obind_ret_inv.
    split_and!; [|done..]. by apply (same_streams_consistent self).
  - unfold handle_dns_resolve_failure. intros ([s1 info] & Ei & E)%obind_ret_inv.
    apply get_return_route_info_same in Ei as Hs. pose proof (same_streams_consistent _ _ Hs Hc) as Hc1.
    destruct Hs as (Hk & _ & Hcr). destruct info as [info|]; [|by injection E as <- <-].
    apply obind_ret_inv in E as (ek & _ & E). case_match eqn:Ea; [|by injection E as <- <-].
    apply obind_ret_inv in E as (_ & _ & [= <- <-]). split_and!; [by apply purge_consistent|done|].
    constructor; [done|]. apply Forall_app. split; [apply response_reports_directed|]. constructor; [|done].
    eexists. split; [done|]. unfold addressed. rewrite Hk in Ea. by apply (true_keys _ Hc).
  - unfold handle_client_response_payload. intros ([s1 info] & Ei & E)%obind_ret_inv.
    apply get_return_route_info_same in Ei as Hs. pose proof (same_streams_consistent _ _ Hs Hc) as Hc1.
    destruct Hs as (Hk & _ & Hcr). destruct info as [info|]; [|by injection E as <- <-].
    case_match eqn:Ea; [|by injection E as <- <-]. apply obind_ret_inv in E as (_ & _ & [= <- <-]). split_and!.
    + case_match; [by apply purge_consistent|done].
    + by case_match.
    + apply Forall_app. split; [apply response_reports_directed|]. constructor; [|done].
      eexists. split; [done|]. unfold addressed. rewrite Hk in Ea. by apply (true_keys _ Hc).
  - unfold handle_stream_shutdown. case_match; [|done].
    destruct (BidiHashMap.b_to_a _ _) as [k|] eqn:Ek; [|by intros [= <- <-]]. case_match.
    + intros (Q1 & Q2 & Q3)%normal_data_spec; [|done|done|].
      2: { apply (both_ways _ Hc) in Ek. by eapply (valid_addrs _ Hc). } split_and!; [done..|].
      eapply Forall_impl; [exact Q3|]. intros [] He; try done. destruct He as (a & ? & <-). by eexists.
    + intros [= <- <-]. split_and!; [by apply purge_consistent|done..].
Qed.

Lemma reachable_consistent self : distinct_keys -> reachable self -> consistent self.
Proof.
  intros Hd. induction 1; [apply new_consistent|]. by eapply handle_spec.
Qed.
End machine.

(** ** A session *)
(** What the Nodes of one direction of a route are owed *)
Definition bill (services : list ExpectedService) (exit_size routing_size : nat) : list proxy_effect :=
  omap (fun s => match s with
                 | Nothing => None
                 | Exit _ w _ => Some (ToAccountantExit (mkServiceReport w exit_size 10001 101))
                 | Routing _ w _ => Some (ToAccountantRouting (mkServiceReport w routing_size 10000 100))
                 end) services.

Definition exits (services : list ExpectedService) : list PublicKey :=
  omap (fun s => match s with Exit k _ _ => Some k | _ => None end) services.

Lemma no_exit_bill services pl n m :
  exits services = [] -> report_exit_service services pl = [] /\ report_routing_service services n = bill services m n.
Proof.
  unfold exits, report_exit_service, report_routing_service, bill.
  induction services as [|s services IH]; [done|]. destruct s; cbn; [|done|done].
  intros E. destruct (IH E) as [IH1 ->]. split; [|done]. by rewrite IH1.
Qed.

Lemma one_exit_bill services pl k n :
  exits services = [k] ->
  report_exit_service services pl ++ report_routing_service services n ≡ₚ
    bill services (length (data (request_packet pl))) n.
Proof.
  induction services as [|s services IH]; [done|]. destruct s as [k' w rp|k' w rp|].
  - intros E. specialize (IH E). unfold report_exit_service, report_routing_service, bill in *. cbn.
    rewrite <- IH. by rewrite <- Permutation_middle.
  - cbn. intros [= -> E]. destruct (no_exit_bill services pl n (length (data (request_packet pl))) E) as [_ E'].
    unfold report_exit_service, report_routing_service, bill in *. cbn. by rewrite E'.
  - exact IH.
Qed.

Lemma one_exit_destination services pl k : exits services = [k] -> destination_key services pl = Some k.
Proof.
  intros E. unfold destination_key. unfold exits in E. rewrite E. cbn [head].
  replace (forallb _ services) with false; [by rewrite andb_false_r|]. symmetry.
  revert E. induction services as [|s services IH]; [done|]. destruct s; cbn; [done|done|exact IH].
Qed.

Section session.
Context `{!RegexSpaces} (show_key : PublicKey -> str) (method_is_connect : bytes -> bool) (sha1 : bytes -> bytes).
Context `{!Serde LiveHop} `{!Serde Z} `{!Serde MessageType}.

(** A Node that can send *)
Definition ready (self : ProxyServer) : Prop :=
  is_bound self = true /\ (ps_is_decentralized self = true -> consuming_wallet_balance self <> None).

Lemma ready_not_absent self : ready self ->
  bool_decide (consuming_wallet_balance self = None) && ps_is_decentralized self = false.
Proof.
  intros [_ Hw]. destruct (ps_is_decentralized self); [|by rewrite andb_false_r].
  by rewrite bool_decide_false by auto.
Qed.

(** The data of a client whose stream has a key and no tunnel *)
Lemma normal_data_known self msg retire k pl :
  ready self -> BidiHashMap.b_to_a (keys_and_addrs self) (peer_addr msg) = Some k ->
  tunneled_hosts self !! k = None ->
  payload_factory_make show_key msg k (ps_cryptde self) = Ret (Some pl) ->
  handle_normal_client_data show_key sha1 self msg retire =
    match stream_key_routes self !! k with
    | Some rqr => let* sent := try_transmit_to_hopper show_key (ps_cryptde self) rqr pl (peer_addr msg) retire in
                  Ret (self, sent)
    | None => Ret (self, [ToNeighborhoodRoute
                (data_indefinite_route_request (if ps_is_decentralized self then 3 else 0))
                (mkRouteRequest k pl (peer_addr msg) retire)])
    end.
Proof.
  intros Hr Hk Ht Hp. unfold handle_normal_client_data, out_subs. rewrite (proj1 Hr), ready_not_absent by done.
  cbn [obind]. unfold make_stream_key. rewrite Hk. cbn [obind]. unfold make_payload. rewrite Ht, Hp. done.
Qed.

(** The first data of a client *)
Lemma normal_data_new self msg retire k pl :
  ready self -> BidiHashMap.b_to_a (keys_and_addrs self) (peer_addr msg) = None ->
  key_of sha1 self (peer_addr msg) = Ret k ->
  tunneled_hosts self !! k = None -> stream_key_routes self !! k = None ->
  payload_factory_make show_key msg k (ps_cryptde self) = Ret (Some pl) ->
  handle_normal_client_data show_key sha1 self msg retire =
    Ret (with_maps (BidiHashMap.insert k (peer_addr msg) (keys_and_addrs self)) (tunneled_hosts self)
           (stream_key_routes self) self,
         [ToNeighborhoodRoute (data_indefinite_route_request (if ps_is_decentralized self then 3 else 0))
            (mkRouteRequest k pl (peer_addr msg) retire)]).
Proof.
  intros Hr Hk Hkey Ht Hroute Hp. unfold handle_normal_client_data, out_subs.
  rewrite (proj1 Hr), ready_not_absent by done.
  cbn [obind]. unfold make_stream_key. rewrite Hk. unfold key_of in Hkey. rewrite Hkey. cbn [obind].
  unfold make_payload. cbn [tunneled_hosts with_maps ps_cryptde stream_key_routes]. rewrite Ht, Hp. cbn [obind].
  by rewrite Hroute.
Qed.

(** Sending over a known route with one exit *)
Lemma transmit_ok {good} `{!SerdeOk MessageType good} (cryptde exit_ : CryptDE) `{!CryptPair cryptde exit_} pl r over back id a :
  exits over = [public_key exit_] -> good (ClientRequest pl) ->
  exists c reports, decodex exit_ c = Ok (ClientRequest pl) /\
    try_transmit_to_hopper show_key cryptde (mkRouteResponse r (RoundTrip over back id)) pl a false =
      Ret (ToSelfReturnRoute (mkAddReturnRoute id back (protocol pl) (target_hostname pl)) :: reports ++
           [ToHopper (mkIncipient r c)]) /\
    reports ≡ₚ bill over (length (data (request_packet pl))) (crypt_len c).
Proof.
  intros Hx Hg. destruct (serde_roundtrip (ClientRequest pl) Hg) as (v & Ev & Hv & Ed).
  destruct (cp_encode (CryptPair := CryptPair0) (mkPlainData v) Hv) as (c & Ec & Edc).
  exists c, (report_exit_service over pl ++ report_routing_service over (crypt_len c)). split_and!.
  - unfold decodex. rewrite Edc. cbn [plain_data]. by rewrite Ed.
  - unfold try_transmit_to_hopper, transmit_to_hopper. cbn [expected_services response_route].
    rewrite (one_exit_destination over pl _ Hx). unfold incipient_new, encodex. rewrite Ev, Ec.
    cbn [expect_ok obind ic_payload]. by rewrite app_nil_r, <- app_assoc.
  - by eapply one_exit_bill.
Qed.

(** The route on which a package came back says which request it answers. *)
Definition answers_request (self : ProxyServer) (r : Route) (id : Z) : Prop :=
  exists shifted top, shift r (ps_cryptde self) = (shifted, Ok top) /\ route_id shifted (ps_cryptde self) = Ok id.

(** All that is known about a stream is gone. *)
Definition forgotten (self : ProxyServer) (k : StreamKey) (a : SocketAddr) : Prop :=
  BidiHashMap.a_to_b (keys_and_addrs self) k = None /\ BidiHashMap.b_to_a (keys_and_addrs self) a = None /\
  tunneled_hosts self !! k = None /\ stream_key_routes self !! k = None.

Lemma purge_forgets self k a :
  BidiHashMap.a_to_b (keys_and_addrs self) k = Some a -> forgotten (purge_stream_key k self) k a.
Proof.
  intros Ha. destruct (BidiHashMap.remove_a_gone _ _ _ Ha) as (R1 & R2 & _). unfold forgotten, purge_stream_key.
  cbn [keys_and_addrs tunneled_hosts stream_key_routes with_maps]. by rewrite !lookup_delete_eq.
Qed.

Lemma response_comes_back t now now' self pkg id info ts a :
  is_bound self = true -> TtlHashMap.wf t (route_ids_to_return_routes self) -> t <= now <= now' ->
  0 < TtlHashMap.ttl (route_ids_to_return_routes self) ->
  answers_request self (remaining_route pkg) id ->
  TtlHashMap.data (route_ids_to_return_routes self) !! id = Some (info, ts) ->
  now - ts <= TtlHashMap.ttl (route_ids_to_return_routes self) ->
  BidiHashMap.a_to_b (keys_and_addrs self) (response_stream_key (payload pkg)) = Some a ->
  exists m, TtlHashMap.wf now' m /\ TtlHashMap.ttl m = TtlHashMap.ttl (route_ids_to_return_routes self) /\
    TtlHashMap.data m !! id = Some (info, now') /\
    let packet := response_packet (payload pkg) in
    let self' := with_return_routes m self in
    handle_client_response_payload now now' self pkg =
      Ret (if last_data packet then purge_stream_key (response_stream_key (payload pkg)) self' else self',
           bill (back_services info) (length (data packet)) (payload_len pkg) ++
           [ToDispatcher (mkTransmitDataMsg (Socket a) (last_data packet)
              (Some (wrap 64 (sequence_number packet + if browser_proxy_sequence_offset self then 1 else 0))) (data packet))]).
Proof.
  intros Hb Hwf Hnow Httl (shifted & top & Es & Ei) Hd Hage Ha.
  destruct (TtlHashMap.get_hit t _ now now' id info ts Hwf Hnow Httl Hd Hage) as (m & Eg & Hwf' & Httl' & Hd').
  exists m. split_and!; [done..|]. cbn zeta. unfold handle_client_response_payload, get_return_route_info.
  rewrite Es. cbn [expect_ok obind]. rewrite Ei, Eg. cbn [obind]. cbn [keys_and_addrs with_return_routes].
  rewrite Ha. unfold out_subs. cbn [is_bound with_return_routes]. by rewrite Hb.
Qed.

Lemma add_return_route_ok t now now' self info :
  TtlHashMap.wf t (route_ids_to_return_routes self) -> t <= now <= now' ->
  0 < TtlHashMap.ttl (route_ids_to_return_routes self) ->
  exists m, handle_add_return_route now now' self info = Ret (with_return_routes m self) /\
    TtlHashMap.wf now' m /\ TtlHashMap.ttl m = TtlHashMap.ttl (route_ids_to_return_routes self) /\
    TtlHashMap.data m !! return_route_id info = Some (info, now').
Proof.
  intros Hwf Hnow Httl.
  destruct (TtlHashMap.sweep_ok t _ now Hwf) as (m & Em & Hwm & Ht & _); [lia..|].
  unfold handle_add_return_route, TtlHashMap.insert. rewrite Em. cbn [obind].
  eexists. split; [done|]. split_and!; [|done|cbn; by rewrite lookup_insert_eq].
  apply (TtlHashMap.wf_touch now); [done|lia|lia].
Qed.
End session.

(** ** Properties *)

(** C9: streams stay apart. Whatever messages the ProxyServer gets and in whatever order, its map between
    stream keys and client addresses is the same in both directions, every key in it is the key of its
    address, a tunnel is remembered only for a stream that is open, and data goes out only to the client
    it is for: what comes in from a client is answered to that client, and a response or failure from
    the network goes to the address whose stream key it carries. That stream keys of different
    addresses differ is assumed. *)
Theorem streams_stay_apart `{!RegexSpaces} (show_key : PublicKey -> str) (method_is_connect : bytes -> bool)
    (sha1 : bytes -> bytes) `{!Serde LiveHop} `{!Serde Z} `{!Serde MessageType} (self : ProxyServer) :
  distinct_keys sha1 -> reachable show_key method_is_connect sha1 self ->
  consistent sha1 self /\
  forall now now' m self' sent, valid_msg m -> handle show_key method_is_connect sha1 now now' self m = Ret (self', sent) ->
    consistent sha1 self' /\ Forall (directed (addressed sha1 self m)) sent.
Proof.
  intros Hd Hr. pose proof (reachable_consistent _ _ _ self Hd Hr) as Hc. split; [done|].
  intros now now' m self' sent Hm E. by destruct (handle_spec _ _ _ _ _ _ _ _ _ Hd Hc Hm E) as (? & _ & ?).
Qed.

(** *** Concrete values for evaluation *)
Definition toy_client : SocketAddr := mkSocketAddr (V4 127 0 0 1) 5000.

Definition toy_server : ProxyServer := handle_bind (proxy_server_new 0 (toy_net key_a) true (Some 0)).

Definition toy_data : InboundClientData :=
  mkInboundClientData toy_client (Some 80) false false (Some 0)
    (codes "GET / HTTP/1.1" ++ CRLF ++ codes "Host: a.b" ++ CRLF ++ CRLF).

Definition toy_key : StreamKey := mkStreamKey [127; 0; 0; 1; 19; 136; 65].

Lemma toy_distinct_keys : distinct_keys (fun b => b).
Proof.
  intros pk [ia pa] [ib pb] k Ha Hb. unfold stream_key_new, valid_addr in *. cbn [ip port] in *.
  destruct ia as [a b c d|]; [|done]. destruct ib as [a' b' c' d'|]; [|done]. intros [= <-]. cbn. intros E.
  injection E as -> -> -> -> Ehi Elo. f_equal. unfold uint in *.
  assert (forall p, 0 <= p < 2 ^ 16 -> wrap 8 (Z.shiftr p 8) * 256 + wrap 8 (Z.land p 255) = p) as Hp.
  { intros p Hp. change 255 with (Z.ones 8). rewrite Z.land_ones, Z.shiftr_div_pow2 by lia. unfold wrap.
    rewrite Z.mod_mod by lia. rewrite (Z.mod_small (p / 2 ^ 8)).
    - rewrite (Z.div_mod p (2 ^ 8)) at 3 by lia. change (2 ^ 8) with 256. lia.
    - split; [apply Z.div_pos; lia|]. apply Z.div_lt_upper_bound; norm_pow; lia. }
  rewrite <- (Hp pa Ha), <- (Hp pb Hb). congruence.
Qed.

Lemma streams_stay_apart_witness :
  @consistent (fun b => b)
    (with_maps (BidiHashMap.insert toy_key toy_client BidiHashMap.new) ∅ ∅ toy_server).
Proof.
  refine (proj1 (@streams_stay_apart no_other_spaces toy_show_key (fun _ => false) (fun b => b)
    (countable_serde LiveHop) (countable_serde Z) (countable_serde MessageType) _ toy_distinct_keys _)).
  eapply (reachable_step _ _ _ 0 0 toy_server (Inbound toy_data)).
  - eapply (reachable_step _ _ _ 0 0 _ Bind); [apply (reachable_new _ _ _ 0 (toy_net key_a) true (Some 0))|done|reflexivity].
  - unfold valid_msg, valid_addr, uint. cbn. lia.
  - reflexivity.
Defined.

(** C8: a session of a client. The first data of a new client that is not a CONNECT makes the ProxyServer ask for a
    route, of three hops in a network; when the route comes, the request goes to the Hopper encrypted so that
    the exit Node can read it, each Node on the way out is reported to the Accountant once, and the stream and
    the expected answer are remembered. An answer that comes back over that route within two minutes is
    passed to this client with its data and its number in the stream, one later once any client has sent a
    CONNECT, and each Node on the way back is reported once. Any further data from the client's address that
    can be sent uses the same route without asking again, readable for the same exit Node and reported as
    before, unless the answer was the last: then nothing about the stream is left. *)
Theorem proxied_session `{!RegexSpaces} (show_key : PublicKey -> str) (method_is_connect : bytes -> bool)
    (sha1 : bytes -> bytes) `{!Serde LiveHop} `{!Serde Z} `{!Serde MessageType} {good} `{!SerdeOk MessageType good}
    (self : ProxyServer) (msg : InboundClientData) (k : StreamKey) (pl : ClientRequestPayload)
    (exit_ : CryptDE) `{!CryptPair (ps_cryptde self) exit_} (r : Route) (over back : list ExpectedService) (id t t1 t2 : Z) :
  ready self -> is_connect method_is_connect (ibcd_data msg) = false ->
  forgotten self k (peer_addr msg) -> key_of sha1 self (peer_addr msg) = Ret k ->
  payload_factory_make show_key msg k (ps_cryptde self) = Ret (Some pl) ->
  exits over = [public_key exit_] -> good (ClientRequest pl) ->
  TtlHashMap.wf t (route_ids_to_return_routes self) -> TtlHashMap.ttl (route_ids_to_return_routes self) = RETURN_ROUTE_TTL ->
  t <= t1 <= t2 ->
  let request := mkRouteRequest k pl (peer_addr msg) false in
  let response := mkRouteResponse r (RoundTrip over back id) in
  let expectation := mkAddReturnRoute id back (protocol pl) (target_hostname pl) in
  exists self1 c reports self2,
    handle show_key method_is_connect sha1 t t self (Inbound msg) =
      Ret (self1, [ToNeighborhoodRoute (data_indefinite_route_request (if ps_is_decentralized self then 3 else 0)) request]) /\
    route_answered show_key (ps_cryptde self1) request (Some response) =
      Ret ([ToSelfRoute (mkAddRoute k response); ToSelfReturnRoute expectation] ++ reports ++ [ToHopper (mkIncipient r c)]) /\
    decodex exit_ c = Ok (ClientRequest pl) /\
    reports ≡ₚ bill over (length (data (request_packet pl))) (crypt_len c) /\
    handle show_key method_is_connect sha1 t1 t2 (handle_add_route self1 (mkAddRoute k response)) (AddReturnRoute expectation)
      = Ret (self2, []) /\
    forall (pkg : ExpiredCoresPackage ClientResponsePayload) t3 t4,
      t2 <= t3 <= t4 -> t3 - t2 <= 120000 -> answers_request self (remaining_route pkg) id ->
      response_stream_key (payload pkg) = k ->
      let packet := response_packet (payload pkg) in
      exists self3,
        handle show_key method_is_connect sha1 t3 t4 self2 (Response pkg) =
          Ret (self3, bill back (length (data packet)) (payload_len pkg) ++
                 [ToDispatcher (mkTransmitDataMsg (Socket (peer_addr msg)) (last_data packet)
                                  (Some (wrap 64 (sequence_number packet + if browser_proxy_sequence_offset self then 1 else 0)))
                                  (data packet))]) /\
        if last_data packet then forgotten self3 k (peer_addr msg)
        else forall msg' pl' t5 t6, peer_addr msg' = peer_addr msg -> is_connect method_is_connect (ibcd_data msg') = false ->
          payload_factory_make show_key msg' k (ps_cryptde self) = Ret (Some pl') -> good (ClientRequest pl') ->
          exists c' reports',
            handle show_key method_is_connect sha1 t5 t6 self3 (Inbound msg') =
              Ret (self3, ToSelfReturnRoute (mkAddReturnRoute id back (protocol pl') (target_hostname pl')) :: reports' ++
                          [ToHopper (mkIncipient r c')]) /\
            decodex exit_ c' = Ok (ClientRequest pl') /\
            reports' ≡ₚ bill over (length (data (request_packet pl'))) (crypt_len c').
Proof.
  intros Hr Hc (F1 & F2 & F3 & F4) Hk Hp Hx Hg Hwf Httl Ht. cbn zeta.
  pose proof (normal_data_new show_key sha1 self msg false k pl Hr F2 Hk F3 F4 Hp) as E1.
  destruct (transmit_ok (good := good) show_key (ps_cryptde self) exit_ pl r over back id (peer_addr msg) Hx Hg)
    as (c & reports & Ec & E2 & Hbill).
  set (self1 := with_maps _ _ _ _) in E1. set (response := mkRouteResponse r (RoundTrip over back id)) in *.
  destruct (add_return_route_ok t t1 t2 (handle_add_route self1 (mkAddRoute k response))
    (mkAddReturnRoute id back (protocol pl) (target_hostname pl))) as (m & E3 & Hwm & Hm & Hlook);
    [done..|by cbn; rewrite Httl|].
  exists self1, c, reports, (with_return_routes m (handle_add_route self1 (mkAddRoute k response))). split_and!.
  - cbn [handle]. unfold handle_inbound_client_data. by rewrite Hc.
  - unfold route_answered. cbn [rq_payload rq_source_addr rq_retire rq_stream_key ps_cryptde self1 with_maps].
    by rewrite E2.
  - done.
  - done.
  - cbn [handle]. by rewrite E3.
  - intros pkg t3 t4 Ht34 Hage Hans Hkey.
    edestruct (response_comes_back t2 t3 t4 (with_return_routes m (handle_add_route self1 (mkAddRoute k response))) pkg id)
      as (m' & _ & _ & _ & E4); [by apply Hr|exact Hwm|done| | |exact Hlook| | |].
    + cbn. rewrite Hm. cbn. by rewrite Httl.
    + exact Hans.
    + cbn. rewrite Hm. cbn. rewrite Httl. unfold RETURN_ROUTE_TTL. lia.
    + rewrite Hkey. unfold BidiHashMap.a_to_b. cbn. by rewrite lookup_insert_eq.
    + cbn [handle]. eexists. split.
      * cbn zeta in E4. rewrite E4. reflexivity.
      * rewrite Hkey. destruct (last_data _).
        -- apply purge_forgets. unfold BidiHashMap.a_to_b. cbn. by rewrite lookup_insert_eq.
        -- intros msg' pl' t5 t6 Ha' Hc' Hp' Hg'.
           destruct (transmit_ok (good := good) show_key (ps_cryptde self) exit_ pl' r over back id (peer_addr msg') Hx Hg')
             as (c' & reports' & Ec' & E5 & Hbill'). exists c', reports'. split_and!; [|done..].
           cbn [handle]. unfold handle_inbound_client_data. rewrite Hc', (normal_data_known show_key sha1 _ msg' false k pl');
             [|done| |done|exact Hp'].
           ++ cbn [stream_key_routes with_return_routes handle_add_route with_maps add_stream_key add_route].
              rewrite lookup_insert_eq. cbn [ps_cryptde with_return_routes handle_add_route with_maps self1]. unfold response. cbn zeta. by rewrite E5.
           ++ rewrite Ha'. unfold BidiHashMap.b_to_a. cbn. by rewrite lookup_insert_eq.
Qed.

Definition toy_payload : ClientRequestPayload :=
  mkClientRequestPayload VERSION_0_0 toy_key (mkSequencedPacket (ibcd_data toy_data) 0 false) (Some (lit "a.b")) 80 HTTP key_a.

Definition toy_over : list ExpectedService :=
  [Nothing; Routing key_b (mkWallet (Address [2])) DEFAULT_RATE_PACK; Exit key_c (mkWallet (Address [3])) DEFAULT_RATE_PACK].

Lemma proxied_session_witness :
  exists self1 c reports,
    @handle no_other_spaces toy_show_key (fun _ => false) (fun b => b) (countable_serde LiveHop) (countable_serde Z)
      (countable_serde MessageType) 0 0 toy_server (Inbound toy_data) =
      Ret (self1, [ToNeighborhoodRoute (data_indefinite_route_request 3) (mkRouteRequest toy_key toy_payload toy_client false)]) /\
    @decodex _ (countable_serde MessageType) (toy_net key_c) c = Ok (ClientRequest toy_payload) /\
    reports ≡ₚ bill toy_over 29 (crypt_len c).
Proof.
  destruct (@proxied_session no_other_spaces toy_show_key (fun _ => false) (fun b => b)
    (countable_serde LiveHop) (countable_serde Z) (countable_serde MessageType) (fun _ => True) (countable_serde_ok _ _)
    toy_server toy_data toy_key toy_payload (toy_net key_c)
    ltac:(solve_toy_pair) (mkRoute []) toy_over (reverse toy_over) 5 0 0 0)
    as (self1 & c & reports & self2 & E1 & E2 & E3 & E4 & _).
  - split; done.
  - reflexivity.
  - split_and!; reflexivity.
  - reflexivity.
  - reflexivity.
  - reflexivity.
  - exact I.
  - apply TtlHashMap.new_wf_at.
  - reflexivity.
  - lia.
  - exists self1, c, reports. split; [exact E1|]. split; [exact E3|exact E4].
Defined.
