(* ===== verification/StreamWriters.v ===== *)
(** * StreamWriters: from a queue of packets to a socket

    stream_writer_sorted.rs (towards clients: packets have their place in the stream) and
    stream_writer_unsorted.rs (towards other Nodes: packets go out as they come). A writer is polled
    whenever its channel or its socket may have news: what the channel yields and what the socket says to
    each attempt to write are arguments, and the bytes the socket took are part of the result. When
    the given answers are used up, the socket is not ready. *)
From S2P Require Import Prelude SubLib Utils SequenceBuffer.

(** [poll_write]: bytes taken, not ready, or an error ([indicates_dead_stream] or not) *)
Inductive write_result := Took (len : nat) | WriteNotReady | DeadStream | WriteError.

(** [shutdown] of a stream *)
Inductive shutdown_result := ShutdownNotReady | ShutdownReady | ShutdownError.

Inductive async := NotReady | Ready | Failed.

(** ** StreamWriterSorted *)
Module Sorted.
Record StreamWriterSorted := mk { sequence_buffer : SequenceBuffer; shutting_down : bool }.

Inductive ReadChannelStatus := StillOpen | Closed.
Inductive WriteBufferStatus := StreamInError | BufferNotEmpty | BufferEmpty.

Definition new : StreamWriterSorted := mk buffer_new false.

Definition shutdown (sd : shutdown_result) : async :=
  match sd with ShutdownNotReady => NotReady | ShutdownReady => Ready | ShutdownError => Failed end.

Definition read_data_from_channel (b : SequenceBuffer) (received : list SequencedPacket) (closed : bool)
  : SequenceBuffer * ReadChannelStatus :=
  (fold_left push received b, if closed then Closed else StillOpen).

Fixpoint write_from_buffer_to_stream (b : SequenceBuffer) (writes : list write_result) (sd : shutdown_result)
  : outcome (StreamWriterSorted * bytes * WriteBufferStatus) :=
  let* (b1, packet_opt) := poll b in
  match packet_opt with
  | None => Ret (mk b1 false, [], BufferEmpty)
  | Some packet =>
      match writes with
      | [] | WriteNotReady :: _ =>
          let* b2 := repush b1 packet in Ret (mk b2 false, [], BufferNotEmpty)
      | DeadStream :: _ => Ret (mk b1 false, [], StreamInError)
      | WriteError :: writes' =>
          let* b2 := repush b1 packet in write_from_buffer_to_stream b2 writes' sd
      | Took len :: writes' =>
          let taken := take len (data packet) in
          if negb (len =? length (data packet))%nat then
            let* b2 := repush b1 (mkSequencedPacket (drop len (data packet)) (sequence_number packet) (last_data packet)) in
            let* (w, written, status) := write_from_buffer_to_stream b2 writes' sd in
            Ret (w, taken ++ written, status)
          else if last_data packet then
            Ret (mk b1 true, taken, match sd with
                                    | ShutdownNotReady => BufferNotEmpty
                                    | ShutdownReady => BufferEmpty
                                    | ShutdownError => StreamInError
                                    end)
          else
            let* (w, written, status) := write_from_buffer_to_stream b1 writes' sd in
            Ret (w, taken ++ written, status)
      end
  end.

(** What happens between two polls, and at one *)
Record wake := mkWake {
  received : list SequencedPacket;
  closed : bool;
  writes : list write_result;
  at_shutdown : shutdown_result
}.

Definition poll (self : StreamWriterSorted) (k : wake) : outcome (StreamWriterSorted * bytes * async) :=
  if shutting_down self then Ret (self, [], shutdown (at_shutdown k))
  else
    let (b, read_result) := read_data_from_channel (sequence_buffer self) (received k) (closed k) in
    let* (self', written, write_result) := write_from_buffer_to_stream b (writes k) (at_shutdown k) in
    Ret (self', written, match read_result, write_result with
                         | _, StreamInError => Failed
                         | StillOpen, _ => NotReady
                         | Closed, BufferNotEmpty => NotReady
                         | Closed, BufferEmpty => Ready
                         end).

(** The task runs until it is done or fails. *)
Fixpoint run (self : StreamWriterSorted) (wakes : list wake) : outcome (StreamWriterSorted * bytes * async) :=
  match wakes with
  | [] => Ret (self, [], NotReady)
  | k :: wakes' =>
      let* (self', written, a) := poll self k in
      match a with
      | NotReady => let* (self'', written', a') := run self' wakes' in Ret (self'', written ++ written', a')
      | _ => Ret (self', written, a)
      end
  end.
End Sorted.

(** ** StreamWriterUnsorted *)
Module Unsorted.
(** The packet being written *)
Record StreamWriterUnsorted := mk { buf : option SequencedPacket }.

Definition new : StreamWriterUnsorted := mk None.

(** [queue] is what the channel holds. Every turn takes a packet off the queue or an answer of the socket. *)
Fixpoint poll_loop (fuel : nat) (buf : option SequencedPacket) (queue : list SequencedPacket) (closed : bool)
    (writes : list write_result) : outcome (StreamWriterUnsorted * list SequencedPacket * bytes * async) :=
  match fuel with
  | O => OutOfFuel
  | S fuel' =>
      match buf with
      | None =>
          match queue with
          | packet :: queue' => poll_loop fuel' (Some packet) queue' closed writes
          | [] => Ret (mk None, [], [], if closed then Ready else NotReady)
          end
      | Some packet =>
          match writes with
          | [] | WriteNotReady :: _ => Ret (mk (Some packet), queue, [], NotReady)
          | DeadStream :: _ => Ret (mk None, queue, [], Failed)
          | WriteError :: writes' => poll_loop fuel' (Some packet) queue closed writes'
          | Took len :: writes' =>
              let rest := if negb (len =? length (data packet))%nat
                          then Some (mkSequencedPacket (drop len (data packet)) (sequence_number packet) false)
                          else None in
              let* (w, q, written, a) := poll_loop fuel' rest queue closed writes' in
              Ret (w, q, take len (data packet) ++ written, a)
          end
      end
  end.

Definition poll (self : StreamWriterUnsorted) (queue : list SequencedPacket) (closed : bool) (writes : list write_result)
  : outcome (StreamWriterUnsorted * list SequencedPacket * bytes * async) :=
  poll_loop (S (length queue + length writes)) (buf self) queue closed writes.
End Unsorted.

(** ** What a stream consists of *)
(** The packets that count: of those with the same number the first *)
Definition keep_first (m : gmap Z SequencedPacket) (p : SequencedPacket) : gmap Z SequencedPacket :=
  if bool_decide (m !! sequence_number p = None) then <[sequence_number p := p]> m else m.

Definition first_of (ps : list SequencedPacket) : gmap Z SequencedPacket := fold_left keep_first ps ∅.

(** The data from number [n] on, up to the last packet or the first gap *)
Inductive content (m : gmap Z SequencedPacket) : Z -> bytes -> Prop :=
| content_gap n : m !! n = None -> content m n []
| content_last n p : m !! n = Some p -> last_data p = true -> content m n (data p)
| content_more n p rest :
    m !! n = Some p -> last_data p = false -> content m (n + 1) rest -> content m n (data p ++ rest).

(** The data before number [n], with nothing missing *)
Inductive content_before (m : gmap Z SequencedPacket) : Z -> bytes -> Prop :=
| before_nil : content_before m 0 []
| before_more n p w :
    content_before m n w -> m !! n = Some p -> last_data p = false -> content_before m (n + 1) (w ++ data p).

Lemma content_join m n w rest : content_before m n w -> content m n rest -> content m 0 (w ++ rest).
Proof.
  intros Hb. revert rest. induction Hb as [|n p w Hb IH Hp Hl]; intros rest Hr; [done|].
  rewrite <- app_assoc. apply IH. by apply content_more.
Qed.

Lemma content_before_mono m m' n w : m ⊆ m' -> content_before m n w -> content_before m' n w.
Proof.
  intros Hm. induction 1 as [|n p w Hb IH Hp Hl]; [constructor|]. eapply before_more; [done| |done].
  by eapply lookup_weaken.
Qed.

Lemma content_before_present m n w k : content_before m n w -> 0 <= k < n -> exists p, m !! k = Some p.
Proof.
  intros Hb. revert k. induction Hb as [|n p w Hb IH Hp Hl]; intros k Hk; [lia|].
  destruct (decide (k = n)) as [->|]; [by eexists|]. apply IH. lia.
Qed.

Lemma content_before_nonneg m n w : content_before m n w -> 0 <= n.
Proof. induction 1; lia. Qed.

(** The state [s] of the buffer, after [written] has been written of the packets [m] *)
Record progress (m : gmap Z SequencedPacket) (written : bytes) (s : spec) : Prop := {
  progress_before : exists w part, content_before m (next s) w /\ written = w ++ part /\
    match waiting s !! next s, m !! next s with
    | None, None => part = []
    | Some q, Some p => data p = part ++ data q /\ last_data q = last_data p
    | _, _ => False
    end;
  progress_after k : next s < k -> waiting s !! k = m !! k
}.

Lemma content_after m s n rest :
  (forall k, next s < k -> waiting s !! k = m !! k) -> next s < n -> content (waiting s) n rest -> content m n rest.
Proof.
  intros Hafter Hn Hc. induction Hc as [n Hg|n p Hp Hl|n p rest Hp Hl _ IH].
  - apply content_gap. by rewrite <- Hafter.
  - apply content_last; [by rewrite <- Hafter|done].
  - apply content_more; [by rewrite <- Hafter|done|]. apply IH. lia.
Qed.

(** What is written and what waits is the whole stream. *)
Lemma progress_content m written s rest :
  progress m written s -> content (waiting s) (next s) rest -> content m 0 (written ++ rest).
Proof.
  intros [(w & part & Hb & -> & Hpart) Hafter] Hc. rewrite <- app_assoc. apply (content_join m (next s)); [done|].
  destruct (waiting s !! next s) as [q|] eqn:Eq, (m !! next s) as [p|] eqn:Ep; try done.
  - destruct Hpart as [Hd Hl]. inversion Hc as [? Hg|? q' Hq' Hlast|? q' rest' Hq' Hlast Hrest]; subst; simplify_eq.
    + rewrite <- Hd. apply content_last; [done|congruence].
    + rewrite app_assoc, <- Hd. apply content_more; [done|congruence|].
      by eapply content_after; [exact Hafter|lia|].
  - rewrite Hpart. inversion Hc; simplify_eq. by apply content_gap.
Qed.

Lemma progress_new : progress ∅ [] (abs buffer_new).
Proof.
  split; [|done]. exists [], []. split; [apply before_nil|]. split; done.
Qed.

Lemma progress_push m written s p :
  progress m written s -> progress (keep_first m p) written (spec_push s p).
Proof.
  intros [(w & part & Hb & -> & Hpart) Hafter]. unfold keep_first, spec_push.
  destruct (Z.leb_spec (next s) (sequence_number p)) as [Hle|Hlt]; cbn [andb].
  - assert (Hiff : waiting s !! sequence_number p = None <-> m !! sequence_number p = None).
    { destruct (decide (sequence_number p = next s)) as [->|Hne]; [|rewrite Hafter by lia; done].
      repeat case_match; naive_solver. }
    destruct (decide (m !! sequence_number p = None)) as [Hn|Hn].
    + rewrite !bool_decide_true by tauto. split; cbn [next waiting].
      * exists w, part. split; [by eapply content_before_mono; [apply insert_subseteq|]|]. split; [done|].
        destruct (decide (sequence_number p = next s)) as [Ep|Hne].
        -- rewrite <- Ep in *. rewrite !lookup_insert_eq. rewrite Hn in Hpart. rewrite (proj2 Hiff Hn) in Hpart. by subst part.
        -- by rewrite !lookup_insert_ne by done.
      * intros k Hk. destruct (decide (sequence_number p = k)) as [<-|Hne].
        -- by rewrite !lookup_insert_eq.
        -- rewrite !lookup_insert_ne by done. by apply Hafter.
    + rewrite !bool_decide_false by tauto. split; [by exists w, part|done].
  - destruct (decide (0 <= sequence_number p)) as [H0|H0].
    + destruct (content_before_present m (next s) w (sequence_number p) Hb ltac:(lia)) as [q Hq].
      rewrite bool_decide_false by congruence. split; [by exists w, part|done].
    + case_bool_decide as Hn; [|split; [by exists w, part|done]]. pose proof (content_before_nonneg _ _ _ Hb).
      split.
      * exists w, part. split; [by eapply content_before_mono; [apply insert_subseteq|]|]. split; [done|].
        by rewrite lookup_insert_ne by lia.
      * intros k Hk. rewrite lookup_insert_ne by lia. by apply Hafter.
Qed.

Lemma content_exists m n : exists c, content m n c.
Proof.
  assert (exists top, forall k p, m !! k = Some p -> k < top) as [top Htop].
  { induction m as [|k p m Hk IH] using map_ind; [exists 0; intros k p; by rewrite lookup_empty|].
    destruct IH as [top Htop]. exists (Z.max top (k + 1)). intros k' p'. rewrite lookup_insert_Some.
    intros [[<- _]|[_ Hk']]; [lia|]. apply Htop in Hk'. lia. }
  remember (Z.to_nat (top - n)) as d eqn:Ed. revert n Ed. induction d as [|d IH]; intros n Ed.
  - exists []. apply content_gap. destruct (m !! n) as [p|] eqn:E; [|done]. apply Htop in E. lia.
  - destruct (m !! n) as [p|] eqn:E; [|exists []; by apply content_gap].
    destruct (last_data p) eqn:El; [exists (data p); by apply content_last|].
    destruct (IH (n + 1) ltac:(lia)) as [c Hc]. exists (data p ++ c). by apply content_more.
Qed.

(** More packets only add to the stream. *)
Lemma content_prefix m m' n c c' : m ⊆ m' -> content m n c -> content m' n c' -> c `prefix_of` c'.
Proof.
  intros Hm Hc. revert c'. induction Hc as [n Hg|n p Hp Hl|n p rest Hp Hl Hc IH]; intros c' Hc'.
  - apply prefix_nil.
  - pose proof (lookup_weaken _ _ _ _ Hp Hm) as Hp'. inversion Hc'; simplify_eq; (congruence || reflexivity).
  - pose proof (lookup_weaken _ _ _ _ Hp Hm) as Hp'.
    inversion Hc' as [? Hg|? q Hq Hql|? q rest' Hq Hql Hrest]; subst; simplify_eq; [congruence|].
    apply prefix_app. by apply IH.
Qed.

Lemma content_unique m n c c' : content m n c -> content m n c' -> c = c'.
Proof.
  intros H1 H2. apply (anti_symm prefix); by eapply content_prefix.
Qed.

Lemma keep_first_mono m p : m ⊆ keep_first m p.
Proof. unfold keep_first. case_bool_decide; [by apply insert_subseteq|done]. Qed.

Lemma fold_keep_first_mono m ps : m ⊆ fold_left keep_first ps m.
Proof.
  revert m. induction ps as [|p ps IH]; intros m; [done|]. cbn [fold_left]. etrans; [apply keep_first_mono|apply IH].
Qed.

Lemma first_of_app ps qs : first_of (ps ++ qs) = fold_left keep_first qs (first_of ps).
Proof. apply fold_left_app. Qed.

(** *** The buffer under the writer *)
(** There is always a next number. *)
Definition small (s : spec) : Prop := forall k p, waiting s !! k = Some p -> k < 2 ^ 64 - 1.

Lemma small_push s p : sequence_number p < 2 ^ 64 - 1 -> small s -> small (spec_push s p).
Proof.
  intros Hp Hs. unfold spec_push. case_match; [|done]. intros k q. cbn. rewrite lookup_insert_Some.
  intros [[<- _]|[_ Hq]]; [done|]. by eapply Hs.
Qed.

Lemma poll_some b b1 p :
  wf b -> small (abs b) -> SequenceBuffer.poll b = Ret (b1, Some p) ->
  wf b1 /\ waiting (abs b) !! next (abs b) = Some p /\ sequence_number p = next (abs b) /\
  abs b1 = mkSpec (delete (next (abs b)) (waiting (abs b))) (next (abs b) + 1).
Proof.
  intros Hwf Hs E. pose proof (poll_refines _ _ _ Hwf E) as Hr. unfold spec_poll in Hr.
  destruct (waiting (abs b) !! next (abs b)) as [q|] eqn:Eq; [|done].
  pose proof (f_equal fst Hr) as Hb1. apply (f_equal snd) in Hr. cbn [fst snd] in *. injection Hr as ->.
  destruct (poll_wf b Hwf) as (b1' & r & E' & Hwf1). rewrite E in E'. injection E' as <- _.
  pose proof (Hs _ _ Eq) as Hlt. pose proof (wf_next b Hwf) as Hn. unfold uint in Hn.
  split_and!; [done|done| |].
  - cbn in Eq. by apply abs_lookup in Eq as [_ ?]; [|apply wf_nodup].
  - rewrite <- Hb1. f_equal. apply wrap_small. unfold uint. cbn [next abs] in *. lia.
Qed.

Lemma poll_none b b1 :
  wf b -> SequenceBuffer.poll b = Ret (b1, None) -> wf b1 /\ abs b1 = abs b /\ waiting (abs b) !! next (abs b) = None.
Proof.
  intros Hwf E. pose proof (poll_refines _ _ _ Hwf E) as Hr. unfold spec_poll in Hr.
  destruct (poll_wf b Hwf) as (b1' & r & E' & Hwf1). rewrite E in E'. injection E' as <- _.
  destruct (waiting (abs b) !! next (abs b)) as [q|]; [done|].
  split_and!; [done| |done]. by apply (f_equal fst) in Hr.
Qed.

Lemma repush_back b b1 p q :
  wf b -> small (abs b) -> SequenceBuffer.poll b = Ret (b1, Some p) -> sequence_number q = sequence_number p ->
  exists b2, repush b1 q = Ret b2 /\ wf b2 /\
    abs b2 = mkSpec (<[next (abs b) := q]> (waiting (abs b))) (next (abs b)).
Proof.
  intros Hwf Hs E Hq. destruct (poll_some b b1 p Hwf Hs E) as (Hwf1 & Hp & Hn & Hb1).
  pose proof (wf_next b Hwf) as Hnext. unfold uint in Hnext. cbn in Hnext.
  assert (Hn1 : next_expected_sequence_number b1 = next_expected_sequence_number b + 1)
    by (by apply (f_equal next) in Hb1).
  assert (Hrep : exists b2, repush b1 q = Ret b2).
  { unfold repush. rewrite Hn1, Hq, Hn. cbn. rewrite Z.add_simpl_r, wrap_small, Z.eqb_refl by done. by eexists. }
  destruct Hrep as [b2 Hrep]. exists b2. split; [done|].
  pose proof (repush_wf b1 q b2 Hwf1 ltac:(lia) Hrep) as Hwf2. split; [done|].
  unfold repush in Hrep. case_match; [done|]. injection Hrep as <-. unfold abs. cbn. f_equal.
  - rewrite <- (abs_perm (q :: buffer b1)); [| |by rewrite Permutation_app_comm].
    + cbn. apply (f_equal waiting) in Hb1. cbn in Hb1. rewrite Hb1, Hq, Hn. cbn. by rewrite insert_delete_eq.
    + apply wf_nodup in Hwf2. cbn in Hwf2. by rewrite map_app, Permutation_app_comm in Hwf2.
  - rewrite Hq, Hn. done.
Qed.

(** *** One step of progress *)
Lemma progress_taken m written s p n :
  progress m written s -> waiting s !! next s = Some p ->
  progress m (written ++ take n (data p))
    (mkSpec (<[next s := mkSequencedPacket (drop n (data p)) (sequence_number p) (last_data p)]> (waiting s)) (next s)).
Proof.
  intros [(w & part & Hb & -> & Hpart) Hafter] Hp. split; cbn [next waiting].
  - exists w, (part ++ take n (data p)). split; [done|]. split; [by rewrite app_assoc|].
    rewrite lookup_insert_eq. rewrite Hp in Hpart. destruct (m !! next s) as [q|]; [|done]. cbn [data last_data].
    destruct Hpart as [-> ->]. split; [|done]. by rewrite <- app_assoc, take_drop.
  - intros k Hk. rewrite lookup_insert_ne by lia. by apply Hafter.
Qed.

Lemma progress_same m written s p :
  progress m written s -> waiting s !! next s = Some p ->
  progress m written (mkSpec (<[next s := p]> (waiting s)) (next s)).
Proof. intros Hpr Hp. by rewrite insert_id; [destruct s|]. Qed.

Lemma progress_sent m written s p :
  progress m written s -> waiting s !! next s = Some p -> last_data p = false ->
  progress m (written ++ data p) (mkSpec (delete (next s) (waiting s)) (next s + 1)).
Proof.
  intros [(w & part & Hb & -> & Hpart) Hafter] Hp Hl. rewrite Hp in Hpart.
  destruct (m !! next s) as [q|] eqn:Eq; [|done]. destruct Hpart as [Hd Hlast]. split; cbn [next waiting].
  - exists (w ++ data q), []. split; [by eapply before_more; [done|done|congruence]|].
    split; [by rewrite app_nil_r, Hd, app_assoc|]. rewrite lookup_delete_ne, Hafter by lia.
    destruct (m !! (next s + 1)); [|done]. done.
  - intros k Hk. rewrite lookup_delete_ne by lia. apply Hafter. lia.
Qed.

Lemma progress_last m written s p :
  progress m written s -> waiting s !! next s = Some p -> last_data p = true ->
  forall m', m ⊆ m' -> content m' 0 (written ++ data p).
Proof.
  intros Hpr Hp Hl m' Hm. pose proof (progress_before _ _ _ Hpr) as (w & part & Hb & -> & Hpart). rewrite Hp in Hpart.
  destruct (m !! next s) as [q|] eqn:Eq; [|done]. destruct Hpart as [Hd Hlast]. rewrite <- app_assoc, <- Hd.
  apply (content_join m' (next s)); [by eapply content_before_mono|].
  apply content_last; [by eapply lookup_weaken|congruence].
Qed.

Section sorted.
Import Sorted.

(** The writer after [written] has been written of the packets [m] *)
Definition on_course (m : gmap Z SequencedPacket) (written : bytes) (w : StreamWriterSorted) : Prop :=
  if shutting_down w then forall m', m ⊆ m' -> content m' 0 written
  else wf (sequence_buffer w) /\ small (abs (sequence_buffer w)) /\ progress m written (abs (sequence_buffer w)).

(** [written] is a beginning of the stream. *)
Definition begins (m : gmap Z SequencedPacket) (written : bytes) : Prop := exists rest, content m 0 (written ++ rest).

Lemma progress_begins m written s : progress m written s -> begins m written.
Proof.
  intros Hp. destruct (content_exists (waiting s) (next s)) as [rest Hr]. exists rest. by eapply progress_content.
Qed.

Lemma on_course_begins m written w : on_course m written w -> begins m written.
Proof.
  unfold on_course. case_match; [|intros (_ & _ & Hp); by eapply progress_begins].
  intros Hc. exists []. rewrite app_nil_r. by apply Hc.
Qed.

Definition after_writing (m : gmap Z SequencedPacket) (written : bytes) (w : StreamWriterSorted) (st : WriteBufferStatus) : Prop :=
  match st with
  | StreamInError => begins m written
  | BufferNotEmpty => on_course m written w
  | BufferEmpty => on_course m written w /\ content m 0 written
  end.

Lemma after_writing_begins m written w st : after_writing m written w st -> begins m written.
Proof.
  destruct st; cbn; [done|apply on_course_begins|]. intros [H _]. by eapply on_course_begins.
Qed.

Lemma small_back s n p : small s -> waiting s !! next s = Some p -> small (mkSpec (<[next s := n]> (waiting s)) (next s)).
Proof.
  intros Hs Hp k q. cbn. rewrite lookup_insert_Some. intros [[<- _]|[_ Hq]]; by eapply Hs.
Qed.

Lemma write_ok m writes sd written b :
  wf b -> small (abs b) -> progress m written (abs b) ->
  exists w out st, write_from_buffer_to_stream b writes sd = Ret (w, out, st) /\ after_writing m (written ++ out) w st.
Proof.
  revert written b. induction writes as [|r writes IH]; intros written b Hwf Hs Hpr;
    destruct (poll_wf b Hwf) as (b1 & o & E & _); cbn [write_from_buffer_to_stream]; rewrite E; cbn [obind];
    destruct o as [p|].
  2, 4: destruct (poll_none b b1 Hwf E) as (Hwf1 & Eb & Hn); eexists _, _, _; split; [done|]; cbn;
    rewrite app_nil_r, Eb; split; [done|]; rewrite <- (app_nil_r written); apply (progress_content _ _ _ _ Hpr);
    by apply content_gap.
  - destruct (poll_some b b1 p Hwf Hs E) as (Hwf1 & Hp & Hn & Hb1).
    destruct (repush_back b b1 p p Hwf Hs E eq_refl) as (b2 & -> & Hwf2 & Hb2). eexists _, _, _. split; [done|].
    cbn. rewrite app_nil_r, Hb2. split_and!; [done|by eapply small_back|by apply progress_same].
  - destruct (poll_some b b1 p Hwf Hs E) as (Hwf1 & Hp & Hn & Hb1).
    destruct (repush_back b b1 p p Hwf Hs E eq_refl) as (b2 & Er & Hwf2 & Hb2). destruct r as [len| | |].
    + destruct (Nat.eqb_spec len (length (data p))) as [->|Hne]; cbn [negb].
      * rewrite take_ge by lia. destruct (last_data p) eqn:El.
        -- eexists _, _, _. split; [done|]. pose proof (progress_last _ _ _ _ Hpr Hp El) as Hc.
           destruct sd; cbn; [done|split; [done|by apply Hc]|]. exists []. rewrite app_nil_r. by apply Hc.
        -- destruct (IH (written ++ data p) b1) as (w & out & st & -> & Ha); [done| |rewrite Hb1; by apply progress_sent|].
           { rewrite Hb1. intros k q. cbn. rewrite lookup_delete_Some. intros [_ Hq]. by eapply Hs. }
           eexists _, _, _. split; [done|]. by rewrite app_assoc.
      * destruct (repush_back b b1 p (mkSequencedPacket (drop len (data p)) (sequence_number p) (last_data p)) Hwf Hs E eq_refl)
          as (b3 & -> & Hwf3 & Hb3). cbn [obind].
        destruct (IH (written ++ take len (data p)) b3) as (w & out & st & -> & Ha);
          [done|rewrite Hb3; by eapply small_back|rewrite Hb3; by apply progress_taken|].
        eexists _, _, _. split; [done|]. by rewrite app_assoc.
    + rewrite Er. eexists _, _, _. split; [done|].
      cbn. rewrite app_nil_r, Hb2. split_and!; [done|by eapply small_back|by apply progress_same].
    + eexists _, _, _. split; [done|]. cbn. rewrite app_nil_r. by eapply progress_begins.
    + rewrite Er. cbn [obind]. apply IH; [done|rewrite Hb2; by eapply small_back|rewrite Hb2; by apply progress_same].
Qed.

Definition packet_ok (p : SequencedPacket) : Prop := 0 <= sequence_number p < 2 ^ 64 - 1.

Lemma pushes_ok m written b ps :
  Forall packet_ok ps -> wf b -> small (abs b) -> progress m written (abs b) ->
  wf (fold_left push ps b) /\ small (abs (fold_left push ps b)) /\
  progress (fold_left keep_first ps m) written (abs (fold_left push ps b)).
Proof.
  intros Hps. revert m b. induction Hps as [|p ps [Hp0 Hp] _ IH]; intros m b Hwf Hs Hpr; [done|].
  cbn [fold_left]. apply IH; [apply push_wf; [unfold uint; lia|done]|..]; rewrite push_refines by done;
    [by apply small_push|by apply progress_push].
Qed.

Lemma poll_ok m written w k :
  Forall packet_ok (received k) -> on_course m written w ->
  exists w' out a, poll w k = Ret (w', out, a) /\
    match a with
    | NotReady => on_course (fold_left keep_first (received k) m) (written ++ out) w'
    | Ready => content (fold_left keep_first (received k) m) 0 (written ++ out)
    | Failed => begins (fold_left keep_first (received k) m) (written ++ out)
    end.
Proof.
  intros Hk Hw. unfold poll. pose proof (fold_keep_first_mono m (received k)) as Hm. unfold on_course in Hw.
  destruct (shutting_down w) eqn:Es.
  - exists w, [], (shutdown (at_shutdown k)). split; [done|]. rewrite app_nil_r.
    destruct (at_shutdown k); cbn; [|by apply Hw|].
    + unfold on_course. rewrite Es. intros m' Hm'. apply Hw. by etrans.
    + exists []. rewrite app_nil_r. by apply Hw.
  - destruct Hw as (Hwf & Hs & Hpr). unfold read_data_from_channel.
    destruct (pushes_ok m written (sequence_buffer w) (received k) Hk Hwf Hs Hpr) as (Hwf' & Hs' & Hpr').
    destruct (write_ok _ (writes k) (at_shutdown k) _ _ Hwf' Hs' Hpr') as (w' & out & st & -> & Ha). cbn [obind].
    eexists _, _, _. split; [done|]. destruct (closed k), st; cbn in Ha |- *; try done; by destruct Ha.
Qed.

(** The run ends at wake [k], after [before]: the channel is closed, or the last packet has been written. *)
Definition done_at (w : StreamWriterSorted) (wakes before : list wake) (k : wake) (w' : StreamWriterSorted) (out : bytes) : Prop :=
  exists after w1 out1 out2, wakes = before ++ k :: after /\ run w before = Ret (w1, out1, NotReady) /\
    poll w1 k = Ret (w', out2, Ready) /\ out = out1 ++ out2 /\ (closed k = true \/ shutting_down w1 = true).

Lemma poll_ready w k w' out : poll w k = Ret (w', out, Ready) -> closed k = true \/ shutting_down w = true.
Proof.
  unfold poll, read_data_from_channel. destruct (shutting_down w); [by right|].
  intros ([[w1 out1] st] & _ & E)%obind_ret_inv. destruct (closed k); [by left|]. by destruct st.
Qed.

(** However many wakes it takes *)
Lemma run_ok wakes ps written w :
  Forall (fun k => Forall packet_ok (received k)) wakes -> on_course (first_of ps) written w ->
  exists n w' out a, run w wakes = Ret (w', out, a) /\
    let got := first_of (ps ++ concat (map received (take n wakes))) in
    begins got (written ++ out) /\
    (a = Ready -> exists before k, done_at w wakes before k w' out /\
       content (first_of (ps ++ concat (map received (before ++ [k])))) 0 (written ++ out)) /\
    (a = NotReady -> n = length wakes /\ on_course got (written ++ out) w').
Proof.
  intros Hall. revert ps written w. induction Hall as [|k wakes Hk _ IH]; intros ps written w Hw; cbn [run].
  - exists 0%nat, w, [], NotReady. cbn. rewrite !app_nil_r. split_and!; [done|by eapply on_course_begins|done|done].
  - destruct (poll_ok _ _ _ _ Hk Hw) as (w1 & out1 & a1 & Ep & Ha). rewrite Ep. cbn [obind]. rewrite <- first_of_app in Ha.
    destruct a1.
    + destruct (IH _ _ _ Ha) as (n & w' & out & a & -> & Hres). cbn [obind]. exists (S n), w', (out1 ++ out), a.
      split; [done|]. cbn [take map concat length] in *. rewrite (app_assoc ps), (app_assoc written).
      destruct Hres as (R1 & R2 & R3). split_and!; [done| |].
      * intros Ea. destruct (R2 Ea) as (before & k' & (after & w2 & o1 & o2 & -> & Er & Ep' & -> & Hd) & Hc).
        exists (k :: before), k'. split.
        -- exists after, w2, (out1 ++ o1), o2. cbn [run]. rewrite Ep. cbn [obind]. rewrite Er. by rewrite app_assoc.
        -- by rewrite <- app_assoc in Hc.
      * intros Ea. destruct (R3 Ea) as [-> ?]. done.
    + exists 1%nat, w1, out1, Ready. split; [done|]. cbn [take map concat]. rewrite app_nil_r.
      split_and!; [exists []; by rewrite app_nil_r| |done]. intros _. exists [], k. split; [|by rewrite <- (app_nil_r (received k)) in Ha].
      exists wakes, w, [], out1. split_and!; [done..|by eapply poll_ready].
    + exists 1%nat, w1, out1, Failed. split; [done|]. cbn [take map concat]. by rewrite app_nil_r.
Qed.
End sorted.

(** *** The unsorted writer *)
Section unsorted.
Import Unsorted.

Definition pending (buf : option SequencedPacket) (queue : list SequencedPacket) : bytes :=
  match buf with Some p => data p | None => [] end ++ concat (map data queue).

Lemma poll_loop_ok fuel buf_ queue closed writes :
  (length queue + length writes < fuel)%nat ->
  exists w q out a, poll_loop fuel buf_ queue closed writes = Ret (w, q, out, a) /\
    exists lost, pending buf_ queue = out ++ lost ++ pending (buf w) q /\ (a <> Failed -> lost = []) /\
      (a = Ready -> closed = true /\ pending (buf w) q = []).
Proof.
  revert buf_ queue writes. induction fuel as [|fuel IH]; intros buf_ queue writes Hf; [lia|]. cbn [poll_loop].
  destruct buf_ as [p|].
  - destruct writes as [|[len| | |] writes]; cbn [length] in Hf.
    + eexists _, _, _, _. split; [done|]. by exists [].
    + destruct (IH (if negb (len =? length (data p))%nat
                    then Some (mkSequencedPacket (drop len (data p)) (sequence_number p) false) else None) queue writes)
        as (w & q & out & a & -> & lost & Hp & Hl & Hr); [lia|]. cbn [obind].
      eexists _, _, _, _. split; [done|]. exists lost. split; [|done]. rewrite <- app_assoc, <- Hp. unfold pending.
      destruct (Nat.eqb_spec len (length (data p))) as [->|]; cbn [negb data].
      * by rewrite take_ge by lia.
      * by rewrite app_assoc, take_drop.
    + eexists _, _, _, _. split; [done|]. by exists [].
    + eexists _, _, _, _. split; [done|]. exists (data p). split_and!; done.
    + destruct (IH (Some p) queue writes) as (w & q & out & a & -> & Hres); [lia|]. by eexists _, _, _, _.
  - destruct queue as [|p queue]; cbn [length] in Hf.
    + eexists _, _, _, _. split; [done|]. exists []. split_and!; [done..|]. by destruct closed.
    + destruct (IH (Some p) queue writes) as (w & q & out & a & -> & Hres); [lia|]. by eexists _, _, _, _.
Qed.
End unsorted.

Lemma run_from_new wakes all :
  Forall (fun k => Forall packet_ok (Sorted.received k)) wakes ->
  content (first_of (concat (map Sorted.received wakes))) 0 all ->
  exists w written a, Sorted.run Sorted.new wakes = Ret (w, written, a) /\ written `prefix_of` all /\
    (a = Ready -> exists before k, done_at Sorted.new wakes before k w written /\
       content (first_of (concat (map Sorted.received (before ++ [k])))) 0 written) /\
    (a = NotReady -> on_course (first_of (concat (map Sorted.received wakes))) written w).
Proof.
  intros Hok Hall. destruct (run_ok wakes [] [] Sorted.new Hok) as (n & w & written & a & E & [rest Hb] & Hr & Hn).
  { split_and!; [apply buffer_new_wf|done|apply progress_new]. }
  cbn [app] in *. exists w, written, a. split_and!; [done| |done|].
  - assert (written ++ rest `prefix_of` all) as Hpre.
    { eapply content_prefix; [|exact Hb|exact Hall]. rewrite <- (take_drop n wakes) at 2.
      rewrite map_app, concat_app, first_of_app. apply fold_keep_first_mono. }
    etrans; [|exact Hpre]. by apply prefix_app_r.
  - intros Ha. destruct (Hn Ha) as [-> Hw]. by rewrite take_ge in Hw by done.
Qed.

Lemma every_received (P : SequencedPacket -> Prop) wakes :
  Forall P (concat (map Sorted.received wakes)) -> Forall (fun k => Forall P (Sorted.received k)) wakes.
Proof. rewrite Forall_concat, Forall_map. done. Qed.

(** What is not written yet waits in the buffer. *)
Lemma on_course_rest m written w all :
  on_course m written w -> content m 0 all ->
  (Sorted.shutting_down w = true /\ written = all) \/
  exists rest, content (waiting (abs (Sorted.sequence_buffer w))) (next (abs (Sorted.sequence_buffer w))) rest /\
    all = written ++ rest.
Proof.
  unfold on_course. intros Hn Hall. destruct (Sorted.shutting_down w).
  - left. split; [done|]. apply (content_unique _ _ _ _ (Hn _ ltac:(done)) Hall).
  - right. destruct Hn as (_ & _ & Hp).
    destruct (content_exists (waiting (abs (Sorted.sequence_buffer w))) (next (abs (Sorted.sequence_buffer w)))) as [rest Hc].
    exists rest. split; [done|]. apply (content_unique _ _ _ _ Hall). by eapply progress_content.
Qed.

(** ** Properties *)

(** C16: a sorted writer puts the stream together. Whatever the order in which packets arrive, with
    duplicates, and however the socket splits and delays the writes or fails, the writer never panics,
    and what it has written is a beginning of the data of packets 0, 1, 2, ... up to the last one. While
    it runs, what is missing of that waits in its buffer. It finishes only in a wake in which the channel is found
    closed or after the last packet, and then it has written the stream of all packets it was ever sent, those
    of that wake included, as far as it has no gap. *)
Theorem sorted_writer_writes_the_stream (wakes : list Sorted.wake) (all : bytes) :
  Forall (fun k => Forall packet_ok (Sorted.received k)) wakes ->
  content (first_of (concat (map Sorted.received wakes))) 0 all ->
  exists w written a, Sorted.run Sorted.new wakes = Ret (w, written, a) /\ written `prefix_of` all /\
    match a with
    | NotReady => Sorted.shutting_down w = true /\ written = all \/
                  exists rest, content (waiting (abs (Sorted.sequence_buffer w))) (next (abs (Sorted.sequence_buffer w))) rest /\
                    all = written ++ rest
    | Ready => exists before k after w1 out1 out2, wakes = before ++ k :: after /\
                 Sorted.run Sorted.new before = Ret (w1, out1, NotReady) /\ Sorted.poll w1 k = Ret (w, out2, Ready) /\
                 written = out1 ++ out2 /\ (Sorted.closed k = true \/ Sorted.shutting_down w1 = true) /\
                 content (first_of (concat (map Sorted.received (before ++ [k])))) 0 written
    | Failed => True
    end.
Proof.
  intros Hok Hall. destruct (run_from_new wakes all Hok Hall) as (w & written & a & E & Hpre & Hr & Hn).
  exists w, written, a. split_and!; [done..|]. destruct a; [|destruct (Hr eq_refl) as (before & k & (after & w1 & o1 & o2 & D) & Hc)|done].
  - apply (on_course_rest _ _ _ _ (Hn eq_refl) Hall).
  - exists before, k, after, w1, o1, o2. destruct D as (D1 & D2 & D3 & D4 & D5). done.
Qed.

Definition toy_wakes : list Sorted.wake :=
  [Sorted.mkWake [mkSequencedPacket [3; 4] 1 false; mkSequencedPacket [1; 2] 0 false] false [Took 1] ShutdownReady;
   Sorted.mkWake [mkSequencedPacket [9] 0 false; mkSequencedPacket [5] 2 true] false [WriteError; Took 1; Took 2; Took 1] ShutdownNotReady;
   Sorted.mkWake [] false [] ShutdownReady].

Lemma sorted_writer_writes_the_stream_witness :
  exists w written a, Sorted.run Sorted.new toy_wakes = Ret (w, written, a) /\ written `prefix_of` [1; 2; 3; 4; 5].
Proof.
  destruct (sorted_writer_writes_the_stream toy_wakes [1; 2; 3; 4; 5]) as (w & written & a & E & Hp & _).
  - repeat constructor; simpl; norm_pow; lia.
  - refine (content_more _ 0 (mkSequencedPacket [1; 2] 0 false) [3; 4; 5] _ _
             (content_more _ 1 (mkSequencedPacket [3; 4] 1 false) [5] _ _
               (content_last _ 2 (mkSequencedPacket [5] 2 true) _ _))); reflexivity.
  - exists w, written, a. split; [exact E|exact Hp].
Defined.

(** An unsorted writer is a pipe: what the socket took, what is being written and what is queued are,
    in this order, what was there before; a packet is lost only when the stream is dead. It finishes
    only when the channel is closed and everything is written. *)
Lemma unsorted_writer_is_a_pipe (self : Unsorted.StreamWriterUnsorted) (queue : list SequencedPacket) (closed : bool)
    (writes : list write_result) :
  exists self' queue' written a, Unsorted.poll self queue closed writes = Ret (self', queue', written, a) /\
    exists lost, pending (Unsorted.buf self) queue = written ++ lost ++ pending (Unsorted.buf self') queue' /\
      (a <> Failed -> lost = []) /\ (a = Ready -> closed = true /\ pending (Unsorted.buf self') queue' = []).
Proof. apply poll_loop_ok. lia. Qed.
