(* ===== verification/StreamHandlerPool.v ===== *)
(** * StreamHandlerPool: which data goes over which connection

    dispatcher.rs, stream_handler_pool.rs and stream_messages.rs. A connection's writer is known by its
    channel, here a number; whether the writer at the other end of a channel still runs is an argument.
    Connecting to a Node takes time: [connection_made] and [connection_failed] are what is done when it
    has succeeded or not. *)
From S2P Require Import Prelude Text SubLib Cryptde Utils Wallet Route SequenceBuffer Messages Hopper.
From S2P Require Import Containers Database Neighborhood Framers StreamReader HttpFramer ProtocolPacks ProxyServer StreamWriters.

(** ** Dispatcher *)
Module Dispatcher.
Record Dispatcher := mk { subs : bool; to_stream : bool }.

Inductive effect :=
| ToHopper (m : InboundClientData)
| ToProxyServer (m : InboundClientData)
| ToStreamHandlerPool (m : TransmitDataMsg)
| ToNeighborhoodShutdown (m : StreamShutdownMsg)
| ToProxyServerShutdown (m : StreamShutdownMsg).

Definition new : Dispatcher := mk false false.
Definition handle_bind (self : Dispatcher) : Dispatcher := mk true (to_stream self).
Definition handle_pool_bind (self : Dispatcher) : Dispatcher := mk (subs self) true.

Definition handle_inbound (self : Dispatcher) (msg : InboundClientData) : outcome effect :=
  if subs self then Ret (if is_clandestine msg then ToHopper msg else ToProxyServer msg) else Panic.

Definition handle_transmit_data (self : Dispatcher) (msg : TransmitDataMsg) : outcome effect :=
  if to_stream self then Ret (ToStreamHandlerPool msg) else Panic.

Definition handle_stream_shutdown_msg (self : Dispatcher) (msg : StreamShutdownMsg) : outcome effect :=
  if subs self then
    Ret (match stream_type msg with
         | Clandestine => ToNeighborhoodShutdown msg
         | NonClandestine _ _ => ToProxyServerShutdown msg
         end)
  else Panic.
End Dispatcher.

(** ** StreamHandlerPool *)
(** Other Nodes are known by their IP address only, local clients by address and port. *)
Definition is_loopback (i : IpAddr) : bool :=
  match i with
  | V4 a _ _ _ => a =? 127
  | V6 segments => bool_decide (segments = [0; 0; 0; 0; 0; 0; 0; 1])
  end.

Definition stream_writer_key (a : SocketAddr) : SocketAddr := if is_loopback (ip a) then a else mkSocketAddr (ip a) 0.

(** [SequencedPacket::from(&TransmitDataMsg)] *)
Definition packet_from (m : TransmitDataMsg) : SequencedPacket :=
  mkSequencedPacket (tdm_data m) (default 0 (tdm_sequence_number m)) (tdm_last_data m).

Record DispatcherNodeQueryResponse := mkQueryResult {
  query_result : option NodeQueryResponseMetadata;
  query_context : TransmitDataMsg
}.

(** The parts of [AddStreamMsg] that are not handles to sockets *)
Record AddStreamMsg := mkAddStream {
  add_peer_addr : SocketAddr;
  add_local_addr : SocketAddr;
  add_origin_port : option Z;
  add_is_clandestine : bool
}.

(** [None]: a connection is being made. *)
Record StreamHandlerPool := mkPool { stream_writers : gmap SocketAddr (option Z); pool_bound : bool }.

Inductive pool_effect :=
| AskNeighborhood (q : NodeQueryMessage) (context : TransmitDataMsg)
| AnswerSelf (r : DispatcherNodeQueryResponse)
| AnswerSelfLater (r : DispatcherNodeQueryResponse)
| Queue (channel : Z) (p : SequencedPacket)
| Connect (peer_addr : SocketAddr) (key : PublicKey) (r : DispatcherNodeQueryResponse)
| SpawnWriter (channel : Z) (peer_addr : SocketAddr) (sorted : bool)
| SpawnReader (a : AddStreamMsg)
| ShutdownToDispatcher (m : StreamShutdownMsg)
| AddToSelf (a : AddStreamMsg)
| RemoveToSelf (m : RemoveStreamMsg)
| RemoveNeighbor (key : PublicKey).

Definition pool_new : StreamHandlerPool := mkPool ∅ false.
Definition pool_handle_bind (self : StreamHandlerPool) : StreamHandlerPool := mkPool (stream_writers self) true.

Definition set_writer (a : SocketAddr) (w : option Z) (self : StreamHandlerPool) : StreamHandlerPool :=
  mkPool (<[stream_writer_key a := w]> (stream_writers self)) (pool_bound self).

Definition remove_writer (a : SocketAddr) (self : StreamHandlerPool) : StreamHandlerPool :=
  mkPool (delete (stream_writer_key a) (stream_writers self)) (pool_bound self).

Definition set_up_stream_writer (self : StreamHandlerPool) (peer_addr : SocketAddr) (is_clandestine : bool) (channel : Z)
  : StreamHandlerPool * list pool_effect :=
  (set_writer peer_addr (Some channel) self, [SpawnWriter channel peer_addr (negb is_clandestine)]).

Definition set_up_stream_reader (self : StreamHandlerPool) (msg : AddStreamMsg) : outcome (list pool_effect) :=
  if pool_bound self then Ret [SpawnReader msg] else Panic.

(** [channel] is the new channel the factory makes. *)
Definition handle_add_stream_msg (self : StreamHandlerPool) (channel : Z) (msg : AddStreamMsg)
  : outcome (StreamHandlerPool * list pool_effect) :=
  let (self', spawned) := set_up_stream_writer self (add_peer_addr msg) (add_is_clandestine msg) channel in
  let* reader := set_up_stream_reader self' msg in
  Ret (self', spawned ++ reader).

Definition handle_transmit_data_msg (self : StreamHandlerPool) (msg : TransmitDataMsg) : outcome (list pool_effect) :=
  if pool_bound self then
    match endpoint msg with
    | Key key => Ret [AskNeighborhood (QueryPublicKey key) msg]
    | Socket socket_addr =>
        Ret [AnswerSelf (mkQueryResult
               (Some (mkQueryResponse (mkPublicKey []) (Some (NodeAddr.from_socket_addr socket_addr)) ZERO_RATE_PACK)) msg)]
    end
  else Panic.

Definition handle_remove_stream_msg (self : StreamHandlerPool) (msg : RemoveStreamMsg)
  : StreamHandlerPool * list pool_effect :=
  let report_to_counterpart := match stream_writers self !! stream_writer_key (remove_peer_addr msg) with
                               | None | Some None => false
                               | Some (Some _) => true
                               end in
  (remove_writer (remove_peer_addr msg) self,
   [ShutdownToDispatcher (mkStreamShutdownMsg (remove_peer_addr msg) (remove_stream_type msg) report_to_counterpart)]).

Section pool.
Context `{!JsonLib} (is_open : Z -> bool).

Definition handle_dispatcher_node_query_response (self : StreamHandlerPool) (msg : DispatcherNodeQueryResponse)
  : outcome (StreamHandlerPool * list pool_effect) :=
  match query_result msg with
  | None => Ret (self, [])
  | Some node_descriptor =>
      match qr_node_addr_opt node_descriptor with
      | None => Ret (self, [])
      | Some node_addr =>
          match NodeAddr.ports node_addr with
          | [] => Panic
          | port :: _ =>
              let peer_addr := mkSocketAddr (NodeAddr.ip_addr node_addr) port in
              let context := query_context msg in
              match stream_writers self !! stream_writer_key peer_addr with
              | Some (Some tx) =>
                  let* packet := match tdm_sequence_number context with
                                 | None => let* masked := json_mask (tdm_data context) in Ret (mkSequencedPacket masked 0 false)
                                 | Some _ => Ret (packet_from context)
                                 end in
                  let (self1, sent) := if is_open tx then (self, [Queue tx packet]) else (remove_writer peer_addr self, []) in
                  Ret (if tdm_last_data context then remove_writer peer_addr self1 else self1, sent)
              | Some None => if pool_bound self then Ret (self, [AnswerSelfLater msg]) else Panic
              | None =>
                  if bool_decide (ip peer_addr = localhost) then Ret (self, [])
                  else if pool_bound self then
                    Ret (set_writer peer_addr None self, [Connect peer_addr (qr_public_key node_descriptor) msg])
                  else Panic
              end
          end
      end
  end.
End pool.

Definition connection_made (peer_addr local_addr : SocketAddr) (msg : DispatcherNodeQueryResponse) : list pool_effect :=
  [AddToSelf (mkAddStream peer_addr local_addr (Some (port local_addr)) true); AnswerSelf msg].

Definition connection_failed (peer_addr : SocketAddr) (key : PublicKey) : list pool_effect :=
  [RemoveToSelf (mkRemoveStreamMsg (mkSocketAddr localhost 0) peer_addr Clandestine); RemoveNeighbor key].

(** ** Data for another Node *)
Section to_node.
Context `{!JsonLib} `{!JsonLibOk} (is_open : Z -> bool).

(** The first port of an address *)
Definition stream_addr (na : NodeAddr.NodeAddr) (p : Z) : SocketAddr := mkSocketAddr (NodeAddr.ip_addr na) p.

(** A message that looks for the Node at [na] *)
Definition bound_for (na : NodeAddr.NodeAddr) (r : DispatcherNodeQueryResponse) : Prop :=
  exists k rp, query_result r = Some (mkQueryResponse k (Some na) rp) /\
    tdm_sequence_number (query_context r) = None /\ tdm_last_data (query_context r) = false /\
    bytes_ok (tdm_data (query_context r)).

Lemma waits_for_connection self na p ps r :
  NodeAddr.ports na = p :: ps -> bound_for na r -> pool_bound self = true ->
  stream_writers self !! stream_writer_key (stream_addr na p) = Some None ->
  handle_dispatcher_node_query_response is_open self r = Ret (self, [AnswerSelfLater r]).
Proof.
  intros Hp (k & rp & Hq & _) Hb Hw. unfold handle_dispatcher_node_query_response. rewrite Hq. cbn [qr_node_addr_opt].
  rewrite Hp. cbn zeta. unfold stream_addr in Hw. rewrite Hw, Hb. done.
Qed.

Lemma queued_masked self na p ps r ch :
  NodeAddr.ports na = p :: ps -> bound_for na r ->
  stream_writers self !! stream_writer_key (stream_addr na p) = Some (Some ch) -> is_open ch = true ->
  exists packet, handle_dispatcher_node_query_response is_open self r = Ret (self, [Queue ch packet]) /\
    json_unmask (data packet) = Ok (mkUnmasked (tdm_data (query_context r)) true false).
Proof.
  intros Hp (k & rp & Hq & Hs & Hl & Hok) Hw Ho. destruct (mask_ok (tdm_data (query_context r)) Hok) as (w & Ew & _ & Hu).
  exists (mkSequencedPacket w 0 false). split; [|done]. unfold handle_dispatcher_node_query_response.
  rewrite Hq. cbn [qr_node_addr_opt]. rewrite Hp. cbn zeta. unfold stream_addr in Hw. rewrite Hw, Hs, Ew, Hl. cbn [obind].
  by rewrite Ho.
Qed.

Lemma starts_connection self na p ps r k rp :
  NodeAddr.ports na = p :: ps -> query_result r = Some (mkQueryResponse k (Some na) rp) -> pool_bound self = true ->
  NodeAddr.ip_addr na <> localhost -> stream_writers self !! stream_writer_key (stream_addr na p) = None ->
  handle_dispatcher_node_query_response is_open self r =
    Ret (set_writer (stream_addr na p) None self, [Connect (stream_addr na p) k r]).
Proof.
  intros Hp Hq Hb Hip Hw. unfold handle_dispatcher_node_query_response. rewrite Hq. cbn [qr_node_addr_opt].
  rewrite Hp. cbn zeta. unfold stream_addr in *. rewrite Hw, Hb. cbn [ip]. by rewrite bool_decide_false.
Qed.
End to_node.

(** ** Data for a client *)
Section to_client.
Context `{!JsonLib} (is_open : Z -> bool).

(** What the ProxyServer sends to a client ends up in the channel of the client's connection as it is. *)
Lemma queued_for_client self a m n ch :
  pool_bound self = true -> endpoint m = Socket a -> tdm_sequence_number m = Some n ->
  stream_writers self !! stream_writer_key a = Some (Some ch) -> is_open ch = true ->
  exists r, handle_transmit_data_msg self m = Ret [AnswerSelf r] /\
    handle_dispatcher_node_query_response is_open self r =
      Ret (if tdm_last_data m then remove_writer a self else self, [Queue ch (packet_from m)]).
Proof.
  intros Hb He Hn Hw Ho. unfold handle_transmit_data_msg. rewrite Hb, He. eexists. split; [done|].
  unfold handle_dispatcher_node_query_response. cbn [query_result qr_node_addr_opt query_context].
  cbn [NodeAddr.ports NodeAddr.from_socket_addr NodeAddr.new NodeAddr.ip_addr]. destruct a as [i po]. cbn. cbn in Hw.
  rewrite Hw, Hn. cbn [obind]. by rewrite Ho.
Qed.
End to_client.

(** ** Numbers of answers *)
#[global] Instance Endpoint_eq_dec : EqDecision Endpoint.
Proof. solve_decision. Defined.

(** The packets in what a handler sends for a client *)
Definition packets_for (a : SocketAddr) (sent : list proxy_effect) : list SequencedPacket :=
  omap (fun e => match e with
                 | ProxyServer.ToDispatcher m => if bool_decide (endpoint m = Socket a) then Some (packet_from m) else None
                 | _ => None
                 end) sent.

Section numbers.
Context `{!RegexSpaces} (show_key : PublicKey -> str) (method_is_connect : bytes -> bool) (sha1 : bytes -> bytes).
Context `{!Serde LiveHop} `{!Serde Z} `{!Serde MessageType}.

(** A series of responses, each with its readings of the clock *)
Fixpoint respond (self : ProxyServer) (pkgs : list (Z * Z * ExpiredCoresPackage ClientResponsePayload))
  : outcome (ProxyServer * list proxy_effect) :=
  match pkgs with
  | [] => Ret (self, [])
  | (now, now', pkg) :: pkgs' =>
      let* (self', sent) := handle_client_response_payload now now' self pkg in
      let* (self'', sent') := respond self' pkgs' in
      Ret (self'', sent ++ sent')
  end.

Definition numbered_from_one (e : proxy_effect) : Prop :=
  match e with
  | ProxyServer.ToDispatcher m => exists n, tdm_sequence_number m = Some n /\ 1 <= n < 2 ^ 64 - 1
  | _ => True
  end.

Definition number_ok (pkg : ExpiredCoresPackage ClientResponsePayload) : Prop :=
  0 <= sequence_number (response_packet (payload pkg)) < 2 ^ 64 - 2.

Lemma response_numbered now now' self pkg self' sent :
  browser_proxy_sequence_offset self = true -> number_ok pkg ->
  handle_client_response_payload now now' self pkg = Ret (self', sent) ->
  browser_proxy_sequence_offset self' = true /\ Forall numbered_from_one sent.
Proof.
  intros Ho Hn. unfold handle_client_response_payload. intros ([s1 info] & Ei & E)%obind_ret_inv.
  assert (Ho1 : browser_proxy_sequence_offset s1 = true).
  { unfold get_return_route_info in Ei. destruct (shift _ _). apply obind_ret_inv in Ei as (h & _ & Ei).
    destruct (route_id _ _); [|by injection Ei as <- <-]. by apply obind_ret_inv in Ei as ([] & _ & [= <- <-]). }
  destruct info as [info|]; [|by injection E as <- <-].
  destruct (BidiHashMap.a_to_b _ _); [|by injection E as <- <-]. apply obind_ret_inv in E as (_ & _ & [= <- <-]).
  split; [by destruct (last_data _)|]. apply Forall_app. split.
  - apply Forall_forall. intros e (x & _ & He)%list_elem_of_omap. by destruct x; simplify_eq/=.
  - constructor; [|done]. eexists. split; [done|]. rewrite Ho1. unfold number_ok in Hn.
    rewrite wrap_small by (unfold uint; lia). lia.
Qed.

Lemma respond_numbered self pkgs self' sent :
  browser_proxy_sequence_offset self = true -> Forall (fun x => number_ok x.2) pkgs ->
  respond self pkgs = Ret (self', sent) -> browser_proxy_sequence_offset self' = true /\ Forall numbered_from_one sent.
Proof.
  intros Ho Hok. revert self sent Ho. induction Hok as [|[[now now'] pkg] pkgs Hp _ IH]; intros self sent Ho; cbn [respond].
  - by intros [= <- <-].
  - intros ([s1 e1] & E1 & ([s2 e2] & E2 & [= <- <-])%obind_ret_inv)%obind_ret_inv.
    apply response_numbered in E1 as [Ho1 He1]; [|done..]. destruct (IH _ _ Ho1 E2) as [Ho2 He2].
    split; [done|]. by apply Forall_app.
Qed.

Lemma connect_answer self msg self' sent :
  tls_connect sha1 self msg = Ret (self', sent) ->
  exists last answer, sent = [ProxyServer.ToDispatcher (mkTransmitDataMsg (Socket (peer_addr msg)) last (ibcd_sequence_number msg) answer)] /\
    (answer = OK_RESPONSE \/ answer = BAD_REQUEST_RESPONSE).
Proof.
  unfold tls_connect. destruct (Http.find_host _) as [host|]; [case_bool_decide|].
  - intros ([s1 k] & _ & (_ & _ & [= <- <-])%obind_ret_inv)%obind_ret_inv. eexists _, _. split; [done|by left].
  - intros (_ & _ & [= <- <-])%obind_ret_inv. eexists _, _. split; [done|by right].
  - intros (_ & _ & [= <- <-])%obind_ret_inv. eexists _, _. split; [done|by right].
Qed.

Lemma failure_numbered now now' self failure self' sent a :
  handle_dns_resolve_failure show_key now now' self failure = Ret (self', sent) ->
  Forall (fun q => sequence_number q = 0) (packets_for a sent).
Proof.
  unfold handle_dns_resolve_failure. intros ([s1 info] & _ & E)%obind_ret_inv.
  destruct info as [info|]; [|by injection E as <- <-]. apply obind_ret_inv in E as (ek & _ & E).
  destruct (BidiHashMap.a_to_b _ _); [|by injection E as <- <-]. apply obind_ret_inv in E as (_ & _ & [= <- <-]).
  apply Forall_forall. intros q (e & He & Hq)%list_elem_of_omap. cbn [app] in He.
  apply elem_of_cons in He as [->|He]; [done|]. apply elem_of_app in He as [He|He].
  - apply list_elem_of_omap in He as (x & _ & Hx). by destruct x; simplify_eq/=.
  - apply list_elem_of_singleton in He as ->. case_bool_decide; by simplify_eq/=.
Qed.
End numbers.

(** Packets numbered from one do not make a stream. *)
Lemma no_first_packet ps : Forall (fun p => 1 <= sequence_number p) ps -> first_of ps !! 0 = None.
Proof.
  intros Hps. unfold first_of. assert (∅ !! 0 = @None SequencedPacket) as H0 by apply lookup_empty. revert H0.
  generalize (∅ : gmap Z SequencedPacket). induction Hps as [|p ps Hp _ IH]; intros m Hm; [done|]. cbn [fold_left].
  apply IH. unfold keep_first. case_bool_decide; [|done]. by rewrite lookup_insert_ne by lia.
Qed.

Lemma stalled_writer wakes :
  Forall (fun k => Forall (fun p => 1 <= sequence_number p < 2 ^ 64 - 1) (Sorted.received k)) wakes ->
  exists w s, Sorted.run Sorted.new wakes = Ret (w, [], s).
Proof.
  intros Hw. destruct (run_from_new wakes []) as (w & written & s & E & Hp & _).
  - eapply Forall_impl; [exact Hw|]. intros k Hk. eapply Forall_impl; [exact Hk|]. unfold packet_ok. simpl. lia.
  - apply content_gap, no_first_packet. apply Forall_concat, Forall_map.
    eapply Forall_impl; [exact Hw|]. intros k Hk. eapply Forall_impl; [exact Hk|]. simpl. lia.
  - apply prefix_nil_inv in Hp as ->. by exists w, s.
Qed.

(** A packet that has the number of the first one is never written. *)
Lemma only_first_packet wakes p ps :
  concat (map Sorted.received wakes) = p :: ps -> Forall (fun q => sequence_number q = 0) (p :: ps) ->
  exists w written s, Sorted.run Sorted.new wakes = Ret (w, written, s) /\ written `prefix_of` data p.
Proof.
  intros Hw H0. inversion_clear H0 as [|?? Hp Hps].
  assert (Hf : first_of (p :: ps) = {[0 := p]}).
  { unfold first_of. cbn [fold_left]. assert (keep_first ∅ p = {[0 := p]}) as ->.
    { unfold keep_first. by rewrite lookup_empty, bool_decide_true, Hp by done. }
    clear Hw. induction Hps as [|q qs Hq _ IH]; [done|]. cbn [fold_left]. unfold keep_first at 2.
    rewrite Hq, lookup_singleton_eq, bool_decide_false by done. apply IH. }
  destruct (run_from_new wakes (data p)) as (w & written & s & E & Hpre & _).
  - apply every_received. rewrite Hw. constructor; [|eapply Forall_impl; [exact Hps|]]; unfold packet_ok; intros; lia.
  - rewrite Hw, Hf. destruct (last_data p) eqn:El.
    + apply content_last; [apply lookup_singleton_eq|done].
    + rewrite <- (app_nil_r (data p)). apply content_more; [apply lookup_singleton_eq|done|].
      apply content_gap. by rewrite lookup_singleton_ne by lia.
  - by exists w, written, s.
Qed.

(** ** Properties *)

(** C15: data for another Node gets there. The pool asks the Neighborhood for the Node's address; if no
    connection to it is open, it starts one and only one: messages for the same Node that come before
    it is made wait. When it is made, the data is queued on it, masked so that the Node can unmask
    exactly the data. If it fails, the neighbor is removed and the pool is as it was, so that the next
    message starts another connection. *)
Theorem data_for_a_node_gets_there `{!JsonLib} `{!JsonLibOk} (is_open : Z -> bool) (self : StreamHandlerPool)
    (nh : Neighborhood) (m : TransmitDataMsg) (k : PublicKey) (na : NodeAddr.NodeAddr) (p : Z) (ps : list Z) (rp : RatePack)
    (ch : Z) (local : SocketAddr) :
  pool_bound self = true -> endpoint m = Key k -> tdm_sequence_number m = None -> tdm_last_data m = false ->
  bytes_ok (tdm_data m) ->
  handle_node_query nh (QueryPublicKey k) = Some (mkQueryResponse k (Some na) rp) -> NodeAddr.ports na = p :: ps ->
  NodeAddr.ip_addr na <> localhost -> stream_writers self !! stream_writer_key (stream_addr na p) = None ->
  is_open ch = true ->
  handle_transmit_data_msg self m = Ret [AskNeighborhood (QueryPublicKey k) m] /\
  let answer := handle_dispatcher_node_query nh (QueryPublicKey k) m in
  let r := mkQueryResult answer.1 answer.2 in
  exists connecting connected,
    handle_dispatcher_node_query_response is_open self r = Ret (connecting, [Connect (stream_addr na p) k r]) /\
    (forall r', bound_for na r' ->
       handle_dispatcher_node_query_response is_open connecting r' = Ret (connecting, [AnswerSelfLater r'])) /\
    (exists a, connection_made (stream_addr na p) local r = [AddToSelf a; AnswerSelf r] /\
       exists reader, handle_add_stream_msg connecting ch a = Ret (connected, [SpawnWriter ch (stream_addr na p) false; reader])) /\
    (forall r', r' = r \/ bound_for na r' ->
       exists packet, handle_dispatcher_node_query_response is_open connected r' = Ret (connected, [Queue ch packet]) /\
         json_unmask (data packet) = Ok (mkUnmasked (tdm_data (query_context r')) true false)) /\
    exists gone, connection_failed (stream_addr na p) k = [RemoveToSelf gone; RemoveNeighbor k] /\
      (handle_remove_stream_msg connecting gone).1 = self.
Proof.
  intros Hb He Hs Hl Hok Hq Hp Hip Hw Ho. unfold handle_transmit_data_msg. rewrite Hb, He. split; [done|].
  unfold handle_dispatcher_node_query. rewrite Hq. cbn zeta. cbn [fst snd].
  set (r := mkQueryResult _ m).
  assert (Hr : bound_for na r) by (exists k, rp; done).
  exists (set_writer (stream_addr na p) None self), (set_writer (stream_addr na p) (Some ch) (set_writer (stream_addr na p) None self)).
  split_and!.
  - by eapply starts_connection.
  - intros r' Hr'. eapply waits_for_connection; [done..|]. cbn. by rewrite lookup_insert_eq.
  - eexists. split; [done|]. unfold handle_add_stream_msg, set_up_stream_writer, set_up_stream_reader. cbn. rewrite Hb.
    by eexists.
  - intros r' Hr'. assert (bound_for na r') by (by destruct Hr' as [->|]).
    eapply queued_masked; [done..| |done]. cbn. by rewrite lookup_insert_eq.
  - eexists. split; [done|]. cbn. unfold remove_writer, set_writer. cbn. rewrite delete_insert_id by done. by destruct self.
Qed.

Definition toy_transmit : TransmitDataMsg := mkTransmitDataMsg (Key key_b) false None [1; 2; 3].

Lemma data_for_a_node_gets_there_witness :
  exists connecting r, @handle_dispatcher_node_query_response toy_json (fun _ => true) (pool_handle_bind pool_new) r =
    Ret (connecting, [Connect (mkSocketAddr (V4 1 2 3 2) 1234) key_b r]) /\ query_context r = toy_transmit.
Proof.
  destruct (@data_for_a_node_gets_there toy_json toy_json_ok (fun _ => true) (pool_handle_bind pool_new)
    (toy_neighborhood toy_pair) toy_transmit key_b (toy_addr 2) 1234 [] DEFAULT_RATE_PACK 7 (mkSocketAddr localhost 4000))
    as (_ & connecting & connected & E & _); try reflexivity; try done.
  - repeat constructor; done.
  - exists connecting, (mkQueryResult (handle_dispatcher_node_query (toy_neighborhood toy_pair) (QueryPublicKey key_b) toy_transmit).1 toy_transmit).
    split; [exact E|reflexivity].
Defined.

(** The answers of two kinds of streams do not get through. After one client has sent a CONNECT, the
    responses for every client are numbered one higher than they come, also for those without a tunnel:
    their connections wait for a packet 0 that never comes, and nothing is written to them, ever. And in
    a tunnel, the answer that a host cannot be resolved has the number 0 that the answer to the CONNECT
    had: it is dropped as a duplicate, and the client gets no more than that first answer. *)
Theorem answers_are_misnumbered `{!RegexSpaces} (show_key : PublicKey -> str) (method_is_connect : bytes -> bool)
    (sha1 : bytes -> bytes) `{!Serde LiveHop} `{!Serde Z} `{!Serde MessageType} (self : ProxyServer)
    (pkgs : list (Z * Z * ExpiredCoresPackage ClientResponsePayload)) (a : SocketAddr) (wakes : list Sorted.wake) :
  (forall msg self' sent, is_connect method_is_connect (ibcd_data msg) = true ->
     handle_inbound_client_data show_key method_is_connect sha1 self msg = Ret (self', sent) ->
     browser_proxy_sequence_offset self' = true) /\
  (forall self' sent, browser_proxy_sequence_offset self = true -> Forall (fun x => number_ok x.2) pkgs ->
     respond self pkgs = Ret (self', sent) -> concat (map Sorted.received wakes) = packets_for a sent ->
     browser_proxy_sequence_offset self' = true /\ exists w s, Sorted.run Sorted.new wakes = Ret (w, [], s)) /\
  (forall msg self1 sent1 now now' failure self2 sent2,
     ibcd_sequence_number msg = Some 0 -> peer_addr msg = a ->
     tls_connect sha1 self msg = Ret (self1, sent1) -> handle_dns_resolve_failure show_key now now' self1 failure = Ret (self2, sent2) ->
     concat (map Sorted.received wakes) = packets_for a (sent1 ++ sent2) ->
     exists w written s, Sorted.run Sorted.new wakes = Ret (w, written, s) /\
       (written `prefix_of` OK_RESPONSE \/ written `prefix_of` BAD_REQUEST_RESPONSE)).
Proof.
  split_and!.
  - intros msg self' sent Hc. unfold handle_inbound_client_data. rewrite Hc.
    by intros ([s1 e1] & _ & [= <- <-])%obind_ret_inv.
  - intros self' sent Ho Hok Er Hw. destruct (respond_numbered self pkgs self' sent Ho Hok Er) as [Ho' Hn].
    split; [done|]. apply stalled_writer, every_received. rewrite Hw.
    apply Forall_forall. intros q (e & He & Hq)%list_elem_of_omap. rewrite Forall_forall in Hn. specialize (Hn e He).
    destruct e; try done. case_bool_decide; [|done]. injection Hq as <-. destruct Hn as (n & En & Hrange).
    cbn. by rewrite En.
  - intros msg self1 sent1 now now' failure self2 sent2 Hseq Hpeer E1 E2 Hw.
    destruct (connect_answer sha1 self msg self1 sent1 E1) as (last & answer & -> & Hans).
    pose proof (failure_numbered show_key now now' self1 failure self2 sent2 a E2) as Hzero.
    unfold packets_for in Hw. rewrite omap_app in Hw. cbn [omap list_omap endpoint] in Hw.
    rewrite Hpeer, bool_decide_true in Hw by done. cbn [app] in Hw.
    destruct (only_first_packet wakes _ _ Hw) as (w & written & s & E & Hpre).
    { constructor; [cbn; by rewrite Hseq|done]. }
    exists w, written, s. split; [done|]. cbn [data packet_from tdm_data] in Hpre.
    destruct Hans as [-> | ->]; [by left|by right].
Qed.

(** A server that waits for the answer to request 5, after another client has sent a CONNECT *)
Definition toy_misnumbering : ProxyServer :=
  with_offset (with_return_routes
    (TtlHashMap.mk 0 {[5 := (mkAddReturnRoute 5 (reverse toy_over) HTTP (Some (lit "a.b")), 0)]} RETURN_ROUTE_TTL)
    (with_maps (BidiHashMap.insert toy_key toy_client BidiHashMap.new) ∅ ∅ toy_server)).

Definition toy_hop {T} `{Countable T} (t : T) : CryptData :=
  match @encodex T (countable_serde T) (toy_net key_a) key_a t with Ok c => c | Err _ => mkCryptData [] end.

Definition toy_answer : ExpiredCoresPackage ClientResponsePayload :=
  mkExpired (mkSocketAddr (V4 1 2 3 2) 1234) None (mkRoute [toy_hop (mkLiveHop key_a None SubLib.ProxyServer); toy_hop 5])
    (mkClientResponsePayload VERSION_0_0 toy_key (mkSequencedPacket [1; 2] 0 false)) 10.

Definition toy_responses : outcome (ProxyServer * list proxy_effect) :=
  @respond (countable_serde LiveHop) (countable_serde Z) toy_misnumbering [(1, 1, toy_answer)].

Definition toy_sent : list SequencedPacket :=
  match toy_responses with Ret (_, sent) => packets_for toy_client sent | _ => [] end.

Lemma answers_are_misnumbered_witness :
  toy_sent = [mkSequencedPacket [1; 2] 1 false] /\
  exists w s, Sorted.run Sorted.new [Sorted.mkWake toy_sent false [Took 2; Took 2] ShutdownReady] = Ret (w, [], s).
Proof.
  split; [vm_compute; reflexivity|]. destruct toy_responses as [[self' sent]| |] eqn:E.
  { destruct (@answers_are_misnumbered no_other_spaces toy_show_key (fun _ => false) (fun b => b)
      (countable_serde LiveHop) (countable_serde Z) (countable_serde MessageType) toy_misnumbering [(1, 1, toy_answer)] toy_client
      [Sorted.mkWake toy_sent false [Took 2; Took 2] ShutdownReady]) as (_ & Q & _).
    refine (proj2 (Q self' sent eq_refl _ E _)).
    - repeat constructor; done.
    - unfold toy_sent. rewrite E. apply app_nil_r. }
  all: exfalso; assert (toy_sent = []) as E0 by (unfold toy_sent; by rewrite E); vm_compute in E0; discriminate E0.
Defined.
