(* ===== verification/ProxyClient.v ===== *)
(** * ProxyClient: the exit side of a stream

    proxy_client/{mod,stream_handler_pool,stream_establisher,stream_reader,stream_writer}.rs,
    [StreamConnectorReal::connect_one] of sub_lib/stream_connector.rs and what std's address parser does
    with a host name. What takes time is a task: [process_package] starts one, [run_task] is what happens
    when it comes to run, with what the resolver and the network say as arguments, so that between the
    two anything else may happen to the pool. A stream's writer is known by its channel, a number. *)
From S2P Require Import Prelude Text SubLib Cryptde Utils Wallet Route SequenceBuffer Messages Hopper.
From S2P Require Import StreamWriters.
From Stdlib Require Import Ascii.

Record InboundServerData := mkInboundServerData {
  isd_stream_key : StreamKey;
  isd_last_data : bool;
  isd_sequence_number : Z;
  isd_source : SocketAddr;
  isd_data : bytes
}.

Definition error_socket_addr : SocketAddr := mkSocketAddr (V4 0 0 0 0) 0.

(** ** std::net::parser

    A reader takes what it recognizes off the front of the text. *)
Module NetParser.
Definition reader (A : Type) : Type := str -> option (A * str).

Definition given_char (c : ascii) : reader unit := fun s =>
  match s with
  | x :: s' => if bool_decide (x = c) then Some (tt, s') else None
  | [] => None
  end.

(** [char::to_digit] *)
Definition digit (radix : Z) (c : ascii) : option Z :=
  let n := ascii_code c in
  let d := if (48 <=? n) && (n <=? 57) then n - 48
           else if (97 <=? n) && (n <=? 122) then n - 87
           else if (65 <=? n) && (n <=? 90) then n - 55
           else radix in
  if d <? radix then Some d else None.

(** Digits as far as they go; too many of them or too large a number is a failure. *)
Fixpoint number_loop (radix : Z) (max_digits : nat) (upto : Z) (r : Z) (digit_count : nat) (s : str) : option (Z * nat * str) :=
  match s with
  | [] => Some (r, digit_count, [])
  | c :: s' =>
      match digit radix c with
      | None => Some (r, digit_count, s)
      | Some d =>
          let r' := r * radix + d in
          if (max_digits <? S digit_count)%nat || (upto <=? r') then None
          else number_loop radix max_digits upto r' (S digit_count) s'
      end
  end.

Definition number (radix : Z) (max_digits : nat) (upto : Z) : reader Z := fun s =>
  match number_loop radix max_digits upto 0 0 s with
  | Some (r, S _, rest) => Some (r, rest)
  | _ => None
  end.

Definition ipv4_addr : reader (Z * Z * Z * Z) := fun s =>
  '(a, s) ← number 10 3 256 s; '(_, s) ← given_char "."%char s;
  '(b, s) ← number 10 3 256 s; '(_, s) ← given_char "."%char s;
  '(c, s) ← number 10 3 256 s; '(_, s) ← given_char "."%char s;
  '(d, s) ← number 10 3 256 s; Some ((a, b, c, d), s).

(** A colon is expected before every group but the first. *)
Definition after_colon {A} (i : nat) (r : reader A) : reader A := fun s =>
  if (i =? 0)%nat then r s else '(_, s) ← given_char ":"%char s; r s.

(** [read_groups]: the groups, whether they end in an IPv4 address, and the rest. [room] is [limit - i]. *)
Fixpoint groups (i room : nat) (s : str) : list Z * bool * str :=
  match room with
  | O => ([], false, s)
  | S room' =>
      match (if (1 <? room)%nat then after_colon i ipv4_addr s else None) with
      | Some ((a, b, c, d), s') => ([a * 256 + b; c * 256 + d], true, s')
      | None =>
          match after_colon i (number 16 4 65536) s with
          | Some (g, s') => let '(gs, v4, rest) := groups (S i) room' s' in (g :: gs, v4, rest)
          | None => ([], false, s)
          end
      end
  end.

Definition ipv6_addr : reader (list Z) := fun s =>
  let '(hd, head_ipv4, s) := groups 0 8 s in
  if (length hd =? 8)%nat then Some (hd, s)
  else if head_ipv4 then None
  else
    '(_, s) ← given_char ":"%char s; '(_, s) ← given_char ":"%char s;
    let '(tl, _, s) := groups 0 (8 - length hd) s in
    Some (hd ++ replicate (8 - length hd - length tl) 0 ++ tl, s).

Definition till_eof {A} (r : reader A) (s : str) : option A :=
  match r s with Some (a, []) => Some a | _ => None end.

Definition ip_addr : reader IpAddr := fun s =>
  match ipv4_addr s with
  | Some ((a, b, c, d), s') => Some (V4 a b c d, s')
  | None => '(gs, s') ← ipv6_addr s; Some (V6 gs, s')
  end.

Definition socket_addr : reader SocketAddr := fun s =>
  match ('(q, s) ← ipv4_addr s; '(_, s) ← given_char ":"%char s; '(p, s) ← number 10 5 65536 s; Some (q, p, s)) with
  | Some ((a, b, c, d), p, s') => Some (mkSocketAddr (V4 a b c d) p, s')
  | None =>
      '(_, s) ← given_char "["%char s; '(gs, s) ← ipv6_addr s; '(_, s) ← given_char "]"%char s;
      '(_, s) ← given_char ":"%char s; '(p, s) ← number 10 5 65536 s; Some (mkSocketAddr (V6 gs) p, s)
  end.
End NetParser.

Example parse_v4 : NetParser.till_eof NetParser.ip_addr (lit "127.0.0.1") = Some (V4 127 0 0 1).
Proof. reflexivity. Qed.
Example parse_v6 : NetParser.till_eof NetParser.ip_addr (lit "2001:db8::ff00:42") = Some (V6 [0x2001; 0xdb8; 0; 0; 0; 0; 0xff00; 0x42]).
Proof. reflexivity. Qed.
Example parse_mapped : NetParser.till_eof NetParser.ip_addr (lit "::ffff:1.2.3.4") = Some (V6 [0; 0; 0; 0; 0; 0xffff; 258; 772]).
Proof. reflexivity. Qed.
Example parse_bracketed : NetParser.till_eof NetParser.socket_addr (lit "[::1]:80") = Some (mkSocketAddr (V6 [0; 0; 0; 0; 0; 0; 0; 1]) 80).
Proof. reflexivity. Qed.
Example parse_name : NetParser.till_eof NetParser.ip_addr (lit "1.2.3.example") = None.
Proof. reflexivity. Qed.

(** ** StreamReader: what a server sends *)
Module ExitReader.
Record StreamReader := mk { stream_key : StreamKey; peer_addr : SocketAddr; sequencer : Z }.

(** [poll_read]: not ready, data (none at the end of the stream), or an error ([indicates_dead_stream] or not) *)
Inductive read_result := ReadNotReady | Got (d : bytes) | ReadDead | ReadError.

Definition new (k : StreamKey) (a : SocketAddr) : StreamReader := mk k a 0.

Definition send_inbound_server_data (self : StreamReader) (d : bytes) (last : bool) : StreamReader * InboundServerData :=
  let (next', n) := next_sequence_number (sequencer self) in
  (mk (stream_key self) (peer_addr self) next', mkInboundServerData (stream_key self) last n (peer_addr self) d).

(** What goes to the stream killer *)
Definition shutdown (self : StreamReader) : StreamReader * (StreamKey * Z) :=
  let (next', n) := next_sequence_number (sequencer self) in
  (mk (stream_key self) (peer_addr self) next', (stream_key self, n)).

Fixpoint poll (self : StreamReader) (reads : list read_result)
  : StreamReader * list InboundServerData * list (StreamKey * Z) * async :=
  match reads with
  | [] | ReadNotReady :: _ => (self, [], [], NotReady)
  | Got [] :: _ => let (self', k) := shutdown self in (self', [], [k], Ready)
  | Got d :: reads' =>
      let (self1, m) := send_inbound_server_data self d false in
      let '(self2, ms, ks, a) := poll self1 reads' in (self2, m :: ms, ks, a)
  | ReadDead :: _ => let (self', k) := shutdown self in (self', [], [k], Failed)
  | ReadError :: reads' => poll self reads'
  end.

(** The task runs until it is done or fails. *)
Fixpoint run (self : StreamReader) (wakes : list (list read_result))
  : StreamReader * list InboundServerData * list (StreamKey * Z) * async :=
  match wakes with
  | [] => (self, [], [], NotReady)
  | reads :: wakes' =>
      let '(self1, ms, ks, a) := poll self reads in
      match a with
      | NotReady => let '(self2, ms', ks', a') := run self1 wakes' in (self2, ms ++ ms', ks ++ ks', a')
      | _ => (self1, ms, ks, a)
      end
  end.
End ExitReader.

(** ** StreamWriter: what goes to a server *)
Module ExitWriter.
Record StreamWriter := mk { sequence_buffer : SequenceBuffer; shutting_down : bool }.

Definition new : StreamWriter := mk buffer_new false.

Definition shutdown (sd : shutdown_result) : async :=
  match sd with ShutdownNotReady => NotReady | ShutdownReady => Ready | ShutdownError => Failed end.

Definition read_data_from_channel (b : SequenceBuffer) (received : list SequencedPacket) (closed : bool)
  : SequenceBuffer * async :=
  (fold_left push received b, if closed then Ready else NotReady).

Fixpoint write_from_buffer_to_stream (b : SequenceBuffer) (writes : list write_result) (sd : shutdown_result)
  : outcome (StreamWriter * bytes * async) :=
  let* (b1, packet_opt) := poll b in
  match packet_opt with
  | None => Ret (mk b1 false, [], Ready)
  | Some packet =>
      match writes with
      | [] | WriteNotReady :: _ => let* b2 := repush b1 packet in Ret (mk b2 false, [], NotReady)
      | DeadStream :: _ => Ret (mk b1 false, [], Failed)
      | WriteError :: writes' => let* b2 := repush b1 packet in write_from_buffer_to_stream b2 writes' sd
      | Took bytes_written_count :: writes' =>
          let taken := take bytes_written_count (data packet) in
          if negb (bytes_written_count =? length (data packet))%nat then
            let* b2 := repush b1 (mkSequencedPacket (drop bytes_written_count (data packet)) (sequence_number packet) (last_data packet)) in
            let* (w, written, a) := write_from_buffer_to_stream b2 writes' sd in
            Ret (w, taken ++ written, a)
          else if last_data packet then Ret (mk b1 true, taken, shutdown sd)
          else
            let* (w, written, a) := write_from_buffer_to_stream b1 writes' sd in
            Ret (w, taken ++ written, a)
      end
  end.

Definition poll (self : StreamWriter) (k : Sorted.wake) : outcome (StreamWriter * bytes * async) :=
  if shutting_down self then Ret (self, [], shutdown (Sorted.at_shutdown k))
  else
    let (b, read_result) := read_data_from_channel (sequence_buffer self) (Sorted.received k) (Sorted.closed k) in
    let* (self', written, write_result) := write_from_buffer_to_stream b (Sorted.writes k) (Sorted.at_shutdown k) in
    Ret (self', written, match read_result, write_result with
                         | _, Failed => Failed
                         | NotReady, _ => NotReady
                         | _, _ => write_result
                         end).

Fixpoint run (self : StreamWriter) (wakes : list Sorted.wake) : outcome (StreamWriter * bytes * async) :=
  match wakes with
  | [] => Ret (self, [], NotReady)
  | k :: wakes' =>
      let* (self', written, a) := poll self k in
      match a with
      | NotReady => let* (self'', written', a') := run self' wakes' in Ret (self'', written ++ written', a')
      | _ => Ret (self', written, a)
      end
  end.
End ExitWriter.

(** ** StreamHandlerPool: which request goes to which server *)
Module ExitPool.
(** [SenderWrapper]: a channel and the address at the other end of its stream *)
Record Sender := mkSender { channel : Z; peer_addr : SocketAddr }.

(** With the two queues it receives from *)
Record StreamHandlerPool := mkPool {
  stream_writer_channels : gmap StreamKey Sender;
  exit_service_rate : Z;
  exit_byte_rate : Z;
  stream_adder_rx : list (StreamKey * Sender);
  stream_killer_rx : list (StreamKey * Z)
}.

Inductive effect :=
| ToProxyClient (m : InboundServerData)
| ToProxyClientDns (m : DnsResolveFailure)
| ToAccountant (r : ServiceReport)
| Queue (ch : Z) (p : SequencedPacket)
| SpawnReader (k : StreamKey) (peer_addr : SocketAddr)
| SpawnWriter (ch : Z) (k : StreamKey) (peer_addr : SocketAddr).

(** What [process_package] spawns: for a stream it knows, the rest of [write_and_tend] after the packet has been queued
    ([TendTask]), or [clean_up_bad_stream] if it could not be queued; for another, what waits for an address
    ([LookupTask]) or only for its turn. Once it is polled with its address known, a task neither waits nor is
    interrupted: [connect_one] blocks, [tokio::spawn] and the two channels do not wait, and all tasks of the exit
    Node are polled by one thread. *)
Inductive task :=
| TendTask (payload : ClientRequestPayload) (paying_wallet : option Wallet)
| BadStreamTask (k : StreamKey) (source : SocketAddr)
| ConnectTask (a : IpAddr) (payload : ClientRequestPayload) (paying_wallet : option Wallet)
| LookupTask (fqdn : str) (payload : ClientRequestPayload) (paying_wallet : option Wallet)
| NoHostTask (payload : ClientRequestPayload).

Definition new (exit_service_rate exit_byte_rate : Z) : StreamHandlerPool := mkPool ∅ exit_service_rate exit_byte_rate [] [].

Definition with_channels (m : gmap StreamKey Sender) (self : StreamHandlerPool) : StreamHandlerPool :=
  mkPool m (exit_service_rate self) (exit_byte_rate self) (stream_adder_rx self) (stream_killer_rx self).

(** A message through [stream_killer_tx] and one through [stream_adder_tx] *)
Definition kill (k : StreamKey * Z) (self : StreamHandlerPool) : StreamHandlerPool :=
  mkPool (stream_writer_channels self) (exit_service_rate self) (exit_byte_rate self) (stream_adder_rx self)
    (stream_killer_rx self ++ [k]).

Definition add (x : StreamKey * Sender) (self : StreamHandlerPool) : StreamHandlerPool :=
  mkPool (stream_writer_channels self) (exit_service_rate self) (exit_byte_rate self) (stream_adder_rx self ++ [x])
    (stream_killer_rx self).

Fixpoint kill_all (kills : list (StreamKey * Z)) (m : gmap StreamKey Sender) : gmap StreamKey Sender * list effect :=
  match kills with
  | [] => (m, [])
  | (k, n) :: kills' =>
      match m !! k with
      | Some s =>
          let (m', sent) := kill_all kills' (delete k m) in
          (m', ToProxyClient (mkInboundServerData k true n (peer_addr s) []) :: sent)
      | None => kill_all kills' m
      end
  end.

Definition clean_up_dead_streams (self : StreamHandlerPool) : StreamHandlerPool * list effect :=
  let (m, sent) := kill_all (stream_killer_rx self) (stream_writer_channels self) in
  (mkPool m (exit_service_rate self) (exit_byte_rate self) (stream_adder_rx self) [], sent).

Definition add_new_streams (self : StreamHandlerPool) : StreamHandlerPool :=
  mkPool (fold_left (fun m x => <[x.1 := x.2]> m) (stream_adder_rx self) (stream_writer_channels self))
    (exit_service_rate self) (exit_byte_rate self) [] (stream_killer_rx self).

Definition do_housekeeping (self : StreamHandlerPool) : StreamHandlerPool * list effect :=
  let (self1, sent) := clean_up_dead_streams self in (add_new_streams self1, sent).

Definition parse_ip (hostname : str) : option IpAddr :=
  match NetParser.till_eof NetParser.socket_addr hostname with
  | Some sa => Some (ip sa)
  | None => NetParser.till_eof NetParser.ip_addr hostname
  end.

Definition make_fqdn (target_hostname : str) : str := target_hostname ++ lit ".".

(** [make_stream_with_key], up to where it waits *)
Definition make_stream_with_key (payload : ClientRequestPayload) (paying_wallet : option Wallet) : task :=
  match target_hostname payload with
  | Some host =>
      match parse_ip host with
      | Some a => ConnectTask a payload paying_wallet
      | None => LookupTask (make_fqdn host) payload paying_wallet
      end
  | None => NoHostTask payload
  end.

(** [None] if the writer at the other end of the channel is gone *)
Definition perform_write (is_open : Z -> bool) (packet : SequencedPacket) (s : Sender) : option (list effect) :=
  if is_open (channel s) then Some [Queue (channel s) packet] else None.

(** The packet is queued before [process_package] returns, if the stream is known. *)
Definition process_package (is_open : Z -> bool) (self : StreamHandlerPool) (payload : ClientRequestPayload)
    (paying_wallet : option Wallet) : StreamHandlerPool * list effect * option task :=
  let (self1, sent) := do_housekeeping self in
  match stream_writer_channels self1 !! request_stream_key payload with
  | Some s =>
      match perform_write is_open (request_packet payload) s with
      | Some queued => (self1, sent ++ queued, Some (TendTask payload paying_wallet))
      | None => (self1, sent, Some (BadStreamTask (request_stream_key payload) (peer_addr s)))
      end
  | None => (self1, sent, if bool_decide (data (request_packet payload) = []) then None
                          else Some (make_stream_with_key payload paying_wallet))
  end.

Definition send_terminating_package (k : StreamKey) (source : SocketAddr) : effect :=
  ToProxyClient (mkInboundServerData k true 0 source []).

Definition clean_up_bad_stream (self : StreamHandlerPool) (k : StreamKey) (source : SocketAddr)
  : StreamHandlerPool * list effect :=
  (with_channels (delete k (stream_writer_channels self)) self, [send_terminating_package k source]).

Section tasks.
(** Does the writer at a channel's other end still run; does a connection to an address succeed; what
    does the resolver find; the next new channel *)
Context (is_open : Z -> bool) (connects : SocketAddr -> bool) (lookup_ip : str -> option (list IpAddr)) (fresh : Z).

(** [write_and_tend] after the packet has been queued *)
Definition tend (self : StreamHandlerPool) (payload : ClientRequestPayload) (paying_wallet : option Wallet)
  : StreamHandlerPool * list effect :=
  let packet := request_packet payload in
  let self' := if last_data packet
               then with_channels (delete (request_stream_key payload) (stream_writer_channels self)) self else self in
  let bill := match paying_wallet with
              | Some w => if (0 <? length (data packet))%nat
                          then [ToAccountant (mkServiceReport w (length (data packet)) (exit_service_rate self) (exit_byte_rate self))]
                          else []
              | None => []
              end in
  (self', bill).

Definition write_and_tend (self : StreamHandlerPool) (s : Sender) (payload : ClientRequestPayload) (paying_wallet : option Wallet)
  : option (StreamHandlerPool * list effect) :=
  match perform_write is_open (request_packet payload) s with
  | Some queued => let (self', bill) := tend self payload paying_wallet in Some (self', queued ++ bill)
  | None => None
  end.

(** [StreamConnectorReal::connect_one] *)
Fixpoint connect_one (ip_addrs : list IpAddr) (target_port : Z) : option SocketAddr :=
  match ip_addrs with
  | [] => None
  | a :: rest => if connects (mkSocketAddr a target_port) then Some (mkSocketAddr a target_port) else connect_one rest target_port
  end.

Definition establish_stream (self : StreamHandlerPool) (payload : ClientRequestPayload) (ip_addrs : list IpAddr)
  : option (StreamHandlerPool * Sender * list effect) :=
  match connect_one ip_addrs (target_port payload) with
  | None => None
  | Some peer =>
      let k := request_stream_key payload in
      let tx_to_write := mkSender fresh peer in
      Some (add (k, tx_to_write) self, tx_to_write, [SpawnReader k peer; SpawnWriter fresh k peer])
  end.

(** The rest of [process_package] once the addresses are known *)
Definition establish_and_write (self : StreamHandlerPool) (ip_addrs : list IpAddr) (payload : ClientRequestPayload)
    (paying_wallet : option Wallet) : StreamHandlerPool * list effect :=
  let failed self' := clean_up_bad_stream self' (request_stream_key payload) error_socket_addr in
  match establish_stream self payload ip_addrs with
  | None => failed self
  | Some (self1, s, spawned) =>
      match write_and_tend self1 s payload paying_wallet with
      | Some (self2, sent) => (self2, spawned ++ sent)
      | None => let (self2, sent) := failed self1 in (self2, spawned ++ sent)
      end
  end.

Definition run_task (self : StreamHandlerPool) (t : task) : StreamHandlerPool * list effect :=
  match t with
  | TendTask payload paying_wallet => tend self payload paying_wallet
  | BadStreamTask k source => clean_up_bad_stream self k source
  | ConnectTask a payload paying_wallet => establish_and_write self [a] payload paying_wallet
  | LookupTask fqdn payload paying_wallet =>
      match lookup_ip fqdn with
      | Some ip_addrs => establish_and_write self ip_addrs payload paying_wallet
      | None =>
          let (self', sent) := clean_up_bad_stream self (request_stream_key payload) error_socket_addr in
          (self', ToProxyClientDns (dns_resolve_failure_new (request_stream_key payload)) :: sent)
      end
  | NoHostTask payload => clean_up_bad_stream self (request_stream_key payload) error_socket_addr
  end.
End tasks.
End ExitPool.

(** ** ProxyClient *)
Record StreamContext := mkStreamContext {
  return_route : Route;
  payload_destination_key : PublicKey;
  context_wallet : option Wallet
}.

(** The pool is there once the actor is bound, as are the addresses of Hopper and Accountant. *)
Record ProxyClient := mkProxyClient {
  dns_servers : list SocketAddr;
  pc_cryptde : CryptDE;
  pool : option ExitPool.StreamHandlerPool;
  stream_contexts : gmap StreamKey StreamContext;
  pc_exit_service_rate : Z;
  pc_exit_byte_rate : Z
}.

Inductive client_effect :=
| PackageToHopper (p : IncipientCoresPackage)
| ReportToAccountant (r : ServiceReport)
| InPool (e : ExitPool.effect)
| Spawn (t : ExitPool.task).

Definition proxy_client_new (cryptde : CryptDE) (dns_servers : list SocketAddr) (exit_service_rate exit_byte_rate : Z)
  : outcome ProxyClient :=
  if bool_decide (dns_servers = []) then Panic
  else Ret (mkProxyClient dns_servers cryptde None ∅ exit_service_rate exit_byte_rate).

Definition client_handle_bind (self : ProxyClient) : ProxyClient :=
  mkProxyClient (dns_servers self) (pc_cryptde self)
    (Some (ExitPool.new (pc_exit_service_rate self) (pc_exit_byte_rate self)))
    (stream_contexts self) (pc_exit_service_rate self) (pc_exit_byte_rate self).

Definition with_pool (p : ExitPool.StreamHandlerPool) (self : ProxyClient) : ProxyClient :=
  mkProxyClient (dns_servers self) (pc_cryptde self) (Some p) (stream_contexts self)
    (pc_exit_service_rate self) (pc_exit_byte_rate self).

Definition with_contexts (m : gmap StreamKey StreamContext) (self : ProxyClient) : ProxyClient :=
  mkProxyClient (dns_servers self) (pc_cryptde self) (pool self) m (pc_exit_service_rate self) (pc_exit_byte_rate self).

Definition handle_request (is_open : Z -> bool) (self : ProxyClient) (msg : ExpiredCoresPackage ClientRequestPayload)
  : outcome (ProxyClient * list client_effect) :=
  let pl := payload msg in
  if bool_decide (is_Some (paying_wallet msg)) || bool_decide (originator_public_key pl = public_key (pc_cryptde self)) then
    let* p := expect (pool self) in
    let latest_stream_context := mkStreamContext (remaining_route msg) (originator_public_key pl) (paying_wallet msg) in
    let self1 := with_contexts (<[request_stream_key pl := latest_stream_context]> (stream_contexts self)) self in
    let '(p', sent, t) := ExitPool.process_package is_open p pl (paying_wallet msg) in
    Ret (with_pool p' self1, map InPool sent ++ match t with Some t => [Spawn t] | None => [] end)
  else Ret (self, []).

Section client.
Context `{!Serde MessageType}.

Definition client_response (msg : InboundServerData) : ClientResponsePayload :=
  mkClientResponsePayload VERSION_0_0 (isd_stream_key msg)
    (mkSequencedPacket (isd_data msg) (isd_sequence_number msg) (isd_last_data msg)).

Definition send_response_to_hopper (self : ProxyClient) (msg : InboundServerData) (c : StreamContext)
  : outcome (result (list client_effect) unit) :=
  match incipient_new (pc_cryptde self) (return_route c) (ClientResponse (client_response msg)) (payload_destination_key c) with
  | Ok icp => let* _ := expect (pool self) in Ret (Ok [PackageToHopper icp])
  | Err _ => Ret (Err tt)
  end.

Definition report_response_exit_to_accountant (self : ProxyClient) (c : StreamContext) (msg_data_len : nat)
  : outcome (list client_effect) :=
  match context_wallet c with
  | Some w =>
      let* _ := expect (pool self) in
      Ret [ReportToAccountant (mkServiceReport w msg_data_len (pc_exit_service_rate self) (pc_exit_byte_rate self))]
  | None => Ret []
  end.

Definition handle_inbound_server_data (self : ProxyClient) (msg : InboundServerData)
  : outcome (ProxyClient * list client_effect) :=
  match stream_contexts self !! isd_stream_key msg with
  | None => Ret (self, [])
  | Some c =>
      let* r := send_response_to_hopper self msg c in
      match r with
      | Err _ => Ret (self, [])
      | Ok sent =>
          let* reports := report_response_exit_to_accountant self c (length (isd_data msg)) in
          Ret (if isd_last_data msg then with_contexts (delete (isd_stream_key msg) (stream_contexts self)) self else self,
               sent ++ reports)
      end
  end.

Definition client_handle_dns_resolve_failure (self : ProxyClient) (msg : DnsResolveFailure)
  : outcome (ProxyClient * list client_effect) :=
  match stream_contexts self !! failure_stream_key msg with
  | Some c =>
      let* package := expect_ok (incipient_new (pc_cryptde self) (return_route c) (DnsResolveFailed msg) (payload_destination_key c)) in
      let* _ := expect (pool self) in
      Ret (with_contexts (delete (failure_stream_key msg) (stream_contexts self)) self, [PackageToHopper package])
  | None => Ret (self, [])
  end.
End client.

(** ** An exit Node

    The actor with the tasks its pool has spawned and its mailbox. Streams send what servers sent and
    report their end at any time, tasks run in any order. *)
Inductive client_msg :=
| ServerData (m : InboundServerData)
| DnsFailed (m : DnsResolveFailure).

Record ExitNode := mkExitNode { client : ProxyClient; tasks : list ExitPool.task; mailbox : list client_msg }.

Inductive event :=
| Request (pkg : ExpiredCoresPackage ClientRequestPayload) (is_open : Z -> bool)
| RunTask (i : nat) (is_open : Z -> bool) (connects : SocketAddr -> bool) (lookup_ip : str -> option (list IpAddr)) (fresh : Z)
| Deliver
| ReaderSends (m : InboundServerData)
| ReaderKills (k : StreamKey * Z).

Definition to_mailbox (e : client_effect) : option client_msg :=
  match e with
  | InPool (ExitPool.ToProxyClient m) => Some (ServerData m)
  | InPool (ExitPool.ToProxyClientDns m) => Some (DnsFailed m)
  | _ => None
  end.

Definition spawned (e : client_effect) : option ExitPool.task := match e with Spawn t => Some t | _ => None end.

(** The Node after its client has had these effects *)
Definition settle (c : ProxyClient) (ts : list ExitPool.task) (mb : list client_msg) (es : list client_effect) : ExitNode :=
  mkExitNode c (ts ++ omap spawned es) (mb ++ omap to_mailbox es).

Section node.
Context `{!Serde MessageType}.

Definition deliver (c : ProxyClient) (m : client_msg) : outcome (ProxyClient * list client_effect) :=
  match m with
  | ServerData m => handle_inbound_server_data c m
  | DnsFailed m => client_handle_dns_resolve_failure c m
  end.

Definition exit_step (s : ExitNode) (ev : event) : outcome (ExitNode * list client_effect) :=
  match ev with
  | Request pkg is_open =>
      let* (c, es) := handle_request is_open (client s) pkg in Ret (settle c (tasks s) (mailbox s) es, es)
  | RunTask i is_open connects lookup_ip fresh =>
      match tasks s !! i, pool (client s) with
      | Some t, Some p =>
          let (p', es) := ExitPool.run_task is_open connects lookup_ip fresh p t in
          Ret (settle (with_pool p' (client s)) (delete i (tasks s)) (mailbox s) (map InPool es), map InPool es)
      | _, _ => Ret (s, [])
      end
  | Deliver =>
      match mailbox s with
      | m :: mb => let* (c, es) := deliver (client s) m in Ret (settle c (tasks s) mb es, es)
      | [] => Ret (s, [])
      end
  | ReaderSends m => Ret (mkExitNode (client s) (tasks s) (mailbox s ++ [ServerData m]), [])
  | ReaderKills k =>
      match pool (client s) with
      | Some p => Ret (mkExitNode (with_pool (ExitPool.kill k p) (client s)) (tasks s) (mailbox s), [])
      | None => Ret (s, [])
      end
  end.

Inductive reachable : ExitNode -> Prop :=
| reachable_start cryptde dns service byte c :
    proxy_client_new cryptde dns service byte = Ret c -> reachable (mkExitNode (client_handle_bind c) [] [])
| reachable_step s ev s' es : reachable s -> exit_step s ev = Ret (s', es) -> reachable s'.
End node.

(** ** The two writers of sorted streams are one *)
Definition as_sorted (w : ExitWriter.StreamWriter) : Sorted.StreamWriterSorted :=
  Sorted.mk (ExitWriter.sequence_buffer w) (ExitWriter.shutting_down w).

Definition as_status (a : async) : Sorted.WriteBufferStatus :=
  match a with NotReady => Sorted.BufferNotEmpty | Ready => Sorted.BufferEmpty | Failed => Sorted.StreamInError end.

Lemma same_writing b writes sd :
  Sorted.write_from_buffer_to_stream b writes sd =
    let* (w, out, a) := ExitWriter.write_from_buffer_to_stream b writes sd in Ret (as_sorted w, out, as_status a).
Proof.
  revert b. induction writes as [|r writes IH]; intros b; cbn [Sorted.write_from_buffer_to_stream ExitWriter.write_from_buffer_to_stream];
    destruct (poll b) as [[b1 [p|]]| |]; cbn [obind]; try done.
  - by destruct (repush b1 p).
  - destruct r as [len| | |]; cbn [obind]; try done.
    + destruct (negb _); [|destruct (last_data p)].
      * destruct (repush b1 _) as [b2| |]; cbn [obind]; try done. rewrite IH.
        by destruct (ExitWriter.write_from_buffer_to_stream b2 writes sd) as [[[w out] a]| |].
      * by destruct sd.
      * rewrite IH. by destruct (ExitWriter.write_from_buffer_to_stream b1 writes sd) as [[[w out] a]| |].
    + by destruct (repush b1 p).
    + destruct (repush b1 p); cbn [obind]; [apply IH|done..].
Qed.

Lemma same_poll w k :
  Sorted.poll (as_sorted w) k = let* (w', out, a) := ExitWriter.poll w k in Ret (as_sorted w', out, a).
Proof.
  unfold Sorted.poll, ExitWriter.poll. cbn [Sorted.shutting_down as_sorted Sorted.sequence_buffer].
  destruct (ExitWriter.shutting_down w); [done|]. unfold Sorted.read_data_from_channel, ExitWriter.read_data_from_channel.
  rewrite same_writing. destruct (ExitWriter.write_from_buffer_to_stream _ _ _) as [[[w' out] a]| |]; [|done..].
  cbn [obind]. by destruct (Sorted.closed k), a.
Qed.

Lemma same_run w wakes :
  Sorted.run (as_sorted w) wakes = let* (w', out, a) := ExitWriter.run w wakes in Ret (as_sorted w', out, a).
Proof.
  revert w. induction wakes as [|k wakes IH]; intros w; cbn [Sorted.run ExitWriter.run]; [done|]. rewrite same_poll.
  destruct (ExitWriter.poll w k) as [[[w' out] a]| |]; [|done..]. cbn [obind]. destruct a; [|done..]. rewrite IH.
  by destruct (ExitWriter.run w' wakes) as [[[w'' out'] a']| |].
Qed.

(** ** What an exit Node does is paid for *)
Definition queued (e : client_effect) : option SequencedPacket :=
  match e with InPool (ExitPool.Queue _ p) => Some p | _ => None end.
Definition reported (e : client_effect) : option ServiceReport :=
  match e with ReportToAccountant r | InPool (ExitPool.ToAccountant r) => Some r | _ => None end.
Definition packaged (e : client_effect) : option IncipientCoresPackage :=
  match e with PackageToHopper p => Some p | _ => None end.

(** The charge for [n] bytes *)
Definition charge (c : ProxyClient) (w : option Wallet) (n : nat) : list ServiceReport :=
  match w with
  | Some w => [mkServiceReport w n (pc_exit_service_rate c) (pc_exit_byte_rate c)]
  | None => []
  end.

(** The request a task may send or has to charge for *)
Definition task_request (t : ExitPool.task) : option (ClientRequestPayload * option Wallet) :=
  match t with
  | ExitPool.TendTask pl w | ExitPool.ConnectTask _ pl w | ExitPool.LookupTask _ pl w => Some (pl, w)
  | ExitPool.BadStreamTask _ _ | ExitPool.NoHostTask _ => None
  end.

(** Someone pays, or the request is the Node's own. *)
Definition entitled (c : ProxyClient) (origin : PublicKey) (w : option Wallet) : Prop :=
  is_Some w \/ origin = public_key (pc_cryptde c).

(** Whoever a task works for is entitled to it. *)
Definition task_entitled (c : ProxyClient) (t : ExitPool.task) : Prop :=
  forall pl w, task_request t = Some (pl, w) -> entitled c (originator_public_key pl) w.

Record node_ok (s : ExitNode) : Prop := {
  node_tasks : Forall (task_entitled (client s)) (tasks s);
  node_contexts : map_Forall (fun _ x => entitled (client s) (payload_destination_key x) (context_wallet x)) (stream_contexts (client s));
  node_bound : is_Some (pool (client s));
  node_rates : forall p, pool (client s) = Some p -> ExitPool.exit_service_rate p = pc_exit_service_rate (client s) /\
                                                   ExitPool.exit_byte_rate p = pc_exit_byte_rate (client s)
}.

(** The parts of a client that stay *)
Definition same_terms (c c' : ProxyClient) : Prop :=
  pc_cryptde c' = pc_cryptde c /\ pc_exit_service_rate c' = pc_exit_service_rate c /\ pc_exit_byte_rate c' = pc_exit_byte_rate c.

Definition same_rates (p p' : ExitPool.StreamHandlerPool) : Prop :=
  ExitPool.exit_service_rate p' = ExitPool.exit_service_rate p /\ ExitPool.exit_byte_rate p' = ExitPool.exit_byte_rate p.

Lemma housekeeping_rates p : same_rates p (ExitPool.do_housekeeping p).1.
Proof. unfold ExitPool.do_housekeeping, ExitPool.clean_up_dead_streams. by destruct (ExitPool.kill_all _ _). Qed.

Lemma kill_all_messages kills m : Forall (fun e => exists x, e = ExitPool.ToProxyClient x) (ExitPool.kill_all kills m).2.
Proof.
  revert m. induction kills as [|[k n] kills IH]; intros m; cbn [ExitPool.kill_all]; [constructor|].
  destruct (m !! k); [|apply IH]. specialize (IH (delete k m)). destruct (ExitPool.kill_all kills (delete k m)).
  constructor; [eauto|done].
Qed.

Lemma housekeeping_messages p : Forall (fun e => exists x, e = ExitPool.ToProxyClient x) (ExitPool.do_housekeeping p).2.
Proof.
  unfold ExitPool.do_housekeeping, ExitPool.clean_up_dead_streams.
  pose proof (kill_all_messages (ExitPool.stream_killer_rx p) (ExitPool.stream_writer_channels p)) as Hm.
  by destruct (ExitPool.kill_all _ _).
Qed.

(** The pool charges for data only. *)
Definition pool_charge (p : ExitPool.StreamHandlerPool) (w : option Wallet) (n : nat) : list ServiceReport :=
  match w with
  | Some w => if (0 <? n)%nat then [mkServiceReport w n (ExitPool.exit_service_rate p) (ExitPool.exit_byte_rate p)] else []
  | None => []
  end.

Definition uncharged (es : list client_effect) : Prop := omap queued es = [] /\ omap reported es = [].

(** The task that follows a packet that is queued charges for it; one that opens a stream queues its packet and
    charges for it, or does neither. *)
Definition task_result (p : ExitPool.StreamHandlerPool) (t : ExitPool.task) (es : list ExitPool.effect) : Prop :=
  match t with
  | ExitPool.TendTask pl w =>
      omap queued (map InPool es) = [] /\ omap reported (map InPool es) = pool_charge p w (length (data (request_packet pl)))
  | ExitPool.ConnectTask _ pl w | ExitPool.LookupTask _ pl w =>
      uncharged (map InPool es) \/
      omap queued (map InPool es) = [request_packet pl] /\
      omap reported (map InPool es) = pool_charge p w (length (data (request_packet pl)))
  | ExitPool.BadStreamTask _ _ | ExitPool.NoHostTask _ => uncharged (map InPool es)
  end.

Lemma tend_result p pl w :
  same_rates p (ExitPool.tend p pl w).1 /\ task_result p (ExitPool.TendTask pl w) (ExitPool.tend p pl w).2.
Proof.
  unfold ExitPool.tend. cbn [fst snd task_result]. split; [by destruct (last_data _)|]. unfold pool_charge.
  destruct w; [|done]. by destruct (0 <? length (data (request_packet pl)))%nat.
Qed.

Lemma write_result is_open p s pl w p' es :
  ExitPool.write_and_tend is_open p s pl w = Some (p', es) ->
  same_rates p p' /\ omap queued (map InPool es) = [request_packet pl] /\
  omap reported (map InPool es) =
    pool_charge p w (length (data (request_packet pl))).
Proof.
  unfold ExitPool.write_and_tend, ExitPool.perform_write. destruct (is_open _); [|done].
  destruct (tend_result p pl w) as (Hr & Hq & Hb). destruct (ExitPool.tend p pl w) as [p1 bill]. intros [= <- <-].
  split_and!; [done| |exact Hb]. cbn in Hq |- *. by rewrite Hq.
Qed.

Lemma establish_result is_open connects fresh p ips pl w :
  let r := ExitPool.establish_and_write is_open connects fresh p ips pl w in
  same_rates p r.1 /\
  (omap queued (map InPool r.2) = [] /\ omap reported (map InPool r.2) = [] \/
   omap queued (map InPool r.2) = [request_packet pl] /\
   omap reported (map InPool r.2) =
    pool_charge p w (length (data (request_packet pl)))).
Proof.
  cbn zeta. unfold ExitPool.establish_and_write, ExitPool.establish_stream.
  destruct (ExitPool.connect_one connects ips (target_port pl)) as [peer|]; [|split; [done|by left]].
  destruct (ExitPool.write_and_tend _ _ _ _ _) as [[p2 sent]|] eqn:E; [|split; [done|by left]].
  apply write_result in E as (Hr & Hq & Hb). split; [done|]. right.
  cbn [fst snd]. rewrite map_app, !omap_app, Hq, Hb. done.
Qed.

Lemma run_task_result is_open connects lookup_ip fresh p t :
  let r := ExitPool.run_task is_open connects lookup_ip fresh p t in
  same_rates p r.1 /\ task_result p t r.2.
Proof.
  cbn zeta. destruct t as [pl w|k source|a pl w|fqdn pl w|pl]; cbn [ExitPool.run_task].
  - apply tend_result.
  - done.
  - destruct (establish_result is_open connects fresh p [a] pl w) as [Hr [Hn|Hq]]; split; [done|by left|done|by right].
  - destruct (lookup_ip fqdn) as [ips|]; [|split; [done|by left]].
    destruct (establish_result is_open connects fresh p ips pl w) as [Hr [Hn|Hq]]; split; [done|by left|done|by right].
  - done.
Qed.

(** The charge for a request: for its data only *)
Definition service_charge (c : ProxyClient) (w : option Wallet) (pl : ClientRequestPayload) : list ServiceReport :=
  let n := length (data (request_packet pl)) in if (0 <? n)%nat then charge c w n else [].

(** What the Node sends in one step is charged for: at once, or by the task spawned in the same step. *)
Definition charged_for (s : ExitNode) (ev : event) (es : list client_effect) : Prop :=
  match ev with
  | Request pkg _ =>
      omap reported es = [] /\ omap packaged es = [] /\
      (omap queued es = [] \/
       entitled (client s) (originator_public_key (payload pkg)) (paying_wallet pkg) /\
       omap queued es = [request_packet (payload pkg)] /\
       omap spawned es = [ExitPool.TendTask (payload pkg) (paying_wallet pkg)])
  | RunTask i _ _ _ _ =>
      omap packaged es = [] /\
      match tasks s !! i with
      | Some (ExitPool.TendTask pl w) =>
          entitled (client s) (originator_public_key pl) w /\ omap queued es = [] /\
          omap reported es = service_charge (client s) w pl
      | Some t =>
          uncharged es \/
          exists pl w, task_request t = Some (pl, w) /\ entitled (client s) (originator_public_key pl) w /\
            omap queued es = [request_packet pl] /\ omap reported es = service_charge (client s) w pl
      | None => es = []
      end
  | Deliver =>
      omap queued es = [] /\
      match head (mailbox s) with
      | Some (ServerData m) =>
          omap packaged es = [] /\ omap reported es = [] \/
          exists x pkg, stream_contexts (client s) !! isd_stream_key m = Some x /\
            entitled (client s) (payload_destination_key x) (context_wallet x) /\
            omap packaged es = [pkg] /\ omap reported es = charge (client s) (context_wallet x) (length (isd_data m))
      | _ => omap reported es = []
      end
  | _ => omap queued es = [] /\ omap reported es = [] /\ omap packaged es = []
  end.

(** The tasks after a step *)
Definition tasks_after (s : ExitNode) (ev : event) (es : list client_effect) : list ExitPool.task :=
  match ev with RunTask i _ _ _ _ => delete i (tasks s) | _ => tasks s end ++ omap spawned es.

Lemma quiet_messages es :
  Forall (fun e => exists x, e = ExitPool.ToProxyClient x) es ->
  omap queued (map InPool es) = [] /\ omap reported (map InPool es) = [] /\ omap packaged (map InPool es) = [] /\
  omap spawned (map InPool es) = [].
Proof. induction 1 as [|e es [x ->] _ IH]; [done|exact IH]. Qed.

Lemma in_pool_quiet es : omap spawned (map InPool es) = [] /\ omap packaged (map InPool es) = [].
Proof. by induction es. Qed.

Lemma node_ok_terms s c ts mb :
  node_ok s -> same_terms (client s) c -> Forall (task_entitled c) ts ->
  map_Forall (fun _ x => entitled c (payload_destination_key x) (context_wallet x)) (stream_contexts c) ->
  is_Some (pool c) -> (forall p', pool c = Some p' -> exists p, pool (client s) = Some p /\ same_rates p p') ->
  node_ok (mkExitNode c ts mb).
Proof.
  intros [_ _ _ Hr] (_ & E1 & E2) Ht Hc Hb Hp. split; [done..|]. intros p' Ep. cbn in Ep |- *.
  destruct (Hp p' Ep) as (p & E & R1 & R2). destruct (Hr p E). split; congruence.
Qed.

Lemma entitled_terms c c' k w : same_terms c c' -> entitled c k w -> entitled c' k w.
Proof. intros (E & _) [H|H]; [by left|right]. by rewrite E. Qed.

Lemma settle_nil s : settle (client s) (tasks s) (mailbox s) [] = s.
Proof. unfold settle. cbn. rewrite !app_nil_r. by destruct s. Qed.

Section steps.
Context `{!Serde MessageType}.

(** A request, taken in by the pool: reports of ends, and its packet if the stream is known and open *)
Lemma process_effects is_open p pl w p' es t :
  ExitPool.process_package is_open p pl w = (p', es, t) ->
  same_rates p p' /\ omap reported (map InPool es) = [] /\
  match t with
  | Some (ExitPool.TendTask pl' w') => pl' = pl /\ w' = w /\ omap queued (map InPool es) = [request_packet pl]
  | Some t => (forall pl' w', task_request t = Some (pl', w') -> pl' = pl /\ w' = w) /\ omap queued (map InPool es) = []
  | None => omap queued (map InPool es) = []
  end.
Proof.
  pose proof (housekeeping_rates p) as Hr. pose proof (housekeeping_messages p) as Hm. unfold ExitPool.process_package.
  destruct (ExitPool.do_housekeeping p) as [p1 sent]. cbn [fst snd] in Hr, Hm. destruct (quiet_messages _ Hm) as (Q1 & Q2 & _).
  destruct (ExitPool.stream_writer_channels p1 !! _) as [s|]; [unfold ExitPool.perform_write; destruct (is_open _)|];
    intros [= <- <- <-]; (split; [done|]); rewrite ?map_app, ?omap_app, ?Q1, ?Q2; [done..|]. case_bool_decide; [done|].
  split; [done|]. unfold ExitPool.make_stream_with_key. destruct (target_hostname pl); [destruct (ExitPool.parse_ip _)|];
    (split; [|done]); cbn; by intros ?? [= <- <-].
Qed.

Lemma request_step s pkg is_open s' es :
  node_ok s -> exit_step s (Request pkg is_open) = Ret (s', es) ->
  node_ok s' /\ same_terms (client s) (client s') /\ charged_for s (Request pkg is_open) es.
Proof.
  intros Hok. cbn [exit_step]. unfold handle_request. set (pl := payload pkg).
  case_match eqn:He; [|intros [= <- <-]; rewrite settle_nil; do 4 (split; [done|]); by left].
  destruct (pool (client s)) as [p|] eqn:Ep; [|done]. cbn [expect obind].
  destruct (ExitPool.process_package is_open p pl (paying_wallet pkg)) as [[p1 sent] t] eqn:Et.
  destruct (process_effects _ _ _ _ _ _ _ Et) as (Hr & Q2 & Ht). destruct (in_pool_quiet sent) as [Q4 Q3].
  assert (Hent : entitled (client s) (originator_public_key pl) (paying_wallet pkg)).
  { apply orb_true_iff in He as [He|He]; apply bool_decide_eq_true in He; [by left|by right]. }
  cbn [obind]. intros [= <- <-].
  assert (Hsame : forall c, same_terms (client s) (with_pool p1 (with_contexts c (client s)))) by done.
  split_and!; [|done|].
  - unfold settle. eapply node_ok_terms; [done|apply Hsame|..].
    + rewrite omap_app, Q4. apply Forall_app. split; [apply Hok|]. destruct t as [x|]; [|constructor].
      constructor; [|constructor]. intros pl' w' Hx. destruct x; try done; cbn in Hx; try (injection Hx as <- <-);
        try destruct Ht as (-> & -> & _); try (destruct Ht as [Ht _]; destruct (Ht _ _ eq_refl) as [-> ->]); exact Hent.
    + cbn. apply map_Forall_insert_2; [done|]. apply Hok.
    + by eexists.
    + intros p' [= <-]. by exists p.
  - cbn. rewrite !omap_app, Q2, Q3, Q4. destruct t as [[]|]; split_and!; try done; cbn [omap list_omap app];
      rewrite ?app_nil_r; first [by left; apply Ht|by left|right]. destruct Ht as (-> & -> & ->). done.
Qed.

Lemma task_step s i is_open connects lookup_ip fresh s' es :
  node_ok s -> exit_step s (RunTask i is_open connects lookup_ip fresh) = Ret (s', es) ->
  node_ok s' /\ same_terms (client s) (client s') /\ charged_for s (RunTask i is_open connects lookup_ip fresh) es.
Proof.
  intros Hok. cbn [exit_step charged_for].
  destruct (tasks s !! i) as [t|] eqn:Et; [|by intros [= <- <-]]. destruct (node_bound s Hok) as [p Ep]. rewrite Ep.
  pose proof (run_task_result is_open connects lookup_ip fresh p t) as Hr. cbn zeta in Hr.
  destruct (ExitPool.run_task _ _ _ _ p t) as [p' out]. destruct Hr as [Hr Ht]. cbn [fst snd] in *. intros [= <- <-].
  destruct (in_pool_quiet out) as [Q1 Q2].
  pose proof (Forall_lookup_1 _ _ _ _ (node_tasks s Hok) Et) as Hent. cbn beta in Hent. split; [|split; [done|]].
  - unfold settle. eapply node_ok_terms; [done|done|..].
    + rewrite Q1, app_nil_r. apply Forall_delete, Hok.
    + apply Hok.
    + by eexists.
    + intros q [= <-]. by exists p.
  - split; [done|].
    assert (Hb : forall w n, pool_charge p w n = if (0 <? n)%nat then charge (client s) w n else []).
    { intros w n. unfold pool_charge, charge. destruct (node_rates s Hok p Ep) as [-> ->]. by destruct w, (0 <? n)%nat. }
    unfold task_result in Ht. destruct t as [pl w|k source|a pl w|fqdn pl w|pl]; rewrite ?Hb in Ht.
    + split; [by apply Hent|exact Ht].
    + by left.
    + destruct Ht as [Ht|Ht]; [by left|right]. exists pl, w. split; [done|]. split; [by apply Hent|exact Ht].
    + destruct Ht as [Ht|Ht]; [by left|right]. exists pl, w. split; [done|]. split; [by apply Hent|exact Ht].
    + by left.
Qed.

Lemma response_effects c m c' es :
  handle_inbound_server_data c m = Ret (c', es) ->
  (c' = c /\ es = []) \/
  exists x pkg, stream_contexts c !! isd_stream_key m = Some x /\
    incipient_new (pc_cryptde c) (return_route x) (ClientResponse (client_response m)) (payload_destination_key x) = Ok pkg /\
    es = PackageToHopper pkg :: map ReportToAccountant (charge c (context_wallet x) (length (isd_data m))) /\
    c' = if isd_last_data m then with_contexts (delete (isd_stream_key m) (stream_contexts c)) c else c.
Proof.
  unfold handle_inbound_server_data, send_response_to_hopper, report_response_exit_to_accountant.
  destruct (stream_contexts c !! isd_stream_key m) as [x|]; [|intros [= <- <-]; by left].
  destruct (incipient_new _ _ _ _) as [pkg|] eqn:Ei; [|intros [= <- <-]; by left]. destruct (pool c); [|done].
  cbn [expect obind]. destruct (context_wallet x) as [w|] eqn:Ew; cbn [expect obind]; intros [= <- <-]; right;
    exists x, pkg; by rewrite Ew.
Qed.

Lemma failure_effects c m c' es :
  client_handle_dns_resolve_failure c m = Ret (c', es) ->
  (c' = c /\ es = []) \/
  exists x pkg, stream_contexts c !! failure_stream_key m = Some x /\ es = [PackageToHopper pkg] /\
    c' = with_contexts (delete (failure_stream_key m) (stream_contexts c)) c.
Proof.
  unfold client_handle_dns_resolve_failure. destruct (stream_contexts c !! _) as [x|]; [|intros [= <- <-]; by left].
  intros (pkg & _ & (? & _ & [= <- <-])%obind_ret_inv)%obind_ret_inv. right. by exists x, pkg.
Qed.

Lemma node_ok_fewer s c ts mb :
  node_ok s -> same_terms (client s) c -> stream_contexts c ⊆ stream_contexts (client s) -> pool c = pool (client s) ->
  ts = tasks s -> node_ok (mkExitNode c ts mb).
Proof.
  intros Hok Hs Hc Hp ->. eapply node_ok_terms; [done..| | | |].
  - eapply Forall_impl; [apply Hok|]. intros t Ht pl w E. eapply entitled_terms; [done|by apply Ht].
  - intros k x Hx. eapply entitled_terms; [done|]. eapply (node_contexts s Hok k). by eapply lookup_weaken.
  - rewrite Hp. apply Hok.
  - intros p Ep. exists p. by rewrite <- Hp.
Qed.

Lemma charges_quiet (rs : list ServiceReport) :
  let es := map ReportToAccountant rs in
  omap queued es = [] /\ omap reported es = rs /\ omap packaged es = [] /\ omap spawned es = [] /\ omap to_mailbox es = [].
Proof. cbn zeta. induction rs as [|r rs (I1 & I2 & I3 & I4 & I5)]; [done|]. cbn. split_and!; [done|by f_equal|done..]. Qed.

Lemma deliver_step s s' es :
  node_ok s -> exit_step s Deliver = Ret (s', es) ->
  node_ok s' /\ same_terms (client s) (client s') /\ charged_for s Deliver es.
Proof.
  intros Hok. cbn [exit_step charged_for]. destruct (mailbox s) as [|m mb] eqn:Em; [by intros [= <- <-]|].
  intros ([c es'] & E & [= <- <-])%obind_ret_inv. cbn [head]. destruct m as [m|m]; cbn [deliver] in E.
  - destruct (response_effects _ _ _ _ E) as [[-> ->]|(x & pkg & Hx & _ & -> & ->)].
    + split_and!; [|done|done|by left]. unfold settle. cbn. rewrite app_nil_r. by apply (node_ok_fewer s).
    + destruct (charges_quiet (charge (client s) (context_wallet x) (length (isd_data m)))) as (Q1 & Q2 & Q3 & Q4 & Q5).
      split_and!.
      * unfold settle. cbn. rewrite Q4, app_nil_r. destruct (isd_last_data m); apply (node_ok_fewer s); try done. apply delete_subseteq.
      * by destruct (isd_last_data m).
      * exact Q1.
      * right. exists x, pkg. split_and!; [done|by apply (node_contexts s Hok _ _ Hx)| |exact Q2].
        cbn. by rewrite Q3.
  - destruct (failure_effects _ _ _ _ E) as [[-> ->]|(x & pkg & Hx & -> & ->)]; (split_and!; [|done|done|done]);
      unfold settle; cbn; rewrite app_nil_r; apply (node_ok_fewer s); try done. apply delete_subseteq.
Qed.

Lemma exit_step_ok s ev s' es :
  node_ok s -> exit_step s ev = Ret (s', es) ->
  node_ok s' /\ same_terms (client s) (client s') /\ charged_for s ev es.
Proof.
  intros Hok. destruct ev; [by apply request_step|by apply task_step|by apply deliver_step|..]; cbn [exit_step].
  - intros [= <- <-]. split_and!; [|done..]. by apply (node_ok_fewer s).
  - destruct (pool (client s)) as [p|] eqn:Ep; intros [= <- <-]; [|done]. split_and!; [|done..].
    eapply node_ok_terms; [done|done|apply Hok|apply Hok|by eexists|]. intros p' [= <-]. by exists p.
Qed.

Lemma reachable_ok s : reachable s -> node_ok s.
Proof.
  induction 1 as [cryptde dns service byte c E|s ev s' es _ IH E]; [|by eapply exit_step_ok].
  unfold proxy_client_new in E. case_bool_decide; [done|]. injection E as <-.
  split; cbn; [constructor|apply map_Forall_empty|by eexists|]. by intros p [= <-].
Qed.

Lemma step_tasks s ev s' es : exit_step s ev = Ret (s', es) -> pool (client s) <> None -> tasks s' = tasks_after s ev es.
Proof.
  intros E Hb. unfold tasks_after. destruct ev as [pkg open|i open connects lookup fresh| |m|k]; cbn [exit_step] in E.
  - by apply obind_ret_inv in E as ([c es'] & _ & [= <- <-]).
  - destruct (tasks s !! i) as [t|] eqn:Et.
    2: { injection E as <- <-. apply lookup_ge_None in Et. cbn. rewrite delete_take_drop, take_ge, drop_ge by lia. by rewrite !app_nil_r. }
    destruct (pool (client s)); [|done]. destruct (ExitPool.run_task _ _ _ _ _ _). by injection E as <- <-.
  - destruct (mailbox s); [injection E as <- <-; cbn; by rewrite app_nil_r|].
    by apply obind_ret_inv in E as ([c' es'] & _ & [= <- <-]).
  - injection E as <- <-. cbn. by rewrite app_nil_r.
  - destruct (pool (client s)); injection E as <- <-; cbn; by rewrite app_nil_r.
Qed.
End steps.

(** ** The requests of a stream *)
(** What the world says while a task runs *)
Record world := mkWorld {
  is_open : Z -> bool;
  connects : SocketAddr -> bool;
  lookup_ip : str -> option (list IpAddr);
  fresh : Z
}.

Definition task_stream (t : ExitPool.task) : StreamKey :=
  match t with
  | ExitPool.TendTask pl _ | ExitPool.ConnectTask _ pl _ | ExitPool.LookupTask _ pl _ | ExitPool.NoHostTask pl => request_stream_key pl
  | ExitPool.BadStreamTask k _ => k
  end.

(** Does an effect concern stream [k] or channel [ch]? *)
Definition concerns (k : StreamKey) (ch : Z) (e : client_effect) : Prop :=
  match e with
  | InPool (ExitPool.ToProxyClient m) => isd_stream_key m = k
  | InPool (ExitPool.ToProxyClientDns m) => failure_stream_key m = k
  | InPool (ExitPool.Queue c _) => c = ch
  | InPool (ExitPool.SpawnReader k' _) => k' = k
  | InPool (ExitPool.SpawnWriter c k' _) => c = ch \/ k' = k
  | Spawn t => task_stream t = k
  | _ => False
  end.

Definition aside (k : StreamKey) (ch : Z) (es : list client_effect) : Prop := Forall (fun e => ~ concerns k ch e) es.

(** Reports that other streams have ended *)
Definition ends_of_others (k : StreamKey) (es : list ExitPool.effect) : Prop :=
  Forall (fun e => exists m, e = ExitPool.ToProxyClient m /\ isd_stream_key m <> k) es.

Lemma ends_aside k ch es : ends_of_others k es -> aside k ch (map InPool es).
Proof. intros H. apply Forall_map. eapply Forall_impl; [exact H|]. by intros e (m & -> & Hm). Qed.

(** The stream's sender is known, or about to be, and its end has not been reported. *)
Definition live (p : ExitPool.StreamHandlerPool) (k : StreamKey) (s : ExitPool.Sender) : Prop :=
  ExitPool.stream_writer_channels (ExitPool.add_new_streams p) !! k = Some s /\ k ∉ (ExitPool.stream_killer_rx p).*1.

(** The pool knows a sender, or will after the next housekeeping. *)
Definition known_sender (p : ExitPool.StreamHandlerPool) (k : StreamKey) (s : ExitPool.Sender) : Prop :=
  ExitPool.stream_writer_channels p !! k = Some s \/ (k, s) ∈ ExitPool.stream_adder_rx p.

(** A live stream whose channel no other stream has *)
Record held (p : ExitPool.StreamHandlerPool) (k : StreamKey) (s : ExitPool.Sender) : Prop := {
  held_live : live p k s;
  held_alone : forall k' s', known_sender p k' s' -> k' <> k -> ExitPool.channel s' <> ExitPool.channel s
}.

(** The stream is not about to be added. *)
Definition settled (p : ExitPool.StreamHandlerPool) (k : StreamKey) : Prop := k ∉ (ExitPool.stream_adder_rx p).*1.

(** Nothing is known about a stream. *)
Definition unknown (p : ExitPool.StreamHandlerPool) (k : StreamKey) : Prop :=
  ExitPool.stream_writer_channels p !! k = None /\ settled p k.

Definition put (m : gmap StreamKey ExitPool.Sender) (x : StreamKey * ExitPool.Sender) := <[x.1 := x.2]> m.

Lemma put_all_lookup xs m m' (k : StreamKey) : m !! k = m' !! k -> fold_left put xs m !! k = fold_left put xs m' !! k.
Proof.
  revert m m'. induction xs as [|[k' s] xs IH]; intros m m' E; [done|]. cbn [fold_left]. apply IH. unfold put. cbn [fst snd].
  destruct (decide (k' = k)) as [->|]; [by rewrite !lookup_insert_eq|by rewrite !lookup_insert_ne].
Qed.

Lemma put_all_unknown xs m (k : StreamKey) : m !! k = None -> k ∉ xs.*1 -> fold_left put xs m !! k = None.
Proof.
  revert m. induction xs as [|[k' s] xs IH]; intros m Hm Hk; [done|]. cbn in Hk. apply not_elem_of_cons in Hk as [Hne Hk].
  cbn [fold_left]. apply IH; [|done]. unfold put. cbn. by rewrite lookup_insert_ne.
Qed.

Lemma put_all_origin xs m (k : StreamKey) s : fold_left put xs m !! k = Some s -> m !! k = Some s \/ (k, s) ∈ xs.
Proof.
  revert m. induction xs as [|[k' s'] xs IH]; intros m; cbn [fold_left]; [by left|]. intros [E|E]%IH; [|right; by right].
  unfold put in E. cbn in E. apply lookup_insert_Some in E as [[-> ->]|[_ E]]; [right; left|by left].
Qed.

Lemma kill_all_subset kills m : (ExitPool.kill_all kills m).1 ⊆ m.
Proof.
  revert m. induction kills as [|[k n] kills IH]; intros m; cbn [ExitPool.kill_all]; [done|]. destruct (m !! k); [|apply IH].
  specialize (IH (delete k m)). destruct (ExitPool.kill_all kills (delete k m)). cbn in *. etrans; [exact IH|apply delete_subseteq].
Qed.

Lemma kill_all_other kills m k :
  k ∉ kills.*1 -> (ExitPool.kill_all kills m).1 !! k = m !! k /\ ends_of_others k (ExitPool.kill_all kills m).2.
Proof.
  revert m. induction kills as [|[k' n] kills IH]; intros m Hk; cbn [ExitPool.kill_all]; [split; [done|constructor]|].
  cbn in Hk. apply not_elem_of_cons in Hk as [Hne Hk]. destruct (m !! k') as [s|]; [|by apply IH].
  destruct (IH (delete k' m) Hk) as [I1 I2]. destruct (ExitPool.kill_all kills (delete k' m)) as [m' sent].
  cbn [fst snd] in *. split; [by rewrite I1, lookup_delete_ne|]. constructor; [by eexists|done].
Qed.

Lemma kill_all_unknown kills m k :
  m !! k = None -> (ExitPool.kill_all kills m).1 !! k = None /\ ends_of_others k (ExitPool.kill_all kills m).2.
Proof.
  revert m. induction kills as [|[k' n] kills IH]; intros m Hk; cbn [ExitPool.kill_all]; [split; [done|constructor]|].
  destruct (m !! k') as [s|] eqn:E; [|by apply IH]. assert (k' <> k) by congruence.
  destruct (IH (delete k' m)) as [I1 I2]; [by rewrite lookup_delete_ne|].
  destruct (ExitPool.kill_all kills (delete k' m)) as [m' sent]. split; [done|]. constructor; [by eexists|done].
Qed.

(** *** Housekeeping *)
Lemma housekeeping_empties p :
  ExitPool.stream_adder_rx (ExitPool.do_housekeeping p).1 = [] /\ ExitPool.stream_killer_rx (ExitPool.do_housekeeping p).1 = [].
Proof. unfold ExitPool.do_housekeeping, ExitPool.clean_up_dead_streams. by destruct (ExitPool.kill_all _ _). Qed.

Lemma housekeeping_senders p k s : known_sender (ExitPool.do_housekeeping p).1 k s -> known_sender p k s.
Proof.
  destruct (housekeeping_empties p) as [Ea _]. intros [E|E]; [|rewrite Ea in E; by apply elem_of_nil in E].
  unfold ExitPool.do_housekeeping, ExitPool.clean_up_dead_streams in E.
  pose proof (kill_all_subset (ExitPool.stream_killer_rx p) (ExitPool.stream_writer_channels p)) as Hsub.
  destruct (ExitPool.kill_all _ _) as [m sent]. cbn in *. apply put_all_origin in E as [E|E]; [left|by right].
  by eapply lookup_weaken.
Qed.

Lemma swept_live p k s :
  ExitPool.stream_writer_channels p !! k = Some s -> ExitPool.stream_adder_rx p = [] -> ExitPool.stream_killer_rx p = [] ->
  live p k s.
Proof. intros Hs Ha Hk. unfold live. cbn. rewrite Ha, Hk. split; [done|]. apply not_elem_of_nil. Qed.

(** A stream is held after housekeeping if it was, or if it is now added: then a report that it has ended that came
    before is not looked at any more. *)
Lemma housekeeping_keeps p k s :
  k ∉ (ExitPool.stream_killer_rx p).*1 \/ ExitPool.stream_writer_channels p !! k = None ->
  ExitPool.stream_writer_channels (ExitPool.add_new_streams p) !! k = Some s ->
  (forall k' s', known_sender p k' s' -> k' <> k -> ExitPool.channel s' <> ExitPool.channel s) ->
  let r := ExitPool.do_housekeeping p in
  ExitPool.stream_writer_channels r.1 !! k = Some s /\ held r.1 k s /\ ends_of_others k r.2.
Proof.
  intros Hk Hs Halone. cbn zeta. destruct (housekeeping_empties p) as [Ea Ek].
  assert (ExitPool.stream_writer_channels (ExitPool.do_housekeeping p).1 !! k = Some s /\ ends_of_others k (ExitPool.do_housekeeping p).2)
    as [Hc He].
  { unfold ExitPool.do_housekeeping, ExitPool.clean_up_dead_streams.
    assert ((ExitPool.kill_all (ExitPool.stream_killer_rx p) (ExitPool.stream_writer_channels p)).1 !! k =
              ExitPool.stream_writer_channels p !! k /\
            ends_of_others k (ExitPool.kill_all (ExitPool.stream_killer_rx p) (ExitPool.stream_writer_channels p)).2) as [K1 K2].
    { destruct Hk as [Hk|Hk]; [by apply kill_all_other|]. rewrite Hk. by apply kill_all_unknown. }
    destruct (ExitPool.kill_all _ _) as [m sent]. cbn in *. split; [|done]. rewrite <- Hs. by apply put_all_lookup. }
  split_and!; [done| |done]. split; [by apply swept_live|]. intros k' s' Hs'. apply Halone. by apply housekeeping_senders.
Qed.

Lemma housekeeping_unknown p k :
  unknown p k -> unknown (ExitPool.do_housekeeping p).1 k /\ ends_of_others k (ExitPool.do_housekeeping p).2.
Proof.
  intros [Hm Ha]. destruct (housekeeping_empties p) as [Ea _]. unfold unknown, settled. rewrite Ea.
  unfold ExitPool.do_housekeeping, ExitPool.clean_up_dead_streams.
  destruct (kill_all_unknown (ExitPool.stream_killer_rx p) _ _ Hm) as [K1 K2]. destruct (ExitPool.kill_all _ _) as [m sent].
  split; [|done]. split; [by apply put_all_unknown|apply not_elem_of_nil].
Qed.

(** *** What other streams do to a held one *)
Lemma held_drop_other p k k' s : k' <> k -> held p k s -> held (ExitPool.with_channels (delete k' (ExitPool.stream_writer_channels p)) p) k s.
Proof.
  intros Hne [[Hs Hk] Ha]. split; [split; [|done]|].
  - rewrite <- Hs. apply put_all_lookup. cbn. by rewrite lookup_delete_ne.
  - intros k1 s1 [E|E]; apply Ha; [left|by right]. cbn in E. by apply lookup_delete_Some in E as [_ E].
Qed.

Lemma held_add_other p k k' s s' :
  k' <> k -> ExitPool.channel s' <> ExitPool.channel s -> held p k s -> held (ExitPool.add (k', s') p) k s.
Proof.
  intros Hne Hch [[Hs Hk] Ha]. split; [split; [|done]|].
  - cbn. rewrite fold_left_app. cbn. by rewrite lookup_insert_ne.
  - intros k1 s1 [E|E] Hk1; [by apply (Ha k1); [left|]|]. cbn in E. apply elem_of_app in E as [E|E%list_elem_of_singleton].
    + by apply (Ha k1); [right|].
    + by injection E as -> ->.
Qed.

Lemma charges_aside k ch rs : aside k ch (map InPool (map ExitPool.ToAccountant rs)).
Proof. induction rs; constructor; auto. Qed.

(** What is charged for a request *)
Definition request_charge (p : ExitPool.StreamHandlerPool) (pl : ClientRequestPayload) (w : option Wallet) : list ExitPool.effect :=
  map ExitPool.ToAccountant (pool_charge p w (length (data (request_packet pl)))).

Lemma tend_charges p pl w :
  ExitPool.tend p pl w =
    (if last_data (request_packet pl)
     then ExitPool.with_channels (delete (request_stream_key pl) (ExitPool.stream_writer_channels p)) p else p,
     request_charge p pl w).
Proof.
  unfold ExitPool.tend, request_charge, pool_charge. destruct w; [|done]. by destruct (0 <? length (data (request_packet pl)))%nat.
Qed.

Lemma tend_other p pl w k s :
  request_stream_key pl <> k -> held p k s ->
  held (ExitPool.tend p pl w).1 k s /\ aside k (ExitPool.channel s) (map InPool (ExitPool.tend p pl w).2) /\
  (settled p k -> settled (ExitPool.tend p pl w).1 k).
Proof.
  intros Hne Hh. rewrite tend_charges. cbn [fst snd]. split; [destruct (last_data _); [by apply held_drop_other|done]|].
  split; [apply charges_aside|by destruct (last_data _)].
Qed.

Lemma settled_add p k k' s : k' <> k -> settled p k -> settled (ExitPool.add (k', s) p) k.
Proof.
  intros Hne Hp. unfold settled. cbn. rewrite fmap_app. cbn. rewrite elem_of_app, list_elem_of_singleton. naive_solver.
Qed.

Lemma establish_other is_open connects fresh p ips pl w k s :
  request_stream_key pl <> k -> fresh <> ExitPool.channel s -> held p k s ->
  let r := ExitPool.establish_and_write is_open connects fresh p ips pl w in
  held r.1 k s /\ aside k (ExitPool.channel s) (map InPool r.2) /\ (settled p k -> settled r.1 k).
Proof.
  intros Hne Hfresh Hh. cbn zeta. unfold ExitPool.establish_and_write, ExitPool.establish_stream.
  assert (Hbad : aside k (ExitPool.channel s) (map InPool [ExitPool.send_terminating_package (request_stream_key pl) error_socket_addr])).
  { constructor; [done|constructor]. }
  destruct (ExitPool.connect_one _ _ _) as [peer|]; [|split; [by apply held_drop_other|done]].
  set (p1 := ExitPool.add _ p). assert (Hh1 : held p1 k s) by (by apply held_add_other).
  assert (Hs1 : settled p k -> settled p1 k) by (by apply settled_add).
  assert (Hspawn : forall es, aside k (ExitPool.channel s) (map InPool es) -> aside k (ExitPool.channel s)
    (map InPool ([ExitPool.SpawnReader (request_stream_key pl) peer; ExitPool.SpawnWriter fresh (request_stream_key pl) peer] ++ es))).
  { intros es Hes. constructor; [done|]. constructor; [|done]. cbn. by intros [?|?]. }
  unfold ExitPool.write_and_tend, ExitPool.perform_write. destruct (is_open _).
  - destruct (tend_other p1 pl w k s Hne Hh1) as (T1 & T2 & T3). destruct (ExitPool.tend p1 pl w) as [p2 bill]. cbn [fst snd] in *.
    split_and!; [done| |tauto]. apply Hspawn. by constructor.
  - cbn [fst snd ExitPool.clean_up_bad_stream]. split_and!; [by apply held_drop_other|by apply Hspawn|done].
Qed.

Lemma run_other is_open connects lookup_ip fresh p t k s :
  task_stream t <> k -> fresh <> ExitPool.channel s -> held p k s ->
  let r := ExitPool.run_task is_open connects lookup_ip fresh p t in
  held r.1 k s /\ aside k (ExitPool.channel s) (map InPool r.2) /\ (settled p k -> settled r.1 k).
Proof.
  intros Hne Hfresh Hh. cbn zeta.
  assert (Hbad : forall source, aside k (ExitPool.channel s) (map InPool [ExitPool.send_terminating_package (task_stream t) source])).
  { intros source. constructor; [done|constructor]. }
  destruct t as [pl w|k' source|a pl w|fqdn pl w|pl]; cbn [task_stream ExitPool.run_task] in *.
  - by apply tend_other.
  - split_and!; [by apply held_drop_other|apply Hbad|done].
  - by apply establish_other.
  - destruct (lookup_ip fqdn); [by apply establish_other|]. split_and!; [by apply held_drop_other|constructor; [done|apply Hbad]|done].
  - split_and!; [by apply held_drop_other|apply Hbad|done].
Qed.

(** *** Requests taken in by the pool *)
Lemma process_other is_open p pl w k s p' es t :
  request_stream_key pl <> k ->
  k ∉ (ExitPool.stream_killer_rx p).*1 \/ ExitPool.stream_writer_channels p !! k = None ->
  ExitPool.stream_writer_channels (ExitPool.add_new_streams p) !! k = Some s ->
  (forall k' s', known_sender p k' s' -> k' <> k -> ExitPool.channel s' <> ExitPool.channel s) ->
  ExitPool.process_package is_open p pl w = (p', es, t) ->
  held p' k s /\ settled p' k /\ aside k (ExitPool.channel s) (map InPool es) /\
  match t with Some t => task_stream t = request_stream_key pl | None => True end.
Proof.
  intros Hne Hk Hs Halone. destruct (housekeeping_keeps p k s Hk Hs Halone) as (Hc & Hh & He).
  destruct (housekeeping_empties p) as [Ea _]. unfold ExitPool.process_package.
  destruct (ExitPool.do_housekeeping p) as [p1 sent]. cbn [fst snd] in *. apply (ends_aside _ (ExitPool.channel s)) in He.
  assert (Hset : settled p1 k) by (unfold settled; rewrite Ea; apply not_elem_of_nil).
  destruct (ExitPool.stream_writer_channels p1 !! request_stream_key pl) as [s'|] eqn:Es.
  - unfold ExitPool.perform_write. destruct (is_open _); intros [= <- <- <-]; split_and!; try done.
    rewrite map_app. apply Forall_app. split; [done|]. constructor; [|constructor]. cbn.
    apply (held_alone p1 k s Hh (request_stream_key pl) s'); [by left|done].
  - intros [= <- <- <-]. split_and!; [done..|]. case_bool_decide; [done|]. unfold ExitPool.make_stream_with_key.
    destruct (target_hostname pl); [destruct (ExitPool.parse_ip _)|]; done.
Qed.

Lemma process_own is_open p pl w s :
  held p (request_stream_key pl) s -> is_open (ExitPool.channel s) = true ->
  exists p' sent, ExitPool.process_package is_open p pl w =
      (p', sent ++ [ExitPool.Queue (ExitPool.channel s) (request_packet pl)], Some (ExitPool.TendTask pl w)) /\
    ends_of_others (request_stream_key pl) sent /\ held p' (request_stream_key pl) s /\ settled p' (request_stream_key pl).
Proof.
  intros [[Hs Hk] Ha] Ho. destruct (housekeeping_keeps p _ s (or_introl Hk) Hs Ha) as (Hc & Hh & He).
  destruct (housekeeping_empties p) as [Ea _]. unfold ExitPool.process_package.
  destruct (ExitPool.do_housekeeping p) as [p1 sent]. cbn [fst snd] in *. rewrite Hc. unfold ExitPool.perform_write. rewrite Ho.
  exists p1, sent. split_and!; [done..|]. unfold settled. rewrite Ea. apply not_elem_of_nil.
Qed.

(** Where a host is *)
Definition addresses (x : world) (host : str) : option (list IpAddr) :=
  match ExitPool.parse_ip host with
  | Some a => Some [a]
  | None => lookup_ip x (ExitPool.make_fqdn host)
  end.

(** The first request of a stream starts the task of opening it. *)
Lemma process_new is_open p pl w :
  unknown p (request_stream_key pl) -> data (request_packet pl) <> [] ->
  exists p1 sent, ExitPool.process_package is_open p pl w = (p1, sent, Some (ExitPool.make_stream_with_key pl w)) /\
    ends_of_others (request_stream_key pl) sent /\ (ExitPool.stream_killer_rx p = [] -> sent = []) /\ same_rates p p1 /\
    unknown p1 (request_stream_key pl) /\ ExitPool.stream_adder_rx p1 = [] /\ ExitPool.stream_killer_rx p1 = [].
Proof.
  intros Hu Hd. pose proof (housekeeping_rates p) as HR. destruct (housekeeping_unknown p _ Hu) as [Hu1 He].
  destruct (housekeeping_empties p) as [Ea Ek].
  assert (Hsent : ExitPool.stream_killer_rx p = [] -> (ExitPool.do_housekeeping p).2 = []).
  { intros E. unfold ExitPool.do_housekeeping, ExitPool.clean_up_dead_streams. by rewrite E. }
  unfold ExitPool.process_package. destruct (ExitPool.do_housekeeping p) as [p1 sent]. cbn [fst snd] in *.
  rewrite (proj1 Hu1), bool_decide_false by done. by exists p1, sent.
Qed.

Lemma connect_new x p pl w host ips peer :
  target_hostname pl = Some host -> addresses x host = Some ips ->
  ExitPool.connect_one (connects x) ips (target_port pl) = Some peer ->
  is_open x (fresh x) = true -> last_data (request_packet pl) = false ->
  ExitPool.run_task (is_open x) (connects x) (lookup_ip x) (fresh x) p (ExitPool.make_stream_with_key pl w) =
    (ExitPool.add (request_stream_key pl, ExitPool.mkSender (fresh x) peer) p,
     [ExitPool.SpawnReader (request_stream_key pl) peer; ExitPool.SpawnWriter (fresh x) (request_stream_key pl) peer] ++
     ExitPool.Queue (fresh x) (request_packet pl) :: request_charge p pl w).
Proof.
  intros Hh Hips Hc Ho Hl.
  assert (ExitPool.run_task (is_open x) (connects x) (lookup_ip x) (fresh x) p (ExitPool.make_stream_with_key pl w) =
            ExitPool.establish_and_write (is_open x) (connects x) (fresh x) p ips pl w) as ->.
  { unfold ExitPool.make_stream_with_key. rewrite Hh. unfold addresses in Hips. destruct (ExitPool.parse_ip host).
    - by injection Hips as <-.
    - cbn [ExitPool.run_task]. by rewrite Hips. }
  unfold ExitPool.establish_and_write, ExitPool.establish_stream, ExitPool.write_and_tend, ExitPool.perform_write.
  rewrite Hc. cbn [ExitPool.channel]. by rewrite Ho, tend_charges, Hl.
Qed.

(** *** Runs of an exit Node *)
Section runs.
Context `{!Serde MessageType} (allowed : ExitNode -> event -> Prop).

(** Any sequence of steps of which each is allowed where it is taken, with what each did *)
Inductive runs : ExitNode -> list (ExitNode * event * list client_effect) -> ExitNode -> Prop :=
| runs_nil n : runs n [] n
| runs_cons n ev es n1 tr n2 : allowed n ev -> exit_step n ev = Ret (n1, es) -> runs n1 tr n2 -> runs n ((n, ev, es) :: tr) n2.

(** What every allowed step keeps is kept, and what it does is done by each. *)
Lemma runs_keep (I : ExitNode -> Prop) (Q : ExitNode * event * list client_effect -> Prop) :
  (forall n ev n' es, I n -> allowed n ev -> exit_step n ev = Ret (n', es) -> I n' /\ Q (n, ev, es)) ->
  forall n tr n', runs n tr n' -> I n -> I n' /\ Forall Q tr.
Proof.
  intros Hstep n tr n' Hr. induction Hr as [n|n ev es n1 tr n2 Ha E _ IH]; intros Hn; [done|].
  destruct (Hstep n ev n1 es Hn Ha E) as [H1 HQ]. destruct (IH H1) as [H2 HQs]. split; [done|by constructor].
Qed.
End runs.

(** Events that have nothing to do with stream [k] *)
Definition elsewhere (k : StreamKey) (n : ExitNode) (ev : event) : Prop :=
  match ev with
  | Request pkg _ => request_stream_key (payload pkg) <> k
  | RunTask i _ _ _ _ => forall t, tasks n !! i = Some t -> task_stream t <> k
  | ReaderKills (k', _) => k' <> k
  | ReaderSends _ | Deliver => True
  end.

(** Whatever may come while stream [k] is open on channel [ch]: more of its requests, none of them its last; other
    requests; any tasks, but for the one that ends the stream; any reader's data, the end of any other stream. A
    new channel is not an old one. *)
Definition ordinary (k : StreamKey) (ch : Z) (n : ExitNode) (ev : event) : Prop :=
  match ev with
  | Request pkg is_open => request_stream_key (payload pkg) = k ->
      entitled (client n) (originator_public_key (payload pkg)) (paying_wallet pkg) /\
      last_data (request_packet (payload pkg)) = false /\ is_open ch = true
  | RunTask i _ _ _ fresh => fresh <> ch /\
      forall pl w, tasks n !! i = Some (ExitPool.TendTask pl w) -> request_stream_key pl = k -> last_data (request_packet pl) = false
  | ReaderKills (k', _) => k' <> k
  | ReaderSends _ | Deliver => True
  end.

(** A request of stream [k] is queued to its writer at once, its charge is the task that is spawned with it, and
    what other events do does not concern the stream. *)
Definition served (k : StreamKey) (ch : Z) (x : ExitNode * event * list client_effect) : Prop :=
  let '(n, ev, es) := x in
  match ev with
  | Request pkg _ =>
      if decide (request_stream_key (payload pkg) = k) then
        exists sent, ends_of_others k sent /\
          es = map InPool (sent ++ [ExitPool.Queue ch (request_packet (payload pkg))]) ++
               [Spawn (ExitPool.TendTask (payload pkg) (paying_wallet pkg))]
      else aside k ch es
  | RunTask i _ _ _ _ =>
      match tasks n !! i with
      | Some (ExitPool.TendTask pl w) =>
          if decide (request_stream_key pl = k)
          then es = map InPool (map ExitPool.ToAccountant (service_charge (client n) w pl)) else aside k ch es
      | _ => aside k ch es
      end
  | _ => aside k ch es
  end.

(** The stream is open, and of its tasks only those are left that charge for it. *)
Definition alive (k : StreamKey) (s : ExitPool.Sender) (n : ExitNode) : Prop :=
  (exists p, pool (client n) = Some p /\ held p k s) /\
  Forall (fun t => task_stream t = k -> exists pl w, t = ExitPool.TendTask pl w) (tasks n).

(** The stream is not open, and one task of it is left. *)
Definition waiting_task (k : StreamKey) (t : ExitPool.task) (n : ExitNode) : Prop :=
  (exists p, pool (client n) = Some p /\ unknown p k /\ k ∉ (ExitPool.stream_killer_rx p).*1) /\
  filter (fun t => task_stream t = k) (tasks n) = [t].

Section requests.
Context `{!Serde MessageType}.

Lemma task_stays n ev n' es t :
  pool (client n) <> None -> exit_step n ev = Ret (n', es) -> t ∈ tasks n ->
  (forall i is_open connects lookup_ip fresh, ev = RunTask i is_open connects lookup_ip fresh -> tasks n !! i <> Some t) ->
  t ∈ tasks n'.
Proof.
  intros Hp E Ht Hrun. rewrite (step_tasks _ _ _ _ E Hp). apply elem_of_app. left.
  destruct ev as [| i is_open connects lookup_ip fresh | | |]; try done. specialize (Hrun i _ _ _ _ eq_refl).
  apply list_elem_of_lookup in Ht as [j Hj]. rewrite delete_take_drop. apply elem_of_app.
  destruct (Nat.lt_trichotomy j i) as [Hlt|[->|Hlt]]; [left|done|right]; apply list_elem_of_lookup.
  - exists j. by rewrite lookup_take_lt.
  - exists (j - S i)%nat. rewrite lookup_drop. by replace (S i + (j - S i))%nat with j by lia.
Qed.

Lemma request_dropped n pkg open :
  ~ entitled (client n) (originator_public_key (payload pkg)) (paying_wallet pkg) -> exit_step n (Request pkg open) = Ret (n, []).
Proof.
  intros He. cbn [exit_step]. unfold handle_request.
  rewrite !bool_decide_false by (intros ?; apply He; by (left + right)). cbn [orb obind]. by rewrite settle_nil.
Qed.

Lemma request_taken n pkg open p p' sent t :
  pool (client n) = Some p -> entitled (client n) (originator_public_key (payload pkg)) (paying_wallet pkg) ->
  ExitPool.process_package open p (payload pkg) (paying_wallet pkg) = (p', sent, t) ->
  exists n', exit_step n (Request pkg open) = Ret (n', map InPool sent ++ match t with Some t => [Spawn t] | None => [] end) /\
    pool (client n') = Some p' /\ same_terms (client n) (client n') /\
    tasks n' = tasks n ++ match t with Some t => [t] | None => [] end /\
    mailbox n' = mailbox n ++ omap to_mailbox (map InPool sent) /\
    stream_contexts (client n') = <[request_stream_key (payload pkg) :=
      mkStreamContext (remaining_route pkg) (originator_public_key (payload pkg)) (paying_wallet pkg)]> (stream_contexts (client n)).
Proof.
  intros Hp He E. cbn [exit_step]. unfold handle_request. rewrite Hp.
  assert ((bool_decide (is_Some (paying_wallet pkg)) ||
           bool_decide (originator_public_key (payload pkg) = public_key (pc_cryptde (client n)))) = true) as ->.
  { apply orb_true_iff. rewrite !bool_decide_eq_true. exact He. }
  cbn [expect obind]. rewrite E. cbn [obind]. eexists. unfold settle. cbn [tasks mailbox client]. destruct (in_pool_quiet sent) as [Q _].
  rewrite !omap_app, Q. split_and!; [done..|by destruct t| |done]. cbn [mailbox]. f_equal. destruct t; apply app_nil_r.
Qed.

Lemma node_charge n p w pl :
  node_ok n -> pool (client n) = Some p -> request_charge p pl w = map ExitPool.ToAccountant (service_charge (client n) w pl).
Proof.
  intros Hok Hp. unfold request_charge, pool_charge, service_charge, charge. destruct (node_rates n Hok p Hp) as [-> ->].
  by destruct w, (0 <? length (data (request_packet pl)))%nat.
Qed.

(** What is delivered stays in the client. *)
Lemma deliver_inside n n' es k ch :
  exit_step n Deliver = Ret (n', es) -> pool (client n') = pool (client n) /\ tasks n' = tasks n /\ aside k ch es.
Proof.
  cbn [exit_step]. destruct (mailbox n) as [|m mb]; [intros [= <- <-]; by repeat constructor|].
  intros ([c es'] & E & [= <- <-])%obind_ret_inv. cbn [settle client tasks].
  assert (pool c = pool (client n) /\ omap spawned es' = [] /\ aside k ch es') as (-> & -> & Ha); [|by rewrite app_nil_r].
  destruct m as [m|m]; cbn [deliver] in E.
  - destruct (response_effects _ _ _ _ E) as [[-> ->]|(x & pkg & _ & _ & -> & ->)]; [by repeat constructor|].
    destruct (charges_quiet (charge (client n) (context_wallet x) (length (isd_data m)))) as (_ & _ & _ & Q4 & _).
    split_and!; [by destruct (isd_last_data m)|exact Q4|]. constructor; [by intros []|].
    apply Forall_map, Forall_forall. by intros r _ [].
  - destruct (failure_effects _ _ _ _ E) as [[-> ->]|(x & pkg & _ & -> & ->)]; [by repeat constructor|].
    split_and!; [done..|]. constructor; [by intros []|constructor].
Qed.

Lemma spawn_aside k ch sent t :
  aside k ch (map InPool sent) -> match t with Some t => task_stream t <> k | None => True end ->
  aside k ch (map InPool sent ++ match t with Some t => [Spawn t] | None => [] end).
Proof. intros Hs Ht. apply Forall_app. split; [done|]. destruct t; [|constructor]. constructor; [done|constructor]. Qed.

Lemma Forall_spawn (P : ExitPool.task -> Prop) ts t :
  Forall P ts -> match t with Some t => P t | None => True end -> Forall P (ts ++ match t with Some t => [t] | None => [] end).
Proof. intros Hs Ht. apply Forall_app. split; [done|]. destruct t; [|constructor]. by constructor. Qed.

Lemma ordinary_request k s n pkg open n' es :
  alive k s n -> ordinary k (ExitPool.channel s) n (Request pkg open) -> exit_step n (Request pkg open) = Ret (n', es) ->
  alive k s n' /\ served k (ExitPool.channel s) (n, Request pkg open, es) /\
  (forall p, pool (client n) = Some p -> settled p k -> forall p', pool (client n') = Some p' -> settled p' k).
Proof.
  intros [(p & Hp & Hh) Ht] Hord E. cbn [served ordinary] in *. case_decide as Hk.
  - destruct (Hord Hk) as (He & _ & Ho). rewrite <- Hk in Hh.
    destruct (process_own open p (payload pkg) (paying_wallet pkg) s Hh Ho) as (p' & sent & Ep & Hs & Hh' & Hset).
    destruct (request_taken n pkg open p _ _ _ Hp He Ep) as (n1 & E1 & Hp1 & _ & Ht1 & _).
    rewrite E1 in E. injection E as <- <-. rewrite Hk in *. split_and!.
    + split; [by exists p'|]. rewrite Ht1. apply (Forall_spawn _ _ (Some _)); [done|]. intros _. by eexists _, _.
    + by exists sent.
    + intros _ _ _ q Hq. rewrite Hp1 in Hq. by injection Hq as <-.
  - destruct (decide (is_Some (paying_wallet pkg) \/ originator_public_key (payload pkg) = public_key (pc_cryptde (client n)))) as [He|He].
    + destruct (ExitPool.process_package open p (payload pkg) (paying_wallet pkg)) as [[p' sent] t] eqn:Ep.
      destruct Hh as [[Hs Hkill] Halone].
      destruct (process_other _ _ _ _ _ _ _ _ _ Hk (or_introl Hkill) Hs Halone Ep) as (Hh' & Hset & Ha & Hts).
      destruct (request_taken n pkg open p _ _ _ Hp He Ep) as (n1 & E1 & Hp1 & _ & Ht1 & _).
      rewrite E1 in E. injection E as <- <-. split_and!.
      * split; [by exists p'|]. rewrite Ht1. apply Forall_spawn; [done|]. destruct t; [|done]. rewrite Hts. intros Hk2. by destruct Hk.
      * apply spawn_aside; [done|]. destruct t; [|done]. by rewrite Hts.
      * intros _ _ _ q Hq. rewrite Hp1 in Hq. by injection Hq as <-.
    + rewrite (request_dropped n pkg open He) in E. injection E as <- <-. split_and!; [split; [by exists p|done]|constructor|].
      intros q Hq Hset q'. rewrite Hq. by intros [= <-].
Qed.

Lemma ordinary_task k s n i open connects lookup fresh n' es :
  node_ok n -> alive k s n -> ordinary k (ExitPool.channel s) n (RunTask i open connects lookup fresh) ->
  exit_step n (RunTask i open connects lookup fresh) = Ret (n', es) ->
  alive k s n' /\ served k (ExitPool.channel s) (n, RunTask i open connects lookup fresh, es) /\
  (forall p, pool (client n) = Some p -> settled p k -> forall p', pool (client n') = Some p' -> settled p' k).
Proof.
  intros Hok [(p & Hp & Hh) Ht] [Hfresh Hlast] E. cbn [served]. cbn [exit_step] in E. rewrite Hp in E.
  destruct (tasks n !! i) as [t|] eqn:Et.
  2: { injection E as <- <-. split_and!; [split; [by exists p|done]|constructor|]. intros q -> Hq q'. by intros [= <-]. }
  assert (Hdel : Forall (fun t => task_stream t = k -> exists pl w, t = ExitPool.TendTask pl w) (delete i (tasks n)))
    by (by apply Forall_delete).
  destruct (decide (task_stream t = k)) as [Hk|Hk].
  - destruct (Forall_lookup_1 _ _ _ _ Ht Et Hk) as (pl & w & ->). cbn [task_stream] in Hk. rewrite decide_True by done.
    specialize (Hlast pl w eq_refl Hk). cbn [ExitPool.run_task] in E. rewrite tend_charges, Hlast in E. injection E as <- <-.
    split_and!.
    + split; [by exists p|]. unfold settle. cbn [tasks]. destruct (in_pool_quiet (request_charge p pl w)) as [-> _].
      by rewrite app_nil_r.
    + by rewrite (node_charge n p w pl Hok Hp).
    + intros q Hq Hset q' [= <-]. rewrite Hp in Hq. by injection Hq as <-.
  - pose proof (run_other open connects lookup fresh p t k s Hk Hfresh Hh) as Hr. cbn zeta in Hr.
    destruct (ExitPool.run_task _ _ _ _ p t) as [p' out]. cbn [fst snd] in Hr. destruct Hr as (Hh' & Ha & Hset).
    injection E as <- <-. split_and!.
    + split; [by exists p'|]. unfold settle. cbn [tasks]. destruct (in_pool_quiet out) as [-> _]. by rewrite app_nil_r.
    + destruct t; try done. cbn [task_stream] in Hk. by rewrite decide_False.
    + intros q Hq Hq' q' [= <-]. rewrite Hp in Hq. injection Hq as <-. by apply Hset.
Qed.

Lemma ordinary_step k s n ev n' es :
  node_ok n -> alive k s n -> ordinary k (ExitPool.channel s) n ev -> exit_step n ev = Ret (n', es) ->
  alive k s n' /\ served k (ExitPool.channel s) (n, ev, es) /\
  (forall p, pool (client n) = Some p -> settled p k -> forall p', pool (client n') = Some p' -> settled p' k).
Proof.
  intros Hok Hal Hord E. destruct ev as [pkg open|i open connects lookup fresh| |m|[k' m]].
  - by apply (ordinary_request k s n pkg open).
  - by apply (ordinary_task k s n i open connects lookup fresh).
  - destruct Hal as [(p & Hp & Hh) Ht]. destruct (deliver_inside _ _ _ k (ExitPool.channel s) E) as (Hp' & Ht' & Ha).
    split_and!; [|done|].
    + split; [exists p; by rewrite Hp'|by rewrite Ht'].
    + rewrite Hp'. intros q -> Hq q'. by intros [= <-].
  - injection E as <- <-. split_and!; [done|constructor|]. cbn. intros q -> Hq q'. by intros [= <-].
  - destruct Hal as [(p & Hp & [[Hs Hkill] Ha]) Ht]. cbn [exit_step ordinary] in *. rewrite Hp in E. injection E as <- <-.
    split_and!; [|constructor|].
    + split; [|done]. eexists. split; [done|]. split; [split; [done|]|done]. cbn. rewrite fmap_app. cbn.
      rewrite elem_of_app, list_elem_of_singleton. naive_solver.
    + intros q Hq Hset q' [= <-]. rewrite Hp in Hq. by injection Hq as <-.
Qed.

(** *** While the stream waits to be opened *)
Lemma filter_split {A} (P : A -> Prop) `{!forall x, Decision (P x)} (l : list A) i x :
  l !! i = Some x -> filter P l = filter P (take i l) ++ filter P [x] ++ filter P (drop (S i) l) /\
  filter P (delete i l) = filter P (take i l) ++ filter P (drop (S i) l).
Proof.
  intros E. rewrite delete_take_drop, filter_app. split; [|done]. rewrite <- (take_drop_middle l i x E) at 1.
  rewrite filter_app. f_equal. by rewrite <- filter_app.
Qed.

Lemma filter_none {A} (P : A -> Prop) `{!forall x, Decision (P x)} (l : list A) : Forall (fun x => ~ P x) l -> filter P l = [].
Proof. induction 1; [done|]. by rewrite filter_cons_False. Qed.

Lemma filter_delete_other {A} (P : A -> Prop) `{!forall x, Decision (P x)} (l : list A) i :
  (forall x, l !! i = Some x -> ~ P x) -> filter P (delete i l) = filter P l.
Proof.
  intros Hn. destruct (l !! i) as [x|] eqn:E.
  - destruct (filter_split P l i x E) as [-> ->]. by rewrite filter_cons_False by (by apply Hn).
  - apply lookup_ge_None in E. by rewrite delete_take_drop, take_ge, drop_ge, app_nil_r by lia.
Qed.

Lemma process_pool open p pl w : (ExitPool.process_package open p pl w).1.1 = (ExitPool.do_housekeeping p).1.
Proof.
  unfold ExitPool.process_package. destruct (ExitPool.do_housekeeping p) as [p1 sent]. case_match; [|done].
  by destruct (ExitPool.perform_write _ _ _).
Qed.

Lemma process_task open p pl w p' es t : ExitPool.process_package open p pl w = (p', es, Some t) -> task_stream t = request_stream_key pl.
Proof.
  unfold ExitPool.process_package. destruct (ExitPool.do_housekeeping p) as [p1 sent]. case_match.
  - destruct (ExitPool.perform_write _ _ _); by intros [= _ _ <-].
  - case_bool_decide; [done|]. intros [= _ _ <-]. unfold ExitPool.make_stream_with_key. by repeat case_match.
Qed.

Lemma unknown_drop p k k' : unknown p k -> unknown (ExitPool.with_channels (delete k' (ExitPool.stream_writer_channels p)) p) k.
Proof. intros [Hm Ha]. split; [|done]. cbn. apply lookup_delete_None. by right. Qed.

Lemma establish_unknown is_open connects fresh p ips pl w k :
  request_stream_key pl <> k -> unknown p k ->
  let r := ExitPool.establish_and_write is_open connects fresh p ips pl w in
  unknown r.1 k /\ ExitPool.stream_killer_rx r.1 = ExitPool.stream_killer_rx p.
Proof.
  intros Hne Hu. cbn zeta. unfold ExitPool.establish_and_write, ExitPool.establish_stream.
  destruct (ExitPool.connect_one _ _ _) as [peer|]; [|split; [by apply unknown_drop|done]]. set (p1 := ExitPool.add _ p).
  assert (unknown p1 k) by (split; [apply Hu|apply settled_add; [done|apply Hu]]).
  unfold ExitPool.write_and_tend, ExitPool.perform_write. destruct (is_open _); [rewrite tend_charges|]; cbn [fst snd].
  - destruct (last_data _); split; [by apply unknown_drop|done..].
  - split; [by apply unknown_drop|done].
Qed.

Lemma run_unknown is_open connects lookup_ip fresh p t k :
  task_stream t <> k -> unknown p k ->
  let r := ExitPool.run_task is_open connects lookup_ip fresh p t in
  unknown r.1 k /\ ExitPool.stream_killer_rx r.1 = ExitPool.stream_killer_rx p.
Proof.
  intros Hne Hu. cbn zeta. destruct t as [pl w|k' source|a pl w|fqdn pl w|pl]; cbn [task_stream ExitPool.run_task] in *.
  - rewrite tend_charges. cbn [fst]. destruct (last_data _); split; [by apply unknown_drop|done..].
  - split; [by apply unknown_drop|done].
  - by apply establish_unknown.
  - destruct (lookup_ip fqdn); [by apply establish_unknown|]. split; [by apply unknown_drop|done].
  - split; [by apply unknown_drop|done].
Qed.

Lemma elsewhere_step k t n ev n' es :
  waiting_task k t n -> elsewhere k n ev -> exit_step n ev = Ret (n', es) -> waiting_task k t n'.
Proof.
  intros [(p & Hp & Hu & Hk) Hf] Helse E. assert (pool (client n) <> None) as Hb by (by rewrite Hp).
  unfold waiting_task. rewrite (step_tasks _ _ _ _ E Hb). unfold tasks_after. rewrite filter_app.
  destruct ev as [pkg open|i open connects lookup fresh| |m|[k' m]]; cbn [elsewhere] in Helse.
  - destruct (decide (is_Some (paying_wallet pkg) \/ originator_public_key (payload pkg) = public_key (pc_cryptde (client n)))) as [He|He].
    2: { rewrite (request_dropped n pkg open He) in E. injection E as <- <-. rewrite Hf. split; [by exists p|done]. }
    destruct (ExitPool.process_package open p (payload pkg) (paying_wallet pkg)) as [[p' sent] x] eqn:Ep.
    destruct (request_taken n pkg open p _ _ _ Hp He Ep) as (n1 & E1 & Hp1 & _). rewrite E1 in E. injection E as <- <-.
    rewrite Hf, omap_app. destruct (in_pool_quiet sent) as [-> _]. pose proof (process_pool open p (payload pkg) (paying_wallet pkg)) as Epp.
    rewrite Ep in Epp. cbn in Epp. split.
    + exists p'. split; [done|]. subst p'. destruct (housekeeping_empties p) as [_ ->]. split; [by apply housekeeping_unknown|apply not_elem_of_nil].
    + destruct x as [x|]; [|done]. change ([] ++ omap spawned [Spawn x]) with [x]. rewrite filter_cons_False; [done|]. by rewrite (process_task _ _ _ _ _ _ _ Ep).
  - cbn [exit_step] in E. rewrite Hp in E. rewrite filter_delete_other, Hf by done. destruct (tasks n !! i) as [x|].
    2: { injection E as <- <-. split; [by exists p|done]. }
    destruct (run_unknown open connects lookup fresh p x k (Helse x eq_refl) Hu) as [Hu' Hk']. revert E.
    destruct (ExitPool.run_task _ _ _ _ p x) as [p' out]. cbn [fst] in *. intros [= <- <-].
    destruct (in_pool_quiet out) as [-> _]. split; [|done]. exists p'. by rewrite Hk'.
  - destruct (deliver_inside _ _ _ k 0 E) as (Hp' & Ht' & Ha). assert (omap spawned es = []) as ->.
    { rewrite (step_tasks _ _ _ _ E Hb) in Ht'. unfold tasks_after in Ht'. apply (app_inv_head (tasks n)). by rewrite app_nil_r. }
    rewrite Hf, Hp'. split; [by exists p|done].
  - injection E as <- <-. rewrite Hf. split; [by exists p|done].
  - cbn [exit_step] in E. rewrite Hp in E. injection E as <- <-. rewrite Hf. split; [|done]. eexists. split; [done|]. split; [done|].
    cbn. rewrite fmap_app. cbn. rewrite elem_of_app, list_elem_of_singleton. naive_solver.
Qed.

(** Running the task that waits opens the stream. *)
Lemma opening_step n x p pl w host ips peer i :
  let k := request_stream_key pl in
  let s := ExitPool.mkSender (fresh x) peer in
  node_ok n -> pool (client n) = Some p -> waiting_task k (ExitPool.make_stream_with_key pl w) n ->
  tasks n !! i = Some (ExitPool.make_stream_with_key pl w) ->
  target_hostname pl = Some host -> addresses x host = Some ips -> ExitPool.connect_one (connects x) ips (target_port pl) = Some peer ->
  is_open x (fresh x) = true -> last_data (request_packet pl) = false ->
  (forall k' s', known_sender p k' s' -> ExitPool.channel s' <> fresh x) ->
  exists n', exit_step n (RunTask i (is_open x) (connects x) (lookup_ip x) (fresh x)) =
      Ret (n', map InPool ([ExitPool.SpawnReader k peer; ExitPool.SpawnWriter (fresh x) k peer; ExitPool.Queue (fresh x) (request_packet pl)] ++
                           map ExitPool.ToAccountant (service_charge (client n) w pl))) /\
    alive k s n' /\ pool (client n') = Some (ExitPool.add (k, s) p).
Proof.
  intros k s Hok Hp [(p' & Hp' & Hu & Hk) Hf] Hi Hh Hips Hc Ho Hl Hnew. rewrite Hp in Hp'. injection Hp' as <-.
  cbn [exit_step]. rewrite Hi, Hp, (connect_new x p pl w host ips peer Hh Hips Hc Ho Hl). eexists. split_and!.
  - rewrite (node_charge n p w pl Hok Hp). reflexivity.
  - split.
    + eexists. split; [done|]. destruct Hu as [Hm Ha]. split.
      * split; [|done]. cbn. rewrite fold_left_app. cbn. by rewrite lookup_insert_eq.
      * intros k' s' [Hs'|Hs'] Hk'; [apply (Hnew k'); by left|]. cbn in Hs'.
        apply elem_of_app in Hs' as [Hs'|Hs'%list_elem_of_singleton]; [apply (Hnew k'); by right|]. injection Hs' as -> ->. by destruct Hk'.
    + unfold settle. cbn [tasks]. match goal with |- context [omap spawned (map InPool ?l)] => destruct (in_pool_quiet l) as [-> _] end.
      rewrite app_nil_r. destruct (filter_split (fun t => task_stream t = k) _ i _ Hi) as [E1 E2]. rewrite Hf in E1.
      assert (Hts : task_stream (ExitPool.make_stream_with_key pl w) = k).
      { unfold ExitPool.make_stream_with_key. by repeat case_match. }
      rewrite filter_cons_True in E1 by done. rewrite filter_nil in E1.
      assert (filter (fun t => task_stream t = k) (delete i (tasks n)) = []) as Hnil.
      { apply (f_equal length) in E1. rewrite E2. rewrite !length_app in E1. cbn in E1. apply length_zero_iff_nil. rewrite length_app. lia. }
      apply Forall_forall. intros t Ht Hk'. exfalso. eapply not_elem_of_nil. rewrite <- Hnil. by apply list_elem_of_filter.
  - done.
Qed.

(** *** The life of a stream *)
Lemma first_request n p pkg open :
  let k := request_stream_key (payload pkg) in
  let opening := ExitPool.make_stream_with_key (payload pkg) (paying_wallet pkg) in
  node_ok n -> pool (client n) = Some p -> unknown p k -> Forall (fun t => task_stream t <> k) (tasks n) ->
  entitled (client n) (originator_public_key (payload pkg)) (paying_wallet pkg) -> data (request_packet (payload pkg)) <> [] ->
  exists n' sent, exit_step n (Request pkg open) = Ret (n', map InPool sent ++ [Spawn opening]) /\ ends_of_others k sent /\
    node_ok n' /\ waiting_task k opening n'.
Proof.
  intros k opening Hok Hp Hu Ht He Hd.
  destruct (process_new open p (payload pkg) (paying_wallet pkg) Hu Hd) as (p1 & sent & Ep & Hs & _ & _ & Hu1 & _ & Hk1).
  destruct (request_taken n pkg open p _ _ _ Hp He Ep) as (n' & E & Hp' & _ & Ht' & _). exists n', sent.
  split_and!; [exact E|done|by eapply exit_step_ok|]. split.
  - exists p1. rewrite Hk1. split_and!; [done..|apply not_elem_of_nil].
  - rewrite Ht', filter_app, filter_none by done. cbn [app]. apply filter_singleton_True; [exact []|].
    unfold opening, ExitPool.make_stream_with_key. by repeat case_match.
Qed.

Lemma waits k t n tr n' : waiting_task k t n -> node_ok n -> runs (elsewhere k) n tr n' -> waiting_task k t n' /\ node_ok n'.
Proof.
  intros Hw Hok Hr. apply (runs_keep (elsewhere k) (fun n => waiting_task k t n /\ node_ok n) (fun _ => True)) with (1 := fun n ev n' es H Ha E =>
    conj (conj (elsewhere_step k t n ev n' es (proj1 H) Ha E) (proj1 (exit_step_ok n ev n' es (proj2 H) E))) I) in Hr; tauto.
Qed.

Lemma stays_alive k s n tr n' :
  alive k s n -> node_ok n -> runs (ordinary k (ExitPool.channel s)) n tr n' ->
  alive k s n' /\ node_ok n' /\ Forall (served k (ExitPool.channel s)) tr.
Proof.
  intros Ha Hok Hr. destruct (runs_keep (ordinary k (ExitPool.channel s)) (fun n => alive k s n /\ node_ok n)
    (served k (ExitPool.channel s))) with (2 := Hr) as [[H1 H2] H3]; [|done..]. intros m ev m' es [Hm1 Hm2] Hord E.
  destruct (ordinary_step k s m ev m' es Hm2 Hm1 Hord E) as (A & B & _). split_and!; [done|by eapply exit_step_ok|done].
Qed.

(** The stream's last request has been queued, its task not yet run. *)
Record ending_stream (k : StreamKey) (s : ExitPool.Sender) (pl : ClientRequestPayload) (w : option Wallet) (n : ExitNode) : Prop := {
  ending_ok : node_ok n;
  ending_alive : alive k s n;
  ending_settled : forall p, pool (client n) = Some p -> settled p k;
  ending_task : ExitPool.TendTask pl w ∈ tasks n
}.

Lemma last_request k s n pkg open :
  alive k s n -> node_ok n -> request_stream_key (payload pkg) = k ->
  entitled (client n) (originator_public_key (payload pkg)) (paying_wallet pkg) -> open (ExitPool.channel s) = true ->
  exists n' es, exit_step n (Request pkg open) = Ret (n', es) /\ served k (ExitPool.channel s) (n, Request pkg open, es) /\
    ending_stream k s (payload pkg) (paying_wallet pkg) n'.
Proof.
  intros [(p & Hp & Hh) Ht] Hok Hk He Ho. rewrite <- Hk in Hh.
  destruct (process_own open p (payload pkg) (paying_wallet pkg) s Hh Ho) as (p' & sent & Ep & Hs & Hh' & Hset).
  destruct (request_taken n pkg open p _ _ _ Hp He Ep) as (n' & E & Hp' & _ & Ht' & _). eexists n', _. rewrite Hk in *.
  split; [exact E|]. split; [cbn [served]; rewrite decide_True by done; by exists sent|].
  split; [by eapply exit_step_ok| | |].
  - split; [by exists p'|]. rewrite Ht'. apply (Forall_spawn _ _ (Some _)); [done|]. intros _. by eexists _, _.
  - intros q Hq. rewrite Hp' in Hq. by injection Hq as <-.
  - rewrite Ht'. apply elem_of_app. right. by left.
Qed.

Lemma keeps_ending k s pl w n tr n' :
  last_data (request_packet pl) = true -> request_stream_key pl = k ->
  ending_stream k s pl w n -> runs (ordinary k (ExitPool.channel s)) n tr n' ->
  ending_stream k s pl w n' /\ Forall (served k (ExitPool.channel s)) tr.
Proof.
  intros Hl Hk Hend Hr. eapply runs_keep with (2 := Hr); [|done]. clear n tr n' Hend Hr.
  intros n ev n' es [Hok Ha Hset Ht] Hord E. destruct (ordinary_step k s n ev n' es Hok Ha Hord E) as (A & B & C).
  pose proof Ha as [(p & Hp & _) _]. split; [|done]. split; [by eapply exit_step_ok|done|by eauto|].
  eapply task_stays; [by rewrite Hp|done..|]. intros i o c l f -> Hi. destruct Hord as [_ Hord].
  rewrite (Hord pl w Hi Hk) in Hl. done.
Qed.

Lemma stream_ends k s pl w n :
  ending_stream k s pl w n -> last_data (request_packet pl) = true -> request_stream_key pl = k ->
  exists j, tasks n !! j = Some (ExitPool.TendTask pl w) /\
    forall open connects lookup fresh, exists n' p',
      exit_step n (RunTask j open connects lookup fresh) =
        Ret (n', map InPool (map ExitPool.ToAccountant (service_charge (client n) w pl))) /\
      pool (client n') = Some p' /\ unknown p' k.
Proof.
  intros [Hok [(p & Hp & Hh) _] Hset Ht] Hl Hk. apply list_elem_of_lookup in Ht as [j Hj]. exists j. split; [done|].
  intros open connects lookup fresh. cbn [exit_step]. rewrite Hj, Hp. cbn [ExitPool.run_task].
  rewrite tend_charges, Hl, Hk, (node_charge n p w pl Hok Hp). eexists _, _. split; [reflexivity|]. split; [reflexivity|].
  split; [apply lookup_delete_eq|exact (Hset p Hp)].
Qed.
End requests.

(** What goes to the writer at channel [ch], and the packets of stream [k] that come to the Node *)
Definition queued_to (ch : Z) (e : client_effect) : option SequencedPacket :=
  match e with InPool (ExitPool.Queue c p) => if decide (c = ch) then Some p else None | _ => None end.

Definition queued_on (ch : Z) (tr : list (ExitNode * event * list client_effect)) : list SequencedPacket :=
  concat (map (fun x => omap (queued_to ch) x.2) tr).

Definition packet_of (k : StreamKey) (ev : event) : list SequencedPacket :=
  match ev with
  | Request pkg _ => if decide (request_stream_key (payload pkg) = k) then [request_packet (payload pkg)] else []
  | _ => []
  end.

Definition packets_of (k : StreamKey) (tr : list (ExitNode * event * list client_effect)) : list SequencedPacket :=
  concat (map (fun x => packet_of k x.1.2) tr).

Lemma aside_queues_nothing k ch es : aside k ch es -> omap (queued_to ch) es = [].
Proof.
  induction 1 as [|e es He _ IH]; [done|]. cbn. rewrite IH. destruct e as [p|r|[]|t]; try done. cbn in *. by rewrite decide_False.
Qed.

Lemma charges_queue_nothing ch rs : omap (queued_to ch) (map InPool (map ExitPool.ToAccountant rs)) = [].
Proof. by induction rs. Qed.

Lemma served_queue k ch tr : Forall (served k ch) tr -> queued_on ch tr = packets_of k tr.
Proof.
  unfold queued_on, packets_of. induction 1 as [|[[n ev] es] tr Hs _ IH]; [done|]. cbn [map concat snd fst]. rewrite IH. f_equal.
  destruct ev as [pkg open|i open connects lookup fresh| |m|k']; cbn [served packet_of] in *;
    try by apply (aside_queues_nothing k ch).
  - destruct (decide (request_stream_key (payload pkg) = k)); [|by apply (aside_queues_nothing k ch)].
    destruct Hs as (sent & He & ->). rewrite map_app, !omap_app, (aside_queues_nothing k ch _ (ends_aside k ch sent He)).
    cbn. by rewrite decide_True.
  - destruct (tasks n !! i) as [[pl w| | | |]|]; try by apply (aside_queues_nothing k ch).
    destruct (decide (request_stream_key pl = k)); [|by apply (aside_queues_nothing k ch)].
    rewrite Hs. apply charges_queue_nothing.
Qed.

Lemma exit_writer_writes wakes all :
  Forall (fun k => Forall packet_ok (Sorted.received k)) wakes ->
  content (first_of (concat (map Sorted.received wakes))) 0 all ->
  exists w written a, ExitWriter.run ExitWriter.new wakes = Ret (w, written, a) /\ written `prefix_of` all.
Proof.
  intros Hok Hall. destruct (run_from_new wakes all Hok Hall) as (w & written & a & E & Hp & _).
  change Sorted.new with (as_sorted ExitWriter.new) in E. rewrite same_run in E.
  apply obind_ret_inv in E as ([[w' out] a'] & E & [= _ <- <-]). by exists w', out, a'.
Qed.

(** ** The answers of a server *)
(** The data of one poll, and whether the stream ended in it *)
Fixpoint heard (reads : list ExitReader.read_result) : list bytes * bool :=
  match reads with
  | [] | ExitReader.ReadNotReady :: _ => ([], false)
  | ExitReader.Got [] :: _ | ExitReader.ReadDead :: _ => ([], true)
  | ExitReader.Got d :: reads' => let (ds, e) := heard reads' in (d :: ds, e)
  | ExitReader.ReadError :: reads' => heard reads'
  end.

Fixpoint heard_all (wakes : list (list ExitReader.read_result)) : list bytes * bool :=
  match wakes with
  | [] => ([], false)
  | reads :: wakes' =>
      let (ds, e) := heard reads in
      if e then (ds, true) else let (ds', e') := heard_all wakes' in (ds ++ ds', e')
  end.

Fixpoint numbered (k : StreamKey) (a : SocketAddr) (i : Z) (ds : list bytes) : list InboundServerData :=
  match ds with
  | [] => []
  | d :: ds' => mkInboundServerData k false i a d :: numbered k a (i + 1) ds'
  end.

Lemma numbered_length k a i ds : length (numbered k a i ds) = length ds.
Proof. revert i. induction ds; intros i; cbn; auto. Qed.

Definition ending (k : StreamKey) (n : Z) (ended : bool) : list (StreamKey * Z) := if ended then [(k, n)] else [].

Lemma reader_polls k a i reads ds e :
  0 <= i -> heard reads = (ds, e) -> i + Z.of_nat (length ds) < 2 ^ 64 ->
  exists self' st, ExitReader.poll (ExitReader.mk k a i) reads =
      (self', numbered k a i ds, ending k (i + Z.of_nat (length ds)) e, st) /\
    (e = false -> self' = ExitReader.mk k a (i + Z.of_nat (length ds)) /\ st = NotReady) /\ (e = true -> st <> NotReady).
Proof.
  revert i ds. induction reads as [|r reads IH]; intros i ds Hi; cbn [heard].
  - intros [= <- <-] _. eexists _, _. split_and!; [done| |done]. intros _. by rewrite Z.add_0_r.
  - destruct r as [|[|b d]| |]; cbn [ExitReader.poll].
    + intros [= <- <-] _. eexists _, _. split_and!; [done| |done]. intros _. by rewrite Z.add_0_r.
    + intros [= <- <-] _. eexists _, _. split; [cbn; by rewrite Z.add_0_r|done].
    + destruct (heard reads) as [ds' e']. intros [= <- <-] Hlt. cbn [length] in Hlt.
      unfold ExitReader.send_inbound_server_data, next_sequence_number.
      cbn [ExitReader.sequencer ExitReader.stream_key ExitReader.peer_addr]. rewrite wrap_small by (unfold uint; lia).
      destruct (IH (i + 1) ds' ltac:(lia) eq_refl ltac:(lia)) as (self' & st & -> & Hf & Ht). cbn [numbered length].
      replace (i + Z.of_nat (S (length ds'))) with (i + 1 + Z.of_nat (length ds')) by lia. eexists _, _. split_and!; done.
    + intros [= <- <-] _. eexists _, _. split; [cbn; by rewrite Z.add_0_r|done].
    + apply IH; lia.
Qed.

Lemma numbered_app k a i ds ds' :
  numbered k a i (ds ++ ds') = numbered k a i ds ++ numbered k a (i + Z.of_nat (length ds)) ds'.
Proof.
  revert i. induction ds as [|d ds IH]; intros i; cbn [numbered app length]; [by rewrite Z.add_0_r|].
  rewrite IH. do 3 f_equal. lia.
Qed.

Lemma reader_runs k a i wakes ds e :
  0 <= i -> heard_all wakes = (ds, e) -> i + Z.of_nat (length ds) < 2 ^ 64 ->
  exists self' st, ExitReader.run (ExitReader.mk k a i) wakes =
    (self', numbered k a i ds, ending k (i + Z.of_nat (length ds)) e, st).
Proof.
  revert i ds. induction wakes as [|reads wakes IH]; intros i ds Hi; cbn [heard_all ExitReader.run].
  - intros [= <- <-] _. by eexists _, _.
  - destruct (heard reads) as [ds1 e1] eqn:E1. destruct e1.
    + intros [= <- <-] Hlt. destruct (reader_polls k a i reads ds1 true Hi E1 Hlt) as (self' & st & -> & _ & Ht).
      eexists _, _. by destruct st; [destruct (Ht eq_refl)|..].
    + destruct (heard_all wakes) as [ds' e'] eqn:E2. intros [= <- <-] Hlt. rewrite length_app in Hlt |- *.
      destruct (reader_polls k a i reads ds1 false Hi E1 ltac:(lia)) as (self' & st & -> & Hf & _).
      destruct (Hf eq_refl) as [-> ->]. destruct (IH (i + Z.of_nat (length ds1)) ds' ltac:(lia) eq_refl ltac:(lia)) as (self'' & st & ->).
      eexists _, _. rewrite numbered_app, Nat2Z.inj_add, Z.add_assoc. done.
Qed.

(** The packets of a server's answer [ds] *)
Definition packet_at (i : nat) (d : bytes) : SequencedPacket := mkSequencedPacket d (Z.of_nat i) false.
Definition last_packet (n : nat) : SequencedPacket := mkSequencedPacket [] (Z.of_nat n) true.
Definition stream_packets (ds : list bytes) : list SequencedPacket := imap packet_at ds ++ [last_packet (length ds)].

Lemma elem_of_stream p ds :
  p ∈ stream_packets ds <-> (exists i d, ds !! i = Some d /\ p = packet_at i d) \/ p = last_packet (length ds).
Proof.
  unfold stream_packets. rewrite elem_of_app, list_elem_of_singleton, elem_of_lookup_imap. naive_solver.
Qed.

Lemma keep_first_lookup ps m n p :
  fold_left keep_first ps m !! n = Some p -> m !! n = Some p \/ (p ∈ ps /\ sequence_number p = n).
Proof.
  revert m. induction ps as [|q ps IH]; intros m; [by left|]. cbn [fold_left]. intros [H|[H1 H2]]%IH.
  - unfold keep_first in H. case_bool_decide; [|by left]. apply lookup_insert_Some in H as [[<- <-]|[_ H]]; [|by left].
    right. split; [apply list_elem_of_here|done].
  - right. split; [by apply list_elem_of_further|done].
Qed.

Lemma keep_first_present ps m p :
  p ∈ ps -> exists q, fold_left keep_first ps m !! sequence_number p = Some q.
Proof.
  revert m. induction ps as [|q ps IH]; intros m Hp; [by apply not_elem_of_nil in Hp|]. cbn [fold_left].
  apply elem_of_cons in Hp as [->|Hp]; [|by apply IH].
  assert (exists x, keep_first m q !! sequence_number q = Some x) as [x Hx].
  { unfold keep_first. case_bool_decide as E; [rewrite lookup_insert_eq; eauto|]. destruct (m !! sequence_number q); eauto; done. }
  exists x. by eapply lookup_weaken, fold_keep_first_mono.
Qed.

(** Any packets of an answer, in any order, hold a beginning of it; all of them but the empty last hold all of it. *)
Lemma stream_content ds ps :
  Forall (fun p => p ∈ stream_packets ds) ps ->
  exists all, content (first_of ps) 0 all /\ all `prefix_of` concat ds /\
    ((forall p, p ∈ imap packet_at ds -> p ∈ ps) -> all = concat ds).
Proof.
  intros Hps. rewrite Forall_forall in Hps.
  assert (Hat : forall i p, first_of ps !! Z.of_nat i = Some p ->
            (exists d, ds !! i = Some d /\ p = packet_at i d) \/ i = length ds /\ p = last_packet i).
  { intros i p [H|[Hin Hn]]%keep_first_lookup; [done|]. apply Hps, elem_of_stream in Hin as [(j & d & Hd & ->)| ->];
      cbn in Hn; apply Nat2Z.inj in Hn as ->; [left; eauto|by right]. }
  assert (Hgo : forall ds' i, ds = take i ds ++ ds' -> (i + length ds' = length ds)%nat ->
            exists all, content (first_of ps) (Z.of_nat i) all /\ all `prefix_of` concat ds' /\
              ((forall p, p ∈ imap packet_at ds -> p ∈ ps) -> all = concat ds')).
  { induction ds' as [|d ds' IH]; intros i Hds Hlen; cbn [length] in Hlen.
    - exists []. split_and!; [|done|done]. destruct (first_of ps !! Z.of_nat i) as [p|] eqn:Ep; [|by apply content_gap].
      destruct (Hat i p Ep) as [(d & Hd & _)|[_ ->]]; [apply lookup_lt_Some in Hd; lia|].
      by apply (content_last _ _ (last_packet i)).
    - assert (Hd : ds !! i = Some d).
      { rewrite Hds, lookup_app_r; rewrite length_take_le by lia; [|lia]. by rewrite Nat.sub_diag. }
      destruct (first_of ps !! Z.of_nat i) as [p|] eqn:Ep.
      + destruct (Hat i p Ep) as [(d' & Hd' & ->)|[-> _]]; [|lia]. assert (d' = d) as -> by congruence.
        destruct (IH (S i)) as (all & Hc & Hpre & Hall); [|lia|].
        { rewrite (take_S_r ds i d Hd), <- app_assoc. exact Hds. }
        exists (d ++ all). split_and!.
        * apply (content_more _ _ (packet_at i d)); [done|done|]. by replace (Z.of_nat i + 1) with (Z.of_nat (S i)) by lia.
        * by apply prefix_app.
        * intros Hcomplete. cbn [concat]. by rewrite (Hall Hcomplete).
      + exists []. split_and!; [by apply content_gap|apply prefix_nil|]. intros Hcomplete. exfalso.
        destruct (keep_first_present ps ∅ (packet_at i d)) as [q Hq].
        { apply Hcomplete, elem_of_lookup_imap. eauto. }
        unfold first_of in Ep. cbn [packet_at sequence_number] in Hq. congruence. }
  by apply (Hgo ds 0%nat).
Qed.

(** What a client gets of an answer *)
Lemma answer_written ds wakes :
  Z.of_nat (length ds) < 2 ^ 64 - 1 -> (forall q, q ∈ concat (map Sorted.received wakes) -> q ∈ stream_packets ds) ->
  exists w written a, Sorted.run Sorted.new wakes = Ret (w, written, a) /\ written `prefix_of` concat ds /\
    ((forall q, q ∈ imap packet_at ds -> q ∈ concat (map Sorted.received wakes)) -> a = NotReady ->
     written = concat ds \/
     exists rest, content (waiting (abs (Sorted.sequence_buffer w))) (next (abs (Sorted.sequence_buffer w))) rest /\
       concat ds = written ++ rest).
Proof.
  intros Hlen Hin. destruct (stream_content ds (concat (map Sorted.received wakes))) as (all & Hall & Hpre & Hcomplete).
  { by apply Forall_forall. }
  destruct (run_from_new wakes all) as (w & written & a & E & Hwp & _ & Hn); [|done|].
  { apply every_received. apply Forall_forall. intros q Hq%Hin%elem_of_stream. unfold packet_ok.
    destruct Hq as [(i & d & Hd%lookup_lt_Some & ->)| ->]; cbn; lia. }
  exists w, written, a. split_and!; [done|by etrans|]. intros Hev Ea. rewrite <- (Hcomplete Hev).
  destruct (on_course_rest _ _ _ _ (Hn Ea) Hall) as [[_ ->]|Hrest]; [by left|by right].
Qed.

Section answers.
Context `{!Serde MessageType} {good} `{!SerdeOk MessageType good}.

Fixpoint exit_run (s : ExitNode) (evs : list event) : outcome (ExitNode * list client_effect) :=
  match evs with
  | [] => Ret (s, [])
  | ev :: evs' =>
      let* (s1, es) := exit_step s ev in
      let* (s2, es') := exit_run s1 evs' in
      Ret (s2, es ++ es')
  end.

Lemma exit_run_app s evs evs' s1 es1 s2 es2 :
  exit_run s evs = Ret (s1, es1) -> exit_run s1 evs' = Ret (s2, es2) -> exit_run s (evs ++ evs') = Ret (s2, es1 ++ es2).
Proof.
  revert s es1. induction evs as [|ev evs IH]; intros s es1; cbn [exit_run app].
  - by intros [= <- <-] ->.
  - intros ([s' e] & -> & ([s'' e'] & E & [= <- <-])%obind_ret_inv)%obind_ret_inv E2. cbn [obind].
    rewrite (IH s' e' E E2). cbn [obind]. by rewrite app_assoc.
Qed.

(** The Node of origin [o] finds packet [q] of stream [k] in a package, sent on route [r]. *)
Definition carries (o : CryptDE) (r : Route) (k : StreamKey) (pkg : IncipientCoresPackage) (q : SequencedPacket) : Prop :=
  ic_route pkg = r /\ decodex o (ic_payload pkg) = Ok (ClientResponse (mkClientResponsePayload VERSION_0_0 k q)).

Lemma answer_sent c p o x m :
  pool c = Some p -> stream_contexts c !! isd_stream_key m = Some x -> payload_destination_key x = public_key o ->
  CryptPair (pc_cryptde c) o -> good (ClientResponse (client_response m)) ->
  exists pkg, handle_inbound_server_data c m =
      Ret (if isd_last_data m then with_contexts (delete (isd_stream_key m) (stream_contexts c)) c else c,
           PackageToHopper pkg :: map ReportToAccountant (charge c (context_wallet x) (length (isd_data m)))) /\
    carries o (return_route x) (isd_stream_key m) pkg (mkSequencedPacket (isd_data m) (isd_sequence_number m) (isd_last_data m)).
Proof.
  intros Hp Hx Hk Hpair Hg. destruct (incipient_decodes (pc_cryptde c) o (return_route x) _ (payload_destination_key x)
    (conj (eq_sym Hk) Hpair) Hg) as (pc & Ei & Ed).
  exists (mkIncipient (return_route x) pc). split; [|done]. unfold handle_inbound_server_data, send_response_to_hopper,
    report_response_exit_to_accountant. rewrite Hx, Ei, Hp. cbn [expect obind]. by destruct (context_wallet x).
Qed.

Lemma settle_answer c ts mb pkg rs : settle c ts mb (PackageToHopper pkg :: map ReportToAccountant rs) = mkExitNode c ts mb.
Proof.
  destruct (charges_quiet rs) as (_ & _ & _ & Q4 & Q5). unfold settle. cbn. by rewrite Q4, Q5, !app_nil_r.
Qed.

Lemma sends_arrive s ms :
  exit_run s (map ReaderSends ms) = Ret (mkExitNode (client s) (tasks s) (mailbox s ++ map ServerData ms), []).
Proof.
  revert s. induction ms as [|m ms IH]; intros s; cbn [map exit_run].
  - rewrite app_nil_r. by destruct s.
  - cbn [exit_step obind]. rewrite IH. cbn. by rewrite <- app_assoc.
Qed.

Lemma answers_sent c ts mb p o x k a i ds :
  pool c = Some p -> stream_contexts c !! k = Some x -> payload_destination_key x = public_key o ->
  CryptPair (pc_cryptde c) o -> (forall r, good (ClientResponse r)) ->
  exists es, exit_run (mkExitNode c ts (map ServerData (numbered k a i ds) ++ mb)) (replicate (length ds) Deliver) =
      Ret (mkExitNode c ts mb, es) /\
    Forall2 (carries o (return_route x) k) (omap packaged es) (imap (fun j d => mkSequencedPacket d (i + Z.of_nat j) false) ds) /\
    omap reported es = concat (map (fun d => charge c (context_wallet x) (length d)) ds).
Proof.
  intros Hp Hx Hk Hpair Hg. revert i. induction ds as [|d ds IH]; intros i; cbn [numbered map length replicate exit_run app].
  - exists []. done.
  - cbn [exit_step mailbox client tasks deliver].
    destruct (answer_sent c p o x (mkInboundServerData k false i a d) Hp Hx Hk Hpair (Hg _)) as (pkg & -> & Hc).
    cbn [isd_last_data isd_stream_key isd_data isd_sequence_number obind] in *. rewrite settle_answer.
    destruct (IH (i + 1)) as (es & -> & Hpk & Hre). cbn [obind].
    destruct (charges_quiet (charge c (context_wallet x) (length d))) as (_ & Q2 & Q3 & _).
    eexists. split_and!; [done| |].
    + cbn. rewrite omap_app, Q3. cbn [app]. constructor; [by rewrite Z.add_0_r|].
      erewrite imap_ext; [exact Hpk|]. intros j d' _. cbn. f_equal. lia.
    + cbn. by rewrite omap_app, Q2, Hre.
Qed.

Lemma process_sends open p pl w p' sent t :
  ExitPool.process_package open p pl w = (p', sent, t) ->
  omap to_mailbox (map InPool sent) = omap to_mailbox (map InPool (ExitPool.do_housekeeping p).2).
Proof.
  unfold ExitPool.process_package. destruct (ExitPool.do_housekeeping p) as [p1 out].
  destruct (_ !! _); [unfold ExitPool.perform_write; destruct (open _)|]; intros [= <- <- <-]; [|done..].
  rewrite map_app, omap_app. cbn. by rewrite app_nil_r.
Qed.

Lemma kill_known p k n s :
  ExitPool.stream_writer_channels p !! k = Some s -> settled p k -> ExitPool.stream_killer_rx p = [] ->
  let r := ExitPool.do_housekeeping (ExitPool.kill (k, n) p) in
  unknown r.1 k /\ r.2 = [ExitPool.ToProxyClient (mkInboundServerData k true n (ExitPool.peer_addr s) [])].
Proof.
  intros Hs Ha Hk. cbn zeta. unfold ExitPool.do_housekeeping, ExitPool.clean_up_dead_streams. cbn. rewrite Hk. cbn. rewrite Hs.
  cbn. split; [|done]. split; [|apply not_elem_of_nil]. apply put_all_unknown; [apply lookup_delete_eq|exact Ha].
Qed.

(** The end of a known stream is passed on with the next request, of another stream. *)
Lemma end_reported c ts p k n s pkg open :
  pool c = Some p -> ExitPool.stream_writer_channels p !! k = Some s -> settled p k ->
  ExitPool.stream_killer_rx p = [] -> entitled c (originator_public_key (payload pkg)) (paying_wallet pkg) ->
  exists c' ts' p' es,
    exit_run (mkExitNode c ts []) [ReaderKills (k, n); Request pkg open] =
      Ret (mkExitNode c' ts' [ServerData (mkInboundServerData k true n (ExitPool.peer_addr s) [])], es) /\
    omap packaged es = [] /\ omap reported es = [] /\ same_terms c c' /\ pool c' = Some p' /\ unknown p' k /\
    stream_contexts c' = <[request_stream_key (payload pkg) :=
      mkStreamContext (remaining_route pkg) (originator_public_key (payload pkg)) (paying_wallet pkg)]> (stream_contexts c).
Proof.
  intros Hp Hs Ha Hk He. destruct (kill_known p k n s Hs Ha Hk) as [Hu Hsent].
  set (n1 := mkExitNode (with_pool (ExitPool.kill (k, n) p) c) ts []).
  destruct (ExitPool.process_package open (ExitPool.kill (k, n) p) (payload pkg) (paying_wallet pkg)) as [[p' sent] t] eqn:Ep.
  destruct (request_taken n1 pkg open _ _ _ _ eq_refl He Ep) as ([c' ts' mb] & E & Hp' & Hsame & _ & Hmb & Hc).
  cbn [client mailbox] in *. pose proof (process_pool open (ExitPool.kill (k, n) p) (payload pkg) (paying_wallet pkg)) as Epp.
  rewrite Ep in Epp. cbn in Epp. rewrite (process_sends _ _ _ _ _ _ _ Ep), Hsent in Hmb.
  destruct (in_pool_quiet sent) as [_ Q]. destruct (process_effects _ _ _ _ _ _ _ Ep) as (_ & Q' & _).
  eexists c', ts', p', _. cbn [exit_run]. change (exit_step _ (ReaderKills (k, n))) with
    (match pool c with Some p => Ret (mkExitNode (with_pool (ExitPool.kill (k, n) p) c) ts [], []) | None => Ret (mkExitNode c ts [], []) end
      : outcome (ExitNode * list client_effect)). rewrite Hp. cbn [obind]. fold n1. rewrite E. cbn [obind]. rewrite Hmb.
  split_and!; [reflexivity| | |done|done|by rewrite Epp|done]; rewrite !omap_app, ?Q, ?Q'; by destruct t.
Qed.
End answers.

(** ** Properties *)

(** C11: whatever happens to an exit Node, what it does for others is paid for: a packet goes to a server only if
    it is charged to the wallet that pays for the request, by the number of its bytes, or if the request is
    the Node's own; the charge comes in the same step, or from a task spawned in the same step, which stays until it
    is run and always charges. A server's answer goes back only under the same condition, charged to the wallet of the
    stream's latest request. Nothing is charged otherwise, and a request without a paying wallet that
    comes from elsewhere is dropped. *)
Theorem exit_services_are_paid_for `{!Serde MessageType} (s s' : ExitNode) (ev : event) (es : list client_effect) :
  reachable s -> exit_step s ev = Ret (s', es) ->
  charged_for s ev es /\ tasks s' = tasks_after s ev es /\
  forall pkg open, ev = Request pkg open -> paying_wallet pkg = None ->
    originator_public_key (payload pkg) <> public_key (pc_cryptde (client s)) -> s' = s /\ es = [].
Proof.
  intros Hr E. apply reachable_ok in Hr. split_and!; [by eapply exit_step_ok| |].
  - apply step_tasks; [done|]. intros Hn. destruct (node_bound s Hr). congruence.
  - intros pkg open -> Hw Ho. rewrite request_dropped in E; [by injection E as <- <-|]. rewrite Hw. by intros [[w [=]]|].
Qed.

(** *** Concrete values for evaluation *)
Definition toy_world : world := mkWorld (fun _ => true) (fun _ => true) (fun _ => Some [V4 9 9 9 9]) 1.
Definition toy_stream (n : Z) : StreamKey := mkStreamKey [n].
Definition toy_request (n i : Z) (last : bool) : ClientRequestPayload :=
  mkClientRequestPayload VERSION_0_0 (toy_stream n) (mkSequencedPacket [7; i] i last) (Some (lit "a.b")) 80 HTTP key_b.
Definition toy_package (n i : Z) : ExpiredCoresPackage ClientRequestPayload :=
  mkExpired (mkSocketAddr (V4 1 2 3 4) 5) (Some (mkWallet (Address [2]))) (mkRoute [mkCryptData [3]]) (toy_request n i false) 10.
Definition toy_exit : ProxyClient :=
  client_handle_bind (mkProxyClient [mkSocketAddr (V4 1 1 1 1) 53] (toy_net key_a) None ∅ 5 1).

Lemma exit_services_are_paid_for_witness :
  charged_for (mkExitNode toy_exit [] []) (Request (toy_package 1 0) (fun _ => true))
    [Spawn (ExitPool.LookupTask (lit "a.b.") (toy_request 1 0 false) (Some (mkWallet (Address [2]))))].
Proof.
  refine (proj1 (@exit_services_are_paid_for (countable_serde MessageType) (mkExitNode toy_exit [] []) _
    (Request (toy_package 1 0) (fun _ => true)) _ _ _)).
  - eapply (reachable_start (toy_net key_a) [mkSocketAddr (V4 1 1 1 1) 53] 5 1). reflexivity.
  - reflexivity.
Defined.

(** C10: a server's answers get back, from socket to socket. Whatever a server sends on an open stream until it closes
    it, however it is read and also if reading fails in between, becomes packets numbered from zero that go to the
    Hopper on the return route of the stream's latest request, encrypted for the Node it came from, each charged
    once; the end follows with the next request of any other stream, and then nothing about this stream
    is left. From any of these packets, in any order and repeated, the writer towards the client writes a
    beginning of what the server sent; from all of them, it has written the whole or still holds the rest. *)
Theorem answers_get_back `{!Serde MessageType} {good} `{!SerdeOk MessageType good} (c : ProxyClient) (ts : list ExitPool.task)
    (p : ExitPool.StreamHandlerPool) (k : StreamKey) (s : ExitPool.Sender) (x : StreamContext) (o : CryptDE)
    (reads : list (list ExitReader.read_result)) (ds : list bytes) (pkg : ExpiredCoresPackage ClientRequestPayload)
    (open : Z -> bool) :
  pool c = Some p -> ExitPool.stream_writer_channels p !! k = Some s -> k ∉ (ExitPool.stream_adder_rx p).*1 ->
  ExitPool.stream_killer_rx p = [] -> stream_contexts c !! k = Some x -> payload_destination_key x = public_key o ->
  CryptPair (pc_cryptde c) o -> (forall r, good (ClientResponse r)) -> heard_all reads = (ds, true) ->
  Z.of_nat (length ds) < 2 ^ 64 - 1 -> entitled c (originator_public_key (payload pkg)) (paying_wallet pkg) ->
  request_stream_key (payload pkg) <> k ->
  exists r st ms kn s' es,
    ExitReader.run (ExitReader.new k (ExitPool.peer_addr s)) reads = (r, ms, [kn], st) /\
    exit_run (mkExitNode c ts []) (map ReaderSends ms ++ replicate (length ms) Deliver ++ [ReaderKills kn; Request pkg open] ++ [Deliver])
      = Ret (s', es) /\
    Forall2 (carries o (return_route x) k) (omap packaged es) (stream_packets ds) /\
    omap reported es = concat (map (fun d => charge c (context_wallet x) (length d)) (ds ++ [[]])) /\
    stream_contexts (client s') !! k = None /\ (exists p', pool (client s') = Some p' /\ unknown p' k) /\
    forall wakes, (forall q, q ∈ concat (map Sorted.received wakes) -> q ∈ stream_packets ds) ->
      exists w written a, Sorted.run Sorted.new wakes = Ret (w, written, a) /\ written `prefix_of` concat ds /\
        ((forall q, q ∈ stream_packets ds -> q ∈ concat (map Sorted.received wakes)) -> a = NotReady ->
         written = concat ds \/
         exists rest, content (waiting (abs (Sorted.sequence_buffer w))) (next (abs (Sorted.sequence_buffer w))) rest /\
           concat ds = written ++ rest).
Proof.
  intros Hp Hs Ha Hk Hx Ho Hpair Hg Hheard Hlen He Hne.
  destruct (reader_runs k (ExitPool.peer_addr s) 0 reads ds true ltac:(lia) Hheard ltac:(lia)) as (r & st & Er).
  destruct (answers_sent c ts [] p o x k (ExitPool.peer_addr s) 0 ds Hp Hx Ho Hpair Hg) as (es1 & E1 & Hpk1 & Hre1).
  destruct (end_reported c ts p k (Z.of_nat (length ds)) s pkg open Hp Hs Ha Hk He)
    as (c' & ts' & p' & es2 & E2 & Hpk2 & Hre2 & (T1 & T2 & T3) & Hp' & Hu & Hc').
  destruct (answer_sent (good := good) c' p' o x (mkInboundServerData k true (Z.of_nat (length ds)) (ExitPool.peer_addr s) []))
    as (pkg3 & E3 & Hcar); [done|by rewrite Hc', lookup_insert_ne|done|by rewrite T1|apply Hg|].
  destruct (charges_quiet (charge c' (context_wallet x) 0)) as (_ & Q2 & Q3 & _).
  eexists r, st, _, _, _, _. split_and!; [exact Er|..].
  - eapply exit_run_app; [apply sends_arrive|]. eapply exit_run_app.
    + rewrite numbered_length. cbn [mailbox client tasks app] in *. rewrite app_nil_r in E1. exact E1.
    + eapply exit_run_app; [exact E2|]. cbn [exit_run exit_step mailbox client tasks deliver]. rewrite E3. cbn [obind].
      rewrite settle_answer. reflexivity.
  - cbn [isd_data length app]. rewrite !omap_app, Hpk2. cbn. rewrite omap_app, Q3. unfold stream_packets.
    apply Forall2_app; [exact Hpk1|]. constructor; [exact Hcar|constructor].
  - cbn [isd_data length app]. rewrite !omap_app, Hre1, Hre2. cbn. rewrite omap_app, Q2, map_app, concat_app. cbn.
    rewrite !app_nil_r. unfold charge. by rewrite T2, T3.
  - cbn. apply lookup_delete_eq.
  - by exists p'.
  - intros wakes Hin. destruct (answer_written ds wakes ltac:(lia) Hin) as (w & written & a & Ew & Hpre & Hall).
    exists w, written, a. split_and!; [done..|]. intros Hev. apply Hall. intros q Hq. apply Hev.
    unfold stream_packets. apply elem_of_app. by left.
Qed.

Definition toy_busy : ProxyClient :=
  mkProxyClient [mkSocketAddr (V4 1 1 1 1) 53] (toy_net key_a)
    (Some (ExitPool.mkPool {[toy_stream 1 := ExitPool.mkSender 1 (mkSocketAddr (V4 9 9 9 9) 80)]} 5 1 [] []))
    {[toy_stream 1 := mkStreamContext (mkRoute [mkCryptData [3]]) key_b (Some (mkWallet (Address [2])))]} 5 1.

Definition toy_reads : list (list ExitReader.read_result) :=
  [[ExitReader.Got [1; 2]; ExitReader.ReadError; ExitReader.Got [3]]; []; [ExitReader.Got [4]; ExitReader.Got []]].

Lemma answers_get_back_witness :
  exists r st ms kn s' es,
    ExitReader.run (ExitReader.new (toy_stream 1) (mkSocketAddr (V4 9 9 9 9) 80)) toy_reads = (r, ms, [kn], st) /\
    @exit_run (countable_serde MessageType) (mkExitNode toy_busy [] [])
      (map ReaderSends ms ++ replicate (length ms) Deliver ++ [ReaderKills kn; Request (toy_package 2 0) (fun _ => true)] ++ [Deliver]) = Ret (s', es) /\
    stream_contexts (client s') !! toy_stream 1 = None.
Proof.
  destruct (@answers_get_back (countable_serde MessageType) (fun _ => True) (countable_serde_ok _ _) toy_busy []
    (ExitPool.mkPool {[toy_stream 1 := ExitPool.mkSender 1 (mkSocketAddr (V4 9 9 9 9) 80)]} 5 1 [] [])
    (toy_stream 1) (ExitPool.mkSender 1 (mkSocketAddr (V4 9 9 9 9) 80))
    (mkStreamContext (mkRoute [mkCryptData [3]]) key_b (Some (mkWallet (Address [2])))) (toy_net key_b) toy_reads
    [[1; 2]; [3]; [4]] (toy_package 2 0) (fun _ => true)) as (r & st & ms & kn & s' & es & E1 & E2 & _ & _ & E3 & _);
    try reflexivity; try done.
  - apply not_elem_of_nil.
  - solve_toy_pair.
  - left. by eexists.
  - exists r, st, ms, kn, s', es. split; [exact E1|]. split; [exact E2|exact E3].
Defined.

(** C12: the requests of a stream reach their server, in whatever order its requests and the tasks they spawn come
    among everything else an exit Node does. The first request (neither empty nor the last) spawns a task, which is there until it
    runs, however long its lookup takes. Then it opens a connection to the first of the host's addresses that
    accepts one, with a reader and a writer, and queues and charges its packet. Every further
    request is queued to that writer as it comes and charged by a task of its own; nothing else that
    happens concerns the stream or its writer. The last one is queued too, and when its task runs the pool
    forgets the stream. The writer gets just these packets, in the order in which they came, and
    writes them in the order of their numbers. Assumed: no other request of the stream comes before
    its connection is open, the server does not close it, the writer lives, and new channels are new. *)
Theorem requests_reach_their_server `{!Serde MessageType} (n0 : ExitNode) (p0 : ExitPool.StreamHandlerPool)
    (pkg : ExpiredCoresPackage ClientRequestPayload) (open0 : Z -> bool) (host : str) :
  let pl := payload pkg in
  let k := request_stream_key pl in
  let opening := ExitPool.make_stream_with_key pl (paying_wallet pkg) in
  reachable n0 -> pool (client n0) = Some p0 -> unknown p0 k -> Forall (fun t => task_stream t <> k) (tasks n0) ->
  entitled (client n0) (originator_public_key pl) (paying_wallet pkg) -> data (request_packet pl) <> [] ->
  last_data (request_packet pl) = false -> target_hostname pl = Some host ->
  exists n1 sent, exit_step n0 (Request pkg open0) = Ret (n1, map InPool sent ++ [Spawn opening]) /\ ends_of_others k sent /\
  forall before n2, runs (elsewhere k) n1 before n2 ->
  exists p2 i, pool (client n2) = Some p2 /\ tasks n2 !! i = Some opening /\
  forall x ips peer, addresses x host = Some ips -> ExitPool.connect_one (connects x) ips (target_port pl) = Some peer ->
    let ch := fresh x in
    is_open x ch = true -> (forall k' s, known_sender p2 k' s -> ExitPool.channel s <> ch) ->
  exists n3 es3, exit_step n2 (RunTask i (is_open x) (connects x) (lookup_ip x) ch) = Ret (n3, es3) /\
    es3 = map InPool ([ExitPool.SpawnReader k peer; ExitPool.SpawnWriter ch k peer; ExitPool.Queue ch (request_packet pl)] ++
                      map ExitPool.ToAccountant (service_charge (client n2) (paying_wallet pkg) pl)) /\
  forall during n4, runs (ordinary k ch) n3 during n4 -> Forall (served k ch) during /\
  forall pkg' open', request_stream_key (payload pkg') = k -> last_data (request_packet (payload pkg')) = true ->
    entitled (client n4) (originator_public_key (payload pkg')) (paying_wallet pkg') -> open' ch = true ->
  exists n5 es5, exit_step n4 (Request pkg' open') = Ret (n5, es5) /\ served k ch (n4, Request pkg' open', es5) /\
  forall after n6, runs (ordinary k ch) n5 after n6 -> Forall (served k ch) after /\
    (exists j, tasks n6 !! j = Some (ExitPool.TendTask (payload pkg') (paying_wallet pkg')) /\
       forall open connects lookup_ip fresh, exists n7 p7,
         exit_step n6 (RunTask j open connects lookup_ip fresh) =
           Ret (n7, map InPool (map ExitPool.ToAccountant (service_charge (client n6) (paying_wallet pkg') (payload pkg')))) /\
         pool (client n7) = Some p7 /\ unknown p7 k) /\
    let packets := [request_packet pl] ++ packets_of k during ++ [request_packet (payload pkg')] ++ packets_of k after in
    omap (queued_to ch) es3 ++ queued_on ch during ++ omap (queued_to ch) es5 ++ queued_on ch after = packets /\
    forall wakes all, concat (map Sorted.received wakes) = packets -> Forall packet_ok packets -> content (first_of packets) 0 all ->
      exists wr written a, ExitWriter.run ExitWriter.new wakes = Ret (wr, written, a) /\ written `prefix_of` all.
Proof.
  intros pl k opening Hr Hp Hu Ht He Hd Hl Hh. apply reachable_ok in Hr.
  destruct (first_request n0 p0 pkg open0 Hr Hp Hu Ht He Hd) as (n1 & sent & E1 & Hs & Hok1 & Hw1).
  exists n1, sent. split_and!; [done..|]. intros before n2 Hbefore.
  destruct (waits _ _ _ _ _ Hw1 Hok1 Hbefore) as [Hw2 Hok2]. pose proof Hw2 as [(p2 & Hp2 & _) Hf2].
  assert (opening ∈ tasks n2) as [i Hi]%list_elem_of_lookup.
  { assert (opening ∈ filter (fun t => task_stream t = k) (tasks n2)) as Hin by (unfold k, pl; rewrite Hf2; by left).
    by apply list_elem_of_filter in Hin as [_ ?]. }
  exists p2, i. split_and!; [done..|]. intros x ips peer Hips Hc ch Ho Hnew.
  destruct (opening_step n2 x p2 pl (paying_wallet pkg) host ips peer i Hok2 Hp2 Hw2 Hi Hh Hips Hc Ho Hl Hnew) as (n3 & E3 & Ha3 & _).
  eexists n3, _. split_and!; [exact E3|done|]. intros during n4 Hduring. set (s := ExitPool.mkSender (fresh x) peer) in *.
  destruct (stays_alive k s n3 during n4 Ha3) as (Ha4 & Hok4 & Hs4); [by eapply exit_step_ok|done|].
  split; [done|]. intros pkg' open' Hk' Hl' He' Ho'.
  destruct (last_request k s n4 pkg' open' Ha4 Hok4 Hk' He' Ho') as (n5 & es5 & E5 & Hs5 & Hend5).
  exists n5, es5. split_and!; [done..|]. intros after n6 Hafter.
  destruct (keeps_ending k s _ _ n5 after n6 Hl' Hk' Hend5 Hafter) as [Hend6 Hs6]. split_and!; [done|by apply (stream_ends k s)|].
  cbn zeta. split.
  - assert (queued_on ch [(n4, Request pkg' open', es5)] = [request_packet (payload pkg')]) as E5'.
    { rewrite (served_queue k ch) by (by repeat constructor). unfold packets_of. cbn [map concat packet_of fst snd]. by rewrite decide_True. }
    unfold queued_on in E5'. cbn [map concat snd] in E5'. rewrite app_nil_r in E5'. rewrite E5', !(served_queue k ch) by done.
    rewrite map_app, omap_app, charges_queue_nothing. cbn. by rewrite decide_True.
  - intros wakes all Hw Hok Hall. apply exit_writer_writes; [|by rewrite Hw]. apply every_received. by rewrite Hw.
Qed.

Definition toy_package_of (pl : ClientRequestPayload) : ExpiredCoresPackage ClientRequestPayload :=
  mkExpired (mkSocketAddr (V4 1 2 3 4) 5) (Some (mkWallet (Address [2]))) (mkRoute [mkCryptData [3]]) pl 10.

Lemma requests_reach_their_server_witness :
  exists n1 i n3 n4 n5 n6,
    @exit_step (countable_serde MessageType) (mkExitNode toy_exit [] []) (Request (toy_package 1 0) (fun _ => true)) =
      Ret (n1, [Spawn (ExitPool.LookupTask (lit "a.b.") (toy_request 1 0 false) (Some (mkWallet (Address [2]))))]) /\
    @runs (countable_serde MessageType) (ordinary (toy_stream 1) 1) n3 [(n3, Request (toy_package 1 2) (fun _ => true), i)] n4 /\
    @exit_step (countable_serde MessageType) n4 (Request (toy_package_of (toy_request 1 1 true)) (fun _ => true)) = Ret (n5, n6).
Proof.
  destruct (@requests_reach_their_server (countable_serde MessageType) (mkExitNode toy_exit [] []) (ExitPool.new 5 1) (toy_package 1 0)
    (fun _ => true) (lit "a.b")) as (n1 & sent & E1 & _ & H1); try reflexivity; try done.
  - eapply (reachable_start (toy_net key_a) [mkSocketAddr (V4 1 1 1 1) 53] 5 1). reflexivity.
  - split; [reflexivity|apply not_elem_of_nil].
  - left. by eexists.
  - destruct (H1 [] n1 (runs_nil _ n1)) as (p2 & i & Ep & Ei & H2). injection E1 as <- _. injection Ep as <-.
    destruct (H2 toy_world [V4 9 9 9 9] (mkSocketAddr (V4 9 9 9 9) 80)) as (n3 & es3 & E3 & _ & H3); try reflexivity.
    + intros k' s [E|E]; [done|by apply elem_of_nil in E].
    + assert (exists r n4, @runs (countable_serde MessageType) (ordinary (toy_stream 1) 1) n3
        [(n3, Request (toy_package 1 2) (fun _ => true), r)] n4) as (r & n4 & Hrun).
      { destruct i as [|i]; [|by destruct i]. injection E3 as <- _. eexists _, _.
        eapply runs_cons; [|reflexivity|apply runs_nil]. intros _. split_and!; try reflexivity. left. by eexists. }
      destruct (H3 _ _ Hrun) as [_ H4].
      destruct (H4 (toy_package_of (toy_request 1 1 true)) (fun _ => true)) as (n5 & es5 & E5 & _); try reflexivity.
      { left. by eexists. }
      eexists _, r, n3, n4, n5, es5. split; [reflexivity|]. split; [exact Hrun|exact E5].
Defined.

(** but the end of a stream can get lost. If a server closes a connection before another request, of any stream, has
    come to the exit Node, the report of the end is looked at before the stream is added and is dropped; then the
    stream is added. Whatever else the Node does, the client is not told of the end, and the pool keeps the dead
    stream. *)
Theorem early_end_is_lost `{!Serde MessageType} (n n' : ExitNode) (p : ExitPool.StreamHandlerPool) (k : StreamKey) (s : ExitPool.Sender)
    (m : Z) (pkg : ExpiredCoresPackage ClientRequestPayload) (open : Z -> bool) (tr : list (ExitNode * event * list client_effect)) :
  node_ok n -> alive k s n -> pool (client n) = Some p -> ExitPool.stream_writer_channels p !! k = None ->
  request_stream_key (payload pkg) <> k -> entitled (client n) (originator_public_key (payload pkg)) (paying_wallet pkg) ->
  exists n1 n2 es2, exit_step n (ReaderKills (k, m)) = Ret (n1, []) /\ exit_step n1 (Request pkg open) = Ret (n2, es2) /\
    aside k (ExitPool.channel s) es2 /\
    (runs (ordinary k (ExitPool.channel s)) n2 tr n' -> Forall (served k (ExitPool.channel s)) tr /\ alive k s n').
Proof.
  intros Hok [(p' & Hp' & [[Hs _] Ha]) Ht] Hp Hm Hne He. rewrite Hp in Hp'. injection Hp' as <-.
  cbn [exit_step]. rewrite Hp. eexists. set (n1 := mkExitNode _ _ _).
  destruct (ExitPool.process_package open (ExitPool.kill (k, m) p) (payload pkg) (paying_wallet pkg)) as [[p2 sent] t] eqn:Ep.
  destruct (process_other open (ExitPool.kill (k, m) p) _ _ k s _ _ _ Hne (or_intror Hm) Hs Ha Ep) as (Hh & _ & Hside & Hts).
  destruct (request_taken n1 pkg open _ _ _ _ eq_refl He Ep) as (n2 & E2 & Hp2 & _ & Ht2 & _).
  assert (node_ok n1) as Hok1. { eapply (exit_step_ok n (ReaderKills (k, m)) n1 []); [done|]. cbn [exit_step]. by rewrite Hp. }
  eexists n2, _. split_and!; [done|exact E2| |].
  - apply spawn_aside; [done|]. destruct t; [|done]. by rewrite Hts.
  - intros Hr. edestruct (stays_alive k s n2 tr n') as (A & _ & B); [|by eapply exit_step_ok|done|done].
    split; [by exists p2|]. rewrite Ht2. apply Forall_spawn; [done|]. destruct t; [|done]. rewrite Hts. intros Hk2. by destruct Hne.
Qed.

Definition connected (e : client_effect) : option (StreamKey * Z * SocketAddr) :=
  match e with InPool (ExitPool.SpawnWriter ch k a) => Some (k, ch, a) | _ => None end.

Lemma charges_only p pl w :
  omap queued (map InPool (request_charge p pl w)) = [] /\ omap connected (map InPool (request_charge p pl w)) = [].
Proof. unfold request_charge. by induction (pool_charge p w _). Qed.

Lemma opens `{!Serde MessageType} n x p pl w host ips peer ts :
  tasks n = ExitPool.make_stream_with_key pl w :: ts -> pool (client n) = Some p ->
  target_hostname pl = Some host -> addresses x host = Some ips -> ExitPool.connect_one (connects x) ips (target_port pl) = Some peer ->
  is_open x (fresh x) = true -> last_data (request_packet pl) = false ->
  exit_step n (RunTask 0 (is_open x) (connects x) (lookup_ip x) (fresh x)) =
    Ret (mkExitNode (with_pool (ExitPool.add (request_stream_key pl, ExitPool.mkSender (fresh x) peer) p) (client n)) ts (mailbox n),
         map InPool ([ExitPool.SpawnReader (request_stream_key pl) peer; ExitPool.SpawnWriter (fresh x) (request_stream_key pl) peer] ++
                     ExitPool.Queue (fresh x) (request_packet pl) :: request_charge p pl w)).
Proof.
  intros Ht Hp Hh Hips Hc Ho Hl. unfold exit_step. rewrite Ht, Hp. change ((?t :: ts) !! 0%nat) with (Some t).
  cbv iota beta. rewrite (connect_new x p pl w host ips peer Hh Hips Hc Ho Hl). unfold settle. do 3 f_equal.
  - match goal with |- context [omap spawned (map InPool ?l)] => destruct (in_pool_quiet l) as [-> _] end. apply app_nil_r.
  - cbn. unfold request_charge. induction (pool_charge p w _); [apply app_nil_r|done].
Qed.

(** and a stream of which two requests come before its connection is open gets two connections: each request opens one
    and is written to its own, and the second to be opened is the one that further requests use. *)
Theorem flurry_opens_two_connections `{!Serde MessageType} (c : ProxyClient) (p : ExitPool.StreamHandlerPool)
    (pkg pkg' : ExpiredCoresPackage ClientRequestPayload) (open open' : Z -> bool) (x y : world) (host : str) (ips : list IpAddr)
    (peer peer' : SocketAddr) :
  let pl := payload pkg in let pl' := payload pkg' in
  pool c = Some p -> unknown p (request_stream_key pl) -> ExitPool.stream_killer_rx p = [] -> request_stream_key pl' = request_stream_key pl ->
  entitled c (originator_public_key pl) (paying_wallet pkg) -> entitled c (originator_public_key pl') (paying_wallet pkg') ->
  data (request_packet pl) <> [] -> data (request_packet pl') <> [] ->
  last_data (request_packet pl) = false -> last_data (request_packet pl') = false ->
  target_hostname pl = Some host -> target_hostname pl' = Some host -> addresses x host = Some ips -> addresses y host = Some ips ->
  ExitPool.connect_one (connects x) ips (target_port pl) = Some peer -> ExitPool.connect_one (connects y) ips (target_port pl') = Some peer' ->
  is_open x (fresh x) = true -> is_open y (fresh y) = true ->
  exists n es, exit_run (mkExitNode c [] []) [Request pkg open; Request pkg' open';
      RunTask 0 (is_open x) (connects x) (lookup_ip x) (fresh x); RunTask 0 (is_open y) (connects y) (lookup_ip y) (fresh y)] = Ret (n, es) /\
    omap queued es = [request_packet pl; request_packet pl'] /\
    omap connected es = [(request_stream_key pl, fresh x, peer); (request_stream_key pl, fresh y, peer')] /\
    exists p', pool (client n) = Some p' /\
      ExitPool.stream_writer_channels (ExitPool.add_new_streams p') !! request_stream_key pl = Some (ExitPool.mkSender (fresh y) peer').
Proof.
  intros pl pl' Hp Hu Hkill Hk He He' Hd Hd' Hl Hl' Hh Hh' Hx Hy Hcx Hcy Hox Hoy.
  destruct (process_new open p pl (paying_wallet pkg) Hu Hd) as (p1 & sent1 & Ep1 & _ & Es1 & _ & Hu1 & _ & Hk1). rewrite (Es1 Hkill) in Ep1.
  destruct (request_taken (mkExitNode c [] []) pkg open p _ _ _ Hp He Ep1) as ([c1 t1 m1] & E1 & Hp1 & S1 & Ht1 & Hm1 & _).
  rewrite <- Hk in Hu1. destruct (process_new open' p1 pl' (paying_wallet pkg') Hu1 Hd') as (p2 & sent2 & Ep2 & _ & Es2 & _ & Hu2 & Ha2 & Hk2).
  rewrite (Es2 Hk1) in Ep2. cbn [client tasks mailbox app] in *.
  destruct (request_taken (mkExitNode c1 t1 m1) pkg' open' p1 _ _ _ Hp1 (entitled_terms _ _ _ _ S1 He') Ep2)
    as ([c2 t2 m2] & E2 & Hp2 & S2 & Ht2 & Hm2 & _). cbn [client tasks mailbox app] in *. subst t1 t2 m1 m2.
  cbn [exit_run]. rewrite E1. cbn [obind]. rewrite E2. cbn [obind].
  erewrite (opens _ x p2 pl) by done. cbn [obind]. erewrite (opens _ y _ pl') by done. cbn [obind].
  destruct (charges_only p2 pl (paying_wallet pkg)) as [Q1 Q2]. destruct (charges_only (ExitPool.add
    (request_stream_key pl, ExitPool.mkSender (fresh x) peer) p2) pl' (paying_wallet pkg')) as [Q3 Q4].
  eexists _, _. split; [reflexivity|]. rewrite !app_nil_r, !omap_app, !map_app, !omap_app. cbn. rewrite Q1, Q2, Q3, Q4. cbn. rewrite Hk.
  split_and!; [done..|]. eexists. split; [reflexivity|]. cbn. rewrite Ha2. cbn. apply lookup_insert_eq.
Qed.

(** a host that cannot be resolved. The client is answered once: the failure goes to the Node the request came
    from, on its return route, and the report of the end that follows finds the stream forgotten. But if
    that Node cannot be encrypted for, the exit Node panics, where it would only drop an answer from
    a server. *)
Theorem failed_lookup_is_answered `{!Serde MessageType} {good} `{!SerdeOk MessageType good} (c : ProxyClient) (ts : list ExitPool.task)
    (p : ExitPool.StreamHandlerPool) (x : StreamContext) (fqdn : str) (pl : ClientRequestPayload) (w : option Wallet) (i : nat) (y : world) :
  let k := request_stream_key pl in
  let run_and_deliver := [RunTask i (is_open y) (connects y) (lookup_ip y) (fresh y); Deliver; Deliver] in
  pool c = Some p -> stream_contexts c !! k = Some x -> ts !! i = Some (ExitPool.LookupTask fqdn pl w) -> lookup_ip y fqdn = None ->
  (forall o, payload_destination_key x = public_key o -> CryptPair (pc_cryptde c) o -> good (DnsResolveFailed (dns_resolve_failure_new k)) ->
   exists s' es pkg, exit_run (mkExitNode c ts []) run_and_deliver = Ret (s', es) /\ omap packaged es = [pkg] /\
     ic_route pkg = return_route x /\ decodex o (ic_payload pkg) = Ok (DnsResolveFailed (dns_resolve_failure_new k)) /\
     omap reported es = [] /\ stream_contexts (client s') !! k = None /\ mailbox s' = []) /\
  (forall e, encodex (pc_cryptde c) (payload_destination_key x) (DnsResolveFailed (dns_resolve_failure_new k)) = Err e ->
     exit_run (mkExitNode c ts []) run_and_deliver = Panic) /\
  (forall m e, isd_stream_key m = k ->
     encodex (pc_cryptde c) (payload_destination_key x) (ClientResponse (client_response m)) = Err e ->
     handle_inbound_server_data c m = Ret (c, [])).
Proof.
  intros k run_and_deliver Hp Hx Ht Hlook. unfold run_and_deliver. split_and!.
  - intros o Hk Hpair Hg. destruct (incipient_decodes (pc_cryptde c) o (return_route x) _ (payload_destination_key x)
      (conj (eq_sym Hk) Hpair) Hg) as (pc & Ei & Ed).
    cbn [exit_run exit_step tasks client]. rewrite Ht, Hp. cbn [ExitPool.run_task]. rewrite Hlook. cbn.
    unfold client_handle_dns_resolve_failure. cbn. fold k. rewrite Hx, Ei. cbn.
    unfold handle_inbound_server_data. cbn. fold k. rewrite lookup_delete_eq. cbn.
    eexists _, _, _. split_and!; [done..|apply lookup_delete_eq|done].
  - intros e He. cbn [exit_run exit_step tasks client]. rewrite Ht, Hp. cbn [ExitPool.run_task]. rewrite Hlook. cbn.
    unfold client_handle_dns_resolve_failure. cbn. fold k. rewrite Hx. unfold incipient_new. by rewrite He.
  - intros m e Hm He. unfold handle_inbound_server_data, send_response_to_hopper, incipient_new. by rewrite Hm, Hx, He.
Qed.

Lemma failed_lookup_is_answered_witness :
  exists s' es, @exit_run (countable_serde MessageType)
    (mkExitNode toy_busy [ExitPool.LookupTask (lit "a.b.") (toy_request 1 0 false) None] [])
    [RunTask 0 (fun _ => true) (fun _ => true) (fun _ => None) 1; Deliver; Deliver] = Ret (s', es) /\
    stream_contexts (client s') !! toy_stream 1 = None.
Proof.
  destruct (@failed_lookup_is_answered (countable_serde MessageType) (fun _ => True) (countable_serde_ok _ _) toy_busy
    [ExitPool.LookupTask (lit "a.b.") (toy_request 1 0 false) None]
    (ExitPool.mkPool {[toy_stream 1 := ExitPool.mkSender 1 (mkSocketAddr (V4 9 9 9 9) 80)]} 5 1 [] [])
    (mkStreamContext (mkRoute [mkCryptData [3]]) key_b (Some (mkWallet (Address [2])))) (lit "a.b.") (toy_request 1 0 false) None 0
    (mkWorld (fun _ => true) (fun _ => true) (fun _ => None) 1)) as (Q & _); try reflexivity.
  destruct (Q (toy_net key_b) eq_refl ltac:(solve_toy_pair) I) as (s' & es & pkg & E & _ & _ & _ & _ & Ec & _).
  exists s', es. split; [exact E|exact Ec].
Defined.
