(* ===== verification/DnsModifier.v ===== *)
(** * DnsModifier: the DNS utility, and what it expects of the operating system's DNS modifier

    [DnsModifier] of dns_utility/src/dns_modifier.rs as a class over the state of the operating
    system, with what the utility relies on as the laws of a second class; the command of
    dns_utility/src/dns_utility.rs, for any modifier. ResolvConf, DynamicStore and WinDns give the
    modifiers of Linux, macOS and Windows. A text is the list of its code points. *)
From S2P Require Import Prelude Text.

Abbreviation text := (list Z).

Definition chars (s : string) : text := map ascii_code (lit s).

Definition newline : Z := 10.

(** [World] is what the modifier acts upon; [inspect] gives the text it writes. *)
Class DnsModifier (World : Type) := {
  type_name : string;
  subvert : World -> outcome (World * result unit text);
  revert : World -> outcome (World * result unit text);
  inspect : World -> outcome (result text text) }.

Definition SUBVERTED : text := chars "127.0.0.1" ++ [newline].

(** What the utility relies on: a [World] that is [configured] has name servers, others than the local host; subverted, it
    has the local host alone, and reverted those of before. *)
Class DnsModifierLaws (World : Type) `{DnsModifier World} := {
  configured : World -> Prop;
  configured_inspect w : configured w -> exists listed, inspect w = Ret (Ok listed) /\ listed <> SUBVERTED;
  configured_subvert w : configured w ->
    exists w', subvert w = Ret (w', Ok tt) /\ inspect w' = Ret (Ok SUBVERTED) /\ subvert w' = Ret (w', Ok tt) /\
      exists w'', revert w' = Ret (w'', Ok tt) /\ inspect w'' = inspect w }.

(** ** The command *)
Inductive Action := Subvert | Revert | Inspect | Status.

Record streams := mk_streams { stdout : text; stderr : text }.

Definition usage : Z * streams :=
  (1, mk_streams [] (chars "Usage: dns_utility [ subvert | revert | inspect | status ]" ++ [newline])).

Section dns_utility.
Context {World : Type}.

Definition status_from_inspect (dns_server_list : text) : text :=
  if bool_decide (dns_server_list = SUBVERTED) then chars "subverted" else chars "reverted".

Definition retrieve_status `{DnsModifier World} (w : World) : outcome (result text text) :=
  let* inspected := inspect w in
  Ret (let? stream_buf := inspected in Ok (status_from_inspect stream_buf ++ [newline])).

(** The end of [perform_action]: the exit code, and what is written *)
Definition exit (name : string) (r : result text text) : Z * streams :=
  match r with
  | Ok out => (0, mk_streams out [])
  | Err msg => (1, mk_streams [] (chars "Cannot " ++ chars name ++ chars ": " ++ msg ++ [newline]))
  end.

Definition silently (r : result unit text) : result text text := let? _ := r in Ok [].

(** [factory]: the modifier of the first factory that takes the system for its own *)
Definition perform_action (factory : option (DnsModifier World)) (action : Action) (w : World) : outcome (World * (Z * streams)) :=
  match factory with
  | None => Ret (w, (1, mk_streams [] (chars "Don't know how to modify DNS settings on this system" ++ [newline])))
  | Some modifier =>
      match action with
      | Subvert => let* (w', r) := subvert w in Ret (w', exit "subvert DNS" (silently r))
      | Revert => let* (w', r) := revert w in Ret (w', exit "revert DNS" (silently r))
      | Inspect => let* r := inspect w in Ret (w, exit "inspect DNS" r)
      | Status => let* r := retrieve_status w in Ret (w, exit "display DNS status" r)
      end
  end.

Definition go (factory : option (DnsModifier World)) (args : list string) (w : World) : outcome (World * (Z * streams)) :=
  match args with
  | _ :: verb :: _ =>
      if (verb =? "subvert")%string then perform_action factory Subvert w
      else if (verb =? "revert")%string then perform_action factory Revert w
      else if (verb =? "inspect")%string then perform_action factory Inspect w
      else if (verb =? "status")%string then perform_action factory Status w
      else Ret (w, usage)
  | _ => Ret (w, usage)
  end.
End dns_utility.

(** What comes out of a list of names, one on each line *)
Definition lines (l : list text) : text := concat (map (fun ip => ip ++ [newline]) l).

Lemma fold_lines l so_far : fold_left (fun so_far ip_address => so_far ++ ip_address ++ [newline]) l so_far = so_far ++ lines l.
Proof.
  revert so_far. induction l as [|ip l IH]; intros so_far; [by rewrite app_nil_r|]. cbn [fold_left]. rewrite IH. unfold lines.
  cbn [map concat]. by rewrite <- !app_assoc.
Qed.

(** Names on lines are told from each other. *)
Lemma lines_inj l ip : newline ∉ ip -> Forall (fun x => newline ∉ x) l -> lines l = ip ++ [newline] -> l = [ip].
Proof.
  destruct l as [|x l]; [by destruct ip|]. unfold lines. cbn [map concat]. rewrite <- app_assoc.
  intros Hip [Hx Hl]%Forall_cons. revert ip Hip. induction x as [|c x IH]; intros [|d ip] Hip H; cbn in H; simplify_eq/=.
  - destruct l as [|y l]; [done|]. by destruct y.
  - by apply not_elem_of_cons in Hip as [Hip _].
  - by apply not_elem_of_cons in Hx as [Hx _].
  - apply not_elem_of_cons in Hx as [_ Hx], Hip as [_ Hip]. assert (x :: l = [ip]) as [= -> ->]; [|done].
    apply IH; done.
Qed.
