(* ===== verification/ResolvConf.v ===== *)
(** * ResolvConf: how the DNS of a Linux system is subverted and reverted

    [ResolvConfDnsModifier] of dns_utility/src/resolv_conf_dns_modifier.rs: /etc/resolv.conf is made to
    name the local host as its only name server, the others being commented out, and is turned back
    again. A text is the list of its characters (code points), and a place in it the number of characters before it; the
    code counts bytes, but uses places only to insert and remove at. Of the regular expressions, those
    for name servers have the form (^|\n)\s*(entry): group 2 is at the first place at the start of
    a line, or behind white space there, where an entry is, and the search goes on behind it. *)
From S2P Require Import Prelude Text Utils DnsModifier.

(** White_Space of Unicode, which is what \s stands for *)
Definition white (c : Z) : bool :=
  ((9 <=? c) && (c <=? 13)) || (c =? 32) || (c =? 0x85) || (c =? 0xA0) || (c =? 0x1680) ||
  ((0x2000 <=? c) && (c <=? 0x200A)) || (c =? 0x2028) || (c =? 0x2029) || (c =? 0x202F) || (c =? 0x205F) || (c =? 0x3000).

(** The length of the longest beginning whose characters satisfy [p] *)
Fixpoint run (p : Z -> bool) (s : text) : nat :=
  match s with
  | c :: s' => if p c then S (run p s') else O
  | [] => O
  end.

Definition NAMESERVER : text := chars "nameserver".

(** What a pattern takes at the beginning of a text: the number of characters *)
Definition pattern : Type := text -> option nat.

(** nameserver\s+, and then [next] *)
Definition nameserver_then (next : pattern) : pattern := fun s =>
  if matches_at s NAMESERVER then
    let s1 := drop (length NAMESERVER) s in
    let spaces := run white s1 in
    if (spaces =? 0)%nat then None
    else n ← next (drop spaces s1); Some (length NAMESERVER + spaces + n)%nat
  else None.

(** nameserver\s+[^\s]* *)
Definition active_entry : pattern := nameserver_then (fun s => Some (run (fun c => negb (white c)) s)).

(** #?\s*nameserver\s+[^\s]* *)
Definition existing_entry : pattern := fun s =>
  match s with
  | 35 :: s' => let spaces := run white s' in n ← active_entry (drop spaces s'); Some (S (spaces + n))
  | _ => active_entry s
  end.

(** \n? *)
Definition run_of_newline (s : text) : nat := match s with 10 :: _ => 1 | _ => 0 end.

(** nameserver\s+127\.0\.0\.1\n? *)
Definition prometheus_entry : pattern := nameserver_then (fun s =>
  if matches_at s (chars "127.0.0.1") then
    Some (length (chars "127.0.0.1") + run_of_newline (drop (length (chars "127.0.0.1")) s))%nat
  else None).

(** Is a place after [c] at the start of a line, or behind white space there, if the place before it is or not? *)
Definition line_start (here : bool) (c : Z) : bool := (c =? 10) || (here && white c).

(** [captures_iter] for group 2 of (^|\n)\s*(entry). [skip] characters belong to the last entry, behind which
    the search goes on. *)
Fixpoint captures (entry : pattern) (here : bool) (skip pos : nat) (s : text) : list (text * nat) :=
  match s with
  | [] => []
  | c :: s' =>
      match skip with
      | S k => captures entry false k (S pos) s'
      | O =>
          match (if here then entry s else None) with
          | Some n => (take n s, pos) :: captures entry false (n - 1) (S pos) s'
          | None => captures entry (line_start here c) 0 (S pos) s'
          end
      end
  end.

Definition active_nameservers (contents : text) : list (text * nat) := captures active_entry true 0 0 contents.
Definition existing_nameservers (contents : text) : list (text * nat) := captures existing_entry true 0 0 contents.

Inductive error := NotConnected | NoSense | NothingToRevertTo.

Definition find_prometheus_nameserver (contents : text) : result (option (nat * nat)) error :=
  match captures prometheus_entry true 0 0 contents with
  | [] => Ok None
  | [(cap, start)] => Ok (Some (start, length cap))
  | _ => Err NoSense
  end.

Section digits.
(** \d: the decimal digits of Unicode *)
Context (decimal_digit : Z -> bool).

(** \d{1,3}, followed by something that is no digit *)
Definition digits_1_3 : pattern := fun s =>
  let n := run decimal_digit s in if ((1 <=? n) && (n <=? 3))%nat then Some n else None.

Definition after (p : pattern) (q : text -> bool) (s : text) : bool :=
  match p s with Some n => q (drop n s) | None => false end.

Definition dotted (q : text -> bool) (s : text) : bool := match s with 46 :: s' => after digits_1_3 q s' | _ => false end.

(** nameserver\s+\d{1,3}\.\d{1,3}\.\d{1,3}\.\d{1,3}\s*(#|$) *)
Definition syntax_here : text -> bool :=
  after (nameserver_then (fun _ => Some O))
    (after digits_1_3 (dotted (dotted (dotted (fun s => match drop (run white s) s with [] | 35 :: _ => true | _ => false end))))).

(** nameserver\s+127\.0\.0\.1([#\s]|$) *)
Definition prometheus_here : text -> bool :=
  after (nameserver_then (fun s => if matches_at s (chars "127.0.0.1") then Some (length (chars "127.0.0.1")) else None))
    (fun s => match s with [] => true | c :: _ => (c =? 35) || white c end).

(** [Regex::is_match] *)
Fixpoint anywhere (p : text -> bool) (s : text) : bool :=
  p s || match s with [] => false | _ :: s' => anywhere p s' end.

Definition is_prometheus_ip (nameserver_entry : text) : bool :=
  if negb (anywhere syntax_here nameserver_entry) then false else anywhere prometheus_here nameserver_entry.

Definition check_disconnected (active : list (text * nat)) : result unit error :=
  if bool_decide (active = []) then Err NotConnected else Ok tt.

Definition check_already_subverted (active : list (text * nat)) : outcome bool :=
  let* first := expect (head active) in Ret (is_prometheus_ip first.1).

Definition check_for_nonsense (active : list (text * nat)) : result unit error :=
  if existsb (fun x => is_prometheus_ip x.1) active then Err NoSense else Ok tt.

(** [String::insert], [String::remove] *)
Definition insert_at (s : text) (pos : nat) (c : Z) : text := take pos s ++ c :: drop pos s.
Definition remove_at (s : text) (pos : nat) : text := take pos s ++ drop (S pos) s.
Definition remove_span (s : text) (begin length : nat) : text := take begin s ++ drop (begin + length) s.

Definition SUBVERSION : text := [10] ++ chars "nameserver 127.0.0.1" ++ [10].

Definition subvert_contents (contents_before : text) : outcome (result text error) :=
  let active := active_nameservers contents_before in
  match check_disconnected active with
  | Err e => Ret (Err e)
  | Ok _ =>
      let* already := check_already_subverted active in
      if already : bool then Ret (Ok contents_before)
      else match check_for_nonsense active with
           | Err e => Ret (Err e)
           | Ok _ =>
               let existing := rev (existing_nameservers contents_before) in
               Ret (Ok (fold_left (fun s x => insert_at s x.2 35) existing contents_before ++ SUBVERSION))
           end
  end.

Definition revert_contents (contents_before : text) : result text error :=
  let? found := find_prometheus_nameserver contents_before in
  match found with
  | None => Ok contents_before
  | Some (begin, length) =>
      let contents_after := remove_span contents_before begin length in
      let existing := existing_nameservers contents_after in
      if bool_decide (existing = []) then Err NothingToRevertTo
      else Ok (fold_left (fun s x => remove_at s x.2) (rev existing) contents_after)
  end.

(** ^\s*nameserver\s+([^\s#]* ) *)
Definition nameserver_line_to_ip (line : text) : outcome text :=
  let s := drop (run white line) line in
  let* n := expect (nameserver_then (fun _ => Some O) s) in
  let rest := drop n s in
  Ret (take (run (fun c => negb (white c) && negb (c =? 35)) rest) rest).

Definition inspect_contents (contents : text) : outcome (result text error) :=
  let active := active_nameservers contents in
  match check_disconnected active with
  | Err e => Ret (Err e)
  | Ok _ =>
      let* ips := omapM (fun x => nameserver_line_to_ip x.1) active in
      Ret (Ok (fold_left (fun so_far ip_address => so_far ++ ip_address ++ [newline]) ips []))
  end.
End digits.

(** ** The file

    [std::fs] as the code meets it: whether the file opens, for reading or for reading and writing, what
    reading it to the end gives ([None]: it is not UTF-8), and what seeking, truncating and writing do. One
    call of [write] may write less than it is given. *)
Inductive open_error := NotFound | PermissionDenied | IsADirectory | OtherError (e : text).

Record linux := mk_linux {
  file : option text;
  opens : bool -> option open_error;
  seek : option text;
  set_len : option text;
  write : text -> result text text }.

Definition with_file (w : linux) (contents : text) : linux :=
  mk_linux (Some contents) (opens w) (seek w) (set_len w) (write w).

Definition process_msg (msg : text) (for_write : bool) : text :=
  if for_write then msg ++ chars " and could not be modified" else msg.

Definition open_resolv_conf (w : linux) (for_write : bool) : result text text :=
  match opens w for_write with
  | Some NotFound => Err (process_msg (chars "/etc/resolv.conf was not found") for_write)
  | Some PermissionDenied =>
      let suffix := if for_write then chars " and writable" else [] in
      Err (process_msg (chars "/etc/resolv.conf is not readable" ++ suffix) for_write)
  | Some IsADirectory => Err (process_msg (chars "/etc/resolv.conf is a directory") for_write)
  | Some (OtherError e) => Err (chars "Unexpected error opening " ++ [34] ++ chars "/etc/resolv.conf" ++ [34] ++ chars ": " ++ e)
  | None =>
      match file w with
      | Some contents => Ok contents
      | None => Err (process_msg (chars "/etc/resolv.conf is not a UTF-8 text file") for_write)
      end
  end.

Definition replace_contents_system (w : linux) (contents : text) : linux * result unit text :=
  match seek w with
  | Some e => (w, Err e)
  | None =>
      match set_len w with
      | Some e => (w, Err e)
      | None =>
          match write w contents with
          | Err e => (with_file w [], Err e)
          | Ok written => (with_file w written, Ok tt)
          end
      end
  end.

Definition replace_contents (w : linux) (contents : text) : linux * result unit text :=
  let (w', r) := replace_contents_system w contents in
  (w', rmap_err (fun e => chars "/etc/resolv.conf could not be modified: " ++ e) r).

Definition message (e : error) : text :=
  match e with
  | NotConnected => chars "This system does not appear to be connected to a network"
  | NoSense => chars "This system's DNS settings don't make sense; aborting"
  | NothingToRevertTo => chars "There do not appear to be any DNS settings to revert to"
  end.

(** [subvert] and [revert] *)
Definition modify (modified : text -> outcome (result text error)) (w : linux) : outcome (linux * result unit text) :=
  match open_resolv_conf w true with
  | Err e => Ret (w, Err e)
  | Ok contents_before =>
      let* r := modified contents_before in
      match r with
      | Err e => Ret (w, Err (message e))
      | Ok contents_after => Ret (replace_contents w contents_after)
      end
  end.

Definition ResolvConfDnsModifier (decimal_digit : Z -> bool) : DnsModifier linux := {|
  type_name := "ResolvConfDnsModifier";
  subvert := modify (subvert_contents decimal_digit);
  revert := modify (fun contents => Ret (revert_contents contents));
  inspect := fun w =>
    match open_resolv_conf w false with
    | Err e => Ret (Err e)
    | Ok contents => let* r := inspect_contents contents in Ret (rmap_err message r)
    end |}.

(** *** On the files of the tests *)
Definition ascii_digit (c : Z) : bool := (48 <=? c) && (c <=? 57).

Example subverted_file :
  subvert_contents ascii_digit (chars "#comment" ++ [10] ++ chars "# nameserver 1.1.1.1" ++ [10] ++
    chars "nameserver 127.0.0.111#comment" ++ [10] ++ chars "nameserver 8.8.8.8" ++ [10] ++ chars "unrecognized directive" ++ [10] ++
    chars "nameserver 9.9.9.9") =
  Ret (Ok (chars "#comment" ++ [10] ++ chars "## nameserver 1.1.1.1" ++ [10] ++
    chars "#nameserver 127.0.0.111#comment" ++ [10] ++ chars "#nameserver 8.8.8.8" ++ [10] ++ chars "unrecognized directive" ++ [10] ++
    chars "#nameserver 9.9.9.9" ++ [10] ++ chars "nameserver 127.0.0.1" ++ [10])).
Proof. vm_compute. reflexivity. Qed.

Example reverted_file :
  revert_contents (chars "#comment" ++ [10] ++ chars "## nameserver 1.1.1.1" ++ [10] ++ chars "#nameserver 8.8.8.8" ++ [10] ++
    chars "#nameserver 9.9.9.9" ++ [10] ++ chars "nameserver 127.0.0.1" ++ [10]) =
  Ok (chars "#comment" ++ [10] ++ chars "## nameserver 1.1.1.1" ++ [10] ++ chars "nameserver 8.8.8.8" ++ [10] ++
    chars "nameserver 9.9.9.9" ++ [10]).
Proof. vm_compute. reflexivity. Qed.

(** ** Patterns and captures *)
Lemma captures_skip e k pos s : captures e false k pos s = captures e false 0 (pos + k) (drop k s).
Proof.
  revert k pos. induction s as [|c s IH]; intros k pos; [by destruct k|]. destruct k as [|k]; [by rewrite Nat.add_0_r|].
  cbn [captures drop]. rewrite IH. f_equal. lia.
Qed.

Lemma captures_step e (here : bool) c s pos :
  (if here then e (c :: s) else None) = None -> captures e here 0 pos (c :: s) = captures e (line_start here c) 0 (S pos) s.
Proof. intros E. cbn [captures]. by rewrite E. Qed.

(** Text without line breaks, not at the start of a line, has no entries. *)
Lemma captures_plain e u v pos : 10 ∉ u -> captures e false 0 pos (u ++ v) = captures e false 0 (pos + length u) v.
Proof.
  revert pos. induction u as [|c u IH]; intros pos Hu; [by rewrite Nat.add_0_r|]. cbn [app captures length].
  apply not_elem_of_cons in Hu as [Hc Hu]. unfold line_start. rewrite (proj2 (Z.eqb_neq c 10)) by done. cbn [orb andb].
  rewrite IH by done. f_equal. lia.
Qed.

Lemma run_all p u v : Forall (fun c => p c = true) u -> run p (u ++ v) = (length u + run p v)%nat.
Proof. induction 1 as [|c u Hc _ IH]; [done|]. cbn. by rewrite Hc, IH. Qed.

Lemma run_split p s : exists u v, s = u ++ v /\ run p s = length u /\ Forall (fun c => p c = true) u /\
  match v with [] => True | c :: _ => p c = false end.
Proof.
  induction s as [|c s (u & v & -> & Hr & Hu & Hv)]; [by exists [], []|]. destruct (p c) eqn:Hc.
  - exists (c :: u), v. cbn. rewrite Hc, Hr. split_and!; [done..|by constructor|done].
  - exists [], (c :: u ++ v). cbn. rewrite Hc. by split_and!.
Qed.

Definition starts_white (s : text) : Prop := match s with [] => True | c :: _ => white c = true end.

(** The parts of an entry that names something *)
Lemma active_parts u v :
  active_entry (u ++ v) = Some (length u) -> (exists c, last u = Some c /\ white c = false) ->
  starts_white v /\ forall v', starts_white v' -> active_entry (u ++ v') = Some (length u).
Proof.
  unfold active_entry, nameserver_then. destruct (matches_at (u ++ v) NAMESERVER) eqn:Hm; [|done].
  apply matches_at_prefix in Hm as [s1 Es]. rewrite Es, drop_app_length.
  destruct (run_split white s1) as (ws & s2 & -> & Hr & Hws & Hs2). rewrite Hr. destruct (Nat.eqb_spec (length ws) 0) as [|Hne]; [done|].
  rewrite drop_app_length. cbn [mbind option_bind].
  destruct (run_split (fun c => negb (white c)) s2) as (tok & s3 & -> & Hr2 & Htok & Hs3). rewrite Hr2. intros [= Hlen] (c & Hlast & Hc).
  assert (u = NAMESERVER ++ ws ++ tok /\ v = s3) as [-> ->].
  { apply app_inj_1; [|by rewrite Es, <- !app_assoc]. rewrite !length_app. change (length NAMESERVER) with 10%nat. lia. }
  split; [destruct s3; [done|]; cbn; by apply negb_false_iff in Hs3|]. intros v' Hv'. rewrite <- !app_assoc.
  assert (Hm : matches_at (NAMESERVER ++ ws ++ tok ++ v') NAMESERVER = true) by (apply matches_at_prefix; by eexists).
  rewrite Hm, drop_app_length, run_all by done.
  assert (tok <> []) as Ht.
  { intros ->. rewrite app_nil_r in Hlast. destruct ws as [|w ws _] using rev_ind; [done|]. rewrite app_assoc, last_snoc in Hlast.
    injection Hlast as <-. apply Forall_app in Hws as [_ Hw]. inversion_clear Hw. congruence. }
  destruct tok as [|t tok]; [done|]. inversion_clear Htok as [|?? Ht0 Ht1]. cbn [app run].
  rewrite (proj1 (negb_true_iff _) Ht0), Nat.add_0_r, (proj2 (Nat.eqb_neq _ _) Hne), drop_app_length. cbn [mbind option_bind run].
  rewrite Ht0, run_all by done. destruct v' as [|x v']; cbn [run]; [|rewrite Hv'; cbn [negb]]; rewrite !length_app; cbn [length];
    f_equal; lia.
Qed.

Lemma active_starts s n : active_entry s = Some n -> exists s', s = NAMESERVER ++ s'.
Proof.
  unfold active_entry, nameserver_then. destruct (matches_at s NAMESERVER) eqn:Hm; [|done]. intros _.
  by apply matches_at_prefix in Hm.
Qed.

Lemma active_existing s n : active_entry s = Some n -> existing_entry s = Some n.
Proof. intros H. destruct (active_starts s n H) as [s' ->]. exact H. Qed.

Lemma existing_active s n : existing_entry s = Some n -> head s <> Some 35 -> active_entry s = Some n.
Proof.
  destruct s as [|c s]; [done|]. intros H Hc. cbn in Hc. assert (c <> 35) by congruence. unfold existing_entry in H.
  repeat case_match; done.
Qed.

(** ** Comment marks *)
(** [s] with a mark in front of the entries that satisfy [q] *)
Fixpoint mark (q : text -> bool) (here : bool) (skip : nat) (s : text) : text :=
  match s with
  | [] => []
  | c :: s' =>
      match skip with
      | S k => c :: mark q false k s'
      | O =>
          match (if here then existing_entry s else None) with
          | Some n => (if q (take n s) then [35] else []) ++ c :: mark q false (n - 1) s'
          | None => c :: mark q (line_start here c) 0 s'
          end
      end
  end.

Definition every (_ : text) : bool := true.
Definition commented (entry : text) : bool := bool_decide (head entry = Some 35).

Lemma mark_skip q k s : mark q false k s = take k s ++ mark q false 0 (drop k s).
Proof. revert k. induction s as [|c s IH]; intros [|k]; try done. cbn [mark take drop app]. by rewrite IH. Qed.

Lemma mark_all here k s pre :
  fold_left (fun s x => insert_at s x.2 35) (rev (captures existing_entry here k (length pre) s)) (pre ++ s) =
    pre ++ mark every here k s.
Proof.
  rewrite <- (fold_left_rev_right (fun x s => insert_at s x.2 35)), rev_involutive. revert here k pre. induction s as [|c s IH]; intros here k pre; [done|].
  assert (Hstep : forall h j, foldr (fun (x : text * nat) s => insert_at s x.2 35) (pre ++ c :: s)
                     (captures existing_entry h j (S (length pre)) s) = pre ++ c :: mark every h j s).
  { intros h j. specialize (IH h j (pre ++ [c])). rewrite length_app, Nat.add_comm, <- !app_assoc in IH. exact IH. }
  cbn [captures mark]. destruct k; [|apply Hstep]. destruct (if here then _ else _) as [n|]; [|apply Hstep].
  cbn [foldr every snd app]. rewrite Hstep. unfold insert_at. by rewrite take_app_length, drop_app_length.
Qed.

(** [Y] is [X] with marks in front of some characters, and [Z] behind it. *)
Inductive marked (Z : text) : text -> text -> Prop :=
| marked_end : marked Z [] Z
| marked_keep c X Y : marked Z X Y -> marked Z (c :: X) (c :: Y)
| marked_here c X Y : white c = false -> marked Z X Y -> marked Z (c :: X) (35 :: c :: Y).

Lemma existing_head c s n : existing_entry (c :: s) = Some n -> c = 35 \/ c = 110.
Proof.
  destruct (decide (c = 35)) as [->|Hc]; [by left|]. intros H. apply existing_active in H; [|cbn; congruence].
  apply active_starts in H as [s' H]. injection H as -> _. by right.
Qed.

Lemma mark_marked q here k s Z : marked Z s (mark q here k s ++ Z).
Proof.
  revert here k. induction s as [|c s IH]; intros here k; [constructor|]. cbn [mark]. destruct k; [|by constructor].
  destruct (if here then _ else _) as [n|] eqn:E; [|by constructor]. destruct here; [|done].
  destruct (q _); constructor; [|done|done]. by apply existing_head in E as [-> | ->].
Qed.

Lemma marked_prefix Z w X Y :
  marked (10 :: Z) X Y -> 35 ∉ w -> 10 ∉ w -> w `prefix_of` Y ->
  w `prefix_of` X /\ marked (10 :: Z) (drop (length w) X) (drop (length w) Y).
Proof.
  revert X Y. induction w as [|x w IH]; intros X Y Hm H35 H10 Hp; [split; [apply prefix_nil|done]|].
  apply not_elem_of_cons in H35 as [N35 H35], H10 as [N10 H10]. destruct Hp as [Y' ->].
  inversion Hm as [Eq|c X1 Y1 Hm1 E1 E2|c X1 Y1 Hw Hm1 E1 E2]; simplify_eq/=.
  destruct (IH X1 (w ++ Y') Hm1 H35 H10) as [[X' ->] Hd]; [by eexists|]. split; [|done]. by exists X'.
Qed.

Lemma active_marked Z X Y n :
  marked (10 :: Z) X Y -> last X = Some 10 -> active_entry Y = Some n -> exists m, active_entry X = Some m.
Proof.
  intros Hm Hl. unfold active_entry, nameserver_then. destruct (matches_at Y NAMESERVER) eqn:E; [|done].
  apply matches_at_prefix in E. destruct (marked_prefix Z NAMESERVER X Y Hm) as [Hp Hd]; [by apply (bool_decide_eq_false_1 _)..|exact E|].
  rewrite (proj2 (matches_at_prefix _ _) Hp). destruct Hp as [X1 ->]. rewrite drop_app_length in Hd |- *.
  set (Y1 := drop (length NAMESERVER) Y) in *. clearbody Y1.
  destruct (Nat.eqb_spec (run white Y1) 0) as [|Hne]; [done|]. intros _.
  assert (run white X1 <> 0%nat) as Hne'.
  { destruct X1 as [|x X1]; [by rewrite app_nil_r in Hl|]. inversion Hd as [|c X2 Y2 Hd' E1 E2|c X2 Y2 Hw Hd' E1 E2]; subst;
      cbn in Hne |- *; [|done]. by destruct (white x). }
  rewrite (proj2 (Nat.eqb_neq _ _) Hne'). cbn. by eexists.
Qed.

Lemma marked_spaces X Y :
  marked [10] X Y ->
  (run white Y = run white X /\ marked [10] (drop (run white X) X) (drop (run white X) Y)) \/ drop (run white Y) Y = [].
Proof.
  induction 1 as [|c X Y Hm IH|c X Y Hc Hm IH]; [by right|..].
  - cbn. destruct (white c); [|left; by split; [|constructor]]. destruct IH as [[-> Hd]|Hd]; [left|right]; done.
  - left. cbn [run]. rewrite Hc. split; [done|]. by constructor.
Qed.

Lemma last_drop n (X : text) : drop n X <> [] -> last (drop n X) = last X.
Proof.
  revert X. induction n as [|n IH]; intros [|x X] H; try done. cbn [drop] in *. rewrite IH by done. by destruct X; [destruct n|].
Qed.

Lemma existing_marked c X Y n :
  marked [10] X Y -> last (c :: X) = Some 10 -> existing_entry (c :: Y) = Some n -> exists m, existing_entry (c :: X) = Some m.
Proof.
  intros Hm Hl. destruct (decide (c = 35)) as [->|Hc].
  - cbn [existing_entry]. destruct (active_entry (drop (run white Y) Y)) as [m|] eqn:E; [|done]. intros _.
    destruct (marked_spaces X Y Hm) as [[Hr Hd]|Hd]; [|by rewrite Hd in E]. rewrite Hr in E.
    destruct (drop (run white X) X) as [|x X'] eqn:EX.
    { set (D := drop (run white X) Y) in *. clearbody D. inversion Hd; subst. done. }
    destruct (active_marked [] _ _ m Hd) as [m' ->]; [|done|by eexists]. rewrite <- EX, last_drop by (rewrite EX; done).
    destruct X; [by rewrite drop_nil in EX|exact Hl].
  - intros H. apply existing_active in H; [|cbn; congruence].
    destruct (active_marked [] (c :: X) (c :: Y) n) as [m Hm']; [by constructor|done|done|]. exists m. by apply active_existing.
Qed.

(** ** Entries that make sense *)
(** On one line, and naming something *)
Definition proper (x : text * nat) : Prop := (10 ∉ x.1) /\ exists c, last x.1 = Some c /\ white c = false.

Lemma run_le p s : (run p s <= length s)%nat.
Proof. induction s as [|c s IH]; cbn; [lia|]. destruct (p c); lia. Qed.

Lemma active_length s n : active_entry s = Some n -> (1 <= n <= length s)%nat.
Proof.
  unfold active_entry, nameserver_then. destruct (matches_at s NAMESERVER) eqn:E; [|done]. apply matches_at_prefix in E as [s1 ->].
  rewrite drop_app_length. case_match; [done|]. cbn [mbind option_bind]. intros [= <-]. rewrite length_app.
  pose proof (run_le white s1). pose proof (run_le (fun c : Z => negb (white c)) (drop (run white s1) s1)) as Hl.
  rewrite length_drop in Hl. change (length NAMESERVER) with 10%nat. lia.
Qed.

Lemma existing_length s n : existing_entry s = Some n -> (1 <= n <= length s)%nat.
Proof.
  destruct s as [|c s]; [done|]. destruct (decide (c = 35)) as [->|Hc].
  - cbn [existing_entry]. destruct (active_entry _) as [m|] eqn:E; [|done]. apply active_length in E. rewrite length_drop in E.
    intros [= <-]. cbn [length]. lia.
  - intros H. apply existing_active in H; [|cbn; congruence]. by apply active_length.
Qed.

Lemma at_entry (here : bool) (s : text) (n : nat) :
  (if here then existing_entry s else None) = Some n ->
  here = true /\ existing_entry s = Some n /\
  exists cap rest, s = cap ++ rest /\ length cap = n /\ cap <> [] /\
    (forall pos, captures existing_entry here 0 pos s = (cap, pos) :: captures existing_entry false 0 (pos + n) rest) /\
    (forall q, mark q here 0 s = (if q cap then [35] else []) ++ cap ++ mark q false 0 rest).
Proof.
  destruct here; [|done]. intros E. split; [done|]. split; [done|]. pose proof (existing_length s n E) as Hn.
  exists (take n s), (drop n s). rewrite take_drop, length_take_le by lia. split_and!; [done|done| | |].
  - intros H%(f_equal length). rewrite length_take_le in H by lia. cbn in H. lia.
  - intros pos. destruct s as [|c s]; [cbn in Hn; lia|]. cbn [captures]. rewrite E, captures_skip. f_equal.
    destruct n as [|n]; [lia|]. cbn [drop]. f_equal; [lia|]. f_equal. lia.
  - intros q. destruct s as [|c s]; [cbn in Hn; lia|]. cbn [mark]. rewrite E, mark_skip. f_equal.
    destruct n as [|n]; [lia|]. cbn [drop take app]. rewrite Nat.sub_succ, Nat.sub_0_r. done.
Qed.

Lemma no_entry (here : bool) (c : Z) (s : text) :
  (if here then existing_entry (c :: s) else None) = None ->
  (forall pos, captures existing_entry here 0 pos (c :: s) = captures existing_entry (line_start here c) 0 (S pos) s) /\
  (forall q, mark q here 0 (c :: s) = c :: mark q (line_start here c) 0 s).
Proof. intros E. split; intros; cbn [captures mark]; by rewrite E. Qed.

Definition ends_line (s : text) : Prop := s = [] \/ last s = Some 10.

Lemma ends_line_app u v : ends_line (u ++ v) -> ends_line v.
Proof.
  intros [H|H]; [apply app_eq_nil in H as [_ ->]; by left|]. destruct v as [|x v _] using rev_ind; [by left|right].
  rewrite app_assoc, last_snoc in H. by rewrite last_snoc.
Qed.

(** Behind an entry comes white space, with and without marks. *)
Lemma behind_entry q cap rest Z :
  active_entry (cap ++ rest) = Some (length cap) -> (exists c, last cap = Some c /\ white c = false) -> starts_white Z ->
  active_entry (cap ++ mark q false 0 rest ++ Z) = Some (length cap).
Proof.
  intros Ha Hl Hz. destruct (active_parts cap rest Ha Hl) as [Hw Hall]. apply Hall. by destruct rest.
Qed.

(** A pattern for entries that are not commented out *)
Definition uncommented (e : pattern) : Prop := forall s n, e s = Some n -> exists m, active_entry s = Some m.

Lemma active_uncommented : uncommented active_entry.
Proof. intros s n H. by exists n. Qed.

Lemma uncommented_mark e s : uncommented e -> e (35 :: s) = None.
Proof. intros He. destruct (e (35 :: s)) eqn:E; [|done]. apply He in E as [m E]. done. Qed.

Lemma captures_shift e here k pos d s :
  captures e here k (d + pos) s = map (fun x => (x.1, (d + x.2)%nat)) (captures e here k pos s).
Proof.
  revert here k pos. induction s as [|c s IH]; intros here k pos; [done|]. cbn [captures].
  rewrite plus_n_Sm. destruct k; [|apply IH]. destruct (if here then e (c :: s) else None); [|apply IH]. cbn [map]. by rewrite IH.
Qed.

(** Induction along a text whose entries are proper: at the end, at an entry, commented out or not, and
    anywhere else *)
Section along.
Context (P : bool -> text -> Prop).
Context (at_end : forall here, P here []).
Context (at_active : forall cap rest,
  active_entry (cap ++ rest) = Some (length cap) -> head cap = Some 110 -> 10 ∉ cap ->
  (exists c, last cap = Some c /\ white c = false) ->
  (forall pos, captures existing_entry true 0 pos (cap ++ rest) = (cap, pos) :: captures existing_entry false 0 (pos + length cap) rest) ->
  (forall q, mark q true 0 (cap ++ rest) = (if q cap then [35] else []) ++ cap ++ mark q false 0 rest) ->
  P false rest -> P true (cap ++ rest)).
Context (at_commented : forall cap rest,
  head cap = Some 35 -> 10 ∉ cap ->
  (forall pos, captures existing_entry true 0 pos (cap ++ rest) = (cap, pos) :: captures existing_entry false 0 (pos + length cap) rest) ->
  (forall q, mark q true 0 (cap ++ rest) = (if q cap then [35] else []) ++ cap ++ mark q false 0 rest) ->
  P false rest -> P true (cap ++ rest)).
Context (elsewhere : forall (here : bool) c s,
  (if here then existing_entry (c :: s) else None) = None -> last (c :: s) = Some 10 ->
  P (line_start here c) s -> P here (c :: s)).

Lemma along here s : ends_line s -> Forall proper (captures existing_entry here 0 0 s) -> P here s.
Proof.
  revert here. induction s as [s IH] using (induction_ltof1 _ (@length Z)). unfold ltof in IH. intros here Hs Hp.
  destruct s as [|c s]; [apply at_end|]. destruct (if here then existing_entry (c :: s) else None) as [n|] eqn:E.
  - destruct (at_entry here (c :: s) n E) as (-> & Ex & cap & rest & Es & Hn & Hne & Hc & Hm). rewrite Hc in Hp.
    rewrite Es in *. apply Forall_cons in Hp as [[H10 Hl] Hp]. cbn [fst] in H10, Hl. assert (P false rest) as HP.
    { apply IH; [destruct cap; [done|]; cbn; rewrite length_app; lia|by eapply ends_line_app|].
      rewrite <- (Nat.add_0_r n), (captures_shift _ _ _ 0 n), Forall_map in Hp. exact Hp. }
    subst n. destruct cap as [|x cap]; [done|]. destruct (existing_head x (cap ++ rest) _ Ex) as [-> | ->].
    + by apply at_commented.
    + by apply at_active.
  - destruct (no_entry here c s E) as [Hc _]. rewrite Hc in Hp. destruct Hs as [|Hs]; [done|].
    apply elsewhere; [exact E|exact Hs|]. apply IH; [cbn; lia| |].
    + destruct s; [by left|by right].
    + rewrite <- (Nat.add_0_r 1), (captures_shift _ _ _ 0 1), Forall_map in Hp. exact Hp.
Qed.
End along.

Definition orderly (here : bool) (s : text) : Prop := ends_line s /\ Forall proper (captures existing_entry here 0 0 s).

(** What is not at an entry stays so with marks behind it. *)
Lemma elsewhere_active q e (here : bool) c s Z :
  uncommented e -> (if here then existing_entry (c :: s) else None) = None -> last (c :: s) = Some 10 ->
  (if here then e (c :: mark q (line_start here c) 0 s ++ 10 :: Z) else None) = None.
Proof.
  intros He Hn Hl. destruct here; [|done]. destruct (e _) as [n|] eqn:E; [|done]. apply He in E as [m E].
  apply (active_marked Z (c :: s)) in E as [m' E]; [|constructor; apply mark_marked|done].
  by rewrite (active_existing _ _ E) in Hn.
Qed.

Lemma elsewhere_existing q (here : bool) c s :
  (if here then existing_entry (c :: s) else None) = None -> last (c :: s) = Some 10 ->
  (if here then existing_entry (c :: mark q (line_start here c) 0 s ++ [10]) else None) = None.
Proof.
  intros Hn Hl. destruct here; [|done]. destruct (existing_entry (c :: mark _ _ _ _ ++ _)) as [n|] eqn:E; [|done].
  apply (existing_marked c s) in E as [m' E]; [|apply mark_marked|done]. congruence.
Qed.

(** When all entries are marked, only what comes behind is found. *)
Lemma all_marked e here s Z :
  uncommented e -> orderly here s ->
  exists h, forall pos,
    captures e here 0 pos (mark every here 0 s ++ 10 :: Z) = captures e h 0 (pos + length (mark every here 0 s)) (10 :: Z).
Proof.
  intros He [Hs Hp]. revert here s Hs Hp. refine (along _ _ _ _ _).
  - intros here. exists here. intros pos. by rewrite Nat.add_0_r.
  - intros cap rest Ha Hh H10 Hl Hc Hm [h IH]. exists h. intros pos. rewrite Hm. cbn [every app].
    rewrite captures_step by (by apply uncommented_mark). change (line_start true 35) with false.
    rewrite <- app_assoc, captures_plain, IH by done. f_equal. cbn [length]. rewrite length_app. lia.
  - intros cap rest Hh H10 Hc Hm [h IH]. exists h. intros pos. rewrite Hm. cbn [every app].
    rewrite captures_step by (by apply uncommented_mark). change (line_start true 35) with false.
    rewrite <- app_assoc, captures_plain, IH by done. f_equal. cbn [length]. rewrite length_app. lia.
  - intros here c s E Hl [h IH]. exists h. intros pos. destruct (no_entry here c s E) as [_ Hm]. rewrite Hm. cbn [app].
    rewrite captures_step by (by apply elsewhere_active). rewrite IH. f_equal. cbn [length]. lia.
Qed.

Lemma captures_entry e cap rest pos :
  e (cap ++ rest) = Some (length cap) -> cap <> [] ->
  captures e true 0 pos (cap ++ rest) = (cap, pos) :: captures e false 0 (pos + length cap) rest.
Proof.
  intros E Hne. destruct cap as [|c cap]; [done|]. cbn [app captures] in *. rewrite E, captures_skip.
  change (length (c :: cap)) with (S (length cap)). rewrite Nat.sub_succ, Nat.sub_0_r, drop_app_length. cbn [take].
  rewrite take_app_length. do 2 f_equal. lia.
Qed.

Lemma captures_commented cap rest pos :
  head cap = Some 35 -> 10 ∉ cap -> captures active_entry true 0 pos (cap ++ rest) = captures active_entry false 0 (pos + length cap) rest.
Proof.
  destruct cap as [|c cap]; [done|]. intros [= ->] H10. apply not_elem_of_cons in H10 as [_ H10]. cbn [app].
  rewrite captures_step by done. change (line_start true 35) with false. rewrite captures_plain by done. f_equal. cbn [length]. lia.
Qed.

Lemma commented_active cap : head cap = Some 110 -> commented cap = false.
Proof. unfold commented. intros ->. done. Qed.

Lemma commented_commented cap : head cap = Some 35 -> commented cap = true.
Proof. unfold commented. intros ->. done. Qed.

Lemma marked_entry cap Y : head cap = Some 110 -> active_entry (cap ++ Y) = Some (length cap) ->
  existing_entry ((35 :: cap) ++ Y) = Some (length (35 :: cap)).
Proof. destruct cap as [|c cap]; [done|]. intros [= ->] H. cbn [app] in *. cbn. cbn in H. by rewrite H. Qed.

(** The name servers that are found again are those that were active; *)
Lemma found_again here s : orderly here s -> forall pos pos',
  map fst (captures existing_entry here 0 pos (mark every here 0 s ++ [10])) = map (cons 35) (map fst (captures active_entry here 0 pos' s)).
Proof.
  intros [Hs Hp]. revert here s Hs Hp. refine (along _ _ _ _ _).
  - intros [] pos pos'; done.
  - intros cap rest Ha Hh H10 Hl Hc Hm IH pos pos'. rewrite Hm, (captures_entry active_entry) by (by destruct cap). cbn [every app].
    rewrite <- app_assoc, (app_comm_cons cap). rewrite captures_entry; [cbn [map fst]; by erewrite IH| |done].
    apply marked_entry; [done|]. by apply behind_entry.
  - intros cap rest Hh H10 Hc Hm IH pos pos'. rewrite Hm, captures_commented by done. cbn [every app]. rewrite captures_step.
    + change (line_start true 35) with false. rewrite <- app_assoc, captures_plain by done. apply IH.
    + by destruct cap as [|c cap]; [|injection Hh as ->].
  - intros here c s E Hl IH pos pos'. destruct (no_entry here c s E) as [_ Hm]. rewrite Hm. cbn [app].
    rewrite captures_step by (by apply elsewhere_existing). rewrite captures_step; [apply IH|].
    destruct here; [|done]. destruct (active_entry (c :: s)) eqn:Ea; [|done]. by rewrite (active_existing _ _ Ea) in E.
Qed.

(** without their marks they are active again, *)
Lemma active_again here s : orderly here s -> forall pos pos',
  map fst (captures active_entry here 0 pos (mark commented here 0 s ++ [10])) = map fst (captures active_entry here 0 pos' s).
Proof.
  intros [Hs Hp]. revert here s Hs Hp. refine (along _ _ _ _ _).
  - intros [] pos pos'; done.
  - intros cap rest Ha Hh H10 Hl Hc Hm IH pos pos'. rewrite Hm, commented_active, (captures_entry active_entry _ rest) by (by destruct cap).
    cbn [app]. rewrite <- app_assoc, captures_entry; [cbn [map fst]; by erewrite IH| |by destruct cap]. by apply behind_entry.
  - intros cap rest Hh H10 Hc Hm IH pos pos'. rewrite Hm, commented_commented, (captures_commented cap rest) by done. cbn [app].
    rewrite captures_step by done. change (line_start true 35) with false. rewrite <- app_assoc, captures_plain by done. apply IH.
  - intros here c s E Hl IH pos pos'. destruct (no_entry here c s E) as [_ Hm]. rewrite Hm. cbn [app].
    rewrite captures_step by (apply (elsewhere_active commented active_entry here c s [] active_uncommented E Hl)). rewrite captures_step; [apply IH|].
    destruct here; [|done]. destruct (active_entry (c :: s)) eqn:Ea; [|done]. by rewrite (active_existing _ _ Ea) in E.
Qed.

(** and only those that were comments before keep theirs. *)
Lemma unmark here s : orderly here s -> forall pre,
  foldr (fun x s => remove_at s x.2) (pre ++ mark every here 0 s ++ [10])
    (captures existing_entry here 0 (length pre) (mark every here 0 s ++ [10])) = pre ++ mark commented here 0 s ++ [10].
Proof.
  intros [Hs Hp]. revert here s Hs Hp. refine (along _ _ _ _ _).
  - intros [] pre; done.
  - intros cap rest Ha Hh H10 Hl Hc Hm IH pre. rewrite !Hm, commented_active by done. cbn [every app].
    rewrite <- !app_assoc, (app_comm_cons cap). rewrite captures_entry; [|apply marked_entry; [done|by apply behind_entry]|done].
    cbn [foldr snd]. specialize (IH (pre ++ 35 :: cap)). rewrite length_app, <- !app_assoc in IH. cbn [app] in IH. cbn [app]. rewrite IH.
    unfold remove_at. rewrite take_app_length, drop_app, Nat.sub_succ_l, Nat.sub_diag, drop_ge by lia. done.
  - intros cap rest Hh H10 Hc Hm IH pre. rewrite !Hm, commented_commented by done. cbn [every app].
    rewrite captures_step by (by destruct cap as [|c cap]; [|injection Hh as ->]). change (line_start true 35) with false.
    rewrite <- !app_assoc, captures_plain by done. specialize (IH (pre ++ 35 :: cap)). rewrite length_app, <- !app_assoc in IH.
    cbn [length] in IH. rewrite <- plus_n_Sm in IH. exact IH.
  - intros here c s E Hl IH pre. destruct (no_entry here c s E) as [_ Hm]. rewrite !Hm. cbn [app].
    rewrite captures_step by (by apply elsewhere_existing). specialize (IH (pre ++ [c])). rewrite length_app, Nat.add_comm, <- !app_assoc in IH.
    exact IH.
Qed.

Lemma nothing_to_mark q here k pos s :
  Forall (fun x => q x.1 = false) (captures existing_entry here k pos s) -> mark q here k s = s.
Proof.
  revert here k pos. induction s as [|c s IH]; intros here k pos; [done|]. cbn [captures mark]. destruct k.
  - destruct (if here then _ else _) as [n|].
    + intros H. apply Forall_cons in H as [Hq H]. cbn [fst] in Hq. rewrite Hq. cbn [app]. f_equal. by eapply IH.
    + intros H. f_equal. by eapply IH.
  - intros H. f_equal. by eapply IH.
Qed.

Lemma prometheus_uncommented : uncommented prometheus_entry.
Proof.
  intros s n. unfold prometheus_entry, active_entry, nameserver_then. destruct (matches_at s NAMESERVER); [|done].
  destruct (_ =? 0)%nat; [done|]. intros _. by eexists.
Qed.

Definition PROMETHEUS : text := chars "nameserver 127.0.0.1".

Lemma appended_active s : orderly true s ->
  active_nameservers (mark every true 0 s ++ SUBVERSION) = [(PROMETHEUS, S (length (mark every true 0 s)))].
Proof.
  intros Hs. destruct (all_marked active_entry true s (PROMETHEUS ++ [10]) active_uncommented Hs) as [h Hh].
  unfold active_nameservers. change SUBVERSION with (10 :: PROMETHEUS ++ [10]). rewrite Hh. by destruct h.
Qed.

Lemma appended_found s : orderly true s ->
  find_prometheus_nameserver (mark every true 0 s ++ SUBVERSION) = Ok (Some (S (length (mark every true 0 s)), 21%nat)).
Proof.
  intros Hs. destruct (all_marked prometheus_entry true s (PROMETHEUS ++ [10]) prometheus_uncommented Hs) as [h Hh].
  unfold find_prometheus_nameserver. change SUBVERSION with (10 :: PROMETHEUS ++ [10]). rewrite Hh. by destruct h.
Qed.

(** ** What is shown of the active name servers *)
Lemma captures_elem e here k pos s x : x ∈ captures e here k pos s -> exists s' n, e s' = Some n /\ x.1 = take n s'.
Proof.
  revert here k pos. induction s as [|c s IH]; intros here k pos; [by intros ?%elem_of_nil|]. cbn [captures].
  destruct k; [|apply IH]. destruct here; [|apply IH]. destruct (e (c :: s)) as [n|] eqn:E; [|apply IH].
  intros [-> | H]%elem_of_cons; [by exists (c :: s), n|]. by eapply IH.
Qed.

Definition blank (ws : text) : Prop := ws <> [] /\ Forall (fun c => white c = true) ws.
Definition token (tok : text) : Prop := Forall (fun c => white c = false) tok.

Lemma run_blank ws tok : blank ws -> token tok -> run white (ws ++ tok) = length ws.
Proof.
  intros [_ Hw] Ht. rewrite run_all by done. destruct tok as [|c tok]; [apply Nat.add_0_r|]. cbn [run].
  rewrite (Forall_inv Ht). apply Nat.add_0_r.
Qed.

Lemma nameserver_then_parts next ws tok : blank ws -> token tok ->
  nameserver_then next (NAMESERVER ++ ws ++ tok) = (n ← next tok; Some (length NAMESERVER + length ws + n)%nat).
Proof.
  intros Hw Ht. unfold nameserver_then. rewrite (proj2 (matches_at_prefix _ _)) by (by eexists). rewrite drop_app_length, run_blank by done.
  destruct Hw as [Hne _]. destruct (Nat.eqb_spec (length ws) 0) as [E|_]; [by destruct ws|]. by rewrite drop_app_length.
Qed.

Lemma active_line s n : active_entry s = Some n -> exists ws tok, take n s = NAMESERVER ++ ws ++ tok /\ blank ws /\ token tok.
Proof.
  unfold active_entry, nameserver_then. destruct (matches_at s NAMESERVER) eqn:E; [|done]. apply matches_at_prefix in E as [s1 ->].
  rewrite drop_app_length. destruct (run_split white s1) as (ws & s2 & -> & -> & Hw & _). rewrite drop_app_length.
  destruct (Nat.eqb_spec (length ws) 0) as [|Hne]; [done|]. destruct (run_split (fun c => negb (white c)) s2) as (tok & s3 & -> & -> & Ht & _).
  cbn [mbind option_bind]. intros <-%(inj Some). exists ws, tok. rewrite <- !length_app, !app_assoc, take_app_length. split; [done|].
  split; [split; [by intros ->|done]|]. eapply Forall_impl; [exact Ht|]. intros c Hc. by apply negb_true_iff.
Qed.

Definition in_name (c : Z) : bool := negb (white c) && negb (c =? 35).

Lemma line_ip ws tok : blank ws -> token tok -> nameserver_line_to_ip (NAMESERVER ++ ws ++ tok) = Ret (take (run in_name tok) tok).
Proof.
  intros Hw Ht. unfold nameserver_line_to_ip. change (run white (NAMESERVER ++ ws ++ tok)) with 0%nat.
  cbv zeta. rewrite drop_0, nameserver_then_parts by done. cbn [mbind option_bind expect obind]. rewrite Nat.add_0_r, <- length_app, app_assoc, drop_app_length. done.
Qed.

Definition ascii_digits (decimal_digit : Z -> bool) : Prop := forall c, 0 <= c < 128 -> decimal_digit c = ascii_digit c.

Lemma anywhere_here p s : p s = true -> anywhere p s = true.
Proof. destruct s; cbn [anywhere]; intros ->; done. Qed.

Lemma prometheus_is_prometheus d ws r : ascii_digits d -> blank ws -> token r -> (head r = None \/ head r = Some 35) ->
  is_prometheus_ip d (NAMESERVER ++ ws ++ chars "127.0.0.1" ++ r) = true.
Proof.
  intros Hd Hw Hr Hh. assert (d 46 = false /\ d 48 = true /\ d 49 = true /\ d 50 = true /\ d 55 = true) as (H1 & H2 & H3 & H4 & H5).
  { split_and!; by apply Hd. }
  assert (d 35 = false) as H6 by (by apply Hd).
  assert (token (chars "127.0.0.1" ++ r)) as Ht by (apply Forall_app; split; [by repeat constructor|done]).
  unfold is_prometheus_ip. rewrite !anywhere_here; [done|..].
  - unfold prometheus_here, after. rewrite nameserver_then_parts by done. rewrite (proj2 (matches_at_prefix _ _)) by (by eexists).
    cbn [mbind option_bind]. rewrite <- length_app, app_assoc, drop_app, drop_ge, length_app by (rewrite !length_app; lia).
    rewrite Nat.add_sub_swap, Nat.sub_diag by lia. change (length (chars "127.0.0.1")) with 9%nat. cbn.
    destruct r as [|c r]; [done|]. destruct Hh as [|[= ->]]; done.
  - unfold syntax_here, after at 1. rewrite nameserver_then_parts by done. cbn [mbind option_bind].
    rewrite Nat.add_0_r, <- length_app, app_assoc, drop_app_length.
    change (chars "127.0.0.1" ++ r) with (49 :: 50 :: 55 :: 46 :: 48 :: 46 :: 48 :: 46 :: 49 :: r).
    unfold dotted, after, digits_1_3. repeat (cbn; rewrite ?H1, ?H2, ?H3, ?H4, ?H5).
    destruct r as [|c r]; [done|]. destruct Hh as [|[= ->]]; [done|]. repeat (cbn; rewrite ?H6). done.
Qed.

(** *** Inspecting *)
Lemma active_names c x : x ∈ active_nameservers c ->
  exists ws tok, x.1 = NAMESERVER ++ ws ++ tok /\ blank ws /\ token tok /\ nameserver_line_to_ip x.1 = Ret (take (run in_name tok) tok).
Proof.
  intros (s' & n & E & ->)%captures_elem. destruct (active_line s' n E) as (ws & tok & -> & Hw & Ht).
  exists ws, tok. split_and!; [done..|]. by apply line_ip.
Qed.

(** What [inspect] writes are the names of the active name servers: it never panics. *)
Lemma inspect_active c : active_nameservers c <> [] ->
  exists ips, inspect_contents c = Ret (Ok (lines ips)) /\ Forall2 (fun cap ip => nameserver_line_to_ip cap = Ret ip) (map fst (active_nameservers c)) ips.
Proof.
  intros Hne. unfold inspect_contents, check_disconnected. rewrite bool_decide_eq_false_2 by done.
  destruct (omapM_total (fun x => nameserver_line_to_ip x.1) (active_nameservers c)) as [ips Hips].
  { intros x Hx. destruct (active_names c x Hx) as (? & ? & _ & _ & _ & ->). by eexists. }
  rewrite Hips. exists ips. cbn [obind]. rewrite (fold_lines ips []). split; [done|]. apply Forall2_fmap_l. by apply omapM_ret_Forall2.
Qed.

Lemma inspect_same c c' : active_nameservers c <> [] -> map fst (active_nameservers c') = map fst (active_nameservers c) ->
  inspect_contents c' = inspect_contents c.
Proof.
  intros Hne E. destruct (inspect_active c Hne) as (ips & -> & H2). destruct (inspect_active c') as (ips' & -> & H2').
  { intros E'. rewrite E' in E. by destruct (active_nameservers c). }
  rewrite E in H2'. do 3 f_equal. revert ips' H2'. clear E. induction H2 as [|cap ip caps ips H _ IH]; intros ips' H2'; inversion H2' as [|? ip' ? ? H' H2''].
  - done.
  - f_equal; [congruence|by apply IH].
Qed.

Lemma ip_of_prometheus d x c ip :
  ascii_digits d -> x ∈ active_nameservers c -> nameserver_line_to_ip x.1 = Ret ip ->
  (newline ∉ ip) /\ (ip = chars "127.0.0.1" -> is_prometheus_ip d x.1 = true).
Proof.
  intros Hd Hx. destruct (active_names c x Hx) as (ws & tok & -> & Hw & Ht & ->). intros [= <-]. split.
  - intros Hn. assert (newline ∈ tok) as H by (rewrite <- (take_drop (run in_name tok)); set_solver).
    by apply (proj1 (Forall_forall _ _) Ht) in H.
  - destruct (run_split in_name tok) as (u & v & -> & -> & _ & Hv). rewrite take_app_length. intros ->. apply Forall_app in Ht as [_ Ht].
    apply prometheus_is_prometheus; [done..|]. destruct v as [|y v]; [by left|right]. cbn [head]. f_equal. unfold in_name in Hv.
    rewrite (Forall_inv Ht) in Hv. cbn in Hv. apply negb_false_iff, Z.eqb_eq in Hv. done.
Qed.

Lemma inspect_unsubverted d c : ascii_digits d -> active_nameservers c <> [] ->
  Forall (fun x => is_prometheus_ip d x.1 = false) (active_nameservers c) ->
  exists listed, inspect_contents c = Ret (Ok listed) /\ listed <> SUBVERTED.
Proof.
  intros Hd Hne Hn. destruct (inspect_active c Hne) as (ips & -> & H2). eexists. split; [done|]. apply Forall2_fmap_l in H2.
  intros E. apply lines_inj in E as ->.
  - inversion H2 as [|x ? l ? Hx Hl El]. inversion Hl; subst. rewrite <- El in Hn. apply Forall_cons in Hn as [Hn _].
    destruct (ip_of_prometheus d x c (chars "127.0.0.1")) as [_ Hp]; [done|rewrite <- El; by left|done|]. by rewrite Hp in Hn.
  - by apply (bool_decide_eq_false_1 _).
  - apply Forall_forall. intros ip Hip. apply list_elem_of_lookup in Hip as [i Hi].
    destruct (Forall2_lookup_r _ _ _ _ _ H2 Hi) as (x & Hx & Hxi). by eapply (ip_of_prometheus d x c); [|eapply list_elem_of_lookup_2|].
Qed.

(** ** There and back *)
Section there_and_back.
Context (decimal_digit : Z -> bool) (Hd : ascii_digits decimal_digit).
Context (s : text) (Hs : orderly true s) (Hne : active_nameservers s <> [])
  (Hn : Forall (fun x => is_prometheus_ip decimal_digit x.1 = false) (active_nameservers s)).

Definition subverted : text := mark every true 0 s ++ SUBVERSION.
Definition reverted : text := mark commented true 0 s ++ [10].

Lemma prometheus_active : is_prometheus_ip decimal_digit PROMETHEUS = true.
Proof. apply (prometheus_is_prometheus decimal_digit [32] []); [done|by split; [|repeat constructor]|constructor|by left]. Qed.

Lemma subverts : subvert_contents decimal_digit s = Ret (Ok subverted).
Proof.
  unfold subvert_contents. assert (existsb (fun x => is_prometheus_ip decimal_digit x.1) (active_nameservers s) = false) as He.
  { apply not_true_iff_false. rewrite existsb_exists. intros (x & Hx%list_elem_of_In & Hp). rewrite Forall_forall in Hn.
    by rewrite (Hn x Hx) in Hp. }
  unfold check_disconnected, check_for_nonsense. rewrite bool_decide_eq_false_2, He by done.
  destruct (active_nameservers s) as [|x l]; [done|]. cbn. rewrite (Forall_inv Hn).
  do 3 f_equal. apply (mark_all true 0 s []).
Qed.

Lemma stays_subverted : subvert_contents decimal_digit subverted = Ret (Ok subverted).
Proof.
  unfold subvert_contents, subverted. rewrite appended_active by done. unfold check_disconnected. rewrite bool_decide_eq_false_2 by done.
  unfold check_already_subverted. cbn [head expect obind fst]. by rewrite prometheus_active.
Qed.

Lemma shows_subverted : inspect_contents subverted = Ret (Ok SUBVERTED).
Proof.
  unfold inspect_contents, subverted. rewrite appended_active by done. unfold check_disconnected. by rewrite bool_decide_eq_false_2.
Qed.

Lemma reverts : revert_contents subverted = Ok reverted.
Proof.
  unfold revert_contents. unfold subverted at 1. rewrite appended_found by done. cbn [rbind]. cbv zeta.
  assert (remove_span subverted (S (length (mark every true 0 s))) 21 = mark every true 0 s ++ [10]) as ->.
  { unfold remove_span, subverted. set (M := mark every true 0 s). change SUBVERSION with ([10] ++ PROMETHEUS ++ [10]). rewrite app_assoc.
    replace (S (length M)) with (length (M ++ [10])) by (rewrite length_app; cbn; lia). rewrite take_app_length.
    rewrite drop_app, Nat.add_sub_swap, Nat.sub_diag, drop_ge by lia. apply app_nil_r. }
  assert (existing_nameservers (mark every true 0 s ++ [10]) <> []) as Hex.
  { intros E. assert (H := found_again true s Hs 0 0). unfold existing_nameservers in E. rewrite E in H.
    symmetry in H. cbn in H. apply map_eq_nil, map_eq_nil in H. done. }
  rewrite bool_decide_eq_false_2 by done. rewrite <- (fold_left_rev_right (fun x s => remove_at s x.2)), rev_involutive.
  f_equal. apply (unmark true s Hs []).
Qed.

Lemma reverted_active : map fst (active_nameservers reverted) = map fst (active_nameservers s).
Proof. by apply active_again. Qed.
End there_and_back.

(** C36: Subverting the DNS and turning it back are inverse. Of a file of whole lines whose entries are each
    on one line and name something, with active name servers none of which is the local host: subverted, it
    is marked as comment at every entry and names the local host, and that alone; subverted again it stays
    as it is, and inspected it shows 127.0.0.1. Turned back, it has the same name servers active as at first;
    it is the text of before with a newline more, but for a second mark that stays at the entries that
    were comments before. *)
Theorem subversion_round_trip decimal_digit s :
  ascii_digits decimal_digit -> orderly true s -> active_nameservers s <> [] ->
  Forall (fun x => is_prometheus_ip decimal_digit x.1 = false) (active_nameservers s) ->
  let subverted := mark every true 0 s ++ SUBVERSION in
  let reverted := mark commented true 0 s ++ [10] in
  subvert_contents decimal_digit s = Ret (Ok subverted) /\
  map fst (active_nameservers subverted) = [PROMETHEUS] /\
  subvert_contents decimal_digit subverted = Ret (Ok subverted) /\
  inspect_contents subverted = Ret (Ok SUBVERTED) /\
  revert_contents subverted = Ok reverted /\
  map fst (active_nameservers reverted) = map fst (active_nameservers s) /\
  (Forall (fun x => commented x.1 = false) (existing_nameservers s) -> reverted = s ++ [10]).
Proof.
  intros Hd Hs Hne Hn subverted reverted. split_and!.
  - by apply subverts.
  - unfold subverted. by rewrite appended_active.
  - by apply stays_subverted.
  - by apply shows_subverted.
  - by apply reverts.
  - by apply reverted_active.
  - intros Hc. unfold reverted. by rewrite (nothing_to_mark commented true 0 0).
Qed.

Definition sample : text :=
  chars "#comment" ++ [10] ++ chars "# nameserver 1.1.1.1" ++ [10] ++ chars "nameserver 8.8.8.8 # first" ++ [10] ++
  chars "  nameserver 9.9.9.9" ++ [10].

Lemma sample_orderly : orderly true sample.
Proof.
  split; [by right|]. change (Forall proper [(chars "# nameserver 1.1.1.1", 9%nat); (chars "nameserver 8.8.8.8", 30%nat);
    (chars "nameserver 9.9.9.9", 59%nat)]).
  repeat constructor; try (by apply (bool_decide_eq_false_1 _)); by eexists.
Qed.

Lemma subversion_round_trip_witness :
  subvert_contents ascii_digit sample = Ret (Ok (mark every true 0 sample ++ SUBVERSION)) /\
  revert_contents (mark every true 0 sample ++ SUBVERSION) = Ok (mark commented true 0 sample ++ [10]).
Proof.
  destruct (subversion_round_trip ascii_digit sample) as (H1 & _ & _ & _ & H2 & _); [by intros c _|apply sample_orderly|done| |by split].
  apply (bool_decide_unpack _). vm_compute. constructor.
Defined.

(** ** The modifier keeps its promises *)
Section modifier.
Context (decimal_digit : Z -> bool) (Hd : ascii_digits decimal_digit).

Definition set_up (w : linux) : Prop :=
  (exists s, file w = Some s /\ orderly true s /\ active_nameservers s <> [] /\
     Forall (fun x => is_prometheus_ip decimal_digit x.1 = false) (active_nameservers s)) /\
  (forall for_write, opens w for_write = None) /\ seek w = None /\ set_len w = None /\ (forall t, write w t = Ok t).

Lemma modify_file f w s s' :
  file w = Some s -> (forall for_write, opens w for_write = None) -> seek w = None -> set_len w = None -> (forall t, write w t = Ok t) ->
  f s = Ret (Ok s') -> modify f w = Ret (with_file w s', Ok tt).
Proof.
  intros Hf Ho Hk Hl Hw Hm. unfold modify, open_resolv_conf. rewrite Ho, Hf, Hm. cbn [obind].
  unfold replace_contents, replace_contents_system. by rewrite Hk, Hl, Hw.
Qed.

Lemma with_file_twice w s s' : with_file (with_file w s) s' = with_file w s'.
Proof. done. Qed.

Program Definition ResolvConfLaws : @DnsModifierLaws linux (ResolvConfDnsModifier decimal_digit) :=
  {| configured := set_up |}.
Next Obligation.
  intros w ((s & Hf & Hs & Hne & Hn) & Ho & _). cbn [inspect ResolvConfDnsModifier]. unfold open_resolv_conf. rewrite Ho, Hf.
  destruct (inspect_unsubverted decimal_digit s Hd Hne Hn) as (listed & -> & Hl). by exists listed.
Qed.
Next Obligation.
  intros w ((s & Hf & Hs & Hne & Hn) & Ho & Hk & Hl & Hw). exists (with_file w (subverted s)).
  cbn [subvert revert inspect ResolvConfDnsModifier]. split_and!.
  - by apply (modify_file _ w s); [..|apply subverts].
  - unfold open_resolv_conf. cbn. rewrite Ho. by rewrite shows_subverted.
  - rewrite (modify_file _ _ (subverted s) (subverted s)) by (done || by apply stays_subverted). done.
  - exists (with_file w (reverted s)). split.
    + rewrite (modify_file _ _ (subverted s) (reverted s)) by (done || (f_equal; by apply reverts)). done.
    + unfold open_resolv_conf. cbn. rewrite Ho, Hf. rewrite (inspect_same s); [done..|by apply reverted_active].
Qed.
End modifier.

(** A modification that fails before anything is written leaves the file as it was. *)
Lemma failed_modification_keeps_file f w w' e :
  seek w = None -> set_len w = None -> (forall t, write w t = Ok t) -> modify f w = Ret (w', Err e) -> w' = w.
Proof.
  intros Hk Hl Hw. unfold modify. destruct (open_resolv_conf w true) as [contents|]; [|by intros [= <- _]].
  destruct (f contents) as [[s|]| |]; try done; [|by intros [= <- _]]. cbn [obind]. unfold replace_contents, replace_contents_system.
  by rewrite Hk, Hl, Hw.
Qed.

(** A name server that was added to a subverted file, and not commented out, loses its first character
    when the file is turned back. *)
Example added_nameserver_is_maimed :
  revert_contents (chars "#nameserver 8.8.8.8" ++ [10] ++ chars "nameserver 127.0.0.1" ++ [10] ++ chars "nameserver 9.9.9.9" ++ [10]) =
  Ok (chars "nameserver 8.8.8.8" ++ [10] ++ chars "ameserver 9.9.9.9" ++ [10]).
Proof. vm_compute. reflexivity. Qed.

(** Another name server whose address begins like that of the local host is taken for it. *)
Example similar_nameserver_is_maimed :
  revert_contents (chars "#nameserver 8.8.8.8" ++ [10] ++ chars "nameserver 127.0.0.153" ++ [10]) =
  Ok (chars "nameserver 8.8.8.8" ++ [10] ++ chars "53" ++ [10]).
Proof. vm_compute. reflexivity. Qed.
