(* ===== verification/DynamicStore.v ===== *)
(** * DynamicStore: how the DNS of a macOS system is subverted and reverted

    [DynamicStoreDnsModifier] of dns_utility/src/dynamic_store_dns_modifier.rs. The dynamic store of the
    system and the property lists of Core Foundation are parameters: what the store gives for a path and whether it takes a new dictionary, and how
    a property list is made from and taken for a string or an array. *)
From S2P Require Import Prelude Text DnsModifier.

(** CFString, CFArray and CFPropertyList *)
Class CoreFoundation (CFPropertyList : Type) := {
  CFString_from : text -> CFPropertyList;
  CFArray_from : list CFPropertyList -> CFPropertyList;
  as_CFString : CFPropertyList -> option text;
  as_CFArray : CFPropertyList -> option (list CFPropertyList) }.

Class CoreFoundationLaws (CFPropertyList : Type) `{CoreFoundation CFPropertyList} := {
  string_downcast s : as_CFString (CFString_from s) = Some s;
  array_downcast l : as_CFArray (CFArray_from l) = Some l }.

(** SCDynamicStore: [get] of a path where there is a dictionary, and [set] *)
Class SCDynamicStore (CFPropertyList World : Type) := {
  get : World -> text -> option (gmap text CFPropertyList);
  set : World -> text -> gmap text CFPropertyList -> World * bool }.

Definition PRIMARY_SERVICE : text := chars "PrimaryService".
Definition SERVER_ADDRESSES : text := chars "ServerAddresses".
Definition SERVER_ADDRESSES_BAK : text := chars "ServerAddressesBak".

Definition process_msg (msg : text) (for_write : bool) : text :=
  if for_write then msg ++ chars "; DNS settings cannot be modified" else msg.

Section contents.

(** [get_active_addresses_and_first] *)
Definition get_active_addresses_and_first (contents : gmap text (list text)) : result (list text * text) text :=
  match contents !! SERVER_ADDRESSES with
  | None => Err (chars "This system has no DNS settings to modify; aborting")
  | Some active_addresses =>
      match active_addresses with
      | [] => Err (chars "This system does not appear to be connected to a network; DNS settings cannot be modified")
      | fa :: _ => Ok (active_addresses, fa)
      end
  end.

Definition subvert_contents (contents : gmap text (list text)) : result (option (gmap text (list text))) text :=
  let? (active_addresses, first_address) := get_active_addresses_and_first contents in
  if bool_decide (first_address = chars "127.0.0.1") then Ok None
  else if bool_decide (chars "127.0.0.1" ∈ active_addresses) then Err (chars "This system's DNS settings don't make sense; aborting")
  else Ok (Some (<[SERVER_ADDRESSES_BAK := active_addresses]> (<[SERVER_ADDRESSES := [chars "127.0.0.1"]]> ∅))).

Definition revert_contents (contents : gmap text (list text)) : result (option (gmap text (list text))) text :=
  let? (_, first_address) := get_active_addresses_and_first contents in
  if negb (bool_decide (first_address = chars "127.0.0.1")) then Ok None
  else match contents !! SERVER_ADDRESSES_BAK with
       | None => Err (chars "This system has no backed-up DNS settings to restore; aborting")
       | Some backup_addresses => Ok (Some {[SERVER_ADDRESSES := backup_addresses]})
       end.
End contents.

Section dynamic_store.
Context {CFPropertyList World : Type} `{!CoreFoundation CFPropertyList, !SCDynamicStore CFPropertyList World}.

(** [StoreWrapperReal::set_dictionary_string_cfpl]: only arrays are kept. *)
Definition set_dictionary_string_cfpl (w : World) (path : text) (dictionary : gmap text CFPropertyList) : World * bool :=
  set w path (filter (fun kv => is_Some (as_CFArray kv.2)) dictionary).

Definition get_server_addresses (dns_map : gmap text CFPropertyList) (dns_base_path dns_leaf : text) (for_write : bool) :
    result (option (list text)) text :=
  match dns_map !! dns_leaf with
  | None => Ok None
  | Some server_addresses_cfpl =>
      match as_CFArray server_addresses_cfpl with
      | None =>
          Err (process_msg (chars "Dynamic-Store path " ++ dns_base_path ++ chars "/" ++ dns_leaf ++ chars " is not an array") for_write)
      | Some server_address_cfpls =>
          match mapM as_CFString server_address_cfpls with
          | None =>
              Err (process_msg
                (chars "Dynamic-Store path " ++ dns_base_path ++ chars "/" ++ dns_leaf ++ chars " is not an array of strings") for_write)
          | Some server_addresses => Ok (Some server_addresses)
          end
      end
  end.

Definition service_path (primary_service : text) : text := chars "State:/Network/Service/" ++ primary_service ++ chars "/DNS".

Definition get_dns_info (w : World) (for_write : bool) : result (text * gmap text (list text)) text :=
  match get w (chars "State:/Network/Global/IPv4") with
  | None => Err (process_msg (chars "Dynamic-Store path State:/Network/Global/IPv4 not found") for_write)
  | Some ipv4_map =>
      match ipv4_map !! PRIMARY_SERVICE with
      | None => Err (process_msg (chars "Dynamic-Store path State:/Network/Global/IPv4/PrimaryService not found") for_write)
      | Some primary_service_cfpl =>
          match as_CFString primary_service_cfpl with
          | None => Err (process_msg (chars "Dynamic-Store path State:/Network/Global/IPv4/PrimaryService is not a string") for_write)
          | Some primary_service =>
              let dns_base_path := service_path primary_service in
              match get w dns_base_path with
              | None => Err (process_msg (chars "This system has no DNS settings") for_write)
              | Some dns_map =>
                  let? addresses := get_server_addresses dns_map dns_base_path SERVER_ADDRESSES for_write in
                  let result := match addresses with Some sa => <[SERVER_ADDRESSES := sa]> ∅ | None => ∅ end in
                  Ok (dns_base_path,
                      match get_server_addresses dns_map dns_base_path SERVER_ADDRESSES_BAK for_write with
                      | Ok (Some sa) => <[SERVER_ADDRESSES_BAK := sa]> result
                      | _ => result
                      end)
              end
          end
      end
  end.

Definition set_dns_info (w : World) (dns_base_path : text) (dns_info : gmap text (list text)) : World * result unit text :=
  let keys_and_values := (fun value => CFArray_from (map CFString_from value)) <$> dns_info in
  let (w', ok) := set_dictionary_string_cfpl w dns_base_path keys_and_values in
  (w', if ok : bool then Ok tt else Err (chars "Error changing DNS settings. Are you sure you ran me with sudo?")).

(** [subvert] and [revert] *)
Definition modify (modified : gmap text (list text) -> result (option (gmap text (list text))) text) (w : World) : World * result unit text :=
  match get_dns_info w true with
  | Err e => (w, Err e)
  | Ok (dns_base_path, dns_info) =>
      match modified dns_info with
      | Err e => (w, Err e)
      | Ok None => (w, Ok tt)
      | Ok (Some c) => set_dns_info w dns_base_path c
      end
  end.

(** [join] with newlines between, and a newline behind *)
Fixpoint join (l : list text) : text :=
  match l with
  | [] => []
  | [x] => x
  | x :: l' => x ++ newline :: join l'
  end.

Definition inspect_addresses (w : World) : result text text :=
  let? (_, dns_info) := get_dns_info w false in
  match dns_info !! SERVER_ADDRESSES with
  | None => Err (chars "This system has no DNS settings")
  | Some active_addresses => Ok (join active_addresses ++ [newline])
  end.

Definition DynamicStoreDnsModifier : DnsModifier World := {|
  type_name := "DynamicStoreDnsModifier";
  subvert := fun w => Ret (modify subvert_contents w);
  revert := fun w => Ret (modify revert_contents w);
  inspect := fun w => Ret (inspect_addresses w) |}.
End dynamic_store.

Class SCDynamicStoreLaws (CFPropertyList World : Type) `{SCDynamicStore CFPropertyList World} := {
  get_set_same w path d w' : set w path d = (w', true) -> get w' path = Some d;
  get_set_other w path d w' path' : set w path d = (w', true) -> path' <> path -> get w' path' = get w path' }.

(** ** What is stored is found again *)
Section laws.
Context {CFPropertyList World : Type} `{!CoreFoundation CFPropertyList, !SCDynamicStore CFPropertyList World}
  `{!CoreFoundationLaws CFPropertyList, !SCDynamicStoreLaws CFPropertyList World}.

Definition dictionary (dns_info : gmap text (list text)) : gmap text CFPropertyList :=
  filter (fun kv => is_Some (as_CFArray kv.2)) ((fun value => CFArray_from (map CFString_from value)) <$> dns_info).

Lemma dictionary_lookup dns_info leaf :
  dictionary dns_info !! leaf = (fun value => CFArray_from (map CFString_from value)) <$> dns_info !! leaf.
Proof.
  unfold dictionary. rewrite map_lookup_filter, lookup_fmap. destruct (dns_info !! leaf) as [value|]; [|done]. cbn.
  by rewrite option_guard_True by (rewrite array_downcast; by eexists).
Qed.

Lemma mapM_strings l : mapM as_CFString (map CFString_from l) = Some l.
Proof. induction l as [|s l IH]; [done|]. cbn. rewrite string_downcast. cbn. by rewrite IH. Qed.

Lemma stored_addresses dns_info path leaf b : get_server_addresses (dictionary dns_info) path leaf b = Ok (dns_info !! leaf).
Proof.
  unfold get_server_addresses. rewrite dictionary_lookup. destruct (dns_info !! leaf) as [value|]; [|done]. cbn.
  by rewrite array_downcast, mapM_strings.
Qed.

Lemma service_path_other primary_service : chars "State:/Network/Global/IPv4" <> service_path primary_service.
Proof. done. Qed.

(** Of what is stored, the addresses and their backup are all that [get_dns_info] looks for. *)
Lemma get_dns_info_stored w w' path dns_info c :
  get_dns_info w true = Ok (path, dns_info) -> set_dns_info w path c = (w', Ok tt) -> dom c ⊆ {[SERVER_ADDRESSES; SERVER_ADDRESSES_BAK]} ->
  forall b, get_dns_info w' b = Ok (path, c).
Proof.
  unfold get_dns_info. destruct (get w _) as [ipv4_map|] eqn:E4; [|done]. destruct (ipv4_map !! _) as [cfpl|] eqn:Ep; [|done].
  destruct (as_CFString cfpl) as [primary_service|] eqn:Es; [|done]. cbv zeta. destruct (get w (service_path primary_service)); [|done].
  destruct (get_server_addresses _ _ SERVER_ADDRESSES _); [|done]. cbn [rbind]. intros [= <- _].
  unfold set_dns_info, set_dictionary_string_cfpl. fold (dictionary c). destruct (set _ _ _) as [w1 ok] eqn:E. destruct ok; [|done].
  intros [= ->] Hdom b. rewrite (get_set_other _ _ _ _ _ E) by apply service_path_other. rewrite E4, Ep, Es, (get_set_same _ _ _ _ E).
  rewrite !stored_addresses. cbn [rbind]. do 2 f_equal. apply map_eq. intros k.
  destruct (decide (k = SERVER_ADDRESSES_BAK)) as [->|Hb].
  { destruct (c !! SERVER_ADDRESSES_BAK); [apply lookup_insert_eq|]. destruct (c !! _); [|apply lookup_empty].
    by rewrite lookup_insert_ne, lookup_empty. }
  assert ((match c !! SERVER_ADDRESSES with Some sa => <[SERVER_ADDRESSES := sa]> ∅ | None => ∅ end : gmap text (list text)) !! k = c !! k) as Ek.
  { destruct (decide (k = SERVER_ADDRESSES)) as [->|Ha].
    - destruct (c !! SERVER_ADDRESSES); [apply lookup_insert_eq|apply lookup_empty].
    - rewrite (not_elem_of_dom_1 c k) by set_solver. destruct (c !! _); [|apply lookup_empty]. by rewrite lookup_insert_ne, lookup_empty. }
  destruct (c !! SERVER_ADDRESSES_BAK); [|done]. by rewrite lookup_insert_ne.
Qed.

Lemma join_lines l : l <> [] -> join l ++ [newline] = lines l.
Proof.
  induction l as [|x [|y l] IH]; intros H; [done|by unfold lines; cbn [map concat]; rewrite app_nil_r|].
  change (join (x :: y :: l)) with (x ++ newline :: join (y :: l)). rewrite <- app_assoc. cbn [app]. rewrite IH by done.
  unfold lines. cbn [map concat]. by rewrite <- !app_assoc.
Qed.

(** The system has addresses, the local host not among them, and its store can be written. *)
Definition set_up (w : World) : Prop :=
  exists path dns_info sa,
    (forall b, get_dns_info w b = Ok (path, dns_info)) /\ dns_info !! SERVER_ADDRESSES = Some sa /\ sa <> [] /\
    (chars "127.0.0.1" ∉ sa) /\ Forall (fun a => newline ∉ a) sa /\
    (forall d, exists w', set w path d = (w', true) /\ forall d', exists w'', set w' path d' = (w'', true)).

Lemma active_first dns_info sa : dns_info !! SERVER_ADDRESSES = Some sa -> sa <> [] ->
  exists fa, get_active_addresses_and_first dns_info = Ok (sa, fa) /\ fa ∈ sa.
Proof.
  intros H Hne. unfold get_active_addresses_and_first. rewrite H. destruct sa as [|fa sa]; [done|]. exists fa. split; [done|]. by left.
Qed.

Lemma set_dns_info_ok w path c : (exists w', set w path (dictionary c) = (w', true)) -> exists w', set_dns_info w path c = (w', Ok tt) /\
  set w path (dictionary c) = (w', true).
Proof.
  intros [w' H]. exists w'. unfold set_dns_info, set_dictionary_string_cfpl. fold (dictionary c). by rewrite H.
Qed.

Program Definition DynamicStoreLaws : @DnsModifierLaws World DynamicStoreDnsModifier := {| configured := set_up |}.
Next Obligation.
  intros w (path & dns_info & sa & Hi & Ha & Hne & Hn & Hl & _). cbn [inspect DynamicStoreDnsModifier]. unfold inspect_addresses.
  rewrite Hi. cbn [rbind]. rewrite Ha. eexists. split; [done|]. rewrite join_lines by done. unfold SUBVERTED.
  intros E%lines_inj; [|by apply (bool_decide_eq_false_1 _)|done]. subst. apply Hn. by left.
Qed.
Next Obligation.
  intros w (path & dns_info & sa & Hi & Ha & Hne & Hn & Hl & Hset). cbn [subvert revert inspect DynamicStoreDnsModifier].
  destruct (active_first _ _ Ha Hne) as (fa & Hfirst & Hfa).
  set (c := <[SERVER_ADDRESSES_BAK := sa]> (<[SERVER_ADDRESSES := [chars "127.0.0.1"]]> ∅) : gmap text (list text)).
  assert (c !! SERVER_ADDRESSES = Some [chars "127.0.0.1"] /\ c !! SERVER_ADDRESSES_BAK = Some sa) as [Hc1 Hc2] by done.
  destruct (Hset (dictionary c)) as (w1 & H1 & Hset1).
  destruct (set_dns_info_ok w path c) as (w1' & Hs1 & Hw1); [by exists w1|]. rewrite H1 in Hw1. injection Hw1 as <-.
  destruct (set_dns_info_ok w1 path {[SERVER_ADDRESSES := sa]} (Hset1 _)) as (w2 & Hs2 & _).
  assert (forall b, get_dns_info w1 b = Ok (path, c)) as Hi1.
  { eapply get_dns_info_stored; [apply Hi|done|]. unfold c. rewrite !dom_insert_L. set_solver. }
  assert (forall b, get_dns_info w2 b = Ok (path, {[SERVER_ADDRESSES := sa]})) as Hi2.
  { eapply get_dns_info_stored; [apply Hi1|done|]. rewrite dom_singleton_L. set_solver. }
  exists w1. unfold modify, inspect_addresses. rewrite !Hi, !Hi1. unfold subvert_contents, revert_contents. rewrite Hfirst.
  cbn [rbind]. rewrite (bool_decide_eq_false_2 (fa = _)) by (by intros ->).
  rewrite (bool_decide_eq_false_2 (_ ∈ sa)) by done.
  unfold get_active_addresses_and_first. rewrite Hc1, Hc2, Ha. cbn [rbind]. fold c. rewrite Hs1.
  split_and!; [done..|]. exists w2. rewrite bool_decide_eq_true_2 by done. cbn [negb]. rewrite Hs2. split; [done|]. rewrite Hi2. cbn [rbind].
  by rewrite lookup_singleton_eq.
Qed.

(** Whatever else the dictionary held for the DNS of the service, the domains to search for one, is lost
    with the first modification, and does not come back. *)
Lemma modification_forgets_the_rest w w' path c d :
  set_dns_info w path c = (w', Ok tt) -> get w' path = Some d -> dom d ⊆ dom c.
Proof.
  unfold set_dns_info, set_dictionary_string_cfpl. fold (dictionary c). destruct (set _ _ _) as [w1 ok] eqn:E. destruct ok; [|done].
  intros [= ->]. rewrite (get_set_same _ _ _ _ E). intros [= <-]. intros k Hk. apply elem_of_dom in Hk as [v Hv].
  rewrite dictionary_lookup in Hv. apply elem_of_dom. destruct (c !! k); [by eexists|done].
Qed.
End laws.
