(* ===== verification/WinDns.v ===== *)
(** * WinDns: how the DNS of a Windows system is subverted and reverted

    [WinDnsModifier] of dns_utility/src/win_dns_modifier.rs and [NetshCommand] of netsh.rs. The
    registry (winreg), the list of adapters (ipconfig) and the outcome of the netsh command are
    parameters, the operations of [WinSystem], on a state of the system. A [RegKey] is the key it is a
    handle of, whatever the access asked for. *)
From S2P Require Import Prelude Text DnsModifier.

Definition NOT_FOUND : Z := 2.
Definition PERMISSION_DENIED : Z := 5.
Definition PERMISSION_DENIED_STR : text := chars "Permission denied".

(** [io::Error]: the error of the operating system, and its renderings for {} and {:?} *)
Record io_error := mk_io_error { raw_os_error : option Z; display : text; debug : text }.

Inductive access := KEY_READ | KEY_ALL_ACCESS.
#[global] Instance access_eq_dec : EqDecision access.
Proof. solve_decision. Defined.

Definition show_i32 (z : Z) : text := map ascii_code (if z <? 0 then ascii_of_code 45 :: dec (- z) else dec z).

Class WinSystem (World RegKey : Type) := {
  HKEY_LOCAL_MACHINE : RegKey;
  enum_keys : World -> RegKey -> list (result text io_error);
  open_subkey : World -> RegKey -> text -> access -> result RegKey io_error;
  get_value : World -> RegKey -> text -> result text io_error;
  set_value : World -> RegKey -> text -> text -> World * result unit io_error;
  delete_value : World -> RegKey -> text -> World * result unit io_error;
  get_adapters : World -> option (list (text * text));
  netsh_status : World -> list text -> World * result (option Z) io_error }.

(** ** netsh.rs *)
Inductive NetshError := NonZeroExit (code : Z) | NoCodeExit | IOError (e : io_error).

Definition make_set_args (interface_name address : text) : list text :=
  [chars "interface"; chars "ip"; chars "set"; chars "dns"; chars "name=" ++ [34] ++ interface_name ++ [34];
   chars "source=static"; chars "addr=" ++ address].

(** [str::split] at a character *)
Fixpoint split (c : Z) (s : text) : list text :=
  match s with
  | [] => [[]]
  | x :: s' =>
      if x =? c then [] :: split c s'
      else match split c s' with p :: ps => (x :: p) :: ps | [] => [[x]] end
  end.

Definition is_subverted (name_servers : text) : bool :=
  bool_decide (name_servers = chars "127.0.0.1") || bool_decide (chars "127.0.0.1," `prefix_of` name_servers).

Definition makes_no_sense (name_servers : text) : bool :=
  existsb (fun ip => bool_decide (ip = chars "127.0.0.1")) (split 44 name_servers).

Definition plus {A} (source : list A) (item : A) : list A := source ++ [item].

Definition NAME_SERVER : text := chars "NameServer".
Definition NAME_SERVER_BAK : text := chars "NameServerBak".
Definition INTERFACES : text := chars "SYSTEM\CurrentControlSet\Services\Tcpip\Parameters\Interfaces".

Definition handle_reg_error {A} (read_only : bool) (r : result A io_error) : result A text :=
  match r with
  | Ok retval => Ok retval
  | Err e =>
      if bool_decide (raw_os_error e = Some PERMISSION_DENIED) then
        Err (chars "You must have administrative privilege to modify your DNS settings")
      else if bool_decide (raw_os_error e = Some NOT_FOUND) then
        Err (chars "Registry contains no DNS information " ++ if read_only then chars "to display" else chars "to modify")
      else Err (chars "Unexpected error: " ++ debug e)
  end.

(** [iter().flat_map(|r| r)] over results *)
Definition oks {A E} (l : list (result A E)) : list A := omap (fun r => match r with Ok a => Some a | Err _ => None end) l.
Definition errs {A E} (l : list (result A E)) : list E := omap (fun r => match r with Ok _ => None | Err e => Some e end) l.
Definition is_ok {A E} (r : result A E) : bool := match r with Ok _ => true | Err _ => false end.

Section windows.
Context {World RegKey : Type} `{!WinSystem World RegKey} (to_lowercase : text -> text).

(** [RegKeyReal] *)
Record RegKeyReal := mk_RegKeyReal { delegate : RegKey; path : text }.

Definition open_subkey_with_flags (w : World) (key : RegKeyReal) (p : text) (perms : access) : result RegKeyReal io_error :=
  let? d := open_subkey w (delegate key) p perms in Ok (mk_RegKeyReal d p).

Definition hive : RegKeyReal := mk_RegKeyReal HKEY_LOCAL_MACHINE (chars "HKEY_LOCAL_MACHINE").

Definition set_nameserver (w : World) (interface address : text) : World * result unit NetshError :=
  match netsh_status w (make_set_args interface address) with
  | (w', Ok status) =>
      (w', if bool_decide (status = Some 0) then Ok tt
           else match status with Some code => Err (NonZeroExit code) | None => Err NoCodeExit end)
  | (w', Err e) => (w', Err (IOError e))
  end.

Definition find_adapter_friendly_name (w : World) (interface : RegKeyReal) : option text :=
  match get_adapters w with
  | Some adapters =>
      option_map (fun found => found.2.2) (list_find (fun adapter => to_lowercase adapter.1 = to_lowercase (path interface)) adapters)
  | None => None
  end.

Definition netsh_message (e : NetshError) : text :=
  match e with
  | IOError e => if bool_decide (raw_os_error e = Some PERMISSION_DENIED) then PERMISSION_DENIED_STR else display e
  | NonZeroExit code => chars "NonZeroExit(" ++ show_i32 code ++ chars ")"
  | NoCodeExit => chars "NoCodeExit"
  end.

Definition set_nameservers (w : World) (interface : RegKeyReal) (nameservers : text) : World * result unit text :=
  match find_adapter_friendly_name w interface with
  | Some friendly_name =>
      let (w', r) := set_nameserver w friendly_name nameservers in (w', rmap_err netsh_message r)
  | None => (w, Err (chars "Could not find adapter name for interface: " ++ path interface))
  end.

Definition get_default_gateway (w : World) (interface : RegKeyReal) : option text :=
  let string_opt :=
    match get_value w (delegate interface) (chars "DefaultGateway"), get_value w (delegate interface) (chars "DhcpDefaultGateway") with
    | Ok _, Ok ddg => Some ddg
    | Ok dg, Err _ => Some dg
    | Err _, Ok ddg => Some ddg
    | Err _, Err _ => None
    end in
  match string_opt with
  | Some [] => None
  | Some s => Some s
  | None => None
  end.

(** The interfaces that can be opened *)
Definition subkeys (w : World) (interface_key : RegKeyReal) (perms : access) : list RegKeyReal :=
  oks (map (fun interface_name => open_subkey_with_flags w interface_key interface_name perms) (oks (enum_keys w (delegate interface_key)))).

Definition find_interfaces_to_revert (w : World) : result (list RegKeyReal) text :=
  let? interface_key := handle_reg_error false (open_subkey_with_flags w hive INTERFACES KEY_ALL_ACCESS) in
  Ok (filter (fun interface => is_ok (get_value w (delegate interface) NAME_SERVER_BAK) = true) (subkeys w interface_key KEY_ALL_ACCESS)).

Definition gateway_interface (w : World) (interface : RegKeyReal) : bool :=
  bool_decide (is_Some (get_default_gateway w interface)) && is_ok (get_value w (delegate interface) NAME_SERVER).

Definition find_interfaces (w : World) (access_required : access) : result (list RegKeyReal) text :=
  let? interface_key := handle_reg_error (bool_decide (access_required = KEY_READ)) (open_subkey_with_flags w hive INTERFACES access_required) in
  let gateway_interfaces := filter (fun interface => gateway_interface w interface = true) (subkeys w interface_key access_required) in
  if bool_decide (gateway_interfaces = []) then
    Err (chars "This system has no accessible network interfaces configured with default gateways and DNS servers")
  else
    let distinct_gateway_ips := remove_dups (omap (get_default_gateway w) gateway_interfaces) in
    if (1 <? length distinct_gateway_ips)%nat then
      Err (chars "This system has " ++ show_i32 (Z.of_nat (length gateway_interfaces)) ++ chars " active network interfaces configured with " ++
           show_i32 (Z.of_nat (length distinct_gateway_ips)) ++ chars " different default gateways. " ++
           match access_required with
           | KEY_ALL_ACCESS => chars "Manual configuration required."
           | KEY_READ => chars "Cannot summarize DNS settings."
           end)
    else Ok gateway_interfaces.

Definition find_interfaces_to_subvert (w : World) : result (list RegKeyReal) text := find_interfaces w KEY_ALL_ACCESS.
Definition find_interfaces_to_inspect (w : World) : result (list RegKeyReal) text := find_interfaces w KEY_READ.

Definition find_dns_servers_for_interface (w : World) (interface : RegKeyReal) : result text text :=
  let neither := chars "Interface has neither NameServer nor DhcpNameServer; probably not connected" in
  match get_value w (delegate interface) (chars "DhcpNameServer"), get_value w (delegate interface) NAME_SERVER with
  | Err _, Err _ => Err neither
  | Err _, Ok [] => Err neither
  | Ok dhcp, Err _ => Ok dhcp
  | Ok dhcp, Ok [] => Ok dhcp
  | _, Ok permanent => Ok permanent
  end.

(** [join] with a separator *)
Fixpoint join (sep : text) (l : list text) : text :=
  match l with
  | [] => []
  | [x] => x
  | x :: l' => x ++ sep ++ join sep l'
  end.

Definition find_dns_server_list (w : World) (interfaces : list RegKeyReal) : outcome (result text text) :=
  let list_result_vec := map (find_dns_servers_for_interface w) interfaces in
  let errors := errs list_result_vec in
  if negb (bool_decide (errors = [])) then Ret (Err (join (chars ", ") errors))
  else
    let list_set := remove_dups (oks list_result_vec) in
    if (1 <? length list_set)%nat then
      Ret (Err (chars "This system has " ++ show_i32 (Z.of_nat (length interfaces)) ++ chars " active network interfaces configured with " ++
                show_i32 (Z.of_nat (length list_set)) ++ chars " different DNS server lists. Cannot summarize DNS settings."))
    else let* dns_server_list := expect (head list_set) in Ret (Ok dns_server_list).

Definition subvert_interface (w : World) (interface : RegKeyReal) : outcome (World * result unit text) :=
  let* name_servers := expect_ok (get_value w (delegate interface) NAME_SERVER) in
  if is_subverted name_servers then Ret (w, Ok tt)
  else if makes_no_sense name_servers then Ret (w, Err (chars "This system's DNS settings don't make sense; aborting"))
  else
    let (w1, r) := set_value w (delegate interface) NAME_SERVER_BAK name_servers in
    match handle_reg_error false r with
    | Err e => Ret (w1, Err e)
    | Ok _ =>
        let (w2, r2) := set_nameservers w1 interface (chars "127.0.0.1") in
        Ret (w2, rmap_err (fun e =>
          if bool_decide (e = PERMISSION_DENIED_STR) then chars "You must have administrative privilege to modify your DNS settings"
          else chars "Unexpected error: " ++ e) r2)
    end.

Definition roll_back_subvert (w : World) (interface : RegKeyReal) : outcome World :=
  match get_value w (delegate interface) NAME_SERVER_BAK with
  | Err _ => Ret w
  | Ok old_nameservers =>
      let (w1, r) := delete_value w (delegate interface) NAME_SERVER_BAK in
      let* _ := expect_ok r in
      let* name_servers := expect_ok (get_value w1 (delegate interface) NAME_SERVER) in
      if is_subverted name_servers then
        let (w2, r2) := set_nameservers w1 interface old_nameservers in
        let* _ := expect_ok r2 in Ret w2
      else Ret w1
  end.

Definition revert_interface (w : World) (interface : RegKeyReal) : outcome (World * result unit text) :=
  let* old_name_servers := expect_ok (get_value w (delegate interface) NAME_SERVER_BAK) in
  let not_found := match get_value w (delegate interface) NAME_SERVER with
                   | Err e => bool_decide (raw_os_error e = Some NOT_FOUND)
                   | Ok _ => false
                   end in
  let (w1, r) := if not_found then (w, Ok tt) else set_nameservers w interface old_name_servers in
  match r with
  | Err e =>
      Ret (w1, Err (if bool_decide (e = PERMISSION_DENIED_STR) then chars "You must have administrative privilege to modify your DNS settings"
                    else chars "Unexpected error: " ++ e))
  | Ok _ => let (w2, r2) := delete_value w1 (delegate interface) NAME_SERVER_BAK in Ret (w2, handle_reg_error false r2)
  end.

Definition roll_back_revert (w : World) (interface : RegKeyReal) : outcome World :=
  match get_value w (delegate interface) NAME_SERVER with
  | Err _ => Ret w
  | Ok old_nameservers =>
      if is_subverted old_nameservers then Ret w
      else
        let (w1, r) := set_value w (delegate interface) NAME_SERVER_BAK old_nameservers in
        let* _ := expect_ok r in
        let (w2, r2) := set_nameservers w1 interface (chars "127.0.0.1") in
        let* _ := expect_ok r2 in Ret w2
  end.

(** The folds of [subvert] and [revert]: interfaces are dealt with one after the other until one fails;
    those dealt with, the failing one included, are kept for rolling back. *)
Definition until_error (f : World -> RegKeyReal -> outcome (World * result unit text))
    (s : World * (list RegKeyReal * option text)) (interface : RegKeyReal) : outcome (World * (list RegKeyReal * option text)) :=
  let '(w, (so_far, error_opt)) := s in
  if bool_decide (is_Some error_opt) then Ret s
  else
    let* (w', r) := f w interface in
    Ret (w', (plus so_far interface, match r with Ok _ => error_opt | Err msg => Some msg end)).

Definition all_or_none (interfaces : list RegKeyReal) (f : World -> RegKeyReal -> outcome (World * result unit text))
    (roll_back : World -> RegKeyReal -> outcome World) (w : World) : outcome (World * result unit text) :=
  let* (w1, (so_far, error_opt)) := ofold (until_error f) (w, ([], None)) interfaces in
  match error_opt with
  | Some msg => let* w2 := ofold roll_back w1 so_far in Ret (w2, Err msg)
  | None => Ret (w1, Ok tt)
  end.

Definition win_subvert (w : World) : outcome (World * result unit text) :=
  match find_interfaces_to_subvert w with
  | Err e => Ret (w, Err e)
  | Ok interfaces => all_or_none interfaces subvert_interface roll_back_subvert w
  end.

Definition win_revert (w : World) : outcome (World * result unit text) :=
  match find_interfaces_to_revert w with
  | Err e => Ret (w, Err e)
  | Ok interfaces => all_or_none interfaces revert_interface roll_back_revert w
  end.

Definition win_inspect (w : World) : outcome (result text text) :=
  match find_interfaces_to_inspect w with
  | Err e => Ret (Err e)
  | Ok interfaces =>
      let* r := find_dns_server_list w interfaces in
      Ret (let? dns_server_list_csv := r in
           Ok (fold_left (fun so_far dns_server => so_far ++ dns_server ++ [newline]) (split 44 dns_server_list_csv) []))
  end.

Definition WinDnsModifier : DnsModifier World := {|
  type_name := "WinDnsModifier"; subvert := win_subvert; revert := win_revert; inspect := win_inspect |}.
End windows.
Arguments RegKeyReal : clear implicits.

(** ** What the system does when it succeeds, and when it fails *)
Section laws.
Context {World RegKey : Type} `{!WinSystem World RegKey} (to_lowercase : text -> text).

(** The same keys and adapters *)
Definition same_system (w w' : World) : Prop :=
  (forall k, enum_keys w' k = enum_keys w k) /\ (forall k p a, open_subkey w' k p a = open_subkey w k p a) /\
  get_adapters w' = get_adapters w.

Definition same_but (w w' : World) (key : RegKey) (name : text) : Prop :=
  (forall k n, (k, n) <> (key, name) -> get_value w' k n = get_value w k n) /\ same_system w w'.

(** [interface] is the handle of a key that was opened by its path. *)
Definition opened (w : World) (interface : RegKeyReal RegKey) : Prop :=
  exists root a, open_subkey w root (path interface) a = Ok (delegate interface).

Class WinSystemLaws := {
  set_value_ok w k n v w' : set_value w k n v = (w', Ok tt) -> get_value w' k n = Ok v /\ same_but w w' k n;
  set_value_err w k n v w' e : set_value w k n v = (w', Err e) -> w' = w;
  delete_value_ok w k n w' : delete_value w k n = (w', Ok tt) -> (exists e, get_value w' k n = Err e) /\ same_but w w' k n;
  delete_value_err w k n w' e : delete_value w k n = (w', Err e) -> w' = w;
  netsh_ok w interface friendly_name v w' :
    opened w interface ->
    find_adapter_friendly_name to_lowercase w interface = Some friendly_name ->
    netsh_status w (make_set_args friendly_name v) = (w', Ok (Some 0)) ->
    get_value w' (delegate interface) NAME_SERVER = Ok v /\ same_but w w' (delegate interface) NAME_SERVER;
  netsh_err w args w' r : netsh_status w args = (w', r) -> r <> Ok (Some 0) -> w' = w }.
Context `{!WinSystemLaws}.

Lemma set_nameservers_ok w i v w' : opened w i -> set_nameservers to_lowercase w i v = (w', Ok tt) ->
  get_value w' (delegate i) NAME_SERVER = Ok v /\ same_but w w' (delegate i) NAME_SERVER.
Proof.
  intros Ho. unfold set_nameservers. destruct (find_adapter_friendly_name to_lowercase w i) as [f|] eqn:Ef; [|done].
  unfold set_nameserver. destruct (netsh_status _ _) as [w1 [status|]] eqn:E; [|done].
  destruct (decide (status = Some 0)) as [->|Hne].
  - rewrite bool_decide_eq_true_2 by done. intros [= <-]. by eapply netsh_ok.
  - rewrite bool_decide_eq_false_2 by done. by destruct status.
Qed.

Lemma set_nameservers_err w i v w' e : set_nameservers to_lowercase w i v = (w', Err e) -> w' = w.
Proof.
  unfold set_nameservers. destruct (find_adapter_friendly_name to_lowercase w i) as [f|] eqn:Ef; [|by intros [= <- _]].
  unfold set_nameserver. destruct (netsh_status _ _) as [w1 [status|]] eqn:E.
  - destruct (decide (status = Some 0)) as [->|Hne]; [by rewrite bool_decide_eq_true_2|].
    intros [= <- _]. eapply netsh_err; [done|congruence].
  - intros [= <- _]. by eapply netsh_err.
Qed.

Lemma same_system_refl w : same_system w w.
Proof. by repeat split. Qed.

Lemma opened_same w w' i : same_system w w' -> opened w i -> opened w' i.
Proof. intros (_ & Hs & _) (root & a & Hr). exists root, a. by rewrite Hs. Qed.

Lemma same_system_trans w w1 w2 : same_system w w1 -> same_system w1 w2 -> same_system w w2.
Proof.
  intros (H1 & H2 & H3) (H4 & H5 & H6). split_and!; intros; [by rewrite H4|by rewrite H5|by rewrite H6].
Qed.

(** ** Where an interface stands *)
Context `{!EqDecision RegKey}.

Definition val (w : World) (k : RegKey) (n : text) : option text :=
  match get_value w k n with Ok v => Some v | Err _ => None end.

(** Whether it is backed up, and whether its name server is the local host *)
Record stage := mk_stage { backed_up : bool; local : bool }.

#[global] Instance stage_eq_dec : EqDecision stage.
Proof. solve_decision. Defined.

Definition untouched : stage := mk_stage false false.

Definition expected (w0 : World) (st : RegKey -> stage) (k : RegKey) (n : text) : option text :=
  if decide (n = NAME_SERVER_BAK) then val w0 k (if backed_up (st k) then NAME_SERVER else NAME_SERVER_BAK)
  else if decide (n = NAME_SERVER) then if local (st k) then Some (chars "127.0.0.1") else val w0 k NAME_SERVER
  else val w0 k n.

Definition at_stage (st : RegKey -> stage) (k : RegKey) (s : stage) : RegKey -> stage :=
  fun k' => if decide (k' = k) then s else st k'.

(** [w] is [w0] but for the interfaces that are backed up or made local, which were not subverted in [w0]. *)
Definition stands (w0 : World) (st : RegKey -> stage) (w : World) : Prop :=
  (forall k n, val w k n = expected w0 st k n) /\ same_system w0 w /\
  (forall k, st k <> untouched -> exists ns, val w0 k NAME_SERVER = Some ns /\ is_subverted ns = false).

Lemma val_ok w k n v : get_value w k n = Ok v -> val w k n = Some v.
Proof. unfold val. by intros ->. Qed.

Lemma val_some w k n v : val w k n = Some v -> get_value w k n = Ok v.
Proof. unfold val. by destruct (get_value w k n) as [v'|]; [intros [= ->]|]. Qed.

Lemma val_none w k n e : get_value w k n = Err e -> val w k n = None.
Proof. unfold val. by intros ->. Qed.

Lemma names_differ : NAME_SERVER <> NAME_SERVER_BAK.
Proof. by apply (bool_decide_eq_false_1 _). Qed.

Lemma expected_bak w0 st k : expected w0 st k NAME_SERVER_BAK = val w0 k (if backed_up (st k) then NAME_SERVER else NAME_SERVER_BAK).
Proof. unfold expected. by rewrite decide_True. Qed.

Lemma expected_ns w0 st k : expected w0 st k NAME_SERVER = if local (st k) then Some (chars "127.0.0.1") else val w0 k NAME_SERVER.
Proof. unfold expected. rewrite decide_False by apply names_differ. by rewrite decide_True. Qed.

Lemma expected_untouched w0 st k n : st k = untouched -> expected w0 st k n = val w0 k n.
Proof. unfold expected. intros ->. cbn. repeat case_decide; congruence. Qed.

Lemma at_stage_eq st k s : at_stage st k s k = s.
Proof. unfold at_stage. by rewrite decide_True. Qed.

Lemma at_stage_ne st k s k' : k' <> k -> at_stage st k s k' = st k'.
Proof. intros. unfold at_stage. by rewrite decide_False. Qed.

Lemma stands_ext w0 st st' w : (forall k, st' k = st k) -> stands w0 st w -> stands w0 st' w.
Proof. intros E (H1 & H2 & H3). split_and!; [|done|]; intros k; [|rewrite E; apply H3]. intros n. rewrite H1. unfold expected. by rewrite E. Qed.

Lemma stands_stays w0 st w k s : stands w0 st w -> st k = s -> stands w0 (at_stage st k s) w.
Proof. intros Hs Hk. eapply stands_ext; [|done]. intros k'. unfold at_stage. by case_decide; subst. Qed.

Lemma stands_twice w0 st w k s s' : stands w0 (at_stage (at_stage st k s) k s') w -> stands w0 (at_stage st k s') w.
Proof. apply stands_ext. intros k'. unfold at_stage. by repeat case_decide. Qed.

(** One value changes, and the stage with it. *)
Lemma stands_step w0 st w w' k n s :
  stands w0 st w -> same_but w w' k n ->
  val w' k n = expected w0 (at_stage st k s) k n ->
  (n = NAME_SERVER_BAK /\ local s = local (st k) \/ n = NAME_SERVER /\ backed_up s = backed_up (st k)) ->
  (exists ns, val w0 k NAME_SERVER = Some ns /\ is_subverted ns = false) ->
  stands w0 (at_stage st k s) w'.
Proof.
  intros (Hv & Hs & Hn) (Hb & Hs') He Hone Hsub. split_and!.
  - intros k' n'. destruct (decide (k' = k)) as [->|Hk].
    + destruct (decide (n' = n)) as [->|Hn']; [done|]. transitivity (val w k n'); [unfold val; by rewrite Hb by congruence|].
      rewrite Hv. unfold expected. rewrite at_stage_eq. destruct Hone as [[-> E]|[-> E]]; rewrite E; repeat case_decide; congruence.
    + transitivity (val w k' n'); [unfold val; by rewrite Hb by congruence|]. rewrite Hv. unfold expected. by rewrite at_stage_ne.
  - by eapply same_system_trans.
  - intros k'. unfold at_stage. destruct (decide (k' = k)) as [->|]; [done|apply Hn].
Qed.

(** *** Subverting one interface, and turning back what was done to it *)
Lemma opened_stands w0 st w i : stands w0 st w -> opened w0 i -> opened w i.
Proof. intros (_ & Hs & _). by apply opened_same. Qed.

Lemma subvert_interface_stands w0 st w i w' r :
  stands w0 st w -> opened w0 i -> st (delegate i) = untouched -> subvert_interface to_lowercase w i = Ret (w', r) ->
  exists s, stands w0 (at_stage st (delegate i) s) w' /\ (local s = true -> backed_up s = true) /\
    (r = Ok tt -> s = mk_stage true true \/
       s = untouched /\ exists ns, val w0 (delegate i) NAME_SERVER = Some ns /\ is_subverted ns = true).
Proof.
  intros Hs Ho Hst. unfold subvert_interface. destruct (get_value w (delegate i) NAME_SERVER) as [ns|] eqn:Hns; [|done].
  cbn [expect_ok obind]. apply val_ok in Hns. assert (Hs' := stands_stays _ _ _ _ _ Hs Hst).
  assert (val w0 (delegate i) NAME_SERVER = Some ns) as H0. { rewrite <- Hns. destruct Hs as [-> _]. by rewrite expected_untouched. }
  destruct (is_subverted ns) eqn:Hsub.
  { intros [= <- <-]. exists untouched. split_and!; [done..|]. intros _. right. split; [done|]. by exists ns. }
  destruct (makes_no_sense ns); [by intros [= <- <-]; exists untouched|].
  destruct (set_value w (delegate i) NAME_SERVER_BAK ns) as [w1 [[]|e]] eqn:E1.
  - cbn [handle_reg_error]. apply set_value_ok in E1 as [Hb Hsame]. apply val_ok in Hb.
    assert (stands w0 (at_stage st (delegate i) (mk_stage true false)) w1) as Hs1.
    { eapply stands_step; [done..| |left; by rewrite Hst|by exists ns]. rewrite Hb, expected_bak, at_stage_eq. done. }
    destruct (set_nameservers to_lowercase w1 i _) as [w2 [[]|e]] eqn:E2; intros [= <- <-].
    + apply set_nameservers_ok in E2 as [Hv Hsame2]; [|by eapply opened_stands]. apply val_ok in Hv. exists (mk_stage true true). split_and!; [|done|by left].
      eapply stands_twice, (stands_step _ _ w1); [exact Hs1|done| |right; by rewrite at_stage_eq|by exists ns].
      by rewrite Hv, expected_ns, at_stage_eq.
    + apply set_nameservers_err in E2 as ->. by exists (mk_stage true false).
  - apply set_value_err in E1 as ->. unfold handle_reg_error. repeat case_match; intros [= <- <-]; by exists untouched.
Qed.

Lemma roll_back_subvert_stands w0 st w i w' :
  stands w0 st w -> opened w0 i -> val w0 (delegate i) NAME_SERVER_BAK = None -> (local (st (delegate i)) = true -> backed_up (st (delegate i)) = true) ->
  roll_back_subvert to_lowercase w i = Ret w' -> stands w0 (at_stage st (delegate i) untouched) w'.
Proof.
  intros Hs Ho Hb Hlb. unfold roll_back_subvert. set (k := delegate i) in *. assert (Hval := Hs). destruct Hval as (Hval & _ & Hsub).
  assert (Hbak := Hval k NAME_SERVER_BAK). rewrite expected_bak in Hbak. destruct (st k) as [b l] eqn:Est. cbn [backed_up local] in *.
  destruct b; cycle 1.
  { destruct l; [by specialize (Hlb eq_refl)|]. rewrite Hb in Hbak. destruct (get_value w k NAME_SERVER_BAK) as [v|] eqn:E.
    - apply val_ok in E. congruence.
    - intros [= <-]. by apply stands_stays. }
  destruct (Hsub k) as (ns0 & H0 & Hsub0); [by rewrite Est|]. rewrite H0 in Hbak. rewrite (val_some _ _ _ _ Hbak).
  destruct (delete_value w k NAME_SERVER_BAK) as [w1 [[]|]] eqn:E1; [|done]. cbn [expect_ok obind].
  apply delete_value_ok in E1 as [[e He] Hsame]. assert (stands w0 (at_stage st k (mk_stage false l)) w1) as Hs1.
  { eapply stands_step; [done..| |left; by rewrite Est|by exists ns0]. rewrite (val_none _ _ _ _ He), expected_bak, at_stage_eq. done. }
  destruct (get_value w1 k NAME_SERVER) as [ns|] eqn:Hns; [|done]. cbn [expect_ok obind]. apply val_ok in Hns.
  assert (Hns1 := proj1 Hs1 k NAME_SERVER). rewrite expected_ns, at_stage_eq, Hns in Hns1. cbn [local] in Hns1. destruct l.
  - injection Hns1 as ->. change (is_subverted (chars "127.0.0.1")) with true. cbv iota.
    destruct (set_nameservers to_lowercase w1 i ns0) as [w2 [[]|]] eqn:E2; [|done]. intros [= <-].
    apply set_nameservers_ok in E2 as [Hv Hsame2]; [|by eapply opened_stands]. apply val_ok in Hv.
    eapply stands_twice, (stands_step _ _ w1); [exact Hs1|done| |right; by rewrite at_stage_eq|by exists ns0].
    fold k in Hv. by rewrite Hv, expected_ns, at_stage_eq.
  - rewrite H0 in Hns1. injection Hns1 as ->. rewrite Hsub0. intros [= <-]. done.
Qed.
(** *** All of them *)
Definition sane (st : RegKey -> stage) : Prop := forall k, local (st k) = true -> backed_up (st k) = true.

Definition settled (w0 : World) (st : RegKey -> stage) (k : RegKey) : Prop :=
  st k = mk_stage true true \/ st k = untouched /\ exists ns, val w0 k NAME_SERVER = Some ns /\ is_subverted ns = true.

Lemma until_error_stuck f l w so_far msg :
  ofold (until_error f) (w, (so_far, Some msg)) l = Ret (w, (so_far, Some msg)) :> outcome (World * (list (RegKeyReal RegKey) * option text)).
Proof. induction l as [|i l IH]; [done|]. cbn [ofold until_error]. by rewrite bool_decide_eq_true_2 by (by eexists). Qed.

Lemma sane_at st k s : sane st -> (local s = true -> backed_up s = true) -> sane (at_stage st k s).
Proof. intros Hst Hs k'. unfold at_stage. case_decide; [done|apply Hst]. Qed.

Lemma subvert_fold_stands w0 l : forall w st so_far w1 so_far' err,
  stands w0 st w -> sane st -> (forall i, i ∈ l -> opened w0 i) -> NoDup (map delegate (so_far ++ l)) -> (forall k, st k <> untouched -> k ∈ map delegate so_far) ->
  ofold (until_error (subvert_interface to_lowercase)) (w, (so_far, None)) l = Ret (w1, (so_far', err)) ->
  exists st1, stands w0 st1 w1 /\ sane st1 /\ (forall k, st1 k <> untouched -> k ∈ map delegate so_far') /\
    (forall i, i ∈ so_far' -> i ∈ so_far ++ l) /\ (forall k, k ∈ map delegate so_far -> st1 k = st k) /\
    (err = None -> so_far' = so_far ++ l /\ forall i, i ∈ l -> settled w0 st1 (delegate i)).
Proof.
  induction l as [|i l IH]; intros w st so_far w1 so_far' err Hs Hsane Ho Hnd Hsub.
  { intros [= <- <- <-]. exists st. split_and!; try done; [by rewrite app_nil_r|]. intros _. rewrite app_nil_r.
    split; [done|]. by intros i ?%elem_of_nil. }
  cbn [ofold until_error]. rewrite bool_decide_eq_false_2 by (by intros [? ?]).
  destruct (subvert_interface to_lowercase w i) as [[w' r]| |] eqn:E; [|done..]. cbn [obind].
  assert (Hni : delegate i ∉ map delegate so_far).
  { rewrite map_app in Hnd. apply NoDup_app in Hnd as (_ & Hnd & _). intros Hi. apply (Hnd _ Hi). by left. }
  assert (st (delegate i) = untouched) as Hst.
  { destruct (st (delegate i)) as [[] []] eqn:Es; [exfalso; apply Hni, Hsub; by rewrite Es..|done]. }
  destruct (subvert_interface_stands _ _ _ _ _ _ Hs (Ho i ltac:(left)) Hst E) as (s & Hs' & Hls & Hr).
  assert (forall k, at_stage st (delegate i) s k <> untouched -> k ∈ map delegate (plus so_far i)) as Hsub'.
  { intros k Hk. unfold plus. rewrite map_app. apply elem_of_app. unfold at_stage in Hk. case_decide; [right; subst; by left|left; by apply Hsub]. }
  assert (sane (at_stage st (delegate i) s)) as Hsane' by (by apply sane_at).
  assert (forall k, k ∈ map delegate so_far -> at_stage st (delegate i) s k = st k) as Hkeep by (intros k Hk; apply at_stage_ne; set_solver).
  assert (plus so_far i ++ l = so_far ++ i :: l) as El by (unfold plus; by rewrite <- app_assoc).
  destruct r as [[]|msg].
  - intros Hf. destruct (IH _ _ _ _ _ _ Hs' Hsane' ltac:(intros; apply Ho; by right) ltac:(by rewrite El) Hsub' Hf) as (st1 & H1 & H2 & H3 & H4 & H5 & H6).
    rewrite El in H4, H6. exists st1. split_and!; try done.
    + intros k Hk. rewrite H5 by (unfold plus; rewrite map_app; set_solver). by apply Hkeep.
    + intros He. destruct (H6 He) as [H7 H8]. split; [done|]. intros j [-> | Hj]%elem_of_cons; [|by apply H8].
      assert (st1 (delegate i) = s) as Ei by (rewrite H5 by (unfold plus; rewrite map_app; set_solver); apply at_stage_eq).
      unfold settled. rewrite Ei. by apply Hr.
  - rewrite until_error_stuck. intros [= <- <- <-]. exists (at_stage st (delegate i) s). split_and!; try done.
    intros j. unfold plus. set_solver.
Qed.

Lemma roll_back_fold_stands w0 l : forall w st w',
  stands w0 st w -> sane st -> (forall i, i ∈ l -> opened w0 i /\ val w0 (delegate i) NAME_SERVER_BAK = None) ->
  ofold (roll_back_subvert to_lowercase) w l = Ret w' ->
  exists st', stands w0 st' w' /\ (forall k, st k = untouched \/ k ∈ map delegate l -> st' k = untouched).
Proof.
  induction l as [|i l IH]; intros w st w' Hs Hsane Hb.
  { intros [= <-]. exists st. split; [done|]. intros k [|?%elem_of_nil]; done. }
  cbn [ofold]. intros (w1 & E & Hf)%obind_ret_inv. apply (roll_back_subvert_stands w0 st) in E; [|done|apply Hb; by left|apply Hb; by left|by apply Hsane].
  destruct (IH w1 (at_stage st (delegate i) untouched) w') as (st' & H1 & H2); [done|by apply sane_at|intros; apply Hb; by right|done|].
  exists st'. split; [done|]. intros k Hk. apply H2. destruct (decide (k = delegate i)) as [->|Hne]; [left; apply at_stage_eq|].
  rewrite at_stage_ne by done. cbn [map] in Hk. set_solver.
Qed.

Lemma elem_of_oks {A E} (l : list (result A E)) a : a ∈ oks l <-> Ok a ∈ l.
Proof. unfold oks. rewrite list_elem_of_omap. split; [intros ([] & H1 & [= ->]); done|]. intros H1. by exists (Ok a). Qed.

Lemma subkeys_opened w key a i : i ∈ subkeys w key a -> opened w i.
Proof.
  unfold subkeys. intros (p & Hp & _)%elem_of_oks%list_elem_of_fmap. unfold open_subkey_with_flags in Hp. symmetry in Hp.
  apply rbind_ok_inv in Hp as (d & Hd & [= <-]). by exists (delegate key), a.
Qed.

Lemma find_interfaces_opened w a interfaces i : find_interfaces w a = Ok interfaces -> i ∈ interfaces -> opened w i.
Proof.
  unfold find_interfaces. intros (key & _ & Hf)%rbind_ok_inv. case_bool_decide; [done|]. case_match; [done|]. injection Hf as <-.
  intros [_ Hi]%list_elem_of_filter. by eapply subkeys_opened.
Qed.

(** *** When rolling back fails *)

(** There is a backup that cannot be deleted; or it has been deleted, and the name servers that it held cannot be set again. *)
Definition roll_back_fails (w : World) (i : RegKeyReal RegKey) : Prop :=
  exists ns, get_value w (delegate i) NAME_SERVER_BAK = Ok ns /\
    ((exists w' e, delete_value w (delegate i) NAME_SERVER_BAK = (w', Err e)) \/
     exists w1 w2 e, delete_value w (delegate i) NAME_SERVER_BAK = (w1, Ok tt) /\ get_value w1 (delegate i) NAME_SERVER = Ok (chars "127.0.0.1") /\
       set_nameservers to_lowercase w1 i ns = (w2, Err e)).

Lemma roll_back_subvert_panics w0 st w i :
  stands w0 st w -> val w0 (delegate i) NAME_SERVER_BAK = None ->
  (exists w', roll_back_subvert to_lowercase w i = Ret w') \/ roll_back_subvert to_lowercase w i = Panic /\ roll_back_fails w i.
Proof.
  intros (Hval & _ & Hsub) Hb. unfold roll_back_subvert, roll_back_fails. set (k := delegate i) in *.
  destruct (get_value w k NAME_SERVER_BAK) as [ns|] eqn:Ebak; [|left; by eexists].
  assert (Hk := Hval k NAME_SERVER_BAK). rewrite (val_ok _ _ _ _ Ebak), expected_bak in Hk.
  destruct (backed_up (st k)) eqn:Eb; [|congruence]. destruct (Hsub k) as (ns0 & H0 & Hn0); [by intros E; rewrite E in Eb|].
  assert (Hns := Hval k NAME_SERVER). rewrite expected_ns, H0 in Hns.
  destruct (delete_value w k NAME_SERVER_BAK) as [w1 [[]|e]] eqn:E1; [|by right; split; [|exists ns; split; [|left; by do 2 eexists]]].
  destruct (delete_value_ok _ _ _ _ E1) as [_ [Hsame _]].
  assert (get_value w1 k NAME_SERVER = Ok (if local (st k) then chars "127.0.0.1" else ns0)) as Hw1.
  { rewrite Hsame by (intros [=]). apply val_some. rewrite Hns. by destruct (local (st k)). }
  rewrite Hw1. cbn [expect_ok obind]. destruct (local (st k)); [|rewrite Hn0; left; by eexists].
  change (is_subverted (chars "127.0.0.1")) with true. cbv iota.
  destruct (set_nameservers to_lowercase w1 i ns) as [w2 [[]|e]] eqn:E2; [left; by eexists|].
  right. split; [done|]. exists ns. split; [done|]. right. by exists w1, w2, e.
Qed.

Lemma roll_back_fold_panics w0 l : forall w st,
  stands w0 st w -> sane st -> (forall i, i ∈ l -> opened w0 i /\ val w0 (delegate i) NAME_SERVER_BAK = None) ->
  (exists w', ofold (roll_back_subvert to_lowercase) w l = Ret w') \/
  ofold (roll_back_subvert to_lowercase) w l = Panic /\
  exists i w1 st1, i ∈ l /\ stands w0 st1 w1 /\ (forall k, st1 k <> untouched -> st k <> untouched) /\ roll_back_fails w1 i.
Proof.
  induction l as [|i l IH]; intros w st Hs Hsane Hb; [left; by eexists|]. destruct (Hb i ltac:(left)) as [Ho Hbi]. cbn [ofold].
  destruct (roll_back_subvert_panics w0 st w i Hs Hbi) as [[w' E]|[E Hf]]; rewrite E; cbn [obind]; [|right; split; [done|]; exists i, w, st; split_and!; [left|done..]].
  apply (roll_back_subvert_stands w0 st) in E; [|done..|by apply Hsane].
  destruct (IH w' (at_stage st (delegate i) untouched)) as [|[Hp (j & w1 & st1 & Hj & Hs1 & Hu & Hf)]];
    [done|by apply sane_at|intros; apply Hb; by right|by left|].
  right. split; [done|]. exists j, w1, st1. split_and!; [by right|done| |done]. intros k Hk%Hu. unfold at_stage in Hk. by case_decide.
Qed.

Lemma subvert_interface_total w i : val w (delegate i) NAME_SERVER <> None -> exists w' r, subvert_interface to_lowercase w i = Ret (w', r).
Proof.
  unfold val, subvert_interface. destruct (get_value w (delegate i) NAME_SERVER); [|done]. intros _. cbn [expect_ok obind].
  repeat case_match; by do 2 eexists.
Qed.

Lemma subvert_fold_total w0 l : forall w st so_far,
  stands w0 st w -> (forall i, i ∈ l -> opened w0 i /\ val w0 (delegate i) NAME_SERVER <> None /\ st (delegate i) = untouched) ->
  NoDup (map delegate l) -> exists s, ofold (until_error (subvert_interface to_lowercase)) (w, (so_far, None)) l = Ret s.
Proof.
  induction l as [|i l IH]; intros w st so_far Hs Hl Hnd; [by eexists|]. destruct (Hl i ltac:(left)) as (Ho & Hv & Hst).
  cbn [ofold until_error]. rewrite bool_decide_eq_false_2 by (by intros [? ?]).
  destruct (subvert_interface_total w i) as (w' & r & E); [by rewrite (proj1 Hs), expected_untouched|]. rewrite E. cbn [obind].
  destruct r as [[]|msg]; [|rewrite until_error_stuck; by eexists].
  destruct (subvert_interface_stands _ _ _ _ _ _ Hs Ho Hst E) as (s & Hs' & _). apply NoDup_cons in Hnd as [Hi Hnd].
  eapply (IH _ _ _ Hs'); [|done]. intros j Hj. destruct (Hl j ltac:(by right)) as (Hoj & Hvj & Hstj). split_and!; [done..|].
  rewrite at_stage_ne; [done|]. intros Ej. apply Hi. rewrite <- Ej. by apply list_elem_of_fmap_2.
Qed.

Lemma interfaces_have_servers w a interfaces i : find_interfaces w a = Ok interfaces -> i ∈ interfaces -> val w (delegate i) NAME_SERVER <> None.
Proof.
  unfold find_interfaces. intros (key & _ & Hf)%rbind_ok_inv. case_bool_decide; [done|]. case_match; [done|]. injection Hf as <-.
  intros [Hg _]%list_elem_of_filter. unfold gateway_interface in Hg. apply andb_true_iff in Hg as [_ Hg]. unfold val.
  by destruct (get_value w (delegate i) NAME_SERVER).
Qed.

(** What the values are when all interfaces have been subverted *)
Lemma all_subverted w w1 st interfaces :
  stands w st w1 -> (forall k, st k <> untouched -> k ∈ map delegate interfaces) -> (forall i, i ∈ interfaces -> settled w st (delegate i)) ->
  exists chosen,
    (forall i, i ∈ interfaces -> exists ns, val w (delegate i) NAME_SERVER = Some ns /\ (is_subverted ns = false <-> delegate i ∈ chosen)) /\
    chosen ⊆ map delegate interfaces /\
    forall k n, val w1 k n =
      if decide (k ∈ chosen) then
        if decide (n = NAME_SERVER) then Some (chars "127.0.0.1")
        else if decide (n = NAME_SERVER_BAK) then val w k NAME_SERVER else val w k n
      else val w k n.
Proof.
  intros Hs Hsub Hset. set (chosen := filter (fun k => backed_up (st k) = true) (map delegate interfaces)).
  assert (forall k, k ∈ chosen <-> st k = mk_stage true true) as Hchosen.
  { intros k. unfold chosen. rewrite list_elem_of_filter. split.
    - intros [Hk (i & -> & Hi)%list_elem_of_fmap]. destruct (Hset i Hi) as [Ei|[Ei _]]; [done|]. by rewrite Ei in Hk.
    - intros Ek. split; [by rewrite Ek|]. apply Hsub. by rewrite Ek. }
  exists chosen. split_and!.
  + intros i Hi. destruct (Hset i Hi) as [Ei|(Ei & ns & Hns & Hn)].
    * destruct (proj2 (proj2 Hs) (delegate i)) as (ns & Hns & Hn); [by rewrite Ei|]. exists ns. split; [done|]. by rewrite Hchosen.
    * exists ns. split; [done|]. rewrite Hchosen, Ei, Hn. done.
  + intros k. by intros [_ Hk]%list_elem_of_filter.
  + intros k n. rewrite (proj1 Hs). destruct (decide (k ∈ chosen)) as [Hk|Hk].
    * apply Hchosen in Hk. unfold expected. rewrite Hk. cbn. repeat case_decide; try done. subst. exfalso. by apply names_differ.
    * apply expected_untouched. destruct (decide (k ∈ map delegate interfaces)) as [(i & -> & Hi)%list_elem_of_fmap|Hn].
      -- destruct (Hset i Hi) as [Ei|[Ei _]]; [|done]. by apply Hchosen in Ei.
      -- destruct (st k) as [[] []] eqn:E; [exfalso; apply Hn, Hsub; by rewrite E..|done].
Qed.

(** C37: Subverting all of the interfaces, or none. On a system whose operations do what they say, and nothing when they fail, with distinct
    interfaces to subvert, none of which has a backup from before: when subverting succeeds, each of these interfaces either was subverted
    already, and is as it was, or now has the local host as its name server and the name servers of before as its backup; when it ends with an
    error, what was done to some of them has been rolled back, and all values of the registry are what they were. No other value is
    touched in either case. There is no third end but one, a panic, and only when rolling back fails as well: at one of these interfaces the
    backup cannot be deleted or, after it has been, the name servers that it held cannot be set again. No values but those of these
    interfaces differ then, but these may, and it may be that no backup is left. *)
Theorem subversion_is_all_or_none w interfaces :
  find_interfaces_to_subvert w = Ok interfaces -> NoDup (map delegate interfaces) ->
  (forall i, i ∈ interfaces -> val w (delegate i) NAME_SERVER_BAK = None) ->
  match win_subvert to_lowercase w with
  | Ret (w', Ok _) =>
      exists chosen,
        (forall i, i ∈ interfaces -> exists ns, val w (delegate i) NAME_SERVER = Some ns /\
           (is_subverted ns = false <-> delegate i ∈ chosen)) /\
        chosen ⊆ map delegate interfaces /\
        forall k n, val w' k n =
          if decide (k ∈ chosen) then
            if decide (n = NAME_SERVER) then Some (chars "127.0.0.1")
            else if decide (n = NAME_SERVER_BAK) then val w k NAME_SERVER else val w k n
          else val w k n
  | Ret (w', Err _) => forall k n, val w' k n = val w k n
  | Panic =>
      exists i w', i ∈ interfaces /\ roll_back_fails w' i /\ forall k n, k ∉ map delegate interfaces -> val w' k n = val w k n
  | OutOfFuel => False
  end.
Proof.
  intros Hf Hnd Hb. unfold win_subvert. rewrite Hf. unfold all_or_none.
  assert (Hs0 : stands w (fun _ => untouched) w) by (split_and!; [intros k n; by rewrite expected_untouched|apply same_system_refl|done]).
  destruct (subvert_fold_total w interfaces w (fun _ => untouched) []) as [[w1 [so_far err]] Hfold]; [done| |done|].
  { intros i Hi. split_and!; [by eapply find_interfaces_opened|by eapply interfaces_have_servers|done]. }
  rewrite Hfold. cbn [obind].
  destruct (subvert_fold_stands w interfaces w (fun _ => untouched) [] w1 so_far err) as (st & Hs & Hsane & Hsub & Hin & _ & Hok); try done.
  { intros i. by apply (find_interfaces_opened w KEY_ALL_ACCESS). }
  destruct err as [msg|]; [|destruct (Hok eq_refl) as [-> Hset]; by apply (all_subverted w w1 st)].
  assert (forall i, i ∈ so_far -> opened w i /\ val w (delegate i) NAME_SERVER_BAK = None) as Hso.
  { intros i Hi%Hin. split; [by eapply find_interfaces_opened|by apply Hb]. }
  destruct (roll_back_fold_panics w so_far w1 st) as [[w2 Hr]|[Hr (i & w2 & st2 & Hi & Hs2 & Hu & Hfails)]]; [done..| |]; rewrite Hr; cbn [obind].
  - destruct (roll_back_fold_stands w so_far w1 st w2) as (st' & Hs' & Hu); [done..|].
    intros k n. rewrite (proj1 Hs'). apply expected_untouched, Hu. destruct (decide (st k = untouched)); [by left|right; by apply Hsub].
  - exists i, w2. split_and!; [by apply Hin|done|]. intros k n Hk. rewrite (proj1 Hs2). apply expected_untouched.
    destruct (decide (st2 k = untouched)) as [|Hne]; [done|]. apply Hu, Hsub, list_elem_of_fmap in Hne as (j & -> & Hj%Hin). destruct Hk. by apply list_elem_of_fmap_2.
Qed.
(** ** What only depends on the values *)
Definition gateway (dg ddg : option text) : option text :=
  match (match dg, ddg with _, Some ddg => Some ddg | Some dg, None => Some dg | None, None => None end) with
  | Some [] => None
  | s => s
  end.

Lemma get_default_gateway_val w i :
  get_default_gateway w i = gateway (val w (delegate i) (chars "DefaultGateway")) (val w (delegate i) (chars "DhcpDefaultGateway")).
Proof.
  unfold get_default_gateway, gateway, val. by destruct (get_value w (delegate i) (chars "DefaultGateway")) as [[]|],
    (get_value w (delegate i) (chars "DhcpDefaultGateway")) as [[]|].
Qed.

(** The values that decide which interfaces there are: those of the gateways, and whether there are name servers *)
Definition same_interfaces (w w' : World) : Prop :=
  same_system w w' /\ forall k,
    val w' k (chars "DefaultGateway") = val w k (chars "DefaultGateway") /\
    val w' k (chars "DhcpDefaultGateway") = val w k (chars "DhcpDefaultGateway") /\
    (val w' k NAME_SERVER = None <-> val w k NAME_SERVER = None).

Lemma is_ok_val w k n : is_ok (get_value w k n) = negb (bool_decide (val w k n = None)).
Proof. unfold val. by destruct (get_value w k n). Qed.

Lemma subkeys_same w w' key a : same_system w w' -> subkeys w' key a = subkeys w key a.
Proof. intros (He & Ho & _). unfold subkeys, open_subkey_with_flags. rewrite He. f_equal. apply map_ext. intros p. by rewrite Ho. Qed.

Lemma omap_ext' {A B} (f g : A -> option B) (l : list A) : (forall x, f x = g x) -> omap f l = omap g l.
Proof. intros E. induction l as [|x l IH]; [done|]. cbn. by rewrite E, IH. Qed.

Lemma find_interfaces_same w w' a : same_interfaces w w' -> find_interfaces w' a = find_interfaces w a.
Proof.
  intros [Hs Hv]. assert (forall i, get_default_gateway w' i = get_default_gateway w i) as Hg.
  { intros i. rewrite !get_default_gateway_val. by destruct (Hv (delegate i)) as (-> & -> & _). }
  assert (forall i, gateway_interface w' i = gateway_interface w i) as Hi.
  { intros i. unfold gateway_interface. rewrite Hg, !is_ok_val. do 2 f_equal. apply bool_decide_ext. apply Hv. }
  unfold find_interfaces, open_subkey_with_flags. destruct Hs as (He & Ho & Ha) eqn:Hs'. rewrite Ho.
  destruct (handle_reg_error _ _) as [key|]; [|done]. cbn [rbind]. rewrite (subkeys_same w w') by done.
  rewrite (list_filter_iff (fun i => gateway_interface w' i = true) (fun i => gateway_interface w i = true)) by (intros i; by rewrite Hi).
  by rewrite (omap_ext' (get_default_gateway w') (get_default_gateway w)).
Qed.

Definition listed_servers (dhcp permanent : option text) : option text :=
  match dhcp, permanent with
  | None, None | None, Some [] => None
  | Some dhcp, None | Some dhcp, Some [] => Some dhcp
  | _, Some permanent => Some permanent
  end.

Lemma find_dns_servers_val w i s :
  find_dns_servers_for_interface w i = Ok s <->
  listed_servers (val w (delegate i) (chars "DhcpNameServer")) (val w (delegate i) NAME_SERVER) = Some s.
Proof.
  unfold find_dns_servers_for_interface, listed_servers, val. destruct (get_value w (delegate i) (chars "DhcpNameServer")) as [[]|],
    (get_value w (delegate i) NAME_SERVER) as [[]|]; split; congruence.
Qed.

Lemma remove_dups_repeat (s : text) (l : list text) : l <> [] -> Forall (fun x => x = s) l -> remove_dups l = [s].
Proof.
  induction l as [|x l IH]; intros Hne Hl; [done|]. apply Forall_cons in Hl as [-> Hl]. cbn [remove_dups].
  destruct l as [|y l]; [done|]. destruct (decide_rel _ _ _) as [_|Hn]; [by apply IH|]. destruct Hn. apply Forall_cons in Hl as [-> _]. by left.
Qed.

(** Interfaces with the same name servers are summarized by them. *)
Lemma summarized w interfaces s :
  interfaces <> [] -> (forall i, i ∈ interfaces -> find_dns_servers_for_interface w i = Ok s) ->
  find_dns_server_list w interfaces = Ret (Ok s).
Proof.
  intros Hne Hl. unfold find_dns_server_list. assert (map (find_dns_servers_for_interface w) interfaces = map (fun _ => Ok s) interfaces) as ->.
  { apply map_ext_in. intros i Hi. apply Hl. by apply list_elem_of_In. }
  assert (forall l : list (RegKeyReal RegKey), errs (map (fun _ => Ok s : result text text) l) = []) as -> by (by induction l).
  rewrite bool_decide_eq_true_2 by done. cbn [negb].
  assert (forall l : list (RegKeyReal RegKey), oks (map (fun _ => Ok s : result text text) l) = map (fun _ => s) l) as ->.
  { induction l as [|x l IH]; [done|]. cbn. f_equal. exact IH. }
  rewrite (remove_dups_repeat s); [done|by destruct interfaces|]. apply Forall_map, Forall_forall. done.
Qed.

Lemma split_elem c s p x : p ∈ split c s -> x ∈ p -> x ∈ s.
Proof.
  revert p. induction s as [|y s IH]; intros p; cbn [split].
  - intros ->%list_elem_of_singleton. done.
  - destruct (y =? c).
    + intros [-> | Hp]%elem_of_cons Hx; [by apply elem_of_nil in Hx|]. right. by eapply IH.
    + destruct (split c s) as [|q ps] eqn:E.
      * intros ->%list_elem_of_singleton Hx. apply list_elem_of_singleton in Hx as ->. left.
      * intros [-> | Hp]%elem_of_cons Hx; [|right; eapply IH; [right|]; done]. apply elem_of_cons in Hx as [-> | Hx]; [left|right].
        eapply IH; [left|]; done.
Qed.

Lemma split_single c s p : split c s = [p] -> s = p.
Proof.
  revert p. induction s as [|y s IH]; intros p; cbn [split]; [congruence|]. destruct (y =? c).
  - destruct s as [|z s]; cbn [split]; [done|]. destruct (z =? c); [done|]. by destruct (split c s).
  - destruct (split c s) as [|q [|]] eqn:E; intros [= <-]; [|by erewrite (IH q)]. by destruct s as [|z s]; cbn in E; repeat case_match.
Qed.

(** What is shown of name servers: not the local host alone, unless it is alone *)
Lemma shown_lines s : fold_left (fun so_far dns_server => so_far ++ dns_server ++ [newline]) (split 44 s) [] = lines (split 44 s).
Proof. apply fold_lines. Qed.

Lemma shown_unsubverted s : newline ∉ s -> s <> chars "127.0.0.1" -> lines (split 44 s) <> SUBVERTED.
Proof.
  intros Hn Hne E. apply lines_inj in E.
  - by apply split_single in E.
  - by apply (bool_decide_eq_false_1 _).
  - apply Forall_forall. intros p Hp Hx. by eapply Hn, split_elem.
Qed.

Lemma inspect_shows w interfaces s :
  find_interfaces w KEY_READ = Ok interfaces -> interfaces <> [] ->
  (forall i, i ∈ interfaces -> find_dns_servers_for_interface w i = Ok s) -> win_inspect w = Ret (Ok (lines (split 44 s))).
Proof.
  intros Hf Hne Hl. unfold win_inspect, find_interfaces_to_inspect. rewrite Hf, (summarized w interfaces s) by done. cbn [obind rbind].
  by rewrite shown_lines.
Qed.
(** ** When nothing refuses *)
Definition administrator : Prop :=
  (forall w k n v, exists w', set_value w k n v = (w', Ok tt)) /\ (forall w k n, exists w', delete_value w k n = (w', Ok tt)) /\
  (forall w args, exists w', netsh_status w args = (w', Ok (Some 0))).

Definition has_adapter (w : World) (i : RegKeyReal RegKey) : Prop := is_Some (find_adapter_friendly_name to_lowercase w i).

Lemma has_adapter_same w w' i : same_system w w' -> has_adapter w i -> has_adapter w' i.
Proof. intros (_ & _ & Ha). unfold has_adapter, find_adapter_friendly_name. by rewrite Ha. Qed.

Lemma set_nameservers_works w i v : administrator -> has_adapter w i -> exists w', set_nameservers to_lowercase w i v = (w', Ok tt).
Proof.
  intros (_ & _ & Hn) [f Hf]. unfold set_nameservers. rewrite Hf. unfold set_nameserver.
  destruct (Hn w (make_set_args f v)) as [w' ->]. exists w'. by rewrite bool_decide_eq_true_2.
Qed.

Definition subvertible (w : World) (i : RegKeyReal RegKey) : Prop :=
  opened w i /\ has_adapter w i /\ exists ns, val w (delegate i) NAME_SERVER = Some ns /\ is_subverted ns = false /\ makes_no_sense ns = false.

Lemma subvert_interface_works w0 st w i :
  administrator -> stands w0 st w -> subvertible w0 i -> st (delegate i) = untouched ->
  exists w', subvert_interface to_lowercase w i = Ret (w', Ok tt) /\ stands w0 (at_stage st (delegate i) (mk_stage true true)) w'.
Proof.
  intros Had Hs (Ho & Ha & ns & Hns & Hsub & Hno) Hst. assert (exists w', subvert_interface to_lowercase w i = Ret (w', Ok tt)) as [w' Hw'].
  { unfold subvert_interface. assert (val w (delegate i) NAME_SERVER = Some ns) as Hv by (rewrite (proj1 Hs), expected_untouched; done).
    rewrite (val_some _ _ _ _ Hv). cbn [expect_ok obind]. rewrite Hsub, Hno.
    destruct (proj1 Had w (delegate i) NAME_SERVER_BAK ns) as [w1 E1]. rewrite E1. cbn [handle_reg_error].
    destruct (set_nameservers_works w1 i (chars "127.0.0.1") Had) as [w2 ->]; [|by exists w2].
    apply set_value_ok in E1 as [_ [_ Hsame]]. eapply has_adapter_same; [done|]. eapply has_adapter_same; [apply Hs|done]. }
  exists w'. split; [done|]. destruct (subvert_interface_stands _ _ _ _ _ _ Hs Ho Hst Hw') as (s & Hs' & _ & Hr).
  destruct (Hr eq_refl) as [-> | (-> & ns' & Hns' & Hsub')]; [done|]. rewrite Hns in Hns'. injection Hns' as <-. congruence.
Qed.

(** Stages of many interfaces at once *)
Definition all_at (st : RegKey -> stage) (l : list (RegKeyReal RegKey)) (s : stage) : RegKey -> stage :=
  fun k => if decide (k ∈ map delegate l) then s else st k.

Lemma all_at_cons w0 st i l s w : stands w0 (all_at (at_stage st (delegate i) s) l s) w -> stands w0 (all_at st (i :: l) s) w.
Proof. apply stands_ext. intros k. unfold all_at, at_stage. cbn [map]. repeat case_decide; set_solver. Qed.

Lemma subvert_fold_works w0 l : administrator -> forall st w so_far,
  stands w0 st w -> (forall i, i ∈ l -> subvertible w0 i /\ st (delegate i) = untouched) -> NoDup (map delegate l) ->
  exists w', ofold (until_error (subvert_interface to_lowercase)) (w, (so_far, None)) l = Ret (w', (so_far ++ l, None)) /\
    stands w0 (all_at st l (mk_stage true true)) w'.
Proof.
  intros Had. induction l as [|i l IH]; intros st w so_far Hs Hl Hnd; [exists w; by rewrite app_nil_r|].
  cbn [map] in Hnd. apply NoDup_cons in Hnd as [Hni Hnd]. destruct (Hl i ltac:(left)) as [Hi Hst].
  destruct (subvert_interface_works _ _ _ _ Had Hs Hi Hst) as (w1 & E1 & Hs1). cbn [ofold until_error].
  rewrite bool_decide_eq_false_2 by (by intros [? ?]). rewrite E1. cbn [obind].
  destruct (IH _ w1 (plus so_far i) Hs1) as (w' & E & Hs'); [|done|].
  { intros j Hj. split; [apply Hl; by right|]. rewrite at_stage_ne; [apply Hl; by right|]. intros Ej. apply Hni. rewrite <- Ej. by apply list_elem_of_fmap_2. }
  exists w'. rewrite E. unfold plus. rewrite <- app_assoc. split; [done|]. by apply all_at_cons.
Qed.

Lemma subvert_fold_again l : forall w so_far,
  (forall i, i ∈ l -> val w (delegate i) NAME_SERVER = Some (chars "127.0.0.1")) ->
  ofold (until_error (subvert_interface to_lowercase)) (w, (so_far, None)) l = Ret (w, (so_far ++ l, None)).
Proof.
  induction l as [|i l IH]; intros w so_far Hl; [by rewrite app_nil_r|]. cbn [ofold until_error].
  rewrite bool_decide_eq_false_2 by (by intros [? ?]). unfold subvert_interface at 1. rewrite (val_some _ _ _ _ (Hl i ltac:(left))).
  cbn [expect_ok obind]. change (is_subverted (chars "127.0.0.1")) with true. cbn [obind]. rewrite IH by (intros; apply Hl; by right).
  unfold plus. by rewrite <- app_assoc.
Qed.

Lemma revert_interface_works w0 st w i :
  administrator -> stands w0 st w -> opened w0 i -> has_adapter w0 i -> val w0 (delegate i) NAME_SERVER_BAK = None ->
  st (delegate i) = mk_stage true true ->
  exists w', revert_interface to_lowercase w i = Ret (w', Ok tt) /\ stands w0 (at_stage st (delegate i) untouched) w'.
Proof.
  intros Had Hs Ho Ha Hb Hst. set (k := delegate i) in *. destruct (proj2 (proj2 Hs) k) as (ns & Hns & Hsub); [by rewrite Hst|].
  assert (val w k NAME_SERVER_BAK = Some ns) as Hbak by (by rewrite (proj1 Hs), expected_bak, Hst).
  assert (val w k NAME_SERVER = Some (chars "127.0.0.1")) as Hloc by (by rewrite (proj1 Hs), expected_ns, Hst).
  unfold revert_interface. fold k. rewrite (val_some _ _ _ _ Hbak), (val_some _ _ _ _ Hloc). cbn [expect_ok obind].
  destruct (set_nameservers_works w i ns Had) as [w1 E1]; [eapply has_adapter_same; [apply Hs|done]|]. rewrite E1.
  apply set_nameservers_ok in E1 as [Hv1 Hsame1]; [|by eapply opened_stands]. apply val_ok in Hv1.
  assert (stands w0 (at_stage st k (mk_stage true false)) w1) as Hs1.
  { eapply stands_step; [done..| |right; by rewrite Hst|by exists ns]. fold k in Hv1. by rewrite Hv1, expected_ns, at_stage_eq. }
  destruct (proj1 (proj2 Had) w1 k NAME_SERVER_BAK) as [w2 E2]. rewrite E2. exists w2. split; [done|].
  apply delete_value_ok in E2 as [[e He] Hsame2].
  eapply stands_twice, (stands_step _ _ w1); [exact Hs1|done| |left; by rewrite at_stage_eq|by exists ns].
  by rewrite (val_none _ _ _ _ He), expected_bak, at_stage_eq.
Qed.

Lemma revert_fold_works w0 l : administrator -> forall st w so_far,
  stands w0 st w ->
  (forall i, i ∈ l -> opened w0 i /\ has_adapter w0 i /\ val w0 (delegate i) NAME_SERVER_BAK = None /\ st (delegate i) = mk_stage true true) ->
  NoDup (map delegate l) ->
  exists w', ofold (until_error (revert_interface to_lowercase)) (w, (so_far, None)) l = Ret (w', (so_far ++ l, None)) /\
    stands w0 (all_at st l untouched) w'.
Proof.
  intros Had. induction l as [|i l IH]; intros st w so_far Hs Hl Hnd; [exists w; by rewrite app_nil_r|].
  cbn [map] in Hnd. apply NoDup_cons in Hnd as [Hni Hnd]. destruct (Hl i ltac:(left)) as (Ho & Ha & Hb & Hst).
  destruct (revert_interface_works _ _ _ _ Had Hs Ho Ha Hb Hst) as (w1 & E1 & Hs1). cbn [ofold until_error].
  rewrite bool_decide_eq_false_2 by (by intros [? ?]). rewrite E1. cbn [obind].
  destruct (IH _ w1 (plus so_far i) Hs1) as (w' & E & Hs'); [|done|].
  { intros j Hj. destruct (Hl j ltac:(by right)) as (? & ? & ? & ?). split_and!; try done. rewrite at_stage_ne; [done|].
    intros Ej. apply Hni. rewrite <- Ej. by apply list_elem_of_fmap_2. }
  exists w'. rewrite E. unfold plus. rewrite <- app_assoc. split; [done|]. by apply all_at_cons.
Qed.
(** ** The modifier keeps its promises *)
Record fit (w : World) (key : RegKeyReal RegKey) (interfaces : list (RegKeyReal RegKey)) (s : text) : Prop := {
  fit_key : open_subkey_with_flags w hive INTERFACES KEY_ALL_ACCESS = Ok key;
  fit_found a : find_interfaces w a = Ok interfaces;
  fit_distinct : NoDup (map delegate (subkeys w key KEY_ALL_ACCESS));
  fit_no_backup i : i ∈ subkeys w key KEY_ALL_ACCESS -> val w (delegate i) NAME_SERVER_BAK = None;
  fit_subvertible i : i ∈ interfaces -> subvertible w i;
  fit_servers i : i ∈ interfaces -> find_dns_servers_for_interface w i = Ok s;
  fit_list : (newline ∉ s) /\ s <> chars "127.0.0.1" }.

Lemma distinct_filter (P : RegKeyReal RegKey -> Prop) `{!forall i, Decision (P i)} l : NoDup (map delegate l) -> NoDup (map delegate (filter P l)).
Proof.
  induction l as [|i l IH]; [done|]. cbn [map]. intros [Hi Hl]%NoDup_cons. rewrite filter_cons. case_decide; [|by apply IH].
  cbn [map]. apply NoDup_cons. split; [|by apply IH]. intros (j & Ej & [_ Hj]%list_elem_of_filter)%list_elem_of_fmap.
  apply Hi. rewrite Ej. by apply list_elem_of_fmap_2.
Qed.

Lemma distinct_inj (l : list (RegKeyReal RegKey)) i j : NoDup (map delegate l) -> i ∈ l -> j ∈ l -> delegate i = delegate j -> i = j.
Proof.
  induction l as [|x l IH]; [by intros _ ?%elem_of_nil|]. cbn [map]. intros [Hx Hl]%NoDup_cons [-> | Hi]%elem_of_cons [-> | Hj]%elem_of_cons E; [done|..].
  - destruct Hx. rewrite E. by apply list_elem_of_fmap_2.
  - destruct Hx. rewrite <- E. by apply list_elem_of_fmap_2.
  - by apply IH.
Qed.

Section fit.
Context (Had : administrator) (w : World) (key : RegKeyReal RegKey) (interfaces : list (RegKeyReal RegKey)) (s : text).
Context (Hfit : fit w key interfaces s).

Lemma found_subkeys : interfaces = filter (fun i => gateway_interface w i = true) (subkeys w key KEY_ALL_ACCESS) /\ interfaces <> [].
Proof.
  assert (Hf := fit_found _ _ _ _ Hfit KEY_ALL_ACCESS). unfold find_interfaces in Hf. rewrite bool_decide_eq_false_2 in Hf by done.
  rewrite (fit_key _ _ _ _ Hfit) in Hf. cbn [handle_reg_error rbind] in Hf. case_bool_decide; [done|]. case_match; [done|].
  injection Hf as <-. done.
Qed.

Lemma found_distinct : NoDup (map delegate interfaces).
Proof. destruct found_subkeys as [-> _]. apply distinct_filter, (fit_distinct _ _ _ _ Hfit). Qed.

Lemma untouched_at_first : stands w (fun _ => untouched) w.
Proof. split_and!; [|apply same_system_refl|done]. intros k n. by rewrite expected_untouched. Qed.

Lemma same_interfaces_stands st w' :
  stands w st w' -> (forall k, local (st k) = true -> val w k NAME_SERVER <> None) -> same_interfaces w w'.
Proof.
  intros (Hv & Hs & _) Hl. split; [done|]. intros k. rewrite !Hv. split_and!.
  - unfold expected. by rewrite !decide_False by (by apply (bool_decide_eq_false_1 _)).
  - unfold expected. by rewrite !decide_False by (by apply (bool_decide_eq_false_1 _)).
  - rewrite expected_ns. destruct (local (st k)) eqn:E; [|done]. split; [done|]. intros E'. by destruct (Hl k E).
Qed.

Definition subverted_stage : RegKey -> stage := all_at (fun _ => untouched) interfaces (mk_stage true true).

Lemma subverted_at i : i ∈ interfaces -> subverted_stage (delegate i) = mk_stage true true.
Proof. intros Hi. unfold subverted_stage, all_at. by rewrite decide_True by (by apply list_elem_of_fmap_2). Qed.

Lemma subverted_inv k : subverted_stage k <> untouched -> exists i, k = delegate i /\ i ∈ interfaces.
Proof. unfold subverted_stage, all_at. case_decide as Hk; [|done]. intros _. by apply list_elem_of_fmap in Hk. Qed.

Lemma win_subvert_works : exists w', win_subvert to_lowercase w = Ret (w', Ok tt) /\ stands w subverted_stage w'.
Proof.
  unfold win_subvert, find_interfaces_to_subvert. rewrite (fit_found _ _ _ _ Hfit). unfold all_or_none.
  destruct (subvert_fold_works w interfaces Had (fun _ => untouched) w []) as (w' & E & Hs).
  - apply untouched_at_first.
  - intros i Hi. split; [by apply (fit_subvertible _ _ _ _ Hfit)|done].
  - apply found_distinct.
  - exists w'. rewrite E. done.
Qed.

Lemma subverted_found w' a : stands w subverted_stage w' -> find_interfaces w' a = Ok interfaces.
Proof.
  intros Hs. rewrite (find_interfaces_same w w'), (fit_found _ _ _ _ Hfit); [done|]. eapply same_interfaces_stands; [done|].
  intros k Hk. destruct (subverted_inv k) as (i & -> & Hi); [by intros E; rewrite E in Hk|].
  destruct (fit_subvertible _ _ _ _ Hfit i Hi) as (_ & _ & ns & -> & _). done.
Qed.

Lemma subverted_local w' i : stands w subverted_stage w' -> i ∈ interfaces -> val w' (delegate i) NAME_SERVER = Some (chars "127.0.0.1").
Proof. intros Hs Hi. by rewrite (proj1 Hs), expected_ns, subverted_at. Qed.

Lemma win_revert_works w' : stands w subverted_stage w' ->
  exists w'', win_revert to_lowercase w' = Ret (w'', Ok tt) /\ stands w (fun _ => untouched) w''.
Proof.
  intros Hs. unfold win_revert, find_interfaces_to_revert, open_subkey_with_flags.
  assert (Hk := fit_key _ _ _ _ Hfit). unfold open_subkey_with_flags in Hk. rewrite (proj1 (proj2 (proj1 (proj2 Hs)))), Hk.
  cbn [handle_reg_error rbind]. rewrite (subkeys_same w w') by apply Hs. set (l := filter _ _). unfold all_or_none.
  assert (forall i, i ∈ l <-> i ∈ interfaces) as Hl.
  { intros i. unfold l. rewrite list_elem_of_filter, is_ok_val, (proj1 Hs), expected_bak. split.
    - intros [Hi Hsub]. destruct (decide (subverted_stage (delegate i) = untouched)) as [E|E].
      + rewrite E in Hi. change (backed_up untouched) with false in Hi. cbv iota in Hi. by rewrite (fit_no_backup _ _ _ _ Hfit i Hsub) in Hi.
      + destruct (subverted_inv _ E) as (j & Ej & Hj). assert (j ∈ subkeys w key KEY_ALL_ACCESS) as Hj'.
        { destruct found_subkeys as [El _]. rewrite El in Hj. by apply list_elem_of_filter in Hj as [_ Hj]. }
        assert (i = j) as ->; [|done]. by apply (distinct_inj _ _ _ (fit_distinct _ _ _ _ Hfit)).
    - intros Hi. rewrite subverted_at by done. cbn [backed_up]. destruct (fit_subvertible _ _ _ _ Hfit i Hi) as (_ & _ & ns & -> & _).
      split; [done|]. destruct found_subkeys as [El _]. rewrite El in Hi. by apply list_elem_of_filter in Hi as [_ Hi]. }
  assert (NoDup (map delegate l)) as Hnd by apply distinct_filter, (fit_distinct _ _ _ _ Hfit).
  destruct (revert_fold_works w l Had subverted_stage w' []) as (w'' & E & Hs''); [done| |done|].
  - intros i Hi%Hl. assert (Hi' := fit_subvertible _ _ _ _ Hfit i Hi). destruct Hi' as (Ho & Ha & _). split_and!; [done..| |by apply subverted_at].
    apply (fit_no_backup _ _ _ _ Hfit). destruct found_subkeys as [El _]. rewrite El in Hi. by apply list_elem_of_filter in Hi as [_ Hi].
  - exists w''. rewrite E. split; [done|]. eapply stands_ext; [|exact Hs'']. intros k. unfold all_at. case_decide as Hk'; [done|].
    destruct (decide (subverted_stage k = untouched)) as [->|Hne]; [done|]. destruct (subverted_inv k Hne) as (i & -> & Hi).
    destruct Hk'. apply list_elem_of_fmap_2. by apply Hl.
Qed.

Lemma inspect_at_first w' : stands w (fun _ => untouched) w' -> win_inspect w' = Ret (Ok (lines (split 44 s))).
Proof.
  intros Hs. apply (inspect_shows w' interfaces); [|apply found_subkeys|].
  - rewrite (find_interfaces_same w w'); [apply (fit_found _ _ _ _ Hfit)|]. by eapply same_interfaces_stands.
  - intros i Hi. apply find_dns_servers_val. rewrite !(proj1 Hs), !expected_untouched by done.
    by apply find_dns_servers_val, (fit_servers _ _ _ _ Hfit).
Qed.

Lemma inspect_subverted w' : stands w subverted_stage w' -> win_inspect w' = Ret (Ok SUBVERTED).
Proof.
  intros Hs. rewrite (inspect_shows w' interfaces (chars "127.0.0.1")); [done|by apply subverted_found|apply found_subkeys|].
  intros i Hi. apply find_dns_servers_val. rewrite (subverted_local w' i) by done. by destruct (val w' _ _).
Qed.

Lemma win_subvert_again w' : stands w subverted_stage w' -> win_subvert to_lowercase w' = Ret (w', Ok tt).
Proof.
  intros Hs. unfold win_subvert, find_interfaces_to_subvert. rewrite subverted_found by done. unfold all_or_none.
  rewrite subvert_fold_again; [done|]. intros i Hi. by apply subverted_local.
Qed.
End fit.

Program Definition WinLaws (Had : administrator) : @DnsModifierLaws World (WinDnsModifier to_lowercase) :=
  {| configured := fun w => exists key interfaces s, fit w key interfaces s |}.
Next Obligation.
  intros Had w (key & interfaces & s & Hfit). exists (lines (split 44 s)). split.
  - eapply inspect_at_first; [done|apply untouched_at_first].
  - by apply shown_unsubverted; apply (fit_list _ _ _ _ Hfit).
Qed.
Next Obligation.
  intros Had w (key & interfaces & s & Hfit). cbn [subvert revert inspect WinDnsModifier].
  destruct (win_subvert_works Had w key interfaces s Hfit) as (w' & E & Hs).
  destruct (win_revert_works Had w key interfaces s Hfit w' Hs) as (w'' & E' & Hs').
  exists w'. split_and!; [done|by eapply inspect_subverted|by eapply win_subvert_again|]. exists w''. split; [done|].
  rewrite (inspect_at_first _ _ _ _ Hfit w''), (inspect_at_first _ _ _ _ Hfit w) by (done || apply untouched_at_first). done.
Qed.
End laws.

(** ** A system of two interfaces, as an instance *)
Module TwoInterfaces.
Definition ETHERNET : text := chars "eth".
Definition WIRELESS : text := chars "wlan".
Definition adapters : list (text * text) := [(ETHERNET, chars "Ethernet"); (WIRELESS, chars "Wi-Fi")].

Abbreviation registry := (gmap (text * text) text).

Definition absent : io_error := mk_io_error (Some NOT_FOUND) (chars "not found") (chars "NotFound").

(** The name in name="..." and the address in addr=... *)
Definition unquoted (s : text) : text := drop 6 (take (length s - 1) s).
Definition after_addr (s : text) : text := drop 5 s.

Definition run_netsh (broken : text -> bool) (w : registry) (args : list text) : registry * result (option Z) io_error :=
  match args with
  | [_; _; _; _; name; _; addr] =>
      match list_find (fun a => a.2 = unquoted name) adapters with
      | Some (_, (k, _)) => if broken k then (w, Ok (Some 1)) else (<[(k, NAME_SERVER) := after_addr addr]> w, Ok (Some 0))
      | None => (w, Ok (Some 0))
      end
  | _ => (w, Ok (Some 0))
  end.

Definition system (broken : text -> bool) : WinSystem registry text := {|
  HKEY_LOCAL_MACHINE := [];
  enum_keys _ k := if bool_decide (k = INTERFACES) then [Ok ETHERNET; Ok WIRELESS] else [];
  open_subkey _ _ p _ := if bool_decide (p ∈ [INTERFACES; ETHERNET; WIRELESS]) then Ok p else Err absent;
  get_value w k n := match w !! (k, n) with Some v => Ok v | None => Err absent end;
  set_value w k n v := (<[(k, n) := v]> w, Ok tt);
  delete_value w k n := (delete (k, n) w, Ok tt);
  get_adapters _ := Some adapters;
  netsh_status := run_netsh broken |}.

Definition lower (s : text) : text := s.

Lemma insert_same broken w k n v :
  @get_value _ _ (system broken) (<[(k, n) := v]> w) k n = Ok v /\ @same_but _ _ (system broken) w (<[(k, n) := v]> w) k n.
Proof.
  split; [cbn; by rewrite lookup_insert_eq|]. split; [|by repeat split]. intros k' n' H. cbn. by rewrite lookup_insert_ne.
Qed.

Lemma unquoted_quoted friendly : unquoted (chars "name=" ++ [34] ++ friendly ++ [34]) = friendly.
Proof.
  unfold unquoted. rewrite !length_app. change (length (chars "name=")) with 5%nat. cbn [length].
  replace (5 + (1 + (length friendly + 1)) - 1)%nat with (length ((chars "name=" ++ [34]) ++ friendly)).
  - rewrite !app_assoc, take_app_length. by rewrite <- app_assoc.
  - rewrite !length_app. cbn. lia.
Qed.

Lemma netsh_obeys broken w (i : RegKeyReal text) friendly v w' :
  @opened _ _ (system broken) w i -> @find_adapter_friendly_name _ _ (system broken) lower w i = Some friendly ->
  run_netsh broken w (make_set_args friendly v) = (w', Ok (Some 0)) -> w' = <[(delegate i, NAME_SERVER) := v]> w.
Proof.
  intros (root & a & Ho) Hf. assert (delegate i = path i) as ->.
  { cbn in Ho. by case_bool_decide; [injection Ho|]. }
  unfold run_netsh, make_set_args. rewrite unquoted_quoted. change (after_addr (chars "addr=" ++ v)) with v.
  unfold find_adapter_friendly_name in Hf. cbn [get_adapters system] in Hf.
  destruct (list_find _ adapters) as [[n [a' f]]|] eqn:E in Hf; [|done]. apply list_find_Some in E as (E & Ea & _).
  injection Hf as <-. cbn [fst snd] in *. unfold lower in Ea. rewrite <- Ea.
  destruct n as [|[|]]; [..|done]; injection E as <- <-.
  - change (list_find _ adapters) with (Some (0%nat, (ETHERNET, chars "Ethernet"))). cbv iota. destruct (broken ETHERNET); by intros [= <-].
  - change (list_find _ adapters) with (Some (1%nat, (WIRELESS, chars "Wi-Fi"))). cbv iota. destruct (broken WIRELESS); by intros [= <-].
Qed.

Lemma laws broken : @WinSystemLaws _ _ (system broken) lower.
Proof.
  split.
  - intros w k n v w'. cbn. intros [= <-]. apply insert_same.
  - done.
  - intros w k n w'. cbn. intros [= <-]. split; [exists absent; cbn; by rewrite lookup_delete_eq|]. split; [|by repeat split].
    intros k' n' H. cbn. by rewrite lookup_delete_ne.
  - done.
  - intros w i friendly v w' Ho Hf Hn. rewrite (netsh_obeys broken w i friendly v w') by done. apply insert_same.
  - intros w args w' r. cbn. unfold run_netsh. repeat case_match; intros [= <- <-]; done.
Qed.

Lemma administrator_system : @administrator _ _ (system (fun _ => false)).
Proof.
  split_and!; [by eexists..|]. intros w args. cbn. unfold run_netsh. repeat case_match; by eexists.
Qed.

Definition at_first : registry := list_to_map [
  ((ETHERNET, chars "DhcpDefaultGateway"), chars "192.168.0.1"); ((ETHERNET, NAME_SERVER), chars "8.8.8.8");
  ((WIRELESS, chars "DefaultGateway"), chars "192.168.0.1"); ((WIRELESS, NAME_SERVER), chars "8.8.8.8") ].

Definition both : list (RegKeyReal text) := [mk_RegKeyReal ETHERNET ETHERNET; mk_RegKeyReal WIRELESS WIRELESS].
End TwoInterfaces.

(** An interface that was subverted before is turned back as well when subverting the other one fails. *)
Example earlier_subversion_is_undone :
  let system := TwoInterfaces.system (fun k => bool_decide (k = TwoInterfaces.WIRELESS)) in
  let before := <[(TwoInterfaces.ETHERNET, NAME_SERVER) := chars "127.0.0.1"]>
    (<[(TwoInterfaces.ETHERNET, NAME_SERVER_BAK) := chars "1.1.1.1"]> TwoInterfaces.at_first) in
  match @win_subvert _ _ system TwoInterfaces.lower before with
  | Ret (after, Err _) =>
      @val _ _ system after TwoInterfaces.ETHERNET NAME_SERVER = Some (chars "1.1.1.1") /\
      @val _ _ system after TwoInterfaces.ETHERNET NAME_SERVER_BAK = None
  | _ => False
  end.
Proof. vm_compute. by split. Qed.

(** An interface whose name servers were set by hand after subverting is subverted when reverting fails at the other one. *)
Example failed_reversion_subverts :
  let system := TwoInterfaces.system (fun k => bool_decide (k = TwoInterfaces.WIRELESS)) in
  let before := <[(TwoInterfaces.ETHERNET, NAME_SERVER) := chars "9.9.9.9"]> (<[(TwoInterfaces.ETHERNET, NAME_SERVER_BAK) := chars "1.1.1.1"]>
    (<[(TwoInterfaces.WIRELESS, NAME_SERVER) := chars "127.0.0.1"]> (<[(TwoInterfaces.WIRELESS, NAME_SERVER_BAK) := chars "1.1.1.1"]>
    TwoInterfaces.at_first))) in
  match @win_revert _ _ system TwoInterfaces.lower before with
  | Ret (after, Err _) => @val _ _ system after TwoInterfaces.ETHERNET NAME_SERVER = Some (chars "127.0.0.1")
  | _ => False
  end.
Proof. vm_compute. reflexivity. Qed.

(** netsh fails at the second interface, and then at the first one as well: the first has the local host as its name server, and its backup is
    gone. *)
Definition fails_once_it_failed (broken : text -> bool) (w : TwoInterfaces.registry * bool) (args : list text) :=
  let (w', r) := TwoInterfaces.run_netsh (fun k => broken k || w.2) w.1 args in
  ((w', match r with Ok (Some 0) => false | _ => true end), r).

Definition failing_system : WinSystem (TwoInterfaces.registry * bool) text :=
  let system := TwoInterfaces.system (fun _ => false) in {|
  HKEY_LOCAL_MACHINE := [];
  enum_keys w k := @enum_keys _ _ system w.1 k;
  open_subkey w k p a := @open_subkey _ _ system w.1 k p a;
  get_value w k n := @get_value _ _ system w.1 k n;
  set_value w k n v := let (w', r) := @set_value _ _ system w.1 k n v in ((w', w.2), r);
  delete_value w k n := let (w', r) := @delete_value _ _ system w.1 k n in ((w', w.2), r);
  get_adapters w := Some TwoInterfaces.adapters;
  netsh_status := fails_once_it_failed (fun k => bool_decide (k = TwoInterfaces.WIRELESS)) |}.

Example rolling_back_loses_the_backup :
  let subvert := subvert_interface (WinSystem0 := failing_system) TwoInterfaces.lower in
  let roll_back := roll_back_subvert (WinSystem0 := failing_system) TwoInterfaces.lower in
  @win_subvert _ _ failing_system TwoInterfaces.lower (TwoInterfaces.at_first, false) = Panic /\
  match subvert (TwoInterfaces.at_first, false) (mk_RegKeyReal TwoInterfaces.ETHERNET TwoInterfaces.ETHERNET) with
  | Ret (w1, Ok _) =>
      match subvert w1 (mk_RegKeyReal TwoInterfaces.WIRELESS TwoInterfaces.WIRELESS) with
      | Ret (w2, Err _) =>
          let (w3, _) := @delete_value _ _ failing_system w2 TwoInterfaces.ETHERNET NAME_SERVER_BAK in
          roll_back w2 (mk_RegKeyReal TwoInterfaces.ETHERNET TwoInterfaces.ETHERNET) = Panic /\
          @val _ _ failing_system w3 TwoInterfaces.ETHERNET NAME_SERVER = Some (chars "127.0.0.1") /\
          @val _ _ failing_system w3 TwoInterfaces.ETHERNET NAME_SERVER_BAK = None
      | _ => False
      end
  | _ => False
  end.
Proof. vm_compute. by split_and!. Qed.

(** The second interface cannot be set: the first is turned back. *)
Lemma subversion_is_all_or_none_witness :
  let system := TwoInterfaces.system (fun k => bool_decide (k = TwoInterfaces.WIRELESS)) in
  exists w' msg, @win_subvert _ _ system TwoInterfaces.lower TwoInterfaces.at_first = Ret (w', Err msg) /\
    forall k n, @val _ _ system w' k n = @val _ _ system TwoInterfaces.at_first k n.
Proof.
  set (broken := fun k => _). intros system.
  assert (exists w' msg, @win_subvert _ _ system TwoInterfaces.lower TwoInterfaces.at_first = Ret (w', Err msg)) as (w' & msg & H).
  { assert (match @win_subvert _ _ system TwoInterfaces.lower TwoInterfaces.at_first with Ret (_, Err _) => True | _ => False end) as Hm.
    { vm_compute. exact I. }
    destruct (@win_subvert _ _ system _ _) as [[w' [|msg]]| |]; try contradiction. by exists w', msg. }
  exists w', msg. split; [done|]. pose proof (@subversion_is_all_or_none _ _ system TwoInterfaces.lower (TwoInterfaces.laws broken) _
    TwoInterfaces.at_first TwoInterfaces.both) as Hall. rewrite H in Hall. apply Hall.
  - vm_compute. reflexivity.
  - apply (bool_decide_unpack _). vm_compute. exact I.
  - intros i Hi. repeat (apply elem_of_cons in Hi as [-> | Hi]; [vm_compute; reflexivity|]). exfalso. exact (proj1 (elem_of_nil _) Hi).
Defined.
