(* ===== verification/DnsUtility.v ===== *)
(** * DnsUtility: the DNS utility as a whole

    The choice of a modifier, of dns_utility/src/dns_modifier_factory.rs, and what the command of
    DnsModifier does with any of the three. *)
From S2P Require Import Prelude Text DnsModifier ResolvConf DynamicStore WinDns.

(** ** dns_modifier_factory.rs *)
Inductive target_os := linux | macos | windows | other_os.
#[global] Instance target_os_eq_dec : EqDecision target_os.
Proof. solve_decision. Defined.

Inductive qualifier_factory := DynamicStoreQualifierFactory | WinQualifierFactory | ResolvConfQualifierFactory.

Definition QUALIFIER_FACTORIES : list qualifier_factory :=
  [DynamicStoreQualifierFactory; WinQualifierFactory; ResolvConfQualifierFactory].

(** [opens]: can /etc/resolv.conf be opened for reading? *)
Definition system_qualifies (os : target_os) (opens : bool) (f : qualifier_factory) : bool :=
  match f with
  | DynamicStoreQualifierFactory => bool_decide (os = macos)
  | WinQualifierFactory => bool_decide (os = windows)
  | ResolvConfQualifierFactory => bool_decide (os = linux) && opens
  end.

Definition make (os : target_os) (opens : bool) : option qualifier_factory :=
  option_map snd (list_find (fun f => system_qualifies os opens f = true) QUALIFIER_FACTORIES).

(** At most one factory takes the system for its own: its [make] never panics. *)
Lemma make_qualifies os opens f : make os opens = Some f <-> system_qualifies os opens f = true.
Proof. destruct os, opens, f; by vm_compute. Qed.

(** On a system whose modifier keeps its promises, and that is set up, the status is reverted at first; subverting, and subverting
    again, succeeds silently, after which the status is subverted; reverting succeeds silently, after which the status is reverted again and
    inspecting shows the same name servers as at first. *)
Theorem modifier_session {World} `{DnsModifierLaws World} (w : World) (program : string) :
  configured w ->
  let asked verb := go (Some _) [program; verb] in
  exists w' w'',
    asked "status" w = Ret (w, (0, mk_streams (chars "reverted" ++ [newline]) [])) /\
    asked "subvert" w = Ret (w', (0, mk_streams [] [])) /\
    asked "status" w' = Ret (w', (0, mk_streams (chars "subverted" ++ [newline]) [])) /\
    asked "subvert" w' = Ret (w', (0, mk_streams [] [])) /\
    asked "revert" w' = Ret (w'', (0, mk_streams [] [])) /\
    asked "status" w'' = Ret (w'', (0, mk_streams (chars "reverted" ++ [newline]) [])) /\
    (exists listed, asked "inspect" w = Ret (w, (0, mk_streams listed [])) /\ asked "inspect" w'' = Ret (w'', (0, mk_streams listed []))).
Proof.
  intros Hc. destruct (configured_inspect w Hc) as (listed & Hl & Hne).
  destruct (configured_subvert w Hc) as (w' & Hs & Hi & Hs2 & w'' & Hr & Hi2). intros asked. exists w', w''.
  unfold asked, go, perform_action, retrieve_status. cbn [String.eqb Ascii.eqb Bool.eqb].
  rewrite Hi2, Hl, Hs, Hi, Hs2, Hr. cbn [obind rbind silently exit]. unfold status_from_inspect.
  rewrite (bool_decide_eq_true_2 (SUBVERTED = SUBVERTED)), (bool_decide_eq_false_2 (listed = SUBVERTED)) by done.
  split_and!; [done..|by exists listed].
Qed.

(** Windows, with the rights of an administrator, is such a system, and reverting writes nothing there either. *)
Corollary windows_session {World RegKey} `{!WinSystem World RegKey} `{!EqDecision RegKey} (to_lowercase : text -> text)
    `{!WinSystemLaws to_lowercase} w key interfaces s program :
  administrator -> fit to_lowercase w key interfaces s ->
  let asked verb := go (Some (WinDnsModifier to_lowercase)) [program; verb] in
  exists w' w'', asked "subvert"%string w = Ret (w', (0, mk_streams [] [])) /\ asked "revert"%string w' = Ret (w'', (0, mk_streams [] [])).
Proof.
  intros Had Hfit. destruct (@modifier_session _ _ (WinLaws to_lowercase Had) w program) as (w' & w'' & _ & H1 & _ & _ & H2 & _); [by exists key, interfaces, s|].
  by exists w', w''.
Qed.

(** ** Linux *)
Section linux.
Context (decimal_digit : Z -> bool) (program : string).

(** The command on the file, when one can open it for reading, and may or may not write it *)
Definition asked (verb : string) : ResolvConf.linux -> outcome (ResolvConf.linux * (Z * streams)) :=
  go (Some (ResolvConfDnsModifier decimal_digit)) [program; verb].


Definition refused (what : string) : Z * streams :=
  (1, mk_streams [] (chars "Cannot " ++ chars what ++ chars " DNS: /etc/resolv.conf is not readable and writable and could not be modified" ++ [newline])).

Definition read_only (w : ResolvConf.linux) : ResolvConf.linux :=
  mk_linux (file w) (fun for_write => if for_write then Some PermissionDenied else opens w false) (seek w) (set_len w) (write w).



Lemma asked_read_only w : asked "subvert" (read_only w) = Ret (read_only w, refused "subvert") /\ asked "revert" (read_only w) = Ret (read_only w, refused "revert").
Proof. by split. Qed.
End linux.



