(* ===== verification/MultiConfig.v ===== *)
(** * MultiConfig: options from the command line, the environment and a configuration file

    multi_config.rs, and the parts of node_configurator/ that put virtual command lines together:
    [determine_config_file_path] and [make_service_mode_multi_config] and [prepare_initialization_mode]. clap, which turns
    arguments into matches, the TOML parser and the files are arguments. *)
From S2P Require Import Prelude Text.
From Stdlib Require Import Ascii.

Definition dashes (name : str) : bool := bool_decide (lit "--" `prefix_of` name).

(** ** Arguments *)
Inductive VclArg := NameValueVclArg (name value : str) | NameOnlyVclArg (name : str).

#[global] Instance VclArg_eq_dec : EqDecision VclArg.
Proof. solve_decision. Defined.

Definition name (a : VclArg) : str := match a with NameValueVclArg n _ => n | NameOnlyVclArg n => n end.

Definition to_args (a : VclArg) : list str := match a with NameValueVclArg n v => [n; v] | NameOnlyVclArg n => [n] end.

Definition dup (a : VclArg) : VclArg :=
  match a with NameValueVclArg n v => NameValueVclArg n v | NameOnlyVclArg n => NameOnlyVclArg n end.

(** A virtual command line is its arguments; the first of [args] stands for the command. *)
Abbreviation VirtualCommandLine := (list VclArg).

Definition vcl_args_to_args (vcl_args : list VclArg) : list str := [] :: flat_map to_args vcl_args.

(** ** [merge] *)
Fixpoint prioritize (names : gset str) (combined_vcl_args : list VclArg) : list VclArg :=
  match combined_vcl_args with
  | [] => []
  | a :: l => if decide (name a ∈ names) then dup a :: prioritize (names ∖ {[name a]}) l else prioritize names l
  end.

Definition merge (lower_priority higher_priority : VirtualCommandLine) : VirtualCommandLine :=
  let combined_vcl_args := higher_priority ++ lower_priority in
  prioritize (list_to_set (map name combined_vcl_args)) combined_vcl_args.

(** ** [CommandLineVcl] *)
Definition next_vcl_arg (args : list str) : outcome (option VclArg * list str) :=
  match args with
  | [] => Ret (None, [])
  | n :: args =>
      if negb (dashes n) then Panic
      else match args with
           | v :: args' => if dashes v then Ret (Some (NameOnlyVclArg n), args) else Ret (Some (NameValueVclArg n v), args')
           | [] => Ret (Some (NameOnlyVclArg n), args)
           end
  end.

Fixpoint all_vcl_args (fuel : nat) (args : list str) : outcome (list VclArg) :=
  match fuel with
  | O => OutOfFuel
  | S fuel =>
      let* (a, rest) := next_vcl_arg args in
      match a with
      | None => Ret []
      | Some a => let* l := all_vcl_args fuel rest in Ret (a :: l)
      end
  end.

(** Removing the command panics when there is none. *)
Definition CommandLineVcl_new (args : list str) : outcome VirtualCommandLine :=
  match args with
  | [] => Panic
  | _ :: args => all_vcl_args (S (length args)) args
  end.

(** ** [EnvironmentVcl] *)
Section environment.
(** [str::to_lowercase] *)
Context (to_lowercase : str -> str).

(** Names are the bytes of their UTF-8: a slice that ends within a character panics. *)
Definition continuation_byte (c : ascii) : bool := let z := ascii_code c in (128 <=? z) && (z <? 192).

Definition char_boundary (s : str) (i : nat) : bool := match s !! i with Some c => negb (continuation_byte c) | None => true end.

Definition replace_char (from to : ascii) (s : str) : str := map (fun c => if decide (c = from) then to else c) s.

Definition option_name (upper_name : str) : str :=
  replace_char "_"%char "-"%char (to_lowercase (drop 4 upper_name)).

Fixpoint EnvironmentVcl_new (opt_names : gset str) (vars : list (str * str)) : outcome VirtualCommandLine :=
  match vars with
  | [] => Ret []
  | (upper_name, value) :: vars =>
      if (length upper_name <? 4)%nat then EnvironmentVcl_new opt_names vars
      else if negb (char_boundary upper_name 4) then Panic
      else if negb (bool_decide (take 4 upper_name = lit "SUB_")) then EnvironmentVcl_new opt_names vars
      else
        let lower_name := option_name upper_name in
        let* l := EnvironmentVcl_new opt_names vars in
        Ret (if decide (lower_name ∈ opt_names) then NameValueVclArg (lit "--" ++ lower_name) value :: l else l)
  end.
End environment.

(** ** [ConfigFileVcl] *)
(** A value of a TOML table; of the scalars other than strings, their text *)
Inductive toml_value := Table | Array | Datetime | TString (v : str) | Scalar (text : str).

Inductive file_contents := Unopenable | Unreadable | Contents (contents : str).

(** [from_str]: the entries of the table, in the order of their keys *)
Definition ConfigFileVcl_new (from_str : str -> option (list (str * toml_value))) (file : file_contents) (user_specified : bool) :
    outcome VirtualCommandLine :=
  match file with
  | Unopenable => if user_specified then Panic else Ret []
  | Unreadable => Panic
  | Contents contents =>
      let* table := expect (from_str contents) in
      omapM (fun '(key, v) =>
        match v with
        | Table | Array | Datetime => Panic
        | TString v | Scalar v => Ret (NameValueVclArg (lit "--" ++ key) v)
        end) table
  end.

(** ** [MultiConfig] *)
(** The arguments that are given to clap *)
Definition merge_all (vcls : list VirtualCommandLine) : VirtualCommandLine := fold_left merge vcls [].

Definition MultiConfig_args (vcls : list VirtualCommandLine) : outcome (list str) :=
  let* initial := CommandLineVcl_new [[]] in
  Ret (vcl_args_to_args (fold_left merge vcls initial)).

(** What clap makes of them: the value of an option that takes one, those of an option that takes many,
    and how often an option was given; [None] when it refuses, upon which the process exits. *)
Record ArgMatches := mkMatches {
  value_of : str -> option str;
  values_of : str -> list str;
  occurrences_of : str -> nat }.

Definition get_matches (clap : list str -> option ArgMatches) (vcls : list VirtualCommandLine) : outcome (option ArgMatches) :=
  let* args := MultiConfig_args vcls in Ret (clap args).

(** The command line outranks the environment where the configuration file is looked for. *)
Definition orientation_args (environment : VirtualCommandLine) (args : list str) : outcome (list VclArg) :=
  let* command_line := CommandLineVcl_new args in
  Ret (map dup (filter (fun a => name a = lit "--data-directory" \/ name a = lit "--config-file") (merge environment command_line))).

(** [determine_config_file_path]: the two parts of the path, and whether the file was given by the user *)
Definition determine_config_file_path (preliminary : list str -> option ArgMatches) (environment : VirtualCommandLine) (args : list str) :
    outcome (option (str * str * bool)) :=
  let* orientation := orientation_args environment args in
  let* matches := get_matches preliminary [orientation] in
  match matches with
  | None => Ret None
  | Some m =>
      let* config_file_path := expect (value_of m (lit "config-file")) in
      let* data_directory := expect (value_of m (lit "data-directory")) in
      Ret (Some (data_directory, config_file_path, (0 <? occurrences_of m (lit "config-file"))%nat))
  end.

(** The lists of [make_service_mode_multi_config] and [prepare_initialization_mode] *)
Definition service_mode_vcls (args : list str) (environment config_file : VirtualCommandLine) : outcome (list VirtualCommandLine) :=
  let* command_line := CommandLineVcl_new args in Ret [command_line; environment; config_file].

Definition initialization_vcls (args : list str) (environment : VirtualCommandLine) : outcome (list VirtualCommandLine) :=
  let* command_line := CommandLineVcl_new args in Ret [command_line; environment].

(** ** Priorities *)
Definition find_name (n : str) (l : list VclArg) : option VclArg := head (filter (fun a => name a = n) l).

Lemma find_name_cons n a l : find_name n (a :: l) = if decide (name a = n) then Some a else find_name n l.
Proof. unfold find_name. rewrite filter_cons. by case_decide. Qed.

Lemma find_name_app n l l' : find_name n (l ++ l') = match find_name n l with Some a => Some a | None => find_name n l' end.
Proof.
  induction l as [|a l IH]; [done|]. cbn [app]. rewrite !find_name_cons. by case_decide.
Qed.

Lemma find_name_some n l : n ∈ map name l <-> is_Some (find_name n l).
Proof.
  induction l as [|a l IH]; [split; [intros ?%elem_of_nil|intros [? ?]]; done|]. rewrite find_name_cons. cbn [map].
  rewrite elem_of_cons. case_decide as Hn; [split; [by eexists|by left]|]. rewrite <- IH. split; [by intros [-> | ]|by right].
Qed.

Lemma dup_same a : dup a = a.
Proof. by destruct a. Qed.

Lemma prioritize_elem names l n : n ∈ map name (prioritize names l) <-> n ∈ map name l /\ n ∈ names.
Proof.
  revert names. induction l as [|a l IH]; intros names; cbn [prioritize map]; [set_solver|]. case_decide as Ha.
  - cbn [map]. rewrite dup_same, !elem_of_cons, IH. destruct (decide (n = name a)); set_solver.
  - rewrite IH, elem_of_cons. set_solver.
Qed.

Lemma prioritize_distinct names l : NoDup (map name (prioritize names l)).
Proof.
  revert names. induction l as [|a l IH]; intros names; cbn [prioritize map]; [constructor|]. case_decide; [|apply IH].
  cbn [map]. constructor; [|apply IH]. rewrite dup_same, prioritize_elem. set_solver.
Qed.

Lemma prioritize_find names l n : n ∈ names -> find_name n (prioritize names l) = find_name n l.
Proof.
  revert names. induction l as [|a l IH]; intros names Hn; cbn [prioritize]; [done|]. rewrite find_name_cons. case_decide as Ha.
  - rewrite dup_same, find_name_cons. destruct (decide (name a = n)) as [E|E]; [done|]. apply IH. set_solver.
  - rewrite decide_False by congruence. by apply IH.
Qed.

Lemma merge_find lower higher n :
  find_name n (merge lower higher) = match find_name n higher with Some a => Some a | None => find_name n lower end.
Proof.
  rewrite <- find_name_app. unfold merge. set (l := higher ++ lower).
  destruct (decide (n ∈ map name l)) as [Hn|Hn].
  - apply prioritize_find. by apply elem_of_list_to_set.
  - destruct (find_name n l) eqn:E; [destruct Hn; apply find_name_some; by eexists|].
    destruct (find_name n (prioritize _ l)) eqn:E'; [|done]. destruct Hn.
    eapply (proj1 (prioritize_elem _ _ _)). apply find_name_some. by eexists.
Qed.

Lemma merge_distinct lower higher : NoDup (map name (merge lower higher)).
Proof. apply prioritize_distinct. Qed.

(** The first that has the option *)
Fixpoint first_given (n : str) (vcls : list VirtualCommandLine) : option VclArg :=
  match vcls with
  | [] => None
  | vcl :: vcls => match find_name n vcl with Some a => Some a | None => first_given n vcls end
  end.

Lemma first_given_app n vcls vcls' :
  first_given n (vcls ++ vcls') = match first_given n vcls with Some a => Some a | None => first_given n vcls' end.
Proof. induction vcls as [|vcl vcls IH]; [done|]. cbn [app first_given]. by destruct (find_name n vcl). Qed.

Lemma merge_fold_find n vcls initial :
  find_name n (fold_left merge vcls initial) = match first_given n (rev vcls) with Some a => Some a | None => find_name n initial end.
Proof.
  revert initial. induction vcls as [|vcl vcls IH]; intros initial; [done|]. cbn [fold_left rev]. rewrite IH, first_given_app.
  destruct (first_given n (rev vcls)); [done|]. rewrite merge_find. cbn [first_given]. by destruct (find_name n vcl).
Qed.

Lemma merge_fold_distinct vcls initial : NoDup (map name initial) -> NoDup (map name (fold_left merge vcls initial)).
Proof. revert initial. induction vcls as [|vcl vcls IH]; intros initial Hi; [done|]. apply IH, merge_distinct. Qed.

Lemma prioritize_sub names l a : a ∈ prioritize names l -> a ∈ l.
Proof.
  revert names. induction l as [|b l IH]; intros names; [done|]. cbn [prioritize]. rewrite elem_of_cons. case_decide; [|by intros ?%IH; right].
  rewrite dup_same. intros [-> | Ha]%elem_of_cons; [by left|right; by eapply IH].
Qed.

Lemma merge_fold_forall (P : VclArg -> Prop) vcls initial :
  Forall P initial -> Forall (Forall P) vcls -> Forall P (fold_left merge vcls initial).
Proof.
  intros Hi Hv. revert initial Hi. induction Hv as [|vcl vcls Hvcl Hv IH]; intros initial Hi; [done|]. apply IH.
  rewrite Forall_forall in Hvcl, Hi |- *. intros a [Ha|Ha]%prioritize_sub%elem_of_app; [by apply Hvcl|by apply Hi].
Qed.

(** ** Reading a command line *)
Definition well_formed (a : VclArg) : Prop :=
  dashes (name a) = true /\ match a with NameValueVclArg _ v => dashes v = false | NameOnlyVclArg _ => True end.

Lemma next_vcl_arg_spec args a rest : next_vcl_arg args = Ret (Some a, rest) -> well_formed a /\ args = to_args a ++ rest.
Proof.
  destruct args as [|n args]; [done|]. cbn [next_vcl_arg]. destruct (dashes n) eqn:Hn; [|done]. cbn [negb].
  destruct args as [|v args]; [by intros [= <- <-]|]. destruct (dashes v) eqn:Hv; by intros [= <- <-].
Qed.

Lemma all_vcl_args_spec fuel args l : all_vcl_args fuel args = Ret l -> Forall well_formed l /\ flat_map to_args l = args.
Proof.
  revert args l. induction fuel as [|fuel IH]; intros args l; [done|]. cbn [all_vcl_args].
  intros ([[a|] rest] & E & H)%obind_ret_inv.
  - apply next_vcl_arg_spec in E as [Ha ->]. apply obind_ret_inv in H as (l' & H & [= <-]). apply IH in H as [Hl <-].
    split; [by constructor|done].
  - injection H as <-. destruct args as [|n args]; [done|]. cbn [next_vcl_arg] in E. by repeat case_match.
Qed.

(** Reading the arguments of what follows: an option without a value is not followed by one. *)
Lemma next_vcl_arg_to_args a l : well_formed a -> Forall well_formed l -> next_vcl_arg (to_args a ++ flat_map to_args l) = Ret (Some a, flat_map to_args l).
Proof.
  intros [Hn Hv] Hl. destruct a as [n v|n]; cbn [to_args app next_vcl_arg name] in *; rewrite Hn; cbn [negb]; [by rewrite Hv|].
  destruct Hl as [|b l [Hb _] _]; [done|]. destruct b as [m v|m]; cbn [flat_map to_args app name] in *; by rewrite Hb.
Qed.

Lemma all_vcl_args_complete l fuel : Forall well_formed l -> (length (flat_map to_args l) < fuel)%nat ->
  all_vcl_args fuel (flat_map to_args l) = Ret l.
Proof.
  intros Hl. revert fuel. induction Hl as [|a l Ha Hl IH]; intros [|fuel] Hf; try (cbn in Hf; lia); [done|]. cbn [all_vcl_args flat_map].
  rewrite next_vcl_arg_to_args by done. cbn [obind]. rewrite IH; [done|]. cbn [flat_map] in Hf. rewrite length_app in Hf.
  destruct a; cbn in Hf; lia.
Qed.

Lemma all_vcl_args_fuel fuel args : (length args < fuel)%nat -> all_vcl_args fuel args <> OutOfFuel.
Proof.
  revert args. induction fuel as [|fuel IH]; intros args Hf; [lia|]. cbn [all_vcl_args].
  destruct (next_vcl_arg args) as [[[a|] rest]| |] eqn:E; try done.
  - cbn [obind]. apply next_vcl_arg_spec in E as [_ ->]. rewrite length_app in Hf.
    specialize (IH rest). destruct (all_vcl_args fuel rest); try done. exfalso. apply IH; [destruct a; cbn in Hf; lia|done].
  - destruct args as [|n args]; cbn [next_vcl_arg] in E; repeat case_match; done.
Qed.

(** Reading a command line succeeds exactly when it consists of options, each with a value or not, and
    yields them; otherwise it panics. *)
Lemma CommandLineVcl_new_spec command args l :
  CommandLineVcl_new (command :: args) = Ret l <-> Forall well_formed l /\ flat_map to_args l = args.
Proof.
  cbn [CommandLineVcl_new]. split; [apply all_vcl_args_spec|]. intros [Hl <-]. apply all_vcl_args_complete; [done|lia].
Qed.

Lemma CommandLineVcl_new_total args : CommandLineVcl_new args <> OutOfFuel.
Proof. destruct args; [done|]. cbn [CommandLineVcl_new]. apply all_vcl_args_fuel. lia. Qed.

(** The value that counts is that of the last virtual command line that has the option. *)
Definition last_that_has (vcls : list VirtualCommandLine) (n : str) (a : VclArg) : Prop :=
  exists before vcl after, vcls = before ++ vcl :: after /\ find_name n vcl = Some a /\ Forall (fun vcl => n ∉ map name vcl) after.

Lemma find_name_none n l : find_name n l = None <-> n ∉ map name l.
Proof. rewrite find_name_some. destruct (find_name n l); [|by rewrite <- eq_None_not_Some]. split; [done|]. intros H. exfalso. apply H. by eexists. Qed.

Lemma first_given_last vcls n a : first_given n (rev vcls) = Some a <-> last_that_has vcls n a.
Proof.
  induction vcls as [|vcl vcls IH] using rev_ind; [split; [done|by intros ([|] & ? & ? & ? & _)]|].
  rewrite rev_unit. cbn [first_given]. destruct (find_name n vcl) as [b|] eqn:E.
  - split.
    + intros [= <-]. exists vcls, vcl, []. done.
    + intros (before & vcl' & after & Hl & Hf & Hafter). destruct after as [|x after _] using rev_ind.
      * apply app_inj_tail in Hl as [_ ->]. congruence.
      * rewrite app_comm_cons, app_assoc in Hl. apply app_inj_tail in Hl as [_ ->].
        apply Forall_app in Hafter as [_ Hx%Forall_inv]. apply find_name_none in Hx. congruence.
  - rewrite IH. split.
    + intros (before & vcl' & after & -> & Hf & Hafter). exists before, vcl', (after ++ [vcl]). rewrite <- app_assoc. split_and!; [done..|].
      apply Forall_app. split; [done|]. constructor; [by apply find_name_none|constructor].
    + intros (before & vcl' & after & Hl & Hf & Hafter). destruct after as [|x after _] using rev_ind.
      * apply app_inj_tail in Hl as [_ ->]. congruence.
      * rewrite app_comm_cons, app_assoc in Hl. apply app_inj_tail in Hl as [-> _]. apply Forall_app in Hafter as [Hafter _].
        by exists before, vcl', after.
Qed.

Lemma orientation_spec n environment line args :
  CommandLineVcl_new args = Ret line -> n ∈ [lit "--data-directory"; lit "--config-file"] ->
  exists orientation, orientation_args environment args = Ret orientation /\ find_name n orientation = first_given n [line; environment].
Proof.
  intros E Hn. unfold orientation_args. rewrite E. cbn [obind]. eexists. split; [done|].
  rewrite (map_ext _ (fun a => a)), map_id by apply dup_same. assert (find_name n (merge environment line) = first_given n [line; environment]) as <-.
  { rewrite merge_find. cbn [first_given]. destruct (find_name n line); [done|]. by destruct (find_name n environment). }
  induction (merge environment line) as [|a l IH]; [done|]. rewrite filter_cons, (find_name_cons n a l). case_decide as Ha.
  - rewrite find_name_cons. by rewrite IH.
  - rewrite IH, decide_False; [done|]. intros E'. apply Ha. subst n. set_solver.
Qed.

(** C30: Where an option's value comes from. A command line of options, each with a value or not, is read as these, and
    anything else panics. A MultiConfig gives clap each option that any of its virtual command lines has, once, as
    the last of them has it: the ones placed later override those placed earlier, and within one the first
    occurrence counts. What it gives to clap can be read back. So the command line outranks the
    environment where the configuration file is looked for. *)
Theorem options_are_taken_in_order (vcls : list VirtualCommandLine) command args environment :
  (forall line, CommandLineVcl_new (command :: args) = Ret line <-> Forall well_formed line /\ flat_map to_args line = args) /\
  CommandLineVcl_new (command :: args) <> OutOfFuel /\
  (Forall (Forall well_formed) vcls ->
   exists given merged, MultiConfig_args vcls = Ret given /\ CommandLineVcl_new given = Ret merged /\ NoDup (map name merged) /\
     forall n a, find_name n merged = Some a <-> last_that_has vcls n a) /\
  forall line n, CommandLineVcl_new (command :: args) = Ret line -> n ∈ [lit "--data-directory"; lit "--config-file"] ->
    exists orientation, orientation_args environment (command :: args) = Ret orientation /\
      forall a, find_name n orientation = Some a <-> find_name n line = Some a \/ (n ∉ map name line) /\ find_name n environment = Some a.
Proof.
  split_and!; [apply CommandLineVcl_new_spec|apply CommandLineVcl_new_total|intros Hv|intros line n E Hn].
  - exists (vcl_args_to_args (merge_all vcls)), (merge_all vcls). split_and!.
    + done.
    + apply CommandLineVcl_new_spec. split; [|done]. by apply merge_fold_forall; [constructor|].
    + apply merge_fold_distinct. constructor.
    + intros n a. unfold merge_all. rewrite merge_fold_find, <- first_given_last. by destruct (first_given n (rev vcls)).
  - destruct (orientation_spec n environment line _ E Hn) as (orientation & Eo & Ho). exists orientation. split; [done|]. intros a.
    rewrite Ho, <- find_name_none. cbn [first_given]. destruct (find_name n line); [naive_solver|]. destruct (find_name n environment); naive_solver.
Qed.

Lemma options_are_taken_in_order_witness :
  let environment := [NameValueVclArg (lit "--chain") (lit "dev")] in
  let line := [NameValueVclArg (lit "--ip") (lit "1.2.3.4"); NameValueVclArg (lit "--chain") (lit "ropsten")] in
  (exists given merged, MultiConfig_args [environment; line] = Ret given /\ CommandLineVcl_new given = Ret merged /\ NoDup (map name merged)) /\
  exists orientation, orientation_args environment (map lit ["node"; "--data-directory"; "/one"]%string) = Ret orientation /\
    find_name (lit "--data-directory") orientation = Some (NameValueVclArg (lit "--data-directory") (lit "/one")).
Proof.
  intros environment line.
  destruct (options_are_taken_in_order [environment; line] (lit "node") (map lit ["--data-directory"; "/one"]%string) environment) as (_ & _ & H1 & H2).
  split.
  - destruct H1 as (given & merged & E1 & E2 & E3 & _); [repeat constructor|]. by exists given, merged.
  - destruct (H2 [NameValueVclArg (lit "--data-directory") (lit "/one")] (lit "--data-directory")) as (o & E & Ho); [reflexivity|by left|].
    exists o. split; [exact E|]. apply Ho. by left.
Defined.

(** The order that the documentation promises for a Node in service is the other way round: an option that is given several times
    counts as the configuration file has it, or else the environment, or else the command line. *)
Lemma service_mode_order command line environment config_file n :
  Forall well_formed line ->
  exists vcls, service_mode_vcls (command :: flat_map to_args line) environment config_file = Ret vcls /\
    find_name n (merge_all vcls) = first_given n [config_file; environment; line].
Proof.
  intros Hl. assert (CommandLineVcl_new (command :: flat_map to_args line) = Ret line) as E by by apply CommandLineVcl_new_spec.
  exists [line; environment; config_file]. unfold service_mode_vcls. rewrite E. split; [done|].
  unfold merge_all. rewrite merge_fold_find. cbn [rev app]. by destruct (first_given _ _).
Qed.

(** A command line that has an option which the configuration file has too: the directory in which the file is looked
    for is the command line's, the directory that is used is the file's. *)
Example data_directory_is_taken_from_two_places :
  let args := map lit ["node"; "--data-directory"; "/one"]%string in
  let config_file := [NameValueVclArg (lit "--data-directory") (lit "/two")] in
  orientation_args [] args = Ret [NameValueVclArg (lit "--data-directory") (lit "/one")] /\
  (let* vcls := service_mode_vcls args [] config_file in MultiConfig_args vcls) = Ret (map lit [""; "--data-directory"; "/two"]%string).
Proof. by vm_compute. Qed.
