(* ===== verification/Configurator.v ===== *)
(** * Configurator: validators, the real user, passwords at the console, and the creation of wallets

    node_configurator/mod.rs, [RealUser] of bootstrapper.rs and the parts of
    node_configurator_generate_wallet.rs and node_configurator_recover_wallet.rs that are not help texts.
    Values of options are those of [ArgMatches]; the database is that of [Accounts]. *)
From S2P Require Import Prelude Text SubLib Wallet Accounts MultiConfig.
From Stdlib Require Import Ascii.

(** What the code takes from libraries: derivation paths (of each child, whether it is hardened), hexadecimal text,
    secret keys, and IPv6 addresses *)
Class StartupLib := {
  derivation_path : str -> option (list bool);
  from_hex : str -> option bytes;
  secret_from_raw : bytes -> option bytes;
  parse_ipv6 : str -> option IpAddr }.

(** ** The macros: value_m!, values_m! and value_user_specified_m! *)
Section macros.
Context (m : ArgMatches).

Definition value_m {T} (parse : str -> option T) (v : string) : option T :=
  match value_of m (lit v) with Some s => parse s | None => None end.

Definition values_m {T} (parse : str -> option T) (v : string) : list T :=
  match mapM parse (values_of m (lit v)) with Some vs => vs | None => [] end.

Definition value_user_specified_m {T} (parse : str -> option T) (v : string) : option T * bool :=
  (value_m parse v, (0 <? occurrences_of m (lit v))%nat).
End macros.

(** ** Validators: [None] is [Ok(())] *)
Definition is_hex (c : ascii) : bool :=
  let z := ascii_code c in ((48 <=? z) && (z <=? 57)) || ((97 <=? z) && (z <=? 102)) || ((65 <=? z) && (z <=? 70)).

Definition is_digit (c : ascii) : bool := let z := ascii_code c in (48 <=? z) && (z <=? 57).

Fixpoint span (p : ascii -> bool) (s : str) : str * str :=
  match s with
  | c :: s' => if p c then let (u, v) := span p s' in (c :: u, v) else ([], s)
  | [] => ([], [])
  end.

(** ^0x[0-9a-fA-F]{40}$ *)
Definition validate_ethereum_address (address : str) : bool :=
  match address with
  | "0"%char :: "x"%char :: s => forallb is_hex s && (length s =? 40)%nat
  | _ => false
  end.

(** ^[0-9a-fA-F]{64}$ *)
Definition validate_private_key (key : str) : bool := forallb is_hex key && (length key =? 64)%nat.

(** ^[0-9]*:[0-9]*:.*$, where . is anything but a line feed *)
Definition validate_real_user (triple : str) : bool :=
  match (span is_digit triple).2 with
  | ":"%char :: s =>
      match (span is_digit s).2 with
      | ":"%char :: home => forallb (fun c => negb (ascii_code c =? 10)) home
      | _ => false
      end
  | _ => false
  end.

Section lib.
Context `{!StartupLib}.

Definition validate_derivation_path_is_sufficiently_hardened (path : list bool) : bool :=
  (2 <? length (List.filter (fun is_hardened => is_hardened) path))%nat.

Definition validate_derivation_path (path : str) : bool :=
  match derivation_path path with
  | Some p => validate_derivation_path_is_sufficiently_hardened p
  | None => false
  end.

Definition validate_earning_wallet (value : str) : bool := validate_ethereum_address value || validate_derivation_path value.

(** [IpAddr::from_str] *)
Definition parse_ip_addr (s : str) : option IpAddr :=
  match NodeAddr.parse_ipv4 s with Some ip => Some ip | None => parse_ipv6 s end.

Definition validate_ip_address (address : str) : bool := bool_decide (is_Some (parse_ip_addr address)).
End lib.

Definition validate_ui_port (port : str) : bool :=
  match parse_uint 16 port with
  | Some port_number => negb (port_number <? NodeAddr.LOWEST_USABLE_INSECURE_PORT)
  | None => false
  end.

Definition validate_clandestine_port (port : str) : bool :=
  match parse_uint 16 port with
  | Some port_number => NodeAddr.LOWEST_USABLE_INSECURE_PORT <=? port_number
  | None => false
  end.

Definition validate_gas_price (gas_price : str) : bool :=
  match parse_uint 8 gas_price with Some gp => (0 <? gp) && (gp <? 100) | None => false end.

(** ** RealUser *)

(** [PathBuf] of Unix, as text *)
Abbreviation path := str.

Definition path_absolute (p : path) : bool := bool_decide (head p = Some "/"%char).

(** Backwards: without the separators at the end, nor a . that follows one; the root stays. *)
Fixpoint trim_rev (r : str) : str :=
  match r with
  | ["/"%char] => r
  | "/"%char :: r => trim_rev r
  | "."%char :: ("/"%char :: _) as r' => trim_rev r'
  | _ => r
  end.

Fixpoint drop_component (r : str) : str :=
  match r with
  | [] => []
  | c :: r' => if decide (c = "/"%char) then r else drop_component r'
  end.

Definition path_parent (p : path) : option path :=
  match trim_rev (rev p) with
  | [] => None
  | ["/"%char] => None
  | r => Some (rev (trim_rev (drop_component r)))
  end.

Definition path_join (p q : path) : path :=
  if path_absolute q then q
  else match rev p with
       | [] => q
       | "/"%char :: _ => p ++ q
       | _ => p ++ lit "/" ++ q
       end.

Record RealUser := mk_RealUser { uid : option Z; gid : option Z; home_dir : option path }.

#[global] Instance RealUser_eq_dec : EqDecision RealUser.
Proof. solve_decision. Defined.

(** The environment, the ids of the process, and its directories *)
Record surroundings := mk_surroundings {
  var : string -> option str; getuid : Z; getgid : Z; own_home_dir : option path; own_data_dir : option path }.

(** [str::parse::<i32>] *)
Definition parse_i32 (s : str) : option Z :=
  match s with
  | "-"%char :: [] => None
  | "-"%char :: s' => option_map Z.opp (parse_digits (2 ^ 31 + 1) 0 s')
  | _ => parse_uint 31 s
  end.

(** [splitn(3, ':')] *)
Definition splitn3 (s : str) : list str :=
  match splitn2 ":"%char s with
  | [a; s'] => a :: splitn2 ":"%char s'
  | l => l
  end.

Definition optional_id (s : str) : outcome (option Z) :=
  match s with [] => Ret None | _ => let* n := expect (parse_i32 s) in Ret (Some n) end.

Definition RealUser_from_str (triple : str) : outcome RealUser :=
  let parts := splitn3 triple in
  let* p0 := expect (parts !! 0%nat) in
  let* u := optional_id p0 in
  let* p1 := expect (parts !! 1%nat) in
  let* g := optional_id p1 in
  let* p2 := expect (parts !! 2%nat) in
  Ret (mk_RealUser u g (match p2 with [] => None | s => Some s end)).

Definition RealUser_null : RealUser := mk_RealUser None None None.

Definition first_present {T} (candidates : list (option T)) : outcome T :=
  let* t_opt := expect (snd <$> list_find is_Some candidates) in expect t_opt.

Definition id_from_env (s : surroundings) (name : string) : option Z :=
  match var s name with Some v => parse_i32 v | None => None end.

Definition sudo_home_from_sudo_user_and_home (s : surroundings) : outcome (option path) :=
  match var s "SUDO_USER", own_home_dir s with
  | Some sudo_user, Some home_dir => let* parent := expect (path_parent home_dir) in Ret (Some (path_join parent sudo_user))
  | _, _ => Ret None
  end.

Definition populate (s : surroundings) (self : RealUser) : outcome RealUser :=
  let* u := first_present [uid self; id_from_env s "SUDO_UID"; Some (getuid s)] in
  let* g := first_present [gid self; id_from_env s "SUDO_GID"; Some (getgid s)] in
  let* sudo_home := sudo_home_from_sudo_user_and_home s in
  let* h := first_present [home_dir self; sudo_home; own_home_dir s] in
  Ret (mk_RealUser (Some u) (Some g) (Some h)).

(** value_m! of the option: a panic of [from_str] is one of the macro. *)
Definition real_user_m (m : ArgMatches) : outcome (option RealUser) :=
  match value_of m (lit "real-user") with Some s => let* ru := RealUser_from_str s in Ret (Some ru) | None => Ret None end.

(** ** The console

    What the user types, line by line, and what has been written. Passwords are read one line at a time;
    reading at the end of the input fails, upon which the code panics. *)
Record StdStreams := mkStreams { stdin : list str; stdout : str }.

Definition flushed_write (s : StdStreams) (text : str) : StdStreams := mkStreams (stdin s) (stdout s ++ text).

Definition read_password (s : StdStreams) : outcome (StdStreams * str) :=
  match stdin s with
  | line :: rest => Ret (mkStreams rest (stdout s), line)
  | [] => Panic
  end.

Definition newline : str := [ascii_of_code 10].

Inductive PasswordError := Mismatch | RetriesExhausted | VerifyError (msg : str).

(** Its rendering for {:?}; [escape] is that of a string *)
Definition password_error_debug (escape : str -> str) (e : PasswordError) : str :=
  match e with
  | Mismatch => lit "Mismatch"
  | RetriesExhausted => lit "RetriesExhausted"
  | VerifyError msg => lit "VerifyError(" ++ escape msg ++ lit ")"
  end.

Definition cannot_be_blank (password : str) : result unit str :=
  match password with [] => Err (lit "Password cannot be blank.") | _ => Ok tt end.

Definition request_existing_password (s : StdStreams) (verifier : str -> outcome (result unit str)) :
    outcome (StdStreams * result str PasswordError) :=
  let* (s1, password) := read_password s in
  let* verified := verifier password in
  Ret (s1, match verified with Ok _ => Ok password | Err msg => Err (VerifyError msg) end).

Definition request_password_with_confirmation (confirmation_prompt mismatch_msg : str) (s : StdStreams)
    (verifier : str -> result unit str) : outcome (StdStreams * result str PasswordError) :=
  let* (s1, password) := read_password s in
  match verifier password with
  | Ok _ =>
      let s2 := flushed_write s1 confirmation_prompt in
      let* (s3, confirm) := read_password s2 in
      Ret (if bool_decide (password = confirm) then (s3, Ok password) else (flushed_write s3 mismatch_msg, Err Mismatch))
  | Err msg => Ret (s1, Err (VerifyError msg))
  end.

Section dialogs.
(** {:?} of a string *)
Context (escape : str -> str).

Fixpoint attempts (prompt : str) (requester : StdStreams -> outcome (StdStreams * result str PasswordError)) (l : list str) (s : StdStreams) :
    outcome (StdStreams * result str PasswordError) :=
  match l with
  | [] => Ret (s, Err RetriesExhausted)
  | attempt :: l =>
      let* (s1, r) := requester (flushed_write s prompt) in
      match r with
      | Ok password => Ret (s1, Ok password)
      | Err Mismatch => attempts prompt requester l (flushed_write s1 (lit " " ++ attempt ++ newline))
      | Err (VerifyError msg) => attempts prompt requester l (flushed_write s1 (msg ++ lit " " ++ attempt ++ newline))
      | Err e => attempts prompt requester l (flushed_write s1 (password_error_debug escape e ++ lit " " ++ attempt ++ newline))
      end
  end.

Definition ATTEMPTS : list str := [lit "Try again."; lit "Try again."; lit "Giving up."].

Definition request_password_with_retry (prompt : str) (s : StdStreams) (requester : StdStreams -> outcome (StdStreams * result str PasswordError)) :
    outcome (StdStreams * result str PasswordError) := attempts prompt requester ATTEMPTS s.

Definition preamble (s : StdStreams) (possible_preamble : option str) : StdStreams :=
  match possible_preamble with Some p => flushed_write s (p ++ newline) | None => s end.

Definition request_wallet_encryption_password (s : StdStreams) (possible_preamble : option str) (prompt confirmation_prompt : str) :
    outcome (StdStreams * option str) :=
  let* (s1, r) := request_password_with_retry prompt (preamble s possible_preamble) (fun s =>
    request_password_with_confirmation confirmation_prompt (lit "Passwords do not match.") s cannot_be_blank) in
  Ret (match r with
       | Ok password => (s1, Some password)
       | Err RetriesExhausted => (s1, None)
       | Err Mismatch => (s1, None)
       | Err (VerifyError e) => (flushed_write s1 (lit "Could not elicit wallet encryption password: " ++ escape e ++ newline), None)
       end).

Definition decryption_verifier `{!ConfigLib} (encrypted_mnemonic_seed password : str) : outcome (result unit str) :=
  match password with
  | [] => Ret (Err (lit "Password must not be blank."))
  | _ =>
      match decrypt_bytes encrypted_mnemonic_seed password with
      | Ok _ => Ret (Ok tt)
      | Err DecryptionFailure => Ret (Err (lit "Incorrect password."))
      | Err _ => Panic
      end
  end.

Definition request_wallet_decryption_password `{!ConfigLib} (s : StdStreams) (possible_preamble : option str) (prompt encrypted_mnemonic_seed : str) :
    outcome (StdStreams * option str) :=
  let* (s1, r) := request_password_with_retry prompt (preamble s possible_preamble) (fun s =>
    request_existing_password s (decryption_verifier encrypted_mnemonic_seed)) in
  Ret (match r with
       | Ok [] => (s1, None)
       | Ok password => (s1, Some password)
       | Err RetriesExhausted => (s1, None)
       | Err e =>
           (flushed_write s1 (lit "Could not elicit wallet decryption password: " ++ password_error_debug escape e ++ newline), None)
       end).

(** [request_mnemonic_passphrase], of generating and of recovering wallets: they differ in what they write. Reading
    the Enter key takes a character; here, the rest of a line. *)
Definition request_mnemonic_passphrase (introduction prompt : str) (s : StdStreams) : outcome (StdStreams * option str) :=
  let* (s1, r) := request_password_with_retry prompt (flushed_write s introduction) (fun s =>
    request_password_with_confirmation (lit "  Confirm mnemonic passphrase: ") (newline ++ lit "Passphrases do not match.") s (fun _ => Ok tt)) in
  match r with
  | Ok [] =>
      let s2 := flushed_write s1 (newline ++ lit "While ill-advised, proceeding with no mnemonic passphrase." ++ newline ++
        lit "Press Enter to continue...") in
      Ret (mkStreams (tail (stdin s2)) (stdout s2), None)
  | Ok mp => Ret (s1, Some mp)
  | Err _ => Panic
  end.
End dialogs.

(** ** Wallets are created *)
Inductive Either (L R : Type) := Left (l : L) | Right (r : R).
Arguments Left {L R} _.
Arguments Right {L R} _.

Record DerivationPathWalletInfo := mk_info {
  info_mnemonic_seed : bytes; info_wallet_password : str; consuming_derivation_path_opt : option str }.

Record WalletCreationConfig := mk_creation {
  earning_wallet_address_opt : option str; derivation_path_info_opt : option DerivationPathWalletInfo; creation_real_user : RealUser }.

Definition DEFAULT_CONSUMING_DERIVATION_PATH : str := lit "m/44'/60'/0'/0/0".
Definition DEFAULT_EARNING_DERIVATION_PATH : str := lit "m/44'/60'/0'/0/1".

Section creation.
Context `{!Sqlite} `{!ConfigLib} `{!EthSign} `{!StartupLib} (escape : str -> str).

(** [Display for Wallet]: the address in hexadecimal digits, in lower case *)
Definition wallet_to_string (w : Wallet) : outcome str := let* a := address w in Ret (lit "0x" ++ to_hex a).

Definition create_wallet (draw : bytes) (config : WalletCreationConfig) (db : Db) : outcome Db :=
  let* db1 := match earning_wallet_address_opt config with
              | Some address => set_earning_wallet_address db address
              | None => Ret db
              end in
  match derivation_path_info_opt config with
  | None => Ret db1
  | Some info =>
      let* db2 := set_mnemonic_seed draw db1 (info_mnemonic_seed info) (info_wallet_password info) in
      match consuming_derivation_path_opt info with
      | Some path => set_consuming_wallet_derivation_path db2 path (info_wallet_password info)
      | None => Ret db2
      end
  end.

Definition make_wallet_password (s : StdStreams) : outcome (StdStreams * str) :=
  let* (s1, r) := request_wallet_encryption_password escape s
    (Some (newline ++ newline ++ lit "Please provide a password to encrypt your wallet (This password can be changed later)..."))
    (lit "  Enter password: ") (lit "  Confirm password: ") in
  let* wp := expect r in Ret (s1, wp).

(** The value of --earning-wallet: a derivation path, or an address without its 0x *)
Definition earning_wallet_info (value : str) : outcome (Either str str) :=
  match derivation_path value with
  | Some _ => Ret (Right value)
  | None =>
      if (length value <? 2)%nat || negb (char_boundary value 2) then Panic
      else match from_hex (drop 2 value) with
           | Some b => if (length b =? 20)%nat then Ret (Left value) else Panic
           | None => Panic
           end
  end.

(** [make_wallet_creation_config]; [make_passphrase] and [make_seed] are those of generating or of recovering wallets. *)
Definition make_wallet_creation_config (make_passphrase : StdStreams -> outcome (StdStreams * str))
    (make_seed : StdStreams -> str -> str -> Either str str -> outcome (StdStreams * bytes)) (m : ArgMatches) (s : StdStreams) :
    outcome (StdStreams * WalletCreationConfig) :=
  let* (s1, mnemonic_passphrase) := match value_m m Some "mnemonic-passphrase" with Some mp => Ret (s, mp) | None => make_passphrase s end in
  let* (s2, wallet_password) := match value_m m Some "wallet-password" with Some wp => Ret (s1, wp) | None => make_wallet_password s1 end in
  let consuming_derivation_path := default DEFAULT_CONSUMING_DERIVATION_PATH (value_m m Some "consuming-wallet") in
  let* info := match value_m m Some "earning-wallet" with
               | Some value => earning_wallet_info value
               | None => Ret (Right DEFAULT_EARNING_DERIVATION_PATH)
               end in
  let* (s3, seed) := make_seed s2 mnemonic_passphrase consuming_derivation_path info in
  let* real_user := real_user_m m in
  let* address := match info with
                  | Left address => Ret address
                  | Right path =>
                      let* keypair := expect (keypair_from_raw seed path) in
                      wallet_to_string (mkWallet (KeyPair keypair))
                  end in
  Ret (s3, mk_creation (Some address) (Some (mk_info seed wallet_password (Some consuming_derivation_path))) (default RealUser_null real_user)).

(** [make_mnemonic_passphrase] and [make_mnemonic_seed] of [NodeConfiguratorRecoverWallet]; of BIP39, [mnemonic_of_phrase] makes a mnemonic of a phrase
    that is valid in the language, and [seed_of] its seed. Exiting is a panic. *)
Definition recover_passphrase (s : StdStreams) : outcome (StdStreams * str) :=
  let* (s1, r) := request_mnemonic_passphrase escape
    (newline ++ lit "Please enter the passphrase for your mnemonic, or Enter if there is none." ++ newline ++
     lit "You will encrypt your wallet in a following step..." ++ newline) (lit "  Mnemonic passphrase: ") s in
  Ret (s1, default [] r).

Definition is_separator (c : ascii) : bool := let z := ascii_code c in (z =? 32) || (z =? 9) || (z =? 10).

Definition is_space (c : ascii) : bool := let z := ascii_code c in ((9 <=? z) && (z <=? 13)) || (z =? 32).

(** [trim], of ASCII white space *)
Definition trim (s : str) : str := rev (span is_space (rev (span is_space s).2)).2.

(** [split] at spaces, tabs and line feeds, without the empty words *)
Fixpoint words (word : str) (s : str) : list str :=
  match s with
  | [] => match word with [] => [] | _ => [rev word] end
  | c :: s' => if is_separator c then match word with [] => words [] s' | _ => rev word :: words [] s' end else words (c :: word) s'
  end.

Definition request_mnemonic_phrase (s : StdStreams) : outcome (StdStreams * list str) :=
  let s1 := flushed_write s (newline ++ lit "Please provide your wallet's mnemonic phrase." ++ newline ++
    lit "It must be 12, 15, 18, 21, or 24 words long." ++ newline) in
  let s2 := flushed_write s1 (lit "Mnemonic phrase: ") in
  let phrase := default [] (head (stdin s2)) in
  Ret (mkStreams (tail (stdin s2)) (stdout s2), map trim (words [] phrase)).

Section recover.
Context {language mnemonic : Type} (language_from_name : str -> option language)
  (mnemonic_of_phrase : str -> language -> option mnemonic) (seed_of : mnemonic -> str -> bytes).

Definition get_mnemonic (lang : language) (m : ArgMatches) (s : StdStreams) : outcome (StdStreams * mnemonic) :=
  let* (s1, phrase_words) := match values_m m Some "mnemonic" with [] => request_mnemonic_phrase s | ws => Ret (s, ws) end in
  let* mn := expect (mnemonic_of_phrase (join_with " "%char phrase_words) lang) in
  Ret (s1, mn).

Definition recover_seed (m : ArgMatches) (s : StdStreams) (mnemonic_passphrase : str) : outcome (StdStreams * bytes) :=
  let* language_str := expect (value_m m Some "language") in
  let* lang := expect (language_from_name language_str) in
  let* (s1, mn) := get_mnemonic lang m s in
  Ret (s1, seed_of mn mnemonic_passphrase).

(** [parse_args] and [configure] of [NodeConfiguratorRecoverWallet], on the database that [prepare_initialization_mode] opened *)
Definition recover_parse_args (m : ArgMatches) (s : StdStreams) (db : Db) : outcome (StdStreams * WalletCreationConfig) :=
  let* ems := encrypted_mnemonic_seed db in
  match ems with
  | Some _ => Panic
  | None => make_wallet_creation_config recover_passphrase (fun s mp _ _ => recover_seed m s mp) m s
  end.

Definition recover_wallet (draw : bytes) (m : ArgMatches) (s : StdStreams) (db : Db) : outcome (StdStreams * WalletCreationConfig * Db) :=
  let* (s1, config) := recover_parse_args m s db in
  let* db' := create_wallet draw config db in
  Ret (s1, config, db').

(** [configure] of [NodeConfiguratorGenerateWallet]; [make_mnemonic] is its factory. *)
Definition generate_passphrase (s : StdStreams) : outcome (StdStreams * str) :=
  let* (s1, r) := request_mnemonic_passphrase escape
    (newline ++ lit "Please provide an extra mnemonic passphrase to ensure your wallet is unique" ++ newline ++
     lit "(NOTE: This passphrase cannot be changed later and still produce the same addresses)." ++ newline ++
     lit "You will encrypt your wallet in a following step..." ++ newline) (lit "  Mnemonic passphrase (recommended): ") s in
  Ret (s1, default [] r).

(** [arg_matches().is_present] of a flag *)
Definition flag_is_present (m : ArgMatches) (flag : string) : bool := (0 <? occurrences_of m (lit flag))%nat.

(** The wallet of a derivation path and of an address *)
Definition wallet_of_path (seed : bytes) (path : str) : outcome str :=
  let* keypair := expect (keypair_from_raw seed path) in
  wallet_to_string (mkWallet (KeyPair keypair)).

Definition earning_wallet_of_path (seed : bytes) (path : str) : outcome str :=
  let* keypair := expect (keypair_from_raw seed path) in
  wallet_to_string (mkWallet (Address (keypair_address keypair))).

Definition wallet_of_address (address : str) : outcome str :=
  let* w := expect (wallet_from_str address) in wallet_to_string w.

(** A member of an object in JSON *)
Definition member (name value : str) : str := quoted name ++ lit ": " ++ quoted value.

Definition earning_wallet_object_body (seed : bytes) (info : Either str str) : outcome str :=
  match info with
  | Left address => let* w := wallet_of_address address in Ret (member (lit "address") w)
  | Right path =>
      let* w := earning_wallet_of_path seed path in
      Ret (member (lit "derivationPath") path ++ lit "," ++ newline ++ lit "                        " ++ member (lit "address") w)
  end.

Definition wallets_object (phrase consuming_derivation_path consuming_wallet body : str) : str :=
  newline ++ lit "                {" ++ newline ++
  lit "                    " ++ member (lit "mnemonicPhrase") phrase ++ lit "," ++ newline ++
  lit "                    " ++ quoted (lit "consumingWallet") ++ lit ": {" ++ newline ++
  lit "                        " ++ member (lit "derivationPath") consuming_derivation_path ++ lit "," ++ newline ++
  lit "                        " ++ member (lit "address") consuming_wallet ++ newline ++
  lit "                    }," ++ newline ++
  lit "                    " ++ quoted (lit "earningWallet") ++ lit ": {" ++ newline ++
  lit "                        " ++ body ++ newline ++
  lit "                    }" ++ newline ++
  lit "                }" ++ newline ++ lit "                ".

Definition record_phrase : str :=
  newline ++ newline ++ lit "Record the following mnemonic recovery phrase in the sequence provided" ++ newline ++
  lit "and keep it secret! You cannot recover your wallet without these words" ++ newline ++
  lit "plus your mnemonic passphrase if you provided one." ++ newline ++ newline.

Definition earning_wallet_line (seed : bytes) (info : Either str str) : outcome str :=
  match info with
  | Left address => let* w := wallet_of_address address in Ret (lit "  Earning Wallet: " ++ w ++ newline)
  | Right path => let* w := earning_wallet_of_path seed path in Ret (lit "  Earning Wallet (" ++ path ++ lit "): " ++ w ++ newline)
  end.

(** [report_wallet_information]; [unindent] is that of the crate unindent. *)
Definition report_wallet_information (unindent : str -> str) (s : StdStreams) (phrase : str) (seed : bytes)
    (consuming_derivation_path : str) (info : Either str str) (json : bool) : outcome StdStreams :=
  let* consuming_wallet := wallet_of_path seed consuming_derivation_path in
  if json then
    let* body := earning_wallet_object_body seed info in
    Ret (flushed_write s (unindent (wallets_object phrase consuming_derivation_path consuming_wallet body)))
  else
    let s1 := flushed_write (flushed_write (flushed_write s record_phrase) phrase) (newline ++ newline) in
    let s2 := flushed_write s1 (lit "Consuming Wallet (" ++ consuming_derivation_path ++ lit "): " ++ consuming_wallet ++ newline) in
    let* line := earning_wallet_line seed info in
    Ret (flushed_write s2 line).

Section generate.
Context (make_mnemonic : Z -> language -> option mnemonic) (phrase_of : mnemonic -> str) (unindent : str -> str).

Definition generate_seed (m : ArgMatches) (s : StdStreams) (mnemonic_passphrase consuming_derivation_path : str) (info : Either str str) :
    outcome (StdStreams * bytes) :=
  let* language_str := expect (value_m m Some "language") in
  let* lang := expect (language_from_name language_str) in
  let* word_count := expect (value_m m (parse_uint 64) "word-count") in
  let* mn := expect (make_mnemonic word_count lang) in
  let seed := seed_of mn mnemonic_passphrase in
  let* s1 := report_wallet_information unindent s (phrase_of mn) seed consuming_derivation_path info (flag_is_present m "json") in
  Ret (s1, seed).

Definition generate_parse_args (m : ArgMatches) (s : StdStreams) (db : Db) : outcome (StdStreams * WalletCreationConfig) :=
  let* ems := encrypted_mnemonic_seed db in
  match ems with
  | Some _ => Panic
  | None => make_wallet_creation_config generate_passphrase (generate_seed m) m s
  end.

Definition generate_wallet (draw : bytes) (m : ArgMatches) (s : StdStreams) (db : Db) : outcome (StdStreams * WalletCreationConfig * Db) :=
  let* (s1, config) := generate_parse_args m s db in
  let* db' := create_wallet draw config db in
  Ret (s1, config, db').
End generate.
End recover.
End creation.

(** ** What the dialog for a new password does *)
Section dialog.
Context (escape : str -> str) (prompt confirmation_prompt : str).

(** What the user can type in an attempt that fails: nothing, or two different things *)
Inductive failure := Blank | Mismatched (password confirm : str).

Definition genuine (f : failure) : Prop := match f with Blank => True | Mismatched p q => p <> [] /\ p <> q end.

Definition typed (f : failure) : list str := match f with Blank => [[]] | Mismatched p q => [p; q] end.

(** What is written during such an attempt, which is followed by "Try again." or "Giving up." *)
Definition transcript (f : failure) (attempt : str) : str :=
  prompt ++ match f with Blank => lit "Password cannot be blank." | Mismatched _ _ => confirmation_prompt ++ lit "Passwords do not match." end ++
    lit " " ++ attempt ++ newline.

Definition transcripts (fs : list failure) (l : list str) : str := concat (zip_with transcript fs l).

Definition dialog (l : list str) (s : StdStreams) : outcome (StdStreams * result str PasswordError) :=
  attempts escape prompt (fun s => request_password_with_confirmation confirmation_prompt (lit "Passwords do not match.") s cannot_be_blank) l s.

Lemma dialog_step f a l rest out : genuine f ->
  dialog (a :: l) (mkStreams (typed f ++ rest) out) = dialog l (mkStreams rest (out ++ transcript f a)).
Proof.
  intros Hf. unfold dialog, transcript. destruct f as [|q q']; [cbn; unfold flushed_write; cbn; by rewrite <- !app_assoc|].
  destruct Hf as [Hq Hne]. destruct q as [|c q]; [done|]. cbn. rewrite bool_decide_eq_false_2 by done. cbn. unfold flushed_write. cbn. by rewrite <- !app_assoc.
Qed.

Lemma dialog_done p a l rest out : p <> [] ->
  dialog (a :: l) (mkStreams (p :: p :: rest) out) = Ret (mkStreams rest (out ++ prompt ++ confirmation_prompt), Ok p).
Proof. intros Hp. unfold dialog. cbn. destruct p as [|c p]; [done|]. cbn. rewrite bool_decide_eq_true_2 by done. by rewrite <- app_assoc. Qed.

Lemma transcripts_cons f fs a l : transcripts (f :: fs) (a :: l) = transcript f a ++ transcripts fs l.
Proof. done. Qed.

Lemma dialog_failed fs rest l l' out : Forall genuine fs -> length fs = length l ->
  dialog (l ++ l') (mkStreams (flat_map typed fs ++ rest) out) = dialog l' (mkStreams rest (out ++ transcripts fs (l ++ l'))).
Proof.
  intros Hfs. revert l out. induction Hfs as [|f fs Hf Hfs IH]; intros [|a l] out Hl; try done; [by rewrite app_nil_r|].
  cbn [flat_map app]. rewrite <- app_assoc, dialog_step, IH by (done || (cbn in Hl; lia)). by rewrite transcripts_cons, <- app_assoc.
Qed.

(** [l] is longer than what fails. *)
Lemma dialog_behind fs rest l out : Forall genuine fs -> (length fs <= length l)%nat ->
  dialog l (mkStreams (flat_map typed fs ++ rest) out) = dialog (drop (length fs) l) (mkStreams rest (out ++ transcripts fs l)).
Proof.
  intros Hfs Hl. rewrite <- (take_drop (length fs) l) at 1. rewrite dialog_failed by (done || (rewrite length_take; lia)). by rewrite take_drop.
Qed.

(** Whatever is typed falls into one of the two, or ends too early. *)
Lemma typed_cases (n : nat) (lines : list str) :
  (exists fs p rest, Forall genuine fs /\ (length fs < n)%nat /\ p <> [] /\ lines = flat_map typed fs ++ p :: p :: rest) \/
  (exists fs rest, Forall genuine fs /\ length fs = n /\ lines = flat_map typed fs ++ rest) \/
  (exists fs rest, Forall genuine fs /\ (length fs < n)%nat /\ lines = flat_map typed fs ++ rest /\ (rest = [] \/ exists p, p <> [] /\ rest = [p])).
Proof.
  revert lines. induction n as [|n IH]; intros lines; [right; left; by exists [], lines|].
  destruct lines as [|p lines]; [right; right; exists [], []; split_and!; [done|cbn; lia|done|by left]|].
  assert (forall f lines', genuine f -> p :: lines = typed f ++ lines' ->
    (exists fs p' rest, Forall genuine fs /\ (length fs < S n)%nat /\ p' <> [] /\ p :: lines = flat_map typed fs ++ p' :: p' :: rest) \/
    (exists fs rest, Forall genuine fs /\ length fs = S n /\ p :: lines = flat_map typed fs ++ rest) \/
    (exists fs rest, Forall genuine fs /\ (length fs < S n)%nat /\ p :: lines = flat_map typed fs ++ rest /\ (rest = [] \/ exists p', p' <> [] /\ rest = [p']))) as Hstep.
  { intros f lines' Hf ->. destruct (IH lines') as [(fs & q & rest & H1 & H2 & H3 & ->)|[(fs & rest & H1 & H2 & ->)|(fs & rest & H1 & H2 & -> & H3)]].
    - left. exists (f :: fs), q, rest. split_and!; [by constructor|cbn; lia|done|]. cbn. by rewrite <- app_assoc.
    - right. left. exists (f :: fs), rest. split_and!; [by constructor|cbn; lia|]. cbn. by rewrite <- app_assoc.
    - right. right. exists (f :: fs), rest. split_and!; [by constructor|cbn; lia| |done]. cbn. by rewrite <- app_assoc. }
  destruct p as [|c p]; [by apply (Hstep Blank lines)|].
  destruct lines as [|q lines]; [right; right; exists [], [c :: p]; split_and!; [done|cbn; lia|done|right; by exists (c :: p)]|].
  destruct (decide (c :: p = q)) as [<-|Hne]; [left; exists [], (c :: p), lines; by split_and!; [|cbn; lia|..]|].
  by apply (Hstep (Mismatched (c :: p) q) lines).
Qed.

Lemma encryption_dialog lines out :
  request_wallet_encryption_password escape (mkStreams lines out) None prompt confirmation_prompt =
  let* (s1, r) := dialog ATTEMPTS (mkStreams lines out) in
  Ret (match r with
       | Ok password => (s1, Some password)
       | Err (VerifyError e) => (flushed_write s1 (lit "Could not elicit wallet encryption password: " ++ escape e ++ newline), None)
       | Err _ => (s1, None)
       end).
Proof. unfold request_wallet_encryption_password, request_password_with_retry, dialog. cbn [preamble]. by destruct (attempts _ _ _ _ _) as [[? [|[]]]| |]. Qed.
End dialog.

(** Asking for a new password. Whatever the user types, a password is obtained exactly when, after at
    most two attempts that are blank or whose confirmation differs, something that is not blank is typed
    twice; it is then what was typed. After three failed attempts there is none, and if the input ends
    before that, reading it panics. What is written depends on which attempts failed and how, never on what was
    typed, and what follows the dialog in the input is left there. *)
Theorem new_password_is_confirmed escape prompt confirmation_prompt lines out :
  let asked := request_wallet_encryption_password escape (mkStreams lines out) None prompt confirmation_prompt in
  (exists fs p rest, Forall genuine fs /\ (length fs <= 2)%nat /\ p <> [] /\ lines = flat_map typed fs ++ p :: p :: rest /\
     asked = Ret (mkStreams rest (out ++ transcripts prompt confirmation_prompt fs ATTEMPTS ++ prompt ++ confirmation_prompt), Some p)) \/
  (exists fs rest, Forall genuine fs /\ length fs = 3%nat /\ lines = flat_map typed fs ++ rest /\
     asked = Ret (mkStreams rest (out ++ transcripts prompt confirmation_prompt fs ATTEMPTS), None)) \/
  (exists fs rest, Forall genuine fs /\ (length fs <= 2)%nat /\ lines = flat_map typed fs ++ rest /\
     (rest = [] \/ exists p, p <> [] /\ rest = [p]) /\ asked = Panic).
Proof.
  intros asked. destruct (typed_cases 3 lines) as [(fs & p & rest & H1 & H2 & H3 & ->)|[(fs & rest & H1 & H2 & ->)|(fs & rest & H1 & H2 & -> & H3)]].
  - left. exists fs, p, rest. split_and!; [done|lia|done|done|]. unfold asked. rewrite encryption_dialog, dialog_behind by (done || (cbn; lia)).
    destruct fs as [|f1 [|f2 [|f3 fs]]]; try (cbn in H2; lia); cbn [length drop ATTEMPTS]; rewrite dialog_done by done; cbn [obind];
      by rewrite <- app_assoc.
  - right. left. exists fs, rest. split_and!; [done..|]. unfold asked. rewrite encryption_dialog, dialog_behind by (done || (cbn; lia)).
    by rewrite H2.
  - right. right. exists fs, rest. split_and!; [done|lia|done|done|]. unfold asked. rewrite encryption_dialog, dialog_behind by (done || (cbn; lia)).
    assert (exists a l, drop (length fs) ATTEMPTS = a :: l) as (a & l & ->).
    { destruct fs as [|f1 [|f2 [|f3 fs]]]; try (cbn in H2; lia); by do 2 eexists. }
    destruct H3 as [-> | (p & Hp & ->)]; [done|]. by destruct p.
Qed.

Example new_password_asked_again :
  request_wallet_encryption_password (fun s => s) (mkStreams (map lit [""; "a"; "b"; "secret"; "secret"; "left"]%string) []) None (lit "? ") (lit "again? ") =
  Ret (mkStreams [lit "left"] (lit "? Password cannot be blank. Try again." ++ newline ++ lit "? again? Passwords do not match. Try again." ++ newline ++
    lit "? again? "), Some (lit "secret")).
Proof. by vm_compute. Qed.
