(* ===== verification/StandardConfigurator.v ===== *)
(** * StandardConfigurator: how a Node that serves is configured

    node_configurator_standard.rs with [BootstrapperConfig] of bootstrapper.rs, [real_user_data_directory_and_chain_id] and
    [data_directory_default] of node_configurator/mod.rs, crash_point.rs, and the argument definitions of both files. clap itself is the
    record [ArgMatches] with the law [clap_accepts]; the log levels, base64 and Keccak are arguments. *)
From S2P Require Import Prelude Text SubLib Cryptde Wallet Accounts MultiConfig Configurator.
From Stdlib Require Import Ascii.

(** What the code takes from libraries besides: the log levels and their parser, and base64 *)
Class StandardLib := {
  LevelFilter : Type;
  Off : LevelFilter;
  parse_level : str -> option LevelFilter;
  base64_decode : str -> option bytes;
  keccak256 : bytes -> bytes }.

(** ** crash_point.rs *)
Inductive CrashPoint := CrashPanic | CrashError | CrashNone.

#[global] Instance CrashPoint_eq_dec : EqDecision CrashPoint.
Proof. solve_decision. Defined.

Definition PANIC : Z := 1.
Definition ERROR : Z := 2.
Definition NONE : Z := 0.

Definition CrashPoint_from (number : Z) : CrashPoint :=
  if number =? PANIC then CrashPanic else if number =? ERROR then CrashError else CrashNone.

Definition CrashPoint_into (c : CrashPoint) : Z := match c with CrashNone => NONE | CrashPanic => PANIC | CrashError => ERROR end.

Definition CrashPoint_name (c : CrashPoint) : str :=
  match c with CrashPanic => lit "Panic" | CrashError => lit "Error" | CrashNone => lit "None" end.

Definition CrashPoint_variants : list str := map CrashPoint_name [CrashPanic; CrashError; CrashNone].

Definition same_but_case (s t : str) : bool := bool_decide (map lower s = map lower t).

(** What [arg_enum!] makes of the names: upper and lower case do not matter. *)
Definition CrashPoint_from_str (s : str) : option CrashPoint :=
  snd <$> list_find (fun c => same_but_case s (CrashPoint_name c) = true) [CrashPanic; CrashError; CrashNone].

(** ** The arguments *)
Record Arg := mk_Arg {
  arg_name : str;
  possible_values : list str;
  case_insensitive : bool;
  default_value : option str;
  validator : str -> bool }.

Definition with_name (n : string) : Arg := mk_Arg (lit n) [] false None (fun _ => true).
Definition with_values (l : list string) (a : Arg) : Arg := mk_Arg (arg_name a) (map lit l) (case_insensitive a) (default_value a) (validator a).
Definition any_case (a : Arg) : Arg := mk_Arg (arg_name a) (possible_values a) true (default_value a) (validator a).
Definition with_default (d : str) (a : Arg) : Arg := mk_Arg (arg_name a) (possible_values a) (case_insensitive a) (Some d) (validator a).
Definition with_validator (v : str -> bool) (a : Arg) : Arg := mk_Arg (arg_name a) (possible_values a) (case_insensitive a) (default_value a) v.

Definition DEFAULT_UI_PORT : Z := 5333.
Definition DEFAULT_CHAIN_NAME : string := "mainnet".

(** [data_directory_default]; the directory is text that [to_str] accepts. *)
Definition data_directory_default (data_dir : option path) (chain_name : str) : path :=
  match data_dir with Some p => path_join (path_join p (lit "Prometheus")) chain_name | None => [] end.

Definition config_file_arg : Arg := with_default (lit "config.toml") (with_name "config-file").
Definition data_directory_arg (data_dir : option path) : Arg :=
  with_default (data_directory_default data_dir (lit "[mainnet | ropsten]")) (with_name "data-directory").
Definition chain_arg : Arg := with_default (lit DEFAULT_CHAIN_NAME) (with_values ["dev"; "mainnet"; "ropsten"]%string (with_name "chain")).
Definition earning_wallet_arg (v : str -> bool) : Arg := with_validator v (with_name "earning-wallet").
Definition real_user_arg : Arg := with_validator validate_real_user (with_name "real-user").
Definition wallet_password_arg : Arg := with_name "wallet-password".

(** [app]: which arguments there are, what each may be, and what it is when it is not given *)
Definition app `{!StartupLib} (data_dir : option path) : list Arg := [
  with_name "blockchain-service-url";
  any_case (with_default (lit "1") (with_values ["0"; "1"; "3"]%string (with_name "Dev_Contribution")));
  any_case (with_default (lit "1001") (with_values ["126"; "251"; "501"; "1001"; "2001"; "4001"]%string (with_name "Exit_Service_Rate")));
  any_case (with_default (lit "1000") (with_values ["125"; "250"; "500"; "1000"; "2000"; "4000"]%string (with_name "Routing_Service_Rate")));
  with_validator validate_clandestine_port (with_name "clandestine-port");
  config_file_arg;
  with_validator validate_private_key (with_name "consuming-private-key");
  any_case (with_default (CrashPoint_name CrashNone) (mk_Arg (lit "crash-point") CrashPoint_variants false None (fun _ => true)));
  data_directory_arg data_dir;
  with_validator validate_ip_address (with_name "dns-servers");
  earning_wallet_arg validate_ethereum_address;
  chain_arg;
  with_name "fake-public-key";
  with_validator validate_gas_price (with_name "gas-price");
  with_validator validate_ip_address (with_name "ip");
  any_case (with_default (lit "warn") (with_values ["off"; "error"; "warn"; "info"; "debug"; "trace"]%string (with_name "log-level")));
  any_case (with_default (lit "standard")
    (with_values ["zero-hop"; "originate-only"; "consume-only"; "standard"]%string (with_name "neighborhood-mode")));
  with_name "neighbors";
  real_user_arg;
  with_validator validate_ui_port (with_default (dec DEFAULT_UI_PORT) (with_name "ui-port"));
  wallet_password_arg ].

Definition acceptable (a : Arg) (v : str) : bool :=
  validator a v &&
  match possible_values a with
  | [] => true
  | l => existsb (fun p => if case_insensitive a then same_but_case v p else bool_decide (v = p)) l
  end.

(** What clap promises about the matches of arguments that it does not refuse *)
Record clap_accepts (args : list Arg) (m : ArgMatches) : Prop := {
  clap_default a d : a ∈ args -> default_value a = Some d -> is_Some (value_of m (arg_name a));
  clap_value a v : a ∈ args -> value_of m (arg_name a) = Some v -> acceptable a v = true;
  clap_values a v : a ∈ args -> v ∈ values_of m (arg_name a) -> acceptable a v = true }.

(** ** BootstrapperConfig *)
Inductive DiscriminatorFactory := JsonDiscriminatorFactory | TlsDiscriminatorFactory | HttpRequestDiscriminatorFactory.

#[global] Instance DiscriminatorFactory_eq_dec : EqDecision DiscriminatorFactory.
Proof. solve_decision. Defined.

Record PortConfiguration := mk_port { discriminator_factories : list DiscriminatorFactory; is_clandestine : bool }.

Record AccountantConfig := mk_accountant { payable_scan_interval : Z; payment_received_scan_interval : Z }.
Record UiGatewayConfig := mk_ui { ui_port : Z; ui_node_descriptor : str }.
Record BlockchainBridgeConfig := mk_bridge { blockchain_service_url : option str; chain_id : Z; bridge_gas_price : option Z }.

Definition DEFAULT_PAYABLE_SCAN_INTERVAL : Z := 3600.
Definition DEFAULT_PAYMENT_RECEIVED_SCAN_INTERVAL : Z := 3600.

Record BootstrapperConfig `{!StandardLib} := mk_config {
  log_level : LevelFilter;
  dns_servers : list SocketAddr;
  neighborhood_config : NeighborhoodMode.NeighborhoodMode;
  accountant_config : AccountantConfig;
  crash_point : CrashPoint;
  clandestine_discriminator_factories : list DiscriminatorFactory;
  ui_gateway_config : UiGatewayConfig;
  blockchain_bridge_config : BlockchainBridgeConfig;
  port_configurations : gmap Z PortConfiguration;
  data_directory : path;
  cryptde_null_opt : option CryptDENull.CryptDENull;
  real_user : RealUser;
  clandestine_port_opt : option Z;
  consuming_wallet : option Wallet;
  earning_wallet : Wallet }.

Section config.
Context `{!StandardLib} `{!StartupLib} `{!Sqlite} `{!ConfigLib} `{!EthSign}.

(** [DEFAULT_EARNING_WALLET]: the first use panics when it cannot be read. *)
Definition DEFAULT_EARNING_WALLET : outcome Wallet := expect (wallet_from_str (lit "0x47fB8671Db83008d382C2e6EA67fA377378c0CeA")).

Definition BootstrapperConfig_new : outcome BootstrapperConfig :=
  let* default_wallet := DEFAULT_EARNING_WALLET in
  Ret (mk_config _ Off [] NeighborhoodMode.ZeroHop (mk_accountant DEFAULT_PAYABLE_SCAN_INTERVAL DEFAULT_PAYMENT_RECEIVED_SCAN_INTERVAL)
    CrashNone [] (mk_ui DEFAULT_UI_PORT []) (mk_bridge None 3 None) ∅ [] None RealUser_null None None default_wallet).

Definition merge_unprivileged (self unprivileged : BootstrapperConfig) : BootstrapperConfig :=
  let b := blockchain_bridge_config self in
  mk_config _ (log_level self) (dns_servers self) (neighborhood_config self) (accountant_config self) (crash_point self)
    (clandestine_discriminator_factories self) (ui_gateway_config self)
    (mk_bridge (blockchain_service_url b) (chain_id b) (bridge_gas_price (blockchain_bridge_config unprivileged)))
    (port_configurations self) (data_directory self) (cryptde_null_opt self) (real_user self)
    (clandestine_port_opt unprivileged) (consuming_wallet unprivileged) (earning_wallet unprivileged).

(** ** The privileged part *)
Definition establish_port_configurations (config : BootstrapperConfig) : BootstrapperConfig :=
  let ports :=
    <[TLS_PORT := mk_port [TlsDiscriminatorFactory; HttpRequestDiscriminatorFactory] false]>
      (<[HTTP_PORT := mk_port [HttpRequestDiscriminatorFactory] false]> (port_configurations config)) in
  mk_config _ (log_level config) (dns_servers config) (neighborhood_config config) (accountant_config config) (crash_point config)
    (clandestine_discriminator_factories config) (ui_gateway_config config) (blockchain_bridge_config config) ports
    (data_directory config) (cryptde_null_opt config) (real_user config) (clandestine_port_opt config) (consuming_wallet config)
    (earning_wallet config).

(** [str::replace]: every occurrence, from the left; the empty text occurs before each character and at the end. *)
Fixpoint replace_from (from to : str) (skip : nat) (s : str) : str :=
  match s with
  | [] => []
  | c :: s' =>
      match skip with
      | S skip => replace_from from to skip s'
      | O => if decide (from `prefix_of` s) then to ++ replace_from from to (length from - 1) s' else c :: replace_from from to 0 s'
      end
  end.

Definition replace (from to s : str) : str :=
  match from with
  | [] => flat_map (fun c => if continuation_byte c then [c] else to ++ [c]) s ++ to
  | _ => replace_from from to 0 s
  end.

(** [real_user_data_directory_and_chain_id] *)
Definition real_user_data_directory_and_chain_id (s : surroundings) (m : ArgMatches) : outcome (RealUser * path * Z) :=
  let* ru := real_user_m m in
  let* user := match ru with None => populate s RealUser_null | Some u => populate s u end in
  let* chain_name := expect (value_m m Some "chain") in
  let* directory :=
    match value_user_specified_m m Some "data-directory" with
    | (Some d, true) => Ret d
    | (Some _, false) =>
        let* right_home_dir := expect (home_dir user) in
        let* wrong_home_dir := expect (own_home_dir s) in
        let* wrong_local_data_dir := expect (own_data_dir s) in
        let right_local_data_dir := replace wrong_home_dir right_home_dir wrong_local_data_dir in
        Ret (path_join (path_join right_local_data_dir (lit "Prometheus")) chain_name)
    | _ => Panic
    end in
  Ret (user, directory, chain_id_from_name chain_name).

Definition make_neighborhood_config (m : ArgMatches) : outcome NeighborhoodMode.NeighborhoodMode :=
  let neighbor_configs := values_m m Some "neighbors" in
  match value_m m Some "neighborhood-mode" with
  | Some s =>
      if bool_decide (s = lit "standard") then
        let* ip := expect (value_m m parse_ip_addr "ip") in
        Ret (NeighborhoodMode.Standard (NodeAddr.new ip []) neighbor_configs DEFAULT_RATE_PACK)
      else if bool_decide (s = lit "originate-only") then
        if bool_decide (neighbor_configs = []) then Panic else Ret (NeighborhoodMode.OriginateOnly neighbor_configs DEFAULT_RATE_PACK)
      else if bool_decide (s = lit "consume-only") then
        if bool_decide (neighbor_configs = []) then Panic else Ret (NeighborhoodMode.ConsumeOnly neighbor_configs)
      else if bool_decide (s = lit "zero-hop") then
        if negb (bool_decide (neighbor_configs = [])) then Panic
        else if bool_decide (is_Some (value_m m parse_ip_addr "ip")) then Panic
        else Ret NeighborhoodMode.ZeroHop
      else Panic
  | None => Panic
  end.

(** [random_key] is what [CryptDENull::new] draws. *)
Definition fake_cryptde (random_key : bytes) (chain : Z) (m : ArgMatches) (before : option CryptDENull.CryptDENull) :
    outcome (option CryptDENull.CryptDENull) :=
  match value_m m Some "fake-public-key" with
  | None => Ret before
  | Some public_key_str =>
      match base64_decode public_key_str with
      | Some key => Ret (Some (CryptDENull.from keccak256 random_key (mkPublicKey key) (contract_address chain)))
      | None => Panic
      end
  end.

Definition privileged_parse_args (s : surroundings) (random_key : bytes) (m : ArgMatches) (config : BootstrapperConfig) : outcome BootstrapperConfig :=
  let* (user, directory, chain) := real_user_data_directory_and_chain_id s m in
  let dns := map (fun ip => mkSocketAddr ip 53) (values_m m parse_ip_addr "dns-servers") in
  let* level := expect (value_m m parse_level "log-level") in
  let* mode := make_neighborhood_config m in
  let* port := expect (value_m m (parse_uint 16) "ui-port") in
  let* point := expect (value_m m CrashPoint_from_str "crash-point") in
  let* cryptde_null := fake_cryptde random_key chain m (cryptde_null_opt config) in
  Ret (mk_config _ level dns mode (accountant_config config) point (clandestine_discriminator_factories config)
    (mk_ui port (ui_node_descriptor (ui_gateway_config config)))
    (mk_bridge (value_m m Some "blockchain-service-url") chain (bridge_gas_price (blockchain_bridge_config config)))
    (port_configurations config) directory cryptde_null user (clandestine_port_opt config) (consuming_wallet config)
    (earning_wallet config)).

(** [configure] of [NodeConfiguratorStandardPrivileged], given what clap makes of the arguments *)
Definition privileged_configure (s : surroundings) (random_key : bytes) (m : ArgMatches) : outcome BootstrapperConfig :=
  let* config := BootstrapperConfig_new in
  privileged_parse_args s random_key m (establish_port_configurations config).

(** ** The unprivileged part *)
Definition get_earning_wallet_from_address (m : ArgMatches) (db : Db) : outcome (option Wallet) :=
  let from_command_line := value_m m Some "earning-wallet" in
  let* from_database := earning_wallet_from_address db in
  match from_command_line, from_database with
  | None, None => Ret None
  | Some address, None => let* w := expect (wallet_from_str address) in Ret (Some w)
  | None, Some wallet => Ret (Some wallet)
  | Some address, Some wallet =>
      let* text := wallet_to_string wallet in
      if bool_decide (to_lowercase text = to_lowercase address) then Ret (Some wallet) else Panic
  end.

Definition get_consuming_wallet_opt_from_derivation_path (db : Db) (wallet_password : str) : outcome (option Wallet) :=
  let* path := consuming_wallet_derivation_path db in
  match path with
  | None => Ret None
  | Some derivation_path =>
      let* seed := mnemonic_seed db wallet_password in
      match seed with
      | Err Bip39NotPresent => Ret None
      | Ok mnemonic_seed =>
          let* keypair := expect (keypair_from_raw mnemonic_seed derivation_path) in
          Ret (Some (mkWallet (KeyPair keypair)))
      | Err _ => Panic
      end
  end.

(** [Bip32ECKeyPair::from_raw_secret] *)
Definition from_raw_secret (secret : bytes) : option Bip32ECKeyPair := keypair_from_secret <$> secret_from_raw secret.

Definition get_consuming_wallet_from_private_key (m : ArgMatches) (db : Db) : outcome (option Wallet) :=
  match value_m m Some "consuming-private-key" with
  | None => Ret None
  | Some text =>
      let* raw_secret := expect (from_hex text) in
      let* keypair := expect (from_raw_secret raw_secret) in
      let* established := consuming_wallet_public_key db in
      let* _ := match established with
                | None => Ret tt
                | Some hex => if bool_decide (to_hex (eth_public (kp_secret keypair)) = hex) then Ret tt else Panic
                end in
      Ret (Some (mkWallet (KeyPair keypair)))
  end.

Definition get_mnemonic_seed_and_password (escape : str -> str) (m : ArgMatches) (s : StdStreams) (db : Db) :
    outcome (StdStreams * option (bytes * str)) :=
  let* ems := encrypted_mnemonic_seed db in
  match ems with
  | None => Ret (s, None)
  | Some ems =>
      let* (s1, password) :=
        match value_user_specified_m m Some "wallet-password" with
        | (Some wp, _) => Ret (s, Some wp)
        | (None, false) => Ret (s, None)
        | (None, true) =>
            let* (s1, wp) := request_wallet_decryption_password escape s (Some (lit "Decrypt wallet from database")) (lit "Enter password: ") ems in
            let* wp := expect wp in Ret (s1, Some wp)
        end in
      match password with
      | None => Ret (s1, None)
      | Some wallet_password =>
          let* plain_data := expect_ok (decrypt_bytes ems wallet_password) in
          Ret (s1, Some (plain_data, wallet_password))
      end
  end.

(** The consuming and the earning wallet *)
Definition get_wallets (escape : str -> str) (s : StdStreams) (m : ArgMatches) (db : Db) : outcome (StdStreams * option Wallet * Wallet) :=
  let* earning_wallet_opt := get_earning_wallet_from_address m db in
  let* consuming_wallet_opt := get_consuming_wallet_from_private_key m db in
  let* ems := encrypted_mnemonic_seed db in
  match earning_wallet_opt, consuming_wallet_opt, ems with
  | Some _, Some _, Some _ => Panic
  | _, _, _ =>
      let* (s1, consuming) :=
        match earning_wallet_opt, consuming_wallet_opt with
        | Some _, Some _ => Ret (s, consuming_wallet_opt)
        | _, _ =>
            let* (s1, r) := get_mnemonic_seed_and_password escape m s db in
            match r with
            | None => Ret (s1, consuming_wallet_opt)
            | Some (_, wallet_password) =>
                match consuming_wallet_opt with
                | None => let* w := get_consuming_wallet_opt_from_derivation_path db wallet_password in Ret (s1, w)
                | Some _ =>
                    let* path := consuming_wallet_derivation_path db in
                    match path with Some _ => Panic | None => Ret (s1, consuming_wallet_opt) end
                end
            end
        end in
      let* earning := match earning_wallet_opt with Some w => Ret w | None => DEFAULT_EARNING_WALLET end in
      Ret (s1, consuming, earning)
  end.

Definition unprivileged_parse_args (escape : str -> str) (m : ArgMatches) (config : BootstrapperConfig) (s : StdStreams) (db : Db) :
    outcome (StdStreams * BootstrapperConfig) :=
  let clandestine_port := value_m m (parse_uint 16) "clandestine-port" in
  let gas_price := value_m m (parse_uint 64) "gas-price" in
  let* (s1, consuming, earning) := get_wallets escape s m db in
  let b := blockchain_bridge_config config in
  Ret (s1, mk_config _ (log_level config) (dns_servers config) (neighborhood_config config) (accountant_config config) (crash_point config)
    (clandestine_discriminator_factories config) (ui_gateway_config config) (mk_bridge (blockchain_service_url b) (chain_id b) gas_price)
    (port_configurations config) (data_directory config) (cryptde_null_opt config) (real_user config)
    clandestine_port consuming earning).

(** [try_into] of a wallet *)
Definition wallet_keypair (w : Wallet) : option Bip32ECKeyPair := match kind w with KeyPair k => Some k | _ => None end.

Definition configure_database (config : BootstrapperConfig) (db : Db) : outcome Db :=
  let* db1 := match clandestine_port_opt config with Some port => set_clandestine_port db port | None => Ret db end in
  let* established := earning_wallet_address db1 in
  let* db2 := match established with
              | None => let* text := wallet_to_string (earning_wallet config) in set_earning_wallet_address db1 text
              | Some _ => Ret db1
              end in
  let* db3 := match bridge_gas_price (blockchain_bridge_config config) with Some gas_price => set_gas_price db2 gas_price | None => Ret db2 end in
  match consuming_wallet config with
  | None => Ret db3
  | Some w =>
      let* path := consuming_wallet_derivation_path db3 in
      let* key := match path with None => consuming_wallet_public_key db3 | Some _ => Ret None end in
      match path, key with
      | None, None => let* keypair := expect (wallet_keypair w) in set_consuming_wallet_public_key db3 (eth_public (kp_secret keypair))
      | _, _ => Ret db3
      end
  end.

(** [configure] of [NodeConfiguratorStandardUnprivileged], on the database that it opened *)
Definition unprivileged_configure (escape : str -> str) (m : ArgMatches) (s : StdStreams) (db : Db) :
    outcome (StdStreams * BootstrapperConfig * Db) :=
  let* new := BootstrapperConfig_new in
  let* (s1, config) := unprivileged_parse_args escape m new s db in
  let* db' := configure_database config db in
  Ret (s1, config, db').
End config.

(** ** A second start with the same arguments *)

(** An address that can be read has a text from which it is read again, and which differs from the first in case only. *)
Class WalletText `{!ConfigLib} : Prop := {
  wallet_text s w : wallet_from_str s = Some w ->
    exists a, w = mkWallet (Address a) /\ wallet_from_str (lit "0x" ++ to_hex a) = Some w /\
      to_lowercase (lit "0x" ++ to_hex a) = to_lowercase s }.

Section restart.
Context `{!StandardLib} `{!StartupLib} `{!Sqlite} `{!ConfigLib} `{!EthSign} `{!WalletText}.

Definition SEED : str := lit "seed".

(** What is set *)
Definition has (db : Db) (n v : str) : Prop := config db !! n = Some (Some v).

Definition same_but (ns : list str) (db db' : Db) : Prop := forall n, n ∉ ns -> config db' !! n = config db !! n.

#[local] Instance Ret_inj {A} : Inj (=) (=) (@Ret A).
Proof. by intros x y [=]. Qed.

Lemma set_again db n v : has db n v -> set_string db n v = Ok db.
Proof.
  unfold has, set_string, config_try_update. intros E. rewrite E. unfold set_config. rewrite insert_id by done. by destruct db.
Qed.

Lemma set_has db n v db' : set_string db n v = Ok db' -> has db' n v /\ same_but [n] db db'.
Proof.
  intros [_ ->]%set_string_ok. unfold has, same_but. cbn [config set_config]. split; [by rewrite lookup_insert_eq|].
  intros m Hm. rewrite lookup_insert_ne; [done|]. intros ->. apply Hm. by left.
Qed.

Lemma optional_string_some db n t : optional_string db n = Ret (Some t) <-> has db n t.
Proof. unfold optional_string, get_string, try_get, has. destruct (config db !! n) as [[v|]|]; split; intros; simplify_eq; done. Qed.

Lemma optional_string_none db n : optional_string db n = Ret None <-> config db !! n = Some None.
Proof. unfold optional_string, get_string, try_get. destruct (config db !! n) as [[v|]|]; split; intros; simplify_eq; done. Qed.

Lemma optional_string_same ns db db' n : same_but ns db db' -> n ∉ ns -> optional_string db' n = optional_string db n.
Proof. intros Hs Hn. unfold optional_string, get_string, try_get. by rewrite Hs. Qed.

Lemma consuming_same ns db db' : same_but ns db db' -> KEY ∉ ns -> PATH ∉ ns ->
  consuming_wallet_public_key db' = consuming_wallet_public_key db /\
  consuming_wallet_derivation_path db' = consuming_wallet_derivation_path db.
Proof. intros Hs Hk Hp. unfold consuming_wallet_public_key, consuming_wallet_derivation_path, get_string, try_get. by rewrite !Hs. Qed.

Lemma same_but_trans ns ns' db db' db'' : same_but ns db db' -> same_but ns' db' db'' -> same_but (ns ++ ns') db db''.
Proof. intros Hs Hs' n Hn. rewrite not_elem_of_app in Hn. rewrite Hs', Hs; naive_solver. Qed.

Definition agree (rs : list str) (d db : Db) : Prop := forall n, n ∈ rs -> config d !! n = config db !! n.

Lemma agree_optional rs d db n : agree rs d db -> n ∈ rs -> optional_string d n = optional_string db n.
Proof. intros Hs Hn. unfold optional_string, get_string, try_get. by rewrite Hs. Qed.

Lemma agree_has rs d db n v : agree rs d db -> n ∈ rs -> has db n v -> has d n v.
Proof. unfold has. intros Hs Hn <-. by apply Hs. Qed.

(** An operation that writes [ns] and reads [rs], and that does nothing once it has been done *)
Definition settles (ns rs : list str) (f : Db -> outcome Db) : Prop :=
  forall db db', f db = Ret db' -> same_but ns db db' /\ forall d, agree rs d db' -> f d = Ret d.

Lemma settles_seq ns rs ns' rs' f g : settles ns rs f -> settles ns' rs' g -> ns' ## rs ->
  settles (ns ++ ns') (rs ++ rs') (fun db => let* db1 := f db in g db1).
Proof.
  intros Hf Hg Hd db db' (db1 & Ef & Eg)%obind_ret_inv. destruct (Hf _ _ Ef) as [Sf Af], (Hg _ _ Eg) as [Sg Ag].
  split; [by eapply same_but_trans|]. intros d Ad. rewrite Af; [apply Ag|].
  - intros n Hn. apply Ad. apply elem_of_app. by right.
  - intros n Hn. rewrite Ad by (apply elem_of_app; by left). apply Sg. set_solver.
Qed.

Lemma settles_set n v : settles [n] [n] (fun db => or_panic (set_string db n v)).
Proof.
  intros db db' E%expect_ok_ret%set_has. destruct E as [Hh Hs]. split; [done|]. intros d Ad.
  rewrite set_again; [done|]. eapply agree_has; [done| |done]. by left.
Qed.

Lemma settles_nothing ns rs : settles ns rs (fun db => Ret db).
Proof. intros db db' [= <-]. by split. Qed.

Definition establish_port (o : option Z) (db : Db) : outcome Db := match o with Some port => set_clandestine_port db port | None => Ret db end.

Definition establish_gas_price (o : option Z) (db : Db) : outcome Db := match o with Some gas_price => set_gas_price db gas_price | None => Ret db end.

Definition establish_earning (w : Wallet) (db : Db) : outcome Db :=
  let* established := earning_wallet_address db in
  match established with
  | None => let* text := wallet_to_string w in set_earning_wallet_address db text
  | Some _ => Ret db
  end.

Definition establish_consuming (o : option Wallet) (db : Db) : outcome Db :=
  match o with
  | None => Ret db
  | Some w =>
      let* path := consuming_wallet_derivation_path db in
      let* key := match path with None => consuming_wallet_public_key db | Some _ => Ret None end in
      match path, key with
      | None, None => let* keypair := expect (wallet_keypair w) in set_consuming_wallet_public_key db (eth_public (kp_secret keypair))
      | _, _ => Ret db
      end
  end.

Lemma configure_database_parts config db : configure_database config db =
  let* db1 := establish_port (clandestine_port_opt config) db in
  let* db2 := establish_earning (earning_wallet config) db1 in
  let* db3 := establish_gas_price (bridge_gas_price (blockchain_bridge_config config)) db2 in
  establish_consuming (consuming_wallet config) db3.
Proof.
  unfold configure_database, establish_earning. destruct (establish_port (clandestine_port_opt config) db) as [db1| |] eqn:E;
    unfold establish_port in E; rewrite E; cbn [obind]; [|done..].
  by destruct (earning_wallet_address db1).
Qed.

Lemma establish_port_settles o : settles [lit "clandestine_port"] [lit "clandestine_port"] (establish_port o).
Proof.
  destruct o as [p|]; [|apply settles_nothing]. intros db db'. cbn [establish_port]. unfold set_clandestine_port. case_match; [done|].
  apply (settles_set (lit "clandestine_port") (dec p)).
Qed.

Lemma establish_gas_price_settles o : settles [lit "gas_price"] [lit "gas_price"] (establish_gas_price o).
Proof. destruct o as [p|]; [|apply settles_nothing]. apply (settles_set (lit "gas_price") (dec p)). Qed.

Lemma establish_earning_done w db db' : establish_earning w db = Ret db' ->
  (db' = db /\ exists t, has db EARNING t) \/
  (config db !! EARNING = Some None /\ exists t, wallet_to_string w = Ret t /\ has db' EARNING t /\ same_but [EARNING] db db').
Proof.
  unfold establish_earning, earning_wallet_address. intros (established & E & Hdone)%obind_ret_inv. destruct established as [t|].
  - left. injection Hdone as <-. split; [done|]. exists t. by apply optional_string_some.
  - right. apply optional_string_none in E. split; [done|]. apply obind_ret_inv in Hdone as (t & Et & Hdone). exists t. split; [done|].
    unfold set_earning_wallet_address in Hdone. apply obind_ret_inv in Hdone as (w' & _ & Hdone).
    unfold get_string, try_get in Hdone. rewrite E in Hdone. by apply expect_ok_ret, set_has in Hdone.
Qed.

Lemma establish_earning_settles w : settles [EARNING] [EARNING] (establish_earning w).
Proof.
  intros db db' E%establish_earning_done.
  assert (exists t, has db' EARNING t) as [t Ht] by (destruct E as [[-> ?]|(_ & t & _ & ? & _)]; eauto).
  split; [by destruct E as [[-> _]|(_ & _ & _ & _ & ?)]|]. intros d Ad. unfold establish_earning, earning_wallet_address.
  rewrite (agree_optional _ _ _ _ Ad) by by left. by rewrite (proj2 (optional_string_some db' EARNING t) Ht).
Qed.

Lemma agree_consuming rs d db : agree rs d db -> KEY ∈ rs -> PATH ∈ rs ->
  consuming_wallet_public_key d = consuming_wallet_public_key db /\
  consuming_wallet_derivation_path d = consuming_wallet_derivation_path db.
Proof. intros Hs Hk Hp. unfold consuming_wallet_public_key, consuming_wallet_derivation_path, get_string, try_get. by rewrite !Hs. Qed.

Lemma consuming_none db : consuming_wallet_derivation_path db = Ret None -> consuming_wallet_public_key db = Ret None ->
  config db !! KEY = Some None /\ config db !! PATH = Some None.
Proof.
  unfold consuming_wallet_public_key, consuming_wallet_derivation_path, get_string, try_get.
  by destruct (config db !! KEY) as [[k|]|], (config db !! PATH) as [[q|]|].
Qed.

Lemma consuming_key db k : has db KEY k -> config db !! PATH = Some None ->
  consuming_wallet_public_key db = Ret (Some k) /\ consuming_wallet_derivation_path db = Ret None.
Proof. unfold has, consuming_wallet_public_key, consuming_wallet_derivation_path, get_string, try_get. intros E E'. by rewrite E, E'. Qed.

Lemma establish_consuming_done o db db' : establish_consuming o db = Ret db' ->
  db' = db \/
  exists w k, o = Some w /\ wallet_keypair w = Some k /\ config db !! KEY = Some None /\ config db !! PATH = Some None /\
    has db' KEY (to_hex (eth_public (kp_secret k))) /\ same_but [KEY] db db'.
Proof.
  destruct o as [w|]; cbn [establish_consuming]; [|intros [= <-]; by left].
  intros (p & Ep & (key & Ek & Hdone)%obind_ret_inv)%obind_ret_inv. destruct p as [p|]; [injection Hdone as <-; by left|].
  destruct key as [key|]; [injection Hdone as <-; by left|]. right. apply obind_ret_inv in Hdone as (k & Hk%expect_ret & Hdone).
  destruct (consuming_none _ Ep Ek) as [E1 E2]. exists w, k. split_and!; try done;
    unfold set_consuming_wallet_public_key, get_string, try_get in Hdone; rewrite E1, E2 in Hdone; apply expect_ok_ret, set_has in Hdone as [Hh Hsame]; done.
Qed.

Lemma establish_consuming_settles o : settles [KEY] [KEY; PATH] (establish_consuming o).
Proof.
  intros db db' E. destruct (establish_consuming_done _ _ _ E) as [-> | (w & k & -> & Hk & E1 & E2 & Hh & Hs)].
  - split; [done|]. intros d Ad. destruct o as [w|]; [|done]. cbn [establish_consuming] in *.
    destruct (agree_consuming _ _ _ Ad) as [-> ->]; [set_solver..|].
    apply obind_ret_inv in E as (p & Ep & (key & Ek & Hdone)%obind_ret_inv). rewrite Ep. cbn [obind]. rewrite Ek. cbn [obind].
    destruct p; [done|]. destruct key; [done|]. exfalso. apply obind_ret_inv in Hdone as (k & _ & Hdone).
    destruct (consuming_none _ Ep Ek) as [E1 E2]. unfold set_consuming_wallet_public_key, get_string, try_get in Hdone.
    rewrite E1, E2 in Hdone. apply expect_ok_ret, set_has in Hdone as [Hh _]. unfold has in Hh. by rewrite E1 in Hh.
  - split; [done|]. intros d Ad. cbn [establish_consuming].
    assert (has d KEY (to_hex (eth_public (kp_secret k)))) as Hd by (eapply agree_has; [done| |done]; by left).
    assert (config d !! PATH = Some None) as Hp by (rewrite Ad, Hs; [done|set_solver..]).
    destruct (consuming_key _ _ Hd Hp) as [Ek ->]. cbn [obind]. by rewrite Ek.
Qed.

(** Names that differ *)
Lemma apart (ns l : list str) : bool_decide (Forall (fun n => n ∉ l) ns) = true -> ns ## l.
Proof. intros Hn%bool_decide_eq_true m Hm. by apply (proj1 (Forall_forall _ _) Hn m). Qed.

Lemma elsewhere (n : str) (l : list str) : bool_decide (n ∉ l) = true -> n ∉ l.
Proof. apply bool_decide_eq_true. Qed.

(** What a start writes into the database it does not write again. *)
Lemma configure_database_settles config db db' : configure_database config db = Ret db' ->
  same_but [lit "clandestine_port"; EARNING; lit "gas_price"; KEY] db db' /\ configure_database config db' = Ret db'.
Proof.
  rewrite !configure_database_parts. intros E.
  assert (settles ([lit "clandestine_port"] ++ [EARNING] ++ [lit "gas_price"] ++ [KEY])
    ([lit "clandestine_port"] ++ [EARNING] ++ [lit "gas_price"] ++ [KEY; PATH]) (fun db =>
      let* db1 := establish_port (clandestine_port_opt config) db in
      let* db2 := establish_earning (earning_wallet config) db1 in
      let* db3 := establish_gas_price (bridge_gas_price (blockchain_bridge_config config)) db2 in
      establish_consuming (consuming_wallet config) db3)) as S.
  { repeat apply settles_seq; [apply establish_port_settles|apply establish_earning_settles|apply establish_gas_price_settles|
      apply establish_consuming_settles|by apply apart..]. }
  destruct (S _ _ E) as [Sb A]. split; [exact Sb|]. by apply A.
Qed.

(** What the first start leaves of the wallets *)
Lemma configure_database_outcome config db db' : configure_database config db = Ret db' ->
  ((Accounts.config db' !! EARNING = Accounts.config db !! EARNING /\ exists t, has db EARNING t) \/
   (Accounts.config db !! EARNING = Some None /\ exists t, wallet_to_string (earning_wallet config) = Ret t /\ has db' EARNING t)) /\
  (Accounts.config db' !! KEY = Accounts.config db !! KEY \/
   exists w k, consuming_wallet config = Some w /\ wallet_keypair w = Some k /\ Accounts.config db !! PATH = Some None /\
     Accounts.config db !! KEY = Some None /\ has db' KEY (to_hex (eth_public (kp_secret k)))).
Proof.
  rewrite configure_database_parts. intros (db1 & E1 & (db2 & E2 & (db3 & E3 & E4)%obind_ret_inv)%obind_ret_inv)%obind_ret_inv.
  destruct (establish_port_settles _ _ _ E1) as [S1 _], (establish_gas_price_settles _ _ _ E3) as [S3 _],
    (establish_earning_settles _ _ _ E2) as [S2 _], (establish_consuming_settles _ _ _ E4) as [S4 _].
  assert (forall n, n ∉ [lit "clandestine_port"; EARNING; lit "gas_price"] -> Accounts.config db3 !! n = Accounts.config db !! n) as Sn.
  { intros n Hn. rewrite S3, S2, S1; [done|set_solver..]. }
  split.
  - assert (Accounts.config db' !! EARNING = Accounts.config db2 !! EARNING) as Ed by (rewrite S4, S3; [done|by apply elsewhere..]).
    destruct (establish_earning_done _ _ _ E2) as [[-> [t Ht]]|(Hn & t & Et & Ht & _)].
    + left. unfold has in *. rewrite S1 in Ht, Ed by by apply elsewhere. split; [done|by exists t].
    + right. rewrite S1 in Hn by by apply elsewhere. split; [done|]. exists t. unfold has in *. by rewrite Ed.
  - destruct (establish_consuming_done _ _ _ E4) as [-> | (w & k & Ew & Hk & Ek & Ep & Hh & _)]; [left; apply Sn; by apply elsewhere|right].
    rewrite Sn in Ek, Ep by by apply elsewhere. exists w, k. by split_and!.
Qed.

(** The earning wallet of the first start is that of the second. *)
Lemma earning_again m db db' e w :
  get_earning_wallet_from_address m db = Ret e -> match e with Some w => Ret w | None => DEFAULT_EARNING_WALLET end = Ret w ->
  ((config db' !! EARNING = config db !! EARNING /\ exists t, has db EARNING t) \/
   (config db !! EARNING = Some None /\ exists t, wallet_to_string w = Ret t /\ has db' EARNING t)) ->
  get_earning_wallet_from_address m db' = Ret (Some w).
Proof.
  unfold get_earning_wallet_from_address, earning_wallet_from_address, earning_wallet_address.
  intros E Ew [[Ed [t Ht]]|(En & t & Et & Ht)]; apply obind_ret_inv in E as (o & Eo & E).
  - rewrite (agree_optional [EARNING] db' db EARNING) by (by intros ? ->%list_elem_of_singleton || by left). rewrite Eo. cbn [obind].
    rewrite (proj2 (optional_string_some _ _ _) Ht) in Eo. cbn [obind] in Eo. apply obind_ret_inv in Eo as (w' & _ & [= <-]).
    destruct (value_m m Some "earning-wallet") as [a|]; [|by simplify_eq].
    apply obind_ret_inv in E as (text & Etext & E). rewrite Etext. cbn [obind]. case_bool_decide; [|done]. by simplify_eq.
  - rewrite (proj2 (optional_string_none _ _) En) in Eo. injection Eo as <-. rewrite (proj2 (optional_string_some _ _ _) Ht). cbn [obind].
    destruct (value_m m Some "earning-wallet") as [a|].
    + apply obind_ret_inv in E as (w' & Ew'%expect_ret & [= <-]). injection Ew as ->.
      destruct (wallet_text _ _ Ew') as (x & -> & Er & El). unfold wallet_to_string in Et. cbn [obind address kind] in Et. apply (inj Ret) in Et as <-. rewrite Er. cbn [expect obind]. unfold wallet_to_string. cbn [obind address kind]. by rewrite bool_decide_eq_true_2.
    + injection E as <-. apply expect_ret in Ew. destruct (wallet_text _ _ Ew) as (x & -> & Er & El). unfold wallet_to_string in Et. cbn [obind address kind] in Et. apply (inj Ret) in Et as <-. by rewrite Er.
Qed.

(** So is the consuming wallet of a private key. *)
Lemma private_key_again m db db' c :
  get_consuming_wallet_from_private_key m db = Ret c ->
  consuming_wallet_public_key db' = consuming_wallet_public_key db \/
    (exists w k, c = Some w /\ wallet_keypair w = Some k /\ consuming_wallet_public_key db' = Ret (Some (to_hex (eth_public (kp_secret k))))) ->
  get_consuming_wallet_from_private_key m db' = Ret c.
Proof.
  unfold get_consuming_wallet_from_private_key. destruct (value_m m Some "consuming-private-key"); [|done].
  intros E [-> | (w & k & -> & Hk & Ek)]; [done|].
  apply obind_ret_inv in E as (raw & Eraw & (kp & Ekp & (o & _ & (u & _ & E)%obind_ret_inv)%obind_ret_inv)%obind_ret_inv).
  injection E as <-. cbn in Hk. injection Hk as ->. rewrite Eraw. cbn [obind]. rewrite Ekp, Ek. cbn [obind]. by rewrite bool_decide_eq_true_2.
Qed.

(** A database in which a mnemonic seed comes with the address of an earning wallet *)
Definition wallets_made (db : Db) : Prop := forall ems, has db SEED ems -> exists t, has db EARNING t.

Lemma seed_again escape m s db db' : config db' !! SEED = config db !! SEED ->
  encrypted_mnemonic_seed db' = encrypted_mnemonic_seed db /\
  get_mnemonic_seed_and_password escape m s db' = get_mnemonic_seed_and_password escape m s db /\
  (forall password, mnemonic_seed db' password = mnemonic_seed db password).
Proof.
  intros E. assert (encrypted_mnemonic_seed db' = encrypted_mnemonic_seed db) as Es.
  { unfold encrypted_mnemonic_seed. apply (agree_optional [SEED]); [by intros n ->%list_elem_of_singleton|by left]. }
  unfold get_mnemonic_seed_and_password, mnemonic_seed. by rewrite Es.
Qed.

Lemma earning_present m db t e : has db EARNING t -> get_earning_wallet_from_address m db = Ret e -> is_Some e.
Proof.
  unfold get_earning_wallet_from_address, earning_wallet_from_address, earning_wallet_address. intros Ht.
  rewrite (proj2 (optional_string_some _ _ _) Ht). cbn [obind]. intros (o & Eo & E)%obind_ret_inv.
  apply obind_ret_inv in Eo as (w & _ & [= <-]). destruct (value_m m Some "earning-wallet"); [|by injection E as <-].
  apply obind_ret_inv in E as (text & _ & E). case_bool_decide; [by injection E as <-|done].
Qed.

Definition consuming_part (escape : str -> str) (m : ArgMatches) (s : StdStreams) (db : Db) (e c : option Wallet) :
    outcome (StdStreams * option Wallet) :=
  match e, c with
  | Some _, Some _ => Ret (s, c)
  | _, _ =>
      let* (s1, r) := get_mnemonic_seed_and_password escape m s db in
      match r with
      | None => Ret (s1, c)
      | Some (_, wallet_password) =>
          match c with
          | None => let* w := get_consuming_wallet_opt_from_derivation_path db wallet_password in Ret (s1, w)
          | Some _ => let* path := consuming_wallet_derivation_path db in match path with Some _ => Panic | None => Ret (s1, c) end
          end
      end
  end.

Lemma get_wallets_parts escape m s db s1 consuming earning : get_wallets escape s m db = Ret (s1, consuming, earning) <->
  exists e c ems, get_earning_wallet_from_address m db = Ret e /\ get_consuming_wallet_from_private_key m db = Ret c /\
    encrypted_mnemonic_seed db = Ret ems /\ (is_Some e -> is_Some c -> ems = None) /\
    consuming_part escape m s db e c = Ret (s1, consuming) /\ match e with Some w => Ret w | None => DEFAULT_EARNING_WALLET end = Ret earning.
Proof.
  unfold get_wallets. split.
  - intros (e & Ee & (c & Ec & (ems & Es & E)%obind_ret_inv)%obind_ret_inv)%obind_ret_inv. exists e, c, ems.
    assert ((is_Some e -> is_Some c -> ems = None) /\ (let* (s1, consuming) := consuming_part escape m s db e c in
      let* earning := match e with Some w => Ret w | None => DEFAULT_EARNING_WALLET end in Ret (s1, consuming, earning)) =
      Ret (s1, consuming, earning)) as [Hn E'].
    { destruct e, c, ems; (split; [|exact E || done]); try done; by intros [? ?] [? ?] || by intros [? ?]. }
    apply obind_ret_inv in E' as ([s2 c2] & Ep & (w & Ew & [= -> -> ->])%obind_ret_inv). by split_and!.
  - intros (e & c & ems & -> & -> & -> & Hn & Ep & Ew). cbn [obind].
    transitivity (let* (s1, consuming) := consuming_part escape m s db e c in
      let* earning := match e with Some w => Ret w | None => DEFAULT_EARNING_WALLET end in Ret (s1, consuming, earning)).
    { destruct e, c, ems; try done. by specialize (Hn (mk_is_Some _ _ eq_refl) (mk_is_Some _ _ eq_refl)). }
    rewrite Ep. cbn [obind]. by rewrite Ew.
Qed.

Lemma consuming_part_given escape m s db e w s1 c :
  consuming_part escape m s db e (Some w) = Ret (s1, c) -> c = Some w.
Proof.
  destruct e; cbn [consuming_part]; [by intros [= <- <-]|]. intros ([s2 r] & _ & E)%obind_ret_inv. destruct r as [[d p]|]; [|by injection E].
  apply obind_ret_inv in E as (q & _ & E). destruct q; [done|by injection E].
Qed.

Lemma consuming_part_derived escape m s db e s1 w :
  consuming_part escape m s db e None = Ret (s1, Some w) -> config db !! PATH <> Some None.
Proof.
  assert (consuming_part escape m s db e None = let* (s1, r) := get_mnemonic_seed_and_password escape m s db in
    match r with
    | None => Ret (s1, None)
    | Some (_, p) => let* w := get_consuming_wallet_opt_from_derivation_path db p in Ret (s1, w)
    end) as -> by by destruct e.
  intros ([s2 [[d p]|]] & _ & E)%obind_ret_inv; [|done]. apply obind_ret_inv in E as (o & Eo & [= <- ->]).
  unfold get_consuming_wallet_opt_from_derivation_path in Eo. apply obind_ret_inv in Eo as (q & Eq & Eo). destruct q as [q|]; [|done].
  intros En. unfold consuming_wallet_derivation_path, get_string, try_get in Eq. rewrite En in Eq.
  by destruct (config db !! KEY) as [[?|]|].
Qed.

Lemma wallets_again escape m s db s1 config db' :
  wallets_made db -> get_wallets escape s m db = Ret (s1, consuming_wallet config, earning_wallet config) ->
  configure_database config db = Ret db' -> get_wallets escape s m db' = Ret (s1, consuming_wallet config, earning_wallet config).
Proof.
  intros Hmade (e & c & ems & Ee & Ec & Es & Hn & Ep & Ew)%get_wallets_parts Ed.
  destruct (configure_database_settles _ _ _ Ed) as [Sb _], (configure_database_outcome _ _ _ Ed) as [Oe Ok].
  destruct (seed_again escape m s db db') as (Es' & Em & Ems); [apply Sb; by apply elsewhere|].
  assert (Accounts.config db' !! PATH = Accounts.config db !! PATH) as Epath by (apply Sb; by apply elsewhere).
  assert (is_Some c -> ems = None) as Hn'.
  { intros Hc. destruct e as [e|]; [by apply Hn|]. destruct ems as [ems|]; [|done].
    destruct (Hmade ems) as [t Ht]; [by apply optional_string_some|]. by destruct (earning_present _ _ _ _ Ht Ee). }
  apply get_wallets_parts. exists (Some (earning_wallet config)), c, ems. rewrite Es'. split_and!; try done.
  - by eapply earning_again.
  - eapply private_key_again; [done|]. destruct Ok as [Ekey|(w & k & Ec' & Hk & Hp & _ & Hh)].
    + left. unfold consuming_wallet_public_key, get_string, try_get. by rewrite Ekey, Epath.
    + right. exists w, k. destruct c as [c|]; [|rewrite Ec' in Ep; by apply consuming_part_derived in Ep].
      apply consuming_part_given in Ep as Ep'. split_and!; [congruence|done|].
      apply consuming_key; [done|]. by rewrite Epath.
  - destruct c as [c|]; cbn [consuming_part].
    + apply consuming_part_given in Ep as Ep'. rewrite Ep' in Ep |- *. destruct e as [e|]; cbn [consuming_part] in Ep; [done|].
      specialize (Hn' (mk_is_Some _ _ eq_refl)) as ->. unfold get_mnemonic_seed_and_password in Ep. rewrite Es in Ep. cbn [obind] in Ep.
      by injection Ep as <-.
    + assert (Accounts.config db' !! KEY = Accounts.config db !! KEY) as Ekey.
      { destruct Ok as [?|(w & k & Ec' & _ & Hp & _)]; [done|]. rewrite Ec' in Ep. by apply consuming_part_derived in Ep. }
      assert (forall p, get_consuming_wallet_opt_from_derivation_path db' p = get_consuming_wallet_opt_from_derivation_path db p) as Eg.
      { intros p. unfold get_consuming_wallet_opt_from_derivation_path, consuming_wallet_derivation_path, get_string, try_get.
        by rewrite Ekey, Epath, Ems. }
      destruct e as [e|]; cbn [consuming_part] in Ep; rewrite Em; rewrite <- Ep; destruct (get_mnemonic_seed_and_password escape m s db) as [[s2 [[d p]|]]| |];
        try done; cbn [obind]; by rewrite Eg.
Qed.

(** A start on the database that a start with the same arguments and the same input left ends as that one did, and
    leaves the database alone. *)
Lemma configure_again escape m s db s1 config db' :
  wallets_made db -> unprivileged_configure escape m s db = Ret (s1, config, db') ->
  unprivileged_configure escape m s db' = Ret (s1, config, db').
Proof.
  intros Hmade. unfold unprivileged_configure, unprivileged_parse_args.
  intros (new & Enew & ([s2 c2] & E & (d & Ed & [= -> -> ->])%obind_ret_inv)%obind_ret_inv)%obind_ret_inv. rewrite Enew. cbn [obind].
  apply obind_ret_inv in E as ([[s3 consuming] earning] & Ew & [= -> <-]).
  match type of Ed with configure_database ?c _ = _ => rewrite (wallets_again escape m s db s1 c db' Hmade Ew Ed) end.
  cbn [obind consuming_wallet earning_wallet].
  by rewrite (proj2 (configure_database_settles _ _ _ Ed)).
Qed.

(** ** What becomes of a Node's database *)

(** What a running Node does to its configuration *)
Definition running_op (op : config_op) : Prop :=
  match op with SetGasPrice _ | SetStartBlock _ | SetClandestinePort _ => True | _ => False end.

(** The databases that come about: new ones, and those that generating or recovering wallets, starting, and running
    leave *)
Inductive lived : Db -> Prop :=
| lived_new chain_id port : lived (create_database_tables chain_id port)
| lived_recovered escape language mnemonic from_name of_phrase seed_of draw m s db s1 c db' : lived db ->
    recover_wallet escape (language := language) (mnemonic := mnemonic) from_name of_phrase seed_of draw m s db = Ret (s1, c, db') -> lived db'
| lived_generated escape language mnemonic from_name seed_of make_mnemonic phrase_of unindent draw m s db s1 c db' : lived db ->
    generate_wallet escape (language := language) (mnemonic := mnemonic) from_name seed_of make_mnemonic phrase_of unindent draw m s db = Ret (s1, c, db') -> lived db'
| lived_started escape m s db s1 config db' : lived db -> unprivileged_configure escape m s db = Ret (s1, config, db') -> lived db'
| lived_running db op db' : lived db -> running_op op -> config_apply db op = Ret db' -> lived db'
| lived_accounted db db' : lived db -> config db' = config db -> lived db'.

Lemma evolves_trans db db' db'' : evolves db db' -> evolves db' db'' -> evolves db db''.
Proof. intros (_ & K & P & E) (Hok & K' & P' & E'). split; [done|]. split_and!; intros v Hv; auto. Qed.

Lemma made_again db db' : evolves db db' -> config db' !! SEED = config db !! SEED -> wallets_made db -> wallets_made db'.
Proof. intros (_ & _ & _ & He) Es Hm ems Hs. destruct (Hm ems) as [t Ht]; [unfold has in *; by rewrite <- Es|]. exists t. by apply He. Qed.

Lemma configure_database_evolves c db db' : config_ok db -> configure_database c db = Ret db' -> evolves db db'.
Proof.
  rewrite configure_database_parts. intros Hok (d1 & E1 & (d2 & E2 & (d3 & E3 & E4)%obind_ret_inv)%obind_ret_inv)%obind_ret_inv.
  assert (evolves db d1) as V1.
  { destruct (clandestine_port_opt c) as [p|]; [by apply (config_apply_ok db (SetClandestinePort p))|injection E1 as <-; by apply evolves_refl]. }
  assert (evolves d1 d2) as V2.
  { unfold establish_earning in E2. apply obind_ret_inv in E2 as (o & _ & E2). destruct o; [injection E2 as <-; by apply evolves_refl, V1|].
    apply obind_ret_inv in E2 as (t & _ & E2). apply (config_apply_ok d1 (SetEarningWallet t)); [apply V1|done]. }
  assert (evolves d2 d3) as V3.
  { destruct (bridge_gas_price (blockchain_bridge_config c)) as [g|]; [apply (config_apply_ok d2 (SetGasPrice g)); [apply V2|done]|].
    injection E3 as <-. by apply evolves_refl, V2. }
  assert (evolves d3 db') as V4; [|by eapply evolves_trans, evolves_trans, evolves_trans].
  unfold establish_consuming in E4. destruct (consuming_wallet c) as [w|]; [|injection E4 as <-; by apply evolves_refl, V3].
  apply obind_ret_inv in E4 as (p & _ & (k & _ & E4)%obind_ret_inv).
  destruct p; [injection E4 as <-; by apply evolves_refl, V3|]. destruct k; [injection E4 as <-; by apply evolves_refl, V3|].
  apply obind_ret_inv in E4 as (kp & _ & E4). apply (config_apply_ok d3 (SetPublicKey (eth_public (kp_secret kp)))); [apply V3|done].
Qed.

Lemma set_earning_has db a db' : set_earning_wallet_address db a = Ret db' -> exists t, has db' EARNING t.
Proof.
  unfold set_earning_wallet_address. intros (w & _ & E)%obind_ret_inv.
  destruct (get_string db EARNING) as [e|e] eqn:Ee.
  - case_bool_decide; [|done]. injection E as <-. exists e. unfold get_string, try_get in Ee. unfold has.
    destruct (config db !! EARNING) as [[v|]|]; by simplify_eq.
  - apply expect_ok_ret, set_has in E as [Hh _]. by eexists.
Qed.

Lemma create_wallet_made draw c a db db' : config_ok db -> earning_wallet_address_opt c = Some a -> create_wallet draw c db = Ret db' ->
  evolves db db' /\ wallets_made db'.
Proof.
  intros Hok Ha (d1 & E1 & E)%obind_ret_inv. rewrite Ha in E1. destruct (set_earning_has _ _ _ E1) as [t Ht].
  pose proof (config_apply_ok db (SetEarningWallet a) d1 Hok E1) as V1.
  assert (evolves d1 db') as V; [|split; [by eapply evolves_trans|intros ems _; exists t; by apply V]].
  destruct (derivation_path_info_opt c) as [i|]; [|injection E as <-; by apply evolves_refl, V1].
  apply obind_ret_inv in E as (d2 & E2 & E). pose proof (config_apply_ok d1 (SetMnemonicSeed _ _ _) d2 (proj1 V1) E2) as V2.
  destruct (consuming_derivation_path_opt i) as [p|]; [|by injection E as <-].
  eapply evolves_trans; [exact V2|]. apply (config_apply_ok d2 (SetDerivationPath p (info_wallet_password i))); [apply V2|done].
Qed.

Lemma creation_has_address escape mp ms m s s1 c : make_wallet_creation_config escape mp ms m s = Ret (s1, c) ->
  exists a, earning_wallet_address_opt c = Some a.
Proof.
  unfold make_wallet_creation_config. intros ([s2 p] & _ & E)%obind_ret_inv. apply obind_ret_inv in E as ([s3 wp] & _ & E).
  apply obind_ret_inv in E as (i & _ & E). apply obind_ret_inv in E as ([s4 sd] & _ & E). apply obind_ret_inv in E as (ru & _ & E).
  apply obind_ret_inv in E as (a & _ & [= _ <-]). by exists a.
Qed.

Lemma running_keeps_seed db op db' : running_op op -> config_apply db op = Ret db' -> config db' !! SEED = config db !! SEED.
Proof.
  destruct op as [p|g| | | | |b]; intros Hr; try done; cbn [config_apply].
  - unfold set_clandestine_port. case_match; [done|]. intros [_ S]%expect_ok_ret%set_has. apply S. by apply elsewhere.
  - intros [_ S]%expect_ok_ret%set_has. apply S. by apply elsewhere.
  - unfold set_start_block_transactionally, set_u64_transactional. change (config_try_update db) with (set_string db).
    destruct (set_string db (lit "start_block") (dec b)) as [d|[| |]] eqn:E; cbn [obind]; intros; simplify_eq; [|done].
    apply set_has in E as [_ S]. apply S. by apply elsewhere.
Qed.

Lemma lived_ok db : lived db -> config_ok db /\ wallets_made db.
Proof.
  induction 1 as [chain_id port|escape language mnemonic fn op so draw m s db s1 c db' _ [Hok Hm] E|escape language mnemonic fn so mm po ui draw m s db s1 c db' _ [Hok Hm] E|
    escape m s db s1 c db' _ [Hok Hm] E|db op db' _ [Hok Hm] Hr E|db db' _ [Hok Hm] E].
  - split; [apply initial_config_ok|]. intros ems Hs.
    assert (config (create_database_tables chain_id port) !! SEED = Some None) as E by reflexivity. unfold has in Hs. by rewrite E in Hs.
  - unfold recover_wallet in E. apply obind_ret_inv in E as ([s2 c2] & Ec & E). apply obind_ret_inv in Ec as ([e|] & _ & Ec); [done|].
    apply obind_ret_inv in E as (d & Ed & [= -> -> ->]). destruct (creation_has_address _ _ _ _ _ _ _ Ec) as [a Ha].
    destruct (create_wallet_made _ _ _ _ _ Hok Ha Ed) as [V ?]. split; [apply V|done].
  - unfold generate_wallet in E. apply obind_ret_inv in E as ([s2 c2] & Ec & E). apply obind_ret_inv in Ec as ([e|] & _ & Ec); [done|].
    apply obind_ret_inv in E as (d & Ed & [= -> -> ->]). destruct (creation_has_address _ _ _ _ _ _ _ Ec) as [a Ha].
    destruct (create_wallet_made _ _ _ _ _ Hok Ha Ed) as [V ?]. split; [apply V|done].
  - unfold unprivileged_configure in E. apply obind_ret_inv in E as (n & _ & E). apply obind_ret_inv in E as ([s2 c2] & _ & E).
    apply obind_ret_inv in E as (d & Ed & [= -> -> ->]). pose proof (configure_database_evolves _ _ _ Hok Ed) as V. split; [apply V|].
    eapply made_again; [done| |done]. apply (proj1 (configure_database_settles _ _ _ Ed)). by apply elsewhere.
  - pose proof (config_apply_ok _ _ _ Hok E) as V. split; [apply V|]. eapply made_again; [done| |done]. by eapply running_keeps_seed.
  - destruct Hok as [Hn Ho]. split; [constructor; by rewrite E|]. unfold wallets_made, has. by rewrite E.
Qed.

(** C28: Restarting. Take any database that came about by creating it, generating or recovering wallets, starting Nodes
    and running them. If a Node starts on it, with whatever arguments and whatever is typed, then a second
    start with the same arguments and the same typing succeeds, finds the same configuration, wallets included, and
    leaves the database alone; and neither start changes a consuming or an earning wallet that had been set. *)
Theorem restart_is_stable escape m s db s1 config db' :
  lived db -> unprivileged_configure escape m s db = Ret (s1, config, db') ->
  unprivileged_configure escape m s db' = Ret (s1, config, db') /\ lived db' /\ evolves db db'.
Proof.
  intros Hl E. destruct (lived_ok db Hl) as [Hok Hm]. split_and!.
  - by eapply configure_again.
  - by eapply lived_started.
  - unfold unprivileged_configure in E. apply obind_ret_inv in E as (n & _ & E). apply obind_ret_inv in E as ([s2 c2] & _ & E).
    apply obind_ret_inv in E as (d & Ed & [= -> -> ->]). by eapply configure_database_evolves.
Qed.
End restart.

(** ** Libraries to evaluate with: hexadecimal text is the bytes themselves *)
Definition toy_startup_lib : StartupLib := {|
  derivation_path s := match s with [] => None | _ => Some [true; true; true; false; false] end;
  from_hex s := Some (map ascii_code s);
  secret_from_raw b := Some b;
  parse_ipv6 s := None |}.

Definition toy_standard_lib : StandardLib := {|
  LevelFilter := str; Off := lit "off"; parse_level s := Some s; base64_decode s := Some (map ascii_code s); keccak256 b := b |}.

Definition toy_address (s : str) : option Wallet :=
  match s with "0"%char :: "x"%char :: r => Some (mkWallet (Address (map ascii_code (map lower r)))) | _ => None end.

Definition toy_wallet_lib : ConfigLib := {|
  can_bind _ := true;
  encrypt_bytes draw seed password :=
    if forallb (uintb 8) seed then Ok (ascii_of_code (wrap 8 (default 0 (head draw))) :: map ascii_of_code seed) else Err SerializationFailure;
  decrypt_bytes s password := match s with [] => Err DecryptionFailure | _ :: r => Ok (map ascii_code r) end;
  keypair_from_raw seed path := Some (mkKeyPair seed seed);
  to_hex b := map ascii_of_code b;
  wallet_from_str := toy_address;
  to_lowercase s := map lower s |}.

Lemma toy_lower r : map lower (map lower r) = map lower r.
Proof. rewrite map_map. apply map_ext. by intros [[] [] [] [] [] [] [] []]. Qed.

Lemma toy_wallet_text : @WalletText toy_wallet_lib.
Proof.
  constructor. intros s w. cbn. unfold toy_address. intros E. repeat case_match; simplify_eq.
  eexists. split; [done|]. by rewrite ascii_code_back, !toy_lower.
Qed.

Lemma toy_seed_laws : @SeedLaws toy_wallet_lib.
Proof.
  constructor.
  - intros draw draw' seed p c. cbn [encrypt_bytes toy_wallet_lib]. destruct (forallb _ seed); [by eexists|done].
  - intros draw seed p c. cbn [encrypt_bytes toy_wallet_lib]. destruct (forallb _ seed) eqn:Es; [|done]. intros [= <-]. cbn. f_equal. rewrite map_map.
    induction seed as [|z seed IH]; [done|]. cbn in Es |- *. apply andb_true_iff in Es as [Hz%uintb_uint Hs]. rewrite ascii_code_of_code by (unfold uint in Hz; norm_pow; done).
    by rewrite IH.
Qed.

Definition toy_matches (l : list (string * string)) : ArgMatches := {|
  value_of n := snd <$> head (filter (fun p => p.1 = n) (map (fun p => (lit p.1, lit p.2)) l));
  values_of n := map snd (filter (fun p => p.1 = n) (map (fun p => (lit p.1, lit p.2)) l));
  occurrences_of n := length (filter (fun p => p.1 = n) (map (fun p => (lit p.1, lit p.2)) l)) |}.

Definition toy_start (l : list (string * string)) (lines : list str) (db : @Db toy_sqlite) :=
  @unprivileged_configure toy_standard_lib toy_startup_lib toy_sqlite toy_wallet_lib toy_eth (fun s => s) (toy_matches l) (mkStreams lines []) db.

Definition started_ok {A B C} (o : outcome (A * B * C)) : bool := match o with Ret _ => true | _ => false end.

Definition toy_started (l : list (string * string)) (lines : list str) (db : @Db toy_sqlite) : @Db toy_sqlite :=
  match toy_start l lines db with Ret (_, _, db') => db' | _ => db end.

Lemma restart_is_stable_witness :
  let arguments := [("consuming-private-key", "ab"); ("gas-price", "7"); ("clandestine-port", "5555")]%string in
  exists s1 config db', toy_start arguments [] (@create_database_tables toy_sqlite 1 5000) = Ret (s1, config, db') /\
    toy_start arguments [] db' = Ret (s1, config, db').
Proof.
  intros arguments.
  destruct (toy_start arguments [] (@create_database_tables toy_sqlite 1 5000)) as [[[s1 config] db']| |] eqn:E;
    [|exfalso; assert (started_ok (toy_start arguments [] (@create_database_tables toy_sqlite 1 5000)) = true) as B by (vm_compute; reflexivity); rewrite E in B; discriminate B ..].
  exists s1, config, db'. split; [reflexivity|].
  exact (proj1 (@restart_is_stable toy_standard_lib toy_startup_lib toy_sqlite toy_wallet_lib toy_eth toy_wallet_text
    (fun s => s) _ _ _ s1 config db' (@lived_new toy_standard_lib toy_startup_lib toy_sqlite toy_wallet_lib toy_eth 1 5000) E)).
Defined.

(** A consuming wallet is first given by its private key, and the same wallet is then recovered from its mnemonic
    phrase: its derivation path is not stored, so that the password no longer leads to it, and the private key is no
    longer accepted. *)
Definition recovered (db : @Db toy_sqlite) : outcome (@Db toy_sqlite) :=
  @create_wallet toy_sqlite toy_wallet_lib toy_eth [1; 2]
    (mk_creation (Some (lit "0x47fB8671Db83008d382C2e6EA67fA377378c0CeA")) (Some (mk_info [97; 98] (lit "pw") (Some (lit "m/44'/60'/0'/0/0")))) RealUser_null) db.

Definition consuming_wallet_found (l : list (string * string)) (db : @Db toy_sqlite) : option bool :=
  match toy_start l [] db with Ret (_, c, _) => Some (bool_decide (is_Some (consuming_wallet c))) | _ => None end.

Definition key_then_phrase : option (option bool * option bool * option bool) :=
  let db1 := toy_started [("consuming-private-key", "ab")]%string [] (@create_database_tables toy_sqlite 1 5000) in
  match recovered db1 with
  | Ret db2 => Some (consuming_wallet_found [("wallet-password", "pw")]%string db2, consuming_wallet_found [("consuming-private-key", "ab")]%string db2,
                     consuming_wallet_found [("consuming-private-key", "ab")]%string db1)
  | _ => None
  end.

Example recovered_consuming_wallet_is_lost : key_then_phrase = Some (Some false, None, Some true).
Proof. vm_compute. reflexivity. Qed.

(** Without a wallet of its own, a Node earns into one that is built in, for good: its own can no longer be recovered. *)
Definition panics {A} (o : outcome A) : bool := match o with Panic => true | _ => false end.

Example own_earning_wallet_comes_too_late :
  panics (@create_wallet toy_sqlite toy_wallet_lib toy_eth [1; 2] (mk_creation (Some (lit "0x1234567890123456789012345678901234567890")) None RealUser_null)
    (toy_started [] [] (@create_database_tables toy_sqlite 1 5000))) = true.
Proof. vm_compute. reflexivity. Qed.

(** ** Which arguments a Node starts with *)
Definition LEVELS : list str := map lit ["off"; "error"; "warn"; "info"; "debug"; "trace"]%string.

(** The parser of log levels does not mind case; the built-in earning wallet can be read. *)
Class StandardLaws `{!StandardLib} `{!ConfigLib} : Prop := {
  level_parses v p : p ∈ LEVELS -> same_but_case v p = true -> is_Some (parse_level v);
  default_wallet_reads : is_Some (wallet_from_str (lit "0x47fB8671Db83008d382C2e6EA67fA377378c0CeA")) }.

Section exact.
Context `{!StandardLib} `{!StartupLib} `{!Sqlite} `{!ConfigLib} `{!EthSign} `{!StandardLaws}.
Context (s : surroundings) (m : ArgMatches).

Definition given (n : string) : option str := value_of m (lit n).

(** What the arguments say of the neighborhood *)
Definition mode_stated (mode : NeighborhoodMode.NeighborhoodMode) : Prop :=
  let neighbors := values_of m (lit "neighbors") in
  match mode with
  | NeighborhoodMode.Standard addr ns rp =>
      given "neighborhood-mode" = Some (lit "standard") /\ ns = neighbors /\ rp = DEFAULT_RATE_PACK /\
      exists v ip, given "ip" = Some v /\ parse_ip_addr v = Some ip /\ addr = NodeAddr.mk ip []
  | NeighborhoodMode.OriginateOnly ns rp =>
      given "neighborhood-mode" = Some (lit "originate-only") /\ ns = neighbors /\ ns <> [] /\ rp = DEFAULT_RATE_PACK
  | NeighborhoodMode.ConsumeOnly ns =>
      given "neighborhood-mode" = Some (lit "consume-only") /\ ns = neighbors /\ ns <> []
  | NeighborhoodMode.ZeroHop => given "neighborhood-mode" = Some (lit "zero-hop") /\ neighbors = [] /\ given "ip" = None
  end.

(** The arguments that the documentation lets a user combine: without --ip the mode is stated, which the README says would be zero-hop
    otherwise; --ip and --clandestine-port do not go with originate-only and consume-only, nor --clandestine-port with zero-hop. *)
Record documented : Prop := {
  doc_mode : given "ip" = None -> occurrences_of m (lit "neighborhood-mode") <> 0%nat;
  doc_guarded : forall mode, mode ∈ map lit ["originate-only"; "consume-only"]%string -> given "neighborhood-mode" = Some mode ->
    given "ip" = None /\ given "clandestine-port" = None;
  doc_zero_hop : given "neighborhood-mode" = Some (lit "zero-hop") -> given "clandestine-port" = None }.

(** An identifier is empty or fits 32 bits. *)
Definition id_fits (t : str) : Prop := t = [] \/ is_Some (parse_i32 t).

Definition user_fits : Prop :=
  forall v u g home, given "real-user" = Some v -> splitn3 v = [u; g; home] -> id_fits u /\ id_fits g.

(** The home directory of the user of sudo is found beside the own one. *)
Definition sudo_home_found : Prop :=
  forall u h, var s "SUDO_USER" = Some u -> own_home_dir s = Some h -> is_Some (path_parent h).

Definition fake_key_readable : Prop := forall v, given "fake-public-key" = Some v -> is_Some (base64_decode v).

Definition data_directory_of (user : RealUser) (chain_name : str) (d : path) : Prop :=
  if (0 <? occurrences_of m (lit "data-directory"))%nat then given "data-directory" = Some d
  else exists home own data, home_dir user = Some home /\ own_home_dir s = Some own /\ own_data_dir s = Some data /\
    d = path_join (path_join (replace own home data) (lit "Prometheus")) chain_name.

(** *** What clap has seen to *)
Section accepted.
Context {data : option path} (Hclap : clap_accepts (app data) m).

Lemma accepted i a v : app data !! i = Some a -> value_of m (arg_name a) = Some v -> acceptable a v = true.
Proof. intros Hi%list_elem_of_lookup_2. by apply (clap_value _ _ Hclap). Qed.

Lemma defaulted i a d : app data !! i = Some a -> default_value a = Some d -> is_Some (value_of m (arg_name a)).
Proof. intros Hi%list_elem_of_lookup_2. by apply (clap_default _ _ Hclap). Qed.

Lemma ui_port_given : exists v p, given "ui-port" = Some v /\ parse_uint 16 v = Some p /\ 1025 <= p <= 65535.
Proof.
  destruct (defaulted 19 _ _ eq_refl eq_refl) as [v Hv]. exists v. pose proof (accepted 19 _ v eq_refl Hv) as Ha.
  apply andb_true_iff in Ha as [Ha _]. cbn in Ha. unfold validate_ui_port in Ha.
  destruct (parse_uint 16 v) as [p|] eqn:E; [|done]. exists p. pose proof (parse_uint_bound 16 v p ltac:(lia) E) as B.
  unfold uint in B. apply negb_true_iff, Z.ltb_ge in Ha. unfold NodeAddr.LOWEST_USABLE_INSECURE_PORT in Ha.
  split_and!; [done..|lia|]. change (2 ^ 16) with 65536 in B. lia.
Qed.

Lemma crash_point_given : exists v c, given "crash-point" = Some v /\ CrashPoint_from_str v = Some c.
Proof.
  destruct (defaulted 7 _ _ eq_refl eq_refl) as [v Hv]. exists v. pose proof (accepted 7 _ v eq_refl Hv) as Ha.
  apply andb_true_iff in Ha as [_ Ha]. cbn in Ha. unfold CrashPoint_from_str.
  assert (exists c, c ∈ [CrashPanic; CrashError; CrashNone] /\ same_but_case v (CrashPoint_name c) = true) as (c & Hc & Hs).
  { rewrite orb_false_r in Ha. apply orb_true_iff in Ha as [Ha|Ha]; [by exists CrashPanic; split; [left|]|].
    apply orb_true_iff in Ha as [Ha|Ha]; [exists CrashError|exists CrashNone]; (split; [set_solver|done]). }
  destruct (list_find_elem_of (fun c => same_but_case v (CrashPoint_name c) = true) _ c Hc Hs) as [[i c'] E]. exists c'. by rewrite E.
Qed.

Lemma log_level_given : exists v l, given "log-level" = Some v /\ parse_level v = Some l.
Proof.
  destruct (defaulted 15 _ _ eq_refl eq_refl) as [v Hv]. exists v. pose proof (accepted 15 _ v eq_refl Hv) as Ha.
  apply andb_true_iff in Ha as [_ Ha]. cbn [possible_values case_insensitive] in Ha.
  change (existsb (fun p => same_but_case v p) LEVELS = true) in Ha. apply existsb_exists in Ha as (p & Hp & Hs).
  destruct (level_parses v p (proj2 (list_elem_of_In _ _) Hp) Hs) as [l Hl]. by exists l.
Qed.

Lemma ip_reads v : given "ip" = Some v -> is_Some (parse_ip_addr v).
Proof.
  intros Hv. pose proof (accepted 14 _ v eq_refl Hv) as Ha. apply andb_true_iff in Ha as [Ha _].
  by apply bool_decide_eq_true in Ha.
Qed.

Lemma dns_servers_read : Forall2 (fun v ip => parse_ip_addr v = Some ip) (values_of m (lit "dns-servers")) (values_m m parse_ip_addr "dns-servers").
Proof.
  unfold values_m. assert (is_Some (mapM parse_ip_addr (values_of m (lit "dns-servers")))) as [l E].
  { apply mapM_is_Some, Forall_forall. intros v Hv.
    pose proof (clap_values _ _ Hclap _ v (list_elem_of_lookup_2 (app data) 9 _ eq_refl) Hv) as Ha.
    apply andb_true_iff in Ha as [Ha _]. by apply bool_decide_eq_true in Ha. }
  rewrite E. by apply mapM_Some.
Qed.

Lemma chain_given : exists v, given "chain" = Some v /\ v ∈ map lit ["dev"; "mainnet"; "ropsten"]%string.
Proof.
  destruct (defaulted 11 _ _ eq_refl eq_refl) as [v Hv]. exists v. pose proof (accepted 11 _ v eq_refl Hv) as Ha.
  apply andb_true_iff in Ha as [_ Ha]. split; [done|]. cbn [possible_values case_insensitive] in Ha.
  change (existsb (fun p => bool_decide (v = p)) (map lit ["dev"; "mainnet"; "ropsten"]%string) = true) in Ha.
  apply existsb_exists in Ha as (p & Hp & ->%bool_decide_eq_true). by apply list_elem_of_In.
Qed.
End accepted.

Lemma values_all n : values_m m Some n = values_of m (lit n).
Proof. unfold values_m. assert (mapM Some (values_of m (lit n)) = Some (values_of m (lit n))) as ->; [|done]. apply mapM_Some. by induction (values_of m (lit n)); constructor. Qed.

Lemma value_text n : value_m m Some n = given n.
Proof. unfold value_m, given. by destruct (value_of m (lit n)). Qed.

Lemma mode_exact data mode : clap_accepts (app data) m -> make_neighborhood_config m = Ret mode <-> mode_stated mode.
Proof.
  intros Hclap. assert (value_m m parse_ip_addr "ip" = None <-> given "ip" = None) as Hip.
  { unfold value_m, given. destruct (value_of m (lit "ip")) as [v|] eqn:Ev; [|done]. split; [|done].
    destruct (ip_reads Hclap v Ev) as [ip E]. by rewrite E. }
  unfold make_neighborhood_config, mode_stated. rewrite !values_all, value_text. set (ns := values_of m (lit "neighbors")).
  destruct (given "neighborhood-mode") as [v|]; [|split; [done|]; destruct mode; intros [? ?]; done].
  repeat case_bool_decide; subst; cbn [negb].
  - split; [|destruct mode; intros [? Hm]; simplify_eq].
    + intros (ip & Ei%expect_ret & [= <-])%obind_ret_inv. split_and!; [done..|]. unfold value_m in Ei. unfold given.
      destruct (value_of m (lit "ip")) as [t|]; [|done]. by exists t, ip.
    + destruct Hm as (-> & -> & t & ip & Et & Ep & ->). unfold value_m. unfold given in Et. rewrite Et, Ep. done.
  - split; [done|]. destruct mode; intros [? Hm]; simplify_eq. naive_solver.
  - split; [by intros [= <-]|]. destruct mode; intros [? Hm]; simplify_eq. naive_solver.
  - split; [done|]. destruct mode; intros [? Hm]; simplify_eq. naive_solver.
  - split; [by intros [= <-]|]. destruct mode; intros [? Hm]; simplify_eq. naive_solver.
  - split; [done|]. destruct mode; intros [? Hm]; simplify_eq. destruct Hm as [_ Hm%Hip].
    match goal with K : is_Some _ |- _ => rewrite Hm in K; by destruct K end.
  - split; [|destruct mode; intros [? Hm]; simplify_eq; done]. intros [= <-]. split_and!; [done..|]. apply Hip.
    by apply eq_None_not_Some.
  - split; [done|]. destruct mode; intros [? Hm]; simplify_eq. naive_solver.
  - split; [done|]. destruct mode; intros [? Hm]; naive_solver.
  - split; [done|]. destruct mode; intros [? Hm]; naive_solver.
Qed.

Lemma span_spec p t u v : span p t = (u, v) -> t = u ++ v /\ Forall (fun c => p c = true) u.
Proof.
  revert u v. induction t as [|c t IH]; intros u v; cbn [span]; [by intros [= <- <-]|]. destruct (p c) eqn:E; [|by intros [= <- <-]].
  destruct (span p t) as [u' v'] eqn:E'. intros [= <- <-]. destruct (IH _ _ eq_refl) as [-> Hu]. split; [done|by constructor].
Qed.

Lemma digits_clean u : Forall (fun c => is_digit c = true) u -> ":"%char ∉ u.
Proof. intros Hu Hin. by apply (proj1 (Forall_forall _ _) Hu) in Hin. Qed.

(** A user that the validator lets through consists of three parts. *)
Lemma validated_user v : validate_real_user v = true -> exists u g home, splitn3 v = [u; g; home].
Proof.
  unfold validate_real_user. destruct (span is_digit v) as [u v1] eqn:E1. apply span_spec in E1 as [-> Hu]. cbn [snd].
  destruct v1 as [|c v1]; [done|]. destruct (decide (c = ":"%char)) as [->|Hc]; [|intros Hv; exfalso; by destruct c as [[] [] [] [] [] [] [] []]].
  destruct (span is_digit v1) as [g v2] eqn:E2. apply span_spec in E2 as [-> Hg]. cbn [snd].
  destruct v2 as [|c v2]; [done|]. destruct (decide (c = ":"%char)) as [->|Hc]; [|intros Hv; exfalso; by destruct c as [[] [] [] [] [] [] [] []]].
  intros _. exists u, g, v2. unfold splitn3. rewrite splitn2_app by by apply digits_clean. by rewrite splitn2_app by by apply digits_clean.
Qed.

Lemma optional_id_fits t : (exists o, optional_id t = Ret o) <-> id_fits t.
Proof.
  unfold optional_id, id_fits. destruct t as [|c t]; [split; [by left|by exists None]|]. split.
  - intros (o & (n & ->%expect_ret & _)%obind_ret_inv). right. by eexists.
  - intros [?|[n ->]]; [done|]. by exists (Some n).
Qed.

Lemma real_user_exact data : clap_accepts (app data) m -> (exists o, real_user_m m = Ret o) <-> user_fits.
Proof.
  intros Hclap. unfold real_user_m, user_fits, given. destruct (value_of m (lit "real-user")) as [v|] eqn:Ev; [|split; [done|by exists None]].
  pose proof (accepted Hclap 18 _ v eq_refl Ev) as Ha. apply andb_true_iff in Ha as [Ha _]. cbn in Ha.
  destruct (validated_user v Ha) as (u & g & home & Es). unfold RealUser_from_str. rewrite Es. cbn [lookup list_lookup expect obind]. split.
  - intros (o & (ru & (uo & Eu & (go & Eg & _)%obind_ret_inv)%obind_ret_inv & _)%obind_ret_inv) v' u' g' home' [= <-] Es'.
    rewrite Es in Es'. injection Es' as <- <- <-. split; apply optional_id_fits; eauto.
  - intros Hfit. destruct (Hfit v u g home eq_refl Es) as [[uo Eu]%optional_id_fits [go Eg]%optional_id_fits].
    rewrite Eu. cbn [obind]. rewrite Eg. cbn [obind]. by eexists.
Qed.

Lemma first_present_some {T} (l : list (option T)) : (exists t, Some t ∈ l) -> exists t, first_present l = Ret t.
Proof.
  intros [t Ht]. unfold first_present. destruct (list_find_elem_of is_Some l (Some t) Ht ltac:(by eexists)) as [[i o] E]. rewrite E.
  apply list_find_Some in E as (_ & [x ->] & _). by exists x.
Qed.

Lemma populate_exact u : is_Some (own_home_dir s) -> (exists u', populate s u = Ret u') <-> sudo_home_found.
Proof.
  intros [h Hh]. unfold populate, sudo_home_found, sudo_home_from_sudo_user_and_home.
  destruct (first_present_some [uid u; id_from_env s "SUDO_UID"; Some (getuid s)]) as [x ->]; [exists (getuid s); set_solver|].
  destruct (first_present_some [gid u; id_from_env s "SUDO_GID"; Some (getgid s)]) as [y ->]; [exists (getgid s); set_solver|]. cbn [obind].
  assert (forall o, exists z, first_present [home_dir u; o; own_home_dir s] = Ret z) as Hz by (intros o; apply first_present_some; exists h; rewrite Hh; set_solver).
  rewrite Hh in *. destruct (var s "SUDO_USER") as [su|].
  - split.
    + intros (u' & (o & (p & Ep%expect_ret & _)%obind_ret_inv & _)%obind_ret_inv) ? ? [= <-] [= <-]. by eexists.
    + intros Hp. destruct (Hp su h eq_refl eq_refl) as [p ->]. cbn [expect obind]. destruct (Hz (Some (path_join p su))) as [z ->]. by eexists.
  - split; [done|]. intros _. cbn [obind]. destruct (Hz None) as [z ->]. by eexists.
Qed.

Lemma populated u u' : populate s u = Ret u' -> exists x y h, u' = mk_RealUser (Some x) (Some y) (Some h).
Proof. unfold populate. intros E. unbind. by repeat eexists. Qed.

Lemma user_and_directory data : clap_accepts (app data) m -> data = own_data_dir s -> is_Some (own_home_dir s) -> is_Some (own_data_dir s) ->
  ((exists r, real_user_data_directory_and_chain_id s m = Ret r) <-> user_fits /\ sudo_home_found) /\
  (forall user d chain, real_user_data_directory_and_chain_id s m = Ret (user, d, chain) ->
     (exists x y h, user = mk_RealUser (Some x) (Some y) (Some h)) /\
     exists v, given "chain" = Some v /\ chain = chain_id_from_name v /\ data_directory_of user v d).
Proof.
  intros Hclap -> Hh [dd Hd]. destruct (chain_given Hclap) as (v & Hv & _).
  destruct (defaulted Hclap 8 _ _ eq_refl eq_refl) as [dir Hdir]. cbn [arg_name] in Hdir.
  pose proof Hh as [own Hown]. unfold real_user_data_directory_and_chain_id, data_directory_of, value_user_specified_m, given in *.
  change (value_m m Some "chain") with (value_m m Some "chain"). rewrite !value_text. unfold given in *. rewrite Hv.
  change (arg_name _) with (lit "data-directory") in Hdir. rewrite Hdir, Hown, Hd. split.
  - rewrite <- (real_user_exact _ Hclap). split.
    + intros (r & (ru & Eru & (user & Eu & _)%obind_ret_inv)%obind_ret_inv). split; [by eexists|].
      destruct ru as [ru|]; (eapply populate_exact; [by eexists|by eexists]).
    + intros [[ru Eru] Hs]. rewrite Eru. cbn [obind].
      assert (exists user, match ru with Some u => populate s u | None => populate s RealUser_null end = Ret user) as [user Eu]
        by (destruct ru; by apply populate_exact). rewrite Eu. cbn [expect obind].
      destruct (populated (default RealUser_null ru) user) as (x & y & h & ->); [by destruct ru|]. cbn [home_dir expect obind].
      destruct (0 <? _)%nat; cbn [obind]; by eexists.
  - intros user d chain (ru & Eru & (u & Eu & E)%obind_ret_inv)%obind_ret_inv. cbn [expect obind] in E.
    destruct (populated (default RealUser_null ru) u) as (x & y & h & ->); [by destruct ru|]. cbn [home_dir expect obind] in E.
    apply obind_ret_inv in E as (d' & Ed & [= <- <- <-]). split; [by repeat eexists|]. exists v. split_and!; [done..|].
    destruct (0 <? _)%nat; injection Ed as <-; [done|]. exists h, own, dd. by split_and!.
Qed.

Lemma obind_fueled {A B} (o : outcome A) (k : A -> outcome B) : o <> OutOfFuel -> (forall a, k a <> OutOfFuel) -> obind o k <> OutOfFuel.
Proof. destruct o; cbn; auto. Qed.

Lemma expect_fueled {A} (o : option A) : expect o <> OutOfFuel.
Proof. by destruct o. Qed.

Lemma fake_key_exact key chain before : (exists o, fake_cryptde key chain m before = Ret o) <-> fake_key_readable.
Proof.
  unfold fake_cryptde, fake_key_readable. rewrite value_text. destruct (given "fake-public-key") as [v|]; [|split; [done|by eexists]]. split.
  - intros [o E] v' [= <-]. destruct (base64_decode v); [by eexists|done].
  - intros Hk. destruct (Hk v eq_refl) as [k ->]. by eexists.
Qed.

Lemma privileged_start key :
  clap_accepts (app (own_data_dir s)) m -> is_Some (own_home_dir s) -> is_Some (own_data_dir s) ->
  ((exists c, privileged_configure s key m = Ret c) <->
     user_fits /\ sudo_home_found /\ (exists mode, mode_stated mode) /\ fake_key_readable) /\
  privileged_configure s key m <> OutOfFuel /\
  (forall c, privileged_configure s key m = Ret c ->
     mode_stated (neighborhood_config c) /\
     (exists v, given "ui-port" = Some v /\ parse_uint 16 v = Some (ui_port (ui_gateway_config c))) /\
     1025 <= ui_port (ui_gateway_config c) <= 65535 /\
     Forall2 (fun v a => exists ip, parse_ip_addr v = Some ip /\ a = mkSocketAddr ip 53) (values_of m (lit "dns-servers")) (dns_servers c) /\
     (exists v, given "chain" = Some v /\ chain_id (blockchain_bridge_config c) = chain_id_from_name v /\
        data_directory_of (real_user c) v (data_directory c)) /\
     (exists uid gid home, real_user c = mk_RealUser (Some uid) (Some gid) (Some home)) /\
     port_configurations c = <[443 := mk_port [TlsDiscriminatorFactory; HttpRequestDiscriminatorFactory] false]>
       {[80 := mk_port [HttpRequestDiscriminatorFactory] false]}).
Proof.
  intros Hclap Hh Hd. destruct (user_and_directory _ Hclap eq_refl Hh Hd) as [Hu Hud]. destruct default_wallet_reads as [w Hw].
  destruct (ui_port_given Hclap) as (pv & p & Epv & Ep & Bp), (log_level_given Hclap) as (lv & l & Elv & El),
    (crash_point_given Hclap) as (cv & cp & Ecv & Ecp).
  assert (value_m m (parse_uint 16) "ui-port" = Some p) as Hport by (unfold value_m; unfold given in Epv; by rewrite Epv).
  assert (value_m m parse_level "log-level" = Some l) as Hlevel by (unfold value_m; unfold given in Elv; by rewrite Elv).
  assert (value_m m CrashPoint_from_str "crash-point" = Some cp) as Hpoint by (unfold value_m; unfold given in Ecv; by rewrite Ecv).
  unfold privileged_configure, BootstrapperConfig_new, DEFAULT_EARNING_WALLET. rewrite Hw. cbn [expect obind]. unfold privileged_parse_args.
  rewrite Hlevel, Hport, Hpoint. cbn [expect obind]. split_and!.
  - transitivity ((exists r, real_user_data_directory_and_chain_id s m = Ret r) /\ (exists mode, mode_stated mode) /\ fake_key_readable); [|rewrite Hu; tauto]. split.
    + intros (c & ([[user d] chain] & E & E')%obind_ret_inv). apply obind_ret_inv in E' as (mode & Em & (o & Eo & _)%obind_ret_inv).
      split_and!; [by eexists|exists mode; by apply (mode_exact _ mode Hclap)|]. eapply fake_key_exact. by eexists.
    + intros ([[[user d] chain] ->] & (mode & Em%(mode_exact _ mode Hclap)) & Hk). cbn [obind]. rewrite Em. cbn [obind].
      destruct (proj2 (fake_key_exact key chain None) Hk) as [o Eo].
      change (cryptde_null_opt _) with (@None CryptDENull.CryptDENull). rewrite Eo. by eexists.
  - unfold real_user_data_directory_and_chain_id, real_user_m, RealUser_from_str, optional_id, populate, sudo_home_from_sudo_user_and_home,
      first_present, make_neighborhood_config, fake_cryptde, value_user_specified_m.
    repeat first [apply obind_fueled; [|intros ?]|apply expect_fueled|done|case_match].
  - intros c ([[user d] chain] & E & E')%obind_ret_inv. apply obind_ret_inv in E' as (mode & Em & (o & Eo & [= <-])%obind_ret_inv).
    destruct (Hud _ _ _ E) as [Hru Hv].
    cbn [neighborhood_config ui_gateway_config ui_port dns_servers blockchain_bridge_config chain_id real_user data_directory port_configurations].
    split; [by apply (mode_exact _ mode Hclap)|]. split; [by exists pv|]. split; [exact Bp|]. split; [|by split_and!].
    apply Forall2_fmap_r. eapply Forall2_impl; [by apply (dns_servers_read Hclap)|]. intros v ip Hip. by exists ip.
Qed.

(** C31: Which arguments a Node starts with. Given arguments that clap accepts and the documentation lets a user combine
    (without --ip the mode is stated; no --ip and no --clandestine-port with originate-only and consume-only, and no
    --clandestine-port with zero-hop) and an own home and data directory, the privileged configuration succeeds exactly
    when: the identifiers of --real-user fit 32 bits; the home directory is not the root if sudo named a user; the
    mode is written in lower case, standard comes with --ip, originate-only and consume-only with --neighbors, and
    zero-hop with neither; and the fake public key is base64. Otherwise it panics; nothing else that the schema lets through does. The
    configuration is then the one asked for: mode and neighbors, a usable port for the user interface, each DNS server at
    port 53, the chain, the directory of the data, the user with all three parts, and listeners for HTTP and TLS
    only. *)
Theorem privileged_start_is_exact key :
  clap_accepts (app (own_data_dir s)) m -> documented -> is_Some (own_home_dir s) -> is_Some (own_data_dir s) ->
  ((exists c, privileged_configure s key m = Ret c) <->
     user_fits /\ sudo_home_found /\ (exists mode, mode_stated mode) /\ fake_key_readable) /\
  privileged_configure s key m <> OutOfFuel /\
  (forall c, privileged_configure s key m = Ret c ->
     mode_stated (neighborhood_config c) /\
     (exists v, given "ui-port" = Some v /\ parse_uint 16 v = Some (ui_port (ui_gateway_config c))) /\
     1025 <= ui_port (ui_gateway_config c) <= 65535 /\
     Forall2 (fun v a => exists ip, parse_ip_addr v = Some ip /\ a = mkSocketAddr ip 53) (values_of m (lit "dns-servers")) (dns_servers c) /\
     (exists v, given "chain" = Some v /\ chain_id (blockchain_bridge_config c) = chain_id_from_name v /\
        data_directory_of (real_user c) v (data_directory c)) /\
     (exists uid gid home, real_user c = mk_RealUser (Some uid) (Some gid) (Some home)) /\
     port_configurations c = <[443 := mk_port [TlsDiscriminatorFactory; HttpRequestDiscriminatorFactory] false]>
       {[80 := mk_port [HttpRequestDiscriminatorFactory] false]}).
Proof. intros Hclap _. by apply privileged_start. Qed.

(** Without the mode and --ip, the mode is standard by default and the start panics, where the README has the Node come up in
    zero-hop mode. *)
Lemma missing_ip_panics key :
  clap_accepts (app (own_data_dir s)) m -> is_Some (own_home_dir s) -> is_Some (own_data_dir s) ->
  given "neighborhood-mode" = Some (lit "standard") -> given "ip" = None -> privileged_configure s key m = Panic.
Proof.
  intros Hclap Hh Hd Hm Hi. destruct (privileged_start key Hclap Hh Hd) as (Hs & Hf & _).
  destruct (privileged_configure s key m) as [c| |] eqn:E; [exfalso|done|by destruct Hf].
  destruct (proj1 Hs) as (_ & _ & (mode & Hmode) & _); [by eexists|].
  destruct mode; unfold mode_stated in Hmode; cbn zeta in Hmode; destruct Hmode as (Hx & Hmode); rewrite Hm in Hx; try discriminate Hx.
  destruct Hmode as (_ & _ & v & ip & Hv & _). congruence.
Qed.

(** --ip is accepted, and ignored, in the modes that the help calls incompatible with it. *)
Lemma useless_ip_is_ignored key ns :
  clap_accepts (app (own_data_dir s)) m -> is_Some (own_home_dir s) -> is_Some (own_data_dir s) -> user_fits -> sudo_home_found ->
  fake_key_readable -> given "neighborhood-mode" = Some (lit "originate-only") -> values_of m (lit "neighbors") = ns -> ns <> [] ->
  exists c, privileged_configure s key m = Ret c /\ neighborhood_config c = NeighborhoodMode.OriginateOnly ns DEFAULT_RATE_PACK.
Proof.
  intros Hclap Hh Hd Hu Hsu Hk Hm Hns Hne. destruct (privileged_start key Hclap Hh Hd) as (Hs & _ & Hc).
  destruct (proj2 Hs) as [c E]; [by split_and!; try done; exists (NeighborhoodMode.OriginateOnly ns DEFAULT_RATE_PACK)|].
  exists c. split; [done|]. destruct (Hc c E) as (Hmode & _).
  destruct (neighborhood_config c); unfold mode_stated in Hmode; cbn zeta in Hmode; destruct Hmode as (Hx & Hmode);
    rewrite Hm in Hx; try discriminate Hx. destruct Hmode as (E1 & _ & E2). by rewrite E1, E2, Hns.
Qed.
End exact.

Definition clap_acceptsb (args : list Arg) (m : ArgMatches) : bool :=
  forallb (fun a =>
    match value_of m (arg_name a), default_value a with Some v, _ => acceptable a v | None, Some _ => false | None, None => true end &&
    forallb (acceptable a) (values_of m (arg_name a))) args.

Lemma clap_acceptsb_ok args m : clap_acceptsb args m = true -> clap_accepts args m.
Proof.
  unfold clap_acceptsb. rewrite forallb_forall. intros Hall. constructor.
  - intros a d Ha Hd. specialize (Hall a (proj1 (list_elem_of_In _ _) Ha)). rewrite Hd in Hall. by destruct (value_of m (arg_name a)).
  - intros a v Ha Hv. specialize (Hall a (proj1 (list_elem_of_In _ _) Ha)). rewrite Hv in Hall. by apply andb_true_iff in Hall as [Hall _].
  - intros a v Ha Hv. specialize (Hall a (proj1 (list_elem_of_In _ _) Ha)). apply andb_true_iff in Hall as [_ Hall].
    rewrite forallb_forall in Hall. by apply Hall, list_elem_of_In.
Qed.

Definition toy_surroundings (home : string) : surroundings :=
  mk_surroundings (fun _ => None) 1000 1000 (Some (lit home)) (Some (path_join (lit home) (lit ".local/share"))).

(** What is given, and the defaults of the rest *)
Definition toy_arguments (l : list (string * string)) : ArgMatches :=
  let all := toy_matches (l ++ [("Dev_Contribution", "1"); ("Exit_Service_Rate", "1001"); ("Routing_Service_Rate", "1000"); ("config-file", "config.toml");
    ("crash-point", "None"); ("data-directory", "x"); ("chain", "mainnet"); ("log-level", "warn"); ("neighborhood-mode", "standard"); ("ui-port", "5333")]%string) in
  mkMatches (value_of all) (values_of all) (occurrences_of (toy_matches l)).

Definition toy_privileged (l : list (string * string)) (home : string) : outcome (@BootstrapperConfig toy_standard_lib) :=
  @privileged_configure toy_standard_lib toy_startup_lib toy_wallet_lib (toy_surroundings home) [] (toy_arguments l).

Lemma toy_laws : @StandardLaws toy_standard_lib toy_wallet_lib.
Proof. constructor; [by eexists|by eexists]. Qed.

Lemma privileged_start_is_exact_witness :
  exists c, toy_privileged [("ip", "1.2.3.4"); ("neighborhood-mode", "standard"); ("dns-servers", "8.8.8.8")]%string "/home/x" = Ret c /\
    ui_port (ui_gateway_config c) <= 65535.
Proof.
  set (l := [("ip", "1.2.3.4"); ("neighborhood-mode", "standard"); ("dns-servers", "8.8.8.8")]%string).
  destruct (@privileged_start_is_exact toy_standard_lib toy_startup_lib toy_wallet_lib toy_laws (toy_surroundings "/home/x") (toy_arguments l) [])
    as (Hstarts & _ & Hc).
  - apply clap_acceptsb_ok. vm_compute. reflexivity.
  - split; [by intros E; vm_compute in E|intros mode Hmode E|by intros E; vm_compute in E].
    exfalso. apply elem_of_cons in Hmode as [->|Hmode%list_elem_of_singleton]; [|subst mode]; vm_compute in E; discriminate E.
  - by eexists.
  - by eexists.
  - destruct (proj2 Hstarts) as [c E].
    + split; [intros ? ? ? ? Hv; vm_compute in Hv; discriminate|]. split; [intros ? ? Hv; vm_compute in Hv; discriminate|].
      split; [|intros ? Hv; vm_compute in Hv; discriminate].
      exists (NeighborhoodMode.Standard (NodeAddr.mk (V4 1 2 3 4) []) [] DEFAULT_RATE_PACK).
      split; [reflexivity|]. split; [reflexivity|]. split; [reflexivity|]. exists (lit "1.2.3.4"), (V4 1 2 3 4).
      split; [reflexivity|]. split; reflexivity.
    + exists c. split; [exact E|]. destruct (Hc c E) as (_ & _ & [_ B] & _). exact B.
Defined.

(** The schema takes a mode in any case, the code takes it in lower case only. *)
Example capital_mode_panics :
  clap_acceptsb (@app toy_startup_lib (own_data_dir (toy_surroundings "/home/x"))) (toy_arguments [("ip", "1.2.3.4"); ("neighborhood-mode", "Standard")]%string) = true /\
  panics (toy_privileged [("ip", "1.2.3.4"); ("neighborhood-mode", "Standard")]%string "/home/x") = true.
Proof. vm_compute. split; reflexivity. Qed.

(** The validator takes identifiers of any size, the parser those of 32 bits. *)
Example large_identifier_panics :
  validate_real_user (lit "99999999999::") = true /\
  panics (toy_privileged [("ip", "1.2.3.4"); ("real-user", "99999999999::")]%string "/home/x") = true.
Proof. vm_compute. split; reflexivity. Qed.

Definition toy_directory (home : string) : option path :=
  match toy_privileged [("ip", "1.2.3.4"); ("real-user", "::/home/x")]%string home with Ret c => Some (data_directory c) | _ => None end.

(** The own home directory is replaced as text: written with a separator at its end, or if it is the root, the result is not
    a directory of the real user's. *)
Example home_is_replaced_as_text :
  toy_directory "/root" = Some (lit "/home/x/.local/share/Prometheus/mainnet") /\
  toy_directory "/root/" = Some (lit "/home/x.local/share/Prometheus/mainnet") /\
  toy_directory "/" = Some (lit "/home/x.local/home/xshare/Prometheus/mainnet").
Proof. vm_compute. repeat split; reflexivity. Qed.

(** The rates that the schema has arguments for are not read. *)
Example rates_are_not_read :
  match toy_privileged [("ip", "1.2.3.4"); ("Exit_Service_Rate", "4001"); ("Routing_Service_Rate", "4000")]%string "/home/x" with
  | Ret c => NeighborhoodMode.rate_pack (neighborhood_config c) = DEFAULT_RATE_PACK
  | _ => False
  end.
Proof. vm_compute. reflexivity. Qed.
