(* ===== verification/Bip39.v ===== *)
(** * Bip39: seeds under passwords, and keys from seeds

    blockchain/bip39.rs and bip32.rs, over what ethsign, serde_cbor, rustc_hex and tiny_hderive do. They make an instance of [ConfigLib], the
    interface against which the configuration is modelled; with it, a wallet that was created is found again by its password. *)
From S2P Require Import Prelude Text SubLib Wallet Accounts Blockchain MultiConfig Configurator StandardConfigurator.
From Stdlib Require Import Ascii.

(** [crypto_encrypt] takes first the random bytes, salt and initialization vector, that it draws. *)
Class Keyfile := {
  Crypto : Type;
  crypto_encrypt : bytes -> bytes -> str -> option Crypto;
  crypto_decrypt : Crypto -> str -> option bytes;
  crypto_to_vec : Crypto -> option bytes;
  crypto_from_slice : bytes -> option Crypto;
  hex_from : str -> option bytes;
  hex_to : bytes -> str;
  extended_secret : bytes -> str -> option bytes;
  secret_key_from_raw : bytes -> option bytes }.

(** What was encrypted is decrypted under the same password only; whether it can be encrypted and serialized does not depend on what is
    drawn; hexadecimal digits and serialization lose nothing. *)
Class KeyfileOk `{!Keyfile} : Prop := {
  crypto_round_trip d b p c : crypto_encrypt d b p = Some c -> crypto_decrypt c p = Some b;
  crypto_draws d d' b p : is_Some (crypto_encrypt d b p) -> is_Some (crypto_encrypt d' b p);
  crypto_serializes d d' b p c c' : crypto_encrypt d b p = Some c -> crypto_encrypt d' b p = Some c' -> is_Some (crypto_to_vec c) -> is_Some (crypto_to_vec c');
  crypto_secret d b p c p' : crypto_encrypt d b p = Some c -> p' <> p -> crypto_decrypt c p' = None;
  crypto_serialized c v : crypto_to_vec c = Some v -> bytes_ok v /\ crypto_from_slice v = Some c;
  hex_round_trip b : bytes_ok b -> hex_from (hex_to b) = Some b }.

(** ** Languages *)
Inductive Language := English | ChineseSimplified | ChineseTraditional | French | Italian | Japanese | Korean | Spanish.

Definition languages : list Language := [English; ChineseSimplified; ChineseTraditional; French; Italian; Japanese; Korean; Spanish].

Definition name_from_language (l : Language) : str :=
  lit match l with
      | English => "English"
      | ChineseSimplified => "中文(简体)"
      | ChineseTraditional => "中文(繁體)"
      | French => "Français"
      | Italian => "Italiano"
      | Japanese => "日本語"
      | Korean => "한국어"
      | Spanish => "Español"
      end.

(** [lowercase] is [str::to_lowercase]. *)
Definition language_from_name (lowercase : str -> str) (name : str) : outcome Language :=
  let n := lowercase name in
  let named s := bool_decide (n = lit s) in
  if named "english"%string then Ret English
  else if named "中文(简体)"%string || named "简体"%string then Ret ChineseSimplified
  else if named "中文(繁體)"%string || named "繁體"%string then Ret ChineseTraditional
  else if named "français"%string then Ret French
  else if named "italiano"%string then Ret Italian
  else if named "日本語"%string then Ret Japanese
  else if named "한국어"%string then Ret Korean
  else if named "español"%string then Ret Spanish
  else Panic.

Definition possible_language_values : list str := map name_from_language languages.

(** Every language is found by the name that is offered for it. *)
Lemma languages_are_found lowercase l : (forall l, lowercase (name_from_language l) = map lower (name_from_language l)) ->
  name_from_language l ∈ possible_language_values /\ language_from_name lowercase (name_from_language l) = Ret l.
Proof.
  intros Hlow. split; [apply list_elem_of_fmap; exists l; split; [done|destruct l; unfold languages; set_solver]|].
  unfold language_from_name. rewrite Hlow. by destruct l.
Qed.

Section keyfile.
Context `{!Keyfile} `{!EthSign}.

(** ** [Bip39] *)
Definition bip39_encrypt_bytes (draw seed : bytes) (wallet_password : str) : result str Bip39Error :=
  match crypto_encrypt draw seed wallet_password with
  | Some crypto => match crypto_to_vec crypto with Some cipher_seed => Ok (hex_to cipher_seed) | None => Err SerializationFailure end
  | None => Err EncryptionFailure
  end.

Definition bip39_decrypt_bytes (crypt_string wallet_password : str) : result bytes Bip39Error :=
  match hex_from crypt_string with
  | Some cipher_seed_slice =>
      match crypto_from_slice cipher_seed_slice with
      | Some crypto => match crypto_decrypt crypto wallet_password with Some mnemonic_seed => Ok mnemonic_seed | None => Err DecryptionFailure end
      | None => Err DeserializationFailure
      end
  | None => Err ConversionError
  end.

(** ** [Bip32ECKeyPair] *)
Definition from_raw (seed : bytes) (derivation_path : str) : option Bip32ECKeyPair :=
  match extended_secret seed derivation_path with
  | Some s => keypair_from_secret <$> secret_key_from_raw s
  | None => None
  end.

(** [extended_private_key], and [from_key] of it *)
Definition extended_private_key (seed : bytes) (derivation_path : str) : outcome bytes := expect (extended_secret seed derivation_path).

Definition from_key (extended : bytes) : option Bip32ECKeyPair := keypair_from_secret <$> secret_key_from_raw extended.

(** [TryFrom<(&[u8], &str)>] *)
Definition keypair_try_from (seed : bytes) (derivation_path : str) : option Bip32ECKeyPair :=
  if (length seed =? 64)%nat then from_raw seed derivation_path else None.

(** [Serialize] and [Deserialize]: the secret in a key file whose password is secret *)
Definition SECRET : str := lit "secret".

Definition keypair_serialize (draw : bytes) (k : Bip32ECKeyPair) : option Crypto := crypto_encrypt draw (kp_secret k) SECRET.

Definition keypair_deserialize (c : Crypto) : option Bip32ECKeyPair :=
  match crypto_decrypt c SECRET with Some raw_secret => keypair_from_secret <$> secret_key_from_raw raw_secret | None => None end.

(** [clone_secret], by way of a key file *)
Definition clone_secret (draw : bytes) (k : Bip32ECKeyPair) : outcome bytes :=
  let* crypto := expect (crypto_encrypt draw (kp_secret k) SECRET) in
  let* raw := expect (crypto_decrypt crypto SECRET) in
  expect (secret_key_from_raw raw).

(** The interface of the configuration, with what else it needs *)
Definition keyfile_config (can_bind : Z -> bool) (wallet_from_str : str -> option Wallet) (to_lowercase : str -> str) : ConfigLib := {|
  Accounts.can_bind := can_bind;
  encrypt_bytes := bip39_encrypt_bytes;
  decrypt_bytes := bip39_decrypt_bytes;
  keypair_from_raw := from_raw;
  to_hex := hex_to;
  Accounts.wallet_from_str := wallet_from_str;
  Accounts.to_lowercase := to_lowercase |}.

Context `{!KeyfileOk}.

Lemma seed_decrypted draw seed p c : bip39_encrypt_bytes draw seed p = Ok c ->
  bip39_decrypt_bytes c p = Ok seed /\ forall p', p' <> p -> bip39_decrypt_bytes c p' = Err DecryptionFailure.
Proof.
  unfold bip39_encrypt_bytes. destruct (crypto_encrypt draw seed p) as [crypto|] eqn:Ee; [|done]. destruct (crypto_to_vec crypto) as [v|] eqn:Ev; [|done].
  destruct (crypto_serialized _ _ Ev) as [Hv Hc]. intros [= <-]. unfold bip39_decrypt_bytes. rewrite hex_round_trip, Hc by done. split.
  - by rewrite (crypto_round_trip _ _ _ _ Ee).
  - intros p' Hp. by rewrite (crypto_secret _ _ _ _ _ Ee Hp).
Qed.

(** The configuration's interface keeps its laws. *)
Lemma keyfile_seed_laws can_bind wallet_from_str to_lowercase : @SeedLaws (keyfile_config can_bind wallet_from_str to_lowercase).
Proof.
  constructor; [|intros draw seed p c E; by apply (seed_decrypted draw)].
  intros draw draw' seed p c. cbn. unfold bip39_encrypt_bytes. destruct (crypto_encrypt draw seed p) as [crypto|] eqn:Ee; [|done].
  destruct (crypto_to_vec crypto) as [v|] eqn:Ev; [|done]. intros _.
  destruct (crypto_draws draw draw' _ _ (mk_is_Some _ _ Ee)) as [crypto' Ee']. rewrite Ee'.
  destruct (crypto_serializes _ _ _ _ _ _ Ee Ee' (mk_is_Some _ _ Ev)) as [v' ->]. by eexists.
Qed.

(** A key pair of a valid secret survives serialization, and its secret cloning. *)
Lemma keypair_survives draw draw' k c : keypair_serialize draw k = Some c -> secret_key_from_raw (kp_secret k) = Some (kp_secret k) ->
  kp_public k = eth_public (kp_secret k) -> keypair_deserialize c = Some k /\ clone_secret draw' k = Ret (kp_secret k).
Proof.
  unfold keypair_serialize, keypair_deserialize, clone_secret. intros Ee Hs Hp. rewrite (crypto_round_trip _ _ _ _ Ee), Hs.
  destruct (crypto_draws draw draw' _ _ (mk_is_Some _ _ Ee)) as [c' Ee']. rewrite Ee'. cbn [expect obind]. rewrite (crypto_round_trip _ _ _ _ Ee'). cbn [expect obind].
  rewrite Hs. split; [|done]. cbn. f_equal. unfold keypair_from_secret. rewrite <- Hp. by destruct k.
Qed.
End keyfile.

(** ** A created wallet and its password *)
Section created.
Context `{!Keyfile} `{!KeyfileOk} `{!EthSign} `{!Sqlite} (can_bind : Z -> bool) (wallet_from_str : str -> option Wallet) (to_lowercase : str -> str).
#[local] Instance the_config : ConfigLib := keyfile_config can_bind wallet_from_str to_lowercase.

(** No consuming wallet has been set. *)
Definition without_consuming_wallet (db : Db) : Prop := config db !! KEY = Some None /\ config db !! PATH = Some None.

Lemma created_is_stored draw c info path db db' :
  derivation_path_info_opt c = Some info -> consuming_derivation_path_opt info = Some path -> without_consuming_wallet db ->
  create_wallet draw c db = Ret db' ->
  exists ems, bip39_encrypt_bytes draw (info_mnemonic_seed info) (info_wallet_password info) = Ok ems /\
    config db' !! SEED = Some (Some ems) /\ config db' !! KEY = Some None /\ config db' !! PATH = Some (Some path).
Proof.
  intros Hi Hp [Hk Hpath] (db1 & E1 & E)%obind_ret_inv. rewrite Hi in E. apply obind_ret_inv in E as (db2 & (ems & Ee%expect_ok_ret & E2%expect_ok_ret)%obind_ret_inv & E).
  rewrite Hp in E. exists ems. split; [done|].
  assert (config db1 !! KEY = Some None /\ config db1 !! PATH = Some None) as [Hk1 Hp1].
  { destruct (earning_wallet_address_opt c); [|injection E1 as <-; done]. apply obind_ret_inv in E1 as (? & _ & E1).
    destruct (get_string db EARNING); [destruct (bool_decide _); [injection E1 as <-; done|done]|].
    apply expect_ok_ret, set_has in E1 as [_ Hs]. by rewrite !Hs by (by apply elsewhere). }
  apply set_has in E2 as [Hseed Hs]. assert (config db2 !! KEY = Some None /\ config db2 !! PATH = Some None) as [Hk2 Hp2].
  { by rewrite !Hs by (by apply elsewhere). }
  unfold set_consuming_wallet_derivation_path, get_string, try_get in E. rewrite Hk2, Hp2 in E. apply expect_ok_ret, set_has in E as [Hpath' Hs'].
  rewrite !Hs' by (by apply elsewhere). done.
Qed.
End created.

(** C34: A created wallet and its password. After wallets have been created from a seed, with a password and a derivation path, in a database
    without a consuming wallet, the next start finds the consuming wallet of the seed and the path under that password. Until
    then it is found by a message of the user interface with that password: the Blockchain Bridge takes the wallet and tells Neighborhood
    and Proxy Server; a message with any other password is refused and changes nothing. *)
Theorem wallet_is_found_by_password `{!Keyfile} `{!KeyfileOk} `{!EthSign} `{!Sqlite} can_bind wallet_from_str to_lowercase draw c info path keypair db db' :
  let lib := keyfile_config can_bind wallet_from_str to_lowercase in
  derivation_path_info_opt c = Some info -> consuming_derivation_path_opt info = Some path -> without_consuming_wallet db ->
  from_raw (info_mnemonic_seed info) path = Some keypair ->
  @create_wallet _ lib _ draw c db = Ret db' ->
  let wallet := mkWallet (KeyPair keypair) in
  @get_consuming_wallet_opt_from_derivation_path _ lib db' (info_wallet_password info) = Ret (Some wallet) /\
  forall id password,
    @handle_set_wallet_password _ lib db' (mkBridge None true true) id password =
      Ret (if bool_decide (password = info_wallet_password info)
           then (mkBridge (Some wallet) true true,
                 [SetConsumingWalletToNeighborhood wallet; SetConsumingWalletToProxyServer wallet; SetWalletPasswordResponse id true])
           else (mkBridge None true true, [SetWalletPasswordResponse id false])).
Proof.
  intros lib Hi Hp Hw Hk E wallet. destruct (created_is_stored can_bind wallet_from_str to_lowercase draw c info path db db' Hi Hp Hw E) as (ems & Ee & Hseed & Hkey & Hpath).
  destruct (seed_decrypted _ _ _ _ Ee) as [Hright Hwrong].
  assert (@consuming_wallet_derivation_path _ db' = Ret (Some path)) as Hcw
    by (unfold consuming_wallet_derivation_path, get_string, try_get; by rewrite Hkey, Hpath).
  assert (forall p, @mnemonic_seed _ lib db' p = Ret (bip39_decrypt_bytes ems p)) as Hm.
  { intros p. unfold mnemonic_seed, encrypted_mnemonic_seed, optional_string, get_string, try_get. change (lit "seed") with SEED. by rewrite Hseed. }
  split.
  - unfold get_consuming_wallet_opt_from_derivation_path. rewrite Hcw. cbn [obind]. rewrite Hm, Hright. cbn [obind]. change (@keypair_from_raw lib) with from_raw. by rewrite Hk.
  - intros id password. unfold handle_set_wallet_password, accept_wallet_password. cbn [bb_consuming_wallet]. rewrite Hcw. cbn [obind]. rewrite Hm. cbn [obind].
    case_bool_decide as Hpw; [subst password; rewrite Hright|by rewrite Hwrong]. change (@keypair_from_raw lib) with from_raw. by rewrite Hk.
Qed.

(** A key file that says what it holds *)
Definition toy_keyfile : Keyfile := {|
  Crypto := Z * bytes * str;
  crypto_encrypt d b p := Some (wrap 8 (default 0 (head d)), b, p);
  crypto_decrypt c p := if bool_decide (p = c.2) then Some c.1.2 else None;
  crypto_to_vec '(d, b, p) :=
    if forallb (uintb 8) (d :: Z.of_nat (length p) :: b) then Some (d :: Z.of_nat (length p) :: map ascii_code p ++ b) else None;
  crypto_from_slice v := match v with d :: n :: r => Some (d, drop (Z.to_nat n) r, map ascii_of_code (take (Z.to_nat n) r)) | _ => None end;
  hex_from s := Some (map ascii_code s);
  hex_to b := map ascii_of_code b;
  extended_secret seed path := Some seed;
  secret_key_from_raw b := Some b |}.

Lemma ascii_codes_ok s : bytes_ok (map ascii_code s).
Proof. apply Forall_fmap, Forall_forall. intros c _. unfold uint, ascii_code. pose proof (Ascii.N_ascii_bounded c). norm_pow. cbn. lia. Qed.

Lemma codes_of_bytes b : bytes_ok b -> map ascii_code (map ascii_of_code b) = b.
Proof.
  induction 1 as [|z b Hz _ IH]; [done|]. cbn. rewrite IH. f_equal. apply ascii_code_of_code. unfold uint in Hz. norm_pow. done.
Qed.

Lemma toy_draw z : uintb 8 (wrap 8 z) = true.
Proof. apply uintb_uint, wrap_uint. lia. Qed.

Lemma toy_keyfile_ok : @KeyfileOk toy_keyfile.
Proof.
  constructor; cbn.
  - intros d b p c [= <-]. cbn. by rewrite bool_decide_eq_true_2.
  - by intros d d' b p _.
  - intros d d' b p c c' [= <-] [= <-]. cbn [forallb]. rewrite !toy_draw. by destruct (_ && _).
  - intros d b p c p' [= <-] Hp. cbn. by rewrite bool_decide_eq_false_2.
  - intros [[d b] p] v E. cbn in E. destruct (uintb 8 d && (uintb 8 _ && forallb (uintb 8) b)) eqn:Eb; [|done]. injection E as <-.
    apply andb_true_iff in Eb as [Hd%uintb_uint [Hn%uintb_uint Hb]%andb_true_iff]. split.
    + do 2 (constructor; [done|]). apply Forall_app. split; [apply ascii_codes_ok|]. apply Forall_forall. intros z Hz%list_elem_of_In. rewrite forallb_forall in Hb.
      by apply uintb_uint, Hb.
    + rewrite Nat2Z.id. rewrite drop_app_length', take_app_length' by (by rewrite length_map). by rewrite ascii_code_back.
  - intros b Hb. by rewrite codes_of_bytes.
Qed.

Definition toy_creation (password : str) : WalletCreationConfig :=
  mk_creation None (Some (mk_info [97; 98] password (Some DEFAULT_CONSUMING_DERIVATION_PATH))) RealUser_null.

Definition toy_created : outcome (@Db toy_sqlite) :=
  @create_wallet toy_sqlite (@keyfile_config toy_keyfile toy_eth (fun _ => true) toy_address (map lower)) toy_eth [1; 2] (toy_creation (lit "pw"))
    (@create_database_tables toy_sqlite 1 5000).

Lemma toy_created_ret : exists db, toy_created = Ret db.
Proof.
  assert (match toy_created with Ret _ => true | _ => false end = true) as B by (vm_compute; reflexivity). destruct toy_created as [db| |]; [by exists db|done..].
Qed.

Lemma wallet_is_found_by_password_witness :
  exists db, toy_created = Ret db /\
    @handle_set_wallet_password toy_sqlite (@keyfile_config toy_keyfile toy_eth (fun _ => true) toy_address (map lower)) db (mkBridge None true true) 7 (lit "other") =
      Ret (mkBridge None true true, [SetWalletPasswordResponse 7 false]).
Proof.
  destruct toy_created_ret as [db E]. exists db. split; [exact E|].
  refine (eq_trans (proj2 (@wallet_is_found_by_password toy_keyfile toy_keyfile_ok toy_eth toy_sqlite (fun _ => true) toy_address (map lower) [1; 2] (toy_creation (lit "pw"))
    (mk_info [97; 98] (lit "pw") (Some DEFAULT_CONSUMING_DERIVATION_PATH)) DEFAULT_CONSUMING_DERIVATION_PATH _ _ db eq_refl eq_refl _ eq_refl E) 7 (lit "other")) _).
  - split; reflexivity.
  - reflexivity.
Defined.
