(* ===== verification/WalletRecovery.v ===== *)
(** * WalletRecovery: wallets that were generated can be recovered

    No code of its own: the two commands of [Configurator], node_configurator_generate_wallet.rs and
    node_configurator_recover_wallet.rs, one after the other. Recovering asks for what was not said on the command line:
    the passphrase, the password and the mnemonic phrase, in this order; [answers] is what the user types then. *)
From S2P Require Import Prelude Text SubLib Wallet Accounts MultiConfig Configurator StandardConfigurator.
From Stdlib Require Import Ascii.

(** ** Words on a line *)
Definition plain_word (w : str) : Prop := w <> [] /\ Forall (fun c => is_space c = false) w.

Definition blank_line (s : str) : Prop := Forall (fun c => is_separator c = true) s.

(** The words [ws], with any separators between, before and behind them *)
Inductive laid_out : list str -> str -> Prop :=
| laid_out_end gap : blank_line gap -> laid_out [] gap
| laid_out_word gap w ws line :
    blank_line gap -> laid_out ws line -> match line with [] => True | c :: _ => is_separator c = true end ->
    laid_out (w :: ws) (gap ++ w ++ line).

Lemma separator_is_space c : is_separator c = true -> is_space c = true.
Proof. unfold is_separator, is_space. rewrite !orb_true_iff, andb_true_iff, !Z.eqb_eq, !Z.leb_le. lia. Qed.

Lemma words_gap gap line : blank_line gap -> words [] (gap ++ line) = words [] line.
Proof. induction 1 as [|c gap Hc _ IH]; [done|]. cbn. by rewrite Hc. Qed.

Lemma words_word u w line :
  Forall (fun c => is_space c = false) w -> words u (w ++ line) = words (rev w ++ u) line.
Proof.
  intros Hw. revert u. induction Hw as [|c w Hc _ IH]; intros u; [done|]. cbn.
  destruct (is_separator c) eqn:E; [apply separator_is_space in E; congruence|]. rewrite IH. by rewrite <- app_assoc.
Qed.

Lemma words_laid_out ws line : Forall plain_word ws -> laid_out ws line -> words [] line = ws.
Proof.
  intros Hws Hl. induction Hl as [gap Hg|gap w ws line Hg Hl IH Hsep].
  - by rewrite <- (app_nil_r gap), words_gap.
  - apply Forall_cons in Hws as [[Hne Hw] Hws]. rewrite words_gap, words_word, app_nil_r by done.
    assert (exists c r, rev w = c :: r) as (c & r & E) by (destruct w as [|c w] using rev_ind; [done|]; rewrite rev_app_distr; by do 2 eexists).
    destruct line as [|d line]; cbn; [rewrite E, <- E, rev_involutive|rewrite Hsep, E, <- E, rev_involutive]; f_equal; [by apply IH|].
    rewrite <- IH by done. cbn. by rewrite Hsep.
Qed.

Lemma trim_plain w : plain_word w -> trim w = w.
Proof.
  assert (forall v, Forall (fun c => is_space c = false) v -> (span is_space v).2 = v) as Hs by (by intros _ [|c v Hc _]; cbn; [|rewrite Hc]).
  intros [_ Hw]. unfold trim. rewrite (Hs w) by done. rewrite Hs by (by apply Forall_rev). apply rev_involutive.
Qed.

Lemma trim_words ws : Forall plain_word ws -> map trim ws = ws.
Proof. induction 1 as [|w ws Hw _ IH]; [done|]. cbn. by rewrite trim_plain, IH. Qed.

(** ** The two commands *)
Section recovery.
Context `{!Sqlite} `{!ConfigLib} `{!EthSign} `{!StartupLib} (escape : str -> str).
Context {language mnemonic : Type} (language_from_name : str -> option language)
  (mnemonic_of_phrase : str -> language -> option mnemonic) (seed_of : mnemonic -> str -> bytes)
  (make_mnemonic : Z -> language -> option mnemonic) (phrase_of : mnemonic -> str) (unindent : str -> str).

(** Of BIP39: a mnemonic is made of its phrase, which consists of words with a space between. *)
Definition phrases_are_read (mn : mnemonic) (lang : language) (ws : list str) : Prop :=
  phrase_of mn = join_with " "%char ws /\ Forall plain_word ws /\ ws <> [] /\ mnemonic_of_phrase (phrase_of mn) lang = Some mn.

(** What is typed when the option is missing *)
Definition passphrase_answer (m : ArgMatches) (mp : str) : option (list str) :=
  match value_m m Some "mnemonic-passphrase" with
  | Some mp' => if decide (mp' = mp) then Some [] else None
  | None => Some (match mp with [] => [[]; []; []] | _ => [mp; mp] end)
  end.

Definition password_answer (m : ArgMatches) (wp : str) : option (list str) :=
  match value_m m Some "wallet-password" with
  | Some wp' => if decide (wp' = wp) then Some [] else None
  | None => match wp with [] => None | _ => Some [wp; wp] end
  end.

Definition phrase_answer (m : ArgMatches) (ws lines : list str) : Prop :=
  match values_m m Some "mnemonic" with
  | [] => exists line, lines = [line] /\ laid_out ws line
  | ws' => ws' = ws /\ lines = []
  end.

Inductive answers (m : ArgMatches) (mp wp : str) (ws : list str) : list str -> Prop :=
| answers_given l1 l2 l3 :
    passphrase_answer m mp = Some l1 -> password_answer m wp = Some l2 -> phrase_answer m ws l3 ->
    answers m mp wp ws (l1 ++ l2 ++ l3).

Definition same_options (m m' : ArgMatches) : Prop :=
  value_m m' Some "language" = value_m m Some "language" /\ value_m m' Some "consuming-wallet" = value_m m Some "consuming-wallet" /\
  value_m m' Some "earning-wallet" = value_m m Some "earning-wallet" /\ value_of m' (lit "real-user") = value_of m (lit "real-user").

Lemma recover_passphrase_typed mp rest out :
  exists out', recover_passphrase escape (mkStreams (match mp with [] => [[]; []; []] | _ => [mp; mp] end ++ rest) out) = Ret (mkStreams rest out', mp).
Proof.
  destruct mp as [|c mp]; [by eexists|].
  unfold recover_passphrase, request_mnemonic_passphrase, request_password_with_retry. cbn. rewrite bool_decide_eq_true_2 by done. by eexists.
Qed.

Lemma wallet_password_typed wp rest out : wp <> [] ->
  exists out', make_wallet_password escape (mkStreams (wp :: wp :: rest) out) = Ret (mkStreams rest out', wp).
Proof.
  destruct wp as [|c wp]; [done|]. intros _.
  unfold make_wallet_password, request_wallet_encryption_password, request_password_with_retry. cbn. rewrite bool_decide_eq_true_2 by done. by eexists.
Qed.

Lemma passphrase_answered m mp lines rest out : passphrase_answer m mp = Some lines ->
  exists out', (match value_m m Some "mnemonic-passphrase" with
                | Some mp => Ret (mkStreams (lines ++ rest) out, mp)
                | None => recover_passphrase escape (mkStreams (lines ++ rest) out)
                end) = Ret (mkStreams rest out', mp).
Proof.
  unfold passphrase_answer. destruct (value_m m Some "mnemonic-passphrase") as [mp'|].
  - destruct (decide (mp' = mp)) as [->|]; [|done]. intros [= <-]. by eexists.
  - intros [= <-]. apply recover_passphrase_typed.
Qed.

Lemma password_answered m wp lines rest out : password_answer m wp = Some lines ->
  exists out', (match value_m m Some "wallet-password" with
                | Some wp => Ret (mkStreams (lines ++ rest) out, wp)
                | None => make_wallet_password escape (mkStreams (lines ++ rest) out)
                end) = Ret (mkStreams rest out', wp).
Proof.
  unfold password_answer. destruct (value_m m Some "wallet-password") as [wp'|].
  - destruct (decide (wp' = wp)) as [->|]; [|done]. intros [= <-]. by eexists.
  - destruct wp as [|c wp]; [done|]. intros [= <-]. by apply wallet_password_typed.
Qed.

Lemma mnemonic_gotten mn lang ws m lines rest out :
  phrases_are_read mn lang ws -> phrase_answer m ws lines ->
  exists out', get_mnemonic mnemonic_of_phrase lang m (mkStreams (lines ++ rest) out) = Ret (mkStreams rest out', mn).
Proof.
  intros (Hp & Hws & _ & Hmn) Ha. unfold get_mnemonic, phrase_answer in *. destruct (values_m m Some "mnemonic") as [|w ws'].
  - destruct Ha as (line & -> & Hl). cbn. rewrite (words_laid_out ws), trim_words, <- Hp, Hmn by done. by eexists.
  - destruct Ha as [<- ->]. cbn [obind]. rewrite <- Hp, Hmn. by eexists.
Qed.

(** What [make_wallet_creation_config] found out, in the order in which it did *)
Lemma creation_steps mk_passphrase mk_seed m s s3 c :
  make_wallet_creation_config escape mk_passphrase mk_seed m s = Ret (s3, c) ->
  exists s1 mp s2 wp info seed real_user a,
    (match value_m m Some "mnemonic-passphrase" with Some mp => Ret (s, mp) | None => mk_passphrase s end) = Ret (s1, mp) /\
    (match value_m m Some "wallet-password" with Some wp => Ret (s1, wp) | None => make_wallet_password escape s1 end) = Ret (s2, wp) /\
    (match value_m m Some "earning-wallet" with Some v => earning_wallet_info v | None => Ret (Right DEFAULT_EARNING_DERIVATION_PATH) end) = Ret info /\
    mk_seed s2 mp (default DEFAULT_CONSUMING_DERIVATION_PATH (value_m m Some "consuming-wallet")) info = Ret (s3, seed) /\
    real_user_m m = Ret real_user /\
    (match info with Left a => Ret a | Right path => wallet_of_path seed path end) = Ret a /\
    c = mk_creation (Some a) (Some (mk_info seed wp (Some (default DEFAULT_CONSUMING_DERIVATION_PATH (value_m m Some "consuming-wallet")))))
          (default RealUser_null real_user).
Proof.
  unfold make_wallet_creation_config.
  intros ([s1 mp] & E1 & ([s2 wp] & E2 & (info & E3 & ([s3' seed] & E4 & (ru & E5 & (a & E6 & [= <- <-])%obind_ret_inv)%obind_ret_inv)%obind_ret_inv)%obind_ret_inv)%obind_ret_inv)%obind_ret_inv.
  by exists s1, mp, s2, wp, info, seed, ru, a.
Qed.

Lemma creation_made mk_passphrase mk_seed m s s1 mp s2 wp info s3 seed real_user a :
  (match value_m m Some "mnemonic-passphrase" with Some mp => Ret (s, mp) | None => mk_passphrase s end) = Ret (s1, mp) ->
  (match value_m m Some "wallet-password" with Some wp => Ret (s1, wp) | None => make_wallet_password escape s1 end) = Ret (s2, wp) ->
  (match value_m m Some "earning-wallet" with Some v => earning_wallet_info v | None => Ret (Right DEFAULT_EARNING_DERIVATION_PATH) end) = Ret info ->
  mk_seed s2 mp (default DEFAULT_CONSUMING_DERIVATION_PATH (value_m m Some "consuming-wallet")) info = Ret (s3, seed) ->
  real_user_m m = Ret real_user ->
  (match info with Left a => Ret a | Right path => wallet_of_path seed path end) = Ret a ->
  make_wallet_creation_config escape mk_passphrase mk_seed m s =
    Ret (s3, mk_creation (Some a) (Some (mk_info seed wp (Some (default DEFAULT_CONSUMING_DERIVATION_PATH (value_m m Some "consuming-wallet")))))
               (default RealUser_null real_user)).
Proof.
  intros E1 E2 E3 E4 E5 E6. unfold make_wallet_creation_config. rewrite E1. cbn [obind]. rewrite E2. cbn [obind]. rewrite E3. cbn [obind].
  rewrite E4. cbn [obind]. rewrite E5. cbn [obind]. unfold wallet_of_path in E6. by rewrite E6.
Qed.

(** What is shown of two wallets *)
Definition wallet_report (json : bool) (phrase path consuming : str) (info : Either str str) (earning : str) : str :=
  if json
  then unindent (wallets_object phrase path consuming
         (match info with
          | Left _ => member (lit "address") earning
          | Right p => member (lit "derivationPath") p ++ lit "," ++ newline ++ lit "                        " ++ member (lit "address") earning
          end))
  else record_phrase ++ phrase ++ newline ++ newline ++ lit "Consuming Wallet (" ++ path ++ lit "): " ++ consuming ++ newline ++
       match info with
       | Left _ => lit "  Earning Wallet: " ++ earning ++ newline
       | Right p => lit "  Earning Wallet (" ++ p ++ lit "): " ++ earning ++ newline
       end.

Definition shown_earning (seed : bytes) (info : Either str str) : outcome str :=
  match info with Left a => wallet_of_address a | Right path => wallet_of_path seed path end.

Lemma earning_is_wallet_of_path seed path : earning_wallet_of_path seed path = wallet_of_path seed path.
Proof. unfold earning_wallet_of_path, wallet_of_path. by destruct (keypair_from_raw seed path). Qed.

Lemma flushed_twice s a b : flushed_write (flushed_write s a) b = flushed_write s (a ++ b).
Proof. unfold flushed_write. cbn. by rewrite app_assoc. Qed.

Lemma ret_inj {A} (a b : A) : Ret a = Ret b -> a = b.
Proof. by intros [=]. Qed.

(** The database with another encryption of the seed *)
Definition reseeded (ems : str) (db : Db) : Db := set_config (<[SEED := Some ems]> (config db)) db.

Lemma mnemonic_seed_of db ems p : config db !! SEED = Some (Some ems) -> mnemonic_seed db p = Ret (decrypt_bytes ems p).
Proof. intros E. unfold mnemonic_seed, encrypted_mnemonic_seed, optional_string, get_string, try_get. change (lit "seed") with SEED. by rewrite E. Qed.

(** A derivation path is stored whatever encryption of the seed there is. *)
Lemma path_set_reseeded ems ems' db path p db' :
  config db !! SEED = Some (Some ems) -> decrypt_bytes ems' p = decrypt_bytes ems p ->
  set_consuming_wallet_derivation_path db path p = Ret db' ->
  config db' !! SEED = Some (Some ems) /\ set_consuming_wallet_derivation_path (reseeded ems' db) path p = Ret (reseeded ems' db').
Proof.
  intros Hs Hd. unfold set_consuming_wallet_derivation_path.
  rewrite (mnemonic_seed_of _ _ p Hs), (mnemonic_seed_of (reseeded ems' db) ems' p) by (cbn; by rewrite lookup_insert_eq). rewrite Hd.
  assert (forall n, n <> SEED -> get_string (reseeded ems' db) n = get_string db n) as Hg
    by (intros n Hn; unfold get_string, try_get; cbn; by rewrite lookup_insert_ne).
  rewrite !Hg by done. destruct (get_string db KEY) as [k|[| |]], (get_string db PATH) as [q|[| |]]; try done.
  - cbn [obind]. intros (sd & E1 & (kp & E3 & E)%obind_ret_inv)%obind_ret_inv.
    rewrite E1. cbn [obind]. rewrite E3. cbn [obind]. case_bool_decide; [|done]. by injection E as <-.
  - case_bool_decide; [|done]. by intros [= <-].
  - unfold set_string, config_try_update. cbn [config reseeded set_config]. rewrite lookup_insert_ne by done.
    destruct (config db !! PATH); [|done]. intros [= <-]. split; [cbn; by rewrite lookup_insert_ne by done|].
    cbn. unfold reseeded, set_config. cbn. do 2 f_equal. apply insert_insert_ne. done.
Qed.

(** Creating wallets stores an encryption of the seed; had other bytes been drawn, nothing but that encryption would be different. *)
Lemma created_with_any_draw `{!SeedLaws} draw c db db' seed password path_opt :
  derivation_path_info_opt c = Some (mk_info seed password path_opt) -> create_wallet draw c db = Ret db' ->
  exists ems, encrypt_bytes draw seed password = Ok ems /\ config db' !! SEED = Some (Some ems) /\
    forall draw', exists ems', encrypt_bytes draw' seed password = Ok ems' /\
      create_wallet draw' c db = Ret (reseeded ems' db').
Proof.
  intros Hi (db1 & E1 & E)%obind_ret_inv. rewrite Hi in E. cbn [info_mnemonic_seed info_wallet_password consuming_derivation_path_opt] in E. apply obind_ret_inv in E as (db2 & (ems & Ee%expect_ok_ret & E2%expect_ok_ret)%obind_ret_inv & E).
  exists ems. apply set_string_ok in E2 as [Hrow ->].
  assert (forall ems', reseeded ems' (reseeded ems db1) = reseeded ems' db1) as Hre by (intros ems'; unfold reseeded, set_config; cbn; by rewrite insert_insert_eq).
  assert (config (reseeded ems db1) !! SEED = Some (Some ems)) as Hs by (cbn; by rewrite lookup_insert_eq).
  change (set_config _ db1) with (reseeded ems db1) in E.
  assert (config db' !! SEED = Some (Some ems) /\ forall ems', decrypt_bytes ems' password = decrypt_bytes ems password ->
    match path_opt with
    | Some path => set_consuming_wallet_derivation_path (reseeded ems' db1) path password
    | None => Ret (reseeded ems' db1)
    end = Ret (reseeded ems' db')) as [Hs' Hc].
  { destruct (path_opt) as [path|]; [|injection E as <-; split; [done|intros ems' _; by rewrite Hre]].
    split; [by eapply (path_set_reseeded ems ems)|]. intros ems' Hd. rewrite <- Hre. by eapply path_set_reseeded. }
  split_and!; [done..|]. intros draw'. destruct (seed_encrypts _ draw' _ _ _ Ee) as [ems' Ee']. exists ems'. split; [done|].
  unfold create_wallet. rewrite E1. cbn [obind]. rewrite Hi. cbn [info_mnemonic_seed info_wallet_password consuming_derivation_path_opt]. unfold set_mnemonic_seed. rewrite Ee'. cbn [expect_ok obind].
  unfold set_string, config_try_update. change (lit "seed") with SEED in *. destruct Hrow as [v ->]. cbn [or_panic expect_ok obind].
  apply Hc. by rewrite (seed_decrypts _ _ _ _ Ee), (seed_decrypts _ _ _ _ Ee').
Qed.

Lemma report_shows s phrase seed path info json s' :
  report_wallet_information unindent s phrase seed path info json = Ret s' ->
  exists consuming earning, wallet_of_path seed path = Ret consuming /\ shown_earning seed info = Ret earning /\
    s' = flushed_write s (wallet_report json phrase path consuming info earning).
Proof.
  unfold report_wallet_information. intros (consuming & Ec & E)%obind_ret_inv. exists consuming.
  destruct json; apply obind_ret_inv in E as (text & Et & <-%ret_inj);
    (destruct info as [a|p]; apply obind_ret_inv in Et as (w & Ew & <-%ret_inj); rewrite ?earning_is_wallet_of_path in Ew; exists w;
     (split_and!; [done..|]); unfold wallet_report; rewrite ?flushed_twice; by rewrite <- ?app_assoc).
Qed.
End recovery.

(** ** Properties *)

(** C33: wallets that were generated can be recovered. When generating wallets succeeds, what it has written last is the mnemonic
    phrase with the addresses of the consuming wallet, which the seed of that phrase and the passphrase leads to, and of the earning
    wallet that is configured; the database holds the seed, encrypted under the password with the random bytes that were drawn. Whoever
    recovers wallets then, in a database like the one before, with the same language, paths and real
    user, and gives the words of that phrase, the passphrase and the password, each on the command line or at the console, and the
    words there with any white space around them, gets the same configuration and, whatever is drawn this time, the same database but for the row
    of the seed: it is encrypted anew, and the password decrypts the same seed from either row. What else there is to read is left there.
    Assumed: encryption succeeds for all draws or for none, and the password decrypts what it encrypted. *)
Theorem generated_wallets_are_recovered `{!Sqlite} `{!ConfigLib} `{!SeedLaws} `{!EthSign} `{!StartupLib} escape {language mnemonic : Type}
    (language_from_name : str -> option language) (mnemonic_of_phrase : str -> language -> option mnemonic) seed_of make_mnemonic phrase_of unindent draw m s db s1 c db' :
  (forall n lang mn, make_mnemonic n lang = Some mn -> exists ws, phrases_are_read mnemonic_of_phrase phrase_of mn lang ws) ->
  generate_wallet escape language_from_name seed_of make_mnemonic phrase_of unindent draw m s db = Ret (s1, c, db') ->
  exists lang mn ws mp wp path info consuming earning ems,
    (exists name n, value_m m Some "language" = Some name /\ language_from_name name = Some lang /\
       value_m m (parse_uint 64) "word-count" = Some n /\ make_mnemonic n lang = Some mn) /\
    phrases_are_read mnemonic_of_phrase phrase_of mn lang ws /\
    (value_m m Some "mnemonic-passphrase" = Some mp \/ exists s0, generate_passphrase escape s = Ret (s0, mp)) /\
    derivation_path_info_opt c = Some (mk_info (seed_of mn mp) wp (Some path)) /\
    (exists out, stdout s1 = out ++ wallet_report unindent (flag_is_present m "json") (phrase_of mn) path consuming info earning) /\
    wallet_of_path (seed_of mn mp) path = Ret consuming /\
    match info with
    | Left a => earning_wallet_address_opt c = Some a /\ wallet_of_address a = Ret earning
    | Right p => earning_wallet_address_opt c = Some earning /\ wallet_of_path (seed_of mn mp) p = Ret earning
    end /\
    encrypt_bytes draw (seed_of mn mp) wp = Ok ems /\ config db' !! SEED = Some (Some ems) /\ mnemonic_seed db' wp = Ret (Ok (seed_of mn mp)) /\
    forall draw' m' lines rest out, same_options m m' -> answers m' mp wp ws lines ->
      exists out' ems', encrypt_bytes draw' (seed_of mn mp) wp = Ok ems' /\
        recover_wallet escape language_from_name mnemonic_of_phrase seed_of draw' m' (mkStreams (lines ++ rest) out) db =
          Ret (mkStreams rest out', c, set_config (<[SEED := Some ems']> (config db')) db') /\
        mnemonic_seed (set_config (<[SEED := Some ems']> (config db')) db') wp = Ret (Ok (seed_of mn mp)).
Proof.
  intros Hlaw. unfold generate_wallet. intros ([s1' c'] & Ec & E)%obind_ret_inv. apply obind_ret_inv in Ec as ([e|] & Hems & Ec); [done|].
  apply obind_ret_inv in E as (d & Ed & [= -> -> ->]).
  apply creation_steps in Ec as (sa & mp & sb & wp & info & seed & ru & a & E1 & E2 & E3 & E4 & E5 & E6 & ->).
  unfold generate_seed in E4. apply obind_ret_inv in E4 as (name & Hname & E4). apply obind_ret_inv in E4 as (lang & Hlang & E4).
  apply obind_ret_inv in E4 as (n & Hn & E4). apply obind_ret_inv in E4 as (mn & Hmn & E4). apply obind_ret_inv in E4 as (s3 & Hr & [= -> <-]).
  apply expect_ret in Hmn, Hname as Hname', Hlang as Hlang', Hn. destruct (Hlaw _ _ _ Hmn) as [ws Hws]. apply report_shows in Hr as (consuming & earning & Hc & He & ->).
  eapply created_with_any_draw in Ed as (ems & Ee & Hrow & Hdraw); [|reflexivity].
  exists lang, mn, ws, mp, wp, (default DEFAULT_CONSUMING_DERIVATION_PATH (value_m m Some "consuming-wallet")), info, consuming, earning, ems.
  split_and!; [by exists name, n|done| |done|by eexists|done| |done|done|by rewrite (mnemonic_seed_of _ _ _ Hrow), (seed_decrypts _ _ _ _ Ee)|].
  - destruct (value_m m Some "mnemonic-passphrase"); [injection E1 as _ <-; by left|right; by eexists].
  - destruct info as [b|p]; cbn in He, E6; [injection E6 as <-; done|]. rewrite He in E6. injection E6 as <-. done.
  - intros draw' m' lines rest out (Ol & Oc & Oe & Or) Ha. destruct (Hdraw draw') as (ems' & Ee' & Ed'). destruct Ha as [l1 l2 l3 A1 A2 A3]. unfold recover_wallet, recover_parse_args. rewrite Hems. cbn [obind].
    rewrite <- !app_assoc. destruct (passphrase_answered escape m' mp l1 (l2 ++ l3 ++ rest) out A1) as [out1 F1].
    destruct (password_answered escape m' wp l2 (l3 ++ rest) out1 A2) as [out2 F2].
    destruct (mnemonic_gotten mnemonic_of_phrase phrase_of mn lang ws m' l3 rest out2 Hws A3) as [out3 F3]. exists out3, ems'.
    split_and!; [done| |rewrite (mnemonic_seed_of _ ems') by (cbn; by rewrite lookup_insert_eq); by rewrite (seed_decrypts _ _ _ _ Ee')].
    erewrite creation_made; [cbn [obind]; rewrite Oc, Ed'; reflexivity|exact F1|exact F2|by rewrite Oe| |unfold real_user_m; by rewrite Or|exact E6].
    unfold recover_seed. rewrite Ol, Hname. cbn [obind]. rewrite Hlang. cbn [obind]. by rewrite F3.
Qed.

(** Mnemonics of three words, whose seed is their text and the passphrase's *)
Definition toy_words : list str := [lit "legal"; lit "winner"; lit "thank"].

Definition toy_seed_of (mn : list str) (passphrase : str) : bytes := map ascii_code (concat mn ++ passphrase).

Definition toy_generate : outcome (StdStreams * WalletCreationConfig * @Db toy_sqlite) :=
  @generate_wallet toy_sqlite toy_wallet_lib toy_eth toy_startup_lib (fun s => s) str (list str) Some toy_seed_of
    (fun _ _ => Some toy_words) (join_with " "%char) (fun s => s) [11; 12] (toy_matches [("language", "English"); ("word-count", "12")]%string)
    (mkStreams (map lit ["x"; "x"; "pw"; "pw"]%string) []) (@create_database_tables toy_sqlite 1 5000).

Definition toy_recover (db : @Db toy_sqlite) : outcome (StdStreams * WalletCreationConfig * @Db toy_sqlite) :=
  @recover_wallet toy_sqlite toy_wallet_lib toy_eth toy_startup_lib (fun s => s) str (list str) Some
    (fun p _ => Some (split_on " "%char p)) toy_seed_of [21; 22] (toy_matches [("language", "English"); ("wallet-password", "pw")]%string)
    (mkStreams (map lit ["x"; "x"; " legal  winner thank "; "more"]%string) []) db.

Definition password_is (password : str) (o : outcome (StdStreams * WalletCreationConfig * @Db toy_sqlite)) : bool :=
  match o with
  | Ret (_, c, _) => match derivation_path_info_opt c with Some i => bool_decide (info_wallet_password i = password) | None => false end
  | _ => false
  end.

Lemma generated_wallets_are_recovered_witness :
  exists s1 c db' out' ems', toy_generate = Ret (s1, c, db') /\
    toy_recover (@create_database_tables toy_sqlite 1 5000) = Ret (mkStreams [lit "more"] out', c, set_config (<[SEED := Some ems']> (config db')) db') /\
    config db' !! SEED <> Some (Some ems').
Proof.
  assert (password_is (lit "pw") toy_generate = true) as Hpw by (vm_compute; reflexivity).
  destruct toy_generate as [[[s1 c] db']| |] eqn:E; [|discriminate Hpw..].
  assert (forall lang, phrases_are_read (fun p (_ : str) => Some (split_on " "%char p)) (join_with " "%char) toy_words lang toy_words) as Hread
    by (intros lang; split_and!; [done|by repeat constructor|done|reflexivity]).
  destruct (@generated_wallets_are_recovered toy_sqlite toy_wallet_lib toy_seed_laws toy_eth toy_startup_lib (fun s => s) str (list str) Some
    (fun p _ => Some (split_on " "%char p)) toy_seed_of (fun _ _ => Some toy_words) (join_with " "%char) (fun s => s) [11; 12]
    (toy_matches [("language", "English"); ("word-count", "12")]%string) (mkStreams (map lit ["x"; "x"; "pw"; "pw"]%string) [])
    (@create_database_tables toy_sqlite 1 5000) s1 c db') as
    (lang & mn & ws & mp & wp & path & info & consuming & earning & ems & (name & n & _ & _ & _ & [= <-]) & (Hp & Hplain & Hne & _) & Hmp & Hinfo & _ & _ & _ & Ee & Hrow & _ & H);
    [by intros n lang mn [= <-]; exists toy_words|exact E|].
  assert (ws = toy_words) as ->.
  { rewrite <- (split_on_join " "%char ws), <- Hp; [reflexivity|done|]. eapply Forall_impl; [exact Hplain|].
    intros w [_ Hw] Hin. rewrite Forall_forall in Hw. by apply Hw in Hin. }
  assert (mp = lit "x") as ->.
  { destruct Hmp as [[=]|(s0 & Hmp)]. unfold generate_passphrase in Hmp. vm_compute in Hmp. by injection Hmp. }
  unfold password_is in Hpw. rewrite Hinfo in Hpw. apply bool_decide_eq_true in Hpw. cbn in Hpw. subst wp.
  destruct (H [21; 22] (toy_matches [("language", "English"); ("wallet-password", "pw")]%string)
    ([lit "x"; lit "x"] ++ [] ++ [lit " legal  winner thank "]) [lit "more"] []) as (out' & ems' & Ee' & Hout & _); [by repeat split| |].
  - constructor; [reflexivity|reflexivity|]. exists (lit " legal  winner thank "). split; [done|].
    apply (laid_out_word (lit " ") (lit "legal") _ (lit "  winner thank ")); [by repeat constructor| |done].
    apply (laid_out_word (lit "  ") (lit "winner") _ (lit " thank ")); [by repeat constructor| |done].
    apply (laid_out_word (lit " ") (lit "thank") _ (lit " ")); [by repeat constructor| |done]. constructor. by repeat constructor.
  - exists s1, c, db', out', ems'. split; [reflexivity|split; [exact Hout|]]. rewrite Hrow. vm_compute in Ee, Ee'. injection Ee as <-. injection Ee' as <-. done.
Defined.
