(* ===== verification/Serialization.v ===== *)
(** * Serialization: what travels between Nodes, below the level of messages

    The implementations of [Serialize] and [Deserialize] that are written out in sub_lib/wallet.rs, cryptde.rs and
    stream_key.rs, and those that serde_derive makes for a Node's record (neighborhood/node_record.rs) and what is
    in it. A data format is known by the three things the code can observe of it: whether it is human readable,
    whether the fields of a struct go by name or by number, and whether it has strings of bytes; [value] is serde's data model as far as it is used
    here. What [serde_cbor] makes of a value in bytes, and the text of an address (ethereum-types), are
    left open. *)
From S2P Require Import Prelude Text SubLib Cryptde Utils Wallet Route SequenceBuffer Messages Database.

(** ** The data model *)
Inductive value :=
| VU64 (n : Z)
| VBool (b : bool)
| VBytes (b : bytes)
| VText (s : str)
| VSeq (l : list value)
| VMap (l : list (value * value)).

Record format := mkFormat { is_human_readable : bool; fields_by_number : bool; has_bytes : bool }.

(** serde_cbor, as [to_vec] and [from_slice] use it, and serde_json, which writes bytes as an array of numbers *)
Definition cbor : format := mkFormat false false true.
Definition json : format := mkFormat true false false.

Inductive de_error := InvalidType | InvalidValue | InvalidLength | DuplicateField | MissingField | UnknownHash.

(** Reading a value can fail, or panic. *)
Abbreviation de A := (outcome (result A de_error)).

Definition ok {A} (a : A) : de A := Ret (Ok a).
Definition fail {A} (e : de_error) : de A := Ret (Err e).

Definition dbind {A B} (c : de A) (k : A -> de B) : de B :=
  let* r := c in match r with Ok a => k a | Err e => fail e end.

Notation "'let+' p ':=' c 'in' k" := (dbind c (fun p => k))
  (at level 10, p pattern, c at level 100, k at level 200) : node_scope.

Fixpoint read_all {A} (read : value -> de A) (l : list value) : de (list A) :=
  match l with
  | [] => ok []
  | v :: l' => let+ a := read v in let+ r := read_all read l' in ok (a :: r)
  end.

(** ** Simple values *)
(** [serialize_bytes] *)
Definition write_bytes (f : format) (b : bytes) : value := if has_bytes f then VBytes b else VSeq (map VU64 b).

(** [deserialize_bytes] with a visitor that only has [visit_bytes]: without strings of bytes, it is given the bytes of a text, and
    refuses an array *)
Definition read_bytes {A} (f : format) (visit_bytes : bytes -> de A) (v : value) : de A :=
  match v with
  | VBytes b => if has_bytes f then visit_bytes b else fail InvalidType
  | VText s => if has_bytes f then fail InvalidType else visit_bytes (map ascii_code s)
  | _ => fail InvalidType
  end.

Definition key_serialize (f : format) (self : PublicKey) : value := write_bytes f (key_data self).
Definition key_visit_bytes (v : bytes) : de PublicKey := ok (mkPublicKey v).
Definition key_deserialize (f : format) : value -> de PublicKey := read_bytes f key_visit_bytes.

Definition crypt_data_serialize (f : format) (self : CryptData) : value := write_bytes f (crypt_data self).
Definition crypt_data_visit_bytes (v : bytes) : de CryptData := ok (mkCryptData v).
Definition crypt_data_deserialize (f : format) : value -> de CryptData := read_bytes f crypt_data_visit_bytes.

Definition plain_data_serialize (f : format) (self : PlainData) : value := write_bytes f (plain_data self).
Definition plain_data_visit_bytes (v : bytes) : de PlainData := ok (mkPlainData v).
Definition plain_data_deserialize (f : format) : value -> de PlainData := read_bytes f plain_data_visit_bytes.

(** A stream key is a SHA-1 hash; its length is checked. *)
Definition DIGEST_LENGTH : nat := 20.
Definition stream_key_serialize (f : format) (self : StreamKey) : value := write_bytes f (stream_hash self).
Definition stream_key_visit_bytes (v : bytes) : de StreamKey :=
  if negb (length v =? DIGEST_LENGTH)%nat then fail UnknownHash else ok (mkStreamKey v).
Definition stream_key_deserialize (f : format) : value -> de StreamKey := read_bytes f stream_key_visit_bytes.

(** A packet (sequence_buffer.rs) is one string of bytes. *)
Definition packet_serialize (f : format) (self : SequencedPacket) : value := write_bytes f (Wire.serialize self).
Definition packet_deserialize (f : format) : value -> de SequencedPacket :=
  read_bytes f (fun v => let* r := Wire.visit_bytes v in match r with Some p => ok p | None => fail InvalidValue end).

Definition read_uint (w : Z) (v : value) : de Z :=
  match v with VU64 n => if uintb w n then ok n else fail InvalidValue | _ => fail InvalidType end.

Definition read_bool (v : value) : de bool := match v with VBool b => ok b | _ => fail InvalidType end.

(** A sequence, as [Vec] and [BTreeSet] read it *)
Definition read_seq {A} (read : value -> de A) (v : value) : de (list A) :=
  match v with VSeq l => read_all read l | _ => fail InvalidType end.

Definition component_serialize (self : Component) : value := VU64 (component_to_u8 self).
Definition component_deserialize (v : value) : de Component :=
  let+ n := read_uint 8 v in match component_visit_u8 n with Some c => ok c | None => fail InvalidValue end.

Definition is_set {A} (o : option A) : bool := match o with Some _ => true | None => false end.

(** ** Structs

    A field has a name, a test of whether it was read already, and what reading it adds to what was read. *)
Record field (P : Type) := mkField { field_name : str; field_is_set : P -> bool; field_read : value -> P -> de P }.
Arguments mkField {P}.
Arguments field_name {P}.
Arguments field_is_set {P}.
Arguments field_read {P}.

Definition find_field {P} (same : str -> bool) (fields : list (field P)) : option (field P) :=
  head (filter (fun f => same (field_name f) = true) fields).

(** The identifier of a field is its name, as text or as bytes, or its number; a field of another name is ignored. *)
Definition field_at {P} (fields : list (field P)) (k : value) : de (option (field P)) :=
  match k with
  | VU64 n => match fields !! Z.to_nat n with
              | Some f => if 0 <=? n then ok (Some f) else fail InvalidValue
              | None => fail InvalidValue
              end
  | VText s => ok (find_field (fun name => bool_decide (name = s)) fields)
  | VBytes b => ok (find_field (fun name => bool_decide (map ascii_code name = b)) fields)
  | _ => fail InvalidType
  end.

Section structs.
Context {P T : Type} (fields : list (field P)) (finish : P -> result T de_error).

Fixpoint visit_map (entries : list (value * value)) (p : P) : de T :=
  match entries with
  | [] => Ret (finish p)
  | (k, v) :: entries' =>
      let+ f := field_at fields k in
      match f with
      | Some f =>
          if field_is_set f p then fail DuplicateField
          else let+ p' := field_read f v p in visit_map entries' p'
      | None => visit_map entries' p
      end
  end.

(** A sequence has the fields in their order, and nothing else. *)
Fixpoint visit_seq (fs : list (field P)) (vs : list value) (p : P) : de T :=
  match fs, vs with
  | [], [] => Ret (finish p)
  | [], _ :: _ | _ :: _, [] => fail InvalidLength
  | f :: fs', v :: vs' => let+ p' := field_read f v p in visit_seq fs' vs' p'
  end.

Definition read_struct (empty : P) (v : value) : de T :=
  match v with
  | VMap entries => visit_map entries empty
  | VSeq vs => visit_seq fields vs empty
  | _ => fail InvalidType
  end.
End structs.

(** [serialize_struct], a [serialize_field] per field, and [end] *)
Definition write_struct (f : format) (fields : list (str * value)) : value :=
  VMap (imap (fun i x => (if fields_by_number f then VU64 (Z.of_nat i) else VText x.1, x.2)) fields).

(** ** Wallets *)
(** An address as text (ethereum-types) *)
Class AddressText := {
  address_text : bytes -> str;
  address_of_text : str -> option bytes
}.
Class AddressTextOk `{!AddressText} : Prop := {
  address_text_read a : length a = 20%nat -> bytes_ok a -> address_of_text (address_text a) = Some a
}.

Section wallets.
Context `{!EthSign} `{!AddressText}.

Definition read_address (v : value) : de bytes :=
  match v with
  | VText s => match address_of_text s with Some a => ok a | None => fail InvalidValue end
  | _ => fail InvalidType
  end.

Definition ADDRESS : str := lit "address".

Definition wallet_serialize (f : format) (self : Wallet) : outcome value :=
  let* a := address self in
  Ret (write_struct f [(ADDRESS, if is_human_readable f then VText (address_text a) else VSeq (map VU64 a))]).

(** [copy_from_slice] into an array of 20 bytes *)
Definition address_from_slice (b : bytes) : de bytes := if (length b =? 20)%nat then ok b else Panic.

(** What [visit_map] does with the field; in a sequence it is read as an [Address] whatever the format. *)
Definition wallet_address_field (f : format) : field (option bytes) :=
  mkField ADDRESS (fun p => is_set p)
    (fun v _ => if is_human_readable f then let+ a := read_address v in ok (Some a)
                else let+ b := read_seq (read_uint 8) v in let+ a := address_from_slice b in ok (Some a)).

Definition wallet_finish (p : option bytes) : result Wallet de_error :=
  match p with Some a => Ok (mkWallet (Address a)) | None => Err MissingField end.

Definition wallet_deserialize (f : format) (v : value) : de Wallet :=
  match v with
  | VSeq [] => fail InvalidLength
  | VSeq (v :: vs) =>
      let+ a := read_address v in
      match vs with [] => ok (mkWallet (Address a)) | _ :: _ => fail InvalidLength end
  | VMap entries => visit_map [wallet_address_field f] wallet_finish entries None
  | _ => fail InvalidType
  end.

(** In the database a wallet is the text of its address; ToSql and FromSql *)
Definition wallet_to_sql (self : Wallet) : outcome str := let* a := address self in Ret (address_text a).
Definition wallet_column_result (v : value) : result Wallet de_error :=
  match v with
  | VText s => match address_of_text s with Some a => Ok (mkWallet (Address a)) | None => Err InvalidValue end
  | _ => Err InvalidType
  end.
End wallets.

(** ** The record of a Node

    What serde_derive makes of [RatePack], [DataVersion] and [NodeRecordInner] *)
Definition rate_pack_serialize (f : format) (self : RatePack) : value :=
  write_struct f [(lit "routing_byte_rate", VU64 (routing_byte_rate self)); (lit "routing_service_rate", VU64 (routing_service_rate self));
                  (lit "exit_byte_rate", VU64 (exit_byte_rate self)); (lit "exit_service_rate", VU64 (exit_service_rate self))].

(** What was read of a rate pack: each of its rates, or nothing yet *)
Record rates_read := mkRates { rr_routing_byte : option Z; rr_routing : option Z; rr_exit_byte : option Z; rr_exit : option Z }.

Definition rate_pack_fields : list (field rates_read) :=
  [mkField (lit "routing_byte_rate") (fun p => is_set (rr_routing_byte p))
     (fun v p => let+ n := read_uint 64 v in ok (mkRates (Some n) (rr_routing p) (rr_exit_byte p) (rr_exit p)));
   mkField (lit "routing_service_rate") (fun p => is_set (rr_routing p))
     (fun v p => let+ n := read_uint 64 v in ok (mkRates (rr_routing_byte p) (Some n) (rr_exit_byte p) (rr_exit p)));
   mkField (lit "exit_byte_rate") (fun p => is_set (rr_exit_byte p))
     (fun v p => let+ n := read_uint 64 v in ok (mkRates (rr_routing_byte p) (rr_routing p) (Some n) (rr_exit p)));
   mkField (lit "exit_service_rate") (fun p => is_set (rr_exit p))
     (fun v p => let+ n := read_uint 64 v in ok (mkRates (rr_routing_byte p) (rr_routing p) (rr_exit_byte p) (Some n)))].

Definition rate_pack_finish (p : rates_read) : result RatePack de_error :=
  match p with
  | mkRates (Some a) (Some b) (Some c) (Some d) => Ok (mkRatePack a b c d)
  | _ => Err MissingField
  end.

Definition rate_pack_deserialize : value -> de RatePack :=
  read_struct rate_pack_fields rate_pack_finish (mkRates None None None None).

(** A newtype around an array of three bytes *)
Definition data_version_serialize (self : DataVersion.DataVersion) : value :=
  VSeq [VU64 (DataVersion.byte0 self); VU64 (DataVersion.byte1 self); VU64 (DataVersion.byte2 self)].

Definition data_version_deserialize (v : value) : de DataVersion.DataVersion :=
  let+ l := read_seq (read_uint 8) v in
  match l with [a; b; c] => ok (DataVersion.mk a b c) | _ => fail InvalidLength end.

(** A [BTreeSet] is written in the order of its elements. *)
Fixpoint bytes_le (a b : bytes) : bool :=
  match a, b with
  | [], _ => true
  | _ :: _, [] => false
  | x :: a', y :: b' => (x <? y) || ((x =? y) && bytes_le a' b')
  end.

Definition key_le (a b : PublicKey) : Prop := bytes_le (key_data a) (key_data b) = true.
#[global] Instance key_le_dec a b : Decision (key_le a b).
Proof. unfold key_le. apply _. Defined.

Definition in_key_order (s : gset PublicKey) : list PublicKey := merge_sort key_le (elements s).

Record inner_read := mkInnerRead {
  ir_data_version : option DataVersion.DataVersion; ir_public_key : option PublicKey; ir_earning_wallet : option Wallet;
  ir_rate_pack : option RatePack; ir_neighbors : option (gset PublicKey); ir_accepts_connections : option bool;
  ir_routes_data : option bool; ir_version : option Z }.

Definition nothing_read : inner_read := mkInnerRead None None None None None None None None.

Section records.
Context `{!EthSign} `{!AddressText}.

(** The fields as they are written, with the wallet as [wallet] *)
Definition inner_value (f : format) (self : NodeRecordInner) (wallet : value) : value :=
  write_struct f
    [(lit "data_version", data_version_serialize (data_version self)); (lit "public_key", key_serialize f (ni_public_key self));
     (lit "earning_wallet", wallet); (lit "rate_pack", rate_pack_serialize f (ni_rate_pack self));
     (lit "neighbors", VSeq (map (key_serialize f) (in_key_order (ni_neighbors self))));
     (lit "accepts_connections", VBool (ni_accepts_connections self)); (lit "routes_data", VBool (ni_routes_data self));
     (lit "version", VU64 (ni_version self))].

Definition inner_serialize (f : format) (self : NodeRecordInner) : outcome value :=
  let* wallet := wallet_serialize f (ni_earning_wallet self) in Ret (inner_value f self wallet).

Definition inner_fields (f : format) : list (field inner_read) :=
  [mkField (lit "data_version") (fun p => is_set (ir_data_version p))
     (fun v p => let+ x := data_version_deserialize v in
        ok (mkInnerRead (Some x) (ir_public_key p) (ir_earning_wallet p) (ir_rate_pack p) (ir_neighbors p) (ir_accepts_connections p) (ir_routes_data p) (ir_version p)));
   mkField (lit "public_key") (fun p => is_set (ir_public_key p))
     (fun v p => let+ x := key_deserialize f v in
        ok (mkInnerRead (ir_data_version p) (Some x) (ir_earning_wallet p) (ir_rate_pack p) (ir_neighbors p) (ir_accepts_connections p) (ir_routes_data p) (ir_version p)));
   mkField (lit "earning_wallet") (fun p => is_set (ir_earning_wallet p))
     (fun v p => let+ x := wallet_deserialize f v in
        ok (mkInnerRead (ir_data_version p) (ir_public_key p) (Some x) (ir_rate_pack p) (ir_neighbors p) (ir_accepts_connections p) (ir_routes_data p) (ir_version p)));
   mkField (lit "rate_pack") (fun p => is_set (ir_rate_pack p))
     (fun v p => let+ x := rate_pack_deserialize v in
        ok (mkInnerRead (ir_data_version p) (ir_public_key p) (ir_earning_wallet p) (Some x) (ir_neighbors p) (ir_accepts_connections p) (ir_routes_data p) (ir_version p)));
   mkField (lit "neighbors") (fun p => is_set (ir_neighbors p))
     (fun v p => let+ x := read_seq (key_deserialize f) v in
        ok (mkInnerRead (ir_data_version p) (ir_public_key p) (ir_earning_wallet p) (ir_rate_pack p) (Some (list_to_set x)) (ir_accepts_connections p) (ir_routes_data p) (ir_version p)));
   mkField (lit "accepts_connections") (fun p => is_set (ir_accepts_connections p))
     (fun v p => let+ x := read_bool v in
        ok (mkInnerRead (ir_data_version p) (ir_public_key p) (ir_earning_wallet p) (ir_rate_pack p) (ir_neighbors p) (Some x) (ir_routes_data p) (ir_version p)));
   mkField (lit "routes_data") (fun p => is_set (ir_routes_data p))
     (fun v p => let+ x := read_bool v in
        ok (mkInnerRead (ir_data_version p) (ir_public_key p) (ir_earning_wallet p) (ir_rate_pack p) (ir_neighbors p) (ir_accepts_connections p) (Some x) (ir_version p)));
   mkField (lit "version") (fun p => is_set (ir_version p))
     (fun v p => let+ x := read_uint 32 v in
        ok (mkInnerRead (ir_data_version p) (ir_public_key p) (ir_earning_wallet p) (ir_rate_pack p) (ir_neighbors p) (ir_accepts_connections p) (ir_routes_data p) (Some x)))].

Definition inner_finish (p : inner_read) : result NodeRecordInner de_error :=
  match p with
  | mkInnerRead (Some a) (Some b) (Some c) (Some d) (Some e) (Some f) (Some g) (Some h) => Ok (mkInner a b c d e f g h)
  | _ => Err MissingField
  end.

Definition inner_deserialize (f : format) : value -> de NodeRecordInner :=
  read_struct (inner_fields f) inner_finish nothing_read.
End records.

(** *** Hashing

    What a wallet gives to a [Hasher] *)
Inductive hashed := HInt (n : Z) | HBytes (b : bytes).

Definition keypair_hash (k : Bip32ECKeyPair) : list hashed := [HBytes (kp_public k)].

Definition wallet_kind_hash (self : WalletKind) : list hashed :=
  match self with
  | Address a => [HInt 1; HBytes a]
  | KeyPair k => HInt 2 :: keypair_hash k
  | WPublicKey public => [HInt 3; HBytes public]
  | Uninitialized => [HInt 4]
  end.

(** ** Reading back what was written *)
Lemma dbind_ok {A B} (a : A) (k : A -> de B) : dbind (ok a) k = k a.
Proof. done. Qed.

Lemma dbind_panic {A B} (c : de A) (k : A -> de B) :
  dbind c k = Panic -> c = Panic \/ exists a, c = ok a /\ k a = Panic.
Proof. destruct c as [[a|e]| |]; cbn; [right; by exists a|done|by left|done]. Qed.

Lemma read_all_back {A B} (read : value -> de A) (write : B -> value) (back : B -> A) l :
  Forall (fun x => read (write x) = ok (back x)) l -> read_all read (map write l) = ok (map back l).
Proof. induction 1 as [|x l Hx _ IH]; cbn [map read_all]; [done|]. by rewrite Hx, dbind_ok, IH. Qed.

Lemma read_uint_back w n : uint w n -> read_uint w (VU64 n) = ok n.
Proof. intros Hn. unfold read_uint. by rewrite (proj2 (uintb_uint w n) Hn). Qed.

Lemma read_bytes_back l : bytes_ok l -> read_seq (read_uint 8) (VSeq (map VU64 l)) = ok l.
Proof.
  intros Hl. cbn [read_seq]. rewrite (read_all_back _ _ id), map_id; [done|].
  eapply Forall_impl; [exact Hl|]. intros n. apply read_uint_back.
Qed.

Lemma key_back f k : has_bytes f = true -> key_deserialize f (key_serialize f k) = ok k.
Proof. intros Hf. unfold key_deserialize, key_serialize, write_bytes, read_bytes. rewrite !Hf. by destruct k. Qed.

(** Written as an array, a key is refused. *)
Lemma key_refused f k : has_bytes f = false -> key_deserialize f (key_serialize f k) = fail InvalidType.
Proof. intros Hf. unfold key_deserialize, key_serialize, write_bytes. by rewrite Hf. Qed.

Lemma read_keys_back f l : has_bytes f = true -> read_seq (key_deserialize f) (VSeq (map (key_serialize f) l)) = ok l.
Proof.
  intros Hf. cbn [read_seq]. rewrite (read_all_back _ _ id), map_id; [done|]. apply Forall_forall. intros k _. by apply key_back.
Qed.

Lemma data_version_back v : DataVersion.wf v -> data_version_deserialize (data_version_serialize v) = ok v.
Proof.
  destruct v as [a b c]. intros (Ha & Hb & Hc). unfold data_version_deserialize, data_version_serialize. cbn [DataVersion.byte0 DataVersion.byte1 DataVersion.byte2] in *.
  change [VU64 a; VU64 b; VU64 c] with (map VU64 [a; b; c]). by rewrite read_bytes_back by (unfold bytes_ok; by rewrite !Forall_cons, Forall_nil).
Qed.

(** Fields that are written in order are read in order, by name or by number. *)
Section written.
Context {P T : Type} (fields : list (field P)) (finish : P -> result T de_error).
Hypothesis names_differ : NoDup (map field_name fields).

Fixpoint read_in_order (fs : list (field P)) (vs : list value) (p : P) : de T :=
  match fs, vs with
  | f :: fs', v :: vs' => if field_is_set f p then fail DuplicateField else let+ p' := field_read f v p in read_in_order fs' vs' p'
  | _, _ => Ret (finish p)
  end.

Lemma field_found i fd : fields !! i = Some fd -> find_field (fun name => bool_decide (name = field_name fd)) fields = Some fd.
Proof.
  unfold find_field. revert i. induction fields as [|g gs IH]; intros i Hi; [done|]. cbn [map] in names_differ.
  apply NoDup_cons in names_differ as [Hg Hgs]. rewrite filter_cons. destruct i as [|i].
  - injection Hi as ->. rewrite decide_True by (by rewrite bool_decide_eq_true). done.
  - cbn in Hi. rewrite decide_False; [by eapply IH|]. rewrite bool_decide_eq_true. intros E. apply Hg. rewrite E.
    apply list_elem_of_fmap. exists fd. split; [done|]. by eapply list_elem_of_lookup_2.
Qed.

Lemma field_at_written (f : format) i fd : fields !! i = Some fd ->
  field_at fields (if fields_by_number f then VU64 (Z.of_nat i) else VText (field_name fd)) = ok (Some fd).
Proof.
  intros Hi. destruct (fields_by_number f); cbn [field_at].
  - by rewrite Nat2Z.id, Hi, (proj2 (Z.leb_le 0 _)) by lia.
  - by rewrite (field_found i).
Qed.

Lemma visit_written (f : format) fs vs p n :
  drop n fields = fs -> length vs = length fs ->
  visit_map fields finish (imap (fun i x => (if fields_by_number f then VU64 (Z.of_nat (n + i)) else VText x.1, x.2)) (zip (map field_name fs) vs)) p =
    read_in_order fs vs p.
Proof.
  revert vs p n. induction fs as [|fd fs IH]; intros [|v vs] p n Hn Hlen; try done. cbn [map zip imap visit_map read_in_order].
  assert (Hi : fields !! n = Some fd).
  { rewrite <- (Nat.add_0_r n), <- lookup_drop. by rewrite Hn. }
  cbn [zip_with imap visit_map fst snd]. rewrite Nat.add_0_r, (field_at_written f n fd Hi), dbind_ok.
  destruct (field_is_set fd p); [done|]. destruct (field_read fd v p) as [[p'|]| |]; [|done..]. cbn [dbind obind].
  rewrite <- (IH vs p' (S n)); [|by rewrite <- Nat.add_1_r, <- drop_drop, Hn|by injection Hlen].
  f_equal. apply imap_ext. intros i x _. cbn. by replace (n + S i)%nat with (S n + i)%nat by lia.
Qed.

Lemma read_written (f : format) vs empty : length vs = length fields ->
  read_struct fields finish empty (write_struct f (zip (map field_name fields) vs)) = read_in_order fields vs empty.
Proof. intros Hlen. by apply (visit_written f fields vs empty 0). Qed.
End written.

Definition rates_in_range (r : RatePack) : Prop :=
  uint 64 (routing_byte_rate r) /\ uint 64 (routing_service_rate r) /\ uint 64 (exit_byte_rate r) /\ uint 64 (exit_service_rate r).

Lemma rate_pack_back f r : rates_in_range r -> rate_pack_deserialize (rate_pack_serialize f r) = ok r.
Proof.
  destruct r as [a b c d]. intros (Ha & Hb & Hc & Hd). cbn [routing_byte_rate routing_service_rate exit_byte_rate exit_service_rate] in *.
  unfold rate_pack_deserialize.
  change (rate_pack_serialize f (mkRatePack a b c d)) with
    (write_struct f (zip (map field_name rate_pack_fields) [VU64 a; VU64 b; VU64 c; VU64 d])).
  rewrite read_written by (done || apply (bool_decide_unpack _); by vm_compute).
  cbn -[read_uint]. by rewrite !read_uint_back by done.
Qed.

Section back.
Context `{!EthSign} `{!AddressText} `{!AddressTextOk}.

Lemma read_address_back a : length a = 20%nat -> bytes_ok a -> read_address (VText (address_text a)) = ok a.
Proof. intros Hl Ha. unfold read_address. by rewrite address_text_read. Qed.

(** The address of a wallet, as a format writes it *)
Definition address_value (f : format) (a : bytes) : value :=
  if is_human_readable f then VText (address_text a) else VSeq (map VU64 a).

Lemma wallet_field_back f a p : length a = 20%nat -> bytes_ok a ->
  field_read (wallet_address_field f) (address_value f a) p = ok (Some a).
Proof.
  intros Hl Ha. unfold wallet_address_field, address_value. cbn [field_read]. destruct (is_human_readable f).
  - by rewrite read_address_back.
  - rewrite read_bytes_back, dbind_ok by done. unfold address_from_slice. by rewrite Hl.
Qed.

(** A field that a visitor ignores, and one that is the address *)
Definition ignored (e : value * value) : Prop := forall f, field_at [wallet_address_field f] e.1 = ok None.
Definition names_address (k : value) : Prop := forall f, field_at [wallet_address_field f] k = ok (Some (wallet_address_field f)).

Lemma ignored_skipped f pre rest p :
  Forall ignored pre -> visit_map [wallet_address_field f] wallet_finish (pre ++ rest) p = visit_map [wallet_address_field f] wallet_finish rest p.
Proof. induction 1 as [|[k v] pre Hk _ IH]; [done|]. cbn [app visit_map]. specialize (Hk f). cbn [fst] in Hk. rewrite Hk. apply IH. Qed.

Lemma written_name f : names_address (if fields_by_number f then VU64 0 else VText ADDRESS).
Proof. intros f'. by destruct (fields_by_number f). Qed.

Lemma wallet_written f w a : address w = Ret a ->
  wallet_serialize f w = Ret (VMap [(if fields_by_number f then VU64 0 else VText ADDRESS, address_value f a)]).
Proof. intros E. unfold wallet_serialize. rewrite E. done. Qed.

Lemma wallet_map_back f a k pre post :
  length a = 20%nat -> bytes_ok a -> names_address k -> Forall ignored pre -> Forall ignored post ->
  wallet_deserialize f (VMap (pre ++ (k, address_value f a) :: post)) = ok (mkWallet (Address a)).
Proof.
  intros Hl Ha Hk Hpre Hpost. cbn [wallet_deserialize]. rewrite ignored_skipped by done. cbn [visit_map]. rewrite (Hk f), dbind_ok.
  cbn [field_is_set wallet_address_field]. rewrite wallet_field_back, dbind_ok by done.
  rewrite <- (app_nil_r post), ignored_skipped by done. done.
Qed.

Lemma wallet_back f w a v : address w = Ret a -> length a = 20%nat -> bytes_ok a ->
  wallet_serialize f w = Ret v -> wallet_deserialize f v = ok (mkWallet (Address a)).
Proof.
  intros E Hl Ha Ev. rewrite (wallet_written f w a E) in Ev. injection Ev as <-.
  by apply (wallet_map_back f a _ [] []); [| |apply written_name|constructor|constructor].
Qed.

(** What is in a record, apart from the wallet, fits. *)
Definition record_in_range (i : NodeRecordInner) : Prop :=
  DataVersion.wf (data_version i) /\ rates_in_range (ni_rate_pack i) /\ uint 32 (ni_version i).

Lemma in_key_order_set s : list_to_set (in_key_order s) = s.
Proof.
  unfold in_key_order. apply leibniz_equiv. intros k. rewrite elem_of_list_to_set, merge_sort_Permutation. apply elem_of_elements.
Qed.

Lemma inner_names f : NoDup (map field_name (inner_fields f)).
Proof. apply (bool_decide_unpack _). by vm_compute. Qed.

Lemma inner_written_read f i wv :
  inner_deserialize f (inner_value f i wv) =
    inner_deserialize f (write_struct f (zip (map field_name (inner_fields f))
      [data_version_serialize (data_version i); key_serialize f (ni_public_key i); wv; rate_pack_serialize f (ni_rate_pack i);
       VSeq (map (key_serialize f) (in_key_order (ni_neighbors i))); VBool (ni_accepts_connections i); VBool (ni_routes_data i);
       VU64 (ni_version i)])).
Proof. done. Qed.

Lemma inner_value_read f i wv : has_bytes f = true -> record_in_range i ->
  inner_deserialize f (inner_value f i wv) = let+ w := wallet_deserialize f wv in ok (set_inner_wallet w i).
Proof.
  intros Hf. rewrite inner_written_read. destruct i as [dv pk w rp ns ac rd ver]. intros (Hdv & Hrp & Hv).
  cbn [data_version ni_rate_pack ni_version] in *. unfold inner_deserialize. rewrite read_written by (apply inner_names || done).
  cbn -[key_serialize key_deserialize read_uint read_seq wallet_deserialize rate_pack_deserialize data_version_deserialize list_to_set data_version_serialize rate_pack_serialize].
  rewrite data_version_back by done. cbn -[key_serialize key_deserialize read_uint read_seq wallet_deserialize rate_pack_deserialize list_to_set rate_pack_serialize].
  rewrite key_back by done. cbn -[key_serialize key_deserialize read_uint read_seq wallet_deserialize rate_pack_deserialize list_to_set rate_pack_serialize].
  destruct (wallet_deserialize f wv) as [[w'|]| |]; [|done..]. cbn -[key_serialize key_deserialize read_uint read_seq rate_pack_deserialize list_to_set rate_pack_serialize].
  rewrite rate_pack_back by done. cbn -[key_serialize key_deserialize read_uint read_seq list_to_set].
  rewrite read_keys_back by done. cbn -[read_uint list_to_set]. rewrite read_uint_back by done. cbn -[list_to_set].
  by rewrite in_key_order_set.
Qed.

Lemma inner_value_refused f i wv : has_bytes f = false -> record_in_range i ->
  inner_deserialize f (inner_value f i wv) = fail InvalidType.
Proof.
  intros Hf. rewrite inner_written_read. destruct i as [dv pk w rp ns ac rd ver]. intros (Hdv & _).
  cbn [data_version] in *. unfold inner_deserialize. rewrite read_written by (apply inner_names || done).
  cbn -[key_serialize key_deserialize read_uint read_seq wallet_deserialize rate_pack_deserialize data_version_deserialize list_to_set data_version_serialize rate_pack_serialize].
  rewrite data_version_back by done. cbn -[key_serialize key_deserialize read_uint read_seq wallet_deserialize rate_pack_deserialize list_to_set rate_pack_serialize].
  by rewrite key_refused.
Qed.
End back.

(** ** What panics *)
Lemma read_all_no_panic {A} (read : value -> de A) l : (forall v, read v <> Panic) -> read_all read l <> Panic.
Proof.
  intros Hr. induction l as [|v l IH]; cbn [read_all]; [done|]. intros [E|(a & _ & [E|(r & _ & E)]%dbind_panic)]%dbind_panic;
    [by apply Hr in E|by apply IH in E|done].
Qed.

Lemma field_at_no_panic {P} (fields : list (field P)) k : field_at fields k <> Panic.
Proof. unfold field_at. destruct k; try done. destruct (fields !! _); [|done]. by destruct (0 <=? n). Qed.

Lemma field_at_in {P} (fields : list (field P)) k fd : field_at fields k = ok (Some fd) -> fd ∈ fields.
Proof.
  assert (forall same, find_field same fields = Some fd -> fd ∈ fields) as Hfind.
  { intros same Hf. apply head_Some_elem_of in Hf. by apply list_elem_of_filter in Hf as [_ Hf]. }
  unfold field_at. destruct k; try done; intros E.
  - destruct (fields !! _) as [g|] eqn:Eg; [|done]. destruct (0 <=? n); [|done]. injection E as <-. by eapply list_elem_of_lookup_2.
  - injection E as E. by eapply Hfind.
  - injection E as E. by eapply Hfind.
Qed.

(** A struct's reader panics only if the reader of a field does, on a value in it. *)
Lemma read_struct_panic {P T} (fields : list (field P)) (finish : P -> result T de_error) empty v :
  read_struct fields finish empty v = Panic ->
  exists fd x p, fd ∈ fields /\ field_read fd x p = Panic /\
    ((exists k entries, v = VMap entries /\ (k, x) ∈ entries) \/ (exists vs, v = VSeq vs /\ x ∈ vs)).
Proof.
  destruct v as [| | | |vs|entries]; try done; cbn [read_struct].
  - assert (forall fs p, (forall f, f ∈ fs -> f ∈ fields) -> visit_seq finish fs vs p = Panic ->
      exists fd x q, fd ∈ fields /\ field_read fd x q = Panic /\ x ∈ vs) as Hgo.
    { induction vs as [|x vs IH]; intros [|fd fs] p Hin; try done. cbn [visit_seq].
      intros [E|(p' & _ & E)]%dbind_panic; [exists fd, x, p; split_and!; [apply Hin; left|done|left]|].
      destruct (IH fs p') as (fd' & y & q & ? & ? & ?); [intros g Hg; apply Hin; by right|done|].
      exists fd', y, q. split_and!; [done|done|by right]. }
    intros E. destruct (Hgo fields empty ltac:(done) E) as (fd & x & q & ? & ? & ?). exists fd, x, q. split_and!; eauto.
  - revert empty. assert (forall p, visit_map fields finish entries p = Panic ->
      exists fd x q k, fd ∈ fields /\ field_read fd x q = Panic /\ (k, x) ∈ entries) as Hgo.
    { induction entries as [|[k x] entries IH]; intros p; [done|]. cbn [visit_map].
      intros [E|(o & Eo & E)]%dbind_panic; [by apply field_at_no_panic in E|]. destruct o as [fd|].
      - destruct (field_is_set fd p); [done|]. apply dbind_panic in E as [E|(p' & _ & E)].
        + exists fd, x, p, k. split_and!; [by eapply field_at_in|done|left].
        + destruct (IH p' E) as (fd' & y & q & k' & ? & ? & ?). exists fd', y, q, k'. split_and!; [done|done|by right].
      - destruct (IH p E) as (fd' & y & q & k' & ? & ? & ?). exists fd', y, q, k'. split_and!; [done|done|by right]. }
    intros p E. destruct (Hgo p E) as (fd & x & q & k & ? & ? & ?). exists fd, x, q. split_and!; eauto.
Qed.

Lemma read_bytes_no_panic {A} f (visit : bytes -> de A) v : (forall b, visit b <> Panic) -> read_bytes f visit v <> Panic.
Proof. intros Hv. destruct v; try done; cbn [read_bytes]; by destruct (has_bytes f). Qed.

Lemma key_no_panic f v : key_deserialize f v <> Panic.
Proof. by apply read_bytes_no_panic. Qed.

Lemma read_uint_no_panic w v : read_uint w v <> Panic.
Proof. unfold read_uint. destruct v; try done. by destruct (uintb w n). Qed.

Lemma read_seq_no_panic {A} (read : value -> de A) v : (forall x, read x <> Panic) -> read_seq read v <> Panic.
Proof. intros Hr. destruct v; try done. cbn [read_seq]. by apply read_all_no_panic. Qed.

Lemma rate_pack_no_panic v : rate_pack_deserialize v <> Panic.
Proof.
  intros (fd & x & p & Hin & E & _)%read_struct_panic. unfold rate_pack_fields in Hin.
  repeat (apply elem_of_cons in Hin as [->|Hin]; [cbn [field_read] in E; apply dbind_panic in E as [E|(? & _ & E)]; [by apply read_uint_no_panic in E|done]|]).
  by apply not_elem_of_nil in Hin.
Qed.

Lemma data_version_no_panic v : data_version_deserialize v <> Panic.
Proof.
  unfold data_version_deserialize. intros [E|(l & _ & E)]%dbind_panic.
  - eapply read_seq_no_panic; [|exact E]. apply read_uint_no_panic.
  - by destruct l as [|? [|? [|? []]]].
Qed.

Section panics.
Context `{!EthSign} `{!AddressText}.

Lemma read_address_no_panic v : read_address v <> Panic.
Proof. unfold read_address. destruct v; try done. by destruct (address_of_text s). Qed.

(** Reading the address panics exactly if it is of the wrong length and the format is not for humans. *)
Lemma address_field_panics f v p :
  field_read (wallet_address_field f) v p = Panic <->
  is_human_readable f = false /\ exists l b, v = VSeq l /\ read_all (read_uint 8) l = ok b /\ length b <> 20%nat.
Proof.
  unfold wallet_address_field. cbn [field_read]. destruct (is_human_readable f).
  - split; [|by intros [? _]]. intros [E|(? & _ & E)]%dbind_panic; [by apply read_address_no_panic in E|done].
  - split.
    + intros [E|(b & Eb & E)]%dbind_panic; [exfalso; eapply read_seq_no_panic, E; apply read_uint_no_panic|].
      split; [done|]. destruct v as [| | | |l|]; try done. exists l, b. split_and!; [done|done|].
      intros Hb. apply dbind_panic in E as [E|(? & _ & E)]; [|done]. unfold address_from_slice in E. by rewrite Hb in E.
    + intros (_ & l & b & -> & Eb & Hb). cbn [read_seq]. rewrite Eb, dbind_ok. unfold address_from_slice.
      by rewrite (proj2 (Nat.eqb_neq _ _) Hb).
Qed.

Lemma address_field_sets f v p p' : field_read (wallet_address_field f) v p = ok p' -> exists a, p' = Some a.
Proof.
  unfold wallet_address_field. cbn [field_read]. destruct (is_human_readable f).
  - destruct (read_address v) as [[a|]| |]; try done. intros [= <-]. by exists a.
  - destruct (read_seq (read_uint 8) v) as [[b|]| |]; try done. cbn. destruct (address_from_slice b) as [[a|]| |]; try done.
    intros [= <-]. by exists a.
Qed.

(** A value that holds an address that is too short or too long *)
Definition bad_address (f : format) (v : value) : Prop :=
  is_human_readable f = false /\
  exists pre k l post b, v = VMap (pre ++ (k, VSeq l) :: post) /\
    Forall (fun e => field_at [wallet_address_field f] e.1 = ok None) pre /\
    field_at [wallet_address_field f] k = ok (Some (wallet_address_field f)) /\
    read_all (read_uint 8) l = ok b /\ length b <> 20%nat.

Lemma address_set_no_panic f entries a :
  visit_map [wallet_address_field f] wallet_finish entries (Some a) <> Panic.
Proof.
  induction entries as [|[k v] entries IH]; [done|]. cbn [visit_map].
  intros [E|(o & Eo & E)]%dbind_panic; [by apply field_at_no_panic in E|]. destruct o as [fd|]; [|by apply IH].
  apply field_at_in, list_elem_of_singleton in Eo as ->. done.
Qed.

Lemma wallet_panics f v : wallet_deserialize f v = Panic <-> bad_address f v.
Proof.
  split.
  - destruct v as [| | | |vs|entries]; try done; cbn [wallet_deserialize].
    + destruct vs as [|x vs]; [done|]. intros [E|(a & _ & E)]%dbind_panic; [by apply read_address_no_panic in E|by destruct vs].
    + induction entries as [|[k x] entries IH]; [done|]. cbn [visit_map].
      intros [E|(o & Eo & E)]%dbind_panic; [by apply field_at_no_panic in E|]. destruct o as [fd|].
      * pose proof (field_at_in _ _ _ Eo) as ->%list_elem_of_singleton. cbn [field_is_set wallet_address_field is_set] in E.
        apply dbind_panic in E as [E|(p' & Ep & E)].
        -- apply address_field_panics in E as (Hf & l & b & -> & Eb & Hb). split; [done|]. by exists [], k, l, entries, b.
        -- exfalso. destruct (address_field_sets _ _ _ _ Ep) as [a ->].
           by eapply address_set_no_panic.
      * destruct (IH E) as (Hf & pre & k' & l & post & b & Heq & Hpre & Hrest). injection Heq as ->. split; [done|].
        exists ((k, x) :: pre), k', l, post, b. split_and!; [done|by constructor|apply Hrest..].
  - intros (Hf & pre & k & l & post & b & -> & Hpre & Hk & Eb & Hb). cbn [wallet_deserialize].
    induction Hpre as [|[k' x] pre Hk' _ IH]; cbn [app visit_map].
    + rewrite Hk, dbind_ok. change (field_is_set (wallet_address_field f) None) with false. cbv iota.
      by rewrite (proj2 (address_field_panics f (VSeq l) None)) by (split; [done|by exists l, b]).
    + cbn [fst] in Hk'. by rewrite Hk', dbind_ok.
Qed.
End panics.

(** ** Properties *)

(** C21: a Node's record on the wire. In a data format that has strings of bytes, as CBOR has, human readable or not and with
    fields by name or by number, a record whose wallet has an address of 20 bytes is read back as it was written, its
    wallet as a bare address; in one that writes bytes as an array, as serde_json does, what was written is refused, for its
    key. What is written depends on the address alone, so that no key leaves the Node. In any format, reading any value
    whatever fails without a panic, unless there is a wallet in it whose address is too short or too long, in a format that is
    not for humans: then it panics if it has strings of bytes and the record is right in everything else. *)
Theorem record_on_the_wire `{!EthSign} `{!AddressText} `{!AddressTextOk} (f : format) (i : NodeRecordInner) (a : bytes) (v : value) :
  address (ni_earning_wallet i) = Ret a -> length a = 20%nat -> bytes_ok a -> record_in_range i ->
  (exists written, inner_serialize f i = Ret written /\
     inner_deserialize f written = if has_bytes f then ok (set_inner_wallet (mkWallet (Address a)) i) else fail InvalidType) /\
  (forall w, address w = Ret a -> inner_serialize f (set_inner_wallet w i) = inner_serialize f i) /\
  (inner_deserialize f v = Panic -> exists x, bad_address f x /\
     ((exists k entries, v = VMap entries /\ (k, x) ∈ entries) \/ (exists vs, v = VSeq vs /\ x ∈ vs))) /\
  (has_bytes f = true -> bad_address f v -> inner_deserialize f (inner_value f i v) = Panic).
Proof.
  intros Ea Hl Ha Hr. split_and!.
  - unfold inner_serialize. rewrite (wallet_written f _ a Ea). cbn [obind]. eexists. split; [done|].
    destruct (has_bytes f) eqn:Hf; [|by apply inner_value_refused].
    rewrite inner_value_read by done. by rewrite (wallet_back f (ni_earning_wallet i) a) by (done || by apply wallet_written).
  - intros w Ew. unfold inner_serialize. cbn [ni_earning_wallet set_inner_wallet]. by rewrite !(wallet_written f _ a) by done.
  - intros (fd & x & p & Hin & E & Hx)%read_struct_panic. exists x. split; [|done]. unfold inner_fields in Hin.
    repeat (apply elem_of_cons in Hin as [->|Hin]; [cbn [field_read] in E; apply dbind_panic in E as [E|(? & _ & E)]; [|done]|]);
      try (by apply not_elem_of_nil in Hin); try (by apply read_uint_no_panic in E); try (by apply key_no_panic in E); try (by destruct x).
    + by apply data_version_no_panic in E.
    + by apply wallet_panics.
    + by apply rate_pack_no_panic in E.
    + exfalso. eapply read_seq_no_panic, E. apply key_no_panic.
  - intros Hf Hb%wallet_panics. rewrite inner_value_read by done. by rewrite Hb.
Qed.

(** *** Concrete values for evaluation: the text of an address is its bytes *)
#[global] Instance toy_address_text : AddressText := {|
  address_text := map ascii_of_code;
  address_of_text := fun s => Some (map ascii_code s)
|}.

Lemma toy_address_text_ok : AddressTextOk.
Proof.
  split. intros a _ Ha. cbn. f_equal. induction Ha as [|x a Hx _ IH]; [done|]. cbn. by rewrite IH, ascii_code_of_code by apply Hx.
Qed.

Definition toy_short : value := VMap [(VText (lit "address"), VSeq [VU64 7])].

Lemma record_on_the_wire_witness :
  (exists written, @inner_serialize toy_eth _ cbor (set_inner_wallet (mkWallet (Address (replicate 20 7))) (toy_inner key_a [key_b] 3)) = Ret written /\
     @inner_deserialize _ cbor written = ok (set_inner_wallet (mkWallet (Address (replicate 20 7))) (toy_inner key_a [key_b] 3))) /\
  @inner_deserialize _ cbor (inner_value cbor (toy_inner key_a [key_b] 3) toy_short) = Panic.
Proof.
  destruct (@record_on_the_wire toy_eth toy_address_text toy_address_text_ok cbor
    (set_inner_wallet (mkWallet (Address (replicate 20 7))) (toy_inner key_a [key_b] 3)) (replicate 20 7) toy_short)
    as (H1 & _ & _ & H4).
  - reflexivity.
  - reflexivity.
  - repeat constructor; unfold uint; lia.
  - split_and!; repeat split; cbn; norm_pow; lia.
  - split; [exact H1|]. apply H4; [reflexivity|]. split; [reflexivity|].
    exists [], (VText (lit "address")), [VU64 7], [], [7]. split_and!; try reflexivity; [constructor|done].
Defined.

(** Wallets that are equal give the same to a hasher, so that tables that are keyed by wallets find them. *)
Lemma equal_wallets_hash_alike a b : wallet_kind_eqb a b = true -> wallet_kind_hash a = wallet_kind_hash b.
Proof.
  destruct a as [x|x|x|], b as [y|y|y|]; cbn; try done; [intros ->%bool_decide_eq_true; done| |intros ->%bool_decide_eq_true; done].
  unfold keypair_eqb, keypair_hash. by intros ->%bool_decide_eq_true.
Qed.

(** A wallet comes back from the database as its address. *)
Lemma wallet_in_database `{!EthSign} `{!AddressText} `{!AddressTextOk} w a :
  address w = Ret a -> length a = 20%nat -> bytes_ok a ->
  exists s, wallet_to_sql w = Ret s /\ wallet_column_result (VText s) = Ok (mkWallet (Address a)).
Proof.
  intros E Hl Ha. unfold wallet_to_sql. rewrite E. eexists. split; [done|]. cbn. by rewrite address_text_read.
Qed.

(** What is not 20 bytes is no stream key, and reading it does not panic, unlike an address or a packet. *)
Lemma stream_key_length f v : stream_key_deserialize f v <> Panic /\
  forall k, stream_key_deserialize f v = ok k -> length (stream_hash k) = DIGEST_LENGTH /\ (has_bytes f = true -> stream_key_serialize f k = v).
Proof.
  assert (forall b, stream_key_visit_bytes b <> Panic /\
    forall k, stream_key_visit_bytes b = ok k -> length (stream_hash k) = DIGEST_LENGTH /\ stream_hash k = b) as Hb.
  { intros b. unfold stream_key_visit_bytes. destruct (Nat.eqb_spec (length b) DIGEST_LENGTH); cbn [negb]; [|done].
    split; [done|]. by intros k [= <-]. }
  split; [apply read_bytes_no_panic; apply Hb|]. unfold stream_key_deserialize, stream_key_serialize, write_bytes.
  intros k. destruct v; try done; cbn [read_bytes]; destruct (has_bytes f); try done; intros [H1 H2]%Hb; (split; [done|]); [|done].
  intros _. by rewrite H2.
Qed.
