(* ===== verification/CryptdeReal.v ===== *)
(** * CryptdeReal: the CryptDE of Nodes outside of tests

    sub_lib/cryptde_real.rs over libsodium, an instance of the interface [CryptPair] against which everything that encrypts
    is proved; and what it means for descriptors and for Gossip. *)
From S2P Require Import Prelude Text SubLib Cryptde Wallet Route Utils SequenceBuffer Messages.
From S2P Require Import Hopper Database Gossip GossipAcceptor Neighborhood.
From Stdlib Require Import Ascii.

(** Of sodiumoxide: sealed boxes, detached signatures and SHA-512; of base64, the standard alphabet without padding *)
Class Sodium := {
  seal : bytes -> bytes -> bytes;
  open : bytes -> bytes -> bytes -> option bytes;
  sign_detached : bytes -> bytes -> bytes;
  verify_detached : bytes -> bytes -> bytes -> bool;
  sodium_hash : bytes -> bytes;
  randombytes : nat -> bytes;
  base64_encode : bytes -> str;
  base64_decode : str -> option bytes;
  box_keypair : bytes -> bytes -> Prop;
  sign_keypair : bytes -> bytes -> Prop }.

Definition PUBLICKEYBYTES : nat := 32.
Definition SIGNING_PUBLICKEYBYTES : nat := 32.
Definition SEALBYTES : nat := 48.
Definition SIGNATUREBYTES : nat := 64.

(** What was sealed for a key is opened by its pair; what was signed with a key verifies under its pair; lengths; and Base64 *)
Class SodiumOk `{!Sodium} : Prop := {
  open_sealed pk sk m : box_keypair pk sk -> open (seal m pk) pk sk = Some m;
  seal_length pk m : length (seal m pk) = (length m + SEALBYTES)%nat;
  box_key_length pk sk : box_keypair pk sk -> length pk = PUBLICKEYBYTES;
  sign_key_length pk sk : sign_keypair pk sk -> length pk = SIGNING_PUBLICKEYBYTES;
  signature_verifies pk sk m : sign_keypair pk sk -> verify_detached (sign_detached m sk) m pk = true;
  signature_length m sk : length (sign_detached m sk) = SIGNATUREBYTES;
  random_length n : length (randombytes n) = n;
  base64_back b : base64_decode (base64_encode b) = Some b;
  base64_alphabet b : Forall (fun c => c <> "_"%char /\ c <> "@"%char /\ c <> ":"%char) (base64_encode b) }.

(** ** CryptDEReal *)
Record CryptDEReal := mkReal {
  r_public_key : PublicKey;
  encryption_secret_key : bytes;
  signing_secret_key : bytes;
  r_digest : bytes;
  pre_shared_data : bytes }.

Section real.
Context `{!Sodium} (keccak256 : bytes -> bytes).

Definition local_public_key_from (e_public s_public : bytes) : PublicKey := mkPublicKey (e_public ++ s_public).

(** A slice of more than there is panics. *)
Definition encryption_public_key_from (k : PublicKey) : outcome bytes :=
  if (length (key_data k) <? PUBLICKEYBYTES)%nat then Panic else Ret (take PUBLICKEYBYTES (key_data k)).

(** So does [copy_from_slice] of another length. *)
Definition signing_public_key_from (k : PublicKey) : outcome bytes :=
  if (length (key_data k) <? PUBLICKEYBYTES)%nat then Panic
  else let rest := drop PUBLICKEYBYTES (key_data k) in
       if (length rest =? SIGNING_PUBLICKEYBYTES)%nat then Ret rest else Panic.

(** [CryptDEReal::new], with the key pairs that were generated *)
Definition real_new (chain_id : Z) (e_public e_secret s_public s_secret : bytes) : CryptDEReal :=
  let public_key := local_public_key_from e_public s_public in
  mkReal public_key e_secret s_secret (create_digest keccak256 (key_data public_key) (contract_address chain_id)) (contract_address chain_id).

Definition real_encode (key : PublicKey) (data : PlainData) : outcome (result CryptData CryptdecError) :=
  if negb (length (key_data key) =? PUBLICKEYBYTES + SIGNING_PUBLICKEYBYTES)%nat then Ret (Err (InvalidKey (key_data key) []))
  else let* remote_public_key := encryption_public_key_from key in Ret (Ok (mkCryptData (seal (plain_data data) remote_public_key))).

Definition real_decode (self : CryptDEReal) (data : CryptData) : outcome (result PlainData CryptdecError) :=
  if (crypt_len data <? SEALBYTES)%nat then Ret (Err EmptyData)
  else
    let* own := encryption_public_key_from (r_public_key self) in
    Ret (match open (crypt_data data) own (encryption_secret_key self) with
         | Some d => Ok (mkPlainData d)
         | None => Err OpeningFailed
         end).

Definition real_sign (self : CryptDEReal) (data : PlainData) : result CryptData CryptdecError :=
  Ok (mkCryptData (sign_detached (plain_data data ++ pre_shared_data self) (signing_secret_key self))).

Definition real_verify_signature (self : CryptDEReal) (data : PlainData) (signature : CryptData) (pk : PublicKey) : outcome bool :=
  if negb (crypt_len signature =? SIGNATUREBYTES)%nat then Ret false
  else
    let* signing_key := signing_public_key_from pk in
    Ret (verify_detached (crypt_data signature) (plain_data data ++ pre_shared_data self) signing_key).

Definition real_hash (data : PlainData) : CryptData := mkCryptData (sodium_hash (plain_data data)).

Definition real_public_key_to_descriptor_fragment (pk : PublicKey) : outcome str :=
  let* encryption_public_key := encryption_public_key_from pk in Ret (base64_encode encryption_public_key).

(** The key for the first contact has zeroes where the signing key is to be. *)
Definition real_descriptor_fragment_to_first_contact_public_key (fragment : str) : result PublicKey str :=
  match base64_decode fragment with
  | None => Err (lit "Invalid Base64 value for public key: " ++ fragment)
  | Some key =>
      if negb (length key =? PUBLICKEYBYTES)%nat
      then Err (lit "Public key must decode to " ++ dec (Z.of_nat PUBLICKEYBYTES) ++ lit " bytes, not " ++ dec (Z.of_nat (length key)) ++ lit ": " ++ fragment)
      else Ok (mkPublicKey (key ++ replicate SIGNING_PUBLICKEYBYTES 0))
  end.

(** [dup] *)
Definition real_dup (self : CryptDEReal) : CryptDEReal :=
  mkReal (r_public_key self) (encryption_secret_key self) (signing_secret_key self) (r_digest self) (pre_shared_data self).

(** The value of something that does not panic; encoding and decoding do not, by [real_total]. *)
Definition value_of_outcome {A} (a : A) (o : outcome A) : A := match o with Ret x => x | _ => a end.

(** [impl CryptDE for CryptDEReal]; [private_key] is unimplemented!(). *)
Definition as_cryptde (self : CryptDEReal) : CryptDE := {|
  encode := fun key data => value_of_outcome (Err EmptyKey) (real_encode key data);
  decode := fun data => value_of_outcome (Err EmptyKey) (real_decode self data);
  random := randombytes;
  private_key := Panic;
  public_key := r_public_key self;
  sign := real_sign self;
  verify_signature := real_verify_signature self;
  hash := real_hash;
  public_key_to_descriptor_fragment := real_public_key_to_descriptor_fragment;
  descriptor_fragment_to_first_contact_public_key := real_descriptor_fragment_to_first_contact_public_key;
  digest := r_digest self |}.

(** A CryptDE that [new] has made on a chain *)
Definition made_on (chain_id : Z) (self : CryptDEReal) : Prop :=
  exists e_public e_secret s_public s_secret,
    box_keypair e_public e_secret /\ sign_keypair s_public s_secret /\ self = real_new chain_id e_public e_secret s_public s_secret.

Context `{!SodiumOk}.

Lemma encryption_part e_public s_public : length e_public = PUBLICKEYBYTES ->
  encryption_public_key_from (local_public_key_from e_public s_public) = Ret e_public.
Proof.
  intros He. unfold encryption_public_key_from. cbn [key_data local_public_key_from]. rewrite length_app, He.
  rewrite (proj2 (Nat.ltb_ge _ _)) by lia. by rewrite <- He, take_app_length.
Qed.

Lemma signing_part e_public s_public : length e_public = PUBLICKEYBYTES -> length s_public = SIGNING_PUBLICKEYBYTES ->
  signing_public_key_from (local_public_key_from e_public s_public) = Ret s_public.
Proof.
  intros He Hs. unfold signing_public_key_from. cbn [key_data local_public_key_from]. rewrite length_app, He.
  rewrite (proj2 (Nat.ltb_ge _ _)) by lia. rewrite <- He, drop_app_length, Hs. by rewrite Nat.eqb_refl.
Qed.

(** A key that is not of 64 bytes has no signing part. *)
Lemma signing_part_panics pk : length (key_data pk) <> (PUBLICKEYBYTES + SIGNING_PUBLICKEYBYTES)%nat -> signing_public_key_from pk = Panic.
Proof.
  intros Hl. unfold signing_public_key_from. destruct (Nat.ltb_spec (length (key_data pk)) PUBLICKEYBYTES) as [|Hge]; [done|].
  rewrite (proj2 (Nat.eqb_neq _ _)); [done|]. rewrite length_drop. lia.
Qed.

(** Anything is sealed for keys with an encryption part, whatever their signing part. *)
Lemma sealed_for e_public rest p : length e_public = PUBLICKEYBYTES -> length rest = SIGNING_PUBLICKEYBYTES ->
  real_encode (mkPublicKey (e_public ++ rest)) p = Ret (Ok (mkCryptData (seal (plain_data p) e_public))).
Proof.
  intros He Hr. unfold real_encode. cbn [key_data]. rewrite length_app, He, Hr, Nat.eqb_refl. cbn [negb].
  change (mkPublicKey (e_public ++ rest)) with (local_public_key_from e_public rest). by rewrite encryption_part.
Qed.

Lemma opened_by chain_id e_public e_secret s_public s_secret p : box_keypair e_public e_secret ->
  real_decode (real_new chain_id e_public e_secret s_public s_secret) (mkCryptData (seal (plain_data p) e_public)) = Ret (Ok p).
Proof.
  intros He. unfold real_decode, crypt_len. cbn [crypt_data]. rewrite seal_length, (proj2 (Nat.ltb_ge _ _)) by lia.
  cbn [r_public_key real_new]. rewrite encryption_part by (by eapply box_key_length). cbn [obind encryption_secret_key real_new].
  rewrite open_sealed by done. by destruct p.
Qed.

Lemma real_total key p : exists r, real_encode key p = Ret r.
Proof.
  unfold real_encode. destruct (Nat.eqb_spec (length (key_data key)) (PUBLICKEYBYTES + SIGNING_PUBLICKEYBYTES)) as [E|]; [|by eexists].
  cbn [negb]. unfold encryption_public_key_from. rewrite (proj2 (Nat.ltb_ge _ _)); [by eexists|]. unfold PUBLICKEYBYTES in *. lia.
Qed.

Lemma real_decode_total chain_id self d : made_on chain_id self -> exists r, real_decode self d = Ret r.
Proof.
  intros (ep & es & sp & ss & He & _ & ->). unfold real_decode. case_match; [by eexists|]. cbn [r_public_key real_new].
  rewrite encryption_part by (by eapply box_key_length). by eexists.
Qed.

(** The interface is discharged by any two Nodes of a chain. *)
#[export] Instance real_pair chain_id c d : made_on chain_id c -> made_on chain_id d -> CryptPair (as_cryptde c) (as_cryptde d).
Proof.
  intros (cep & ces & csp & css & _ & _ & ->) (ep & es & sp & ss & He & Hs & ->).
  pose proof (box_key_length _ _ He) as Hle. pose proof (sign_key_length _ _ Hs) as Hls. constructor; cbn.
  - by destruct ep.
  - intros p _. unfold local_public_key_from. rewrite sealed_for by done. eexists. split; [done|]. by rewrite opened_by.
  - apply random_length.
  - intros p s [= <-]. unfold real_verify_signature, crypt_len. cbn [crypt_data]. rewrite signature_length. cbn [negb Nat.eqb SIGNATUREBYTES].
    rewrite signing_part by done. cbn [obind pre_shared_data signing_secret_key real_new]. by rewrite signature_verifies.
Qed.
End real.

(** ** Descriptors *)

(** A Node's address as Nodes print it: IPv4, with usable ports in order and without repetition *)
Definition printable (na : NodeAddr.NodeAddr) : Prop :=
  (exists o p q r, NodeAddr.ip_addr na = V4 o p q r /\ uint 8 o /\ uint 8 p /\ uint 8 q /\ uint 8 r) /\
  NodeAddr.normal na /\ NodeAddr.ports na <> [] /\
  Forall (fun p => uint 16 p /\ NodeAddr.LOWEST_USABLE_INSECURE_PORT <= p) (NodeAddr.ports na).

(** What a descriptor is for: the Node at [c] reads from the one that the Node at [d] prints an address, and a key for which it encrypts as
    for the other's. *)
Class Introduces (c d : CryptDE) (chain_id : Z) : Prop :=
  introduces : forall show_v6 na, printable na ->
    exists descriptor k,
      NodeDescriptor.to_string show_v6 (NodeDescriptor.mk (public_key d) (Some na)) d chain_id = Ret descriptor /\
      NodeDescriptor.from_str c descriptor chain_id = Ret (Ok (NodeDescriptor.mk k (Some na))) /\
      forall p, encode c k p = encode c (public_key d) p.

Section descriptors.
Context `{!Sodium} (keccak256 : bytes -> bytes) `{!SodiumOk}.

Lemma delimiter_outside chain_id c b : node_descriptor_delimiter chain_id = Ret c -> c ∉ base64_encode b.
Proof.
  intros Hc Hin. pose proof (base64_alphabet b) as Ha. rewrite Forall_forall in Ha. destruct (Ha _ Hin) as (H1 & H2 & H3).
  unfold node_descriptor_delimiter in Hc. destruct (Z.to_nat chain_id) as [|[|[|[|n]]]]; cbn in Hc; by simplify_eq.
Qed.

(** The key that others make of the fragment of a Node's descriptor *)
Definition first_contact_key (e_public : bytes) : PublicKey := mkPublicKey (e_public ++ replicate SIGNING_PUBLICKEYBYTES 0).

Lemma fragment_read e_public : length e_public = PUBLICKEYBYTES ->
  real_descriptor_fragment_to_first_contact_public_key (base64_encode e_public) = Ok (first_contact_key e_public).
Proof. intros He. unfold real_descriptor_fragment_to_first_contact_public_key. by rewrite base64_back, He, Nat.eqb_refl. Qed.

Lemma printable_back show_v6 na : printable na -> NodeAddr.from_str (NodeAddr.to_string show_v6 na) = Ok na.
Proof. intros ((o & p & q & r & ? & ? & ? & ? & ?) & ? & ? & ?). by eapply node_addr_display_roundtrip. Qed.

Lemma descriptor_read c d chain_id delimiter show_v6 na e_public s_public :
  length e_public = PUBLICKEYBYTES -> public_key (as_cryptde d) = local_public_key_from e_public s_public ->
  node_descriptor_delimiter chain_id = Ret delimiter -> printable na ->
  exists descriptor,
    NodeDescriptor.to_string show_v6 (NodeDescriptor.mk (public_key (as_cryptde d)) (Some na)) (as_cryptde d) chain_id = Ret descriptor /\
    NodeDescriptor.from_str (as_cryptde c) descriptor chain_id = Ret (Ok (NodeDescriptor.mk (first_contact_key e_public) (Some na))).
Proof.
  intros He Hk Hd Hna%(printable_back show_v6). eexists. split.
  - unfold NodeDescriptor.to_string. cbn [NodeDescriptor.public_key NodeDescriptor.node_addr_opt]. rewrite Hk. cbn [public_key_to_descriptor_fragment as_cryptde].
    unfold real_public_key_to_descriptor_fragment. rewrite encryption_part by done. cbn [obind]. rewrite Hd. reflexivity.
  - unfold NodeDescriptor.from_str. rewrite Hd. cbn [obind]. rewrite splitn2_app by (by eapply delimiter_outside).
    cbn [descriptor_fragment_to_first_contact_public_key as_cryptde]. rewrite fragment_read by done.
    rewrite bool_decide_eq_false_2 by (intros E; by rewrite E in Hna). by rewrite Hna.
Qed.

#[export] Instance real_introduces chain_id c d :
  is_Some (NODE_DESCRIPTOR_DELIMITERS !! Z.to_nat chain_id) -> made_on keccak256 chain_id c -> made_on keccak256 chain_id d ->
  Introduces (as_cryptde c) (as_cryptde d) chain_id.
Proof.
  intros [delimiter Hdel] _ (ep & es & sp & ss & He & Hs & ->) show_v6 na Hna.
  pose proof (box_key_length _ _ He) as Hle. pose proof (sign_key_length _ _ Hs) as Hls.
  destruct (descriptor_read c (real_new keccak256 chain_id ep es sp ss) chain_id delimiter show_v6 na ep sp) as (descriptor & H1 & H2);
    [done|done|by unfold node_descriptor_delimiter; rewrite Hdel|done|].
  exists descriptor, (first_contact_key ep). split_and!; [done..|]. intros p. cbn. unfold first_contact_key, local_public_key_from.
  by rewrite !sealed_for.
Qed.
End descriptors.

(** A record of Gossip whose key is not of 64 bytes, with a signature that is, brings the Neighborhood of a Node down. *)
Lemma malformed_key_brings_neighborhood_down `{!Sodium} `{!EthSign} (keccak256 : bytes -> bytes) `{!HashOrder} `{!Serde NodeRecordInner} `{!Serde LiveHop}
    `{!Serde Z} `{!Serde MessageType} (self : Neighborhood) (c : CryptDEReal) g source l agr l' :
  nh_cryptde self = as_cryptde c -> mapM agr_try_from (node_records g) = Some (l ++ agr :: l') ->
  Forall (fun agr => real_verify_signature c (agr_signed_gossip agr) (agr_signature agr) (agr_key agr) = Ret true) l ->
  crypt_len (agr_signature agr) = 64%nat -> length (key_data (agr_key agr)) <> 64%nat ->
  handle_gossip keccak256 self g source = Panic.
Proof.
  intros Ec Eg Hl Hs Hk. destruct (unverifiable_gossip_is_ignored keccak256 self g source) as [_ Hread]. destruct (Hread _ Eg) as [_ Hfirst].
  apply (Hfirst l agr l' eq_refl); rewrite Ec; [done|]. cbn. unfold real_verify_signature. rewrite Hs. cbn [negb Nat.eqb SIGNATUREBYTES].
  by rewrite signing_part_panics.
Qed.

(** ** Properties *)

(** C22: Nodes with the CryptDE that is used outside of tests. For two Nodes whose CryptDEs were made for the same chain: (1) they are a
    [CryptPair], the interface that the rest is proved against: what one encrypts for the key of the other is decrypted by it, and what the
    other signs verifies. (2) The descriptor that the second prints, with its address, is read by the first: with that address, and
    a key, which is not the second's, but for which the first encrypts as for the second's. (3) Encrypting is refused for the keys that are not
    of 64 bytes and only for them, what is shorter than a seal is not opened, and nothing of it panics. A signature that is not of 64 bytes
    is not valid; verifying one that is, under a key that is not, panics. *)
Theorem real_nodes_reach_each_other `{!Sodium} (keccak256 : bytes -> bytes) `{!SodiumOk} (chain_id : Z) (c d : CryptDEReal) :
  made_on keccak256 chain_id c -> made_on keccak256 chain_id d ->
  let C := as_cryptde c in let D := as_cryptde d in
  CryptPair C D /\
  (forall show_v6 na, is_Some (NODE_DESCRIPTOR_DELIMITERS !! Z.to_nat chain_id) -> printable na ->
     exists descriptor k,
       NodeDescriptor.to_string show_v6 (NodeDescriptor.mk (public_key D) (Some na)) D chain_id = Ret descriptor /\
       NodeDescriptor.from_str C descriptor chain_id = Ret (Ok (NodeDescriptor.mk k (Some na))) /\
       forall p, encode C k p = encode C (public_key D) p) /\
  (forall key p, exists r, real_encode key p = Ret r /\ encode C key p = r /\ (length (key_data key) <> 64%nat <-> r = Err (InvalidKey (key_data key) []))) /\
  (forall data, exists r, real_decode d data = Ret r /\ decode D data = r /\ ((crypt_len data < 48)%nat -> r = Err EmptyData)) /\
  (forall data signature key,
     (crypt_len signature <> 64%nat -> verify_signature C data signature key = Ret false) /\
     (crypt_len signature = 64%nat -> length (key_data key) <> 64%nat -> verify_signature C data signature key = Panic)).
Proof.
  intros Hc Hd C D. split_and!.
  - by eapply real_pair.
  - intros show_v6 na Hdel Hna. by apply (real_introduces keccak256 chain_id c d).
  - intros key p. destruct (real_total key p) as [r Hr]. exists r. split_and!; [done|unfold C; cbn; by rewrite Hr|]. unfold real_encode in Hr.
    change (PUBLICKEYBYTES + SIGNING_PUBLICKEYBYTES)%nat with 64%nat in Hr. destruct (Nat.eqb_spec (length (key_data key)) 64) as [E|E]; cbn [negb] in Hr.
    + split; [done|]. intros ->. destruct (encryption_public_key_from key); discriminate.
    + by injection Hr as <-.
  - intros data. destruct (real_decode_total keccak256 chain_id d data Hd) as [r Hr]. exists r. split_and!; [done|unfold D; cbn; by rewrite Hr|].
    intros Hl. unfold real_decode in Hr. rewrite (proj2 (Nat.ltb_lt _ _)) in Hr by done. by injection Hr.
  - intros data signature key. unfold C. cbn. unfold real_verify_signature. change SIGNATUREBYTES with 64%nat. split; [by intros ->%Nat.eqb_neq|].
    intros -> Hk. cbn [Nat.eqb negb]. by rewrite signing_part_panics.
Qed.

(** A library whose keys are the same on both sides: what is sealed or signed begins with the key. *)
Definition toy_seal (k : bytes) : bytes := take SEALBYTES (k ++ replicate SEALBYTES 0).

Definition toy_sign (m k : bytes) : bytes := take SIGNATUREBYTES (k ++ m ++ replicate SIGNATUREBYTES 0).

Definition toy_text (b : bytes) : str := map (fun z => if z =? 0 then "A"%char else "B"%char) (pos_to_bits (countable.encode b)).

Definition toy_keys (pk sk : bytes) : Prop := pk = sk /\ length pk = 32%nat.

Definition toy_sodium : Sodium := {|
  seal m pk := toy_seal pk ++ m;
  open c pk sk := if decide (take SEALBYTES c = toy_seal sk) then Some (drop SEALBYTES c) else None;
  sign_detached := toy_sign;
  verify_detached s m pk := bool_decide (s = toy_sign m pk);
  sodium_hash m := take 64 (m ++ replicate 64 0);
  randombytes n := replicate n 4;
  base64_encode := toy_text;
  base64_decode s := p ← bits_to_pos (map (fun c => if decide (c = "A"%char) then 0 else 1) s); countable.decode p;
  box_keypair := toy_keys;
  sign_keypair := toy_keys |}.

Lemma toy_bits p : map (fun c => if decide (c = "A"%char) then 0 else 1) (map (fun z => if z =? 0 then "A"%char else "B"%char) (pos_to_bits p)) = pos_to_bits p.
Proof. induction p as [p IH|p IH|]; cbn; [by rewrite IH..|done]. Qed.

Lemma toy_seal_length k : length (toy_seal k) = SEALBYTES.
Proof. unfold toy_seal. rewrite length_take, length_app, length_replicate. lia. Qed.

Lemma toy_sodium_ok : @SodiumOk toy_sodium.
Proof.
  constructor; cbn -[SEALBYTES toy_seal SIGNATUREBYTES toy_sign].
  - intros pk sk m [-> _]. by rewrite take_app_length', drop_app_length', decide_True by (done || symmetry; apply toy_seal_length).
  - intros pk m. rewrite length_app, toy_seal_length. lia.
  - by intros pk sk [].
  - by intros pk sk [].
  - intros pk sk m [-> _]. by apply bool_decide_eq_true.
  - intros m sk. unfold toy_sign. rewrite length_take, !length_app, length_replicate. lia.
  - intros n. apply length_replicate.
  - intros b. unfold toy_text. rewrite toy_bits, bits_to_pos_to_bits. cbn. apply decode_encode.
  - intros b. apply Forall_map, Forall_true. intros z. by case_match.
Qed.

Definition toy_real (n : Z) : CryptDEReal := @real_new (fun b => b) 1 (replicate 32 n) (replicate 32 n) (replicate 32 (n + 1)) (replicate 32 (n + 1)).

Lemma toy_real_made n : @made_on toy_sodium (fun b => b) 1 (toy_real n).
Proof. by exists (replicate 32 n), (replicate 32 n), (replicate 32 (n + 1)), (replicate 32 (n + 1)). Qed.

Lemma real_nodes_reach_each_other_witness :
  (exists descriptor k,
     NodeDescriptor.to_string (fun _ => []) (NodeDescriptor.mk (r_public_key (toy_real 9)) (Some sample_node_addr)) (@as_cryptde toy_sodium (toy_real 9)) 1 = Ret descriptor /\
     NodeDescriptor.from_str (@as_cryptde toy_sodium (toy_real 5)) descriptor 1 = Ret (Ok (NodeDescriptor.mk k (Some sample_node_addr)))) /\
  @real_verify_signature toy_sodium (toy_real 5) (mkPlainData [1]) (mkCryptData (replicate 64 0)) (mkPublicKey [7]) = Panic.
Proof.
  destruct (@real_nodes_reach_each_other toy_sodium (fun b => b) toy_sodium_ok 1 (toy_real 5) (toy_real 9) (toy_real_made 5) (toy_real_made 9))
    as (_ & Hdescr & _ & _ & Hverify). split.
  - destruct (Hdescr (fun _ => []) sample_node_addr) as (descriptor & k & H1 & H2 & _); [by eexists| |by exists descriptor, k].
    split_and!; [exists 1, 2, 3, 4; split_and!; [done|..]; unfold uint; lia| |done|].
    + unfold NodeAddr.normal. repeat constructor; cbn; lia.
    + unfold uint, NodeAddr.LOWEST_USABLE_INSECURE_PORT. repeat constructor; cbn; lia.
  - apply Hverify; [reflexivity|]. cbn. lia.
Defined.
