(* ===== verification/Joining.v ===== *)
(** * Joining: how a Node finds its way into the network

    No code of its own: a Node that has just been started with the descriptor of another one sends it its debut, by the
    Hoppers of both, and is taken in, or passed on, by the other's Neighborhood. *)
From S2P Require Import Prelude Text SubLib Cryptde Wallet Route Utils SequenceBuffer Messages.
From S2P Require Import Hopper Database Gossip GossipAcceptor Neighborhood CryptdeReal.

(** ** A package without a route *)
Section contact.
Context `{!EthSign} (keccak256 : bytes -> bytes).
Context `{!Serde LiveHop} `{!Serde Z} `{!Serde LiveCoresPackage} `{!Serde MessageType}.
Context `{!SerdeOk LiveHop hop_on_wire} `{!SerdeOk LiveCoresPackage (fun p => lcp_version p = VERSION_0_0)}.
Context {good : MessageType -> Prop} `{!SerdeOk MessageType good}.
Context (c d : CryptDE) `{!CryptPair c c} `{!CryptPair c d} (k : PublicKey).
Hypothesis same_encryption : forall p, encode c k p = encode c (public_key d) p.

Lemma encodex_as {T} `{!Serde T} (t : T) : encodex c k t = encodex c (public_key d) t.
Proof. unfold encodex. destruct (to_vec t); [|done]. by rewrite same_encryption. Qed.

Lemma encodex_for {T} `{!Serde T} {okay} `{!SerdeOk T okay} (t : T) :
  okay t -> exists e, encodex c k t = Ok e /\ decodex d e = Ok t.
Proof. intros Ht. rewrite encodex_as. by apply encodex_decodex. Qed.

(** The route of one hop, once the sender has taken its own hop off *)
Lemma single_hop_shifted :
  exists e garbage, (let* sh := single_hop keccak256 k c in let* r := expect_ok sh in Ret (shift r c)) =
      Ret (mkRoute [e; garbage], Ok (mkLiveHop k None SubLib.Hopper)) /\
    decodex d e = Ok (mkLiveHop empty_key None SubLib.Neighborhood).
Proof.
  destruct (encodex_decodex c c (mkLiveHop k None SubLib.Hopper) (good := hop_on_wire)) as (e1 & E1 & D1); [done|].
  destruct (encodex_for (mkLiveHop empty_key None SubLib.Neighborhood) (okay := hop_on_wire)) as (e2 & E2 & D2); [done|].
  exists e2, (mkCryptData (random c (crypt_len e1))). split; [|done].
  unfold single_hop, construct. cbn. unfold hops_to_route, live_hop_encode. cbn. unfold live_hop_encode. rewrite E1. cbn [hop_key]. rewrite E2. cbn.
  unfold shift. cbn [hops]. unfold decode_hop, live_hop_decode. by rewrite D1.
Qed.

(** What is sent to an address, without a route, and what becomes of it at the Node that is there *)
Lemma no_lookup_gets_through (na : NodeAddr.NodeAddr) (g : Gossip) : good (GossipMsg g) -> NodeAddr.ports na <> [] ->
  exists pkg addr bytes,
    no_lookup_new c k na (GossipMsg g) = Ok pkg /\ head (NodeAddr.into_socket_addrs (NodeAddr.clone (NodeAddr.clone na))) = Some addr /\
    ConsumingService.consume_no_lookup keccak256 c pkg = Ret [ToDispatcher (mkTransmitDataMsg (Socket addr) false None bytes)] /\
    forall cache rd ibcd, RoutingService.cryptde rd = d -> ibcd_data ibcd = bytes ->
      exists route size, RoutingService.route cache rd ibcd = Ret [ToNeighborhood (mkExpired (peer_addr ibcd) None route g size)].
Proof.
  intros Hg Hp. destruct (encodex_for (GossipMsg g) (okay := good)) as (p & Ep & Dp); [done|].
  destruct single_hop_shifted as (e & garbage & Eh & De). apply obind_ret_inv in Eh as (sh & Esh & Eh). apply obind_ret_inv in Eh as (r & Er & Eh).
  destruct (encodex_for (live_new (mkRoute [e; garbage]) p) (okay := fun p => lcp_version p = VERSION_0_0)) as (l & El & Dl); [done|].
  assert (exists addr rest, NodeAddr.into_socket_addrs (NodeAddr.clone (NodeAddr.clone na)) = addr :: rest) as (addr & rest & Ea).
  { rewrite NodeAddr.clone_idemp. rewrite <- NodeAddr.ports_clone_nil in Hp. unfold NodeAddr.into_socket_addrs.
    destruct (NodeAddr.ports (NodeAddr.clone na)); [done|]. by do 2 eexists. }
  exists (mkNoLookup k (NodeAddr.clone na) p), addr, (crypt_data l). split_and!; [unfold no_lookup_new; by rewrite Ep|by rewrite Ea| |].
  - unfold ConsumingService.consume_no_lookup. cbn [nl_public_key nl_node_addr]. unfold from_no_lookup_incipient. cbn [nl_public_key nl_payload]. rewrite Esh. cbn [obind].
    destruct sh as [r'|]; [|done]. injection Er as ->. injection Eh as Eh. rewrite Eh. cbn. rewrite El. cbn. by rewrite Ea.
  - intros cache rd ibcd Hd Hb.
    unfold RoutingService.route. rewrite Hd, Hb. destruct l as [l]. cbn [crypt_data]. rewrite Dl.
    assert (next_hop (mkRoute [e; garbage]) d = Ok (mkLiveHop empty_key None SubLib.Neighborhood)) as Hn
      by (unfold next_hop, decode_hop, live_hop_decode; cbn [hops]; by rewrite De).
    cbn [lcp_route live_new]. rewrite Hn. unfold RoutingService.route_data. cbn. unfold RoutingService.route_data_internally. cbn.
    unfold RoutingService.route_data_to_peripheral_component, to_expired. rewrite Hd. cbn [lcp_route lcp_payload live_new]. rewrite Hn, Dp. cbn. by do 2 eexists.
Qed.
End contact.

(** ** What a debut changes, and who is answered *)
Section debut.
Context `{!HashOrder} `{!Serde NodeRecordInner} (cryptde : CryptDE).

Lemma keys_add db r : keys (add_arbitrary_node db r) = {[nr_key r]} ∪ keys db.
Proof. apply set_eq. intros q. rewrite elem_of_union, elem_of_singleton, !elem_of_keys. setoid_rewrite node_by_key_add. case_bool_decide; naive_solver. Qed.

Lemma add_half_neighbor_keys db k db' b : add_half_neighbor db k = (db', Ok b) -> keys db' = keys db.
Proof.
  unfold add_half_neighbor. repeat case_match; intros E; simplify_eq; try done.
  by eapply keys_put.
Qed.

Lemma touch_root_keys db db' : touch_root cryptde db = Ret db' -> keys db' = keys db.
Proof. unfold touch_root. intros (rt & Hrt%root_ret & (rt' & _ & [= <-])%obind_ret_inv)%obind_ret_inv. by eapply keys_put. Qed.

(** What is answered goes to the Node whose debut it is. *)
Definition answers_debut (db db' : NeighborhoodDatabase) (k : PublicKey) (res : GossipAcceptanceResult) : Prop :=
  match res with Accepted => True | Ignored => db' = db | Reply _ target _ => target = k | Ban _ => False end.

Lemma introduction_target db agr source g k na :
  DebutHandler.make_introduction db agr source = Ret (Some (g, k, na)) -> k = agr_key agr.
Proof. unfold DebutHandler.make_introduction. intros (lcn & _ & E)%obind_ret_inv. destruct lcn; [|done]. unbind. done. Qed.

Lemma accepted_debut db agr source db' o :
  DebutHandler.try_accept_debut cryptde db agr source = Ret (db', o) ->
  keys db' ⊆ {[agr_key agr]} ∪ keys db /\ (o = None -> db' = db) /\ (forall res, o = Some res -> res <> Ignored /\ answers_debut db db' (agr_key agr) res).
Proof.
  unfold DebutHandler.try_accept_debut. intros (rt & _ & (n & _ & E)%obind_ret_inv)%obind_ret_inv.
  case_match; [injection E as <- <-; split_and!; [set_solver|done..]|]. destruct (add_node db _) as [db1 added] eqn:Ea.
  apply obind_ret_inv in E as (k & Hk%expect_ok_ret & E). destruct (add_half_neighbor db1 k) as [db2 [[]|]] eqn:Eh; [|done..].
  apply obind_ret_inv in E as (db3 & Et & E). assert (keys db3 ⊆ {[agr_key agr]} ∪ keys db) as Hkeys.
  { rewrite (touch_root_keys _ _ Et), (add_half_neighbor_keys _ _ _ _ Eh). clear -Ea Hk.
    unfold add_node in Ea. repeat case_match; simplify_eq; by rewrite keys_add. }
  case_match; [injection E as <- <-; split_and!; [done..|by intros res [= <-]]|]. apply obind_ret_inv in E as (intro & Hi & E).
  destruct intro as [[[g target] na]|]; injection E as <- <-; (split_and!; [done..|intros res [= <-]; split; [done|]]); [by apply introduction_target in Hi|done].
Qed.

Lemma handled_debut db agr source db' res :
  DebutHandler.handle cryptde db [agr] source = Ret (db', res) ->
  keys db' ⊆ {[agr_key agr]} ∪ keys db /\ answers_debut db db' (agr_key agr) res.
Proof.
  unfold DebutHandler.handle. cbn [head expect obind]. set (agr' := mkAgr _ _ _ _). change (agr_key agr) with (agr_key agr').
  intros (preferred & _ & E)%obind_ret_inv. destruct preferred as [pk|].
  { apply obind_ret_inv in E as (p & _ & E). apply obind_ret_inv in E as (a & _ & E). apply obind_ret_inv in E as (g & _ & [= <- <-]). split; [set_solver|done]. }
  apply obind_ret_inv in E as ([db1 o] & Ha & E). apply accepted_debut in Ha as (Hkeys & Hsame & Hres).
  destruct o as [r|]; [injection E as <- <-; split; [done|by apply Hres]|]. rewrite (Hsame eq_refl) in *. apply obind_ret_inv in E as (lcn & _ & E).
  destruct lcn as [lk|]; [|injection E as <- <-; split; [set_solver|done]]. apply obind_ret_inv in E as (p & _ & E). apply obind_ret_inv in E as (g & _ & [= <- <-]). split; [set_solver|done].
Qed.
End debut.

(** ** A debut at the Neighborhood that it comes to *)
Section received.
Context `{!EthSign} (keccak256 : bytes -> bytes) `{!HashOrder}.
Context `{!Serde NodeRecordInner} `{!Serde LiveHop} `{!Serde Z} `{!Serde MessageType}.

(** Something is sent to [k], by its key alone or as Gossip along a route. *)
Definition answered (self : Neighborhood) (k : PublicKey) (effects : list neighborhood_effect) : Prop :=
  exists e, e ∈ effects /\ ((exists pkg, e = SendNoLookup pkg /\ nl_public_key pkg = k) \/ gossips_to keccak256 self k e).

(** A Node with the key [k] has been taken in. *)
Definition taken_in (db db' : NeighborhoodDatabase) (k : PublicKey) : Prop :=
  extends db db' /\ reachable db' k /\ db_has_half_neighbor db' (this_node db) k = true /\
  exists n, gossip_target_degree db (this_node db) = Ret n /\ (n < MAX_DEGREE)%nat.

(** It is told of one of the Node's neighbors instead. *)
Definition passed_on_to_neighbor (self : Neighborhood) (k : PublicKey) (effects : list neighborhood_effect) : Prop :=
  exists rt q r na pkg, node_by_key (neighborhood_database self) (this_node (neighborhood_database self)) = Some rt /\ q ∈ nr_neighbors rt /\
    node_by_key (neighborhood_database self) q = Some r /\
    no_lookup_new (nh_cryptde self) k na (GossipMsg (gossip_new [said_of true r])) = Ok pkg /\ effects = [SendNoLookup pkg].

(** A Neighborhood in working order *)
Record receptive (self : Neighborhood) (k : PublicKey) : Prop := {
  rc_sign : can_sign (nh_cryptde self);
  rc_wf : wf (neighborhood_database self);
  rc_bound : hopper_bound self = true;
  rc_me : can_encrypt_to self (public_key (nh_cryptde self));
  rc_known : forall q, q ∈ {[k]} ∪ keys (neighborhood_database self) -> can_encrypt_to self q }.

Lemma debut_handled_first cryptde db agrs source : DebutHandler.qualifies db agrs source = Matched ->
  acceptor_handle cryptde db agrs source = DebutHandler.handle cryptde db agrs source.
Proof. intros Hq. unfold acceptor_handle. cbn. by rewrite Hq. Qed.

Lemma pass_sent self k na g : hopper_bound self = true -> can_encrypt_to self k ->
  exists pkg, no_lookup_new (nh_cryptde self) k na (GossipMsg g) = Ok pkg /\ nl_public_key pkg = k /\
    send_gossip self g k na = Ret [SendNoLookup pkg].
Proof.
  intros Hb [_ Hk]. destruct (Hk (GossipMsg g)) as [e E]. unfold send_gossip, no_lookup_new. rewrite E.
  eexists. split_and!; [done..|]. unfold send. by rewrite Hb.
Qed.

Lemma half_neighbor_of_root db k rt : node_by_key db (this_node db) = Some rt ->
  db_has_half_neighbor db (this_node db) k = true <-> k ∈ nr_neighbors rt.
Proof. intros Hrt. unfold db_has_half_neighbor. rewrite Hrt. unfold has_half_neighbor. apply bool_decide_eq_true. Qed.

(** The Neighborhood tells its neighbors, among them the Node that has been taken in. *)
Lemma taken_in_and_told self db' k : receptive self k ->
  taken_in (neighborhood_database self) db' k -> keys db' ⊆ {[k]} ∪ keys (neighborhood_database self) ->
  exists self' effects, gossip_to_neighbors keccak256 (with_database db' self) = Ret (self', effects) /\
    taken_in (neighborhood_database self) (neighborhood_database self') k /\ answered self' k effects.
Proof.
  intros [Hs Hwf Hb Hme Hknown] (Hext & Hreach & Hhalf & Hdeg) Hkeys. pose proof Hext as (Hwf' & Hthis & _). rewrite <- Hthis in Hhalf.
  destruct (gossip_to_neighbors_ok keccak256 (with_database db' self)) as (self' & effects & rt & rt' & Eg & Hext' & Hrt & Hrt' & Hi & _ & ks & Hks & Hall);
    [done|done|done|done| |].
  { intros q Hhq. apply Hknown, Hkeys. cbn in Hhq. destruct (wf_root _ Hwf') as [rt Hrt]. apply (half_neighbor_of_root _ _ _ Hrt) in Hhq.
    destruct (wf_neighbors _ Hwf' _ _ Hrt Hhq) as [_ (r & a & Hr & _)]. apply elem_of_keys. by exists r. }
  cbn [neighborhood_database with_database] in *. exists self', effects. split; [done|]. apply (half_neighbor_of_root _ _ _ Hrt) in Hhalf.
  pose proof Hext' as (Hwf'' & Hthis' & _). rewrite <- Hthis' in Hrt'. assert (k ∈ nr_neighbors rt') as Hk by (unfold nr_neighbors; by rewrite Hi).
  split.
  - split_and!; [by eapply extends_trans|by apply (wf_neighbors _ Hwf'' _ _ Hrt' Hk)| |done]. rewrite <- Hthis, <- Hthis'. by apply (half_neighbor_of_root _ _ _ Hrt').
  - assert (k ∈ ks) as Hin by (rewrite Hks; by apply elem_of_elements). apply list_elem_of_lookup in Hin as [n Hn].
    destruct (Forall2_lookup_l _ _ _ _ _ Hall Hn) as (e & He & Hg). exists e. split; [by eapply list_elem_of_lookup_2|by right].
Qed.

Lemma debut_received self agr source :
  receptive self (agr_key agr) -> DebutHandler.qualifies (neighborhood_database self) [agr] source = Matched ->
  exists self' effects, handle_agrs keccak256 self [agr] source = Ret (self', effects) /\
    ((taken_in (neighborhood_database self) (neighborhood_database self') (agr_key agr) /\ answered self' (agr_key agr) effects) \/
     (self' = self /\ (effects = [] \/ passed_on_to_neighbor self (agr_key agr) effects))).
Proof.
  intros Hrc Hq. pose proof Hrc as [Hs Hwf Hb Hme Hknown].
  assert (agr_key agr ∉ keys (neighborhood_database self)) as Hnew
    by (unfold DebutHandler.qualifies in Hq; case_bool_decide as Hn; [done|]; by intros [r Hr]%elem_of_keys; apply Hn; exists r).
  destruct (debut_outcome (nh_cryptde self) Hs _ agr source Hwf Hq) as (db' & res & E & Hext & Hout).
  destruct (handled_debut _ _ _ _ _ _ E) as [Hkeys Hres]. unfold handle_agrs. rewrite debut_handled_first by done. rewrite E. cbn [obind].
  assert (can_encrypt_to self (agr_key agr)) as Henc by (apply Hknown; set_solver).
  assert (with_database (neighborhood_database self) self = self) as Hsame by (by destruct self).
  destruct Hout as [(Hreach & Hhalf & Hdeg)|(-> & Hout)].
  - assert (taken_in (neighborhood_database self) db' (agr_key agr)) as Hin by done. destruct res as [|g k na| |]; cbn in Hres.
    + destruct (taken_in_and_told self db' (agr_key agr)) as (self' & effects & Eg & H1 & H2); [done..|]. exists self', effects. by split; [|left].
    + subst k. destruct (pass_sent (with_database db' self) (agr_key agr) na g) as (pkg & _ & Hpk & ->); [done..|]. cbn [obind].
      eexists _, _. split; [done|]. left. split; [done|]. exists (SendNoLookup pkg). split; [by left|]. left. by exists pkg.
    + subst db'. destruct Hreach as (r & _ & Hr & _). exfalso. apply Hnew, elem_of_keys. by exists r.
    + done.
  - rewrite Hsame. destruct Hout as [->|(q & r & rt & na & -> & Hrt & Hq' & Hr)].
    + eexists _, _. split; [done|]. right. split; [done|by left].
    + destruct (pass_sent self (agr_key agr) na (gossip_new [said_of true r])) as (pkg & Ep & Hpk & ->); [done..|]. cbn [obind].
      eexists _, _. split; [done|]. right. split; [done|]. right. by exists rt, q, r, na, pkg.
Qed.
End received.

(** ** The newcomer *)
Section newcomer.
Context `{!EthSign} (keccak256 : bytes -> bytes) `{!HashOrder}.
Context `{!Serde NodeRecordInner} `{!Serde LiveHop} `{!Serde Z} `{!Serde MessageType}.
Context {okay : NodeRecordInner -> Prop} `{!SerdeOk NodeRecordInner okay}.

(** What a Node says of itself, read by another *)
Definition own_record (rt : NodeRecord) : AccessibleGossipRecord :=
  mkAgr (signed_gossip rt) (signature rt) (if nr_accepts_connections rt then Database.node_addr_opt rt else None) (inner rt).

Lemma own_record_read c rt : freshly_signed c rt -> okay (inner rt) -> agr_try_from (said_of true rt) = Some (own_record rt).
Proof.
  intros (v & Hv & Hsg & _) Hok. destruct (serde_roundtrip (inner rt) Hok) as (v' & Hv' & _ & Hback). rewrite Hv in Hv'. injection Hv' as <-.
  unfold agr_try_from, said_of, own_record. destruct (nr_accepts_connections rt); cbn; rewrite Hsg; cbn [plain_data]; by rewrite Hback.
Qed.

Lemma own_record_verifies c d rt `{!CryptPair d c} : freshly_signed c rt -> nr_key rt = public_key c ->
  verify_signature d (agr_signed_gossip (own_record rt)) (agr_signature (own_record rt)) (agr_key (own_record rt)) = Ret true.
Proof. intros (v & _ & Hsg & Hs) Hk. cbn. change (agr_key (own_record rt)) with (nr_key rt). rewrite Hk, Hsg. by apply cp_sign. Qed.

Lemma own_record_qualifies db rt own source :
  nr_key rt ∉ keys db -> addr_of rt = NodeAddr.clone <$> own -> nr_accepts_connections rt = bool_decide (is_Some own) ->
  (forall a, own = Some a -> NodeAddr.ports a <> [] /\ NodeAddr.ip_addr a = ip source) ->
  DebutHandler.qualifies db [own_record rt] source = Matched.
Proof.
  intros Hk Ha Hacc Hown. unfold DebutHandler.qualifies. change (agr_key (own_record rt)) with (nr_key rt).
  rewrite bool_decide_eq_false_2 by (intros [r Hr]; apply Hk, elem_of_keys; by exists r).
  change (ni_accepts_connections (agr_inner (own_record rt))) with (nr_accepts_connections rt). cbn [own_record agr_node_addr_opt].
  unfold Database.node_addr_opt. fold (addr_of rt). rewrite Ha, Hacc. destruct own as [a|]; [|done]. destruct (Hown a eq_refl) as [Hp Hip]. cbn.
  rewrite bool_decide_eq_false_2 by (by rewrite !NodeAddr.ports_clone_nil).
  by rewrite bool_decide_eq_true_2 by (by rewrite !NodeAddr.ip_addr_clone).
Qed.

(** A Neighborhood that has just been made, and bound *)
Lemma newcomer_made c mode w cw chain descriptor : can_sign c -> NeighborhoodMode.neighbor_configs mode = [descriptor] ->
  exists nh rt, neighborhood_new c mode w cw chain = Ret nh /\ database_new (public_key c) mode w c = Ret (neighborhood_database nh) /\
    node_by_key (neighborhood_database nh) (public_key c) = Some rt /\ freshly_signed c rt /\ nr_key rt = public_key c /\
    addr_of rt = NodeAddr.clone <$> NeighborhoodMode.node_addr_opt mode /\
    nr_accepts_connections rt = bool_decide (is_Some (NeighborhoodMode.node_addr_opt mode)) /\
    handle_start (handle_bind nh) = (let* e := debut_to (handle_bind nh) (gossip_new [said_of true rt]) descriptor in Ret [e]) /\
    nh_cryptde nh = c /\ chain_id nh = chain.
Proof.
  intros Hs Hn. destruct (database_new_wf (public_key c) mode w c Hs) as (db & rt & E & Hwf & Hthis & Hone & Hf & _ & _ & _ & _ & Ha & Hacc & _).
  assert (node_by_key db (public_key c) = Some rt) as Hrt by (unfold node_by_key; rewrite Hone; apply lookup_singleton_eq).
  unfold neighborhood_new. rewrite E. destruct (NeighborhoodMode.is_zero_hop mode) eqn:Ez; [destruct mode; done|]. cbn [andb obind].
  eexists _, rt. split_and!; [done|done|done|done|by apply (wf_keys _ Hwf)|done| | |done|done].
  - rewrite Hacc. by destruct mode.
  - unfold handle_start. cbn [initial_neighbors handle_bind neighborhood_database]. rewrite Hn, bool_decide_eq_false_2 by done.
    rewrite (produce_debut_ok db rt) by (by rewrite ?Hthis). cbn [obind omapM]. done.
Qed.
End newcomer.

(** ** Properties *)

(** C7: a new Node finds its way into the network. It was started with one descriptor, as another Node prints it with its address, in a
    mode in which, if it accepts connections at all, it does so where its data comes from; the other has never heard of it. Then its
    Neighborhood is made, and sends its debut by its Hopper, to the first port of that address; the other's Hopper hands what
    arrives there to its Neighborhood, and that (1) takes the newcomer in: its degree was below the maximum, the newcomer is in the database with an address
    and is one of its neighbors, no other record has become older or lost its address, and the newcomer is answered; or (2) changes
    nothing, and tells the newcomer of one of its neighbors instead, or does not answer. Nothing on the way panics. *)
Theorem newcomer_is_taken_in_or_passed_on `{!EthSign} (keccak256 : bytes -> bytes) `{!HashOrder}
    `{!Serde NodeRecordInner} `{!Serde LiveHop} `{!Serde Z} `{!Serde LiveCoresPackage} `{!Serde MessageType}
    `{!SerdeOk LiveHop hop_on_wire} `{!SerdeOk LiveCoresPackage (fun p => lcp_version p = VERSION_0_0)}
    {good : MessageType -> Prop} `{!SerdeOk MessageType good} {okay : NodeRecordInner -> Prop} `{!SerdeOk NodeRecordInner okay}
    (c d : CryptDE) `{!CryptPair c c} `{!CryptPair c d} `{!CryptPair d c} (chain : Z) `{!Introduces c d chain}
    mode w cw (na : NodeAddr.NodeAddr) show_v6 descriptor (other : Neighborhood) (hopper hopper' : HopperActor.HopperConfig) cache source port :
  (forall g, good (GossipMsg g)) -> can_sign c ->
  (forall db rt, database_new (public_key c) mode w c = Ret db -> node_by_key db (public_key c) = Some rt -> okay (inner rt)) ->
  printable na -> NodeDescriptor.to_string show_v6 (NodeDescriptor.mk (public_key d) (Some na)) d chain = Ret descriptor ->
  NeighborhoodMode.neighbor_configs mode = [descriptor] ->
  (forall own, NeighborhoodMode.node_addr_opt mode = Some own -> NodeAddr.ports own <> [] /\ NodeAddr.ip_addr own = ip source) ->
  HopperActor.config_cryptde hopper = c -> HopperActor.config_cryptde hopper' = d -> nh_cryptde other = d ->
  receptive other (public_key c) -> public_key c ∉ keys (neighborhood_database other) ->
  exists nh pkg addr bytes x other' effects,
    neighborhood_new c mode w cw chain = Ret nh /\
    handle_start (handle_bind nh) = Ret [SendNoLookup pkg] /\
    head (NodeAddr.into_socket_addrs na) = Some addr /\
    HopperActor.handle_no_lookup keccak256 (HopperActor.handle_bind (HopperActor.new hopper)) pkg =
      Ret [ToDispatcher (mkTransmitDataMsg (Socket addr) false None bytes)] /\
    HopperActor.handle_inbound cache (HopperActor.handle_bind (HopperActor.new hopper')) (mkInboundClientData source port false true None bytes) =
      Ret [ToNeighborhood x] /\
    handle_expired_gossip keccak256 other x = Ret (other', effects) /\
    ((taken_in (neighborhood_database other) (neighborhood_database other') (public_key c) /\ answered keccak256 other' (public_key c) effects) \/
     (other' = other /\ (effects = [] \/ passed_on_to_neighbor other (public_key c) effects))).
Proof.
  intros Hgood Hs Hokay Hna Hd Hn Hown Hh Hh' Ho Hrc Hnew.
  destruct (newcomer_made c mode w cw chain descriptor Hs Hn) as (nh & rt & Enh & Edb & Hrt & Hf & Hk & Ha & Hacc & Hstart & Hc & Hchain).
  destruct (introduces show_v6 na Hna) as (descriptor' & k & Hd' & Hread & Hsame). rewrite Hd in Hd'. injection Hd' as <-.
  destruct (no_lookup_gets_through keccak256 c d k Hsame na (gossip_new [said_of true rt])) as (pkg & addr & bytes & Epkg & Haddr & Esend & Ereceive);
    [by apply Hgood|by apply Hna|].
  destruct (Ereceive cache (RoutingService.mk d (HopperActor.config_per_routing_service hopper') (HopperActor.config_per_routing_byte hopper')
    (HopperActor.config_is_decentralized hopper')) (mkInboundClientData source port false true None bytes) eq_refl eq_refl) as (route & size & Eroute).
  rewrite <- Hk in Hrc, Hnew |- *.
  destruct (debut_received keccak256 other (own_record rt) source) as (other' & effects & Egossip & Hout);
    [done|by eapply own_record_qualifies|].
  exists nh, pkg, addr, bytes, (mkExpired source None route (gossip_new [said_of true rt]) size), other', effects. split_and!; [done| | | | | |exact Hout].
  - rewrite Hstart. unfold debut_to. change (nh_cryptde (handle_bind nh)) with (nh_cryptde nh). change (chain_id (handle_bind nh)) with (chain_id nh).
    rewrite Hc, Hchain, Hread. cbn [obind expect_ok NodeDescriptor.node_addr_opt NodeDescriptor.public_key]. by rewrite Epkg.
  - by rewrite <- (NodeAddr.clone_id na), <- (NodeAddr.clone_id (NodeAddr.clone na)) by (apply Hna || apply NodeAddr.clone_normal).
  - unfold HopperActor.handle_no_lookup. cbn. by rewrite Hh.
  - unfold HopperActor.handle_inbound. cbn. by rewrite Hh'.
  - unfold handle_expired_gossip, handle_gossip. cbn [payload immediate_neighbor node_records gossip_new].
    assert (agr_try_from (said_of true rt) = Some (own_record rt)) as Er by (apply (own_record_read c); [done|by eapply Hokay]).
    unfold omap, list_omap. rewrite Er. cbn [length Nat.ltb Nat.leb oany]. unfold signature_invalid. rewrite Ho, (own_record_verifies c d rt) by done. exact Egossip.
Qed.

(** Two Nodes with the library of [toy_sodium]; the one with the key of 9s is alone so far. *)
Definition toy_newcomer : CryptDE := @as_cryptde toy_sodium (toy_real 5).
Definition toy_other : CryptDE := @as_cryptde toy_sodium (toy_real 9).

Definition toy_descriptor : str :=
  match NodeDescriptor.to_string (fun _ => []) (NodeDescriptor.mk (public_key toy_other) (Some sample_node_addr)) toy_other 1 with
  | Ret s => s
  | _ => []
  end.

Lemma toy_descriptor_printed :
  NodeDescriptor.to_string (fun _ => []) (NodeDescriptor.mk (public_key toy_other) (Some sample_node_addr)) toy_other 1 = Ret toy_descriptor.
Proof. reflexivity. Qed.

Lemma toy_real_signs n : @can_sign (countable_serde NodeRecordInner) (@as_cryptde toy_sodium (toy_real n)).
Proof. intros i. by do 2 eexists. Qed.

Lemma toy_real_encrypts nh q : nh_cryptde nh = toy_other -> length (key_data q) = 64%nat ->
  @can_encrypt_to (countable_serde LiveHop) (countable_serde MessageType) nh q.
Proof.
  intros Hc Hq. assert (forall p, exists e, encode toy_other q p = Ok e) as He.
  { intros p. cbn. unfold real_encode. rewrite Hq. cbn. unfold encryption_public_key_from. rewrite Hq. by eexists. }
  split; intros x; unfold encodex; rewrite Hc; cbn [to_vec countable_serde];
    match goal with |- context [encode toy_other q ?p] => destruct (He p) as [e ->] end; by eexists.
Qed.

Lemma toy_receptive : exists db, @database_new (countable_serde NodeRecordInner) (public_key toy_other)
    (NeighborhoodMode.Standard sample_node_addr [] DEFAULT_RATE_PACK) (mkWallet (Address [1])) toy_other = Ret db /\
  (public_key toy_newcomer ∉ keys db) /\
  @receptive (countable_serde NodeRecordInner) (countable_serde LiveHop) (countable_serde MessageType)
    (mkNeighborhood toy_other true db None 7 [] 1) (public_key toy_newcomer).
Proof.
  destruct (@database_new_wf (countable_serde NodeRecordInner) (public_key toy_other) (NeighborhoodMode.Standard sample_node_addr [] DEFAULT_RATE_PACK)
    (mkWallet (Address [1])) toy_other (toy_real_signs 9)) as (db & rt & E & Hwf & Hthis & Hone & _).
  exists db. split; [exact E|]. unfold keys. rewrite Hone, dom_singleton_L. split.
  - intros Hin%elem_of_singleton. discriminate.
  - constructor; [apply toy_real_signs|exact Hwf|done|by apply toy_real_encrypts|]. intros q Hq. apply toy_real_encrypts; [done|].
    cbn [neighborhood_database] in Hq. unfold keys in Hq. rewrite Hone, dom_singleton_L in Hq. apply elem_of_union in Hq as [->%elem_of_singleton| ->%elem_of_singleton]; reflexivity.
Qed.

Lemma newcomer_is_taken_in_or_passed_on_witness :
  exists db nh pkg, @database_new (countable_serde NodeRecordInner) (public_key toy_other)
      (NeighborhoodMode.Standard sample_node_addr [] DEFAULT_RATE_PACK) (mkWallet (Address [1])) toy_other = Ret db /\
    @neighborhood_new (countable_serde NodeRecordInner) toy_newcomer (NeighborhoodMode.OriginateOnly [toy_descriptor] DEFAULT_RATE_PACK)
      (mkWallet (Address [2])) None 1 = Ret nh /\
    @handle_start (countable_serde MessageType) (handle_bind nh) = Ret [SendNoLookup pkg].
Proof.
  destruct toy_receptive as (db & E & Hnew & Hrc).
  pose proof (@real_pair toy_sodium (fun b => b) toy_sodium_ok 1 (toy_real 5) (toy_real 5) (toy_real_made 5) (toy_real_made 5)) as P1.
  pose proof (@real_pair toy_sodium (fun b => b) toy_sodium_ok 1 (toy_real 5) (toy_real 9) (toy_real_made 5) (toy_real_made 9)) as P2.
  pose proof (@real_pair toy_sodium (fun b => b) toy_sodium_ok 1 (toy_real 9) (toy_real 5) (toy_real_made 9) (toy_real_made 5)) as P3.
  pose proof (@real_introduces toy_sodium (fun b => b) toy_sodium_ok 1 (toy_real 5) (toy_real 9) ltac:(by eexists) (toy_real_made 5) (toy_real_made 9)) as P4.
  destruct (@newcomer_is_taken_in_or_passed_on toy_eth (fun b => b) elements_order (countable_serde NodeRecordInner) (countable_serde LiveHop)
    (countable_serde Z) (countable_serde LiveCoresPackage) (countable_serde MessageType) (countable_serde_ok _ _) (countable_serde_ok _ _)
    (fun _ => True) (countable_serde_ok _ _) (fun _ => True) (countable_serde_ok _ _) toy_newcomer toy_other P1 P2 P3 1 P4
    (NeighborhoodMode.OriginateOnly [toy_descriptor] DEFAULT_RATE_PACK) (mkWallet (Address [2])) None sample_node_addr (fun _ => []) toy_descriptor
    (mkNeighborhood toy_other true db None 7 [] 1) (HopperActor.mkConfig toy_newcomer 1 1 true) (HopperActor.mkConfig toy_other 1 1 true) ∅
    (toy_source 5) None) as (nh & pkg & _ & _ & _ & _ & _ & H1 & H2 & _); try done.
  - apply toy_real_signs.
  - split_and!; [exists 1, 2, 3, 4; split_and!; [done|..]; unfold uint; lia| |done|].
    + unfold NodeAddr.normal. repeat constructor; cbn; lia.
    + unfold uint, NodeAddr.LOWEST_USABLE_INSECURE_PORT. repeat constructor; cbn; lia.
  - by exists db, nh, pkg.
Defined.
