(* ===== verification/DotGraph.v ===== *)
(** * DotGraph: the database and Gossip as graphs

    neighborhood/dot_graph.rs, and the graphs that neighborhood_database.rs and gossip.rs make: the answer to the user interface's
    request, and what a Node that logs at trace level writes about Gossip. *)
From S2P Require Import Prelude Text SubLib Cryptde Wallet Route SequenceBuffer Messages Database Gossip Neighborhood.
From Stdlib Require Import Ascii.

Record NodeRenderableInner := mkRenderableInner { rn_version : Z; rn_accepts_connections : bool; rn_routes_data : bool }.

Record NodeRenderable := mkNodeRenderable {
  rn_inner : option NodeRenderableInner;
  rn_public_key : PublicKey;
  rn_node_addr : option NodeAddr.NodeAddr;
  known_source : bool;
  known_target : bool;
  is_present : bool }.

Record EdgeRenderable := mkEdgeRenderable { from : PublicKey; to : PublicKey }.

Record DotGossipEndpoint := mkEndpoint { ep_public_key : PublicKey; ep_node_addr_opt : option NodeAddr.NodeAddr }.

Record SrcDestRenderable := mkSrcDest { sd_name : str; prefix : str; node : DotGossipEndpoint }.

(** The implementations of [DotRenderable] *)
Inductive DotRenderable :=
| Node (n : NodeRenderable)
| Edge (e : EdgeRenderable)
| SrcDest (s : SrcDestRenderable)
| SrcDestEdge.

Definition node_of (r : DotRenderable) : option NodeRenderable := match r with Node n => Some n | _ => None end.
Definition edge_of (r : DotRenderable) : option EdgeRenderable := match r with Edge e => Some e | _ => None end.


(** ** The text *)
Section render.
Context (show_key : PublicKey -> str) (show_v6 : list Z -> str).

Definition truncated (k : PublicKey) : str := let s := show_key k in if (8 <? length s)%nat then take 8 s else s.

Definition show_ip (i : IpAddr) : str := match i with V4 a b c d => NodeAddr.show_v4 a b c d | V6 s => show_v6 s end.

Definition render_label (self : NodeRenderable) : str :=
  let inner_string := match rn_inner self with
                      | Some i => lit (if rn_accepts_connections i then "A" else "a") ++ lit (if rn_routes_data i then "R" else "r") ++
                          lit " v" ++ dec (rn_version i) ++ lit "\n"
                      | None => []
                      end in
  let node_addr_string := match rn_node_addr self with None => [] | Some na => lit "\n" ++ NodeAddr.to_string show_v6 na end in
  lit " [label=" ++ quoted (inner_string ++ truncated (rn_public_key self) ++ node_addr_string) ++ lit "]".

Definition render_node (self : NodeRenderable) : str :=
  quoted (show_key (rn_public_key self)) ++ render_label self ++
  lit (if negb (is_present self) then " [shape=none]" else if known_target self then " [shape=box]" else "") ++
  lit (if known_source self then " [style=filled]" else "") ++ lit ";".

Definition render_edge (self : EdgeRenderable) : str :=
  quoted (show_key (from self)) ++ lit " -> " ++ quoted (show_key (to self)) ++ lit ";".

Definition render_src_dest (self : SrcDestRenderable) : str :=
  let socket_addr_str := match ep_node_addr_opt (node self) with Some na => show_ip (NodeAddr.ip_addr na) | None => lit "Unknown" end in
  quoted (sd_name self) ++ lit " [label=" ++
  quoted (prefix self ++ lit "\n" ++ truncated (ep_public_key (node self)) ++ lit "\n" ++ socket_addr_str) ++ lit "];".

Definition render (r : DotRenderable) : str :=
  match r with
  | Node n => render_node n
  | Edge e => render_edge e
  | SrcDest s => render_src_dest s
  | SrcDestEdge => quoted (lit "src") ++ lit " -> " ++ quoted (lit "dest") ++ lit " [arrowhead=empty];"
  end.

Definition render_dot_graph (renderables : list DotRenderable) : str :=
  lit "digraph db {" ++ flat_map (fun r => lit " " ++ render r) renderables ++ lit " }".
End render.

(** ** What both graphs have in common *)

(** The Nodes that are only mentioned as neighbors *)
Definition missing (k : PublicKey) : NodeRenderable := mkNodeRenderable None k None false false false.

Definition edges_from (k : PublicKey) (neighbors : list PublicKey) : list EdgeRenderable := map (mkEdgeRenderable k) neighbors.

Section graphs.
Context `{!HashOrder}.

(** From what is known of each Node, with its neighbors in the order in which the set yields them *)
Definition graph (records : list (NodeRenderable * gset PublicKey)) : list NodeRenderable * list EdgeRenderable :=
  let present : gset PublicKey := list_to_set (map (fun r => rn_public_key r.1) records) in
  let mentioned : gset PublicKey := ⋃ (map snd records) in
  (map fst records ++ map missing (hash_iter [] (mentioned ∖ present)),
   flat_map (fun r => edges_from (rn_public_key r.1) (hash_iter [rn_public_key r.1] r.2)) records).

(** ** The database *)
Definition node_renderable (db : NeighborhoodDatabase) (nr : NodeRecord) : outcome (NodeRenderable * gset PublicKey) :=
  let* rt := root db in
  Ret (mkNodeRenderable (Some (mkRenderableInner (nr_version nr) (nr_accepts_connections nr) (nr_routes_data nr))) (nr_key nr) (node_addr_opt nr)
         (bool_decide (nr_key nr = nr_key rt)) false true, nr_neighbors nr).

Definition to_dot_renderables (db : NeighborhoodDatabase) : outcome (list DotRenderable) :=
  let* node_records := omapM (fun k => expect (node_by_key db k)) (hash_iter [] (keys db)) in
  let* rs := omapM (node_renderable db) node_records in
  let (nodes, edges) := graph rs in
  Ret (map Node nodes ++ map Edge edges).

Definition to_dot_graph (show_key : PublicKey -> str) (show_v6 : list Z -> str) (db : NeighborhoodDatabase) : outcome str :=
  let* rs := to_dot_renderables db in Ret (render_dot_graph show_key show_v6 rs).

(** [Handler<NeighborhoodDotGraphRequest>]: the answer; its recipient is bound with the others. *)
Definition handle_dot_graph_request (show_key : PublicKey -> str) (show_v6 : list Z -> str) (self : Neighborhood) : outcome str :=
  if hopper_bound self then to_dot_graph show_key show_v6 (neighborhood_database self) else Panic.

(** ** Gossip *)
Context `{!Serde NodeRecordInner}.

Definition endpoint_from_record (r : NodeRecord) : DotGossipEndpoint := mkEndpoint (nr_key r) (node_addr_opt r).

Definition endpoint_from_agr (a : AccessibleGossipRecord) : DotGossipEndpoint := mkEndpoint (ni_public_key (agr_inner a)) (agr_node_addr_opt a).

Definition endpoint_from_gnr (g : GossipNodeRecord) : DotGossipEndpoint :=
  match agr_try_from g with Some a => endpoint_from_agr a | None => mkEndpoint (mkPublicKey []) None end.

Definition endpoint_from_key_in (db : NeighborhoodDatabase) (k : PublicKey) : DotGossipEndpoint :=
  match node_by_key db k with Some r => endpoint_from_record r | None => mkEndpoint (mkPublicKey []) None end.

Definition endpoint_from_ip_addr (i : IpAddr) : DotGossipEndpoint := mkEndpoint (mkPublicKey []) (Some (NodeAddr.new i [0])).

Definition endpoint_from_socket_addr (a : SocketAddr) : DotGossipEndpoint := mkEndpoint (mkPublicKey []) (Some (NodeAddr.new (ip a) [port a])).

Definition src (e : DotGossipEndpoint) : SrcDestRenderable := mkSrcDest (lit "src") (lit "Gossip From:") e.
Definition dest (e : DotGossipEndpoint) : SrcDestRenderable := mkSrcDest (lit "dest") (lit "Gossip To:") e.

(** A record that cannot be read is not implemented. *)
Definition gossip_node_renderable (source target : DotGossipEndpoint) (g : GossipNodeRecord) : outcome (NodeRenderable * gset PublicKey) :=
  let* nri := expect (from_slice (plain_data (signed_data g))) in
  Ret (mkNodeRenderable (Some (mkRenderableInner (ni_version nri) (ni_accepts_connections nri) (ni_routes_data nri))) (ni_public_key nri)
         (gnr_node_addr_opt g) (bool_decide (ni_public_key nri = ep_public_key source)) (bool_decide (ni_public_key nri = ep_public_key target)) true,
       ni_neighbors nri).

Definition gossip_to_dot_renderables (g : Gossip) (source target : DotGossipEndpoint) : outcome (list DotRenderable) :=
  let* rs := omapM (gossip_node_renderable source target) (node_records g) in
  let (nodes, edges) := graph rs in
  Ret (map Node nodes ++ map Edge edges ++ [SrcDest (src source); SrcDest (dest target); SrcDestEdge]).

Definition gossip_to_dot_graph (show_key : PublicKey -> str) (show_v6 : list Z -> str) (g : Gossip) (source target : DotGossipEndpoint) : outcome str :=
  let* rs := gossip_to_dot_renderables g source target in Ret (render_dot_graph show_key show_v6 rs).

(** [log_incoming_gossip], which happens before the Gossip is looked at; the text is only made when the level is trace. *)
Definition log_incoming_gossip (show_key : PublicKey -> str) (show_v6 : list Z -> str) (trace : bool) (self : Neighborhood) (g : Gossip)
    (gossip_source : SocketAddr) : outcome (option str) :=
  let source := match node_by_ip (neighborhood_database self) (ip gossip_source) with
                | Some r => endpoint_from_record r
                | None => endpoint_from_socket_addr gossip_source
                end in
  if trace then
    let* rt := root (neighborhood_database self) in
    let* text := gossip_to_dot_graph show_key show_v6 g source (endpoint_from_record rt) in
    Ret (Some text)
  else Ret None.
End graphs.

(** ** What the graphs show *)
Section shown.
Context `{!HashOrder}.

Lemma edges_shown (records : list (NodeRenderable * gset PublicKey)) e :
  e ∈ (graph records).2 <-> exists r, r ∈ records /\ from e = rn_public_key r.1 /\ to e ∈ r.2.
Proof.
  cbn. rewrite list_elem_of_In, in_flat_map. setoid_rewrite <- list_elem_of_In. split.
  - intros (r & Hr & He). unfold edges_from in He. apply list_elem_of_fmap in He as (k & -> & Hk%elem_of_hash_iter). by exists r.
  - intros (r & Hr & Hf & Ht). exists r. split; [done|]. apply list_elem_of_fmap. exists (to e). rewrite elem_of_hash_iter.
    split; [|done]. rewrite <- Hf. by destruct e.
Qed.

Lemma nodes_shown (records : list (NodeRenderable * gset PublicKey)) n :
  n ∈ (graph records).1 <-> n ∈ map fst records \/
    (n = missing (rn_public_key n) /\ (rn_public_key n ∉ map (fun r => rn_public_key r.1) records) /\
     exists r, r ∈ records /\ rn_public_key n ∈ r.2).
Proof.
  cbn. rewrite elem_of_app. apply or_iff_compat_l. split.
  - intros (k & -> & Hk%elem_of_hash_iter)%list_elem_of_fmap. cbn. rewrite elem_of_difference, elem_of_union_list, elem_of_list_to_set in Hk.
    destruct Hk as [(X & (r & -> & Hr)%list_elem_of_fmap & Hk) Hn]. split_and!; [done..|]. by exists r.
  - intros (E & Hn & r & Hr & Hk). apply list_elem_of_fmap. exists (rn_public_key n). split; [done|]. apply elem_of_hash_iter.
    rewrite elem_of_difference, elem_of_union_list, elem_of_list_to_set. split; [|done]. exists r.2. split; [|done]. apply list_elem_of_fmap. by exists r.
Qed.

Lemma nodes_once (records : list (NodeRenderable * gset PublicKey)) :
  NoDup (map (fun r => rn_public_key r.1) records) -> NoDup (map rn_public_key (graph records).1).
Proof.
  intros Hd. cbn. rewrite map_app, !map_map. apply NoDup_app. split_and!.
  - done.
  - intros k Hk (k' & -> & Hk'%elem_of_hash_iter)%list_elem_of_fmap. rewrite elem_of_difference, elem_of_list_to_set in Hk'. by destruct Hk'.
  - cbn. rewrite map_id. apply NoDup_hash_iter.
Qed.

Lemma edges_once (records : list (NodeRenderable * gset PublicKey)) :
  NoDup (map (fun r => rn_public_key r.1) records) -> NoDup (graph records).2.
Proof.
  induction records as [|r rs IH]; [by constructor|]. cbn. intros [Hn Hd]%NoDup_cons. apply NoDup_app. split_and!.
  - unfold edges_from. apply NoDup_fmap; [by intros ? ? [= ->]|apply NoDup_hash_iter].
  - intros e (k & -> & _)%list_elem_of_fmap He%(edges_shown rs). destruct He as (r' & Hr' & Hf & _). cbn in Hf. apply Hn, list_elem_of_fmap. by exists r'.
  - by apply IH.
Qed.

Definition shown (this : PublicKey) (r : NodeRecord) : NodeRenderable :=
  mkNodeRenderable (Some (mkRenderableInner (nr_version r) (nr_accepts_connections r) (nr_routes_data r))) (nr_key r) (node_addr_opt r)
    (bool_decide (nr_key r = this)) false true.

(** Each record comes once. *)
Lemma records_of_database db : wf db ->
  exists l, omapM (fun k => expect (node_by_key db k)) (hash_iter [] (keys db)) = Ret l /\ map nr_key l = hash_iter [] (keys db) /\
    forall r, r ∈ l <-> node_by_key db (nr_key r) = Some r.
Proof.
  intros Hwf. assert (exists l, omapM (fun k => expect (node_by_key db k)) (hash_iter [] (keys db)) = Ret l) as [l El].
  { apply omapM_total. intros k (r & Hk)%elem_of_hash_iter%elem_of_keys. exists r. by apply expect_ret. }
  exists l. split; [done|]. apply omapM_ret_Forall2 in El as Hl. split.
  - clear El. induction Hl as [|k r ks rs Hk Hl IH]; [done|]. cbn. apply expect_ret in Hk. by rewrite (wf_keys db Hwf _ _ Hk), IH.
  - intros r. split.
    + intros (i & Hi)%list_elem_of_lookup. destruct (Forall2_lookup_r _ _ _ _ _ Hl Hi) as (k & _ & Hk%expect_ret). by rewrite (wf_keys db Hwf _ _ Hk).
    + intros Hr. assert (nr_key r ∈ hash_iter [] (keys db)) as (i & Hi)%list_elem_of_lookup by (apply elem_of_hash_iter, elem_of_keys; by exists r).
      destruct (Forall2_lookup_l _ _ _ _ _ Hl Hi) as (r' & Hr' & Hk%expect_ret). apply list_elem_of_lookup. exists i. congruence.
Qed.

Lemma renderables_of_database db rt l : node_by_key db (this_node db) = Some rt -> nr_key rt = this_node db ->
  omapM (node_renderable db) l = Ret (map (fun r => (shown (this_node db) r, nr_neighbors r)) l).
Proof.
  intros Hrt Hk. apply omapM_ret_Forall2. induction l; constructor; [|done]. unfold node_renderable, root. rewrite Hrt. cbn. by rewrite Hk.
Qed.

(** The graph of a well-formed database can always be made, in whatever order sets are iterated. It has a node for each record, with
    what the record says and the mark of this Node, another for each Node that is only mentioned, no Node twice, and exactly one
    edge from each Node to each of its neighbors. *)
Theorem dot_graph_shows_the_database db :
  wf db ->
  exists nodes edges, to_dot_renderables db = Ret (map Node nodes ++ map Edge edges) /\
    NoDup (map rn_public_key nodes) /\ NoDup edges /\
    (forall n, n ∈ nodes <-> let k := rn_public_key n in
      (exists r, node_by_key db k = Some r /\ n = shown (this_node db) r) \/
      (n = missing k /\ node_by_key db k = None /\ exists k' r, node_by_key db k' = Some r /\ k ∈ nr_neighbors r)) /\
    forall e, e ∈ edges <-> exists r, node_by_key db (from e) = Some r /\ to e ∈ nr_neighbors r.
Proof.
  intros Hwf. destruct (wf_root db Hwf) as [rt Hrt]. pose proof (wf_keys db Hwf _ _ Hrt) as Hrk.
  destruct (records_of_database db Hwf) as (l & El & Hkeys & Hin).
  set (records := map (fun r => (shown (this_node db) r, nr_neighbors r)) l).
  assert (map (fun r => rn_public_key r.1) records = hash_iter [] (keys db)) as Hk by (unfold records; by rewrite map_map).
  assert (NoDup (map (fun r => rn_public_key r.1) records)) as Hd by (rewrite Hk; apply NoDup_hash_iter).
  assert (forall p, p ∈ records <-> exists r, p = (shown (this_node db) r, nr_neighbors r) /\ node_by_key db (nr_key r) = Some r) as Hrec
    by (intros p; unfold records; rewrite list_elem_of_fmap; by setoid_rewrite Hin).
  exists (graph records).1, (graph records).2. split_and!; [|by apply nodes_once|by apply edges_once|intros n|intros e].
  - unfold to_dot_renderables. rewrite El. cbn [obind]. by rewrite (renderables_of_database db rt).
  - rewrite nodes_shown, Hk, elem_of_hash_iter, elem_of_keys, list_elem_of_fmap. setoid_rewrite Hrec. cbn. split.
    + intros [(p & -> & r & -> & Hr)|(E & Hn & p & (r & -> & Hr) & Hm)]; [left; exists r; split; [exact Hr|reflexivity]|right]. split_and!; [done| |by exists (nr_key r), r].
      destruct (node_by_key db (rn_public_key n)) eqn:E'; [exfalso|done]. apply Hn. by eexists.
    + intros [(r & Hr & E)|(E & Hn & k' & r & Hr & Hm)].
      * left. exists (n, nr_neighbors r). split; [done|]. exists r. rewrite E in Hr. by rewrite <- E.
      * right. rewrite Hn. split_and!; [done|by intros [? ?]|]. exists (shown (this_node db) r, nr_neighbors r). split; [|done].
        exists r. by rewrite (wf_keys db Hwf _ _ Hr).
  - rewrite edges_shown. setoid_rewrite Hrec. split.
    + intros (p & (r & -> & Hr) & Hf & Ht). exists r. cbn in *. by rewrite Hf.
    + intros (r & Hr & Ht). exists (shown (this_node db) r, nr_neighbors r). pose proof (wf_keys db Hwf _ _ Hr) as Hkr. split_and!; [|done|done].
      exists r. by rewrite Hkr.
Qed.

(** At trace level, one record that cannot be read makes the Neighborhood panic before it has looked at the Gossip, which it would
    ignore. *)
Lemma unreadable_gossip_panics_at_trace_level `{!Serde NodeRecordInner} show_key show_v6 self g from_addr :
  (exists r, r ∈ node_records g /\ from_slice (plain_data (signed_data r)) = (None : option NodeRecordInner)) ->
  (exists t, log_incoming_gossip show_key show_v6 false self g from_addr = Ret t) /\
  forall t, log_incoming_gossip show_key show_v6 true self g from_addr <> Ret t.
Proof.
  intros (r & Hr & E). split; [by eexists|]. intros t (rt & _ & (text & (rs & (rs' & Hall & _)%obind_ret_inv & _)%obind_ret_inv & _)%obind_ret_inv)%obind_ret_inv.
  apply omapM_ret_Forall2 in Hall. apply list_elem_of_lookup in Hr as [i Hi]. destruct (Forall2_lookup_l _ _ _ _ _ Hall Hi) as (p & _ & (nri & E'%expect_ret & _)%obind_ret_inv).
  congruence.
Qed.
End shown.

(** The toy pair: Node A with its neighbor B, which knows A *)
Lemma dot_graph_shows_the_database_witness :
  exists nodes edges, @to_dot_renderables elements_order toy_pair = Ret (map Node nodes ++ map Edge edges) /\ mkEdgeRenderable key_a key_b ∈ edges.
Proof.
  destruct (@dot_graph_shows_the_database elements_order toy_pair toy_pair_wf) as (nodes & edges & E & _ & _ & _ & He).
  exists nodes, edges. split; [exact E|]. apply He. exists toy_pair_root. split; [reflexivity|]. vm_compute. auto.
Defined.

Example dot_graph_text :
  @to_dot_graph elements_order (fun k => map ascii_of_code (key_data k)) (fun _ => []) toy_alone =
    Ret (lit "digraph db { " ++ quoted (lit "A") ++ lit " [label=" ++ quoted (lit "AR v0\nA\n1.2.3.1:1234") ++ lit "] [style=filled]; }").
Proof. vm_compute. reflexivity. Qed.
