(* ===== verification/UiGateway.v ===== *)
(** * UiGateway: the user interface's requests and their answers

    ui_gateway/mod.rs, websocket_supervisor.rs, ui_traffic_converter.rs, shutdown_supervisor.rs and sub_lib/ui_gateway.rs; and the whole
    way of a request through the Blockchain Bridge, the Accountant or the Neighborhood and back. *)
From S2P Require Import Prelude Text SubLib Cryptde Wallet Route Messages Database Accounts Blockchain Accountant Neighborhood DotGraph.

(** ** Messages *)
Module UiMessage.
Inductive UiMessage :=
| GetFinancialStatisticsMessage
| FinancialStatisticsResponse (statistics : FinancialStatisticsMessage)
| SetGasPrice (gas_price : str)
| SetGasPriceResponse (accepted : bool)
| SetWalletPassword (password : str)
| SetWalletPasswordResponse (accepted : bool)
| GetNodeDescriptor
| NodeDescriptor (node_descriptor : str)
| NeighborhoodDotGraphRequest
| NeighborhoodDotGraphResponse (graph : str)
| ShutdownMessage.
End UiMessage.

Record UiCarrierMessage := mkCarrier { cm_client_id : Z; cm_data : UiMessage.UiMessage }.
Record FromUiMessage := mkFromUi { fm_client_id : Z; fm_json : str }.

(** serde_json, as [UiTrafficConverterReal] uses it *)
Class UiTrafficConverter := {
  marshal : UiMessage.UiMessage -> option str;
  unmarshal : str -> option UiMessage.UiMessage }.

Class UiTrafficConverterOk `{!UiTrafficConverter} : Prop := { marshal_total m : is_Some (marshal m) }.

(** ** WebSocketSupervisor *)

(** A client is known by the address at the other end of its connection. *)
Record WebSocketSupervisor := mkSupervisor {
  next_client_id : Z;
  client_id_by_socket_addr : gmap SocketAddr Z;
  client_by_id : gmap Z SocketAddr }.

(** What a client's socket says to a message, and to flushing it *)
Inductive sending := Sent | FlushError | SendError.

Inductive OwnedMessage := Text (message : str) | Close | Binary | Ping | Pong.

Definition supervisor_new : WebSocketSupervisor := mkSupervisor 0 ∅ ∅.

Definition UI_PROTOCOL : str := lit "PrometheusNode-UI".

(** [handle_upgrade_request] *)
Definition accepts_upgrade (protocols : list str) : bool := bool_decide (UI_PROTOCOL ∈ protocols).

Definition handle_connection (self : WebSocketSupervisor) (socket_addr : SocketAddr) : WebSocketSupervisor :=
  let client_id := next_client_id self in
  mkSupervisor (wrap 64 (client_id + 1)) (<[socket_addr := client_id]> (client_id_by_socket_addr self)) (<[client_id := socket_addr]> (client_by_id self)).

(** [send]: the socket that the message is written to *)
Definition supervisor_send (self : WebSocketSupervisor) (client_id : Z) (s : sending) : outcome SocketAddr :=
  match client_by_id self !! client_id with
  | Some client => match s with Sent => Ret client | FlushError | SendError => Panic end
  | None => Panic
  end.

Definition handle_text_message (self : WebSocketSupervisor) (socket_addr : SocketAddr) (message : str) : option FromUiMessage :=
  match client_id_by_socket_addr self !! socket_addr with
  | None => None
  | Some client_id => Some (mkFromUi client_id message)
  end.

Definition close_connection (self : WebSocketSupervisor) (client_id : Z) (s : sending) : outcome unit :=
  match client_by_id self !! client_id with
  | None => Panic
  | Some _ => match s with SendError | Sent => Ret tt | FlushError => Panic end
  end.

Definition handle_close_message (self : WebSocketSupervisor) (socket_addr : SocketAddr) (s : sending) : outcome WebSocketSupervisor :=
  match client_id_by_socket_addr self !! socket_addr with
  | None => Panic
  | Some client_id =>
      let self' := mkSupervisor (next_client_id self) (delete socket_addr (client_id_by_socket_addr self)) (client_by_id self) in
      let* _ := close_connection self' client_id s in Ret self'
  end.

(** What a connection does with one message; [s] is what the socket says to the acknowledgment of a closure. *)
Definition handle_owned_message (self : WebSocketSupervisor) (socket_addr : SocketAddr) (m : OwnedMessage) (s : sending) :
    outcome (WebSocketSupervisor * option FromUiMessage) :=
  match m with
  | Text message => Ret (self, handle_text_message self socket_addr message)
  | Close => let* self' := handle_close_message self socket_addr s in Ret (self', None)
  | Binary | Ping | Pong => Ret (self, None)
  end.

(** The messages of a connection, one after the other. A violation of the protocol ([None]) ends the stream; what the handlers return is an
    item of the stream that is not looked at, so that their errors do not end it. *)
Fixpoint handle_incoming (self : WebSocketSupervisor) (socket_addr : SocketAddr) (incoming : list (option OwnedMessage * sending)) :
    outcome (WebSocketSupervisor * list FromUiMessage) :=
  match incoming with
  | [] | (None, _) :: _ => Ret (self, [])
  | (Some m, s) :: incoming =>
      let* (self1, f) := handle_owned_message self socket_addr m s in
      let* (self2, fs) := handle_incoming self1 socket_addr incoming in
      Ret (self2, option_list f ++ fs)
  end.

(** ** UiGateway *)
Record UiGateway := mkGateway { gw_port : Z; gw_node_descriptor : str; gw_bound : bool }.

Definition gateway_new (ui_port : Z) (node_descriptor : str) : UiGateway := mkGateway ui_port node_descriptor false.

Definition gateway_handle_bind (self : UiGateway) : UiGateway := mkGateway (gw_port self) (gw_node_descriptor self) true.

(** What handling a message leads to: a message to another actor or to itself, one to a client's socket, or the end of the process *)
Inductive ui_effect :=
| ToBridgePassword (client_id : Z) (password : str)
| ToBridgeGasPrice (client_id : Z) (gas_price : str)
| ToAccountant (client_id : Z)
| ToNeighborhood (client_id : Z)
| ToGateway (m : UiCarrierMessage)
| ToSocket (client_id : Z) (marshalled : str)
| Shutdown.

Section gateway.
Context `{!UiTrafficConverter}.

Definition sent_by (self : UiGateway) (e : ui_effect) : outcome ui_effect := if gw_bound self then Ret e else Panic.

(** [Handler<UiCarrierMessage>] *)
Definition handle_ui_carrier_message (self : UiGateway) (msg : UiCarrierMessage) : outcome ui_effect :=
  let client_id := cm_client_id msg in
  match cm_data msg with
  | UiMessage.SetWalletPassword password => sent_by self (ToBridgePassword client_id password)
  | UiMessage.GetFinancialStatisticsMessage => sent_by self (ToAccountant client_id)
  | UiMessage.ShutdownMessage => Ret Shutdown
  | UiMessage.GetNodeDescriptor => sent_by self (ToGateway (mkCarrier client_id (UiMessage.NodeDescriptor (gw_node_descriptor self))))
  | UiMessage.SetGasPrice gas_price => sent_by self (ToBridgeGasPrice client_id gas_price)
  | UiMessage.NodeDescriptor _ | UiMessage.SetWalletPasswordResponse _ | UiMessage.FinancialStatisticsResponse _
  | UiMessage.SetGasPriceResponse _ | UiMessage.NeighborhoodDotGraphResponse _ =>
      let* marshalled := expect (marshal (cm_data msg)) in sent_by self (ToSocket client_id marshalled)
  | UiMessage.NeighborhoodDotGraphRequest => sent_by self (ToNeighborhood client_id)
  end.

(** [Handler<FromUiMessage>] *)
Definition handle_from_ui_message (self : UiGateway) (msg : FromUiMessage) : outcome (option ui_effect) :=
  match unmarshal (fm_json msg) with
  | None => Ret None
  | Some ui_message => let* e := sent_by self (ToGateway (mkCarrier (fm_client_id msg) ui_message)) in Ret (Some e)
  end.
End gateway.

(** ** All that takes part in answering *)
Section system.
Context `{!UiTrafficConverter} `{!HashOrder} `{!Sqlite} `{!ConfigLib}.
Context (show_key : PublicKey -> str) (show_v6 : list Z -> str).

(** A message that has not been handled yet. Each actor handles its own in order, but nothing is assumed of the order here. *)
Inductive mail := FromUi (m : FromUiMessage) | Effect (e : ui_effect).

Record Ui := mkUi {
  gateway : UiGateway;
  sockets : WebSocketSupervisor;
  ui_bridge : BlockchainBridge;
  ui_accountant : Accountant;
  ui_neighborhood : Neighborhood;
  ui_db : Db;
  pending : list mail;
  requests : list (SocketAddr * UiMessage.UiMessage);   (** what was asked, and where *)
  answers : list (SocketAddr * UiMessage.UiMessage) }.  (** what was written, and where *)

Definition with_pending (l : list mail) (w : Ui) : Ui :=
  mkUi (gateway w) (sockets w) (ui_bridge w) (ui_accountant w) (ui_neighborhood w) (ui_db w) l (requests w) (answers w).

Definition bridge_answer (e : bridge_effect) : list mail :=
  match e with
  | SetGasPriceResponse id b => [Effect (ToGateway (mkCarrier id (UiMessage.SetGasPriceResponse b)))]
  | SetWalletPasswordResponse id b => [Effect (ToGateway (mkCarrier id (UiMessage.SetWalletPasswordResponse b)))]
  | SetConsumingWalletToNeighborhood _ | SetConsumingWalletToProxyServer _ => []
  end.

(** The effects that are not messages take place at once. *)
Definition carry_out (s : sending) (w : Ui) (m : UiCarrierMessage) (e : ui_effect) : outcome (option Ui) :=
  match e with
  | Shutdown => Ret None
  | ToSocket id _ =>
      let* a := supervisor_send (sockets w) id s in
      Ret (Some (mkUi (gateway w) (sockets w) (ui_bridge w) (ui_accountant w) (ui_neighborhood w) (ui_db w) (pending w) (requests w) (answers w ++ [(a, cm_data m)])))
  | e => Ret (Some (with_pending (Effect e :: pending w) w))
  end.

(** Handling one message, when it has been taken out of [pending]; [None] is the end of the process. *)
Definition deliver (s : sending) (w : Ui) (x : mail) : outcome (option Ui) :=
  let sending l := with_pending (l ++ pending w) w in
  match x with
  | FromUi m =>
      let* e := handle_from_ui_message (gateway w) m in
      Ret (Some (sending (Effect <$> option_list e)))
  | Effect (ToGateway m) => let* e := handle_ui_carrier_message (gateway w) m in carry_out s w m e
  | Effect (ToBridgePassword id password) =>
      let* (bridge, effects) := handle_set_wallet_password (ui_db w) (ui_bridge w) id password in
      Ret (Some (mkUi (gateway w) (sockets w) bridge (ui_accountant w) (ui_neighborhood w) (ui_db w) (flat_map bridge_answer effects ++ pending w) (requests w) (answers w)))
  | Effect (ToBridgeGasPrice id price) =>
      let* (db, effects) := handle_set_gas_price (ui_db w) (ui_bridge w) id price in
      Ret (Some (mkUi (gateway w) (sockets w) (ui_bridge w) (ui_accountant w) (ui_neighborhood w) db (flat_map bridge_answer effects ++ pending w) (requests w) (answers w)))
  | Effect (ToAccountant id) =>
      let* statistics := handle_get_financial_statistics (ui_accountant w) (ui_db w) in
      Ret (Some (sending [Effect (ToGateway (mkCarrier id (UiMessage.FinancialStatisticsResponse statistics)))]))
  | Effect (ToNeighborhood id) =>
      let* graph := handle_dot_graph_request show_key show_v6 (ui_neighborhood w) in
      Ret (Some (sending [Effect (ToGateway (mkCarrier id (UiMessage.NeighborhoodDotGraphResponse graph)))]))
  | Effect (ToSocket _ _) | Effect Shutdown => Ret (Some w)
  end.

(** A text from a socket; a request is what it unmarshals to. *)
Definition text_arrives (w : Ui) (a : SocketAddr) (text : str) : Ui :=
  match handle_text_message (sockets w) a text with
  | None => w
  | Some f =>
      mkUi (gateway w) (sockets w) (ui_bridge w) (ui_accountant w) (ui_neighborhood w) (ui_db w) (FromUi f :: pending w)
        (requests w ++ ((a,.) <$> option_list (unmarshal text))) (answers w)
  end.

Definition with_sockets (s : WebSocketSupervisor) (w : Ui) : Ui :=
  mkUi (gateway w) s (ui_bridge w) (ui_accountant w) (ui_neighborhood w) (ui_db w) (pending w) (requests w) (answers w).

(** One of the messages that are under way is handled. *)
Inductive delivery (w w' : Ui) : Prop :=
| Delivery s l x l' : pending w = l ++ x :: l' -> deliver s (with_pending (l ++ l') w) x = Ret (Some w') -> delivery w w'.

(** What can happen: clients connect (fewer than 2^64 in all), send texts and close, a message is delivered whenever its turn comes, and meanwhile other
    messages change the other actors and the database in any way. *)
Inductive ui_step : Ui -> Ui -> Prop :=
| Connects w a : next_client_id (sockets w) < 2 ^ 64 - 1 -> ui_step w (with_sockets (handle_connection (sockets w) a) w)
| Asks w a text : ui_step w (text_arrives w a text)
| Closes w a s s' : handle_close_message (sockets w) a s = Ret s' -> ui_step w (with_sockets s' w)
| Delivers w w' : delivery w w' -> ui_step w w'
| Elsewhere w bridge accountant neighborhood db :
    ui_step w (mkUi (gateway w) (sockets w) bridge accountant neighborhood db (pending w) (requests w) (answers w)).

Definition ui_start (g : UiGateway) (bridge : BlockchainBridge) (accountant : Accountant) (neighborhood : Neighborhood) (db : Db) : Ui :=
  mkUi (gateway_handle_bind g) supervisor_new bridge accountant neighborhood db [] [] [].
End system.

(** ** Every request is answered where it was asked *)
Section answered.
Context `{!UiTrafficConverter} `{!HashOrder} `{!Sqlite} `{!ConfigLib}.
Context (show_key : PublicKey -> str) (show_v6 : list Z -> str).

(** What a request and its answer have in common *)
Inductive topic := Statistics | GasPrice | Password | Descriptor | Graph | Exit.

Definition topic_of (m : UiMessage.UiMessage) : topic :=
  match m with
  | UiMessage.GetFinancialStatisticsMessage | UiMessage.FinancialStatisticsResponse _ => Statistics
  | UiMessage.SetGasPrice _ | UiMessage.SetGasPriceResponse _ => GasPrice
  | UiMessage.SetWalletPassword _ | UiMessage.SetWalletPasswordResponse _ => Password
  | UiMessage.GetNodeDescriptor | UiMessage.NodeDescriptor _ => Descriptor
  | UiMessage.NeighborhoodDotGraphRequest | UiMessage.NeighborhoodDotGraphResponse _ => Graph
  | UiMessage.ShutdownMessage => Exit
  end.

Definition is_response (m : UiMessage.UiMessage) : bool :=
  match m with
  | UiMessage.NodeDescriptor _ | UiMessage.SetWalletPasswordResponse _ | UiMessage.FinancialStatisticsResponse _
  | UiMessage.SetGasPriceResponse _ | UiMessage.NeighborhoodDotGraphResponse _ => true
  | _ => false
  end.

(** The client and the topic that a message which is under way is about *)
Definition about (x : mail) : option (Z * topic) :=
  match x with
  | FromUi m => (fun q => (fm_client_id m, topic_of q)) <$> unmarshal (fm_json m)
  | Effect (ToGateway m) => Some (cm_client_id m, topic_of (cm_data m))
  | Effect (ToBridgePassword id _) => Some (id, Password)
  | Effect (ToBridgeGasPrice id _) => Some (id, GasPrice)
  | Effect (ToAccountant id) => Some (id, Statistics)
  | Effect (ToNeighborhood id) => Some (id, Graph)
  | Effect (ToSocket _ _) | Effect Shutdown => None
  end.

(** How many deliveries a message can still lead to *)
Definition weight (x : mail) : nat :=
  match x with
  | FromUi _ => 4
  | Effect (ToGateway m) => if is_response (cm_data m) then 1 else 3
  | Effect (ToBridgePassword _ _) | Effect (ToBridgeGasPrice _ _) | Effect (ToAccountant _) | Effect (ToNeighborhood _) => 2
  | Effect (ToSocket _ _) | Effect Shutdown => 0
  end.

Definition weights (l : list mail) : nat := sum_list_with weight l.

(** A descriptor is the Node's, unless a client has sent it, to whom it then returns. *)
Definition justified (g : UiGateway) (asked : list (SocketAddr * UiMessage.UiMessage)) (a : SocketAddr) (m : UiMessage.UiMessage) : Prop :=
  match m with UiMessage.NodeDescriptor d => d = gw_node_descriptor g \/ (a, m) ∈ asked | _ => True end.

Definition mail_ok (w : Ui) (x : mail) : Prop :=
  match x with
  | FromUi m => exists a, client_by_id (sockets w) !! fm_client_id m = Some a /\ forall q, unmarshal (fm_json m) = Some q -> (a, q) ∈ requests w
  | Effect (ToGateway m) => exists a, client_by_id (sockets w) !! cm_client_id m = Some a /\ justified (gateway w) (requests w) a (cm_data m)
  | Effect (ToBridgePassword id _) | Effect (ToBridgeGasPrice id _) | Effect (ToAccountant id) | Effect (ToNeighborhood id) =>
      is_Some (client_by_id (sockets w) !! id)
  | Effect (ToSocket _ _) | Effect Shutdown => False
  end.

(** What one delivery does *)
Inductive delivered (w : Ui) (x : mail) (w' : Ui) : Prop :=
| Forwarded xs : pending w' = xs ++ pending w -> answers w' = answers w -> omap about xs = option_list (about x) ->
    (weights xs < weight x)%nat -> (mail_ok w x -> Forall (mail_ok w) xs) -> delivered w x w'
| Answered m a : x = Effect (ToGateway m) -> client_by_id (sockets w) !! cm_client_id m = Some a ->
    pending w' = pending w -> answers w' = answers w ++ [(a, cm_data m)] -> (0 < weight x)%nat -> delivered w x w'.

Lemma sent_by_ok g e e' : sent_by g e = Ret e' -> e' = e.
Proof. unfold sent_by. destruct (gw_bound g); [by intros [= <-]|done]. Qed.

Lemma password_answer (db : Db) bridge id password bridge' effects :
  handle_set_wallet_password db bridge id password = Ret (bridge', effects) ->
  exists b, flat_map bridge_answer effects = [Effect (ToGateway (mkCarrier id (UiMessage.SetWalletPasswordResponse b)))].
Proof.
  unfold handle_set_wallet_password. intros ([[b1 effects1] accepted] & E1 & E)%obind_ret_inv. destruct (ui_bound b1); [|done].
  injection E as <- <-. exists accepted. rewrite flat_map_app. cbn.
  assert (flat_map bridge_answer effects1 = []) as ->; [|done]. unfold accept_wallet_password in E1.
  destruct (bb_consuming_wallet bridge); [by simplify_eq|]. apply obind_ret_inv in E1 as ([path|] & _ & E1); [|by simplify_eq].
  apply obind_ret_inv in E1 as ([seed|] & _ & E1); [|by simplify_eq]. apply obind_ret_inv in E1 as (kp & _ & E1).
  destruct (wallet_subs_bound bridge); by simplify_eq.
Qed.

Lemma gas_price_answer (db : Db) bridge id price db' effects :
  handle_set_gas_price db bridge id price = Ret (db', effects) ->
  exists b, flat_map bridge_answer effects = [Effect (ToGateway (mkCarrier id (UiMessage.SetGasPriceResponse b)))].
Proof.
  unfold handle_set_gas_price. intros ([d accepted] & _ & E)%obind_ret_inv. destruct (ui_bound bridge); [|done]. injection E as <- <-. by exists accepted.
Qed.

(** Only what a delivery may change has changed. *)
Definition same_ui (w w' : Ui) : Prop := gateway w' = gateway w /\ sockets w' = sockets w /\ requests w' = requests w.

Lemma forward_one w x w' y :
  pending w' = y :: pending w -> answers w' = answers w -> about x = about y -> is_Some (about y) -> (weight y < weight x)%nat ->
  (mail_ok w x -> mail_ok w y) -> delivered w x w'.
Proof.
  intros Hp Ha E [p Hy] Hw Hok. apply (Forwarded w x w' [y]); [done..| | |].
  - rewrite E. cbn. by rewrite Hy.
  - cbn. lia.
  - intros Hx. by constructor; [apply Hok|].
Qed.

Lemma response_marshalled g id q : is_response q = true ->
  handle_ui_carrier_message g (mkCarrier id q) = (let* t := expect (marshal q) in sent_by g (ToSocket id t)).
Proof. by destruct q. Qed.

Lemma request_forwarded s w id q e w' : is_response q = false -> handle_ui_carrier_message (gateway w) (mkCarrier id q) = Ret e ->
  carry_out s w (mkCarrier id q) e = Ret (Some w') ->
  same_ui w w' /\ pending w' = Effect e :: pending w /\ answers w' = answers w /\ about (Effect e) = Some (id, topic_of q) /\
    (weight (Effect e) < 3)%nat /\ (is_Some (client_by_id (sockets w) !! id) -> mail_ok w (Effect e)).
Proof.
  intros Hr E C. destruct q; try done; cbn in E; [..|by simplify_eq]; apply sent_by_ok in E as ->; injection C as <-; split_and!; try done; try (cbn; lia).
  intros [a Ha]. exists a. cbn. split; [done|by left].
Qed.

Lemma carrier_delivered s w m w' : deliver show_key show_v6 s w (Effect (ToGateway m)) = Ret (Some w') ->
  same_ui w w' /\ delivered w (Effect (ToGateway m)) w'.
Proof.
  destruct m as [id q]. cbn [deliver]. intros (e & E & C)%obind_ret_inv. destruct (is_response q) eqn:Hr.
  - rewrite response_marshalled in E by done. apply obind_ret_inv in E as (t & _ & ->%sent_by_ok). cbn [carry_out] in C.
    apply obind_ret_inv in C as (a & Hs & [= <-]). split; [done|]. apply (Answered _ _ _ (mkCarrier id q) a); try done; cbn.
    + unfold supervisor_send in Hs. destruct (client_by_id _ !! id); [|done]. destruct s; by simplify_eq.
    + rewrite Hr. lia.
  - destruct (request_forwarded s w id q e w' Hr E C) as (Hsame & Hp & Ha & Hab & Hw & Hok). split; [done|].
    apply (forward_one w _ w' (Effect e)); [done|done|by rewrite Hab|by rewrite Hab|cbn [weight cm_data]; by rewrite Hr|].
    intros (a & Ha' & _). apply Hok. by eexists.
Qed.

Lemma from_ui_delivered s w m w' : deliver show_key show_v6 s w (FromUi m) = Ret (Some w') -> same_ui w w' /\ delivered w (FromUi m) w'.
Proof.
  cbn. unfold handle_from_ui_message. destruct (unmarshal (fm_json m)) as [q|] eqn:Eq.
  - intros (e & (e' & ->%sent_by_ok & [= <-])%obind_ret_inv & [= <-])%obind_ret_inv. split; [done|].
    eapply (forward_one _ _ _ (Effect (ToGateway _))); [done|done|cbn; by rewrite Eq|by eexists|cbn; destruct (is_response q); lia|].
    intros (a & Ha & Hq). exists a. split; [done|]. specialize (Hq q Eq). cbn. destruct q; try done. by right.
  - intros [= <-]. split; [done|]. apply (Forwarded _ _ _ []); try done; [cbn; by rewrite Eq|cbn; lia].
Qed.

Lemma deliver_does s w x w' : deliver show_key show_v6 s w x = Ret (Some w') -> mail_ok w x -> same_ui w w' /\ delivered w x w'.
Proof.
  intros E Hok. destruct x as [m|[id password|id price|id|id|m|id t|]]; try done; [by eapply from_ui_delivered|..|by eapply carrier_delivered]; cbn in E.
  - apply obind_ret_inv in E as ([bridge effects] & (b & Hb)%password_answer & [= <-]). split; [done|].
    eapply (forward_one _ _ _ (Effect (ToGateway _))); [cbn; by rewrite Hb|done|done|by eexists|cbn; lia|]. intros [a Ha]. by exists a.
  - apply obind_ret_inv in E as ([db effects] & (b & Hb)%gas_price_answer & [= <-]). split; [done|].
    eapply (forward_one _ _ _ (Effect (ToGateway _))); [cbn; by rewrite Hb|done|done|by eexists|cbn; lia|]. intros [a Ha]. by exists a.
  - apply obind_ret_inv in E as (statistics & _ & [= <-]). split; [done|].
    eapply (forward_one _ _ _ (Effect (ToGateway _))); [done|done|done|by eexists|cbn; lia|]. intros [a Ha]. by exists a.
  - apply obind_ret_inv in E as (graph & _ & [= <-]). split; [done|].
    eapply (forward_one _ _ _ (Effect (ToGateway _))); [done|done|done|by eexists|cbn; lia|]. intros [a Ha]. by exists a.
Qed.

Definition asked (l : list (SocketAddr * UiMessage.UiMessage)) : list (SocketAddr * topic) := map (fun r => (r.1, topic_of r.2)) l.

(** Where the answer to a message will go *)
Definition located (w : Ui) (p : Z * topic) : option (SocketAddr * topic) := (fun a => (a, p.2)) <$> client_by_id (sockets w) !! p.1.

Definition under_way (w : Ui) : list (SocketAddr * topic) := omap (located w) (omap about (pending w)).

#[local] Arguments under_way : simpl never.

Record ui_inv (g : UiGateway) (w : Ui) : Prop := {
  inv_gateway : gateway w = gateway_handle_bind g;
  inv_ids : 0 <= next_client_id (sockets w) /\ forall id, is_Some (client_by_id (sockets w) !! id) -> id < next_client_id (sockets w);
  inv_addrs : forall a id, client_id_by_socket_addr (sockets w) !! a = Some id -> client_by_id (sockets w) !! id = Some a;
  inv_mail : Forall (mail_ok w) (pending w);
  inv_account : asked (requests w) ≡ₚ asked (answers w) ++ under_way w;
  inv_justified : Forall (fun r => justified g (requests w) r.1 r.2) (answers w) }.

Definition extends (w w' : Ui) : Prop :=
  gateway w' = gateway w /\ client_by_id (sockets w) ⊆ client_by_id (sockets w') /\ forall r, r ∈ requests w -> r ∈ requests w'.

Lemma justified_extends g asked asked' a m : (forall r, r ∈ asked -> r ∈ asked') -> justified g asked a m -> justified g asked' a m.
Proof. intros Hs. destruct m; cbn; naive_solver. Qed.

Lemma mail_ok_extends w w' x : extends w w' -> mail_ok w x -> mail_ok w' x.
Proof.
  intros (Hg & Hc & Hr) Hok. assert (forall id a, client_by_id (sockets w) !! id = Some a -> client_by_id (sockets w') !! id = Some a) as Hid
    by (intros; by eapply lookup_weaken).
  destruct x as [m|[]]; cbn in *; unfold is_Some in *; [| |..]; try (destruct Hok as [a Ha]; exists a; by apply Hid); try done.
  - destruct Hok as (a & Ha & Hq). exists a. auto.
  - destruct Hok as (a & Ha & Hj). exists a. split; [auto|]. rewrite Hg. by eapply justified_extends.
Qed.

Lemma about_located w x p : mail_ok w x -> about x = Some p -> is_Some (client_by_id (sockets w) !! p.1).
Proof.
  destruct x as [m|[]]; cbn; try (intros Hok [= <-]; done); try done.
  - intros (a & Ha & _) Ep. destruct (unmarshal _); [|done]. injection Ep as <-. by exists a.
  - intros (a & Ha & _) [= <-]. by exists a.
Qed.

(** What is under way does not change its way. *)
Lemma under_way_extends w w' l : client_by_id (sockets w) ⊆ client_by_id (sockets w') -> Forall (mail_ok w) l ->
  omap (located w') (omap about l) = omap (located w) (omap about l).
Proof.
  intros Hc. induction 1 as [|x l Hx Hl IH]; [done|]. cbn. destruct (about x) as [p|] eqn:E; [|done]. cbn. rewrite IH.
  destruct (about_located w x p Hx E) as [a Ha]. unfold located. rewrite Ha. by rewrite (lookup_weaken _ _ _ _ Ha Hc).
Qed.

Lemma under_way_same w w' : client_by_id (sockets w) ⊆ client_by_id (sockets w') -> Forall (mail_ok w) (pending w) -> pending w' = pending w ->
  under_way w' = under_way w.
Proof. intros Hc Hm Hp. unfold under_way. rewrite Hp. by apply under_way_extends. Qed.

Lemma Forall_mail_extends w w' l : extends w w' -> Forall (mail_ok w) l -> Forall (mail_ok w') l.
Proof. intros He Hl. eapply Forall_impl; [exact Hl|]. intros x. by apply mail_ok_extends. Qed.

Lemma connects_inv g w a : ui_inv g w -> next_client_id (sockets w) < 2 ^ 64 - 1 -> ui_inv g (with_sockets (handle_connection (sockets w) a) w).
Proof.
  intros [Hg [Hn Hids] Ha Hm Hacc Hj] Hlt. assert (client_by_id (sockets w) !! next_client_id (sockets w) = None) as Hfresh.
  { apply eq_None_not_Some. intros Hs%Hids. lia. }
  assert (client_by_id (sockets w) ⊆ client_by_id (handle_connection (sockets w) a)) as Hsub by by apply insert_subseteq.
  assert (extends w (with_sockets (handle_connection (sockets w) a) w)) as He by by split_and!.
  assert (wrap 64 (next_client_id (sockets w) + 1) = next_client_id (sockets w) + 1) as Hw by (apply Z.mod_small; norm_pow; lia).
  constructor; cbn; [done| | | | |done].
  - rewrite Hw. split; [lia|]. intros id. destruct (decide (id = next_client_id (sockets w))) as [->|Hne]; [lia|].
    rewrite lookup_insert_ne by done. intros ?%Hids. lia.
  - intros b id. destruct (decide (b = a)) as [->|Hne]; [rewrite lookup_insert_eq; intros [= <-]; by rewrite lookup_insert_eq|].
    rewrite lookup_insert_ne by done. intros E%Ha. rewrite lookup_insert_ne by congruence. done.
  - by eapply Forall_mail_extends.
  - by rewrite (under_way_same w).
Qed.

Lemma asks_inv g w a text : ui_inv g w -> ui_inv g (text_arrives w a text).
Proof.
  intros [Hg Hids Ha Hm Hacc Hj]. unfold text_arrives, handle_text_message. destruct (client_id_by_socket_addr (sockets w) !! a) as [id|] eqn:E; [|done].
  apply Ha in E. set (w' := mkUi _ _ _ _ _ _ _ _ _). assert (extends w w') as He by (split_and!; [done..|cbn; set_solver]).
  constructor; cbn; [done|done|done| | |].
  - constructor; [|by eapply Forall_mail_extends]. exists a. split; [done|]. cbn. intros q ->. set_solver.
  - assert (under_way w' = ((fun q => (a, topic_of q)) <$> option_list (unmarshal text)) ++ under_way w) as ->.
    { unfold under_way. rewrite <- (under_way_extends w w' (pending w)) by done. change (pending w') with (FromUi (mkFromUi id text) :: pending w).
      cbn [omap list_omap about fm_json]. destruct (unmarshal text) as [q|]; [|done]. cbn [fmap option_fmap option_map omap list_omap fm_client_id].
      unfold located at 1. cbn [fst snd]. change (sockets w') with (sockets w). by rewrite E. }
    unfold asked in *. rewrite map_app, Hacc. destruct (unmarshal text); cbn; [solve_Permutation|by rewrite app_nil_r].
  - eapply Forall_impl; [exact Hj|]. intros r. apply justified_extends. set_solver.
Qed.

Lemma closes_inv g w a s s' : ui_inv g w -> handle_close_message (sockets w) a s = Ret s' -> ui_inv g (with_sockets s' w).
Proof.
  intros [Hg [Hn Hids] Ha Hm Hacc Hj] E. unfold handle_close_message in E. destruct (client_id_by_socket_addr (sockets w) !! a); [|done].
  apply obind_ret_inv in E as (? & _ & [= <-]). constructor; cbn; try done.
  intros b id [_ E]%lookup_delete_Some. by apply Ha.
Qed.

Lemma delivery_does g w w' : ui_inv g w -> delivery show_key show_v6 w w' ->
  exists l x l', pending w = l ++ x :: l' /\ mail_ok w x /\ same_ui w w' /\ delivered (with_pending (l ++ l') w) x w'.
Proof.
  intros Hi [s l x l' E D]. exists l, x, l'. pose proof (inv_mail g w Hi) as Hm. rewrite E in Hm. apply Forall_app in Hm as [_ [Hx _]%Forall_cons].
  destruct (deliver_does s _ x w' D) as [Hs Hd]; done.
Qed.

Lemma delivers_inv g w w' : ui_inv g w -> delivery show_key show_v6 w w' -> ui_inv g w' /\ (weights (pending w') < weights (pending w))%nat.
Proof.
  intros Hi Hd. destruct (delivery_does g w w' Hi Hd) as (l & x & l' & E & Hx & (Hg & Hs & Hr) & Hdel).
  destruct Hi as [Hgw [Hn Hids] Ha Hm Hacc Hj]. assert (extends w w') as He by (split_and!; [done|by rewrite Hs|by rewrite Hr]).
  rewrite E in Hm. apply Forall_app in Hm as [Hml [_ Hml']%Forall_cons].
  assert (Forall (mail_ok w) (l ++ l')) as Hrest by by apply Forall_app.
  assert (under_way w ≡ₚ omap (located w) (option_list (about x)) ++ omap (located w) (omap about (l ++ l'))) as Hway.
  { unfold under_way. rewrite E, !omap_app. cbn. destruct (about x) as [p|]; cbn; [|done]. destruct (located w p); cbn; [|done]. solve_Permutation. }
  assert (weights (pending w) = weight x + weights (l ++ l'))%nat as Hweight by (unfold weights; rewrite E, !sum_list_with_app; cbn; lia).
  destruct Hdel as [xs Hp Hans Hab Hw Hok|m a -> Hc Hp Hans Hw]; cbn in Hp, Hans.
  - split; [|rewrite Hp, Hweight; unfold weights in *; rewrite sum_list_with_app; lia]. specialize (Hok Hx).
    assert (Forall (mail_ok w) (xs ++ l ++ l')) as Hall by (apply Forall_app; by split).
    constructor; rewrite ?Hg, ?Hs, ?Hr, ?Hans; try done.
    + rewrite Hp. by eapply Forall_mail_extends.
    + unfold under_way at 1. rewrite Hp, (under_way_extends w) by (done || by rewrite Hs). by rewrite (omap_app about xs), Hab, omap_app, <- Hway.
  - split; [|rewrite Hp, Hweight; lia]. destruct Hx as (a' & Ha' & Hjust). cbn in Hc. assert (a' = a) as -> by congruence.
    constructor; rewrite ?Hg, ?Hs, ?Hr, ?Hans; try done.
    + rewrite Hp. by eapply Forall_mail_extends.
    + unfold under_way at 1. rewrite Hp, (under_way_extends w) by (done || by rewrite Hs). rewrite Hacc, Hway. cbn. unfold located at 1. cbn.
      rewrite Hc. cbn. unfold asked. rewrite map_app. cbn. solve_Permutation.
    + apply Forall_app. split; [done|]. constructor; [|done]. cbn. by rewrite Hgw in Hjust.
Qed.

Lemma ui_step_inv g w w' : ui_inv g w -> ui_step show_key show_v6 w w' -> ui_inv g w'.
Proof.
  intros Hi Hstep. revert Hi. destruct Hstep as [w a Hlt|w a text|w a s s1 E|w w2 Hd|w bridge accountant nh db]; intros Hi.
  - by apply connects_inv.
  - by apply asks_inv.
  - by eapply closes_inv.
  - by eapply delivers_inv.
  - destruct Hi as [Hg Hids Ha Hm Hacc Hj]. by constructor.
Qed.

Lemma ui_start_inv g bridge accountant nh db : ui_inv g (ui_start g bridge accountant nh db).
Proof. constructor; cbn; [done|split; [lia|intros id [? E]; by rewrite lookup_empty in E]|intros a id E; by rewrite lookup_empty in E|constructor|done|constructor]. Qed.

Lemma ui_reachable g bridge accountant nh db w : rtc (ui_step show_key show_v6) (ui_start g bridge accountant nh db) w -> ui_inv g w.
Proof.
  intros Hr. remember (ui_start g bridge accountant nh db) as w0 eqn:E. assert (ui_inv g w0) as Hi by (subst; apply ui_start_inv). clear E.
  induction Hr as [|w0 w1 w Hs Hr IH]; [done|]. apply IH. by eapply ui_step_inv.
Qed.

Lemma deliveries_end g w n w' : ui_inv g w -> nsteps (delivery show_key show_v6) n w w' -> (n <= weights (pending w))%nat.
Proof.
  intros Hi Hn. induction Hn as [w|n w w1 w2 Hd Hn IH]; [lia|]. destruct (delivers_inv g w w1 Hi Hd) as [Hi1 Hw]. specialize (IH Hi1). lia.
Qed.

(** The gateway's own handlers never fail on what is under way, as long as the sockets take what is written. *)
Lemma gateway_never_panics `{!UiTrafficConverterOk} g w x : ui_inv g w -> x ∈ pending w ->
  match x with FromUi _ | Effect (ToGateway _) => exists o, deliver show_key show_v6 Sent w x = Ret o | _ => True end.
Proof.
  intros [Hg _ _ Hm _ _] Hx. rewrite Forall_forall in Hm. specialize (Hm x Hx). destruct x as [m|[]]; try done; cbn.
  - unfold handle_from_ui_message. destruct (unmarshal _) as [q|]; [|by eexists]. rewrite Hg. by eexists.
  - destruct Hm as (a & Ha & _). destruct m as [id q]. destruct (is_response q) eqn:Eq.
    + rewrite response_marshalled by done. destruct (marshal_total q) as [t Ht]. rewrite Ht, Hg. cbn. unfold supervisor_send. cbn in Ha. rewrite Ha. by eexists.
    + destruct q; try done; rewrite ?Hg; cbn; rewrite ?Hg; by eexists.
Qed.
End answered.

(** C32: The user interface's requests. Whatever clients connect, send and close, in whatever order messages are handled and whatever happens to the rest of the Node
    meanwhile: each request that was understood is either under way or has been answered once, on its topic, at the socket that it
    came from, and nothing else is ever written. A descriptor that is written is this Node's, unless the client sent it itself. The
    gateway's handlers do not fail as long as sockets take what is written, and what is under way is dealt with in a bounded number
    of deliveries; when nothing is under way, the answers match the requests. *)
Theorem requests_are_answered `{!UiTrafficConverter} `{!UiTrafficConverterOk} `{!HashOrder} `{!Sqlite} `{!ConfigLib} show_key show_v6 g bridge accountant nh db w :
  rtc (ui_step show_key show_v6) (ui_start g bridge accountant nh db) w ->
  asked (requests w) ≡ₚ asked (answers w) ++ under_way w /\
  length (under_way w) = length (omap about (pending w)) /\
  (forall a d, (a, UiMessage.NodeDescriptor d) ∈ answers w -> d = gw_node_descriptor g \/ (a, UiMessage.NodeDescriptor d) ∈ requests w) /\
  (forall x, x ∈ pending w -> match x with FromUi _ | Effect (ToGateway _) => exists o, deliver show_key show_v6 Sent w x = Ret o | _ => True end) /\
  (forall n w', nsteps (delivery show_key show_v6) n w w' -> (n <= weights (pending w))%nat) /\
  (pending w = [] -> asked (requests w) ≡ₚ asked (answers w)).
Proof.
  intros Hi%ui_reachable. pose proof Hi as [Hg _ _ Hm Hacc Hj]. split_and!.
  - done.
  - unfold under_way. clear -Hm. induction Hm as [|x l Hx Hl IH]; [done|]. cbn. destruct (about x) as [p|] eqn:E; [|done]. cbn.
    destruct (about_located w x p Hx E) as [a Ha]. unfold located at 1. rewrite Ha. cbn. by rewrite IH.
  - intros a d Hd. rewrite Forall_forall in Hj. exact (Hj _ Hd).
  - intros x. by eapply gateway_never_panics.
  - intros n w'. by eapply deliveries_end.
  - intros Hp. rewrite Hacc. unfold under_way. by rewrite Hp, app_nil_r.
Qed.

(** ** A Node to evaluate with *)
Definition toy_converter : UiTrafficConverter := {|
  marshal m := match m with UiMessage.NodeDescriptor d => Some (lit "descriptor " ++ d) | _ => Some [] end;
  unmarshal s := if bool_decide (s = lit "descriptor?") then Some UiMessage.GetNodeDescriptor else None |}.

Lemma toy_converter_ok : @UiTrafficConverterOk toy_converter.
Proof. constructor. intros []; by eexists. Qed.

Definition toy_gateway : UiGateway := gateway_new 5333 (lit "key:1.2.3.4:1234").
Definition toy_ui : @Ui toy_sqlite :=
  ui_start toy_gateway (mkBridge None true true) toy_accountant (mkNeighborhood (toy_cryptde key_a) true toy_alone None 0 [] 3) (@create_database_tables toy_sqlite 1 5000).
Definition toy_client : SocketAddr := mkSocketAddr (V4 127 0 0 1) 40000.

(** The client has connected and asked. *)
Definition toy_asked : @Ui toy_sqlite :=
  @text_arrives toy_converter toy_sqlite (with_sockets (handle_connection (sockets toy_ui) toy_client) toy_ui) toy_client (lit "descriptor?").

(** The first message is handled, and then the next. *)
Fixpoint deliver_all `{!UiTrafficConverter} `{!HashOrder} `{!Sqlite} `{!ConfigLib} (fuel : nat) (w : Ui) : outcome (option Ui) :=
  match fuel, pending w with
  | _, [] | O, _ => Ret (Some w)
  | S fuel, x :: l =>
      let* o := deliver (fun _ => []) (fun _ => []) Sent (with_pending l w) x in
      match o with Some w' => deliver_all fuel w' | None => Ret None end
  end.

Lemma deliver_all_steps `{!UiTrafficConverter} `{!HashOrder} `{!Sqlite} `{!ConfigLib} fuel w w' :
  deliver_all fuel w = Ret (Some w') -> rtc (ui_step (fun _ => []) (fun _ => [])) w w'.
Proof.
  revert w. induction fuel as [|fuel IH]; intros w; cbn; destruct (pending w) as [|x l] eqn:E; try by intros [= ->].
  intros ([w1|] & D & E1)%obind_ret_inv; [|done]. apply (rtc_l _ _ w1); [|by apply IH].
  apply Delivers. by apply (Delivery _ _ _ _ Sent [] x l).
Qed.

Definition toy_answered : outcome (option (@Ui toy_sqlite)) := @deliver_all toy_converter elements_order toy_sqlite toy_config_lib 9 toy_asked.

Definition toy_done : bool :=
  match toy_answered with
  | Ret (Some w) =>
      match pending w, answers w with
      | [], [(a, UiMessage.NodeDescriptor d)] => bool_decide (a = toy_client) && bool_decide (d = lit "key:1.2.3.4:1234")
      | _, _ => false
      end
  | _ => false
  end.

Lemma toy_run : exists w, toy_answered = Ret (Some w) /\ pending w = [] /\ answers w = [(toy_client, UiMessage.NodeDescriptor (lit "key:1.2.3.4:1234"))].
Proof.
  assert (toy_done = true) as B by (vm_compute; reflexivity). unfold toy_done in B. destruct toy_answered as [[w|]| |]; try done. exists w.
  destruct (pending w); [|done]. destruct (answers w) as [|[a []] []]; try done. apply andb_true_iff in B as [->%bool_decide_eq_true ->%bool_decide_eq_true]. done.
Qed.

Lemma toy_asked_reachable : rtc (@ui_step toy_converter elements_order toy_sqlite toy_config_lib (fun _ => []) (fun _ => [])) toy_ui toy_asked.
Proof. eapply rtc_l; [apply (Connects _ _ toy_ui toy_client); reflexivity|]. apply rtc_once, Asks. Qed.

Lemma toy_answered_reachable w : toy_answered = Ret (Some w) ->
  rtc (@ui_step toy_converter elements_order toy_sqlite toy_config_lib (fun _ => []) (fun _ => [])) toy_ui w.
Proof. intros E. transitivity toy_asked; [apply toy_asked_reachable|]. by apply (@deliver_all_steps toy_converter elements_order toy_sqlite toy_config_lib 9). Qed.

Lemma requests_are_answered_witness :
  exists w, asked (requests w) ≡ₚ asked (@answers toy_sqlite w) /\ answers w = [(toy_client, UiMessage.NodeDescriptor (lit "key:1.2.3.4:1234"))].
Proof.
  destruct toy_run as (w & E & Hp & Ha). exists w. split; [|exact Ha].
  pose proof (@requests_are_answered toy_converter toy_converter_ok elements_order toy_sqlite toy_config_lib (fun _ => []) (fun _ => []) toy_gateway
    _ _ _ _ w (toy_answered_reachable w E)) as (_ & _ & _ & _ & _ & Hdone).
  exact (Hdone Hp).
Defined.

(** ** Clients that leave *)

(** No client is forgotten: the map from identifiers only grows. *)
Lemma clients_are_never_forgotten `{!UiTrafficConverter} `{!HashOrder} `{!Sqlite} `{!ConfigLib} show_key show_v6 g w w' :
  ui_inv g w -> ui_step show_key show_v6 w w' -> client_by_id (sockets w) ⊆ client_by_id (sockets w').
Proof.
  intros Hi Hstep. revert Hi. destruct Hstep as [w a Hlt|w a text|w a s s1 E|w w2 Hd|w bridge accountant nh db]; intros Hi; try done.
  - apply insert_subseteq. apply eq_None_not_Some. intros Hs%(inv_ids g w Hi). lia.
  - unfold text_arrives. by destruct (handle_text_message _ _ _).
  - unfold handle_close_message in E. destruct (_ !! a); [|done]. by apply obind_ret_inv in E as (? & _ & [= <-]).
  - destruct (delivery_does _ _ g w w2 Hi Hd) as (_ & x & _ & _ & _ & (_ & -> & _) & _). done.
Qed.

(** An answer for a client that has left in the meantime cannot be written, which is taken for a fatal error. *)
Lemma answer_to_departed_client_panics `{!UiTrafficConverter} `{!HashOrder} `{!Sqlite} `{!ConfigLib} show_key show_v6 w m t :
  gw_bound (gateway w) = true -> is_response (cm_data m) = true -> marshal (cm_data m) = Some t ->
  deliver show_key show_v6 SendError w (Effect (ToGateway m)) = Panic.
Proof.
  intros Hb Hr Ht. destruct m as [id q]. cbn [deliver]. rewrite response_marshalled by done. cbn in Ht. rewrite Ht. cbn. unfold sent_by. rewrite Hb. cbn.
  unfold supervisor_send. by destruct (_ !! id).
Qed.

(** A closure is meant to end the stream of a client's messages. It does not: another one is looked at, and is fatal. *)
Lemma second_closure_panics self a id rest :
  client_id_by_socket_addr self !! a = Some id -> client_by_id self !! id = Some a ->
  handle_incoming self a ((Some Close, Sent) :: (Some Close, Sent) :: rest) = Panic.
Proof.
  intros Ha Hid. cbn. unfold handle_close_message at 1. rewrite Ha. unfold close_connection. cbn. rewrite Hid. cbn.
  unfold handle_close_message. cbn. by rewrite lookup_delete_eq.
Qed.
