(* ===== verification/ActorSystem.v ===== *)
(** * ActorSystem: the actors of a Node, made from its configuration

    actor_system_factory.rs. Each actor is the state that its own file defines; binding it is handling its first message. A panic in an actor's thread counts as one of
    the start. *)
From S2P Require Import Prelude Text SubLib Cryptde Utils Wallet Route Containers Messages Hopper Database Neighborhood.
From S2P Require Import Framers StreamReader ProxyServer StreamHandlerPool ProxyClient Accounts Blockchain Accountant.
From S2P Require Import DotGraph UiGateway MultiConfig Configurator StandardConfigurator.

Record Actors := mk_actors {
  dispatcher : Dispatcher.Dispatcher;
  proxy_server : ProxyServer.ProxyServer;
  proxy_client : ProxyClient.ProxyClient;
  hopper : HopperActor.Hopper;
  neighborhood : Neighborhood.Neighborhood;
  accountant : Accountant.Accountant;
  blockchain_bridge : BlockchainBridge;
  ui_gateway : UiGateway.UiGateway;
  stream_handler_pool : StreamHandlerPool.StreamHandlerPool;
  clandestine_factories : list DiscriminatorFactory }.

Section actors.
Context `{!StandardLib} `{!EthSign} `{!Serde NodeRecordInner}.

(** [make_and_start_blockchain_bridge]; whether the URL of the service is one *)
Definition make_blockchain_bridge (url_ok : str -> bool) (config : BootstrapperConfig) : outcome BlockchainBridge :=
  let bridge := mkBridge (consuming_wallet config) false false in
  match blockchain_service_url (blockchain_bridge_config config) with
  | Some url => if url_ok url then Ret bridge else Panic
  | None => Ret bridge
  end.

(** The actors before they are bound *)
Definition make_actors (url_ok : str -> bool) (now : Z) (cryptde : CryptDE) (config : BootstrapperConfig) : outcome Actors :=
  let mode := neighborhood_config config in
  let rates := NeighborhoodMode.rate_pack mode in
  let is_decentralized := NeighborhoodMode.is_decentralized mode in
  let server := proxy_server_new now cryptde is_decentralized (match consuming_wallet config with None => None | Some _ => Some 0 end) in
  let* client := proxy_client_new cryptde (dns_servers config) (exit_service_rate rates) (exit_byte_rate rates) in
  let hop := HopperActor.new (HopperActor.mkConfig cryptde (routing_service_rate rates) (routing_byte_rate rates) is_decentralized) in
  let* bridge := make_blockchain_bridge url_ok config in
  let* nh := neighborhood_new cryptde mode (earning_wallet config) (consuming_wallet config) (StandardConfigurator.chain_id (blockchain_bridge_config config)) in
  let acc := mkAccountant (consuming_wallet config) (earning_wallet config) false in
  let ui := ui_gateway_config config in
  Ret (mk_actors Dispatcher.new server client hop nh acc bridge (gateway_new (ui_port ui) (ui_node_descriptor ui)) pool_new (clandestine_discriminator_factories config)).

(** The bind messages *)
Definition bind_actors (a : Actors) : Actors :=
  mk_actors (Dispatcher.handle_pool_bind (Dispatcher.handle_bind (dispatcher a))) (ProxyServer.handle_bind (proxy_server a))
    (client_handle_bind (proxy_client a)) (HopperActor.handle_bind (hopper a)) (Neighborhood.handle_bind (neighborhood a))
    (acc_handle_bind (accountant a)) (Blockchain.handle_bind (blockchain_bridge a)) (gateway_handle_bind (ui_gateway a)) (pool_handle_bind (stream_handler_pool a))
    (clandestine_factories a).

(** [make_and_start_actors], up to the start messages *)
Definition make_and_start_actors (url_ok : str -> bool) (now : Z) (cryptde : CryptDE) (config : BootstrapperConfig) : outcome Actors :=
  let* a := make_actors url_ok now cryptde config in Ret (bind_actors a).
End actors.

(** ** The actors of a Node agree *)
Section agreement.
Context `{!StandardLib} `{!EthSign} `{!Serde NodeRecordInner}.

(** The URL of the blockchain service, if there is one, is a URL. *)
Definition service_url_ok (url_ok : str -> bool) (config : BootstrapperConfig) : Prop :=
  forall url, blockchain_service_url (blockchain_bridge_config config) = Some url -> url_ok url = true.

(** No actor lacks what binding gives it. *)
Record bound (a : Actors) : Prop := {
  dispatcher_bound : dispatcher a = Dispatcher.mk true true;
  proxy_server_bound : is_bound (proxy_server a) = true;
  proxy_client_bound : is_Some (pool (proxy_client a));
  hopper_bound : is_Some (HopperActor.consuming_service (hopper a)) /\ is_Some (HopperActor.routing_service (hopper a));
  neighborhood_bound : Neighborhood.hopper_bound (neighborhood a) = true;
  accountant_bound : acc_bound (accountant a) = true;
  bridge_bound : ui_bound (blockchain_bridge a) = true /\ wallet_subs_bound (blockchain_bridge a) = true;
  gateway_is_bound : gw_bound (ui_gateway a) = true;
  pool_is_bound : pool_bound (stream_handler_pool a) = true }.

Lemma bind_actors_bound a : bound (bind_actors a).
Proof. by constructor. Qed.

Lemma bridge_exact url_ok config : (exists b, make_blockchain_bridge url_ok config = Ret b) <-> service_url_ok url_ok config.
Proof.
  unfold make_blockchain_bridge, service_url_ok. destruct (blockchain_service_url _) as [url|]; [|split; [done|by eexists]]. split.
  - intros [b E] url' [= <-]. by destruct (url_ok url).
  - intros Hu. rewrite (Hu url eq_refl). by eexists.
Qed.

Lemma bridge_wallet url_ok config b : make_blockchain_bridge url_ok config = Ret b -> bb_consuming_wallet b = consuming_wallet config.
Proof. unfold make_blockchain_bridge. repeat case_match; by intros [= <-]. Qed.

Lemma zero_hop_neighbors mode : NeighborhoodMode.is_zero_hop mode && negb (bool_decide (NeighborhoodMode.neighbor_configs mode = [])) = false.
Proof. by destruct mode. Qed.

(** The actors of a Node. They can be made from a configuration exactly when it has a DNS server, whatever the mode, and
    what it has of a blockchain service is a URL. Then no actor is left unbound, so that none of them ever panics for lack of
    another; the Neighborhood's database is well-formed and knows this Node only; the rates at which the Hopper and the Proxy
    Client charge are the ones that the Neighborhood advertises; the wallet that it advertises is the one into which the
    Accountant expects payments; and Neighborhood, Accountant and Blockchain Bridge have the same consuming wallet, of which
    the Proxy Server knows whether there is one. *)
Theorem actors_agree url_ok now cryptde config :
  can_sign cryptde ->
  ((exists a, make_and_start_actors url_ok now cryptde config = Ret a) <-> dns_servers config <> [] /\ service_url_ok url_ok config) /\
  forall a, make_and_start_actors url_ok now cryptde config = Ret a ->
    bound a /\
    exists self, let rates := nr_rate_pack self in
      by_public_key (neighborhood_database (neighborhood a)) = {[public_key cryptde := self]} /\
      wf (neighborhood_database (neighborhood a)) /\
      rates = NeighborhoodMode.rate_pack (neighborhood_config config) /\
      HopperActor.routing_service (hopper a) = Some (RoutingService.mk cryptde (routing_service_rate rates) (routing_byte_rate rates)
        (NeighborhoodMode.is_decentralized (neighborhood_config config))) /\
      pc_exit_service_rate (proxy_client a) = exit_service_rate rates /\ pc_exit_byte_rate (proxy_client a) = exit_byte_rate rates /\
      nr_earning_wallet self = acc_earning_wallet (accountant a) /\
      consuming_wallet_opt (neighborhood a) = consuming_wallet config /\
      acc_consuming_wallet (accountant a) = consuming_wallet config /\
      bb_consuming_wallet (blockchain_bridge a) = consuming_wallet config /\
      (is_Some (consuming_wallet_balance (proxy_server a)) <-> is_Some (consuming_wallet config)).
Proof.
  intros Hs. destruct (database_new_wf (public_key cryptde) (neighborhood_config config) (earning_wallet config) cryptde Hs)
    as (db & rt & E & Hwf & _ & Hone & _ & _ & _ & Hrates & Hearn & _).
  unfold make_and_start_actors, make_actors, proxy_client_new, neighborhood_new. rewrite zero_hop_neighbors, E. cbn [obind].
  destruct (decide (dns_servers config = [])) as [Hd|Hd].
  { rewrite bool_decide_eq_true_2 by done. cbn [obind]. split; [split; [by intros [? ?]|by intros [? _]]|done]. }
  rewrite bool_decide_eq_false_2 by done. cbn [obind]. split.
  - rewrite <- bridge_exact. split; [|intros [_ [b ->]]; by eexists]. intros [a (a' & (b & Eb & _)%obind_ret_inv & _)%obind_ret_inv]. split; [done|by eexists].
  - intros a (a' & (b & Eb & [= <-])%obind_ret_inv & [= <-])%obind_ret_inv. split; [apply bind_actors_bound|]. exists rt. cbn.
    split_and!; try done; [by rewrite Hrates|by rewrite Hrates|by rewrite Hrates|by apply (bridge_wallet url_ok)|by destruct (consuming_wallet config)].
Qed.
End agreement.

Definition toy_node (dns : list SocketAddr) : @BootstrapperConfig toy_standard_lib :=
  @mk_config toy_standard_lib (lit "off") dns (NeighborhoodMode.OriginateOnly [lit "a:1.2.3.4:5"] DEFAULT_RATE_PACK)
    (mk_accountant DEFAULT_PAYABLE_SCAN_INTERVAL DEFAULT_PAYMENT_RECEIVED_SCAN_INTERVAL) CrashNone [] (mk_ui DEFAULT_UI_PORT [])
    (mk_bridge None 3 None) ∅ [] None RealUser_null None None (mkWallet (Address [1])).

Lemma actors_agree_witness :
  exists a, @make_and_start_actors toy_standard_lib (countable_serde NodeRecordInner) (fun _ => true) 0 (toy_cryptde key_a)
      (toy_node [mkSocketAddr (V4 1 1 1 1) 53]) = Ret a /\ bound a /\ pc_exit_service_rate (proxy_client a) = 10001.
Proof.
  destruct (@actors_agree toy_standard_lib (countable_serde NodeRecordInner) (fun _ => true) 0 (toy_cryptde key_a)
    (toy_node [mkSocketAddr (V4 1 1 1 1) 53]) (toy_can_sign key_a ltac:(done))) as [Hmade Hall].
  destruct (proj2 Hmade) as [a E]; [split; [discriminate|intros url Hurl; discriminate]|].
  exists a. destruct (Hall a E) as (Hb & self & _ & _ & Hr & _ & Hx & _).
  split; [exact E|]. split; [exact Hb|]. rewrite Hx, Hr. reflexivity.
Defined.

(** The schema does not ask for DNS servers; without one, no Node starts, not even one that serves nobody. *)
Example no_dns_server_no_node :
  panics (@make_and_start_actors toy_standard_lib (countable_serde NodeRecordInner) (fun _ => true) 0 (toy_cryptde key_a) (toy_node [])) = true.
Proof. reflexivity. Qed.
