(* ===== verification/Startup.v ===== *)
(** * Startup: the first moments of a Node

    [make_and_start_actors] of actor_system_factory.rs as a whole: the actors of [ActorSystem], the database that the
    Accountant opens, the bans that it loads from it, and the start messages, which set off the debuts of the
    Neighborhood and the scans of the Accountant. What opening the database gives is an argument ([DbInit] has how). *)
From S2P Require Import Prelude Text SubLib Cryptde Utils Wallet Route Containers Messages Hopper Database Gossip Neighborhood.
From S2P Require Import Framers StreamReader ProxyServer StreamHandlerPool ProxyClient Accounts Blockchain Accountant DbInit.
From S2P Require Import DotGraph UiGateway MultiConfig Configurator StandardConfigurator ActorSystem CryptdeReal Joining.

(** What the actors are and do when all of the messages of the start are handled *)
Record Started := mk_started {
  actors : Actors;
  bans : BannedCache;
  debuts : list neighborhood_effect;
  to_pay : option (list PayableAccount);
  to_retrieve : RetrieveTransactions }.

Section startup.
Context `{!StandardLib} `{!Sqlite} `{!ConfigLib} `{!EthSign} `{!Serde NodeRecordInner} `{!Serde MessageType}.

(** [initialize(..).unwrap_or_else(|_| panic!(..))] *)
Definition connect (opened : result Db init_error) : outcome Db := expect_ok opened.

(** What [make_and_start_accountant] does besides making the actor: all its connections are to the same database. *)
Definition load_banned_cache (opened : result Db init_error) (cache : BannedCache) : outcome (Db * BannedCache) :=
  let* db := connect opened in
  let* cache' := load db cache in
  Ret (db, cache').

(** The start messages come last, when all are bound. *)
Definition send_start_messages (now : Z) (a : Actors) (db : Db) (cache : BannedCache) : outcome (Started * Db) :=
  let* debuts := Neighborhood.handle_start (neighborhood a) in
  let* (db', cache', payables, retrieve) := Accountant.handle_start now (accountant a) db cache in
  Ret (mk_started a cache' debuts payables retrieve, db').

Definition prepare_initial_messages (url_ok : str -> bool) (now : Z) (cryptde : CryptDE) (config : BootstrapperConfig)
    (opened : result Db init_error) (cache : BannedCache) : outcome (Started * Db) :=
  let* a := make_and_start_actors url_ok now cryptde config in
  let* (db, cache') := load_banned_cache opened cache in
  send_start_messages now a db cache'.
End startup.

(** ** What is loaded is what is in the table *)
Section loading.
Context `{!Sqlite} `{!ConfigLib} `{!EthSign}.

Lemma ban_inserts (l : list bytes) (cache : BannedCache) :
  exists cache', ofold (fun c key => ban_insert c (mkWallet (Address key))) cache l = Ret cache' /\
    forall w, w ∈ cache' <-> w ∈ cache \/ exists a, w = by_address a /\ a ∈ l.
Proof.
  revert cache. induction l as [|a l IH]; intros cache; cbn [ofold].
  - exists cache. split; [done|]. intros w. split; [by left|]. intros [Hw|(a & _ & Ha)]; [done|by apply not_elem_of_nil in Ha].
  - destruct (IH ({[by_address a]} ∪ cache)) as (cache' & E & Hc). exists cache'. split; [exact E|]. intros w. rewrite Hc.
    setoid_rewrite elem_of_cons. rewrite elem_of_union, elem_of_singleton. naive_solver.
Qed.

Lemma loaded_in_step db : exists cache, load db ∅ = Ret cache /\ in_step (db, cache).
Proof.
  destruct (ban_inserts (elements (banned db)) ∅) as (cache & E & Hc). exists cache. split; [exact E|].
  intros w. cbn [fst snd]. rewrite Hc. setoid_rewrite elem_of_elements. set_solver.
Qed.

(** All of the Accountant's scans, when the cache is in step *)
Lemma accountant_takes_stock now self db cache start :
  in_step (db, cache) -> map_Forall (fun _ r => readable r) (receivable db) -> open_rows_ok now db -> 0 <= now ->
  start_block db = Ret start -> acc_bound self = true ->
  exists b cache' payables,
    Accountant.handle_start now self db cache = Ret (set_banned b db, cache', payables, mkRetrieve start (acc_earning_wallet self)) /\
    in_step (set_banned b db, cache') /\
    (forall a, a ∈ b <-> delinquent now db a \/ a ∈ banned db /\ ~ settled db a) /\
    (forall acc, acc ∈ default [] payables <-> listed db acc /\ should_pay now acc = Ret true).
Proof.
  intros Hs Hr Ho Hnow Hst Hb. destruct (payables_scanned now self db Ho Hb) as (l & Eo & _ & Hacc).
  destruct (scan_ok now db cache Hs Hr Hnow) as (b & [db' cache'] & E & [Edb Hs'] & Hban). cbn in Edb. subst db'.
  exists b, cache', (match l with [] => None | _ => Some l end).
  split; [|split_and!; [done..|]; intros acc; rewrite <- Hacc; by destruct l]. unfold Accountant.handle_start, scan_for_received_payments. rewrite Eo, Hst, Hb. cbn [obind].
  by rewrite E.
Qed.
End loading.

(** ** Debuts *)
Section debuts.
Context `{!StandardLib} `{!EthSign} `{!Serde NodeRecordInner} `{!Serde MessageType}.

(** A descriptor that leads to a Node: it has an address, and a key for which gossip can be encrypted. *)
Definition leads_to (cryptde : CryptDE) (chain : Z) (s : str) (d : NodeDescriptor.NodeDescriptor) (na : NodeAddr.NodeAddr) : Prop :=
  NodeDescriptor.from_str cryptde s chain = Ret (Ok d) /\ NodeDescriptor.node_addr_opt d = Some na /\
  forall g, exists p, encodex cryptde (NodeDescriptor.public_key d) (GossipMsg g) = Ok p.

(** The package with which a Node makes its debut, by a descriptor *)
Definition debut_by (cryptde : CryptDE) (chain : Z) (self : NodeRecord) (s : str) (e : neighborhood_effect) : Prop :=
  exists d na p, NodeDescriptor.from_str cryptde s chain = Ret (Ok d) /\ NodeDescriptor.node_addr_opt d = Some na /\
    encodex cryptde (NodeDescriptor.public_key d) (GossipMsg (gossip_new [said_of true self])) = Ok p /\
    e = SendNoLookup (mkNoLookup (NodeDescriptor.public_key d) (NodeAddr.clone na) p).

Lemma debuts_made nh rt :
  Neighborhood.hopper_bound nh = true -> wf (neighborhood_database nh) ->
  node_by_key (neighborhood_database nh) (this_node (neighborhood_database nh)) = Some rt ->
  Forall (fun s => exists d na, leads_to (nh_cryptde nh) (Neighborhood.chain_id nh) s d na) (initial_neighbors nh) ->
  exists effects, Neighborhood.handle_start nh = Ret effects /\
    Forall2 (debut_by (nh_cryptde nh) (Neighborhood.chain_id nh) rt) (initial_neighbors nh) effects.
Proof.
  intros Hb Hwf Hrt Hn. unfold Neighborhood.handle_start. case_bool_decide as E; [exists []; by rewrite E|].
  rewrite (produce_debut_ok _ rt) by done. cbn [obind]. clear E. induction Hn as [|s l (d & na & Hd & Hna & Hp) _ (es & Ees & IH)].
  - by exists [].
  - destruct (Hp (gossip_new [said_of true rt])) as [p Ep].
    exists (SendNoLookup (mkNoLookup (NodeDescriptor.public_key d) (NodeAddr.clone na) p) :: es). cbn [omapM].
    unfold debut_to at 1, send, no_lookup_new. rewrite Hd. cbn [obind expect_ok]. rewrite Hna, Ep. cbn [obind expect_ok]. rewrite Hb.
    cbn [obind]. rewrite Ees. split; [done|]. constructor; [|done]. by exists d, na, p.
Qed.

(** The Neighborhood and the Accountant that the configuration makes *)
Lemma made_and_bound url_ok now cryptde config :
  can_sign cryptde -> dns_servers config <> [] -> service_url_ok url_ok config ->
  exists a rt, make_and_start_actors url_ok now cryptde config = Ret a /\ bound a /\
    by_public_key (neighborhood_database (neighborhood a)) = {[public_key cryptde := rt]} /\
    this_node (neighborhood_database (neighborhood a)) = public_key cryptde /\ wf (neighborhood_database (neighborhood a)) /\
    nh_cryptde (neighborhood a) = cryptde /\ Neighborhood.chain_id (neighborhood a) = StandardConfigurator.chain_id (blockchain_bridge_config config) /\
    initial_neighbors (neighborhood a) = NeighborhoodMode.neighbor_configs (neighborhood_config config) /\
    accountant a = mkAccountant (consuming_wallet config) (earning_wallet config) true /\ nr_earning_wallet rt = earning_wallet config.
Proof.
  intros Hs Hd Hu. apply bridge_exact in Hu as [b Eb].
  destruct (database_new_wf (public_key cryptde) (neighborhood_config config) (earning_wallet config) cryptde Hs)
    as (db & rt & E & Hwf & Hthis & Hone & _ & _ & _ & _ & Hearn & _).
  unfold make_and_start_actors, make_actors, proxy_client_new, neighborhood_new. rewrite zero_hop_neighbors, E, Eb.
  rewrite bool_decide_eq_false_2 by done. cbn [obind]. eexists _, rt. split; [done|]. split; [apply bind_actors_bound|]. done.
Qed.
End debuts.

(** ** Properties *)

(** C26: a Node comes up. Given a DNS server, a readable URL for the blockchain service if there is one, descriptors that lead to Nodes, and a
    database that opens and whose tables can be read: if no debt without a payment under way was last paid later than the clock
    says, all actors are made and bound, and deal with their start messages without a panic. Then (1) the Neighborhood, which
    knows this Node only, has made its debut by each descriptor, in order, for the key and address that it names; (2) bans
    outlive a restart: the cache agrees with the table, and banned are just those who are delinquent now, or were
    banned before and have not settled, while all else in the database is as it was; (3) the bridge is
    asked to pay just the accounts with nothing under way that are due, and (4) to look for payments to the wallet that the
    Neighborhood advertises, from the block where the search last ended. If such a debt was last paid later than that, or
    the database cannot be opened, the Node panics. *)
Theorem node_comes_up `{!StandardLib} `{!Sqlite} `{!EthSign} `{!Serde NodeRecordInner} `{!Serde MessageType} `{!ConfigLib}
    url_ok now cryptde config (db : Db) (start : Z) :
  let chain := StandardConfigurator.chain_id (blockchain_bridge_config config) in
  let mode := neighborhood_config config in
  can_sign cryptde -> dns_servers config <> [] -> service_url_ok url_ok config ->
  Forall (fun s => exists d na, leads_to cryptde chain s d na) (NeighborhoodMode.neighbor_configs mode) ->
  map_Forall (fun _ r => readable r) (receivable db) -> open_rows_readable db -> start_block db = Ret start -> 0 <= now ->
  (open_rows_ok now db -> exists st b self,
    prepare_initial_messages url_ok now cryptde config (Ok db) ∅ = Ret (st, set_banned b db) /\
    bound (actors st) /\
    by_public_key (neighborhood_database (neighborhood (actors st))) = {[public_key cryptde := self]} /\
    Forall2 (debut_by cryptde chain self) (NeighborhoodMode.neighbor_configs mode) (debuts st) /\
    in_step (set_banned b db, bans st) /\
    (forall a, a ∈ b <-> delinquent now db a \/ a ∈ banned db /\ ~ settled db a) /\
    (forall acc, acc ∈ default [] (to_pay st) <-> listed db acc /\ should_pay now acc = Ret true) /\
    to_retrieve st = mkRetrieve start (earning_wallet config) /\ nr_earning_wallet self = earning_wallet config) /\
  (forall late r, payable db !! late = Some r -> pr_pending_payment_transaction r = None -> now < pr_last_paid_timestamp r ->
     prepare_initial_messages url_ok now cryptde config (Ok db) ∅ = Panic) /\
  forall e, prepare_initial_messages url_ok now cryptde config (Err e) ∅ = Panic.
Proof.
  intros chain mode Hs Hd Hu Hn Hr Ho Hst Hnow.
  destruct (made_and_bound url_ok now cryptde config Hs Hd Hu) as (a & rt & Ea & Hb & Hone & Hthis & Hwf & Hc & Hchain & Hi & Hacc & Hearn).
  unfold prepare_initial_messages, load_banned_cache. rewrite Ea. cbn [obind].
  destruct (loaded_in_step db) as (cache & Ec & Hstep).
  destruct (debuts_made (neighborhood a) rt) as (effects & En & Hdebut); [apply (neighborhood_bound _ Hb)|done| | |].
  { unfold node_by_key. rewrite Hone, Hthis. apply lookup_singleton_eq. }
  { by rewrite Hc, Hchain, Hi. }
  cbn [connect expect_ok obind]. rewrite Ec. cbn [obind]. unfold send_start_messages. rewrite En. cbn [obind]. split_and!; [|intros late r Hl Hp Hlate|done].
  - intros Hok. destruct (accountant_takes_stock now (accountant a) db cache start) as (b & cache' & payables & Eacc & Hstep' & Hban & Hpay);
      try done; [apply (accountant_bound _ Hb)|].
    exists (mk_started a cache' effects payables (mkRetrieve start (acc_earning_wallet (accountant a)))), b, rt. rewrite Eacc.
    rewrite Hc, Hchain, Hi in Hdebut. split_and!; try done. cbn. by rewrite Hacc.
  - unfold Accountant.handle_start. by rewrite (scan_panics now _ db late r Ho Hl Hp Hlate).
Qed.

(** The newcomer of [Joining], with a database in which two wallets are banned and another has become delinquent *)
Definition toy_starting : @BootstrapperConfig toy_standard_lib :=
  @mk_config toy_standard_lib (lit "off") [mkSocketAddr (V4 1 1 1 1) 53] (NeighborhoodMode.OriginateOnly [toy_descriptor] DEFAULT_RATE_PACK)
    (mk_accountant DEFAULT_PAYABLE_SCAN_INTERVAL DEFAULT_PAYMENT_RECEIVED_SCAN_INTERVAL) CrashNone [] (mk_ui DEFAULT_UI_PORT [])
    (mk_bridge None 1 None) ∅ [] None RealUser_null None None (mkWallet (Address [1])).

Lemma toy_descriptor_leads : exists d na, @leads_to (countable_serde MessageType) toy_newcomer 1 toy_descriptor d na.
Proof.
  eexists _, _. split; [vm_compute; reflexivity|]. split; [reflexivity|]. intros g. unfold encodex. cbn [to_vec countable_serde].
  match goal with |- context [Cryptde.encode toy_newcomer ?k ?p] => generalize p; intros q end. eexists. vm_compute. reflexivity.
Qed.

Lemma node_comes_up_witness :
  exists st (b : gset bytes),
    @prepare_initial_messages toy_standard_lib toy_sqlite toy_eth (countable_serde NodeRecordInner) (countable_serde MessageType)
      (fun _ => true) 200000 toy_newcomer toy_starting (Ok toy_delinquents) ∅ = Ret (st, @set_banned toy_sqlite b toy_delinquents) /\
    length (debuts st) = 1%nat /\ to_retrieve st = mkRetrieve 0 (mkWallet (Address [1])).
Proof.
  destruct (@node_comes_up toy_standard_lib toy_sqlite toy_eth (countable_serde NodeRecordInner) (countable_serde MessageType) toy_wallet_lib
    (fun _ => true) 200000 toy_newcomer toy_starting toy_delinquents 0) as [Hup _].
  - apply toy_real_signs.
  - discriminate.
  - intros url Hurl. discriminate.
  - constructor; [apply toy_descriptor_leads|constructor].
  - intros a r Hr. apply elem_of_list_to_map_2 in Hr. elem_cases Hr; eexists; (split; [reflexivity|simpl; lia]).
  - intros a r Hr. discriminate.
  - reflexivity.
  - lia.
  - destruct Hup as (st & b & self & E & _ & _ & Hd & _ & _ & _ & Hr & _).
    { intros a r Hr. discriminate. }
    exists st, b. split; [exact E|]. apply Forall2_length in Hd. split; [symmetry; exact Hd|exact Hr].
Defined.
