(* ===== verification/Bootstrapper.v ===== *)
(** * Bootstrapper: listeners, privileges, and the start of a Node

    The discriminator factories, listener_handler.rs, privilege_drop.rs, crash_test_dummy.rs, bootstrapper.rs, server_initializer.rs and
    entry_dns/dns_socket_server.rs. The configuration that they start with is that of [StandardConfigurator]. Sockets, the
    operating system's identifiers and the logger are arguments. *)
From S2P Require Import Prelude Text SubLib Cryptde Utils Wallet Messages Accounts MultiConfig Configurator StandardConfigurator.
From S2P Require Import Route Framers StreamReader HttpFramer Dns Database Neighborhood StreamHandlerPool ActorSystem.
From Stdlib Require Import Ascii.

(** ** Discriminator factories *)

(** The framers that the factories make, behind one interface *)
Inductive AnyFramer :=
| AJson (f : JsonFramer.JsonFramer)
| ATls (f : TlsFramer.TlsFramer)
| AHttp (f : HttpPacketFramer).

Section factories.
Context `{!RegexDigits}.

Definition lift_frame {F} (wrap : F -> AnyFramer) (r : outcome (F * option FramedChunk)) : outcome (AnyFramer * option FramedChunk) :=
  let* (f, c) := r in Ret (wrap f, c).

#[global] Instance any_framer : Framer AnyFramer := {|
  add_data f d := match f with AJson f => AJson (add_data f d) | ATls f => ATls (add_data f d) | AHttp f => AHttp (add_data f d) end;
  take_frame f := match f with
                  | AJson f => lift_frame AJson (take_frame f)
                  | ATls f => lift_frame ATls (take_frame f)
                  | AHttp f => lift_frame AHttp (take_frame f)
                  end;
  buffered f := match f with AJson f => buffered f | ATls f => buffered f | AHttp f => buffered f end |}.

(** A JSON framer behind the interface keeps its promise. *)
#[global] Instance any_json_framing : Framing AnyFramer (plain JsonFramer.object) (fun _ => True).
Proof.
  refine {| holds f s b := match f with AJson f => holds (Framing := JsonFramer.json_framing) f s b | _ => False end |}.
  - intros [f| |] s b d; [|done..]. apply (holds_add (Framing := JsonFramer.json_framing)).
  - intros [f| |] s b; [|done..]. apply (holds_buffered (Framing := JsonFramer.json_framing)).
  - intros [f| |] s; [|done..]. intros (f' & E & Hf)%(take_nothing (Framing := JsonFramer.json_framing)). exists (AJson f').
    by cbn; unfold take_frame in E; cbn in E; rewrite E.
  - intros s r s'. apply (frame_nonempty (Framing := JsonFramer.json_framing)).
  - intros [f| |] s r s' rest Hr; [|done..].
    intros (f' & l & E & Hf)%(take_complete (Framing := JsonFramer.json_framing) f s r s' rest Hr). exists (AJson f'), l.
    by cbn; unfold take_frame in E; cbn in E; rewrite E.
  - intros [f| |] s s' p q Hr Hp Hq Hk; [|done..].
    intros (f' & E & Hf)%(take_partial (Framing := JsonFramer.json_framing) f s s' p q Hr Hp Hq Hk). exists (AJson f').
    by cbn; unfold take_frame in E; cbn in E; rewrite E.
Defined.

Definition json_make : outcome (Discriminator AnyFramer) := discriminator_new (AJson JsonFramer.new) [JsonMasquerader].
Definition tls_make : outcome (Discriminator AnyFramer) := discriminator_new (ATls TlsFramer.new) [NullMasquerader].
Definition http_request_make : outcome (Discriminator AnyFramer) :=
  discriminator_new (AHttp (http_framer_new HttpRequestStartFinder.request_start_finder)) [NullMasquerader].

(** [make] *)
Definition make (factory : DiscriminatorFactory) : outcome (Discriminator AnyFramer) :=
  match factory with
  | JsonDiscriminatorFactory => json_make
  | TlsDiscriminatorFactory => tls_make
  | HttpRequestDiscriminatorFactory => http_request_make
  end.

(** [StreamReaderReal::new] *)
Definition StreamReaderReal_new (reception_port : option Z) (factories : list DiscriminatorFactory) (clandestine : bool)
    (peer_addr local_addr : SocketAddr) : outcome (StreamReader AnyFramer) :=
  match factories with
  | [] => Panic
  | _ =>
      let* ds := omapM make factories in
      Ret (mkStreamReader local_addr peer_addr reception_port ds clandestine 0)
  end.
End factories.

(** ** ListenerHandler *)
Record ListenerHandler := mk_listener { l_port : option Z; l_configuration : option PortConfiguration; l_sub : bool }.

Definition ListenerHandlerReal_new : ListenerHandler := mk_listener None None false.

(** Clandestine traffic comes from anywhere, the other from this computer. *)
Definition bind_address (port : Z) (configuration : PortConfiguration) : SocketAddr :=
  mkSocketAddr (if is_clandestine configuration then V4 0 0 0 0 else V4 127 0 0 1) port.

(** [bind] says whether the socket could be bound to an address. *)
Definition bind_port_and_configuration (bind : SocketAddr -> bool) (self : ListenerHandler) (port : Z) (configuration : PortConfiguration) :
    ListenerHandler * bool :=
  (mk_listener (Some port) (Some configuration) (l_sub self), bind (bind_address port configuration)).

Definition bind_subs (self : ListenerHandler) : ListenerHandler := mk_listener (l_port self) (l_configuration self) true.

(** A connection that waits to be accepted, with its two addresses: the peer's is gone if the connection was closed in
    the meantime. [AcceptError] is an error of the system's. *)
Inductive pending := Connection (local_addr : SocketAddr) (peer_addr : option SocketAddr) | AcceptError.

(** The message, with the factories that are part of its port configuration *)
Record accepted_stream := mk_accepted { accepted_msg : AddStreamMsg; accepted_factories : list DiscriminatorFactory }.

(** [split_stream] *)
Definition split_stream (c : SocketAddr * option SocketAddr) : option (SocketAddr * SocketAddr) :=
  match c.2 with Some peer => Some (c.1, peer) | None => None end.

(** [poll]: the messages, the connections that still wait, and whether the task will be woken up when there are more: it will if the socket
    itself said that nothing is ready. *)
Fixpoint listener_poll (self : ListenerHandler) (waiting : list pending) : outcome (list accepted_stream * list pending * bool) :=
  match waiting with
  | [] => Ret ([], [], true)
  | AcceptError :: waiting => listener_poll self waiting
  | Connection local peer :: waiting =>
      match split_stream (local, peer) with
      | None => Ret ([], waiting, false)
      | Some (local_addr, peer_addr) =>
          if negb (l_sub self) then Panic
          else
            let* configuration := expect (l_configuration self) in
            let* (msgs, rest, woken) := listener_poll self waiting in
            Ret (mk_accepted (mkAddStream peer_addr local_addr (l_port self) (is_clandestine configuration)) (discriminator_factories configuration) :: msgs, rest, woken)
      end
  end.

(** ** CrashTestDummy *)
Inductive readiness := ReadyOk | ReadyErr | Pending.

Definition crash_test_dummy_poll (crash_point : CrashPoint) : outcome readiness :=
  match crash_point with CrashNone => Ret ReadyOk | CrashPanic => Panic | CrashError => Ret ReadyErr end.

(** ** PrivilegeDropper *)

(** The identifiers of the process, as the operating system keeps them *)
Class IdWrapper := {
  proc : Type;
  process_uid : proc -> Z;
  process_gid : proc -> Z;
  setuid : Z -> proc -> proc * Z;
  setgid : Z -> proc -> proc * Z }.

(** Setting the user leaves the group alone. *)
Class IdWrapperOk `{!IdWrapper} : Prop := { setuid_gid u p : process_gid (setuid u p).1 = process_gid p }.

Section privileges.
Context `{!IdWrapper}.

Definition drop_group (user : RealUser) (p : proc) : outcome proc :=
  if process_gid p =? 0 then
    let* g := expect (gid user) in
    let (p1, result) := setgid g p in
    if negb (result =? 0) then Panic else if process_gid p1 =? 0 then Panic else Ret p1
  else Ret p.

Definition drop_user (user : RealUser) (p : proc) : outcome proc :=
  if process_uid p =? 0 then
    let* u := expect (uid user) in
    let (p1, result) := setuid u p in
    if negb (result =? 0) then Panic else if process_uid p1 =? 0 then Panic else Ret p1
  else Ret p.

Definition drop_privileges (user : RealUser) (p : proc) : outcome proc :=
  let* p1 := drop_group user p in drop_user user p1.

(** [run] is the outcome of the command with its arguments: whether it could be run, and whether it succeeded. *)
Definition chown (run : str -> Z -> Z -> option bool) (file : path) (user : RealUser) (p : proc) : outcome unit :=
  if (process_gid p =? 0) && (process_uid p =? 0) then
    let* u := expect (uid user) in
    let* g := expect (gid user) in
    let* success := expect (run file u g) in
    if success : bool then Ret tt else Panic
  else Ret tt.

Definition unprivileged (p : proc) : Prop := process_uid p <> 0 /\ process_gid p <> 0.

Lemma drop_group_ok user p p' : drop_group user p = Ret p' -> process_gid p' <> 0.
Proof.
  unfold drop_group. destruct (process_gid p =? 0) eqn:E; [|intros [= <-]; by apply Z.eqb_neq]. intros (g & _ & E')%obind_ret_inv.
  destruct (setgid g p) as [p1 r]. repeat (case_match; try done). injection E' as <-. by apply Z.eqb_neq.
Qed.

Lemma drop_privileges_ok `{!IdWrapperOk} user p p' : drop_privileges user p = Ret p' -> unprivileged p'.
Proof.
  intros (p1 & E1%drop_group_ok & E)%obind_ret_inv. unfold drop_user in E. destruct (process_uid p1 =? 0) eqn:Eu.
  - apply obind_ret_inv in E as (u & _ & E). pose proof (setuid_gid u p1) as Hg. destruct (setuid u p1) as [p2 r]. cbn [fst] in Hg.
    repeat (case_match; try done). injection E as <-. split; [by apply Z.eqb_neq|by rewrite Hg].
  - injection E as <-. split; [by apply Z.eqb_neq|done].
Qed.

Lemma drop_privileges_again user p : unprivileged p -> drop_privileges user p = Ret p.
Proof. intros [Hu Hg]. unfold drop_privileges, drop_group, drop_user. rewrite (proj2 (Z.eqb_neq _ _) Hg). cbn [obind]. by rewrite (proj2 (Z.eqb_neq _ _) Hu). Qed.
End privileges.

(** ** DnsSocketServer *)
Definition DNS_PORT : Z := 53.
Definition DNS_BUFFER : nat := Z.to_nat 65536.

(** What the socket yields, with what becomes of the answer: sending it can fail. *)
Inductive dns_recv := Datagram (data : bytes) (from : SocketAddr) (sent : bool) | RecvError.

Record dns_answer := mk_dns_answer { answer_bytes : bytes; answer_to_addr : SocketAddr }.

Section dns.
Context `{!TrustDns}.

(** Processing takes place in a copy of the server's buffer. *)
Definition answer_datagram (buf : bytes) (data : bytes) (from : SocketAddr) : outcome dns_answer :=
  let* (buffer, response_length) := process (fill buf data) (length data) in
  let* response := slice buffer 0 response_length in
  Ret (mk_dns_answer response from).

(** [poll]: the answers, and how it ends; when the socket yields nothing more it is not ready. *)
Fixpoint dns_poll (buf : bytes) (received : list dns_recv) : outcome (list dns_answer * readiness) :=
  match received with
  | [] => Ret ([], Pending)
  | RecvError :: _ => Ret ([], ReadyErr)
  | Datagram data from sent :: received =>
      let* a := answer_datagram buf data from in
      if negb sent then Ret ([a], ReadyErr)
      else let* (answers, r) := dns_poll buf received in Ret (a :: answers, r)
  end.

(** [initialize_as_unprivileged] *)
Definition dns_buffer : bytes := replicate DNS_BUFFER 0.

(** [initialize_as_privileged] *)
Definition dns_initialize_as_privileged (bind : SocketAddr -> bool) : outcome unit :=
  if bind (mkSocketAddr (V4 0 0 0 0) DNS_PORT) then Ret tt else Panic.
End dns.

(** ** Bootstrapper *)

(** What happens while a Node starts, in order *)
Inductive event :=
| BindUdp (a : SocketAddr)
| BindTcp (a : SocketAddr)
| StartLogger (directory : path)
| Chown (file : path)
| OpenDatabase (directory : path)
| StartActors.

Section bootstrapper.
Context `{!StandardLib} `{!StartupLib} `{!Sqlite} `{!ConfigLib} `{!EthSign} `{!Serde NodeRecordInner} `{!IdWrapper}.
(** [CryptDEReal::new], [CryptDENull] as a CryptDE, and the text of IPv6 addresses *)
Context (cryptde_real : Z -> CryptDE) (null_cryptde : CryptDENull.CryptDENull -> CryptDE) (show_v6 : list Z -> str).

Record Bootstrapper := mk_bootstrapper { listener_handlers : list ListenerHandler; b_config : BootstrapperConfig }.

(** [initialize_as_privileged], after the configuration and the logger: a listener for each port *)
Fixpoint bind_listeners (bind : SocketAddr -> bool) (ports : list (Z * PortConfiguration)) : outcome (list ListenerHandler) :=
  match ports with
  | [] => Ret []
  | (port, configuration) :: ports =>
      match bind_port_and_configuration bind ListenerHandlerReal_new port configuration with
      | (handler, true) => let* handlers := bind_listeners bind ports in Ret (handler :: handlers)
      | (_, false) => Panic
      end
  end.

Definition chown_event (file : path) (p : proc) : list event := if (process_gid p =? 0) && (process_uid p =? 0) then [Chown file] else [].

(** [LoggerInitializerWrapperReal::init], but for the logger itself *)
Definition logger_init (run : str -> Z -> Z -> option bool) (file_path : path) (user : RealUser) (p : proc) : outcome (list event) :=
  let logfile_name := path_join file_path (lit "PrometheusNode_rCURRENT.log") in
  let* _ := chown run logfile_name user p in
  Ret (StartLogger file_path :: chown_event logfile_name p).

(** [initialize_as_privileged]; the ports come in the order of the map. *)
Definition initialize_as_privileged (run : str -> Z -> Z -> option bool) (p : proc) (bind : SocketAddr -> bool) (s : surroundings) (random_key : bytes)
    (m : ArgMatches) : outcome (Bootstrapper * list event) :=
  let* config := privileged_configure s random_key m in
  let* events := logger_init run (data_directory config) (real_user config) p in
  let ports := map_to_list (port_configurations config) in
  let* handlers := bind_listeners bind ports in
  Ret (mk_bootstrapper handlers config, events ++ map (fun p => BindTcp (bind_address p.1 p.2)) ports).

Definition initialize_cryptde (cryptde_null : option CryptDENull.CryptDENull) (chain : Z) : CryptDE :=
  match cryptde_null with Some n => null_cryptde n | None => cryptde_real chain end.

(** The descriptor, and what is written to the console *)
Definition report_local_descriptor (cryptde : CryptDE) (addr : option NodeAddr.NodeAddr) (chain : Z) (streams : StdStreams) : outcome (str * StdStreams) :=
  let* descriptor := match addr with
                     | Some node_addr => NodeDescriptor.to_string show_v6 (NodeDescriptor.mk (public_key cryptde) (Some (NodeAddr.clone node_addr))) cryptde chain
                     | None => let* fragment := public_key_to_descriptor_fragment cryptde (public_key cryptde) in Ret (fragment ++ lit "::")
                     end in
  Ret (descriptor, flushed_write streams (lit "PrometheusNode local descriptor: " ++ descriptor ++ newline)).

Definition set_neighborhood (mode : NeighborhoodMode.NeighborhoodMode) (factories : list DiscriminatorFactory) (c : BootstrapperConfig) : BootstrapperConfig :=
  mk_config _ (log_level c) (dns_servers c) mode (accountant_config c) (crash_point c) factories (ui_gateway_config c)
    (blockchain_bridge_config c) (port_configurations c) (data_directory c) (cryptde_null_opt c) (real_user c) (clandestine_port_opt c)
    (consuming_wallet c) (earning_wallet c).

Definition set_descriptor (d : str) (c : BootstrapperConfig) : BootstrapperConfig :=
  mk_config _ (log_level c) (dns_servers c) (neighborhood_config c) (accountant_config c) (crash_point c) (clandestine_discriminator_factories c)
    (mk_ui (ui_port (ui_gateway_config c)) d) (blockchain_bridge_config c) (port_configurations c) (data_directory c) (cryptde_null_opt c)
    (real_user c) (clandestine_port_opt c) (consuming_wallet c) (earning_wallet c).

Definition clandestine_configuration : PortConfiguration := mk_port [JsonDiscriminatorFactory] true.

Definition establish_clandestine_port (bind : SocketAddr -> bool) (b : Bootstrapper) (db : Db) : outcome (Bootstrapper * Db * list event) :=
  let c := b_config b in
  let factories := clandestine_discriminator_factories c ++ [JsonDiscriminatorFactory] in
  match neighborhood_config c with
  | NeighborhoodMode.Standard node_addr neighbor_configs rate_pack =>
      let* db1 := match clandestine_port_opt c with Some port => set_clandestine_port db port | None => Ret db end in
      let* port := clandestine_port db1 in
      match bind_port_and_configuration bind ListenerHandlerReal_new port clandestine_configuration with
      | (handler, true) =>
          let mode := NeighborhoodMode.Standard (NodeAddr.new (NodeAddr.ip_addr node_addr) [port]) neighbor_configs rate_pack in
          Ret (mk_bootstrapper (listener_handlers b ++ [handler]) (set_neighborhood mode factories c), db1,
               [OpenDatabase (data_directory c); BindTcp (bind_address port clandestine_configuration)])
      | (_, false) => Panic
      end
  | mode => Ret (mk_bootstrapper (listener_handlers b) (set_neighborhood mode factories c), db, [])
  end.

Definition initialize_as_unprivileged (bind : SocketAddr -> bool) (url_ok : str -> bool) (now : Z) (escape : str -> str) (m : ArgMatches)
    (b : Bootstrapper) (streams : StdStreams) (db : Db) : outcome (Bootstrapper * Actors * StdStreams * Db * list event) :=
  let* (streams1, unprivileged_config, db1) := unprivileged_configure escape m streams db in
  let b1 := mk_bootstrapper (listener_handlers b) (merge_unprivileged (b_config b) unprivileged_config) in
  let* (b2, db2, events) := establish_clandestine_port bind b1 db1 in
  let c := b_config b2 in
  let chain := StandardConfigurator.chain_id (blockchain_bridge_config c) in
  let cryptde := initialize_cryptde (cryptde_null_opt c) chain in
  let* (descriptor, streams2) := report_local_descriptor cryptde (NeighborhoodMode.node_addr_opt (neighborhood_config c)) chain streams1 in
  let config := set_descriptor descriptor c in
  let* actors := make_and_start_actors url_ok now cryptde config in
  Ret (mk_bootstrapper (map bind_subs (listener_handlers b2)) config, actors, streams2, db2,
       OpenDatabase (data_directory (b_config b)) :: events ++ [StartActors]).
End bootstrapper.
Arguments Bootstrapper {_}.

(** ** ServerInitializer *)
Section server.
Context `{!StandardLib} `{!StartupLib} `{!Sqlite} `{!ConfigLib} `{!EthSign} `{!Serde NodeRecordInner} `{!IdWrapper}.
Context (cryptde_real : Z -> CryptDE) (null_cryptde : CryptDENull.CryptDENull -> CryptDE) (show_v6 : list Z -> str).

(** Each event with the process as it was then *)
Definition at_process (p : proc) (l : list event) : list (proc * event) := map (fun e => (p, e)) l.

Record started := mk_started { s_bootstrapper : Bootstrapper; s_actors : Actors; s_streams : StdStreams; s_db : Db; s_process : proc;
  s_events : list (proc * event) }.

(** [go] without --help and --version, which returns 1; [run] is the chown command. *)
Definition go (udp tcp : SocketAddr -> bool) (run : str -> Z -> Z -> option bool) (url_ok : str -> bool) (now : Z) (escape : str -> str)
    (s : surroundings) (random_key : bytes) (m : ArgMatches) (streams : StdStreams) (db : Db) (p : proc) : outcome started :=
  let* _ := dns_initialize_as_privileged udp in
  let* (b, events) := initialize_as_privileged run p tcp s random_key m in
  let* real_user := populate s (real_user (b_config b)) in
  let* _ := chown run (data_directory (b_config b)) real_user p in
  let* p1 := drop_privileges real_user p in
  let* (b', actors, streams', db', events') :=
    initialize_as_unprivileged cryptde_real null_cryptde show_v6 tcp url_ok now escape m b streams db in
  Ret (mk_started b' actors streams' db' p1
    (at_process p (BindUdp (mkSocketAddr (V4 0 0 0 0) DNS_PORT) :: events ++ chown_event (data_directory (b_config b)) p) ++ at_process p1 events')).

(** With --help or --version: privileges are dropped before the configuration is made, and 0 is returned. *)
Definition go_help (s : surroundings) (random_key : bytes) (m : ArgMatches) (p : proc) : outcome (proc * Z) :=
  let* real_user := populate s RealUser_null in
  let* p1 := drop_privileges real_user p in
  let* _ := privileged_configure s random_key m in
  Ret (p1, 0).
End server.

(** ** The start of a Node *)
Section starting.
Context `{!StandardLib} `{!StartupLib} `{!Sqlite} `{!ConfigLib} `{!EthSign} `{!Serde NodeRecordInner} `{!IdWrapper}.
Context (cryptde_real : Z -> CryptDE) (null_cryptde : CryptDENull.CryptDENull -> CryptDE) (show_v6 : list Z -> str).

(** The ports of this computer's own traffic *)
Definition http_configuration : PortConfiguration := mk_port [HttpRequestDiscriminatorFactory] false.
Definition tls_configuration : PortConfiguration := mk_port [TlsDiscriminatorFactory; HttpRequestDiscriminatorFactory] false.

Definition own_traffic : list (Z * PortConfiguration) := [(HTTP_PORT, http_configuration); (TLS_PORT, tls_configuration)].

Definition listening (subs : bool) (e : Z * PortConfiguration) : ListenerHandler := mk_listener (Some e.1) (Some e.2) subs.

Lemma bind_listeners_ok bind ports handlers : bind_listeners bind ports = Ret handlers -> handlers = map (listening false) ports.
Proof.
  revert handlers. induction ports as [|[port c] ports IH]; intros handlers; cbn [bind_listeners]; [by intros [= <-]|].
  cbn [bind_port_and_configuration]. destruct (bind _); [|done]. intros (hs & ->%IH & [= <-])%obind_ret_inv. done.
Qed.

Lemma own_ports s key m c : privileged_configure s key m = Ret c ->
  map_to_list (port_configurations c) ≡ₚ own_traffic.
Proof.
  intros (n & (w & _ & [= <-])%obind_ret_inv & E)%obind_ret_inv.
  assert (port_configurations c = <[TLS_PORT := tls_configuration]> (<[HTTP_PORT := http_configuration]> ∅)) as ->.
  { unfold privileged_parse_args in E. repeat (apply obind_ret_inv in E as (? & _ & E); repeat case_match). by injection E as <-. }
  rewrite map_to_list_insert by done. rewrite map_to_list_insert by done. rewrite map_to_list_empty. apply perm_swap.
Qed.

(** The events of the privileged part, and of the other: ports 53, 80 and 443 are bound before, the clandestine port after *)
Definition before (e : event) : Prop :=
  match e with
  | BindUdp a => a = mkSocketAddr (V4 0 0 0 0) 53
  | BindTcp a => a = mkSocketAddr (V4 127 0 0 1) 80 \/ a = mkSocketAddr (V4 127 0 0 1) 443
  | StartLogger _ | Chown _ => True
  | OpenDatabase _ | StartActors => False
  end.

Definition after (e : event) : Prop :=
  match e with
  | BindTcp a => SubLib.ip a = V4 0 0 0 0 /\ 1025 <= SubLib.port a <= 65535
  | OpenDatabase _ | StartActors => True
  | BindUdp _ | StartLogger _ | Chown _ => False
  end.

(** The listeners and the mode of a Node: a Standard Node has one for clandestine traffic, at the port that is in its
    database and that it says it has. *)
Definition listens (handlers : list (Z * PortConfiguration)) (mode : NeighborhoodMode.NeighborhoodMode) (db : Db) : Prop :=
  match mode with
  | NeighborhoodMode.Standard node_addr _ _ =>
      exists port, clandestine_port db = Ret port /\ NodeAddr.ports node_addr = [port] /\
        handlers ≡ₚ own_traffic ++ [(port, clandestine_configuration)]
  | _ => handlers ≡ₚ own_traffic
  end.

Lemma clandestine_port_range db port : clandestine_port db = Ret port -> 1025 <= port <= 65535.
Proof.
  intros (n & _ & E)%obind_ret_inv. destruct (_ || _) eqn:Eb; [done|]. apply orb_false_iff in Eb as [?%Z.ltb_ge ?%Z.ltb_ge].
  destruct (can_bind n); [|done]. injection E as <-. done.
Qed.

Lemma establish_listens bind b db b' db' events ports : listener_handlers b = map (listening false) ports ->
  ports ≡ₚ own_traffic ->
  establish_clandestine_port bind b db = Ret (b', db', events) ->
  Forall after events /\ exists ports', listener_handlers b' = map (listening false) ports' /\ listens ports' (neighborhood_config (b_config b')) db'.
Proof.
  intros Hh Hp. unfold establish_clandestine_port. destruct (neighborhood_config (b_config b)) as [na ns rp| | |];
    [|intros [= <- <- <-]; by eauto..].
  intros (db1 & _ & (port & Hport & E)%obind_ret_inv)%obind_ret_inv. cbn [bind_port_and_configuration] in E. destruct (bind _); [|done].
  injection E as <- <- <-. pose proof (clandestine_port_range _ _ Hport) as Hr. split; [by repeat constructor; cbn; lia|].
  exists (ports ++ [(port, clandestine_configuration)]). cbn. rewrite Hh, map_app. split; [done|].
  exists port. split_and!; [done|done|]. by rewrite Hp.
Qed.

Lemma logger_init_before run file user p l : logger_init run file user p = Ret l -> Forall before l.
Proof. intros (? & _ & [= <-])%obind_ret_inv. constructor; [done|]. unfold chown_event. by case_match; repeat constructor. Qed.

Lemma privileged_part run p bind s key m b events : initialize_as_privileged run p bind s key m = Ret (b, events) ->
  Forall before events /\ exists ports, listener_handlers b = map (listening false) ports /\
    ports ≡ₚ own_traffic.
Proof.
  intros (c & Hports%own_ports & (l & Hl%logger_init_before & (hs & ->%bind_listeners_ok & [= <- <-])%obind_ret_inv)%obind_ret_inv)%obind_ret_inv.
  split; [|by eauto]. apply Forall_app. split; [done|]. rewrite Hports. do 2 (constructor; [cbn; auto|]). done.
Qed.

Lemma unprivileged_part bind url_ok now escape m b streams db b' a streams' db' events ports :
  listener_handlers b = map (listening false) ports -> ports ≡ₚ own_traffic ->
  initialize_as_unprivileged cryptde_real null_cryptde show_v6 bind url_ok now escape m b streams db = Ret (b', a, streams', db', events) ->
  Forall after events /\ last events = Some StartActors /\
  (exists ports', listener_handlers b' = map (listening true) ports' /\ listens ports' (neighborhood_config (b_config b')) db') /\
  exists cryptde, make_and_start_actors url_ok now cryptde (b_config b') = Ret a.
Proof.
  intros Hh Hp. unfold initialize_as_unprivileged. intros ([[streams1 uc] db1] & _ & E)%obind_ret_inv.
  apply obind_ret_inv in E as ([[b2 db2] ev] & E2 & E).
  apply (establish_listens _ _ _ _ _ _ ports) in E2 as (Hev & ports' & Hh' & Hl); [|done..].
  apply obind_ret_inv in E as ([d streams2] & _ & (act & Ha & [= <- <- <- <- <-])%obind_ret_inv).
  split_and!.
  - constructor; [done|]. apply Forall_app. by repeat constructor.
  - by rewrite app_comm_cons, last_snoc.
  - exists ports'. split; [|done]. cbn. rewrite Hh', map_map. by apply map_ext.
  - by eexists.
Qed.
End starting.

(** The address of the only Node of a new database is that of its mode. *)
Lemma only_node_addr `{!Serde NodeRecordInner} pk mode w cryptde db : database_new pk mode w cryptde = Ret db ->
  exists self, by_public_key db = {[pk := self]} /\ addr_of self = NodeAddr.clone <$> NeighborhoodMode.node_addr_opt mode.
Proof.
  intros (r1 & ((sg1 & sn1) & _ & [= <-])%obind_ret_inv & E)%obind_ret_inv. apply obind_ret_inv in E as (r2 & E2 & E).
  apply obind_ret_inv in E as (r3 & ((sg3 & sn3) & _ & [= <-])%obind_ret_inv & [= <-]).
  assert (nr_key r2 = pk /\ addr_of r2 = NodeAddr.clone <$> NeighborhoodMode.node_addr_opt mode) as [<- Ha].
  { destruct (NeighborhoodMode.node_addr_opt mode); cbn in E2; by injection E2 as <-. }
  eexists. split; [done|]. exact Ha.
Qed.

Lemma started_neighborhood `{!StandardLib} `{!Serde NodeRecordInner} url_ok now cryptde config a : make_and_start_actors url_ok now cryptde config = Ret a ->
  exists self, by_public_key (neighborhood_database (neighborhood a)) = {[public_key cryptde := self]} /\
    addr_of self = NodeAddr.clone <$> NeighborhoodMode.node_addr_opt (neighborhood_config config).
Proof.
  intros (a' & (client & _ & (bridge & _ & (nh & E & [= <-])%obind_ret_inv)%obind_ret_inv)%obind_ret_inv & [= <-])%obind_ret_inv. cbn.
  unfold neighborhood_new in E. rewrite zero_hop_neighbors in E. apply obind_ret_inv in E as (db & E & [= <-]). by eapply only_node_addr.
Qed.

(** C27: The start of a Node. When it has started, the process is neither root's nor of root's group, however it was started. All that happens
    before privileges are dropped, in the process as it was, is that port 53 is bound for the DNS server and ports 80 and 443, of
    this computer's address only, for its own traffic, and that the log and the data directory are given to the real
    user; the database is opened, the actors are started and any other port is bound only in the unprivileged process, with the
    actors' start coming last. Every listener knows the pool that it hands connections to. A Standard Node has
    a third listener, for clandestine traffic from anywhere: at the port from 1025 to 65535 that its database has then, which is
    the only port that it tells its neighbors. A Node in any other mode has none, and tells nobody an address. *)
Theorem node_starts_unprivileged `{!StandardLib} `{!StartupLib} `{!Sqlite} `{!ConfigLib} `{!EthSign} `{!Serde NodeRecordInner} `{!IdWrapper} `{!IdWrapperOk}
    cryptde_real null_cryptde show_v6 udp tcp run url_ok now escape s key m streams db p st :
  go cryptde_real null_cryptde show_v6 udp tcp run url_ok now escape s key m streams db p = Ret st ->
  let mode := neighborhood_config (b_config (s_bootstrapper st)) in
  unprivileged (s_process st) /\
  (exists l l', s_events st = at_process p l ++ at_process (s_process st) (l' ++ [StartActors]) /\ Forall before l /\ Forall after l') /\
  (exists handlers, listener_handlers (s_bootstrapper st) = map (listening true) handlers /\ listens handlers mode (s_db st)) /\
  exists k self, by_public_key (neighborhood_database (neighborhood (s_actors st))) = {[k := self]} /\
    addr_of self = NodeAddr.clone <$> NeighborhoodMode.node_addr_opt mode.
Proof.
  intros (? & _ & E)%obind_ret_inv. apply obind_ret_inv in E as ([b events] & (Hev & ports & Hh & Hp)%privileged_part & E).
  apply obind_ret_inv in E as (user & _ & E). apply obind_ret_inv in E as (? & _ & E).
  apply obind_ret_inv in E as (p1 & Hp1%drop_privileges_ok & E). apply obind_ret_inv in E as ([[[[b' a] streams'] db'] events'] & E & [= <-]).
  destruct (unprivileged_part _ _ _ _ _ _ _ _ _ _ _ _ _ _ _ _ ports Hh Hp E) as (Hev' & Hlast & Hl & cryptde & Ha).
  cbn [s_process s_events s_bootstrapper s_db s_actors]. split; [done|]. split.
  - apply last_Some in Hlast as [l' ->]. eexists (BindUdp _ :: events ++ _), l'. split; [reflexivity|]. apply Forall_app in Hev' as [Hev' _]. split; [|done].
    constructor; [done|]. apply Forall_app. split; [done|]. unfold chown_event. by case_match; repeat constructor.
  - split; [done|]. apply started_neighborhood in Ha as (self & Hself & Haddr). by exists (public_key cryptde), self.
Qed.

(** The descriptor that a Node without an address reports has two colons after the key whatever the chain is. Where the
    delimiter is another character, as on the main chain, no Node can read it. *)
Lemma descriptor_without_address_unreadable show_v6 cryptde chain c fragment streams d streams' :
  node_descriptor_delimiter chain = Ret c -> c <> ":"%char -> public_key_to_descriptor_fragment cryptde (public_key cryptde) = Ret fragment -> c ∉ fragment ->
  report_local_descriptor show_v6 cryptde None chain streams = Ret (d, streams') ->
  NodeDescriptor.from_str cryptde d chain = Ret (Err (NodeDescriptor.BadDescriptor d)).
Proof.
  intros Hc Hne Ef Hk. unfold report_local_descriptor. rewrite Ef. intros [= <- _]. unfold NodeDescriptor.from_str. rewrite Hc. cbn [obind]. rewrite splitn2_clean; [done|].
  rewrite elem_of_app. intros [Hf|Hf]; [done|]. apply list_elem_of_In in Hf. cbn in Hf. destruct_or!; congruence.
Qed.

(** A process is its user and its group, which root may set. *)
Definition toy_ids : IdWrapper := {|
  proc := Z * Z; process_uid := fst; process_gid := snd;
  setuid u p := if p.1 =? 0 then ((u, p.2), 0) else (p, -1);
  setgid g p := if p.1 =? 0 then ((p.1, g), 0) else (p, -1) |}.

Lemma toy_ids_ok : @IdWrapperOk toy_ids.
Proof. constructor. intros u [x y]. cbn. by destruct (x =? 0). Qed.

Definition toy_inner_serde : Serde NodeRecordInner := {| to_vec i := Some [1]; from_slice b := None |}.

(** A start by root, for the user 1000 *)
Definition toy_go (l : list (string * string)) : outcome (@started toy_standard_lib toy_sqlite toy_ids) :=
  @go toy_standard_lib toy_startup_lib toy_sqlite toy_wallet_lib toy_eth toy_inner_serde toy_ids (fun _ => toy_cryptde key_a) (fun _ => toy_cryptde key_b)
    (fun _ => []) (fun _ => true) (fun _ => true) (fun _ _ _ => Some true) (fun _ => true) 0 (fun s => s) (toy_surroundings "/root") []
    (toy_arguments (l ++ [("real-user", "1000:1000:/home/x"); ("dns-servers", "8.8.8.8")]%string)) (mkStreams [] [])
    (@create_database_tables toy_sqlite 1 5000) (0, 0).

Definition toy_returns {A} (o : outcome A) : bool := match o with Ret _ => true | _ => false end.

Lemma node_starts_unprivileged_witness :
  exists st, toy_go [("ip", "1.2.3.4"); ("neighborhood-mode", "standard"); ("chain", "dev")]%string = Ret st /\ @unprivileged toy_ids (s_process st).
Proof.
  destruct (toy_go [("ip", "1.2.3.4"); ("neighborhood-mode", "standard"); ("chain", "dev")]%string) as [st| |] eqn:E;
    [|exfalso; assert (toy_returns (toy_go [("ip", "1.2.3.4"); ("neighborhood-mode", "standard"); ("chain", "dev")]%string) = true) as B by (vm_compute; reflexivity); rewrite E in B; discriminate B ..].
  exists st. split; [reflexivity|].
  exact (proj1 (@node_starts_unprivileged toy_standard_lib toy_startup_lib toy_sqlite toy_wallet_lib toy_eth toy_inner_serde toy_ids toy_ids_ok
    _ _ _ _ _ _ _ _ _ _ _ _ _ _ _ st E)).
Defined.

(** ** What a listener hands on *)
Section accepting.
Context `{!RegexDigits}.

Definition connection (c : SocketAddr * SocketAddr) : pending := Connection c.1 (Some c.2).

Definition stream_of (self : ListenerHandler) (configuration : PortConfiguration) (c : SocketAddr * SocketAddr) : accepted_stream :=
  mk_accepted (mkAddStream c.2 c.1 (l_port self) (is_clandestine configuration)) (discriminator_factories configuration).

(** The connections that have not been closed *)
Definition open_connections (waiting : list pending) : list (SocketAddr * SocketAddr) :=
  omap (fun p => match p with Connection local peer => split_stream (local, peer) | AcceptError => None end) waiting.

Definition none_closed (waiting : list pending) : Prop :=
  Forall (fun p => match p with Connection _ None => False | _ => True end) waiting.

(** Connections that are still there are all handed on, in order, whatever errors the system reports in between. *)
Lemma listener_hands_on self configuration front rest :
  l_sub self = true -> l_configuration self = Some configuration -> none_closed front ->
  listener_poll self (front ++ rest) =
    let* (msgs, remaining, woken) := listener_poll self rest in
    Ret (map (stream_of self configuration) (open_connections front) ++ msgs, remaining, woken).
Proof.
  intros Hs Hc. induction 1 as [|p front Hp _ IH]; cbn [Datatypes.app]; [by destruct (listener_poll self rest) as [[[? ?] ?]| |]|].
  destruct p as [local [peer|]|]; [|done|exact IH]. cbn [listener_poll split_stream fst snd]. rewrite Hs, Hc.
  cbn [negb expect obind]. rewrite IH. by destruct (listener_poll self rest) as [[[? ?] ?]| |].
Qed.

(** A connection that was closed before it could be accepted ends the polling: the ones behind it wait, although nothing will wake
    up the task for them. *)
Lemma closed_connection_blocks_the_others self configuration front local rest :
  l_sub self = true -> l_configuration self = Some configuration -> none_closed front ->
  listener_poll self (front ++ Connection local None :: rest) = Ret (map (stream_of self configuration) (open_connections front), rest, false).
Proof. intros Hs Hc Hf. rewrite (listener_hands_on self configuration) by done. cbn. by rewrite app_nil_r. Qed.

Lemma json_reader port peer local :
  StreamReaderReal_new port [JsonDiscriminatorFactory] true peer local = Ret (clandestine_reader local peer port (AJson JsonFramer.new)).
Proof. done. Qed.
End accepting.

(** C13: From the network to the Dispatcher. A listener that is bound to the clandestine port hands the connections that wait on to the
    pool, in order, each as a clandestine stream with this port, and will be woken up for more, whatever errors accepting meets in
    between, as long as none of them has been closed. At one that was closed before it could be accepted it stops: those before it
    are handed on, those behind it are left waiting, and nothing wakes it up for them. The reader that is made
    for such a stream has a JSON framer and masquerader. Packages, text or binary, that a Node has masked and sent
    down the stream one after the other come out of it exactly, each as one message from that peer, in order and nothing
    else, in whatever pieces they arrive. *)
Theorem clandestine_port_delivers `{!RegexDigits} `{!JsonLib} `{!JsonLibOk} method_is_connect bind port front packages :
  let self := bind_subs (bind_port_and_configuration bind ListenerHandlerReal_new port clandestine_configuration).1 in
  let handed_on := map (stream_of self clandestine_configuration) (open_connections front) in
  Forall bytes_ok packages -> none_closed front ->
  listener_poll self front = Ret (handed_on, [], true) /\
  (forall local behind, listener_poll self (front ++ Connection local None :: behind) = Ret (handed_on, behind, false)) /\
  Forall (fun c =>
    let a := stream_of self clandestine_configuration c in
    exists reader wires,
      StreamReaderReal_new (add_origin_port (accepted_msg a)) (accepted_factories a) (add_is_clandestine (accepted_msg a))
        (add_peer_addr (accepted_msg a)) (add_local_addr (accepted_msg a)) = Ret reader /\
      sr_peer_addr reader = c.2 /\ sr_reception_port reader = Some port /\
      omapM json_mask packages = Ret wires /\
      forall reads, Forall (fun r => r <> []) reads -> concat reads = concat wires ->
        exists reader' messages, StreamReader.poll method_is_connect reader (map Data reads ++ [NotReady]) = Ret (reader', messages, Some PollNotReady) /\
          delivered reader packages messages) (open_connections front).
Proof.
  intros self handed_on Hok Hf. split_and!.
  - rewrite <- (app_nil_r front), (listener_hands_on self clandestine_configuration) by done. cbn. by rewrite app_nil_r.
  - intros local behind. by apply closed_connection_blocks_the_others.
  - apply Forall_forall. intros [local peer] _ a. exists (clandestine_reader local peer (Some port) (AJson JsonFramer.new)).
    destruct (clandestine_delivers method_is_connect (AJson JsonFramer.new) (Framing0 := any_json_framing) local peer (Some port) packages eq_refl Hok) as (wires & Hw & Hd).
    exists wires. by split_and!.
Qed.

Definition toy_connection : SocketAddr * SocketAddr := (mkSocketAddr (V4 10 0 0 1) 5555, mkSocketAddr (V4 1 2 3 4) 1234).

Lemma clandestine_port_delivers_witness :
  let self := bind_subs (bind_port_and_configuration (fun _ => true) ListenerHandlerReal_new 5555 clandestine_configuration).1 in
  listener_poll self [AcceptError; connection toy_connection] = Ret ([stream_of self clandestine_configuration toy_connection], [], true) /\
  listener_poll self [AcceptError; connection toy_connection; Connection (mkSocketAddr (V4 10 0 0 1) 5555) None; AcceptError] =
    Ret ([stream_of self clandestine_configuration toy_connection], [AcceptError], false) /\
  exists reader wires,
    StreamReaderReal_new (Some 5555) [JsonDiscriminatorFactory] true toy_connection.2 toy_connection.1 = Ret reader /\
    omapM (@json_mask toy_json) [[104; 105]; [255]] = Ret wires /\
    forall reads, Forall (fun r => r <> []) reads -> concat reads = concat wires ->
      exists reader' messages, @StreamReader.poll AnyFramer (@any_framer no_other_digits) toy_json (fun _ => false) reader (map Data reads ++ [NotReady]) = Ret (reader', messages, Some PollNotReady).
Proof.
  destruct (@clandestine_port_delivers no_other_digits toy_json toy_json_ok (fun _ => false) (fun _ => true) 5555 [AcceptError; connection toy_connection] [[104; 105]; [255]]) as (Hp & Hb & Hd).
  - repeat constructor; norm_pow; lia.
  - repeat constructor.
  - split; [exact Hp|]. split; [apply Hb|]. inversion Hd as [|? ? Hx _]. destruct Hx as (reader & wires & E & _ & _ & Hw & Hr).
    exists reader, wires. split; [exact E|]. split; [exact Hw|]. intros reads Hne Hcat. destruct (Hr reads Hne Hcat) as (r' & ms & Hpoll & _).
    exists r', ms. exact Hpoll.
Defined.

(** ** The DNS server answers *)
Section answering.
Context `{!TrustDns}.

(** The datagrams that are answered, and how the polling ends *)
Fixpoint served (received : list dns_recv) : list (bytes * SocketAddr) * readiness :=
  match received with
  | [] => ([], Pending)
  | RecvError :: _ => ([], ReadyErr)
  | Datagram data from sent :: received =>
      if sent then ((data, from) :: (served received).1, (served received).2) else ([(data, from)], ReadyErr)
  end.

Definition short (r : dns_recv) : Prop := match r with Datagram data _ _ => (7 * length data <= DNS_BUFFER)%nat | RecvError => True end.

Lemma short_enough data from sent : (Z.of_nat (length data) <=? 9362) = true -> short (Datagram data from sent).
Proof. intros Hl%Z.leb_le. unfold short, DNS_BUFFER. lia. Qed.

Lemma DNS_BUFFER_large : (12 < DNS_BUFFER)%nat.
Proof. unfold DNS_BUFFER. lia. Qed.

Lemma filled data : (length data <= DNS_BUFFER)%nat -> length (fill dns_buffer data) = DNS_BUFFER.
Proof. intros Hl. unfold fill, dns_buffer. rewrite length_app, length_drop, length_replicate. lia. Qed.

Lemma datagram_answered data from : (7 * length data <= DNS_BUFFER)%nat ->
  exists b n, process (fill dns_buffer data) (length data) = Ret (b, n) /\ (n < DNS_BUFFER)%nat /\
    answer_datagram dns_buffer data from = Ret (mk_dns_answer (take n b) from).
Proof.
  intros Hl. pose proof DNS_BUFFER_large. pose proof (filled data ltac:(lia)) as Hf.
  destruct (process_total (fill dns_buffer data) (length data)) as (b & n & E & Hb & Hn); [rewrite Hf; lia..|].
  exists b, n. split; [done|]. split; [lia|]. unfold answer_datagram. rewrite E. cbn [obind]. rewrite slice_ok by lia. cbn [obind].
  by rewrite Nat.sub_0_r, drop_0.
Qed.
End answering.

(** C39: The DNS server. Whatever datagrams arrive, of up to 9,362 bytes each, and whatever becomes of the answers, polling the server
    never panics. It answers each datagram in turn, to where it came from, with the beginning of the buffer that results from processing
    it; nothing of an earlier datagram gets into a later answer, since each is processed in a fresh copy of the buffer. It goes on until
    nothing more has arrived; an error in receiving or in sending an answer ends it for good. *)
Theorem dns_server_answers `{!TrustDns} received :
  Forall short received ->
  exists answers, dns_poll dns_buffer received = Ret (answers, (served received).2) /\
    Forall2 (fun d a => exists b n, process (fill dns_buffer d.1) (length d.1) = Ret (b, n) /\ (n < DNS_BUFFER)%nat /\
      a = mk_dns_answer (take n b) d.2) (served received).1 answers.
Proof.
  induction 1 as [|[data from sent|] received Hr Hs IH]; [by exists []| |by exists []].
  destruct (datagram_answered data from Hr) as (b & n & E & Hn & Ha). cbn [dns_poll served]. rewrite Ha. cbn [obind].
  destruct sent; cbn [negb fst snd].
  - destruct IH as (answers & -> & Hall). cbn [obind]. eexists. split; [done|]. constructor; [by exists b, n|done].
  - eexists. split; [done|]. constructor; [by exists b, n|constructor].
Qed.

Lemma dns_server_answers_witness :
  exists answers, @dns_poll rfc_codes dns_buffer [Datagram [1; 2; 3] (mkSocketAddr (V4 127 0 0 1) 9) true; Datagram (replicate 73 255) (mkSocketAddr (V4 127 0 0 1) 8) true]
    = Ret (answers, Pending).
Proof.
  destruct (@dns_server_answers rfc_codes [Datagram [1; 2; 3] (mkSocketAddr (V4 127 0 0 1) 9) true; Datagram (replicate 73 255) (mkSocketAddr (V4 127 0 0 1) 8) true])
    as (answers & E & _).
  - constructor; [|constructor; [|constructor]]; apply short_enough; reflexivity.
  - exists answers. exact E.
Defined.
