(* ===== verification/RunModes.v ===== *)
(** * RunModes: what the program is run for

    run_modes.rs and database/config_dumper.rs: creating wallets, dumping the configuration, or running the Node. *)
From S2P Require Import Prelude Text SubLib Cryptde Wallet Messages Accounts MultiConfig Configurator StandardConfigurator.
From S2P Require Import Database ActorSystem Bootstrapper.

Inductive Mode := GenerateWallet | RecoverWallet | DumpConfig | RunTheNode.

Definition given_arg (args : list str) (a : string) : bool := bool_decide (lit a ∈ args).

Definition determine_mode (args : list str) : Mode :=
  if given_arg args "--dump-config" then DumpConfig
  else if given_arg args "--recover-wallet" then RecoverWallet
  else if given_arg args "--generate-wallet" then GenerateWallet
  else RunTheNode.

Section modes.
Context `{!StandardLib} `{!StartupLib} `{!Sqlite} `{!ConfigLib} `{!EthSign} `{!Serde NodeRecordInner} `{!IdWrapper}.
(** Of heck, [to_mixed_case]; of serde_json, [to_string_pretty] of an object *)
Context (mixed_case : str -> str) (to_string_pretty : gmap str (option str) -> option str).

(** ** config_dumper *)
Definition json_object (configuration : list (str * option str)) : gmap str (option str) :=
  fold_left (fun map p => <[mixed_case p.1 := p.2]> map) configuration ∅.

Definition configuration_to_json (configuration : list (str * option str)) : outcome str := expect (to_string_pretty (json_object configuration)).

(** [dump_config], on the database of the directory that [distill_args] finds; the rows come in the table's order. *)
Definition dump_config (s : surroundings) (m : ArgMatches) (streams : StdStreams) (db : Db) (p : proc) : outcome (StdStreams * proc * Z) :=
  let* (real_user, _, _) := real_user_data_directory_and_chain_id s m in
  let* p1 := drop_privileges real_user p in
  let* json := configuration_to_json (map_to_list (config db)) in
  Ret (flushed_write streams json, p1, 0).

(** ** The modes *)
Section with_mnemonics.
Context {language mnemonic : Type} (language_from_name : str -> option language) (mnemonic_of_phrase : str -> language -> option mnemonic)
  (seed_of : mnemonic -> str -> bytes) (make_mnemonic : Z -> language -> option mnemonic) (phrase_of : mnemonic -> str) (unindent : str -> str)
  (escape : str -> str).

(** [configuration_run]: the wallets are created first, and privileges are dropped then. *)
Definition configuration_run (created : outcome (StdStreams * WalletCreationConfig * Db)) (p : proc) : outcome (StdStreams * Db * proc * Z) :=
  let* (streams', c, db') := created in
  let* p1 := drop_privileges (creation_real_user c) p in
  Ret (streams', db', p1, 0).

Definition run_generate_wallet (draw : bytes) (m : ArgMatches) (streams : StdStreams) (db : Db) (p : proc) :=
  configuration_run (generate_wallet escape language_from_name seed_of make_mnemonic phrase_of unindent draw m streams db) p.

Definition run_recover_wallet (draw : bytes) (m : ArgMatches) (streams : StdStreams) (db : Db) (p : proc) :=
  configuration_run (recover_wallet escape language_from_name mnemonic_of_phrase seed_of draw m streams db) p.

(** [go]: what has become of the streams, the database and the process, with the exit code; [draw] is what encrypting the seed draws at random, [start] and [help] are what
    [ServerInitializer] does, and [served] what the actor system's run returns. *)
Definition run_modes_go (draw : bytes) (s : surroundings) (start : outcome started) (help : outcome (proc * Z)) (served : Z) (m : ArgMatches) (args : list str)
    (streams : StdStreams) (db : Db) (p : proc) : outcome (StdStreams * Db * proc * Z) :=
  match determine_mode args with
  | GenerateWallet => run_generate_wallet draw m streams db p
  | RecoverWallet => run_recover_wallet draw m streams db p
  | DumpConfig => let* (streams', p1, code) := dump_config s m streams db p in Ret (streams', db, p1, code)
  | RunTheNode =>
      if given_arg args "--help" || given_arg args "--version"
      then let* (p1, _) := help in Ret (streams, db, p1, served)
      else let* st := start in Ret (s_streams st, s_db st, s_process st, served)
  end.

Lemma configuration_run_unprivileged `{!IdWrapperOk} created p s' db' p' code :
  configuration_run created p = Ret (s', db', p', code) -> unprivileged p'.
Proof. intros ([[? c] ?] & _ & (p1 & Hp%drop_privileges_ok & [= <- <- <- <-])%obind_ret_inv)%obind_ret_inv. done. Qed.

(** Wallets that root creates without saying for whom: they are created, and then the program panics, since the real user is not looked
    for as it is when a Node starts. *)
Lemma root_creates_wallets_and_panics created streams' c db' p :
  created = Ret (streams', c, db') -> creation_real_user c = RealUser_null -> process_gid p = 0 -> configuration_run created p = Panic.
Proof.
  intros -> Hc Hp. unfold configuration_run. cbn [obind]. unfold drop_privileges, drop_group. by rewrite Hc, Hp.
Qed.
End with_mnemonics.

(** *** What is dumped *)
Lemma json_object_app l l' : json_object (l ++ l') = fold_left (fun map p => <[mixed_case p.1 := p.2]> map) l' (json_object l).
Proof. apply fold_left_app. Qed.

Lemma json_object_lookup l n v : (forall p q, p ∈ l -> q ∈ l -> mixed_case p.1 = mixed_case q.1 -> p = q) ->
  (exists k, (k, v) ∈ l /\ mixed_case k = n) <-> json_object l !! n = Some v.
Proof.
  induction l as [|[k w] l IH] using rev_ind; intros Hinj.
  { cbn. rewrite lookup_empty. split; [by intros (k & ?%not_elem_of_nil & _)|done]. }
  rewrite json_object_app. cbn. assert (forall p q, p ∈ l -> q ∈ l -> mixed_case p.1 = mixed_case q.1 -> p = q) as Hl by (intros ????; apply Hinj; set_solver).
  destruct (decide (mixed_case k = n)) as [<-|Hne].
  - rewrite lookup_insert_eq. split.
    + intros (k' & Hk' & E). assert ((k', v) = (k, w)) as [= -> ->]; [|done]. apply Hinj; [done|set_solver|done].
    + intros [= ->]. exists k. set_solver.
  - rewrite lookup_insert_ne, <- IH by done. split; intros (k' & Hk' & E); exists k'; (split; [|done]); [|set_solver].
    apply elem_of_app in Hk' as [|[= -> ->]%list_elem_of_singleton]; done.
Qed.
End modes.

(** What is dumped: an unprivileged process writes to the console, and changes nothing else. If no two names of the configuration
    look the same in mixed case, the object that is written has exactly the configuration's values under their names. *)
Theorem dump_shows_the_configuration `{!StandardLib} `{!StartupLib} `{!Sqlite} `{!ConfigLib} `{!EthSign} `{!IdWrapper} `{!IdWrapperOk}
    mixed_case to_string_pretty s m streams db p streams' p' code :
  (forall n n', is_Some (config db !! n) -> is_Some (config db !! n') -> mixed_case n = mixed_case n' -> n = n') ->
  dump_config mixed_case to_string_pretty s m streams db p = Ret (streams', p', code) ->
  unprivileged p' /\ code = 0 /\
  exists object text, to_string_pretty object = Some text /\ streams' = flushed_write streams text /\
    forall n v, config db !! n = Some v <-> (object !! mixed_case n = Some v /\ is_Some (config db !! n)).
Proof.
  intros Hinj ([[user d] chain] & _ & (p1 & Hp%drop_privileges_ok & (text & Ht%expect_ret & [= <- <- <-])%obind_ret_inv)%obind_ret_inv)%obind_ret_inv.
  split_and!; [done..|]. exists (json_object mixed_case (map_to_list (config db))), text. split_and!; [done..|]. intros n v.
  rewrite <- json_object_lookup.
  - split.
    + intros E. split; [|by eexists]. exists n. by rewrite elem_of_map_to_list.
    + intros [(k & Hk%elem_of_map_to_list & E) Hn]. assert (k = n) as -> by (apply Hinj; [by eexists|done..]). done.
  - intros [k x] [k' x'] Hk%elem_of_map_to_list Hk'%elem_of_map_to_list E. cbn in E. assert (k = k') as -> by (apply Hinj; [by eexists..|done]). congruence.
Qed.
