(* ===== verification/PortExposer.v ===== *)
(** * PortExposer: making ports of the local host reachable from elsewhere

    port_exposer/src/port_exposer.rs, a program of its own beside the Node. Sockets are arguments. *)
From S2P Require Import Prelude Text SubLib.
From Stdlib Require Import Ascii.

Record PortPair := mkPair { loopback : Z; nic : Z }.

(** One argument, [loopback:nic] *)
Definition make_port_pair (arg : str) : outcome PortPair :=
  match split_on ":"%char arg with
  | [l; n] =>
      let* loopback := expect (parse_uint 16 l) in
      let* nic := expect (parse_uint 16 n) in
      Ret (mkPair loopback nic)
  | _ => Panic
  end.

Definition make_port_pairs (args : list str) : outcome (list PortPair) := omapM make_port_pair (drop 1 args).

(** [open_port]: what a listener is bound to, and the port that it connects to; [bind] says whether it can be bound. *)
Record ListenerAndPort := mkListenerAndPort { listener : SocketAddr; loopback_port : Z }.

Definition open_port (bind : SocketAddr -> bool) (p : PortPair) : outcome ListenerAndPort :=
  let address := mkSocketAddr (V4 0 0 0 0) (nic p) in
  if bind address then Ret (mkListenerAndPort address (loopback p)) else Panic.

(** [go], up to the threads that serve the listeners: a thread for each *)
Definition go (bind : SocketAddr -> bool) (args : list str) : outcome (list ListenerAndPort) :=
  if (length args <=? 1)%nat then Panic
  else
    let* port_pairs := make_port_pairs args in
    omapM (open_port bind) port_pairs.

(** [make_connection]: where a connection that is accepted is led to, if a connection to there can be made; otherwise the accepted one
    is shut down. [shutdown] is whether that succeeds. *)
Definition make_connection (connect : SocketAddr -> bool) (shutdown : bool) (lap : ListenerAndPort) : outcome (option SocketAddr) :=
  let target := mkSocketAddr (V4 127 0 0 1) (loopback_port lap) in
  if connect target then Ret (Some target) else if shutdown then Ret None else Panic.

(** What reading says: bytes (not more than the buffer holds), the end, one of the errors of a dead stream, another error *)
Inductive reading := Read (bytes_read : bytes) | DeadStream | ReadError.

(** [shovel_bits]: what is written, and whether the other stream is shut down in the end. [writes] are the numbers of bytes that each
    write takes, or none if it fails; [shutdown] is whether shutting down succeeds. *)
Fixpoint shovel_bits (shutdown : bool) (reads : list reading) (writes : list (option nat)) : outcome (bytes * bool) :=
  match reads with
  | [] => Ret ([], false)
  | Read [] :: _ => if shutdown then Ret ([], true) else Panic
  | Read b :: reads =>
      match writes with
      | Some n :: writes => let* (out, closed) := shovel_bits shutdown reads writes in Ret (take n b ++ out, closed)
      | _ => Panic
      end
  | DeadStream :: _ => Ret ([], false)
  | ReadError :: _ => Panic
  end.

(** ** What it does *)
Definition show_pair (p : PortPair) : str := dec (loopback p) ++ ":"%char :: dec (nic p).

Definition pair_ok (p : PortPair) : Prop := uint 16 (loopback p) /\ uint 16 (nic p).

Lemma pair_parsed p : pair_ok p -> make_port_pair (show_pair p) = Ret p.
Proof.
  intros [Hl Hn]. unfold make_port_pair, show_pair. rewrite split_on_app, split_on_clean by (apply NodeAddr.dec_clean; [by destruct Hl, Hn|done]).
  rewrite !parse_uint_dec by done. by destruct p.
Qed.

(** Whoever connects to one of the outer ports is led to the port of the local host that was paired with it. *)
Theorem ports_are_exposed bind command pairs :
  pairs <> [] -> Forall pair_ok pairs -> (forall p, p ∈ pairs -> bind (mkSocketAddr (V4 0 0 0 0) (nic p)) = true) ->
  exists laps, go bind (command :: map show_pair pairs) = Ret laps /\
    Forall2 (fun p lap => listener lap = mkSocketAddr (V4 0 0 0 0) (nic p) /\
      make_connection (fun _ => true) true lap = Ret (Some (mkSocketAddr (V4 127 0 0 1) (loopback p)))) pairs laps.
Proof.
  intros Hne Hok Hbind. unfold go, make_port_pairs. cbn [length drop]. rewrite length_map, drop_0.
  destruct (Nat.leb_spec (S (length pairs)) 1) as [Hle|_]; [destruct pairs; [done|cbn in Hle; lia]|].
  assert (omapM make_port_pair (map show_pair pairs) = Ret pairs) as ->.
  { apply omapM_ret_Forall2. clear Hne Hbind. induction Hok; constructor; [by apply pair_parsed|done]. }
  cbn [obind]. exists (map (fun p => mkListenerAndPort (mkSocketAddr (V4 0 0 0 0) (nic p)) (loopback p)) pairs). split.
  - apply omapM_ret_Forall2, Forall2_fmap_r, Forall_Forall2_diag, Forall_forall. intros p Hp. unfold open_port. by rewrite (Hbind p Hp).
  - apply Forall2_fmap_r, Forall_Forall2_diag, Forall_forall. by intros p _.
Qed.

(** Bytes are copied in order and completely if each write takes all it is given, and the end of one stream ends the other. *)
Lemma bits_are_shoveled blocks : Forall (fun b => b <> []) blocks ->
  shovel_bits true (map Read blocks ++ [Read []]) (map (fun b => Some (length b)) blocks) = Ret (concat blocks, true).
Proof.
  induction 1 as [|b blocks Hb _ IH]; [done|]. destruct b as [|x b]; [done|]. cbn [map Datatypes.app shovel_bits]. rewrite IH. cbn [obind].
  by rewrite firstn_all.
Qed.

(** What a write does not take is not written again: it is lost, while what follows is written. *)
Lemma short_write_loses_bytes x b n reads writes shutdown out closed : (n < length (x :: b))%nat ->
  shovel_bits shutdown reads writes = Ret (out, closed) ->
  shovel_bits shutdown (Read (x :: b) :: reads) (Some n :: writes) = Ret (take n (x :: b) ++ out, closed) /\ take n (x :: b) <> x :: b.
Proof.
  intros Hn E. split; [cbn [shovel_bits]; by rewrite E|]. intros Ht. apply (f_equal length) in Ht. rewrite length_take in Ht. lia.
Qed.

Lemma ports_are_exposed_witness :
  exists laps, go (fun _ => true) [lit "port_exposer"; lit "5333:8080"] = Ret laps /\ length laps = 1%nat.
Proof.
  destruct (ports_are_exposed (fun _ => true) (lit "port_exposer") [mkPair 5333 8080]) as (laps & E & Hall).
  - discriminate.
  - constructor; [|constructor]. split; unfold uint; cbn; lia.
  - reflexivity.
  - exists laps. split; [exact E|]. apply Forall2_length in Hall. rewrite <- Hall. reflexivity.
Defined.
