(* ===== verification/EndToEnd.v ===== *)
(** * From a client to a server and back

    The components of the other files together: the ProxyServer that a client talks to, its Node's
    Neighborhood, the Hoppers of the Nodes of a route, and the ProxyClient of the Node the route leads to.
    Nothing new is modelled here; what one component sends is given to the operation of the component it
    is sent to. *)
From S2P Require Import Prelude Text SubLib Cryptde Utils Wallet Route SequenceBuffer Messages Hopper Containers.
From S2P Require Import Database Neighborhood Framers StreamReader HttpFramer ProtocolPacks ProxyServer StreamWriters.
From S2P Require Import StreamHandlerPool ProxyClient.

(** ** A round trip over the network *)
Lemma readers_between c k ks : readers (legs c c k ks) = removelast (k :: ks).
Proof.
  revert k. induction ks as [|k' ks IH]; intros k; [done|]. unfold readers in *. cbn [legs map fst].
  rewrite IH. by destruct ks.
Qed.

Lemma no_dup_no_stutter k ks : NoDup (k :: ks) -> no_stutter k ks.
Proof.
  revert k. induction ks as [|k' ks IH]; intros k Hnd; [done|].
  apply NoDup_cons in Hnd as [Hk Hnd]. split; [set_solver|by apply IH].
Qed.

(** The route under which a package came back names the request [id]. *)
Definition names_request (cryptde : CryptDE) `{!Serde LiveHop} `{!Serde Z} (r : Route) (id : Z) : Prop :=
  exists shifted top, shift r cryptde = (shifted, Ok top) /\ route_id shifted cryptde = Ok id.

Section trip.
Context `{!EthSign} `{!EthSignOk} (keccak256 : bytes -> bytes).
Context `{!Serde LiveHop} `{!Serde Z} `{!Serde LiveCoresPackage} `{!Serde MessageType}.
Context `{!SerdeOk LiveHop hop_on_wire} `{!SerdeOk Z (uint 32)}.
Context `{!SerdeOk LiveCoresPackage (fun p => lcp_version p = VERSION_0_0)}.
Context (nodes : Network) (cache : PublicKey -> BannedCache).
Context (transport : PublicKey -> TransmitDataMsg -> InboundClientData).
Hypothesis transport_carries : forall k m, ibcd_data (transport k m) = tdm_data m.
Context (w : Wallet) (secret addr : bytes).
Hypothesis w_keypair : kind w = KeyPair (keypair_from_secret secret).

(** A package handed to the Hopper of [k] goes along [s]; every Node in between charges the wallet for the
    payload's size at its own rates, and the last one hands on [e]. *)
Definition journey (k : PublicKey) (s : list PublicKey) (pkg : IncipientCoresPackage) (e : hopper_effect) : Prop :=
  exists trace, Hopper.send nodes cache transport (length s) k pkg = Ret (trace ++ [(last_key k s, [e])]) /\
    Forall2 (Hopper.billed nodes secret (crypt_len (ic_payload pkg))) (removelast s) trace.

Lemma round_trip_journeys (me : PublicKey) (s s' : list PublicKey) (id : Z) (r : Route) :
  s <> [] -> s' <> [] -> NoDup (me :: s) -> NoDup (last_key me s :: s') -> last_key (last_key me s) s' = me ->
  linked keccak256 nodes cache secret addr (me :: s ++ s') -> can_pay keccak256 (Some w) (Some addr) -> uint 32 id ->
  round_trip keccak256 (mkRouteSegment (me :: s) SubLib.ProxyClient)
    (mkRouteSegment (last_key me s :: s') SubLib.ProxyServer) (crypt_of nodes me) (Some w) id (Some addr) = Ret (Ok r) ->
  forall pc pl, decodex (crypt_of nodes (last_key me s)) pc = Ok (ClientRequest pl) ->
  exists x, journey me s (mkIncipient r pc) (Hopper.ToProxyClient x) /\ payload x = pl /\
    paying_wallet x = Some (seen_wallet secret) /\
    forall pc' resp, decodex (crypt_of nodes me) pc' = Ok (ClientResponse resp) ->
    exists y, journey (last_key me s) s' (mkIncipient (remaining_route x) pc') (ToProxyServer y) /\ payload y = resp /\
      names_request (crypt_of nodes me) (remaining_route y) id.
Proof.
  intros Hs Hs' Hnd Hnd' Hback Hlink Hpay Hid Hr pc pl Hpc.
  destruct s as [|k1 over]; [done|]. destruct s' as [|b1 back]; [done|]. rewrite last_key_cons in *.
  assert (Hexit : last_key k1 over ∈ k1 :: over) by apply last_key_in.
  assert (Hon : forall a b, a ∈ me :: (k1 :: over) ++ b1 :: back -> b ∈ me :: (k1 :: over) ++ b1 :: back ->
    public_key (crypt_of nodes b) = b /\ CryptPair (crypt_of nodes a) (crypt_of nodes b)).
  { intros a b Ha Hb. destruct Hlink as [Hserve Hp]. rewrite Forall_forall in Hserve.
    split; [by apply Hserve|by apply Hp]. }
  destruct (round_trip_split keccak256 (crypt_of nodes me) (crypt_of nodes) (Some w) (Some addr)
    me k1 b1 over back id) as (encs1 & encs2 & ide & Hr' & Hd1 & Hd2 & Hdid);
    [apply Hon; set_solver| |done|done|].
  { rewrite Forall_forall. intros a Ha. apply Hon; set_solver. }
  rewrite Hr in Hr'. injection Hr' as ->.
  destruct (send_legs keccak256 nodes cache transport transport_carries w secret addr w_keypair me k1 SubLib.Hopper over
    b1 SubLib.ProxyClient encs1 (encs2 ++ [ide]) pc (ClientRequest pl)) as (trace & effs & g & Hsend & Hbill & Hel & Hda);
    [done|exact Hd1|by apply no_dup_no_stutter|eapply linked_sub; [exact Hlink|set_solver]|done|].
  destruct Hda as (x & -> & Hx & Hxw & Hxr). exists x.
  split_and!; [exists trace|done|done|].
  { rewrite last_key_cons. split; [exact Hsend|]. by rewrite readers_between in Hbill. }
  intros pc' resp Hpc'. set (e := default (mkCryptData []) (last encs1)) in *.
  destruct (send_legs keccak256 nodes cache transport transport_carries w secret addr w_keypair (last_key k1 over) b1
    SubLib.ProxyClient back empty_key SubLib.ProxyServer (e :: encs2) ([ide] ++ g) pc' (ClientResponse resp))
    as (trace' & effs' & g' & Hsend' & Hbill' & Hel' & Hda');
    [done|by constructor|by apply no_dup_no_stutter|eapply linked_sub; [exact Hlink|set_solver]|by rewrite Hback|].
  destruct Hda' as (y & -> & Hy & _ & Hyr). exists y. split_and!; [exists trace'|done|].
  - rewrite last_key_cons, Hxr, <- app_assoc. split; [exact Hsend'|]. by rewrite readers_between in Hbill'.
  - destruct Hel' as (p & _ & Hd'). cbn [fst snd] in Hd'. rewrite Hback in Hd'. rewrite Hyr.
    unfold names_request, shift. cbn [hops]. rewrite Hd'. eexists _, _. split; [reflexivity|].
    unfold route_id. cbn [hops app]. by rewrite Hdid.
Qed.
End trip.

(** ** What the Nodes of a segment are expected to do *)
Lemma exits_app a b : exits (a ++ b) = exits a ++ exits b.
Proof. unfold exits. apply omap_app. Qed.

Lemma no_exit db ks l :
  Forall (fun k => k = this_node db \/ (head ks <> Some k /\ last ks <> Some k)) l -> exits (map (service_of db ks) l) = [].
Proof.
  induction 1 as [|k l Hk _ IH]; [done|]. unfold exits in *. cbn [map]. rewrite omap_cons, IH.
  unfold service_of. destruct (node_by_key db k); [|done]. case_bool_decide; [done|].
  destruct Hk as [|[H1 H2]]; [done|]. by rewrite !bool_decide_false by done.
Qed.

(** On the way out, exactly the last Node is expected to be the exit. *)
Lemma one_exit db s :
  s <> [] -> NoDup (this_node db :: s) -> Forall (fun k => k ∈ keys db) s ->
  exits (map (service_of db (this_node db :: s)) (this_node db :: s)) = [last_key (this_node db) s].
Proof.
  intros Hs Hnd Hk. destruct s as [|e s0 _] using rev_ind; [done|]. set (ks := this_node db :: s0 ++ [e]).
  assert (last ks = Some e) as Hlast by (unfold ks; rewrite app_comm_cons; apply last_snoc).
  assert (last_key (this_node db) (s0 ++ [e]) = e) as -> by (unfold last_key; by rewrite last_snoc).
  change ks with ((this_node db :: s0) ++ [e]) at 2. rewrite map_app, exits_app, no_exit.
  - apply Forall_app in Hk as [_ Hk%Forall_inv]. apply elem_of_keys in Hk as [n Hn].
    cbn [map app]. unfold exits, service_of. rewrite Hn.
    assert (e <> this_node db) by (apply NoDup_cons in Hnd as [Hnd _]; set_solver).
    rewrite bool_decide_false by done. rewrite Hlast, (bool_decide_true (Some e = Some e)), orb_true_r by done. done.
  - assert (e ∉ this_node db :: s0) as He.
    { change (NoDup ((this_node db :: s0) ++ [e])) in Hnd. apply NoDup_app in Hnd as (_ & Hd & _). set_solver. }
    apply Forall_forall. intros k Hin. destruct (decide (k = this_node db)) as [->|Hne]; [by left|right].
    rewrite Hlast. split; [cbn; congruence|]. intros [= ->]. done.
Qed.

(** ** The exit Node of a route *)
(** A ProxyClient that knows nothing of the stream of a request can open it: the world has [peer] for the
    host it names. *)
Record can_open (c : ProxyClient) (x : world) (pl : ClientRequestPayload) (p : ExitPool.StreamHandlerPool) (peer : SocketAddr) : Prop := {
  open_pool : pool c = Some p;
  open_new : unknown p (request_stream_key pl);
  open_quiet : ExitPool.stream_killer_rx p = [];
  open_host : exists host ips, target_hostname pl = Some host /\ addresses x host = Some ips /\
    ExitPool.connect_one (connects x) ips (target_port pl) = Some peer;
  open_writer : is_open x (fresh x) = true
}.

(** A request and the task it starts *)
Definition open_stream (x : world) (pkg : ExpiredCoresPackage ClientRequestPayload) : list event :=
  [Request pkg (is_open x); RunTask 0 (is_open x) (connects x) (lookup_ip x) (fresh x)].

Section exit_node.
Context `{!Serde MessageType} {good : MessageType -> Prop} `{!SerdeOk MessageType good}.

Lemma stream_opened c x pkg p peer :
  can_open c x (payload pkg) p peer -> is_Some (paying_wallet pkg) ->
  data (request_packet (payload pkg)) <> [] -> last_data (request_packet (payload pkg)) = false ->
  let k := request_stream_key (payload pkg) in
  exists c' p', exit_run (mkExitNode c [] []) (open_stream x pkg) =
      Ret (mkExitNode c' [] [],
           Spawn (ExitPool.make_stream_with_key (payload pkg) (paying_wallet pkg)) ::
           map InPool ([ExitPool.SpawnReader k peer; ExitPool.SpawnWriter (fresh x) k peer] ++
             ExitPool.Queue (fresh x) (request_packet (payload pkg)) :: request_charge p (payload pkg) (paying_wallet pkg))) /\
    same_terms c c' /\ pool c' = Some p' /\
    stream_contexts c' !! k =
      Some (mkStreamContext (remaining_route pkg) (originator_public_key (payload pkg)) (paying_wallet pkg)).
Proof.
  intros [Hp Hu Hk (host & ips & Hh & Hips & Hc) Ho] Hw Hd Hl. cbn zeta.
  destruct (process_new (is_open x) p (payload pkg) (paying_wallet pkg) Hu Hd) as (p1 & sent & Ep & _ & Hq & [R1 R2] & _).
  specialize (Hq Hk) as ->.
  destruct (request_taken (mkExitNode c [] []) pkg (is_open x) p _ _ _ Hp (or_introl Hw) Ep)
    as ([c1 ts1 mb1] & E1 & Hp1 & Hs1 & Ht1 & Hm1 & Hc1). cbn [client tasks mailbox app] in *. subst ts1 mb1.
  unfold open_stream. cbn [exit_run]. rewrite E1. cbn [obind]. erewrite opens by done. cbn [obind].
  eexists _, _. split; [cbn; rewrite app_nil_r; unfold request_charge, pool_charge; rewrite R1, R2; reflexivity|]. split_and!; [done|done|].
  cbn. rewrite Hc1. apply lookup_insert_eq.
Qed.

(** What the server says then goes back to where the request came from. *)
Lemma answers_packaged c p o x k a reads ds e :
  pool c = Some p -> stream_contexts c !! k = Some x -> payload_destination_key x = public_key o ->
  CryptPair (pc_cryptde c) o -> (forall r, good (ClientResponse r)) -> heard_all reads = (ds, e) ->
  Z.of_nat (length ds) < 2 ^ 64 ->
  exists r ms kills st es, ExitReader.run (ExitReader.new k a) reads = (r, ms, kills, st) /\
    exit_run (mkExitNode c [] []) (map ReaderSends ms ++ replicate (length ms) Deliver) = Ret (mkExitNode c [] [], es) /\
    Forall2 (carries o (return_route x) k) (omap packaged es) (imap packet_at ds).
Proof.
  intros Hp Hx Hk Hpair Hg Hheard Hlen.
  destruct (reader_runs k a 0 reads ds e ltac:(lia) Hheard ltac:(lia)) as (r & st & Er).
  destruct (answers_sent c [] [] p o x k a 0 ds Hp Hx Hk Hpair Hg) as (es & Es & Hpk & _).
  eexists r, _, _, st, _. split_and!; [exact Er| |exact Hpk].
  change es with ([] ++ es). eapply exit_run_app; [apply sends_arrive|]. rewrite numbered_length. cbn [client tasks mailbox app].
  rewrite app_nil_r in Es. exact Es.
Qed.
End exit_node.

(** ** Answers at the ProxyServer *)
(** A stream of [client] under the key [k] waits for answers to the request [id]; the return route was last
    used at [t]. *)
Record expecting (self : ProxyServer) (k : StreamKey) (client : SocketAddr) (id : Z) (info : AddReturnRouteMessage) (t : Z) : Prop := {
  exp_bound : is_bound self = true;
  exp_client : BidiHashMap.a_to_b (keys_and_addrs self) k = Some client;
  exp_clock : TtlHashMap.wf t (route_ids_to_return_routes self);
  exp_ttl : TtlHashMap.ttl (route_ids_to_return_routes self) = RETURN_ROUTE_TTL;
  exp_route : TtlHashMap.data (route_ids_to_return_routes self) !! id = Some (info, t)
}.

(** Readings of the clock that are never two minutes apart *)
Fixpoint steady (t : Z) (times : list (Z * Z)) : Prop :=
  match times with
  | [] => True
  | (now, now') :: times' => t <= now <= now' /\ now - t <= RETURN_ROUTE_TTL /\ steady now' times'
  end.

Section answers.
Context `{!Serde LiveHop} `{!Serde Z}.

(** [y] is a package with the packet [q] for the stream [k], in answer to the request [id]. *)
Definition answer_to (cryptde : CryptDE) (k : StreamKey) (id : Z) (q : SequencedPacket)
    (y : ExpiredCoresPackage ClientResponsePayload) : Prop :=
  payload y = mkClientResponsePayload VERSION_0_0 k q /\ names_request cryptde (remaining_route y) id.

(** The number a packet gets on its way to a client: one more once a client has sent a CONNECT *)
Definition placed (self : ProxyServer) (q : SequencedPacket) : SequencedPacket :=
  mkSequencedPacket (data q) (wrap 64 (sequence_number q + if browser_proxy_sequence_offset self then 1 else 0)) (last_data q).

(** What the ProxyServer does with it *)
Definition passed_on (self : ProxyServer) (client : SocketAddr) (back : list ExpectedService) (q : SequencedPacket) (n : nat)
  : list proxy_effect :=
  bill back (length (data q)) n ++
  [ToDispatcher (mkTransmitDataMsg (Socket client) (last_data q) (Some (sequence_number (placed self q))) (data q))].

Lemma answers_passed_on self k client id info t times qs ys :
  expecting self k client id info t -> steady t times -> length times = length ys ->
  Forall (fun q => uint 64 (sequence_number q) /\ last_data q = false) qs ->
  Forall2 (answer_to (ps_cryptde self) k id) qs ys ->
  exists self' t', respond self (zip times ys) =
      Ret (self', concat (zip_with (fun q y => passed_on self client (back_services info) q (payload_len y)) qs ys)) /\
    expecting self' k client id info t' /\ ps_cryptde self' = ps_cryptde self /\
    browser_proxy_sequence_offset self' = browser_proxy_sequence_offset self.
Proof.
  intros He Ht Hlen Hq Hys. revert self t times He Ht Hlen Hys. revert ys.
  induction Hq as [|q qs [Hn Hl] _ IH]; intros ys self t times He Ht Hlen Hys; inversion Hys as [|? y ? ys' [Hy Hi] Hys']; subst.
  - destruct times; [|done]. by exists self, t.
  - destruct times as [|[now now'] times]; [done|]. destruct Ht as (Hnow & Hage & Ht).
    destruct He as [Hb Hc Hwf Httl Hr].
    destruct (response_comes_back t now now' self y id info t client) as (m & Hwf' & Httl' & Hr' & E);
      [done|done|done|by rewrite Httl|exact Hi|done|by rewrite Httl|by rewrite Hy|].
    cbn zeta in E. rewrite Hy in E. cbn [response_packet response_stream_key] in E. rewrite Hl in E.
    destruct (IH ys' (with_return_routes m self) now' times) as (self' & t' & E' & He' & Hk' & Ho');
      [by split; try done; etrans|done|by injection Hlen|done|].
    exists self', t'. split_and!; [|done..]. cbn [zip zip_with respond concat]. rewrite E. cbn [obind]. rewrite E'.
    cbn [obind]. unfold passed_on, placed. by rewrite Hl.
Qed.
End answers.

(** ** The whole way *)
(** The first data of a client: no stream has been opened for its address, and the request made from it can
    be sent. *)
Record new_client `{!RegexSpaces} (show_key : PublicKey -> str) (method_is_connect : bytes -> bool) (sha1 : bytes -> bytes)
    (good : MessageType -> Prop) (self : ProxyServer) (msg : InboundClientData) (k : StreamKey) (pl : ClientRequestPayload)
    (t : Z) : Prop := {
  nc_ready : ready self;
  nc_network : ps_is_decentralized self = true;
  nc_request : is_connect method_is_connect (ibcd_data msg) = false;
  nc_new : forgotten self k (peer_addr msg);
  nc_key : key_of sha1 self (peer_addr msg) = Ret k;
  nc_payload : payload_factory_make show_key msg k (ps_cryptde self) = Ret (Some pl);
  nc_data : ibcd_data msg <> [] /\ ibcd_last_data msg = false;
  nc_good : good (ClientRequest pl);
  nc_clock : TtlHashMap.wf t (route_ids_to_return_routes self);
  nc_ttl : TtlHashMap.ttl (route_ids_to_return_routes self) = RETURN_ROUTE_TTL
}.

Lemma made_payload `{!RegexSpaces} show_key msg k c pl :
  payload_factory_make show_key msg k c = Ret (Some pl) ->
  request_stream_key pl = k /\ originator_public_key pl = public_key c /\
  data (request_packet pl) = ibcd_data msg /\ last_data (request_packet pl) = ibcd_last_data msg.
Proof.
  unfold payload_factory_make. destruct (from_ibcd _ _) as [pack|]; [|done]. destruct (ibcd_sequence_number msg); [|done].
  intros (host & _ & E)%obind_ret_inv. destruct host as [h|]; by injection E as <-.
Qed.

Section whole.
Context `{!EthSign} `{!EthSignOk} (keccak256 : bytes -> bytes) `{!HashOrder}.
Context `{!Serde NodeRecordInner} `{!Serde LiveHop} `{!Serde Z} `{!Serde LiveCoresPackage} `{!Serde MessageType}.
Context `{!SerdeOk LiveHop hop_on_wire} `{!SerdeOk Z (uint 32)}.
Context `{!SerdeOk LiveCoresPackage (fun p => lcp_version p = VERSION_0_0)}.
Context (nodes : Network) (cache : PublicKey -> BannedCache).
Context (transport : PublicKey -> TransmitDataMsg -> InboundClientData).

(** The Nodes that a Node's Neighborhood knows can work for it: they can encrypt to each other, serve its
    wallet, and the streams between them carry what is sent. *)
Record working (nh : Neighborhood) (w : Wallet) (secret : bytes) : Prop := {
  wk_carries : forall k m, ibcd_data (transport k m) = tdm_data m;
  wk_keypair : kind w = KeyPair (keypair_from_secret secret);
  wk_wallet : consuming_wallet_opt nh = Some w;
  wk_order : in_order keccak256 nh (crypt_of nodes);
  wk_me : nh_cryptde nh = crypt_of nodes (public_key (nh_cryptde nh));
  wk_linked : linked keccak256 nodes cache secret (contract_address (chain_id nh)) (elements (keys (neighborhood_database nh)))
}.

Lemma working_member nh w secret k :
  working nh w secret -> k ∈ keys (neighborhood_database nh) ->
  public_key (crypt_of nodes k) = k /\ forall k', k' ∈ keys (neighborhood_database nh) -> CryptPair (crypt_of nodes k') (crypt_of nodes k).
Proof.
  intros Hw Hk. destruct (wk_linked _ _ _ Hw) as [Hs Hp]. rewrite Forall_forall in Hs.
  split; [apply Hs; by apply elem_of_elements|]. intros k' Hk'. apply Hp; by apply elem_of_elements.
Qed.

Lemma working_home nh w secret : working nh w secret -> public_key (nh_cryptde nh) ∈ keys (neighborhood_database nh).
Proof.
  intros Hw. destruct (wf_root _ (io_wf _ _ _ (wk_order _ _ _ Hw))) as [rt Hrt].
  rewrite (io_me _ _ _ (wk_order _ _ _ Hw)) in Hrt. apply elem_of_keys. eauto.
Qed.

(** A route that the Neighborhood has found, and what can be sent over it *)
Lemma found_route_works nh w secret nh' resp :
  working nh w secret ->
  answers keccak256 nh (data_indefinite_route_request 3) SubLib.ProxyServer nh' (Some resp) ->
  let me := public_key (nh_cryptde nh) in
  exists s s' over back id,
    let exit_key := last_key me s in
    expected_services resp = RoundTrip over back id /\ exits over = [exit_key] /\
    length s = 3%nat /\ exit_key <> me /\ exit_key ∈ keys (neighborhood_database nh) /\
    forall pc pl, decodex (crypt_of nodes exit_key) pc = Ok (ClientRequest pl) ->
    exists x, journey nodes cache transport secret me s (mkIncipient (response_route resp) pc) (Hopper.ToProxyClient x) /\
      payload x = pl /\ paying_wallet x = Some (seen_wallet secret) /\
      forall pc' resp', decodex (nh_cryptde nh) pc' = Ok (ClientResponse resp') ->
      exists y, journey nodes cache transport secret exit_key s' (mkIncipient (remaining_route x) pc') (ToProxyServer y) /\
        payload y = resp' /\ names_request (nh_cryptde nh) (remaining_route y) id.
Proof.
  intros Hw (s & s' & Hover & Hback & Hr & He & _). cbn zeta. set (me := public_key (nh_cryptde nh)) in *.
  pose proof (wk_order _ _ _ Hw) as Hio. pose proof (io_me _ _ _ Hio) as Hme. fold me in Hme.
  pose proof (working_home _ _ _ Hw) as Hmek. fold me in Hmek.
  pose proof (qualifying_keys _ _ _ _ _ _ Hmek Hover) as Hk1. pose proof Hover as (s0 & [= <-] & Hnd & _ & _ & Hlen & _).
  assert (Hexit : last_key me s ∈ keys (neighborhood_database nh)).
  { rewrite Forall_forall in Hk1. apply Hk1, last_key_in. }
  pose proof (qualifying_keys _ _ _ _ _ _ Hexit Hback) as Hk2.
  pose proof Hback as (s0' & [= <-] & Hnd' & _ & Hlen' & _ & Hend & _). specialize (Hend me eq_refl). specialize (Hlen eq_refl).
  assert (Hs : s <> []) by (by intros ->). assert (Hs' : s' <> []) by (intros ->; cbn in Hlen'; lia).
  cbn [app] in Hnd, Hnd', Hend. eexists s, s', _, _, _. split; [exact He|].
  split_and!; [|exact Hlen| |exact Hexit|].
  - rewrite <- Hme in *. apply one_exit; [done|done|]. by apply Forall_cons in Hk1 as [_ Hk1].
  - destruct s as [|k1 s]; [done|]. rewrite last_key_cons. intros E. apply NoDup_cons in Hnd as [Hnd _].
    apply Hnd. rewrite <- E. apply last_key_in.
  - rewrite (wk_me _ _ _ Hw) in *. fold me in Hr |- *.
    eapply round_trip_journeys with (addr := contract_address (chain_id nh)) (w := w); try done.
    + apply Hw. + apply Hw.
    + eapply linked_sub; [apply Hw|]. intros k Hin. apply elem_of_elements. rewrite Forall_forall in Hk1, Hk2.
      apply elem_of_cons in Hin as [->|[Hin|Hin]%elem_of_app]; [done|apply Hk1; by right|apply Hk2; by right].
    + rewrite <- (wk_wallet _ _ _ Hw). apply Hio.
    + apply Hio.
    + by rewrite <- (wk_wallet _ _ _ Hw).
Qed.

(** Packages that carry packets, sent over a route that works, arrive as answers. *)
Lemma packages_arrive me exit_key s' secret o r k id pkgs qs :
  (forall pc' resp', decodex o pc' = Ok (ClientResponse resp') ->
   exists y, journey nodes cache transport secret exit_key s' (mkIncipient r pc') (ToProxyServer y) /\
     payload y = resp' /\ names_request me (remaining_route y) id) ->
  Forall2 (carries o r k) pkgs qs ->
  exists ys, Forall2 (fun pkg y => journey nodes cache transport secret exit_key s' pkg (ToProxyServer y)) pkgs ys /\
    Forall2 (answer_to me k id) qs ys.
Proof.
  intros Hj. induction 1 as [|pkg q pkgs qs [Hr Hd] _ (ys & IH1 & IH2)]; [by exists []|].
  destruct (Hj _ _ Hd) as (y & Hy & Hp & Hi). destruct pkg as [r' pc]. cbn [ic_route] in Hr. subst r'.
  exists (y :: ys). split; constructor; done.
Qed.
End whole.

Lemma zip_answers `{!Serde LiveHop} `{!Serde Z} c k id qs ys (arrived : list (SequencedPacket * ExpiredCoresPackage ClientResponsePayload)) :
  Forall2 (answer_to c k id) qs ys -> Forall (fun a => a ∈ zip qs ys) arrived -> Forall2 (answer_to c k id) arrived.*1 arrived.*2.
Proof.
  intros Hys Ha. apply Forall2_fmap, Forall_Forall2_diag. eapply Forall_impl; [exact Ha|]. intros [q y] Hin.
  apply list_elem_of_lookup in Hin as (i & Hi). apply lookup_zip_with_Some in Hi as (q' & y' & [= -> ->] & Hq & Hy).
  by eapply Forall2_lookup_lr.
Qed.

Lemma packets_passed_on self client back (arrived : list (SequencedPacket * ExpiredCoresPackage ClientResponsePayload)) :
  packets_for client (concat (map (fun a => passed_on self client back a.1 (payload_len a.2)) arrived)) = placed self <$> arrived.*1.
Proof.
  induction arrived as [|[q y] arrived IH]; [done|]. unfold packets_for in *. cbn [map concat fst snd fmap list_fmap].
  rewrite omap_app, IH. unfold passed_on. rewrite omap_app. cbn. rewrite bool_decide_true by done. cbn.
  replace (omap _ (bill _ _ _)) with (@nil SequencedPacket); [done|].
  clear IH. unfold bill. induction back as [|[| |] back IHb]; [done|exact IHb..].
Qed.

(** Whatever a server sends on the stream [k] of an exit Node's ProxyClient [c], however it is read: the packets
    with it go back along [s'] to the ProxyServer [ps], and whichever arrive there, in whatever order
    and however often, the ones that follow within two minutes each are passed on to [client]. What
    comes out of the writer towards the client is a beginning of what the server sent, and if all
    arrived, all that is missing is what the writer has not yet written. But once some client of the Node has sent a
    CONNECT, every packet is numbered one higher, and for this client, whose stream then lacks
    its packet zero, the writer writes nothing. *)
Definition answers_reach_client `{!EthSign} `{!Serde LiveHop} `{!Serde Z} `{!Serde LiveCoresPackage} `{!Serde MessageType}
    (nodes : Network) (cache : PublicKey -> BannedCache) (transport : PublicKey -> TransmitDataMsg -> InboundClientData)
    (secret : bytes) (exit_key : PublicKey) (s' : list PublicKey) (back : list ExpectedService)
    (c : ProxyClient) (k : StreamKey) (peer : SocketAddr) (ps : ProxyServer) (client : SocketAddr) (t : Z) : Prop :=
  forall reads ds ended, heard_all reads = (ds, ended) -> Z.of_nat (length ds) < 2 ^ 64 - 1 ->
  exists r ms kills st es ys,
    ExitReader.run (ExitReader.new k peer) reads = (r, ms, kills, st) /\
    exit_run (mkExitNode c [] []) (map ReaderSends ms ++ replicate (length ms) Deliver) = Ret (mkExitNode c [] [], es) /\
    length ys = length ds /\
    Forall2 (fun pkg y => journey nodes cache transport secret exit_key s' pkg (ToProxyServer y)) (omap packaged es) ys /\
    forall arrived times, Forall (fun a => a ∈ zip (imap packet_at ds) ys) arrived -> steady t times -> length times = length arrived ->
    exists ps' sent, respond ps (zip times arrived.*2) = Ret (ps', sent) /\
      sent = concat (map (fun a => passed_on ps client back a.1 (payload_len a.2)) arrived) /\
      forall wakes, concat (map Sorted.received wakes) = packets_for client sent ->
      exists wr written a, Sorted.run Sorted.new wakes = Ret (wr, written, a) /\
        if browser_proxy_sequence_offset ps then written = [] else
        written `prefix_of` concat ds /\
        ((forall x, x ∈ zip (imap packet_at ds) ys -> x ∈ arrived) -> a = NotReady ->
         written = concat ds \/
         exists rest, StreamWriters.content (waiting (abs (Sorted.sequence_buffer wr))) (next (abs (Sorted.sequence_buffer wr))) rest /\
           concat ds = written ++ rest).

Lemma answers_do_reach_client `{!EthSign} `{!Serde LiveHop} `{!Serde Z} `{!Serde LiveCoresPackage} `{!Serde MessageType}
    {good} `{!SerdeOk MessageType good}
    nodes cache transport secret exit_key s' back c k peer ps client t p x o id info :
  pool c = Some p -> stream_contexts c !! k = Some x -> payload_destination_key x = public_key (ps_cryptde ps) ->
  o = ps_cryptde ps -> CryptPair (pc_cryptde c) o -> (forall r, good (ClientResponse r)) ->
  (forall pc' resp', decodex o pc' = Ok (ClientResponse resp') ->
   exists y, journey nodes cache transport secret exit_key s' (mkIncipient (return_route x) pc') (ToProxyServer y) /\
     payload y = resp' /\ names_request o (remaining_route y) id) ->
  expecting ps k client id info t -> back_services info = back ->
  answers_reach_client nodes cache transport secret exit_key s' back c k peer ps client t.
Proof.
  intros Hp Hx Hk -> Hpair Hg Hj He <- reads ds ended Hheard Hlen.
  destruct (answers_packaged (good := good) c p (ps_cryptde ps) x k peer reads ds ended) as (r & ms & kills & st & es & E1 & E2 & Hpk);
    [done..|lia|].
  destruct (packages_arrive nodes cache transport _ _ _ _ _ _ _ _ _ _ Hj Hpk) as (ys & Hys & Hans).
  exists r, ms, kills, st, es, ys. split_and!; [done|done| |done|].
  { apply Forall2_length in Hans. by rewrite length_imap in Hans. }
  intros arrived times Ha Ht Hn. pose proof (zip_answers _ _ _ _ _ _ Hans Ha) as Hans'.
  assert (Hin : forall q, q ∈ arrived.*1 -> q ∈ imap packet_at ds).
  { intros q ([q' y] & -> & Hin)%list_elem_of_fmap. rewrite Forall_forall in Ha. apply Ha in Hin. cbn.
    apply list_elem_of_lookup in Hin as (i & Hi).
    apply lookup_zip_with_Some in Hi as (q0 & y0 & [= -> ->] & Hq & _). by eapply list_elem_of_lookup_2. }
  destruct (answers_passed_on ps k client id info t times arrived.*1 arrived.*2) as (ps' & t' & E3 & _);
    [done|done|by rewrite length_fmap| |done|].
  { apply Forall_forall. intros q Hq%Hin. apply elem_of_lookup_imap in Hq as (i & d & -> & Hd%lookup_lt_Some).
    cbn. unfold uint. split; [lia|done]. }
  assert (Hz : zip_with (fun q y => passed_on ps client (back_services info) q (payload_len y)) arrived.*1 arrived.*2 =
    map (fun a => passed_on ps client (back_services info) a.1 (payload_len a.2)) arrived).
  { clear. induction arrived as [|[q y] arrived IH]; cbn; [done|]. by f_equal. }
  rewrite Hz in E3. eexists ps', _. split; [exact E3|]. split; [done|]. intros wakes Hw'. rewrite packets_passed_on in Hw'.
  destruct (browser_proxy_sequence_offset ps) eqn:Ho.
  { destruct (stalled_writer wakes) as (wr & a & E); [|by exists wr, [], a]. apply every_received. rewrite Hw'.
    apply Forall_fmap, Forall_forall. intros q Hq%Hin. apply elem_of_lookup_imap in Hq as (i & d & -> & Hd%lookup_lt_Some).
    cbn. rewrite Ho, wrap_small by (unfold uint; lia). lia. }
  assert (Hsame : placed ps <$> arrived.*1 = arrived.*1).
  { assert (Forall (fun q => placed ps q = q) arrived.*1) as Hall.
    2: { clear -Hall. revert Hall. generalize (arrived.*1). induction 1 as [|q l E _ IH]; [done|]. cbn. by rewrite E, IH. }
    apply Forall_forall. intros q Hq%Hin. apply elem_of_lookup_imap in Hq as (j & d & -> & Hd%lookup_lt_Some).
    unfold placed. cbn. rewrite Ho, Z.add_0_r, wrap_small; [done|]. unfold uint. lia. }
  rewrite Hsame in Hw'.
  destruct (answer_written ds wakes) as (wr & written & a & E & Hpre & Hall); [done| |].
  { intros q. rewrite Hw'. intros Hq%Hin. unfold stream_packets. apply elem_of_app. by left. }
  exists wr, written, a. split_and!; [done..|]. intros Hev. apply Hall. intros q Hq. rewrite Hw'.
  apply list_elem_of_lookup in Hq as (i & Hi).
  destruct (lookup_lt_is_Some_2 ys i) as [y Hy].
  { apply Forall2_length in Hans. apply lookup_lt_Some in Hi. lia. }
  apply list_elem_of_fmap. exists (q, y). split; [done|]. apply Hev. eapply list_elem_of_lookup_2 with (i := i).
  apply lookup_zip_with_Some. eauto.
Qed.

(** ** Properties *)

(** C1: the whole way. The first data of a new client, neither empty nor its last nor a CONNECT, makes its Node look for
    a route. If there is none, the client is told. If there is one, of three hops, the request is reported to the
    Accountant and goes over it, every Node in between charging for its size; the Node at its end opens a
    connection to the host the request names, queues the request to it and charges the client's wallet. What
    the server then sends goes back packet by packet over the way back, and what arrives in time is passed
    on to this client. As long as no client of the Node has ever sent a CONNECT, its socket gets a beginning of what the server sent,
    or all of it; after one, the packets are numbered from one, and nothing is written. Assumed is that
    the Nodes that the client's Node knows can work for it and reach the server. *)
Theorem client_is_served `{!EthSign} `{!EthSignOk} (keccak256 : bytes -> bytes) `{!HashOrder} `{!RegexSpaces}
    (show_key : PublicKey -> str) (method_is_connect : bytes -> bool) (sha1 : bytes -> bytes)
    `{!Serde NodeRecordInner} `{!Serde LiveHop} `{!Serde Z} `{!Serde LiveCoresPackage} `{!Serde MessageType}
    `{!SerdeOk LiveHop hop_on_wire} `{!SerdeOk Z (uint 32)} `{!SerdeOk LiveCoresPackage (fun p => lcp_version p = VERSION_0_0)}
    (good : MessageType -> Prop) `{!SerdeOk MessageType good}
    (nodes : Network) (cache : PublicKey -> BannedCache) (transport : PublicKey -> TransmitDataMsg -> InboundClientData)
    (ps : ProxyServer) (nh : Neighborhood) (w : Wallet) (secret : bytes)
    (clients : PublicKey -> ProxyClient) (pools : PublicKey -> ExitPool.StreamHandlerPool)
    (worlds : PublicKey -> world) (peers : PublicKey -> SocketAddr)
    (msg : InboundClientData) (k : StreamKey) (pl : ClientRequestPayload) (t t1 t2 : Z) :
  let home := public_key (ps_cryptde ps) in
  let client := peer_addr msg in
  let request := mkRouteRequest k pl client false in
  nh_cryptde nh = ps_cryptde ps -> working keccak256 nodes cache transport nh w secret ->
  new_client show_key method_is_connect sha1 good ps msg k pl t -> (forall resp, good (ClientResponse resp)) ->
  (forall e, e ∈ keys (neighborhood_database nh) -> e <> home ->
    pc_cryptde (clients e) = crypt_of nodes e /\ can_open (clients e) (worlds e) pl (pools e) (peers e)) ->
  t <= t1 <= t2 ->
  exists ps1 nh' answer,
    handle show_key method_is_connect sha1 t t ps (Inbound msg) =
      Ret (ps1, [ToNeighborhoodRoute (data_indefinite_route_request 3) request]) /\
    handle_route_query keccak256 nh (data_indefinite_route_request 3) = Ret (nh', answer) /\
    match answer with
    | None => exists failure, route_answered show_key (ps_cryptde ps1) request None =
        Ret [ToDispatcher (mkTransmitDataMsg (Socket client) true (Some 0) failure)]
    | Some response =>
        exists exit_key s s' over back id pkg reports ps2 x c' es,
          let expectation := mkAddReturnRoute id back (protocol pl) (target_hostname pl) in
          let channel := fresh (worlds exit_key) in
          exit_key = last_key home s /\ length s = 3%nat /\ expected_services response = RoundTrip over back id /\
          route_answered show_key (ps_cryptde ps1) request (Some response) =
            Ret ([ToSelfRoute (mkAddRoute k response); ToSelfReturnRoute expectation] ++ reports ++ [ToHopper pkg]) /\
          reports ≡ₚ bill over (length (ibcd_data msg)) (crypt_len (ic_payload pkg)) /\
          handle show_key method_is_connect sha1 t1 t2 (handle_add_route ps1 (mkAddRoute k response))
            (AddReturnRoute expectation) = Ret (ps2, []) /\
          journey nodes cache transport secret home s pkg (Hopper.ToProxyClient x) /\ payload x = pl /\
          exit_run (mkExitNode (clients exit_key) [] []) (open_stream (worlds exit_key) x) = Ret (mkExitNode c' [] [], es) /\
          es = Spawn (ExitPool.make_stream_with_key pl (Some (seen_wallet secret))) ::
               map InPool ([ExitPool.SpawnReader k (peers exit_key); ExitPool.SpawnWriter channel k (peers exit_key);
                            ExitPool.Queue channel (request_packet pl)] ++
                           request_charge (pools exit_key) pl (Some (seen_wallet secret))) /\
          answers_reach_client nodes cache transport secret exit_key s' back c' k (peers exit_key) ps2 client t2
    end.
Proof.
  intros home client request Hnh Hw Hc Hg Hexits Ht. pose proof Hc as [Hr Hnet Hreq (F1 & F2 & F3 & F4) Hk Hpl [Hd Hl] Hgood Hwf Httl].
  destruct (made_payload _ _ _ _ _ Hpl) as (Pk & Po & Pd & Pl).
  pose proof (normal_data_new show_key sha1 ps msg false k pl Hr F2 Hk F3 F4 Hpl) as E1. rewrite Hnet in E1.
  set (ps1 := with_maps _ _ _ _) in E1.
  destruct (make_round_trip_route_ok keccak256 nh (crypt_of nodes) (data_indefinite_route_request 3) SubLib.ProxyServer
    (wk_order _ _ _ _ _ _ _ Hw) eq_refl) as (nh' & o & E2 & Hans).
  exists ps1, nh', (match o with Ok resp => Some resp | Err _ => None end). split_and!.
  { cbn [handle]. unfold handle_inbound_client_data. by rewrite Hreq. }
  { unfold handle_route_query. cbn [minimum_hop_count data_indefinite_route_request Nat.eqb]. by rewrite E2. }
  destruct o as [response|]; [|by eexists].
  destruct (found_route_works keccak256 nodes cache transport nh w secret nh' response Hw Hans)
    as (s & s' & over & back & id & He & Hx & Hlen & Hne & Hin & Hgo).
  pose proof (working_home _ _ _ _ _ _ _ Hw) as Hhome. pose proof (wk_me _ _ _ _ _ _ _ Hw) as Hself.
  rewrite Hnh in *. fold home in Hx, Hne, Hin, Hgo, Hhome, Hself. set (exit_key := last_key home s) in *.
  destruct (Hexits _ Hin Hne) as [Hcrypt Hopen].
  destruct (working_member _ _ _ _ _ _ _ exit_key Hw Hin) as [Hek Hpair].
  assert (CryptPair (ps_cryptde ps) (crypt_of nodes exit_key)) as Hp1 by (rewrite Hself; by apply Hpair).
  destruct response as [r services]. cbn [expected_services response_route] in *. subst services.
  destruct (transmit_ok (good := good) show_key (ps_cryptde ps) (crypt_of nodes exit_key) pl r over back id client)
    as (pc & reports & Hpc & E3 & Hbill); [by rewrite Hek|done|].
  set (response := mkRouteResponse r (RoundTrip over back id)) in *. rewrite Pd in Hbill.
  destruct (add_return_route_ok t t1 t2 (handle_add_route ps1 (mkAddRoute k response))
    (mkAddReturnRoute id back (protocol pl) (target_hostname pl))) as (m & E4 & Hwm & Hm & Hlook);
    [done..|by cbn; rewrite Httl|].
  destruct (Hgo pc pl Hpc) as (x & Hj & Hx' & Hxw & Hback).
  destruct (stream_opened (clients exit_key) (worlds exit_key) x (pools exit_key) (peers exit_key))
    as (c' & p' & E5 & (T1 & _) & Hp' & Hctx); [by rewrite Hx'|by eexists|by rewrite Hx', Pd|by rewrite Hx', Pl|].
  rewrite Hx', Hxw, Pk in E5, Hctx.
  eexists exit_key, s, s', over, back, id, (mkIncipient r pc), reports, _, x, c', _. cbn zeta. split_and!; [done|done|done| |exact Hbill| |exact Hj|done|exact E5|done|].
  - unfold route_answered. cbn [rq_payload rq_source_addr rq_retire rq_stream_key request ps_cryptde ps1 with_maps].
    by rewrite E3.
  - cbn [handle]. by rewrite E4.
  - assert (Hp2 : CryptPair (crypt_of nodes exit_key) (ps_cryptde ps)).
    { rewrite Hself. by apply (working_member _ _ _ _ _ _ _ home Hw). }
    eapply (answers_do_reach_client (good := good)) with (o := ps_cryptde ps)
      (info := mkAddReturnRoute id back (protocol pl) (target_hostname pl)); [exact Hp'|exact Hctx|exact Po|done| |done|exact Hback| |done].
    + by rewrite T1, Hcrypt.
    + split; cbn; [apply Hr| |done|by rewrite Hm|exact Hlook].
      unfold BidiHashMap.a_to_b. cbn. apply lookup_insert_eq.
Qed.

(** *** Concrete values for evaluation: four Nodes in a row, the client's at one end *)
Definition key_d := mkPublicKey [68].
Definition toy_wire (k : PublicKey) : CryptDE :=
  CryptDENull.as_cryptde (fun _ => [0]) (fun _ => []) (fun _ => None) (CryptDENull.from (fun b => b) [1] k (contract_address 1)).
Definition toy_route : Network := fun k => RoutingService.mk (toy_wire k) 100 2 true.
Definition toy_others : NeighborhoodDatabase :=
  add_arbitrary_node (add_arbitrary_node (add_arbitrary_node toy_alone (toy_record key_b [key_a; key_c] 0 2))
    (toy_record key_c [key_b; key_d] 0 3)) (toy_record key_d [key_c] 0 4).
Definition toy_line : NeighborhoodDatabase := put_node key_a toy_pair_root toy_others.
Definition toy_finder : Neighborhood := mkNeighborhood (toy_wire key_a) true toy_line (Some toy_wallet) 7 [] 1.
Definition toy_front : ProxyServer := handle_bind (proxy_server_new 0 (toy_wire key_a) true (Some 0)).
Definition toy_clients (k : PublicKey) : ProxyClient :=
  client_handle_bind (mkProxyClient [mkSocketAddr (V4 1 1 1 1) 53] (toy_wire k) None ∅ 5 1).

Lemma toy_line_wf : wf toy_line.
Proof.
  apply (wf_add_half_neighbor toy_others key_b (toy_record key_a [] 0 1)); [|by eexists _, (toy_addr 2)|done|done].
  do 3 (apply wf_add; [|rewrite elem_of_keys; intros (r & Hr); by vm_compute in Hr|by intros a [= <-]]).
  apply toy_alone_wf.
Qed.

Lemma toy_line_keys k : k ∈ keys toy_line -> k ∈ [key_a; key_b; key_c; key_d].
Proof.
  intros (r & Hr)%elem_of_keys. unfold toy_line, toy_others, toy_alone in Hr.
  rewrite node_by_key_put, !node_by_key_add in Hr.
  repeat (case_bool_decide; [subst k; set_solver|]). done.
Qed.

Lemma toy_wire_pair c k : k ∈ [key_a; key_b; key_c; key_d] -> CryptPair (toy_wire c) (toy_wire k).
Proof.
  intros Hk. apply CryptDENull.null_pair; [done|]. apply CryptDENull.from_keyed; elem_cases Hk; try done;
    repeat constructor; unfold uint; lia.
Qed.

Lemma toy_working : @working toy_eth (fun b => b) toy_route (fun _ => ∅) toy_transport toy_finder toy_wallet [7].
Proof.
  split; try done.
  - split; try done.
    + exact toy_line_wf.
    + intros k Hk%toy_line_keys. split; [by elem_cases Hk|by apply toy_wire_pair].
    + apply toy_wire_pair. set_solver.
    + intros k. by eexists.
  - split.
    + apply Forall_forall. intros k Hk%elem_of_elements%toy_line_keys. split_and!; elem_cases Hk; reflexivity.
    + intros a b _ Hb%elem_of_elements%toy_line_keys. by apply toy_wire_pair.
Qed.

Lemma toy_new_client :
  @new_client no_other_spaces toy_show_key (fun _ => false) (fun b => b) (fun _ => True) toy_front toy_data toy_key toy_payload 0.
Proof. split; try apply TtlHashMap.new_wf_at; try reflexivity; by split_and!. Qed.

Lemma toy_line_has_route :
  match @handle_route_query toy_eth (fun b => b) elements_order (countable_serde LiveHop) (countable_serde Z) toy_finder
    (data_indefinite_route_request 3) with Ret (_, Some _) => true | _ => false end = true.
Proof. vm_compute. reflexivity. Qed.

Lemma client_is_served_witness :
  exists s s' back pkg x c' es ps2, length s = 3%nat /\
    @journey toy_eth (countable_serde _) (countable_serde _) (countable_serde _) toy_route (fun _ => ∅) toy_transport [7]
      key_a s pkg (Hopper.ToProxyClient x) /\ payload x = toy_payload /\
    @exit_run (countable_serde _) (mkExitNode (toy_clients (last_key key_a s)) [] []) (open_stream toy_world x) =
      Ret (mkExitNode c' [] [], es) /\
    @answers_reach_client toy_eth (countable_serde _) (countable_serde _) (countable_serde _) (countable_serde _)
      toy_route (fun _ => ∅) toy_transport [7] (last_key key_a s) s' back c' toy_key (mkSocketAddr (V4 9 9 9 9) 80) ps2 toy_client 0.
Proof.
  destruct (@client_is_served toy_eth toy_eth_ok (fun b => b) elements_order no_other_spaces toy_show_key (fun _ => false) (fun b => b)
    (countable_serde _) (countable_serde _) (countable_serde _) (countable_serde _) (countable_serde _)
    (countable_serde_ok _ _) (countable_serde_ok _ _) (countable_serde_ok _ _) (fun _ => True) (countable_serde_ok _ _)
    toy_route (fun _ => ∅) toy_transport toy_front toy_finder toy_wallet [7] toy_clients (fun _ => ExitPool.new 5 1)
    (fun _ => toy_world) (fun _ => mkSocketAddr (V4 9 9 9 9) 80) toy_data toy_key toy_payload 0 0 0)
    as (ps1 & nh' & answer & E1 & E2 & E3).
  - reflexivity.
  - exact toy_working.
  - exact toy_new_client.
  - done.
  - intros e _ _. split; [done|].
    split; [done|split; [done|apply not_elem_of_nil]|done|by exists (lit "a.b"), [V4 9 9 9 9]|done].
  - lia.
  - pose proof toy_line_has_route as Hroute. rewrite E2 in Hroute. destruct answer as [response|]; [|done].
    destruct E3 as (exit_key & s & s' & over & back & id & pkg & reports & ps2 & x & c' & es & Hx & Hlen & _ & _ & _ & _ & Hj & Hp & Hrun & _ & Ha).
    subst exit_key. exists s, s', back, pkg, x, c', es, ps2. split; [exact Hlen|]. split; [exact Hj|]. split; [exact Hp|].
    split; [exact Hrun|exact Ha].
Defined.
